(* ===== verification/_CoqProject ===== *)
-Q . S2P
Prelude.v
Machine.v
Utf8.v
Float.v
Types.v
DateTime.v
TableDef.v
WalCodec.v
BTree.v
BTreeRep.v
BTreeOps.v
BTreeWrite.v
BTreeScan.v
BTreeRemove.v
BTreeSpec.v
Mvcc.v
Epoch.v
Page.v
Kv.v
Table.v
TableSpec.v
TableScan.v
TableFrame.v
RowRules.v
Literal.v
Lexer.v
Expr.v
Ast.v
Parser.v
ParseStmt.v
ParserTotal.v
Print.v
PrintLex.v
ParserSpec.v
ParseStmtSpec.v
Batch.v
BatchSpec.v
BatchAgg.v
Plan.v
PlanSpec.v
Cost.v
Join.v
JoinSpec.v
Visible.v
VisibleSpec.v
Catalog.v
Recovery.v
RecoverySpec.v
RecoveryLoad.v
RecoveryLog.v
Session.v
Privilege.v
PrivilegeSpec.v
Engine.v
Fk.v
Subquery.v
Dml.v
Ddl.v
Execute.v
CommitSpec.v
DurableSpec.v
ReplProtocol.v
Backup.v
Replica.v
ReplicaSpec.v
Packet.v
Sha.v
Auth.v
AuthSpec.v
Stmt.v
StmtSpec.v
