(* ===== verification/Prelude.v ===== *)
(** * henchDB: verification development

    henchDB is a single-node relational engine (crates/engine) with a MySQL and
    PostgreSQL compatible server (crates/server).  This library models the core
    of the engine as executable definitions and proves what each part promises.

    ** How the parts interact

    A statement is planned (db/plan.rs, db/cost.rs), its rows are sourced from
    a table (table.rs) through an access path, rewritten to the reader's
    snapshot (db/mvcc.rs), overlaid with the writes its transaction staged and
    filtered (sql/eval.rs, db/mod.rs), or streamed column-wise through the
    batch executor (db/batch.rs).  A table keeps its rows in a B-link tree
    (btree.rs) under order-preserving keys (types.rs), wide rows in slotted
    pages behind locators (page.rs), and one more tree per secondary index.
    Commits append records to a write-ahead log (wal.rs), record superseded
    rows in the version buffer and install the writes.  Nodes and pages taken
    out of use are reclaimed by epochs (epoch.rs).

    ** Files

    - [Prelude]: strings as byte lists, the error type (error.rs), the result
      type with panics as a third outcome, cursor decoders, shared list lemmas.
    - [Machine], [Utf8], [Float], [DateTime]: fixed-width integers and their byte
      orders, lexicographic order, UTF-8, binary64 by bit patterns (through
      SpecFloat), and the civil calendar (types.rs).
    - [Types]: values, row codec, primary and secondary key codecs (types.rs).
    - [TableDef], [WalCodec]: schemas and statistics (table.rs, stats.rs) and
      their encodings, log records, framing, CRC and both log readers (wal.rs).
    - [BTree] and [BTreeRep] ... [BTreeSpec]: the tree over a heap of nodes
      (btree.rs), its representation predicate, and one file per group of
      operations; [Kv] is the interface (classes [KvTree] and [KvTreeOk]) that
      the table layer uses, implemented by the tree and by a finite map.
    - [Mvcc]: version buffer, pins and the critical sections of a commit as
      interleaving steps (db/mvcc.rs, db/mod.rs).
    - [Epoch]: epoch-based reclamation in steps that follow the atomic accesses
      (epoch.rs, and the quarantine of page.rs).
    - [Page]: slotted pages byte by byte, locators, superblock (page.rs).
    - [Table], [TableSpec], [TableScan], [RowRules]: tables over the interfaces of
      trees and of the value pool, their refinement to a map of rows, scans,
      index builds, row typing and AUTO_INCREMENT (table.rs).
    - [Expr]: predicates, coercions and LIKE (sql/ast.rs, sql/eval.rs).
    - [Batch], [BatchSpec], [BatchAgg]: columnar batches, vectorized filters and
      aggregates, and their parity with row-at-a-time execution (db/batch.rs,
      db/query.rs).
    - [Plan], [PlanSpec], [Cost]: access-path selection, its soundness, the cost
      model and predicate pushdown (db/plan.rs, db/cost.rs).
    - [Visible], [VisibleSpec]: which rows a statement sees (visible_row and
      visible_rows of db/mod.rs), composing plan, table, snapshot, staged
      writes and the WHERE clause.
    - [TableFrame]: which fields of a table an operation touches.
    - [Catalog]: the snapshot file of a checkpoint (catalog.rs).
    - [Recovery], [RecoverySpec], [RecoveryLoad], [RecoveryLog]: opening a
      database from snapshot and log, the abstract database it refines (named
      tables of rows sharing one pool), and whole histories of commits, crashes,
      checkpoints and opens (Database::open, apply_records and checkpoint of
      db/mod.rs, automatic foreign-key indexes of db/fk.rs).

    - [Literal], [Lexer], [Ast], [Parser], [ParseStmt]: text to syntax (sql/lexer.rs,
      sql/ast.rs, sql/parser.rs); [Parser] holds expressions and SELECT, tied
      by the fuel of [parsers], [ParseStmt] every other statement and
      [parse_sql].  [ParserTotal] bounds their rounds; [Print] and [PrintLex]
      are a printer of statements and what the lexer does with its text;
      [ParserSpec] and [ParseStmtSpec] show that parsing inverts it.

    - [Join], [JoinSpec]: scopes of joined tables, name resolution, nested loop
      and hash joins, the greedy join order (db/join.rs, db/plan.rs).

    - [Session], [Privilege], [PrivilegeSpec]: the state of a client session,
      accounts and grants and the gate of every statement (db/privilege.rs).
    - [Engine], [Dml], [Ddl], [Fk], [Subquery], [Execute]: one statement at a
      time over the whole engine: table routing, the commit of staged writes
      (commit_txn of db/mod.rs), INSERT, UPDATE and DELETE (db/dml.rs), the
      catalog statements (db/ddl.rs), foreign keys (db/fk.rs), the splitting of
      a clause with subqueries (db/subquery.rs), and the dispatcher
      (execute_stmt of db/mod.rs).
    - [CommitSpec], [DurableSpec]: what a commit promises, and the histories of
      many sessions, crashes included, that it composes to.

    - [ReplProtocol], [Replica], [ReplicaSpec]: the frames between a primary and
      its replicas on sockets that time out (server/src/replication/protocol.rs),
      the node that applies batches and snapshots (db/replica.rs), the thread
      that follows a primary and what the primary feeds it
      (server/src/replication/replica.rs, primary.rs).
    - [Backup]: the HDBB archive of a database (backup.rs), which is also the
      snapshot a replica starts from.

    - [Packet], [Stmt], [StmtSpec]: the packets of the MySQL endpoint and their
      length-encoded values (server/src/wire/packet.rs), and its prepared
      statements: markers, bound values, their rendering as SQL literals, the
      splitter and the COM_STMT commands (wire/stmt.rs, canned.rs, mod.rs).
    - [Sha], [Auth], [AuthSpec]: the two digests, password proofs, the accounts
      file and the hook that writes it after a privilege change
      (server/src/auth.rs), and the logins that read it (wire/mod.rs,
      wire/pg/mod.rs, replication/primary.rs, main.rs).
    ** What the theorems show

    - Codecs: rows, keys, index keys, table definitions, statistics and dates
      round-trip where the code intends it; keys are ordered as their values;
      the log survives a crash at any byte, and both readers agree.
    - Tree: every sequence of operations that returns behaves as a finite map;
      without removals it always returns; a removal always returns; ranges are
      exact.  After a removal an insertion may restart for ever.
    - Tables: every sequence of row operations behaves as a map from keys to
      rows with all indexes in step; scans and index builds are exact;
      validation is a type checker; generated keys never collide.
    - Pages: a page is a map from slots to records, with valid checksum and
      directory; compaction reclaims every dead byte.
    - Concurrency: snapshots read the state published at their epoch; what a
      guard protects is not reclaimed.  The interleavings in which the code
      breaks these promises are theorems of their own.
    - Queries: batch execution equals scalar execution; an access path covers
      every row the clause is true on; a statement returns exactly the rows of
      its view that satisfy the clause, each once.
    - Recovery: an open yields the snapshot followed by exactly the committed
      transactions of the log; a checkpoint followed by an open loses nothing;
      two histories around a restart that break durability are theorems too.

    - SQL: every text gets a statement or an error, and parsing inverts a
      quoting printer with minimal parentheses on all well-formed statements.

    - Joins: a hash join returns the rows of the nested loop, whichever side
      the table is built from.

    - Privileges: an account other than root holds a privilege only through a
      grant an administrator made since the account was last created.

    - Commits: a commit installs exactly what was staged or nothing; what any
      number of sessions were told is committed survives a crash; an
      installation that fails behind its log records blocks all later writing.

    - Replication: a replica that is sent whole records holds what recovery
      would build from them, and never goes back to an older generation of its
      upstream; a chunk that is cut inside a record stops it for good.  Frames
      arrive as they were sent, and reading one is bounded.

    - Archives: a backup reads back, and damage to it is detected.

    - Clients: a bound value stays one literal of the statement it is bound to;
      a login is welcomed exactly on the right proof; a restart keeps the
      privileges of every account, unless the accounts file was unreadable.
    ** Conventions

    A call that can panic returns in [res] ([Ok], [Err], [Panic]); tree and
    table calls that may not return use [out] with [Fuel], and theorems say how
    much fuel is enough (the height of the tree, the length of the input) or
    that the call returns for the fuel the definition itself uses.  Byte
    strings are lists of [Z]; floats are their 64-bit patterns.  Arithmetic
    that wraps in release builds is written with [wrap_i] and [wrap_u].

    ** Not modelled

    Code that is input/output or threading only (accepting connections, files,
    fsync and the log syncer, latches, metrics), the SELECT executor around the
    joins (projection, grouping, the folding of subqueries, EXPLAIN), archived
    log segments and point-in-time recovery, the handshake packets, result sets
    and canned answers of the MySQL endpoint, the PostgreSQL protocol, TLS and
    the server shell.  Two writers interleaving inside the tree are not modelled
    either: tree operations are sequential, while commits, snapshots, garbage
    collection and epochs interleave.  Values the source only passes to the
    platform (the [Display] of a float, the [Debug] of a syntax tree, the text
    of an I/O error, the entry counter of a tree) are parameters; so are the
    order in which a hash map is walked (class [HashOrder]), the pool reopened
    on another page file (in [Replica]), and, in [Engine], up to which offset
    the syncer gets the log onto the disk (waiting for more is [Fuel]). *)
From stdpp Require Import base list strings gmap sorting.
From Stdlib Require Import ZArith Lia.

#[export] Set Warnings "-notation-overridden,-clear-no-such-hyp,-level-tolerance,-register-all".
#[export] Set Default Goal Selector "!".
#[global] Open Scope Z_scope.

(** * Strings

    A Rust [String], [&str] or [Vec<u8>] is the list of its bytes, each byte a
    [Z] in [0, 256).  [str] turns a literal of the source into those bytes. *)

Abbreviation bytes := (list Z).

Definition str (s : string) : bytes :=
  (fun c => Z.of_N (Ascii.N_of_ascii c)) <$> String.list_ascii_of_string s.

(** [format!("{z}")] for an integer: its decimal digits, most significant
    first.  A number has at most as many decimal as binary digits, so
    [log2 z + 1] rounds are enough. *)
Fixpoint digits_aux (fuel : nat) (z : Z) (acc : bytes) : bytes :=
  match fuel with
  | O => acc
  | S fuel =>
    let acc := (48 + z mod 10) :: acc in
    if z <? 10 then acc else digits_aux fuel (z / 10) acc
  end.

Definition digits (z : Z) : bytes := digits_aux (S (Z.to_nat (Z.log2 z))) z [].

Definition show_Z (z : Z) : bytes := if z <? 0 then 45 :: digits (- z) else digits z.

(** [slice.len()] as a machine integer. *)
Abbreviation Zlen l := (Z.of_nat (length l)).

(** * Errors (error.rs)

    The engine's error enumeration, with the source's constructors and
    payloads. *)

Inductive Error : Type :=
| TableNotFound (t : bytes)
| TableExists (t : bytes)
| ColumnNotFound (c : bytes)
| ColumnCountMismatch (expected got : Z)
| TypeMismatch (expected got : bytes)
| DuplicateKey (k : bytes)
| NotNullViolation (c : bytes)
| MultiplePrimaryKeys
| MissingPrimaryKey
| ParseError (m : bytes)
| TxnNotActive
| TxnConflict (m : bytes)
| Io (m : bytes)
| Corrupted (m : bytes)
| NotSupported (m : bytes)
| IndexNotFound (i : bytes)
| IndexExists (i : bytes)
| ForeignKeyViolation (m : bytes)
| InvalidSchema (m : bytes)
| DatabaseNotFound (d : bytes)
| DatabaseExists (d : bytes)
| QueryTimeout
| ReadOnlyReplica
| InvalidQuery (m : bytes)
| ExecutionError (m : bytes)
| InvalidOperation (m : bytes)
| AccessDenied (user command object : bytes).

(** [impl Display for Error]: the text of a message. *)
Definition show_error (e : Error) : bytes :=
  match e with
  | QueryTimeout => str "Query execution was interrupted, maximum statement execution time exceeded"
  | DatabaseNotFound d => str "database '" ++ d ++ str "' does not exist"
  | DatabaseExists d => str "database '" ++ d ++ str "' already exists"
  | TableNotFound t => str "table '" ++ t ++ str "' does not exist"
  | TableExists t => str "table '" ++ t ++ str "' already exists"
  | ColumnNotFound c => str "column '" ++ c ++ str "' not found"
  | ColumnCountMismatch expected got => str "expected " ++ show_Z expected ++ str " values, got " ++ show_Z got
  | TypeMismatch expected got => str "type mismatch: expected " ++ expected ++ str ", got " ++ got
  | DuplicateKey k => str "duplicate primary key: " ++ k
  | NotNullViolation c => str "column '" ++ c ++ str "' cannot be NULL"
  | MultiplePrimaryKeys => str "only a single-column PRIMARY KEY is supported"
  | MissingPrimaryKey => str "table requires a PRIMARY KEY column"
  | ParseError m => str "parse error: " ++ m
  | TxnNotActive => str "no active transaction"
  | TxnConflict m => str "transaction conflict: " ++ m
  | Io m => str "io error: " ++ m
  | Corrupted m => str "corrupted storage: " ++ m
  | NotSupported m => str "not supported: " ++ m
  | IndexNotFound i => str "index '" ++ i ++ str "' does not exist"
  | IndexExists i => str "index '" ++ i ++ str "' already exists"
  | ForeignKeyViolation m => str "foreign key constraint fails: " ++ m
  | InvalidSchema m => str "invalid schema: " ++ m
  | ReadOnlyReplica => str "The server is running with the --read-only option so it cannot execute this statement"
  | InvalidQuery m => str "invalid query: " ++ m
  | ExecutionError m => str "execution error: " ++ m
  | InvalidOperation m => str "invalid operation: " ++ m
  | AccessDenied user command object =>
      command ++ str " command denied to user '" ++ user ++ str "'@'localhost' for table '" ++ object ++ str "'"
  end.

(** [Result<T>], with the third outcome a Rust call can have: a panic (slice
    index out of range, [unwrap] of a [None], checked arithmetic). *)
Inductive res (A : Type) : Type :=
| Ok (a : A)
| Err (e : Error)
| Panic.
Arguments Ok {A} a.
Arguments Err {A} e.
Arguments Panic {A}.

#[global] Instance res_ret : MRet res := fun A a => Ok a.
#[global] Instance res_bind : MBind res := fun A B k m =>
  match m with Ok a => k a | Err e => Err e | Panic => Panic end.
#[global] Instance res_fmap : FMap res := fun A B f m =>
  match m with Ok a => Ok (f a) | Err e => Err e | Panic => Panic end.

(** A call that neither panics nor returns an error. *)
Definition is_ok {A} (m : res A) : bool := match m with Ok _ => true | _ => false end.

(** A call that does not panic. *)
Definition no_panic {A} (m : res A) : Prop := m <> Panic.

(** * Cursor decoders

    The decoders of the engine have the shape
    [fn f(buf: &[u8], off: &mut usize) -> Result<T>]: they read [buf] at [*off]
    and advance [*off].  [Dec A] is that shape in state-passing style. *)

Definition Dec (A : Type) : Type := bytes -> Z -> res (A * Z).

#[global] Instance dec_ret : MRet Dec := fun A a _ off => Ok (a, off).
#[global] Instance dec_bind : MBind Dec := fun A B k m buf off =>
  match m buf off with
  | Ok (a, off') => k a buf off'
  | Err e => Err e
  | Panic => Panic
  end.

(** [return Err(e)] inside a decoder. *)
Definition dec_fail {A} (e : Error) : Dec A := fun _ _ => Err e.

(** [buf.get( *off).ok_or(e)?] followed by [*off += 1]. *)
Definition get_byte (e : Error) : Dec Z := fun buf off =>
  match buf !! Z.to_nat off with
  | Some b => Ok (b, off + 1)
  | None => Err e
  end.

(** [if *off + n > buf.len() { return Err(e) }], then the slice
    [buf[*off .. *off + n]] and [*off += n]. *)
Definition get_slice (e : Error) (n : Z) : Dec bytes := fun buf off =>
  if Zlen buf <? off + n then Err e
  else Ok (take (Z.to_nat n) (drop (Z.to_nat off) buf), off + n).

(** [*off < buf.len()]: the tolerant-section test of the table codec. *)
Definition more_bytes : Dec bool := fun buf off => Ok (off <? Zlen buf, off).

(** [for _ in 0..n { v.push(f(buf, off)?) }]. *)
Fixpoint dec_list {A} (n : nat) (d : Dec A) : Dec (list A) :=
  match n with
  | O => mret []
  | S n => x ← d; xs ← dec_list n d; mret (x :: xs)
  end.

(** [d] reads exactly [bs] as [x], wherever [bs] sits in the buffer. *)
Definition decodes {A} (d : Dec A) (bs : bytes) (x : A) : Prop :=
  forall pre post,
    d (pre ++ bs ++ post) (Zlen pre) = Ok (x, Zlen pre + Zlen bs).

(** A codec: an encoder, a decoder, the values it round-trips, and the law. *)
Class Codec (A : Type) (enc : A -> bytes) (dec : Dec A) (wf : A -> Prop) : Prop :=
  codec_law : forall a, wf a -> decodes dec (enc a) a.

(** * Tactics *)

(** Split boolean guards in hypotheses and the goal into propositions. *)
Ltac bsimp :=
  repeat match goal with
  | H : _ && _ = true |- _ => apply andb_true_iff in H as [? ?]
  | H : _ || _ = false |- _ => apply orb_false_iff in H as [? ?]
  | H : negb _ = true |- _ => apply negb_true_iff in H
  | H : negb _ = false |- _ => apply negb_false_iff in H
  | H : (_ =? _) = true |- _ => apply Z.eqb_eq in H
  | H : (_ =? _) = false |- _ => apply Z.eqb_neq in H
  | H : (_ <? _) = true |- _ => apply Z.ltb_lt in H
  | H : (_ <? _) = false |- _ => apply Z.ltb_ge in H
  | H : (_ <=? _) = true |- _ => apply Z.leb_le in H
  | H : (_ <=? _) = false |- _ => apply Z.leb_gt in H
  | H : bool_decide _ = true |- _ => apply bool_decide_eq_true in H
  | H : bool_decide _ = false |- _ => apply bool_decide_eq_false in H
  end.

(** Case on the first [if]/[match] scrutinee of the goal or a hypothesis. *)
Ltac destr_match :=
  match goal with
  | |- context [match ?x with _ => _ end] => destruct x eqn:?
  | H : context [match ?x with _ => _ end] |- _ => destruct x eqn:?
  end.

(** Decide a boolean comparison the context settles. *)
Ltac zb :=
  repeat match goal with
  | |- context [?a <? ?b] =>
      first [ rewrite (proj2 (Z.ltb_lt a b)) by lia
            | rewrite (proj2 (Z.ltb_ge a b)) by lia ]
  | |- context [?a <=? ?b] =>
      first [ rewrite (proj2 (Z.leb_le a b)) by lia
            | rewrite (proj2 (Z.leb_gt a b)) by lia ]
  | |- context [?a =? ?b] =>
      first [ rewrite (proj2 (Z.eqb_eq a b)) by lia
            | rewrite (proj2 (Z.eqb_neq a b)) by lia ]
  end.

Create HintDb codec.

(** * Generic lemmas *)

Lemma Zlen_app {A} (l k : list A) : Zlen (l ++ k) = Zlen l + Zlen k.
Proof. rewrite length_app. lia. Qed.

Lemma Zlen_cons {A} (x : A) l : Zlen (x :: l) = 1 + Zlen l.
Proof. cbn [length]. lia. Qed.

(** The number a string of ASCII digits spells, read left to right from [a]. *)
Definition dec_value (a : Z) (s : bytes) : Z :=
  fold_left (fun a c => a * 10 + (c - 48)) s a.

Definition is_digit (c : Z) : bool := (48 <=? c) && (c <=? 57).

Lemma dec_value_app a s r : dec_value a (s ++ r) = dec_value (dec_value a s) r.
Proof. apply fold_left_app. Qed.

Lemma dec_value_split a s : dec_value a s = a * 10 ^ Zlen s + dec_value 0 s.
Proof.
  revert a. induction s as [|c s IH] using rev_ind; intros a.
  - unfold dec_value. cbn. lia.
  - rewrite !dec_value_app, IH, Zlen_app. cbn. rewrite Z.pow_add_r by lia. lia.
Qed.

Lemma digits_aux_spec fuel z acc :
  0 <= z < 2 ^ Z.of_nat fuel -> forallb is_digit acc = true ->
  forallb is_digit (digits_aux fuel z acc) = true /\
  dec_value 0 (digits_aux fuel z acc) = z * 10 ^ Zlen acc + dec_value 0 acc.
Proof.
  revert z acc. induction fuel as [|fuel IH]; intros z acc Hz Ha; cbn [digits_aux].
  - change (2 ^ Z.of_nat 0) with 1 in Hz. split; [done | lia].
  - pose proof (Z.div_mod z 10 ltac:(lia)). pose proof (Z.mod_pos_bound z 10 ltac:(lia)).
    rewrite Nat2Z.inj_succ, Z.pow_succ_r in Hz by lia.
    assert (dec_value 0 ((48 + z mod 10) :: acc) = z mod 10 * 10 ^ Zlen acc + dec_value 0 acc)
      as Hc by (unfold dec_value at 1; cbn [fold_left]; fold (dec_value (0 * 10 + (48 + z mod 10 - 48)) acc);
                rewrite dec_value_split; lia).
    assert (forallb is_digit ((48 + z mod 10) :: acc) = true) as Hd.
    { cbn. rewrite Ha. unfold is_digit. rewrite !(proj2 (Z.leb_le _ _)) by lia. done. }
    destruct (Z.ltb_spec z 10).
    + split; [done|]. rewrite Hc, Z.mod_small by lia. lia.
    + destruct (IH (z / 10) _ ltac:(lia) Hd) as [I1 I2]. split; [done|].
      rewrite I2, Hc. cbn [length]. rewrite Nat2Z.inj_succ, Z.pow_succ_r by lia. lia.
Qed.

Lemma digits_spec z :
  0 <= z -> forallb is_digit (digits z) = true /\ dec_value 0 (digits z) = z.
Proof.
  intros Hz. destruct (digits_aux_spec (S (Z.to_nat (Z.log2 z))) z []) as [H1 H2]; [|done|].
  - rewrite Nat2Z.inj_succ, Z2Nat.id by apply Z.log2_nonneg.
    destruct (Z.eq_dec z 0) as [->|]; [cbn; lia|].
    pose proof (Z.log2_spec z). lia.
  - split; [done|]. unfold digits. rewrite H2. unfold dec_value. cbn. lia.
Qed.

Lemma digits_aux_ne fuel z acc : acc <> [] -> digits_aux fuel z acc <> [].
Proof.
  revert z acc. induction fuel as [|fuel IH]; intros z acc Ha; cbn; [done|].
  destruct (z <? 10); [done|]. by apply IH.
Qed.

Lemma digits_ne z : digits z <> [].
Proof.
  unfold digits. cbn [digits_aux]. destruct (z <? 10); [done|]. by apply digits_aux_ne.
Qed.

Lemma drop_Zlen_app {A} (l k : list A) : drop (Z.to_nat (Zlen l)) (l ++ k) = k.
Proof. rewrite Nat2Z.id. apply drop_app_length. Qed.

Lemma take_Zlen_app {A} (l k : list A) : take (Z.to_nat (Zlen l)) (l ++ k) = l.
Proof. rewrite Nat2Z.id. apply take_app_length. Qed.

Lemma lookup_Zlen_app {A} (l : list A) x k : (l ++ x :: k) !! Z.to_nat (Zlen l) = Some x.
Proof. rewrite Nat2Z.id. apply list_lookup_middle. done. Qed.

Lemma res_bind_Ok {A B} (m : res A) (k : A -> res B) b :
  (m ≫= k) = Ok b <-> exists a, m = Ok a /\ k a = Ok b.
Proof.
  destruct m; cbn; split.
  all: first [by intros (? & [=] & ?) | by eauto | idtac].
  - intros (? & [= ->] & ?). done.
Qed.

(** The combinators of [Dec] compose [decodes] facts left to right, so a
    decoder's round trip follows the shape of its code. *)

Lemma decodes_ret {A} (x : A) : decodes (mret x) [] x.
Proof. intros pre post. cbn. rewrite Z.add_0_r. done. Qed.

Lemma decodes_bind {A B} (d : Dec A) (k : A -> Dec B) b1 b2 x y :
  decodes d b1 x -> decodes (k x) b2 y -> decodes (d ≫= k) (b1 ++ b2) y.
Proof.
  intros Hd Hk pre post.
  unfold mbind, dec_bind. rewrite <- app_assoc, (Hd pre (b2 ++ post)).
  specialize (Hk (pre ++ b1) post).
  rewrite <- app_assoc, !Zlen_app in Hk. rewrite Hk, Zlen_app.
  do 2 f_equal. lia.
Qed.

(** Post-processing of a value already read. *)
Lemma decodes_bind_ret {A B} (d : Dec A) (f : A -> B) bs x :
  decodes d bs x -> decodes (a ← d; mret (f a)) bs (f x).
Proof.
  intros Hd. rewrite <- (app_nil_r bs).
  eapply decodes_bind; [done | apply decodes_ret].
Qed.

Lemma decodes_get_byte e b : decodes (get_byte e) [b] b.
Proof. intros pre post. unfold get_byte. cbn. rewrite lookup_Zlen_app. done. Qed.

Lemma decodes_get_slice e n bs : Zlen bs = n -> decodes (get_slice e n) bs bs.
Proof.
  intros <- pre post. unfold get_slice.
  rewrite !Zlen_app. zb. rewrite drop_Zlen_app, take_Zlen_app. done.
Qed.

(** A tolerant section is entered whenever at least one byte follows. *)
Lemma decodes_more_bytes {B} (k : bool -> Dec B) bs y :
  bs <> [] -> decodes (k true) bs y -> decodes (more_bytes ≫= k) bs y.
Proof.
  intros Hne Hk pre post. unfold mbind, dec_bind, more_bytes.
  rewrite !Zlen_app. destruct bs as [|b bs]; [done|].
  rewrite Zlen_cons. zb. rewrite <- (Zlen_cons b bs). apply Hk.
Qed.

(** A counted loop; [f] is what one round makes of an encoded element. *)
Lemma decodes_list {A B} (enc : A -> bytes) (f : A -> B) (d : Dec B) xs :
  (forall x, x ∈ xs -> decodes d (enc x) (f x)) ->
  decodes (dec_list (length xs) d) (mjoin (enc <$> xs)) (f <$> xs).
Proof.
  induction xs as [|x xs IH]; intros Hx; cbn; [apply decodes_ret|].
  eapply decodes_bind; [apply Hx; set_solver|].
  apply (decodes_bind_ret _ (fun l => f x :: l)). apply IH. set_solver.
Qed.

(** [decodes] determines the encoding's value: two values with the same
    encoding are equal. *)
Lemma decodes_inj {A} (d : Dec A) bs x y : decodes d bs x -> decodes d bs y -> x = y.
Proof. intros Hx Hy. specialize (Hx [] []). specialize (Hy [] []). congruence. Qed.

(** Sorted lists. *)

Lemma sorted_filter {A} (R : A -> A -> Prop) f l : StronglySorted R l -> StronglySorted R (List.filter f l).
Proof.
  induction 1 as [|x l _ IH Hall]; cbn; [constructor|]. destruct (f x); [|done]. constructor; [done|].
  rewrite Forall_forall in Hall |- *. intros y Hy. apply Hall. rewrite list_elem_of_In in *.
  by apply filter_In in Hy as [? _].
Qed.

Lemma sorted_weaken {A} (R S : A -> A -> Prop) l :
  (forall x y, R x y -> S x y) -> StronglySorted R l -> StronglySorted S l.
Proof. intros H. induction 1; constructor; [done|]. eapply Forall_impl; [done|]. auto. Qed.

Lemma sorted_nodup {A} (R : A -> A -> Prop) `{!Irreflexive R} l : StronglySorted R l -> NoDup l.
Proof.
  induction 1 as [|x l _ IH Hall]; constructor; [|done]. intros Hx. rewrite Forall_forall in Hall.
  by apply (irreflexivity R x), Hall.
Qed.

Lemma fmap_filter_fst {A B} (f : A -> bool) (l : list (A * B)) :
  (List.filter (fun e => f e.1) l).*1 = List.filter f l.*1.
Proof. induction l as [|[a b] l IH]; cbn; [done|]. destruct (f a); cbn; by rewrite IH. Qed.

#[export] Hint Resolve decodes_ret decodes_get_byte decodes_get_slice : codec.
