(* ===== verification/Machine.v ===== *)
(** Machine-level data of the engine: fixed-width integers and their byte
    encodings, byte-string order ([memcmp]), UTF-8 validity and IEEE-754
    binary64 values by their bit pattern. *)
From stdpp Require Import base list gmap.
From Stdlib Require Import ZArith Lia SpecFloat.
From S2P Require Import Prelude.

(** * Fixed-width integers *)

Definition in_u (w z : Z) : Prop := 0 <= z < 2 ^ w.
Definition in_i (w z : Z) : Prop := - 2 ^ (w - 1) <= z < 2 ^ (w - 1).

Definition wrap_u (w z : Z) : Z := z mod 2 ^ w.
Definition wrap_i (w z : Z) : Z := (z + 2 ^ (w - 1)) mod 2 ^ w - 2 ^ (w - 1).

Abbreviation u8 := (in_u 8).
Abbreviation u32 := (in_u 32).
Abbreviation u64 := (in_u 64).
Abbreviation i64 := (in_i 64).

Definition i64_MIN : Z := - 2 ^ 63.
Definition i64_MAX : Z := 2 ^ 63 - 1.
Definition u64_MAX : Z := 2 ^ 64 - 1.

(** Expose the bounds behind the width predicates. *)
Ltac widths :=
  unfold in_u, in_i in *;
  repeat change (64 - 1) with 63 in *;
  repeat change (8 * Z.of_nat 8) with 64 in *;
  repeat change (8 * Z.of_nat 4) with 32 in *.

(** [n.to_le_bytes()] / [to_be_bytes()] of an [8*w]-bit integer (signed values
    in two's complement), and the inverse readings. *)
Fixpoint to_le (w : nat) (z : Z) : bytes :=
  match w with
  | O => []
  | S w => z mod 256 :: to_le w (z / 256)
  end.

Definition to_be (w : nat) (z : Z) : bytes := rev (to_le w z).

Fixpoint of_le (bs : bytes) : Z :=
  match bs with
  | [] => 0
  | b :: bs => b + 256 * of_le bs
  end.

Definition of_be (bs : bytes) : Z := of_le (rev bs).

Definition i64_of_le (bs : bytes) : Z := wrap_i 64 (of_le bs).
Definition i64_of_be (bs : bytes) : Z := wrap_i 64 (of_be bs).

(** * Byte-string order: [Ord] of [[u8]] and of [str] *)

Fixpoint lex (a b : bytes) : comparison :=
  match a, b with
  | [], [] => Eq
  | [], _ :: _ => Lt
  | _ :: _, [] => Gt
  | x :: a, y :: b => match x ?= y with Eq => lex a b | c => c end
  end.

Definition bool_cmp (a b : bool) : comparison :=
  match a, b with
  | true, false => Gt
  | false, true => Lt
  | _, _ => Eq
  end.

(** * UTF-8: the byte strings [String::from_utf8] accepts *)

Definition cont (b : Z) : bool := (0x80 <=? b) && (b <=? 0xBF).

Definition between (lo b hi : Z) : bool := (lo <=? b) && (b <=? hi).

Fixpoint utf8_valid (bs : bytes) : bool :=
  match bs with
  | [] => true
  | b0 :: r0 =>
    if between 0 b0 0x7F then utf8_valid r0 else
    match r0 with
    | [] => false
    | b1 :: r1 =>
      if between 0xC2 b0 0xDF then cont b1 && utf8_valid r1 else
      match r1 with
      | [] => false
      | b2 :: r2 =>
        if b0 =? 0xE0 then between 0xA0 b1 0xBF && cont b2 && utf8_valid r2 else
        if between 0xE1 b0 0xEC then cont b1 && cont b2 && utf8_valid r2 else
        if b0 =? 0xED then between 0x80 b1 0x9F && cont b2 && utf8_valid r2 else
        if between 0xEE b0 0xEF then cont b1 && cont b2 && utf8_valid r2 else
        match r2 with
        | [] => false
        | b3 :: r3 =>
          if b0 =? 0xF0 then between 0x90 b1 0xBF && cont b2 && cont b3 && utf8_valid r3 else
          if between 0xF1 b0 0xF3 then cont b1 && cont b2 && cont b3 && utf8_valid r3 else
          if b0 =? 0xF4 then between 0x80 b1 0x8F && cont b2 && cont b3 && utf8_valid r3 else
          false
        end
      end
    end
  end.

Definition from_utf8 (e : Error) (bs : bytes) : res bytes :=
  if utf8_valid bs then Ok bs else Err e.

(** * binary64 by bit pattern *)

(** The IEEE value of a 64-bit pattern. *)
Definition f64_value (bits : Z) : spec_float :=
  let s := Z.testbit bits 63 in
  let e := (bits / 2 ^ 52) mod 2 ^ 11 in
  let m := bits mod 2 ^ 52 in
  if e =? 2047 then (if m =? 0 then S754_infinity s else S754_nan)
  else if e =? 0 then (if m =? 0 then S754_zero s else S754_finite s (Z.to_pos m) (-1074))
  else S754_finite s (Z.to_pos (m + 2 ^ 52)) (e - 1075).

(** The pattern of a canonical value (NaN as the quiet NaN). *)
Definition f64_bits (v : spec_float) : Z :=
  let sgn (s : bool) := if s then 2 ^ 63 else 0 in
  match v with
  | S754_zero s => sgn s
  | S754_infinity s => sgn s + 2047 * 2 ^ 52
  | S754_nan => 0x7ff8000000000000
  | S754_finite s m e =>
      if Zpos m <? 2 ^ 52 then sgn s + Zpos m
      else sgn s + (e + 1075) * 2 ^ 52 + (Zpos m - 2 ^ 52)
  end.

(** [i64 as f64]: nearest, ties to even. *)
Definition f64_of_i64 (z : Z) : Z := f64_bits (binary_normalize 53 1024 z 0 false).

Definition f64_partial_cmp (a b : Z) : option comparison :=
  SFcompare (f64_value a) (f64_value b).

(** [==] on [f64]. *)
Definition f64_eqb (a b : Z) : bool :=
  match f64_partial_cmp a b with Some Eq => true | _ => false end.

(** [v >= 0.0]. *)
Definition f64_ge0 (a : Z) : bool :=
  match f64_partial_cmp a 0 with Some Eq | Some Gt => true | _ => false end.

Definition f64_is_nan (a : Z) : bool :=
  match f64_value a with S754_nan => true | _ => false end.

(** * Lemmas: widths *)

Lemma wrap_u_id w z : in_u w z -> wrap_u w z = z.
Proof. intros. unfold wrap_u. apply Z.mod_small. done. Qed.

Lemma wrap_u_range w z : 0 <= w -> in_u w (wrap_u w z).
Proof. intros. apply Z.mod_pos_bound. lia. Qed.

Lemma pow2_split w : 0 < w -> 2 ^ w = 2 * 2 ^ (w - 1).
Proof. intros. rewrite <- Z.pow_succ_r by lia. f_equal. lia. Qed.

Lemma wrap_i_id w z : 0 < w -> in_i w z -> wrap_i w z = z.
Proof.
  intros Hw H. unfold wrap_i, in_i in *. pose proof (pow2_split w Hw).
  rewrite Z.mod_small by lia. lia.
Qed.

Lemma wrap_i_range w z : 0 < w -> in_i w (wrap_i w z).
Proof.
  intros Hw. unfold wrap_i, in_i. pose proof (pow2_split w Hw).
  pose proof (Z.mod_pos_bound (z + 2 ^ (w - 1)) (2 ^ w)). lia.
Qed.

Lemma wrap_i_wrap_u w z : 0 < w -> in_i w z -> wrap_i w (wrap_u w z) = z.
Proof.
  intros Hw H. rewrite <- (wrap_i_id w z Hw H) at 2. unfold wrap_i, wrap_u.
  f_equal. apply Zplus_mod_idemp_l.
Qed.

(** * Lemmas: byte encodings of integers *)

Lemma length_to_le w z : length (to_le w z) = w.
Proof. revert z. induction w; cbn; auto. Qed.

Lemma Zlen_to_le w z : Zlen (to_le w z) = Z.of_nat w.
Proof. by rewrite length_to_le. Qed.

Lemma length_to_be w z : length (to_be w z) = w.
Proof. unfold to_be. rewrite length_rev. apply length_to_le. Qed.

Lemma pow256_S w : 256 ^ Z.of_nat (S w) = 256 * 256 ^ Z.of_nat w.
Proof. rewrite Nat2Z.inj_succ, Z.pow_succ_r; lia. Qed.

Lemma of_le_to_le w z : of_le (to_le w z) = z mod 256 ^ Z.of_nat w.
Proof.
  revert z. induction w as [|w IH]; intros z; cbn [to_le of_le].
  - rewrite Z.mod_1_r. done.
  - rewrite IH, pow256_S, Z.rem_mul_r by lia. done.
Qed.

Lemma of_be_to_be w z : of_be (to_be w z) = z mod 256 ^ Z.of_nat w.
Proof. unfold of_be, to_be. rewrite rev_involutive. apply of_le_to_le. Qed.

Lemma of_le_to_le_u w z : in_u (8 * Z.of_nat w) z -> of_le (to_le w z) = z.
Proof.
  intros H. rewrite of_le_to_le. apply Z.mod_small.
  change 256 with (2 ^ 8). rewrite <- Z.pow_mul_r by lia. done.
Qed.

Lemma of_be_to_be_u w z : in_u (8 * Z.of_nat w) z -> of_be (to_be w z) = z.
Proof. intros H. unfold of_be, to_be. rewrite rev_involutive. by apply of_le_to_le_u. Qed.

Lemma i64_of_le_to_le z : i64 z -> i64_of_le (to_le 8 z) = z.
Proof.
  intros H. unfold i64_of_le. rewrite of_le_to_le.
  change (256 ^ Z.of_nat 8) with (2 ^ 64). apply (wrap_i_wrap_u 64); [lia | done].
Qed.

(** Encodings only see the value modulo the width. *)
Lemma to_le_mod_eq w a b :
  a mod 256 ^ Z.of_nat w = b mod 256 ^ Z.of_nat w -> to_le w a = to_le w b.
Proof.
  revert a b. induction w as [|w IH]; intros a b H; cbn [to_le]; [done|].
  rewrite pow256_S, !Z.rem_mul_r in H by lia.
  pose proof (Z.mod_pos_bound a 256). pose proof (Z.mod_pos_bound b 256).
  f_equal; [lia | apply IH; lia].
Qed.

Lemma to_le_u8 w z : Forall u8 (to_le w z).
Proof.
  revert z. induction w; intros z; constructor; [|done].
  apply Z.mod_pos_bound. lia.
Qed.

Lemma to_be_u8 w z : Forall u8 (to_be w z).
Proof. apply Forall_rev, to_le_u8. Qed.

(** * Lemmas: byte-string order *)

Lemma lex_refl a : lex a a = Eq.
Proof. induction a; cbn; [done|]. by rewrite Z.compare_refl. Qed.

Lemma lex_eq a b : lex a b = Eq -> a = b.
Proof.
  revert b. induction a as [|x a IH]; intros [|y b]; cbn; try done.
  destruct (x ?= y) eqn:E; try done. apply Z.compare_eq in E as ->.
  intros H. f_equal. auto.
Qed.

Lemma lex_antisym a b : lex b a = CompOpp (lex a b).
Proof.
  revert b. induction a as [|x a IH]; intros [|y b]; cbn; try done.
  rewrite (Z.compare_antisym x y). destruct (x ?= y); cbn; auto.
Qed.

Lemma lex_lt_trans a b c : lex a b = Lt -> lex b c = Lt -> lex a c = Lt.
Proof.
  revert b c. induction a as [|x a IH]; intros [|y b] [|z c]; cbn; try done.
  destruct (Z.compare_spec x y), (Z.compare_spec y z); subst; try done; intros.
  - rewrite Z.compare_refl. eauto.
  - by rewrite (proj2 (Z.compare_lt_iff y z)).
  - by rewrite (proj2 (Z.compare_lt_iff x z)).
  - by rewrite (proj2 (Z.compare_lt_iff x z)) by lia.
Qed.

Lemma lex_app_same p a b : lex (p ++ a) (p ++ b) = lex a b.
Proof. induction p; cbn; [done|]. by rewrite Z.compare_refl. Qed.

Lemma lex_app_len a b p q :
  length a = length b ->
  lex (a ++ p) (b ++ q) = match lex a b with Eq => lex p q | c => c end.
Proof.
  revert b. induction a as [|x a IH]; intros [|y b]; cbn; try done.
  intros [= H]. rewrite IH by done. by destruct (x ?= y).
Qed.

Lemma of_le_app a b : of_le (a ++ b) = of_le a + 256 ^ Zlen a * of_le b.
Proof.
  induction a as [|x a IH]; cbn [of_le app].
  - rewrite Z.pow_0_r. lia.
  - rewrite IH. cbn [length]. rewrite pow256_S. lia.
Qed.

Lemma of_le_bound a : Forall u8 a -> 0 <= of_le a < 256 ^ Zlen a.
Proof.
  induction 1 as [|x a Hx _ IH]; cbn [of_le length]; [lia|].
  rewrite pow256_S. unfold in_u in Hx. change (2 ^ 8) with 256 in Hx. lia.
Qed.

Lemma of_be_cons x a : of_be (x :: a) = x * 256 ^ Zlen a + of_be a.
Proof.
  unfold of_be. cbn [rev]. rewrite of_le_app, length_rev. cbn [of_le]. lia.
Qed.

Lemma of_be_bound a : Forall u8 a -> 0 <= of_be a < 256 ^ Zlen a.
Proof.
  intros H. unfold of_be. rewrite <- length_rev. apply of_le_bound.
  by apply Forall_rev.
Qed.

(** Big-endian bytes compare like the numbers they encode. *)
Lemma lex_of_be a b :
  length a = length b -> Forall u8 a -> Forall u8 b ->
  lex a b = (of_be a ?= of_be b).
Proof.
  revert b. induction a as [|x a IH]; intros [|y b]; try done.
  intros [= Hl] Ha Hb. inversion Ha; inversion Hb; subst.
  cbn [lex]. rewrite !of_be_cons, Hl, IH by done.
  pose proof (of_be_bound a ltac:(done)) as Ba. pose proof (of_be_bound b ltac:(done)) as Bb.
  rewrite Hl in Ba. set (P := 256 ^ Zlen b) in *.
  destruct (Z.compare_spec x y) as [->|Hlt|Hgt].
  - symmetry. rewrite Z.add_compare_mono_l. done.
  - symmetry. apply Z.compare_lt_iff. nia.
  - symmetry. apply Z.compare_gt_iff. nia.
Qed.

Lemma lex_to_be w a b :
  in_u (8 * Z.of_nat w) a -> in_u (8 * Z.of_nat w) b ->
  lex (to_be w a) (to_be w b) = (a ?= b).
Proof.
  intros Ha Hb. rewrite lex_of_be.
  - by rewrite !of_be_to_be_u.
  - by rewrite !length_to_be.
  - apply to_be_u8.
  - apply to_be_u8.
Qed.

(** * Lemmas: UTF-8 *)

Lemma between_true lo b hi : between lo b hi = true -> lo <= b <= hi.
Proof. unfold between. intros. bsimp. lia. Qed.

Ltac utf8_step :=
  repeat match goal with
  | H : (if ?c then _ else _) = true |- _ => destruct c eqn:?
  | H : match ?l with [] => false | _ => _ end = true |- _ => destruct l; [done|]
  | H : _ && _ = true |- _ => apply andb_true_iff in H as [? ?]
  | H : between _ _ _ = true |- _ => apply between_true in H
  | H : cont _ = true |- _ => apply between_true in H
  | H : (_ =? _) = true |- _ => apply Z.eqb_eq in H
  end.

(** A valid UTF-8 string is a string of bytes. *)
Lemma utf8_u8 s : utf8_valid s = true -> Forall u8 s.
Proof.
  remember (length s) as n eqn:Hn.
  assert (length s <= n)%nat as Hle by lia. clear Hn. revert s Hle.
  induction n as [|n IH]; intros [|b0 s] Hle H; cbn [length] in Hle;
    try constructor; try lia; cbn [utf8_valid] in H; utf8_step;
    cbn [length] in Hle; unfold in_u; try lia; try done;
    repeat constructor; try lia; apply IH; auto; lia.
Qed.

(** * Lemmas: binary64 *)

Lemma SFcompare_antisym a b :
  SFcompare b a = CompOpp <$> SFcompare a b.
Proof.
  destruct a as [[]|[]| |[] m e], b as [[]|[]| |[] m' e']; cbn; try done;
    rewrite (Z.compare_antisym e e'); destruct (e ?= e'); cbn; try done;
    change (Pos.compare_cont Eq m m') with (m ?= m')%positive;
    change (Pos.compare_cont Eq m' m) with (m' ?= m)%positive;
    by rewrite (Pos.compare_antisym m m'); destruct (m ?= m')%positive.
Qed.

Lemma f64_partial_cmp_antisym a b :
  f64_partial_cmp b a = CompOpp <$> f64_partial_cmp a b.
Proof. apply SFcompare_antisym. Qed.

Lemma f64_partial_cmp_refl a : f64_is_nan a = false -> f64_partial_cmp a a = Some Eq.
Proof.
  unfold f64_is_nan, f64_partial_cmp. intros H.
  destruct (f64_value a) as [[]|[]| |[] m e]; cbn; try done;
    rewrite Z.compare_refl;
    change (Pos.compare_cont Eq m m) with (m ?= m)%positive;
    by rewrite Pos.compare_refl.
Qed.

(** * Lemmas: bits *)

Lemma lxor_add a b : Z.land a b = 0 -> Z.lxor a b = a + b.
Proof. intros H. by rewrite Z.add_nocarry_lxor. Qed.

(** A number below [2^k] shares no bit with a multiple of [2^k]. *)
Lemma land_low_high k a c : 0 <= k -> 0 <= a < 2 ^ k -> Z.land a (c * 2 ^ k) = 0.
Proof.
  intros Hk Ha. apply Z.bits_inj_0. intros n. rewrite Z.land_spec.
  destruct (Z.ltb_spec n 0); [by rewrite Z.testbit_neg_r|].
  destruct (Z.ltb_spec n k).
  - rewrite Z.mul_pow2_bits_low by lia. apply andb_false_r.
  - rewrite <- (Z.mod_small a (2 ^ k)) by lia.
    by rewrite Z.mod_pow2_bits_high by lia.
Qed.

(** [!x] on 64 bits. *)
Lemma lxor_u64_MAX x : u64 x -> Z.lxor x u64_MAX = u64_MAX - x.
Proof.
  intros Hx. unfold u64_MAX, in_u in *. change (2 ^ 64 - 1) with (Z.ones 64).
  assert (Z.lxor x (Z.ones 64) = Z.ldiff (Z.ones 64) x) as ->.
  { apply Z.bits_inj'. intros n Hn. rewrite Z.lxor_spec, Z.ldiff_spec.
    destruct (Z.ltb_spec n 64).
    - rewrite Z.ones_spec_low by lia. by destruct (Z.testbit x n).
    - rewrite Z.ones_spec_high by lia. rewrite <- (Z.mod_small x (2 ^ 64)) by lia.
      by rewrite Z.mod_pow2_bits_high by lia. }
  rewrite <- Z.sub_nocarry_ldiff; [done|].
  apply Z.bits_inj_0. intros n. rewrite Z.ldiff_spec.
  destruct (Z.ltb_spec n 0); [by rewrite Z.testbit_neg_r|].
  destruct (Z.ltb_spec n 64).
  - rewrite Z.ones_spec_low by lia. apply andb_false_r.
  - rewrite <- (Z.mod_small x (2 ^ 64)) by lia. by rewrite Z.mod_pow2_bits_high by lia.
Qed.

(** * Lemmas: the order of binary64 bit patterns *)

(** The value of the low 63 bits [b] under sign [s]. *)
Definition mag_value (s : bool) (b : Z) : spec_float :=
  let e := b / 2 ^ 52 in
  let m := b mod 2 ^ 52 in
  if e =? 2047 then (if m =? 0 then S754_infinity s else S754_nan)
  else if e =? 0 then (if m =? 0 then S754_zero s else S754_finite s (Z.to_pos m) (-1074))
  else S754_finite s (Z.to_pos (m + 2 ^ 52)) (e - 1075).

Lemma testbit_63 b : u64 b -> Z.testbit b 63 = (2 ^ 63 <=? b).
Proof.
  intros Hb. widths. rewrite Z.testbit_eqb by lia.
  destruct (Z.leb_spec (2 ^ 63) b).
  - replace (b / 2 ^ 63) with 1; [done|].
    apply Z.div_unique with (b - 2 ^ 63); lia.
  - by rewrite Z.div_small by lia.
Qed.

Lemma f64_value_pos b : 0 <= b < 2 ^ 63 -> f64_value b = mag_value false b.
Proof.
  intros Hb. unfold f64_value, mag_value.
  rewrite testbit_63 by (widths; lia). zb.
  rewrite (Z.mod_small (b / 2 ^ 52)); [done|].
  split; [apply Z.div_pos; lia | apply Z.div_lt_upper_bound; lia].
Qed.

Lemma f64_value_neg b :
  2 ^ 63 <= b < 2 ^ 64 -> f64_value b = mag_value true (b - 2 ^ 63).
Proof.
  intros Hb. unfold f64_value, mag_value.
  rewrite testbit_63 by (widths; lia). zb.
  assert ((b / 2 ^ 52) mod 2 ^ 11 = (b - 2 ^ 63) / 2 ^ 52) as ->.
  { replace b with ((b - 2 ^ 63) + 2 ^ 11 * 2 ^ 52) at 1 by lia.
    rewrite Z.div_add by lia. rewrite <- (Z.mul_1_l (2 ^ 11)) at 1.
    rewrite Z.mod_add by lia. apply Z.mod_small.
    split; [apply Z.div_pos; lia | apply Z.div_lt_upper_bound; lia]. }
  assert (b mod 2 ^ 52 = (b - 2 ^ 63) mod 2 ^ 52) as ->; [|done].
  replace b with ((b - 2 ^ 63) + 2 ^ 11 * 2 ^ 52) at 1 by lia. apply Z.mod_add. lia.
Qed.

Lemma SFcompare_finite_pos m1 e1 m2 e2 :
  SFcompare (S754_finite false m1 e1) (S754_finite false m2 e2)
  = Some (match e1 ?= e2 with Eq => Zpos m1 ?= Zpos m2 | c => c end).
Proof. cbn. by destruct (e1 ?= e2). Qed.

(** Non-negative patterns compare like integers. *)
Lemma mag_cmp a b :
  0 <= a < 2 ^ 63 -> 0 <= b < 2 ^ 63 ->
  mag_value false a <> S754_nan -> mag_value false b <> S754_nan ->
  SFcompare (mag_value false a) (mag_value false b) = Some (a ?= b).
Proof.
  intros Ha Hb. unfold mag_value.
  pose proof (Z.div_mod a (2 ^ 52) ltac:(lia)) as Ea.
  pose proof (Z.div_mod b (2 ^ 52) ltac:(lia)) as Eb.
  pose proof (Z.mod_pos_bound a (2 ^ 52) ltac:(lia)).
  pose proof (Z.mod_pos_bound b (2 ^ 52) ltac:(lia)).
  set (ea := a / 2 ^ 52) in *. set (ma := a mod 2 ^ 52) in *.
  set (eb := b / 2 ^ 52) in *. set (mb := b mod 2 ^ 52) in *.
  clearbody ea ma eb mb.
  repeat match goal with |- context [?x =? ?y] => destruct (Z.eqb_spec x y) end;
    intros; try congruence; rewrite ?SFcompare_finite_pos, ?Z2Pos.id by lia;
    cbn [SFcompare]; f_equal; symmetry;
    first [ apply Z.compare_eq_iff; lia | apply Z.compare_lt_iff; lia
          | apply Z.compare_gt_iff; lia | idtac ].
  all: match goal with |- _ = match ?x ?= ?y with _ => _ end =>
         destruct (Z.compare_spec x y) end;
       first [ apply Z.compare_lt_iff; lia | apply Z.compare_gt_iff; lia
             | match goal with |- _ = (?x ?= ?y) => destruct (Z.compare_spec x y) end;
               first [ apply Z.compare_lt_iff; lia | apply Z.compare_gt_iff; lia
                     | apply Z.compare_eq_iff; lia ] ].
Qed.

Lemma SFcompare_finite_neg m1 e1 m2 e2 :
  SFcompare (S754_finite true m1 e1) (S754_finite true m2 e2)
  = SFcompare (S754_finite false m2 e2) (S754_finite false m1 e1).
Proof.
  rewrite SFcompare_finite_pos. cbn. rewrite (Z.compare_antisym e1 e2).
  destruct (e1 ?= e2); cbn; try done.
  change (Pos.compare_cont Eq m1 m2) with (m1 ?= m2)%positive.
  by rewrite <- (Pos.compare_antisym m1 m2).
Qed.

(** Negation reverses the order. *)
Lemma mag_cmp_neg a b :
  SFcompare (mag_value true a) (mag_value true b)
  = SFcompare (mag_value false b) (mag_value false a).
Proof.
  unfold mag_value.
  repeat match goal with |- context [?x =? ?y] => destruct (x =? y) end;
    try done; apply SFcompare_finite_neg.
Qed.

Lemma mag_value_nan s b : mag_value s b = S754_nan <-> mag_value false b = S754_nan.
Proof.
  unfold mag_value.
  repeat match goal with |- context [?x =? ?y] => destruct (x =? y) end; done.
Qed.

(** A negative pattern other than [-0.0] is below every non-negative one. *)
Lemma mag_cmp_mixed a b :
  0 < a < 2 ^ 63 -> 0 <= b ->
  mag_value true a <> S754_nan -> mag_value false b <> S754_nan ->
  SFcompare (mag_value true a) (mag_value false b) = Some Lt.
Proof.
  intros Ha Hb. unfold mag_value.
  pose proof (Z.div_mod a (2 ^ 52) ltac:(lia)) as Ea.
  repeat match goal with |- context [?x =? ?y] => destruct (Z.eqb_spec x y) end;
    cbn; try done. lia.
Qed.

#[global] Arguments to_le : simpl never.
#[global] Arguments to_be : simpl never.
#[global] Arguments of_le : simpl never.
#[global] Arguments f64_value : simpl never.
