(* ===== verification/Utf8.v ===== *)
(** The characters of a string: [s.chars()], collecting characters into a
    [String], and why the byte order of strings is the order of their
    characters. *)
From stdpp Require Import base list.
From Stdlib Require Import ZArith Lia.
From S2P Require Import Prelude Machine.

(** [char]: a Unicode scalar value. *)
Definition scalar (c : Z) : Prop := 0 <= c < 0xD800 \/ 0xE000 <= c <= 0x10FFFF.

Definition CHAR_MAX : Z := 0x10FFFF.

(** [char::from_u32] *)
Definition char_from_u32 (c : Z) : option Z :=
  if (between 0 c 0xD7FF || between 0xE000 c 0x10FFFF)%bool then Some c else None.

(** [s.chars().collect::<Vec<char>>()], of a valid string. *)
Fixpoint chars (bs : bytes) : list Z :=
  match bs with
  | [] => []
  | b0 :: r0 =>
    if b0 <? 0x80 then b0 :: chars r0 else
    match r0 with
    | [] => []
    | b1 :: r1 =>
      if b0 <? 0xE0 then ((b0 - 0xC0) * 64 + (b1 - 0x80)) :: chars r1 else
      match r1 with
      | [] => []
      | b2 :: r2 =>
        if b0 <? 0xF0 then ((b0 - 0xE0) * 4096 + (b1 - 0x80) * 64 + (b2 - 0x80)) :: chars r2 else
        match r2 with
        | [] => []
        | b3 :: r3 =>
          ((b0 - 0xF0) * 262144 + (b1 - 0x80) * 4096 + (b2 - 0x80) * 64 + (b3 - 0x80)) :: chars r3
        end
      end
    end
  end.

Definition of_char (c : Z) : bytes :=
  if c <? 0x80 then [c]
  else if c <? 0x800 then [0xC0 + c / 64; 0x80 + c mod 64]
  else if c <? 0x10000 then [0xE0 + c / 4096; 0x80 + (c / 64) mod 64; 0x80 + c mod 64]
  else [0xF0 + c / 262144; 0x80 + (c / 4096) mod 64; 0x80 + (c / 64) mod 64; 0x80 + c mod 64].

(** [chars.into_iter().collect::<String>()] *)
Definition of_chars (cs : list Z) : bytes := mjoin (of_char <$> cs).

(** * Lemmas *)

Ltac euclid := Z.to_euclidean_division_equations; lia.

Ltac ltb_cases := repeat match goal with
  | |- context [Z.ltb ?a ?b] => destruct (Z.ltb_spec a b); try (exfalso; lia)
  end.

Lemma of_chars_cons c cs : of_chars (c :: cs) = of_char c ++ of_chars cs.
Proof. done. Qed.

Lemma of_char_ne c : exists b l, of_char c = b :: l.
Proof. unfold of_char. repeat case_match; eauto. Qed.

Lemma chars_valid s : utf8_valid s = true -> of_chars (chars s) = s /\ Forall scalar (chars s).
Proof.
  remember (length s) as n eqn:Hn. assert (length s <= n)%nat as Hle by lia. clear Hn. revert s Hle.
  induction n as [|n IH]; intros [|b0 s] Hle H; cbn [length] in Hle; try (split; [done|constructor]); try lia.
  cbn [utf8_valid] in H. utf8_step; cbn [length] in Hle; try done.
  all: cbn [chars]; ltb_cases.
  all: match goal with Hv : utf8_valid ?r = true |- _ => destruct (IH r ltac:(lia) Hv) as [IH1 IH2] end.
  all: rewrite of_chars_cons, IH1; unfold of_char; ltb_cases; cbn [app]; (split; [|constructor; [unfold scalar; lia|done]]).
  all: repeat (apply (f_equal2 cons); [euclid|]); done.
Qed.

Lemma div64 c : 0 <= c -> exists q r, c / 64 = q /\ c mod 64 = r /\ c = 64 * q + r /\ 0 <= r < 64 /\ 0 <= q.
Proof.
  intros Hc. exists (c / 64), (c mod 64). pose proof (Z.mod_pos_bound c 64 eq_refl). pose proof (Z.div_pos c 64 Hc eq_refl).
  split_and!; try done; try lia. apply Z.div_mod. lia.
Qed.

(** The four shapes of an encoded character. *)
Inductive char_shape (c : Z) : bytes -> Prop :=
| shape1 : c < 0x80 -> char_shape c [c]
| shape2 q r : c = 64 * q + r -> 0 <= r < 64 -> 0x80 <= c < 0x800 -> char_shape c [0xC0 + q; 0x80 + r]
| shape3 p q r : c = 4096 * p + 64 * q + r -> 0 <= q < 64 -> 0 <= r < 64 -> 0x800 <= c < 0x10000 ->
    char_shape c [0xE0 + p; 0x80 + q; 0x80 + r]
| shape4 o p q r : c = 262144 * o + 4096 * p + 64 * q + r -> 0 <= p < 64 -> 0 <= q < 64 -> 0 <= r < 64 -> 0x10000 <= c ->
    char_shape c [0xF0 + o; 0x80 + p; 0x80 + q; 0x80 + r].

Lemma of_char_shape c : scalar c -> char_shape c (of_char c).
Proof.
  intros Hc. unfold scalar in Hc. unfold of_char.
  replace (c / 4096) with (c / 64 / 64) by by rewrite Z.div_div.
  replace (c / 262144) with (c / 64 / 64 / 64) by by rewrite !Z.div_div.
  destruct (div64 c) as (q & r & -> & -> & Ec & Hr & Hq); [lia|].
  destruct (div64 q) as (q2 & r2 & -> & -> & Eq & Hr2 & Hq2); [lia|].
  destruct (div64 q2) as (q3 & r3 & -> & -> & Eq2 & Hr3 & Hq3); [lia|].
  ltb_cases; econstructor; lia.
Qed.

Lemma between_in lo b hi : lo <= b <= hi -> between lo b hi = true.
Proof. intros. unfold between. rewrite !(proj2 (Z.leb_le _ _)) by lia. done. Qed.

Lemma between_out lo b hi : b < lo \/ hi < b -> between lo b hi = false.
Proof. intros. apply not_true_iff_false. intros ?%between_true. lia. Qed.

(** Decide the next test of [utf8_valid]. *)
Ltac utf8_test := repeat match goal with
  | |- (if between ?a ?b ?c then _ else _) = true =>
    destruct (decide (a <= b <= c)); [rewrite (between_in a b c) by lia | rewrite (between_out a b c) by lia];
    try (exfalso; lia); cbv iota
  | |- (if ?a =? ?b then _ else _) = true => destruct (Z.eqb_spec a b); try (exfalso; lia); cbv iota
  | |- between _ _ _ && _ = true => apply andb_true_iff; split; [apply between_in; lia|]
  | |- (_ && _) = true => apply andb_true_iff; split; [try (apply between_in; lia)|]
  end.

Lemma of_chars_valid cs : Forall scalar cs -> utf8_valid (of_chars cs) = true /\ chars (of_chars cs) = cs.
Proof.
  induction 1 as [|c cs Hc _ [IH1 IH2]]; [done|]. rewrite of_chars_cons. pose proof (of_char_shape c Hc) as Hs.
  unfold scalar in Hc. destruct Hs; cbn [app].
  all: split; [cbn [utf8_valid]; utf8_test|cbn [chars]; ltb_cases; rewrite IH2; f_equal; lia].
  all: repeat (apply andb_true_iff; split); try (apply between_in; lia); try (apply Z.leb_le; lia); done.
Qed.

(** Characters are ordered as their encodings. *)
Lemma of_char_order a b p q :
  scalar a -> scalar b -> lex (of_char a ++ p) (of_char b ++ q) = match a ?= b with Eq => lex p q | c => c end.
Proof.
  intros Ha Hb. destruct (Z.compare_spec a b) as [->|Hlt|Hlt]; [apply lex_app_same|..].
  all: pose proof (of_char_shape a Ha) as Sa; pose proof (of_char_shape b Hb) as Sb; unfold scalar in *.
  all: destruct Sa, Sb; cbn [app lex];
    repeat match goal with |- context [Z.compare ?x ?y] => destruct (Z.compare_spec x y); try done; try (exfalso; lia) end.
Qed.

Lemma of_chars_order a b : Forall scalar a -> Forall scalar b -> lex (of_chars a) (of_chars b) = lex a b.
Proof.
  intros Ha. revert b. induction Ha as [|x a Hx Ha IH]; intros b Hb.
  - destruct Hb as [|y b Hy Hb]; [done|]. rewrite of_chars_cons. by destruct (of_char_ne y) as (z & l & ->).
  - destruct Hb as [|y b Hy Hb].
    + rewrite of_chars_cons. by destruct (of_char_ne x) as (z & l & ->).
    + rewrite !of_chars_cons, of_char_order, IH by done. done.
Qed.

(** So the order of strings is the order of their characters. *)
Lemma chars_order s r : utf8_valid s = true -> utf8_valid r = true -> lex s r = lex (chars s) (chars r).
Proof.
  intros [Es Hs]%chars_valid [Er Hr]%chars_valid. rewrite <- Es, <- Er at 1. by rewrite of_chars_order.
Qed.

Lemma chars_inj s r : utf8_valid s = true -> utf8_valid r = true -> chars s = chars r -> s = r.
Proof. intros [Es _]%chars_valid [Er _]%chars_valid E. by rewrite <- Es, <- Er, E. Qed.

Lemma of_chars_app a b : of_chars (a ++ b) = of_chars a ++ of_chars b.
Proof. unfold of_chars. by rewrite fmap_app, join_app. Qed.
