(* ===== verification/Float.v ===== *)
(** Binary64 results: rounding never yields a NaN or a pattern that reads as
    one, so converting an integer never does. *)
From stdpp Require Import base list.
From Stdlib Require Import ZArith Lia SpecFloat.
From S2P Require Import Prelude Machine.

(** [v.fract() == 0.0]: a finite value without fractional part. *)
Definition f64_integral (a : Z) : bool :=
  match f64_value a with
  | S754_zero _ => true
  | S754_finite _ m e => (0 <=? e) || (Zpos m mod 2 ^ (- e) =? 0)
  | _ => false
  end.

(** [v as i64]: towards zero, saturating, NaN to zero. *)
Definition f64_to_i64 (a : Z) : Z :=
  match f64_value a with
  | S754_zero _ | S754_nan => 0
  | S754_infinity s => if s then i64_MIN else i64_MAX
  | S754_finite s m e =>
    let z := if 0 <=? e then Zpos m * 2 ^ e else Zpos m / 2 ^ (- e) in
    Z.max i64_MIN (Z.min i64_MAX (if s then - z else z))
  end.

Lemma shr_1_m r : 0 <= shr_m r -> shr_m (shr_1 r) = shr_m r / 2.
Proof.
  destruct r as [[|[p|p|]|p] a b]; cbn; intros H; try done.
  - rewrite Pos2Z.inj_xI. apply (Z.div_unique _ 2 _ 1); lia.
  - rewrite Pos2Z.inj_xO. apply (Z.div_unique _ 2 _ 0); lia.
Qed.

Lemma iter_shr_m n : forall r, 0 <= shr_m r -> shr_m (iter_pos shr_1 n r) = shr_m r / 2 ^ Zpos n.
Proof.
  assert (Hpos : forall m k, 0 <= m -> 0 <= m / 2 ^ Zpos k) by (intros; apply Z.div_pos; lia).
  induction n as [n IH|n IH|]; intros r Hr; cbn [iter_pos].
  - pose proof (shr_1_m r Hr) as H1. assert (0 <= shr_m (shr_1 r)) by (rewrite H1; apply Z.div_pos; lia).
    assert (H2 := IH (shr_1 r) ltac:(done)). rewrite IH by (rewrite H2; auto). rewrite H2, H1, !Z.div_div by lia.
    f_equal. rewrite (Pos2Z.inj_xI n), Z.pow_add_r, Z.pow_twice_r by lia. lia.
  - assert (H2 := IH r Hr). rewrite IH by (rewrite H2; auto). rewrite H2, Z.div_div by lia. f_equal.
    by rewrite (Pos2Z.inj_xO n), Z.pow_twice_r.
  - by apply shr_1_m.
Qed.

Lemma digits2_bound p : 2 ^ (Zpos (digits2_pos p) - 1) <= Zpos p < 2 ^ Zpos (digits2_pos p).
Proof.
  induction p as [p IH|p IH|]; cbn [digits2_pos]; [| |done].
  all: rewrite Pos2Z.inj_succ; replace (Z.succ (Zpos (digits2_pos p)) - 1) with (Z.succ (Zpos (digits2_pos p) - 1)) by lia.
  all: rewrite !Z.pow_succ_r by lia; lia.
Qed.

(** A mantissa of at most 53 digits at an exponent of the format. *)
Definition fits (m e : Z) : Prop := 0 <= m < 2 ^ 53 /\ -1074 <= e.

Lemma shr_fexp_fits m e l : 0 <= m -> let '(r, e') := shr_fexp 53 1024 m e l in fits (shr_m r) e'.
Proof.
  intros Hm. unfold shr_fexp, shr, fexp, emin. assert (Hr : shr_m (shr_record_of_loc m l) = m) by by destruct l as [|[]].
  assert (Hd : m < 2 ^ Zdigits2 m) by (destruct m as [|p|p]; [done|apply digits2_bound|lia]).
  assert (Hd0 : 0 <= Zdigits2 m) by by destruct m.
  set (k := Z.max (Zdigits2 m + e - 53) (3 - 1024 - 53) - e) in *. destruct k as [|p|p] eqn:Ek; unfold fits; rewrite ?Hr.
  - split; [split; [done|]|lia]. eapply Z.lt_le_trans; [exact Hd|]. apply Z.pow_le_mono_r; lia.
  - rewrite iter_shr_m by by rewrite Hr. rewrite Hr. split; [|lia]. split; [apply Z.div_pos; lia|].
    apply Z.div_lt_upper_bound; [lia|]. rewrite <- Z.pow_add_r by lia. eapply Z.lt_le_trans; [exact Hd|].
    apply Z.pow_le_mono_r; lia.
  - split; [split; [done|]|lia]. eapply Z.lt_le_trans; [exact Hd|]. apply Z.pow_le_mono_r; lia.
Qed.

(** A value with a pattern of its own. *)
Definition regular (v : spec_float) : Prop :=
  match v with
  | S754_nan => False
  | S754_finite _ m e => Zpos m < 2 ^ 53 /\ -1074 <= e <= 971
  | _ => True
  end.

Lemma round_regular sx m e l : 0 <= m -> regular (binary_round_aux 53 1024 sx m e l).
Proof.
  intros Hm. unfold binary_round_aux. pose proof (shr_fexp_fits m e l Hm) as H1.
  destruct (shr_fexp 53 1024 m e l) as [r1 e1]. destruct H1 as [[H1 _] _].
  set (m2 := round_nearest_even (shr_m r1) (loc_of_shr_record r1)).
  assert (Hm2 : 0 <= m2) by (unfold m2, round_nearest_even; destruct (loc_of_shr_record r1) as [|[]]; try case_match; lia).
  pose proof (shr_fexp_fits m2 e1 loc_Exact Hm2) as H2. destruct (shr_fexp 53 1024 m2 e1 loc_Exact) as [r2 e2].
  destruct H2 as [[H2 H3] H4]. destruct (shr_m r2) as [|p|p]; [done| |lia].
  destruct (Z.leb_spec e2 (1024 - 53)); [|done]. cbn. lia.
Qed.

Lemma normalize_regular z : regular (binary_normalize 53 1024 z 0 false).
Proof. destruct z as [|p|p]; [done|..]; unfold binary_normalize, binary_round; destruct (shl_align p 0 _); by apply round_regular. Qed.

Lemma bits_fields (s : bool) e m : 0 <= e < 2048 -> 0 <= m < 2 ^ 52 ->
  let b := (if s then 2 ^ 63 else 0) + e * 2 ^ 52 + m in (b / 2 ^ 52) mod 2 ^ 11 = e /\ b mod 2 ^ 52 = m.
Proof.
  intros He Hm b. assert (Hb : b = ((if s then 2 ^ 11 else 0) + e) * 2 ^ 52 + m) by (unfold b; destruct s; lia). rewrite Hb.
  rewrite Z.div_add_l, (Z.div_small m), Z.add_0_r by lia. split.
  - destruct s; [|apply Z.mod_small; lia]. rewrite Z.add_mod, Z.mod_same, Z.add_0_l, Z.mod_mod, Z.mod_small by lia. done.
  - rewrite Z.add_comm, Z.mod_add by lia. apply Z.mod_small. lia.
Qed.

Lemma regular_bits v : regular v -> f64_is_nan (f64_bits v) = false.
Proof.
  intros Hv. unfold f64_is_nan, f64_value.
  assert (exists s e m, f64_bits v = (if s : bool then 2 ^ 63 else 0) + e * 2 ^ 52 + m /\ 0 <= e < 2048 /\ 0 <= m < 2 ^ 52 /\
            (e = 2047 -> m = 0)) as (s & e & m & -> & He & Hm & Hx).
  { destruct v as [s|s| |s m e]; cbn [f64_bits]; [exists s, 0, 0; lia|exists s, 2047, 0; lia|done|]. destruct Hv as [Hm He].
    destruct (Z.ltb_spec (Zpos m) (2 ^ 52)); [exists s, 0, (Zpos m); lia|exists s, (e + 1075), (Zpos m - 2 ^ 52); lia]. }
  destruct (bits_fields s e m He Hm) as [-> ->]. destruct (Z.eqb_spec e 2047) as [->|]; [by rewrite Hx|].
  by repeat case_match.
Qed.

Lemma f64_of_i64_not_nan z : f64_is_nan (f64_of_i64 z) = false.
Proof. apply regular_bits, normalize_regular. Qed.

Lemma f64_cmp_some a b : f64_is_nan a = false -> f64_is_nan b = false -> exists c, f64_partial_cmp a b = Some c.
Proof. unfold f64_is_nan, f64_partial_cmp. destruct (f64_value a), (f64_value b); cbn; try done; eauto. Qed.

(** * Exact conversions *)

Lemma iter_xO n p : Zpos (Pos.iter xO p n) = Zpos p * 2 ^ Zpos n.
Proof.
  induction n as [|n IH] using Pos.peano_ind; [cbn; lia|]. rewrite Pos.iter_succ, Pos2Z.inj_xO, IH, Pos2Z.inj_succ, Z.pow_succ_r by lia. lia.
Qed.

Lemma digits2_of p k : 2 ^ (k - 1) <= Zpos p < 2 ^ k -> Zpos (digits2_pos p) = k.
Proof.
  intros [H1 H2]. pose proof (digits2_bound p) as [H3 H4].
  assert (Zpos (digits2_pos p) - 1 < k) by (apply (Z.pow_lt_mono_r_iff 2); lia || (assert (0 <= k); [|lia]; destruct (Z.le_gt_cases 0 k); [done|]; rewrite Z.pow_neg_r in H2; lia)).
  assert (k - 1 < Zpos (digits2_pos p)) by (apply (Z.pow_lt_mono_r_iff 2); lia). lia.
Qed.

(** An integer of at most 53 digits is represented exactly. *)
Lemma round_small s p : Zpos p < 2 ^ 53 ->
  exists m e, binary_round 53 1024 s p 0 = S754_finite s m e /\ 2 ^ 52 <= Zpos m < 2 ^ 53 /\ -52 <= e <= 0 /\ Zpos m = Zpos p * 2 ^ (- e).
Proof.
  intros Hp. set (d := Zpos (digits2_pos p)). pose proof (digits2_bound p) as Hd. fold d in Hd. assert (1 <= d) by (subst d; lia).
  assert (d <= 53) by (assert (d - 1 < 53); [apply (Z.pow_lt_mono_r_iff 2); lia|lia]).
  unfold binary_round. fold d. rewrite Z.add_0_r.
  assert (exists m, shl_align p 0 (fexp 53 1024 d) = (m, d - 53) /\ Zpos m = Zpos p * 2 ^ (53 - d)) as (m & -> & Hm).
  { unfold shl_align, fexp, emin. rewrite Z.max_l, Z.sub_0_r by lia. destruct (d - 53) as [|q|q] eqn:E; [|lia|].
    - exists p. split; [done|]. replace (53 - d) with 0 by lia. lia.
    - exists (Pos.iter xO p q). split; [done|]. rewrite iter_xO. f_equal. f_equal. lia. }
  assert (2 ^ 52 <= Zpos m < 2 ^ 53) as Hmr.
  { rewrite Hm. assert (0 < 2 ^ (53 - d)) by (apply Z.pow_pos_nonneg; lia). assert (2 ^ (d - 1) * 2 ^ (53 - d) = 2 ^ 52) by (rewrite <- Z.pow_add_r by lia; f_equal; lia).
    assert (2 ^ d * 2 ^ (53 - d) = 2 ^ 53) by (rewrite <- Z.pow_add_r by lia; f_equal; lia). nia. }
  assert (forall l, shr_fexp 53 1024 (Zpos m) (d - 53) l = (shr_record_of_loc (Zpos m) l, d - 53)) as Hs.
  { intros l. unfold shr_fexp, fexp, emin, Zdigits2. rewrite (digits2_of m 53) by lia. rewrite Z.max_l by lia. by replace (53 + (d - 53) - 53 - (d - 53)) with 0 by lia. }
  exists m, (d - 53). split; [|split; [done|]; split; [lia|]; rewrite Hm; f_equal; f_equal; lia].
  unfold binary_round_aux. rewrite Hs. cbn [shr_record_of_loc loc_of_shr_record shr_m shr_r shr_s round_nearest_even]. rewrite Hs. cbn [shr_m shr_record_of_loc].
  by destruct (Z.leb_spec (d - 53) (1024 - 53)); [|lia].
Qed.

(** A pattern whose exponent is in range carries its value. *)
Lemma value_bits s m e : 2 ^ 52 <= Zpos m < 2 ^ 53 -> -1074 <= e <= 971 -> f64_value (f64_bits (S754_finite s m e)) = S754_finite s m e.
Proof.
  intros Hm He. unfold f64_bits. destruct (Z.ltb_spec (Zpos m) (2 ^ 52)); [lia|]. unfold f64_value.
  destruct (bits_fields s (e + 1075) (Zpos m - 2 ^ 52)) as [-> ->]; [lia|lia|].
  destruct (Z.eqb_spec (e + 1075) 2047); [lia|]. destruct (Z.eqb_spec (e + 1075) 0); [lia|].
  replace (Z.to_pos (Zpos m - 2 ^ 52 + 2 ^ 52)) with m by lia. replace (e + 1075 - 1075) with e by lia. f_equal.
  rewrite testbit_63 by (widths; destruct s; nia). destruct s; [apply Z.leb_le|apply Z.leb_gt]; nia.
Qed.

Lemma value_of_small z : Z.abs z < 2 ^ 53 -> z <> 0 ->
  exists m e, f64_value (f64_of_i64 z) = S754_finite (z <? 0) m e /\ 2 ^ 52 <= Zpos m < 2 ^ 53 /\ -52 <= e <= 0 /\ Zpos m = Z.abs z * 2 ^ (- e).
Proof.
  intros Hz H0. unfold f64_of_i64, binary_normalize. destruct z as [|p|p]; [done|..]; destruct (round_small (Z.neg p <? 0) p) as (m & e & Hr & Hm & He & Hme); try lia.
  1: destruct (round_small false p) as (m' & e' & Hr' & Hm' & He' & Hme'); [lia|]; rewrite Hr', value_bits by lia; by exists m', e'.
  change (Z.neg p <? 0) with true in *. rewrite Hr, value_bits by lia. by exists m, e.
Qed.

Lemma div_pow_mul a k : 0 <= k -> (a * 2 ^ k) mod 2 ^ k = 0 /\ a * 2 ^ k / 2 ^ k = a.
Proof. intros Hk. assert (0 < 2 ^ k) by (apply Z.pow_pos_nonneg; lia). split; [apply Z.mod_mul; lia|apply Z.div_mul; lia]. Qed.

(** A small integer goes to a float and back. *)
Lemma small_roundtrip z : Z.abs z < 2 ^ 53 ->
  f64_integral (f64_of_i64 z) = true /\ f64_to_i64 (f64_of_i64 z) = z.
Proof.
  intros Hz. destruct (Z.eq_dec z 0) as [->|H0]; [by vm_compute|]. unfold f64_integral, f64_to_i64.
  destruct (value_of_small z Hz H0) as (m & e & -> & Hm & He & Hme). destruct (div_pow_mul (Z.abs z) (- e) ltac:(lia)) as [H1 H2].
  rewrite Hme, H1, H2, orb_true_r. split; [done|]. assert ((if 0 <=? e then Zpos m * 2 ^ e else Z.abs z) = Z.abs z) as Ha.
  { destruct (Z.leb_spec 0 e); [|done]. replace e with 0 in * by lia. rewrite Hme. change (2 ^ 0) with 1. change (2 ^ (- 0)) with 1. lia. }
  rewrite <- Hme in *. rewrite Ha. unfold i64_MIN, i64_MAX. destruct (Z.ltb_spec z 0); lia.
Qed.


Lemma eqb_cases a b : u64 a -> u64 b -> f64_eqb a b = true -> a = b \/ (exists s t, f64_value a = S754_zero s /\ f64_value b = S754_zero t).
Proof.
  intros Ha Hb. unfold f64_eqb, f64_partial_cmp. widths.
  assert (forall x, u64 x -> (x < 2 ^ 63 /\ f64_value x = mag_value false x) \/ (2 ^ 63 <= x /\ f64_value x = mag_value true (x - 2 ^ 63))) as Hv.
  { intros x Hx. widths. destruct (Z.le_gt_cases (2 ^ 63) x); [right; split; [done|]; apply f64_value_neg; lia|left; split; [done|]; apply f64_value_pos; lia]. }
  assert (forall s x, mag_value s x <> S754_nan -> mag_value false x <> S754_nan) as Hn by (intros s x H1 H2%(mag_value_nan s); done).
  assert (forall s x, 0 <= x -> 0 < x \/ mag_value s x = S754_zero s) as Hz.
  { intros s x Hx. destruct (Z.eq_dec x 0) as [->|]; [by right|left; lia]. }
  destruct (SFcompare (f64_value a) (f64_value b)) as [[]|] eqn:E; try done. intros _.
  assert (f64_value a <> S754_nan /\ f64_value b <> S754_nan) as [Hna Hnb].
  { split; intros Hx; rewrite Hx in E; [done|]. destruct (f64_value a); discriminate E. }
  destruct (Hv a Ha) as [[H1 Ea]|[H1 Ea]], (Hv b Hb) as [[H2 Eb]|[H2 Eb]]; rewrite Ea in *; rewrite Eb in *.
  - rewrite mag_cmp in E by (eauto || lia). injection E as E%Z.compare_eq_iff. by left.
  - destruct (Hz true (b - 2 ^ 63) ltac:(lia)) as [Hp|Hp].
    + pose proof (mag_cmp_mixed (b - 2 ^ 63) a ltac:(lia) ltac:(lia) Hnb Hna) as Hc. rewrite SFcompare_antisym, E in Hc. discriminate Hc.
    + destruct (Hz false a ltac:(lia)) as [Hq|Hq]; [|right; eauto]. rewrite Hp in E. right. exists false, true. split; [|done].
      destruct (mag_value false a) as [[]|[]| |[] ??] eqn:Em; try discriminate E; [|done]. unfold mag_value in Em. repeat case_match; discriminate Em.
  - destruct (Hz true (a - 2 ^ 63) ltac:(lia)) as [Hp|Hp].
    + pose proof (mag_cmp_mixed (a - 2 ^ 63) b ltac:(lia) ltac:(lia) Hna Hnb) as Hc. rewrite E in Hc. discriminate Hc.
    + rewrite Hp in E. right. exists true, false. split; [done|]. destruct (mag_value false b) as [[]|[]| |[] ??] eqn:Em; try discriminate E; [|done]. unfold mag_value in Em. repeat case_match; discriminate Em.
  - rewrite mag_cmp_neg, mag_cmp in E by (eauto || lia). injection E as E%Z.compare_eq_iff. left. lia.
Qed.
