(* ===== verification/Types.v ===== *)
(** Values and their encodings (crates/engine/src/types.rs).

    [Datum] is the engine's value type.  [encode]/[decode] are the type-tagged
    row payload codec; [encode_key]/[decode_key] the order-preserving primary
    key codec; [encode_sec_index_key]/[decode_sec_index_key] the secondary
    index entry codec.  Floats are kept as their 64-bit pattern. *)
From stdpp Require Import base list gmap strings.
From Stdlib Require Import ZArith Lia SpecFloat.
From S2P Require Import Prelude Machine.

(** * Data *)

Inductive Datum : Type :=
| Null
| Int (v : Z)
| Float (bits : Z)
| Text (s : bytes)
| Bool (b : bool)
| DateTime (v : Z).

(** The values a Rust [Datum] can hold: integers at their width, text valid
    UTF-8 of a length a [u32] prefix can carry. *)
Definition datum_wf (d : Datum) : Prop :=
  match d with
  | Null | Bool _ => True
  | Int v | DateTime v => i64 v
  | Float b => u64 b
  | Text s => utf8_valid s = true /\ Zlen s < 2 ^ 32
  end.

Inductive ColumnType : Type :=
| CInt | CBigInt | CFloat | CDouble | CText | CVarChar | CBool | CDateTime | CTimestamp.

#[global] Instance ColumnType_eq_dec : EqDecision ColumnType.
Proof. solve_decision. Defined.

#[global] Instance Datum_eq_dec : EqDecision Datum.
Proof. solve_decision. Defined.

(** * [impl Datum] *)

Definition type_name (d : Datum) : bytes :=
  match d with
  | Null => str "NULL"
  | Int _ => str "INT"
  | Float _ => str "FLOAT"
  | Text _ => str "TEXT"
  | Bool _ => str "BOOL"
  | DateTime _ => str "DATETIME"
  end.

Definition type_rank (d : Datum) : Z :=
  match d with
  | Null => 0
  | Bool _ => 1
  | Int _ | Float _ => 2
  | DateTime _ => 3
  | Text _ => 4
  end.

Definition as_f64 (d : Datum) : option Z :=
  match d with
  | Int v => Some (f64_of_i64 v)
  | Float v => Some v
  | _ => None
  end.

(** [#[derive(PartialEq)]]. *)
Definition datum_eqb (a b : Datum) : bool :=
  match a, b with
  | Null, Null => true
  | Int a, Int b => a =? b
  | Float a, Float b => f64_eqb a b
  | Text a, Text b => bool_decide (a = b)
  | Bool a, Bool b => bool_decide (a = b)
  | DateTime a, DateTime b => a =? b
  | _, _ => false
  end.

(** [a.partial_cmp(b).unwrap_or(Ordering::Equal)]. *)
Definition f64_cmp_or_eq (a b : Z) : comparison := default Eq (f64_partial_cmp a b).

(** [impl Ord for Datum]. *)
Definition cmp (a b : Datum) : comparison :=
  let ra := type_rank a in
  let rb := type_rank b in
  if negb (ra =? rb) then ra ?= rb
  else match a, b with
  | Bool a, Bool b => bool_cmp a b
  | Int a, Int b => a ?= b
  | Float a, Float b => f64_cmp_or_eq a b
  | DateTime a, DateTime b => a ?= b
  | Text a, Text b => lex a b
  | _, _ => match as_f64 a, as_f64 b with
            | Some a, Some b => f64_cmp_or_eq a b
            | _, _ => Eq
            end
  end.

(** * Row payload codec *)

Definition encode (d : Datum) : bytes :=
  match d with
  | Null => [0]
  | Int v => 1 :: to_le 8 v
  | Float v => 2 :: to_le 8 v
  | Text v => 3 :: to_le 4 (Zlen v) ++ v
  | Bool v => [4; if v then 1 else 0]
  | DateTime v => 5 :: to_le 8 v
  end.

(** The module's [take]. *)
Definition take_datum (n : Z) : Dec bytes := get_slice (Corrupted (str "datum: truncated")) n.

(** Lift a fallible step that does not touch the cursor. *)
Definition dec_lift {A} (m : res A) : Dec A := fun _ off => (fun a => (a, off)) <$> m.

Definition decode : Dec Datum :=
  tag ← get_byte (Corrupted (str "datum: EOF"));
  match tag with
  | 0 => mret Null
  | 1 => b ← take_datum 8; mret (Int (i64_of_le b))
  | 2 => b ← take_datum 8; mret (Float (of_le b))
  | 3 => b ← take_datum 4;
         b ← take_datum (of_le b);
         s ← dec_lift (from_utf8 (Corrupted (str "utf8")) b);
         mret (Text s)
  | 4 => b ← take_datum 1; mret (Bool (negb (hd 0 b =? 0)))
  | 5 => b ← take_datum 8; mret (DateTime (i64_of_le b))
  | t => dec_fail (Corrupted (str "unknown datum tag " ++ show_Z t))
  end.

(** * Column types *)

Definition to_ascii_uppercase (s : bytes) : bytes :=
  (fun c => if between 97 c 122 then c - 32 else c) <$> s.

Definition ColumnType_parse (s : bytes) : res ColumnType :=
  let u := to_ascii_uppercase s in
  let one_of (l : list string) := existsb (fun x => bool_decide (u = str x)) l in
  if one_of ["INT"; "INTEGER"]%string then Ok CInt
  else if one_of ["BIGINT"; "LONG"]%string then Ok CBigInt
  else if one_of ["FLOAT"; "REAL"]%string then Ok CFloat
  else if one_of ["DOUBLE"]%string then Ok CDouble
  else if one_of ["TEXT"; "STRING"]%string then Ok CText
  else if one_of ["VARCHAR"]%string then Ok CVarChar
  else if one_of ["BOOL"; "BOOLEAN"]%string then Ok CBool
  else if one_of ["DATETIME"]%string then Ok CDateTime
  else if one_of ["TIMESTAMP"]%string then Ok CTimestamp
  else Err (ParseError (str "unknown type '" ++ u ++ str "'")).

Definition ColumnType_name (t : ColumnType) : bytes :=
  match t with
  | CInt => str "INT"
  | CBigInt => str "BIGINT"
  | CFloat => str "FLOAT"
  | CDouble => str "DOUBLE"
  | CText => str "TEXT"
  | CVarChar => str "VARCHAR"
  | CBool => str "BOOL"
  | CDateTime => str "DATETIME"
  | CTimestamp => str "TIMESTAMP"
  end.

Definition accepts (t : ColumnType) (d : Datum) : bool :=
  match t, d with
  | (CInt | CBigInt), (Int _ | Bool _ | Null) => true
  | (CFloat | CDouble), (Int _ | Float _ | Bool _ | Null) => true
  | (CText | CVarChar), (Text _ | Null) => true
  | CBool, (Bool _ | Int _ | Null) => true
  | (CDateTime | CTimestamp), (DateTime _ | Text _ | Int _ | Null) => true
  | _, _ => false
  end.

(** * Key codec *)

(** [v ^ i64::MIN]. *)
Definition flip_sign (v : Z) : Z := Z.lxor v i64_MIN.

(** The order-preserving image of a float's bits:
    [if v >= 0.0 { bits ^ 0x8000_0000_0000_0000 } else { !bits }]. *)
Definition float_ordered (bits : Z) : Z :=
  if f64_ge0 bits then Z.lxor bits (2 ^ 63) else Z.lxor bits u64_MAX.

(** [if bits & 0x8000.. != 0 { bits ^ 0x8000.. } else { !bits }]. *)
Definition float_unordered (bits : Z) : Z :=
  if negb (Z.land bits (2 ^ 63) =? 0) then Z.lxor bits (2 ^ 63) else Z.lxor bits u64_MAX.

Definition encode_key (d : Datum) : res bytes :=
  match d with
  | Int v => Ok (1 :: to_be 8 (flip_sign v))
  | Float v => Ok (2 :: to_be 8 (float_ordered v))
  | Text v => Ok (3 :: v)
  | Bool v => Ok [4; if v then 1 else 0]
  | DateTime v => Ok (5 :: to_be 8 (flip_sign v))
  | Null => Err (NotNullViolation (str "primary key"))
  end.

(** [key[1..9]]: panics on a short key. *)
Definition key_8 (key : bytes) : res bytes :=
  if Zlen key <? 9 then Panic else Ok (take 8 (drop 1 key)).

Definition decode_key (key : bytes) : res Datum :=
  match key with
  | [] => Err (Corrupted (str "empty key"))
  | t :: rest =>
    match t with
    | 1 => b ← key_8 key; mret (Int (flip_sign (i64_of_be b)))
    | 2 => b ← key_8 key; mret (Float (float_unordered (of_be b)))
    | 3 => s ← from_utf8 (Corrupted (str "utf8 key")) rest; mret (Text s)
    | 4 => match rest with
           | [] => Panic
           | b :: _ => Ok (Bool (negb (b =? 0)))
           end
    | 5 => b ← key_8 key; mret (DateTime (flip_sign (i64_of_be b)))
    | t => Err (Corrupted (str "unknown key tag " ++ show_Z t))
    end
  end.

(** The body of a text secondary key: NUL escaped as [00 FF], terminated by
    [00 00]. *)
Definition sec_escape (s : bytes) : bytes :=
  mjoin ((fun b => if b =? 0 then [0; 0xFF] else [b]) <$> s) ++ [0; 0].

Definition encode_sec_key_prefix (d : Datum) : res bytes :=
  match d with
  | Null => Ok [0]
  | Int v => Ok (1 :: to_be 8 (flip_sign v))
  | Float v => Ok (2 :: to_be 8 (float_ordered v))
  | Text v => Ok (3 :: sec_escape v)
  | Bool v => Ok [4; if v then 1 else 0]
  | DateTime v => Ok (5 :: to_be 8 (flip_sign v))
  end.

Definition encode_sec_index_key (sec pk : Datum) : res bytes :=
  key ← encode_sec_key_prefix sec;
  pk_bytes ← encode_key pk;
  mret (key ++ pk_bytes).

(** The text loop of [decode_sec_index_key]; [rest] is [key[off..]]. *)
Fixpoint sec_text_loop (rest : bytes) (off : Z) (text_bytes : bytes) : res (bytes * Z) :=
  match rest with
  | [] => Err (Corrupted (str "unterminated text in secondary key"))
  | b :: rest' =>
    if b =? 0 then
      match rest' with
      | [] => Err (Corrupted (str "truncated text terminator in secondary key"))
      | c :: rest'' =>
        if c =? 0 then Ok (text_bytes, off + 2)
        else if c =? 0xFF then sec_text_loop rest'' (off + 2) (text_bytes ++ [0])
        else Err (Corrupted (str "invalid text escape in secondary key"))
      end
    else sec_text_loop rest' (off + 1) (text_bytes ++ [b])
  end.

(** [if key.len() < n { return Err(Corrupted(msg)) }] *)
Definition need_len (key : bytes) (n : Z) (msg : string) : res () :=
  if Zlen key <? n then Err (Corrupted (str msg)) else Ok ().

Definition decode_sec_index_key (key : bytes) : res (Datum * Datum) :=
  match key with
  | [] => Err (Corrupted (str "empty secondary index key"))
  | tag :: rest =>
    '(sec, off) ←
      match tag with
      | 0 => Ok (Null, 1)
      | 1 => need_len key 9 "truncated int secondary key";;
             b ← key_8 key;
             mret (Int (flip_sign (i64_of_be b)), 9)
      | 2 => need_len key 9 "truncated float secondary key";;
             b ← key_8 key;
             mret (Float (float_unordered (of_be b)), 9)
      | 3 => '(text_bytes, off) ← sec_text_loop rest 1 [];
             s ← from_utf8 (Corrupted (str "invalid utf8 in secondary key")) text_bytes;
             mret (Text s, off)
      | 4 => need_len key 2 "truncated bool secondary key";;
             mret (Bool (negb (hd 0 rest =? 0)), 2)
      | 5 => need_len key 9 "truncated datetime secondary key";;
             b ← key_8 key;
             mret (DateTime (flip_sign (i64_of_be b)), 9)
      | t => Err (Corrupted (str "unknown secondary key tag " ++ show_Z t))
      end;
    pk ← decode_key (drop (Z.to_nat off) key);
    mret (sec, pk)
  end.

(** * Lemmas: row payload codec *)

Lemma decodes_take n bs : Zlen bs = n -> decodes (take_datum n) bs bs.
Proof. apply decodes_get_slice. Qed.

Lemma decodes_lift {A} (a : A) : decodes (dec_lift (Ok a)) [] a.
Proof. apply (decodes_ret a). Qed.

(** A decoder that starts by reading its tag byte. *)
Lemma decodes_tag {A} e (k : Z -> Dec A) t bs x :
  decodes (k t) bs x -> decodes (get_byte e ≫= k) (t :: bs) x.
Proof. intros H. eapply (decodes_bind _ _ [t]); [apply decodes_get_byte | done]. Qed.

(** Read a fixed-width integer field. *)
Lemma decodes_take_le {A} w z (f : bytes -> A) x :
  f (to_le w z) = x -> decodes (b ← take_datum (Z.of_nat w); mret (f b)) (to_le w z) x.
Proof.
  intros <-. apply (decodes_bind_ret _ f). apply decodes_take, Zlen_to_le.
Qed.

Lemma datum_decodes d : datum_wf d -> decodes decode (encode d) d.
Proof.
  intros Hwf. unfold decode, encode.
  destruct d as [|v|b|s|b|v]; cbn in Hwf; apply decodes_tag.
  - apply decodes_ret.
  - apply (decodes_take_le 8). f_equal. by apply i64_of_le_to_le.
  - apply (decodes_take_le 8). f_equal. by apply (of_le_to_le_u 8).
  - destruct Hwf as [Hu Hl].
    eapply decodes_bind; [apply decodes_take, Zlen_to_le|].
    rewrite (of_le_to_le_u 4) by (unfold in_u; lia).
    rewrite <- (app_nil_r s) at 2.
    eapply decodes_bind; [by apply decodes_take|].
    unfold from_utf8. rewrite Hu.
    apply (decodes_bind_ret _ Text), decodes_lift.
  - destruct b.
    + apply (decodes_bind_ret _ (fun b => Bool (negb (hd 0 b =? 0))) [1] [1]).
      by apply decodes_take.
    + apply (decodes_bind_ret _ (fun b => Bool (negb (hd 0 b =? 0))) [0] [0]).
      by apply decodes_take.
  - apply (decodes_take_le 8). f_equal. by apply i64_of_le_to_le.
Qed.

#[global] Instance datum_codec : Codec Datum encode decode datum_wf.
Proof. exact datum_decodes. Qed.

#[export] Hint Resolve datum_decodes decodes_take decodes_lift : codec.

(** * Lemmas: sign flipping and float images *)

Lemma flip_sign_eq v : i64 v -> flip_sign v = if 0 <=? v then v - 2 ^ 63 else v + 2 ^ 63.
Proof.
  unfold in_i, flip_sign, i64_MIN. cbn [Z.sub]. intros Hv.
  change (- 2 ^ 63) with (-1 * 2 ^ 63). destruct (Z.leb_spec 0 v).
  - rewrite lxor_add by (apply land_low_high; lia). lia.
  - assert (v = Z.lxor (v + 2 ^ 63) (-1 * 2 ^ 63)) as Hx
      by (rewrite lxor_add by (apply land_low_high; lia); lia).
    rewrite Hx at 1. rewrite Z.lxor_assoc, Z.lxor_nilpotent, Z.lxor_0_r. done.
Qed.

(** The bytes of a sign-flipped integer are those of its offset by [2^63]. *)
Lemma flip_sign_be v : i64 v -> to_be 8 (flip_sign v) = to_be 8 (v + 2 ^ 63).
Proof.
  intros Hv. rewrite flip_sign_eq by done. destruct (Z.leb_spec 0 v); [|done].
  unfold to_be. f_equal. apply to_le_mod_eq.
  rewrite <- (Z.mod_add (v - 2 ^ 63) 1) by lia. f_equal. lia.
Qed.

Lemma flip_sign_invol v : flip_sign (flip_sign v) = v.
Proof. unfold flip_sign. by rewrite Z.lxor_assoc, Z.lxor_nilpotent, Z.lxor_0_r. Qed.

Lemma flip_sign_i64 v : i64 v -> i64 (flip_sign v).
Proof.
  intros Hv. rewrite flip_sign_eq by done. widths.
  destruct (Z.leb_spec 0 v); lia.
Qed.

Lemma flip_sign_roundtrip v : i64 v -> flip_sign (i64_of_be (to_be 8 (flip_sign v))) = v.
Proof.
  intros Hv. unfold i64_of_be, of_be, to_be. rewrite rev_involutive.
  change (wrap_i 64 (of_le ?l)) with (i64_of_le l).
  rewrite i64_of_le_to_le by by apply flip_sign_i64. apply flip_sign_invol.
Qed.

(** Sign-flipped big-endian keys compare like the integers. *)
Lemma flip_sign_order a b :
  i64 a -> i64 b -> lex (to_be 8 (flip_sign a)) (to_be 8 (flip_sign b)) = (a ?= b).
Proof.
  intros Ha Hb. rewrite !flip_sign_be by done. widths.
  rewrite lex_to_be by (widths; lia).
  rewrite !(Z.add_comm _ (2 ^ 63)). apply Z.add_compare_mono_l.
Qed.

(** The floats the key codec handles: every number but [-0.0]. *)
Definition float_key_ok (b : Z) : Prop := f64_is_nan b = false /\ b <> 2 ^ 63.

Lemma is_nan_false b : f64_is_nan b = false -> f64_value b <> S754_nan.
Proof. unfold f64_is_nan. by destruct (f64_value b). Qed.

Lemma f64_zero : f64_value 0 = mag_value false 0.
Proof. reflexivity. Qed.

(** A pattern with the sign bit set is [2^63] plus its magnitude. *)
Lemma float_key_mag b :
  u64 b -> float_key_ok b ->
  (b < 2 ^ 63 /\ 0 <= b /\ f64_value b = mag_value false b /\ mag_value false b <> S754_nan)
  \/ (2 ^ 63 < b /\ f64_value b = mag_value true (b - 2 ^ 63) /\
      mag_value true (b - 2 ^ 63) <> S754_nan).
Proof.
  intros Hb [Hn Hz]. apply is_nan_false in Hn. widths.
  destruct (Z.lt_ge_cases b (2 ^ 63)).
  - left. rewrite f64_value_pos in * by lia. auto with lia.
  - right. rewrite f64_value_neg in * by lia. repeat split; try done. lia.
Qed.

Lemma float_ordered_eq b :
  u64 b -> float_key_ok b ->
  float_ordered b = if b <? 2 ^ 63 then b + 2 ^ 63 else 2 ^ 64 - 1 - b.
Proof.
  intros Hb Hk. unfold float_ordered, f64_ge0, f64_partial_cmp.
  destruct (float_key_mag b Hb Hk) as [(Hlt & H0 & -> & Hn)|(Hgt & -> & Hn)];
    rewrite f64_zero; widths; zb.
  - rewrite mag_cmp by (done || lia).
    assert (Z.lxor b (2 ^ 63) = b + 2 ^ 63) as ->.
    { apply lxor_add. rewrite <- (Z.mul_1_l (2 ^ 63)). apply land_low_high; lia. }
    destruct (Z.compare_spec b 0); done || lia.
  - rewrite mag_cmp_mixed by (done || lia). by rewrite lxor_u64_MAX.
Qed.

Lemma float_ordered_u64 b : u64 b -> float_key_ok b -> u64 (float_ordered b).
Proof.
  intros Hb Hk. rewrite float_ordered_eq by done. widths.
  destruct (Z.ltb_spec b (2 ^ 63)); lia.
Qed.

Lemma float_ordered_cmp a b :
  u64 a -> u64 b -> float_key_ok a -> float_key_ok b ->
  f64_partial_cmp a b = Some (float_ordered a ?= float_ordered b).
Proof.
  intros Ha Hb Ka Kb. rewrite !float_ordered_eq by done. unfold f64_partial_cmp.
  destruct (float_key_mag a Ha Ka) as [(La & La0 & -> & Na)|(Ga & -> & Na)];
  destruct (float_key_mag b Hb Kb) as [(Lb & Lb0 & -> & Nb)|(Gb & -> & Nb)]; widths; zb.
  - rewrite mag_cmp by (done || lia). f_equal.
    rewrite !(Z.add_comm _ (2 ^ 63)). symmetry. apply Z.add_compare_mono_l.
  - rewrite SFcompare_antisym, mag_cmp_mixed by (done || lia). cbn.
    f_equal. symmetry. apply Z.compare_gt_iff. lia.
  - rewrite mag_cmp_mixed by (done || lia).
    f_equal. symmetry. apply Z.compare_lt_iff. lia.
  - rewrite (mag_value_nan true) in Na, Nb. rewrite mag_cmp_neg, mag_cmp by (done || lia).
    f_equal. destruct (Z.compare_spec (b - 2 ^ 63) (a - 2 ^ 63)); symmetry;
      [apply Z.compare_eq_iff | apply Z.compare_lt_iff | apply Z.compare_gt_iff]; lia.
Qed.

Lemma land_sign_bit x : u64 x -> (Z.land x (2 ^ 63) =? 0) = (x <? 2 ^ 63).
Proof.
  intros Hx. widths. destruct (Z.ltb_spec x (2 ^ 63)).
  - rewrite <- (Z.mul_1_l (2 ^ 63)), land_low_high by lia. done.
  - apply Z.eqb_neq. intros H0.
    apply (f_equal (fun z => Z.testbit z 63)) in H0.
    rewrite Z.land_spec, testbit_63, (proj2 (Z.leb_le _ _) H) in H0 by (widths; lia).
    discriminate H0.
Qed.

Lemma float_unordered_ordered b :
  u64 b -> float_key_ok b -> float_unordered (float_ordered b) = b.
Proof.
  intros Hb Hk. unfold float_unordered.
  rewrite land_sign_bit by by apply float_ordered_u64.
  rewrite float_ordered_eq by done. widths. destruct (Z.ltb_spec b (2 ^ 63)); zb; cbn [negb].
  - assert (Z.lxor b (2 ^ 63) = b + 2 ^ 63) as <-.
    { apply lxor_add. rewrite <- (Z.mul_1_l (2 ^ 63)). apply land_low_high; lia. }
    by rewrite Z.lxor_assoc, Z.lxor_nilpotent, Z.lxor_0_r.
  - rewrite lxor_u64_MAX by (widths; lia). unfold u64_MAX. lia.
Qed.

(** * Lemmas: key codec *)

Definition key_wf (d : Datum) : Prop :=
  datum_wf d /\ match d with Null => False | Float b => float_key_ok b | _ => True end.

(** Secondary values: NULL included. *)
Definition sec_wf (d : Datum) : Prop :=
  datum_wf d /\ match d with Float b => float_key_ok b | _ => True end.

(** Two values of one column: same constructor. *)
Definition same_kind (a b : Datum) : bool :=
  match a, b with
  | Null, Null | Int _, Int _ | Float _, Float _ | Text _, Text _
  | Bool _, Bool _ | DateTime _, DateTime _ => true
  | _, _ => false
  end.

Lemma key_8_app t b rest :
  length b = 8%nat -> key_8 (t :: b ++ rest) = Ok b.
Proof.
  intros Hl. unfold key_8. rewrite Zlen_cons, Zlen_app, Hl. zb.
  change (drop 1 (t :: b ++ rest)) with (b ++ rest). by rewrite take_app_length' by done.
Qed.

Lemma decode_encode_key d key :
  key_wf d -> encode_key d = Ok key -> decode_key key = Ok d.
Proof.
  intros [Hwf Hk] He. destruct d as [|v|b|s|b|v]; cbn in Hwf, He; try done; simplify_eq;
    unfold decode_key.
  - rewrite <- (app_nil_r (to_be _ _)), key_8_app by apply length_to_be. cbn.
    by rewrite flip_sign_roundtrip.
  - rewrite <- (app_nil_r (to_be _ _)), key_8_app by apply length_to_be. cbn [mbind res_bind].
    rewrite (of_be_to_be_u 8) by by apply float_ordered_u64.
    by rewrite float_unordered_ordered.
  - unfold from_utf8. by rewrite (proj1 Hwf).
  - by destruct b.
  - rewrite <- (app_nil_r (to_be _ _)), key_8_app by apply length_to_be. cbn.
    by rewrite flip_sign_roundtrip.
Qed.

Lemma encode_key_order a b ka kb :
  key_wf a -> key_wf b -> same_kind a b = true ->
  encode_key a = Ok ka -> encode_key b = Ok kb -> lex ka kb = cmp a b.
Proof.
  intros [Ha Ka] [Hb Kb] Hs Ea Eb.
  destruct a as [|v|v|s|v|v], b as [|w|w|r|w|w]; cbn in Hs, Ea, Eb; simplify_eq; try done.
  - cbn. by apply flip_sign_order.
  - cbn [lex]. unfold cmp. cbn [type_rank negb Z.eqb Pos.eqb].
    rewrite Z.compare_refl. unfold f64_cmp_or_eq.
    rewrite (float_ordered_cmp v w) by done. cbn. by apply lex_to_be; apply float_ordered_u64.
  - by destruct v, w.
  - cbn. by apply flip_sign_order.
Qed.

(** * Lemmas: secondary index keys *)

Lemma sec_escape_cons b s :
  sec_escape (b :: s) = (if b =? 0 then [0; 0xFF] else [b]) ++ sec_escape s.
Proof. unfold sec_escape. cbn. by rewrite app_assoc. Qed.

(** The escaped form is prefix-free and order preserving: comparing two escaped
    strings followed by anything compares the strings first. *)
Lemma sec_escape_order s r p q :
  Forall u8 s -> Forall u8 r ->
  lex (sec_escape s ++ p) (sec_escape r ++ q)
  = match lex s r with Eq => lex p q | c => c end.
Proof.
  intros Hs. revert r. induction Hs as [|x s Hx Hs IH]; intros r Hr;
    destruct Hr as [|y r Hy Hr]; rewrite ?sec_escape_cons; widths.
  - done.
  - destruct (Z.eqb_spec y 0) as [->|]; [done|]. destruct y; lia || done.
  - destruct (Z.eqb_spec x 0) as [->|]; [done|]. destruct x; lia || done.
  - cbn [lex]. rewrite <- !app_assoc.
    destruct (Z.eqb_spec x 0) as [->|], (Z.eqb_spec y 0) as [->|]; cbn [app lex].
    + cbn. by apply IH.
    + destruct y; lia || done.
    + destruct x; lia || done.
    + destruct (x ?= y); try done. by apply IH.
Qed.

Lemma sec_text_loop_escape s rest off acc :
  sec_text_loop (sec_escape s ++ rest) off acc
  = Ok (acc ++ s, off + Zlen (sec_escape s)).
Proof.
  revert off acc. induction s as [|b s IH]; intros off acc.
  - cbn. by rewrite app_nil_r.
  - rewrite sec_escape_cons, <- app_assoc. destruct (Z.eqb_spec b 0) as [->|Hb];
      cbn [app sec_text_loop].
    + cbn [Z.eqb]. rewrite IH, <- app_assoc, !Zlen_cons. do 2 f_equal. lia.
    + zb. rewrite IH, <- app_assoc, Zlen_cons. do 2 f_equal. lia.
Qed.

Lemma drop_9_key t (b rest : bytes) : length b = 8%nat -> drop 9 (t :: b ++ rest) = rest.
Proof.
  intros Hl. change (drop 9 (t :: b ++ rest)) with (drop 8 (b ++ rest)).
  by rewrite drop_app_length' by done.
Qed.

Lemma decode_encode_sec_index_key sec pk key :
  sec_wf sec -> key_wf pk ->
  encode_sec_index_key sec pk = Ok key -> decode_sec_index_key key = Ok (sec, pk).
Proof.
  intros [Hs Ks] Hp He. unfold encode_sec_index_key in He.
  apply res_bind_Ok in He as (p & Ep & He). apply res_bind_Ok in He as (k & Ek & He).
  injection He as <-. pose proof (decode_encode_key pk k Hp Ek) as Hdk.
  destruct sec as [|v|b|s|b|v]; cbn in Ep; injection Ep as <-; cbn in Hs;
    unfold decode_sec_index_key; cbn [app].
  - cbn [mbind res_bind]. change (drop (Z.to_nat 1) (0 :: k)) with k. by rewrite Hdk.
  - unfold need_len. rewrite key_8_app by apply length_to_be.
    rewrite Zlen_cons, Zlen_app, length_to_be. zb.
    cbn [mbind res_bind mret res_ret]. change (Z.to_nat 9) with 9%nat.
    rewrite drop_9_key by apply length_to_be. by rewrite Hdk, flip_sign_roundtrip.
  - unfold need_len. rewrite key_8_app by apply length_to_be.
    rewrite Zlen_cons, Zlen_app, length_to_be. zb.
    cbn [mbind res_bind mret res_ret]. change (Z.to_nat 9) with 9%nat.
    rewrite drop_9_key by apply length_to_be.
    rewrite Hdk, (of_be_to_be_u 8) by by apply float_ordered_u64.
    by rewrite float_unordered_ordered.
  - rewrite sec_text_loop_escape. unfold from_utf8. cbn [mbind res_bind app].
    rewrite (proj1 Hs). cbn [mbind res_bind mret res_ret].
    replace (Z.to_nat (1 + Zlen (sec_escape s))) with (S (length (sec_escape s))) by lia.
    cbn [skipn]. by rewrite drop_app_length, Hdk.
  - unfold need_len. rewrite !Zlen_cons. zb.
    cbn [mbind res_bind mret res_ret hd]. change (drop (Z.to_nat 2) (?x :: ?y :: k)) with k.
    rewrite Hdk. by destruct b.
  - unfold need_len. rewrite key_8_app by apply length_to_be.
    rewrite Zlen_cons, Zlen_app, length_to_be. zb.
    cbn [mbind res_bind mret res_ret]. change (Z.to_nat 9) with 9%nat.
    rewrite drop_9_key by apply length_to_be. by rewrite Hdk, flip_sign_roundtrip.
Qed.

Lemma lex_cons_same t a b : lex (t :: a) (t :: b) = lex a b.
Proof. cbn. by rewrite Z.compare_refl. Qed.

Lemma bool_byte_order (v w : bool) p q :
  lex ((if v then 1 else 0) :: p) ((if w then 1 else 0) :: q)
  = match bool_cmp v w with Eq => lex p q | c => c end.
Proof. by destruct v, w. Qed.

(** Index entries of one column order by value first, then by primary key. *)
Lemma sec_prefix_order a b pa pb p q :
  sec_wf a -> sec_wf b -> same_kind a b = true ->
  encode_sec_key_prefix a = Ok pa -> encode_sec_key_prefix b = Ok pb ->
  lex (pa ++ p) (pb ++ q) = match cmp a b with Eq => lex p q | c => c end.
Proof.
  intros [Ha Ka] [Hb Kb] Hs Ea Eb.
  destruct a as [|v|v|s|v|v], b as [|w|w|r|w|w]; cbn in Hs, Ea, Eb; simplify_eq;
    try done; rewrite <- ?app_comm_cons, ?lex_cons_same.
  - rewrite lex_app_len by by rewrite !length_to_be. by rewrite flip_sign_order.
  - rewrite lex_app_len by by rewrite !length_to_be.
    rewrite lex_to_be by by apply float_ordered_u64.
    unfold cmp, f64_cmp_or_eq. cbn [type_rank negb Z.eqb Pos.eqb].
    by rewrite (float_ordered_cmp v w).
  - by apply sec_escape_order; apply utf8_u8; destruct Ha, Hb.
  - apply (bool_byte_order v w p q).
  - rewrite lex_app_len by by rewrite !length_to_be. by rewrite flip_sign_order.
Qed.

Lemma cmp_antisym a b : cmp b a = CompOpp (cmp a b).
Proof.
  assert (forall x y, f64_cmp_or_eq y x = CompOpp (f64_cmp_or_eq x y)) as Hf.
  { intros x y. unfold f64_cmp_or_eq. rewrite (f64_partial_cmp_antisym x y).
    by destruct (f64_partial_cmp x y). }
  destruct a as [|v|v|s|v|v], b as [|w|w|r|w|w]; cbn; try done;
    try apply Z.compare_antisym; try apply lex_antisym; try apply Hf; by destruct v, w.
Qed.

(** * Properties *)

(** The row payload codec round-trips: for every well-formed datum, [decode]
    run at the position where [encode] wrote it, with arbitrary bytes before and
    after, returns that datum and leaves the cursor just past its bytes. *)
Theorem datum_roundtrip d :
  datum_wf d -> decodes decode (encode d) d.
Proof. apply datum_decodes. Qed.

Lemma datum_roundtrip_witness :
  decodes decode (encode (Text (str "héllo"))) (Text (str "héllo"))
  /\ decode [9; 5; 214; 255; 255; 255; 255; 255; 255; 255; 7] 1 = Ok (DateTime (-42), 10).
Proof.
  split; [apply datum_roundtrip; split; reflexivity | reflexivity].
Defined.

(** Primary keys round-trip: the bytes [encode_key] makes of a non-NULL datum
    (floats other than NaN and -0.0) decode to that datum. *)
Theorem key_roundtrip d key :
  key_wf d -> encode_key d = Ok key -> decode_key key = Ok d.
Proof. apply decode_encode_key. Qed.

Lemma key_roundtrip_witness :
  decode_key [1; 127; 255; 255; 255; 255; 255; 255; 214] = Ok (Int (-42)).
Proof.
  apply key_roundtrip; [split; [split; reflexivity || discriminate | exact I] | reflexivity].
Defined.

(** C34: the primary key encoding preserves order: for two values of one column
    kind, neither of them -0.0 or NaN, the byte order the B+ tree uses
    ([memcmp]) on their keys is the engine's [Ord] on the values.  The two
    excluded floats are where it fails: [negative_zero_key_is_nan] below. *)
Theorem key_order a b ka kb :
  key_wf a -> key_wf b -> same_kind a b = true ->
  encode_key a = Ok ka -> encode_key b = Ok kb -> lex ka kb = cmp a b.
Proof. apply encode_key_order. Qed.

(** -1.5 (0xBFF8...) against 2.5 (0x4004...). *)
Lemma key_order_witness :
  lex (2 :: to_be 8 (float_ordered 0xBFF8000000000000))
      (2 :: to_be 8 (float_ordered 0x4004000000000000)) = Lt.
Proof.
  rewrite (key_order (Float 0xBFF8000000000000) (Float 0x4004000000000000)
             (2 :: to_be 8 (float_ordered 0xBFF8000000000000))
             (2 :: to_be 8 (float_ordered 0x4004000000000000)));
    [reflexivity
    | split; [split; reflexivity || discriminate | split; reflexivity || discriminate]
    | split; [split; reflexivity || discriminate | split; reflexivity || discriminate]
    | reflexivity | reflexivity | reflexivity].
Defined.

(** Secondary index entries round-trip: the entry of a secondary value (NULL
    and text with embedded NUL bytes included) and a primary key decodes to that
    pair. *)
Theorem sec_index_key_roundtrip sec pk key :
  sec_wf sec -> key_wf pk ->
  encode_sec_index_key sec pk = Ok key -> decode_sec_index_key key = Ok (sec, pk).
Proof. apply decode_encode_sec_index_key. Qed.

Lemma sec_index_key_roundtrip_witness :
  decode_sec_index_key [3; 97; 0; 255; 98; 0; 0; 4; 1] = Ok (Text [97; 0; 98], Bool true).
Proof.
  apply sec_index_key_roundtrip;
    [split; [split; reflexivity | exact I] | split; exact I | reflexivity].
Defined.

(** Secondary index entries order by indexed value first and primary key
    second: the byte order of two entries of one index is the lexicographic
    order of the pairs (value, primary key) under [Ord for Datum]. *)
Theorem sec_index_key_order a b pka pkb ka kb :
  sec_wf a -> sec_wf b -> same_kind a b = true ->
  key_wf pka -> key_wf pkb -> same_kind pka pkb = true ->
  encode_sec_index_key a pka = Ok ka -> encode_sec_index_key b pkb = Ok kb ->
  lex ka kb = match cmp a b with Eq => cmp pka pkb | c => c end.
Proof.
  intros Ha Hb Hs Hpa Hpb Hps Ea Eb. unfold encode_sec_index_key in Ea, Eb.
  apply res_bind_Ok in Ea as (pa & Epa & Ea). apply res_bind_Ok in Ea as (qa & Eqa & [= <-]).
  apply res_bind_Ok in Eb as (pb & Epb & Eb). apply res_bind_Ok in Eb as (qb & Eqb & [= <-]).
  rewrite (sec_prefix_order a b pa pb qa qb) by done.
  by rewrite (encode_key_order pka pkb qa qb).
Qed.

(** ("cat", 2) sorts before ("caterpillar", 1). *)
Lemma sec_index_key_order_witness :
  exists ka kb,
    encode_sec_index_key (Text (str "cat")) (Int 2) = Ok ka /\
    encode_sec_index_key (Text (str "caterpillar")) (Int 1) = Ok kb /\ lex ka kb = Lt.
Proof.
  eexists _, _. split; [reflexivity|]. split; [reflexivity|].
  eapply (sec_index_key_order (Text (str "cat")) (Text (str "caterpillar")) (Int 2) (Int 1));
    [split; [split; reflexivity | exact I] | split; [split; reflexivity | exact I]
    | reflexivity | split; [split; reflexivity || discriminate | exact I]
    | split; [split; reflexivity || discriminate | exact I] | reflexivity
    | reflexivity | reflexivity].
Defined.

(** the float key of [-0.0] does not survive: [encode_key] takes the
    non-negative branch ([-0.0 >= 0.0]) and yields eight zero bytes, which
    [decode_key] reads as a NaN; and that key sorts below the key of every
    other finite float although [-0.0] compares equal to [0.0]. *)
Theorem negative_zero_key_is_nan :
  exists key b, encode_key (Float (2 ^ 63)) = Ok key /\ decode_key key = Ok (Float b) /\
    f64_is_nan b = true /\ cmp (Float (2 ^ 63)) (Float 0) = Eq /\
    (forall v kv, u64 v -> float_key_ok v -> encode_key (Float v) = Ok kv -> lex key kv = Lt).
Proof.
  exists (2 :: to_be 8 0), u64_MAX. repeat split.
  intros v kv Hv Hk [= <-]. rewrite lex_cons_same.
  pose proof (float_ordered_u64 v Hv Hk). rewrite lex_to_be by (widths; lia).
  apply Z.compare_lt_iff. rewrite float_ordered_eq by done. widths.
  destruct Hk as [Hn _]. destruct (Z.ltb_spec v (2 ^ 63)); [lia|].
  destruct (Z.eq_dec v (2 ^ 64 - 1)) as [->|]; [discriminate Hn | lia].
Qed.
