(* ===== verification/DateTime.v ===== *)
(** Date and time text (crates/engine/src/types.rs): [parse_datetime_str],
    [format_datetime_micros] and the civil-calendar conversions
    [ymd_to_days] / [days_to_ymd]. *)
From stdpp Require Import base list gmap strings.
From Stdlib Require Import ZArith Lia.
From S2P Require Import Prelude Machine Types.

(** * Text primitives of the standard library used by the parser *)

(** Length in bytes of the Unicode white-space character at the head, or 0. *)
Definition ws_len (bs : bytes) : nat :=
  match bs with
  | b0 :: r0 =>
    if between 9 b0 13 || (b0 =? 32) then 1%nat else
    match r0 with
    | b1 :: r1 =>
      if (b0 =? 0xC2) && ((b1 =? 0x85) || (b1 =? 0xA0)) then 2%nat else
      match r1 with
      | b2 :: _ =>
        if (b0 =? 0xE1) && (b1 =? 0x9A) && (b2 =? 0x80) then 3%nat else
        if (b0 =? 0xE2) && (b1 =? 0x80) &&
           (between 0x80 b2 0x8A || (b2 =? 0xA8) || (b2 =? 0xA9) || (b2 =? 0xAF)) then 3%nat else
        if (b0 =? 0xE2) && (b1 =? 0x81) && (b2 =? 0x9F) then 3%nat else
        if (b0 =? 0xE3) && (b1 =? 0x80) && (b2 =? 0x80) then 3%nat else 0%nat
      | [] => 0%nat
      end
    | [] => 0%nat
    end
  | [] => 0%nat
  end.

(** [str::split_whitespace]; [skip] counts the remaining bytes of the
    white-space character being consumed, [cur] is the field being read. *)
Fixpoint split_ws (skip : nat) (cur : bytes) (bs : bytes) : list bytes :=
  let flush := match cur with [] => [] | _ => [cur] end in
  match bs with
  | [] => flush
  | b :: r =>
    match skip with
    | S k => split_ws k cur r
    | O => match ws_len bs with
           | O => split_ws 0 (cur ++ [b]) r
           | S k => flush ++ split_ws k [] r
           end
    end
  end.

Definition split_whitespace (s : bytes) : list bytes := split_ws 0 [] s.

(** [str::split(c)] on an ASCII character. *)
Fixpoint split_on (c : Z) (cur : bytes) (bs : bytes) : list bytes :=
  match bs with
  | [] => [cur]
  | b :: r => if b =? c then cur :: split_on c [] r else split_on c (cur ++ [b]) r
  end.

Definition split (c : Z) (s : bytes) : list bytes := split_on c [] s.

(** [from_str_radix(10)] after the sign: at least one digit, digits only. *)
Definition parse_digits (s : bytes) : option Z :=
  match s with
  | [] => None
  | _ => if forallb is_digit s then Some (dec_value 0 s) else None
  end.

Definition parse_u32 (s : bytes) : option Z :=
  v ← (match s with 43 :: r => parse_digits r | _ => parse_digits s end);
  if v <? 2 ^ 32 then Some v else None.

Definition parse_i32 (s : bytes) : option Z :=
  v ← (match s with
       | 43 :: r => parse_digits r
       | 45 :: r => Z.opp <$> parse_digits r
       | _ => parse_digits s
       end);
  if (- 2 ^ 31 <=? v) && (v <? 2 ^ 31) then Some v else None.

(** [{z:0w}]: sign-aware zero padding to width [w]. *)
Definition zeros (n : nat) : bytes := replicate n 48.

Definition fmt_pad (w : nat) (z : Z) : bytes :=
  if z <? 0 then 45 :: zeros (w - 1 - length (digits (- z))) ++ digits (- z)
  else zeros (w - length (digits z)) ++ digits z.

(** * Calendar conversions *)

Definition ymd_to_days (y m d : Z) : Z :=
  let y := y - (if m <=? 2 then 1 else 0) in
  let era := Z.quot (if 0 <=? y then y else y - 399) 400 in
  let yoe := y - era * 400 in
  let m := m + (if 2 <? m then 0 else 12) in
  let doy := (153 * (m - 3) + 2) / 5 + d - 1 in
  let doe := yoe * 365 + yoe / 4 - yoe / 100 + doy in
  era * 146097 + doe - 719468.

Definition days_to_ymd (days : Z) : Z * Z * Z :=
  let z := days + 719468 in
  let era := Z.quot (if 0 <=? z then z else z - 146096) 146097 in
  let doe := z - era * 146097 in
  let yoe := (doe - doe / 1460 + doe / 36524 - doe / 146096) / 365 in
  let y := yoe + era * 400 in
  let doy := doe - (365 * yoe + yoe / 4 - yoe / 100) in
  let mp := (5 * doy + 2) / 153 in
  let d := doy - (153 * mp + 2) / 5 + 1 in
  let m := if mp <? 10 then mp + 3 else mp - 9 in
  let y := y + (if m <=? 2 then 1 else 0) in
  (y, m, d).

(** * Parsing and formatting *)

(** The fraction field: digits scaled to six places by the two loops
    [while len < 6 { val *= 10 }] and [while len > 6 { val /= 10 }]. *)
Definition scale_micros (val : Z) (len : nat) : Z :=
  if (len <=? 6)%nat then val * 10 ^ Z.of_nat (6 - len) else val / 10 ^ Z.of_nat (len - 6).

Definition parse_time (s : bytes) : option (Z * Z * Z * Z) :=
  match split 58 s with
  | [h; m; sec] =>
    h ← parse_u32 h;
    m ← parse_u32 m;
    let sec_parts := split 46 sec in
    s ← parse_u32 (hd [] sec_parts);
    ms ← (match sec_parts with
          | [_; p] => val ← parse_u32 p; Some (scale_micros val (length p))
          | _ => Some 0
          end);
    Some (h, m, s, ms)
  | _ => None
  end.

(** The leading [trim] is subsumed by [split_whitespace], which drops leading
    and trailing white space itself.  The final arithmetic is [i64] and wraps
    in the release profile. *)
Definition parse_datetime_str (s : bytes) : option Z :=
  match split_whitespace s with
  | d :: rest =>
    if (1 <? Zlen rest) then None else
    match split 45 d with
    | [y; m; d] =>
      year ← parse_i32 y;
      month ← parse_u32 m;
      day ← parse_u32 d;
      '(hour, min, sec, micros) ←
        (match rest with t :: _ => parse_time t | [] => Some (0, 0, 0, 0) end);
      if (month =? 0) || (12 <? month) || (day =? 0) || (31 <? day)
         || (24 <=? hour) || (60 <=? min) || (60 <=? sec) then None
      else
        let days := ymd_to_days year month day in
        let secs := days * 86400 + hour * 3600 + min * 60 + sec in
        Some (wrap_i 64 (secs * 1000000 + micros))
    | _ => None
    end
  | [] => None
  end.

Definition format_datetime_micros (micros : Z) : bytes :=
  let secs := micros / 1000000 in
  let micro_part := micros mod 1000000 in
  let days := secs / 86400 in
  let tod := secs mod 86400 in
  let hour := tod / 3600 in
  let min := (tod mod 3600) / 60 in
  let sec := tod mod 60 in
  let '(y, m, d) := days_to_ymd days in
  fmt_pad 4 y ++ [45] ++ fmt_pad 2 m ++ [45] ++ fmt_pad 2 d ++ [32] ++
  fmt_pad 2 hour ++ [58] ++ fmt_pad 2 min ++ [58] ++ fmt_pad 2 sec ++
  (if 0 <? micro_part then [46] ++ fmt_pad 6 micro_part else []).

(** * Lemmas: the calendar *)

(** Linear arithmetic with the euclidean equations of [/] and [mod]. *)
Ltac div_lia := Z.div_mod_to_equations; lia.

(** Inside an era of 400 years (146097 days) the year of the era and the day of
    the year computed from the day of the era are in range. *)
Lemma yoe_bounds doe :
  0 <= doe < 146097 ->
  let yoe := (doe - doe / 1460 + doe / 36524 - doe / 146096) / 365 in
  0 <= yoe < 400 /\ 0 <= doe - (365 * yoe + yoe / 4 - yoe / 100) <= 365.
Proof.
  intros H yoe.
  assert (doe / 146096 = 0 /\ doe < 146096 \/ doe / 146096 = 1 /\ doe = 146096) as Hc by div_lia.
  assert (0 <= yoe < 400) as Hy by (subst yoe; div_lia).
  assert (doe / 36524 = 0 \/ doe / 36524 = 1 \/ doe / 36524 = 2 \/ doe / 36524 = 3
          \/ doe / 36524 = 4) as Hb by div_lia.
  split; [done|]. subst yoe.
  destruct Hc as [[-> Hc]|[-> Hc]]; destruct Hb as [E|[E|[E|[E|E]]]]; rewrite E in *; div_lia.
Qed.

Lemma era_quot z k : 0 < k -> Z.quot (if 0 <=? z then z else z - (k - 1)) k = z / k.
Proof.
  intros Hk. destruct (Z.leb_spec 0 z); [by apply Z.quot_div_nonneg|].
  replace (z - (k - 1)) with (- (k - 1 - z)) by lia.
  rewrite Z.quot_opp_l, Z.quot_div_nonneg by lia.
  pose proof (Z.div_mod z k ltac:(lia)). pose proof (Z.mod_pos_bound z k ltac:(lia)).
  assert ((k - 1 - z) / k = - (z / k)); [|lia].
  symmetry. apply (Z.div_unique_pos _ _ _ (k - 1 - z mod k)); lia.
Qed.

(** Shifting by whole eras shifts the year by 400. *)
Lemma days_to_ymd_era doe e :
  0 <= doe < 146097 ->
  days_to_ymd (doe + e * 146097 - 719468) =
  (let '(y, m, d) := days_to_ymd (doe - 719468) in (y + e * 400, m, d)).
Proof.
  intros Hd. unfold days_to_ymd.
  rewrite !(fun z => era_quot z 146097 ltac:(lia) : Z.quot (if 0 <=? z then z else z - 146096) 146097 = _).
  replace (doe - 719468 + 719468) with doe by lia.
  replace (doe + e * 146097 - 719468 + 719468) with (doe + e * 146097) by lia.
  rewrite Z.div_add, (Z.div_small doe 146097), Z.add_0_l by lia.
  replace (doe + e * 146097 - e * 146097) with doe by lia.
  replace (doe - 0 * 146097) with doe by lia.
  cbv zeta. do 2 (apply f_equal2; [|reflexivity]). lia.
Qed.

Lemma ymd_to_days_era y m d e :
  ymd_to_days (y + e * 400) m d = ymd_to_days y m d + e * 146097.
Proof.
  unfold ymd_to_days. change 399 with (400 - 1). rewrite !era_quot by lia.
  set (c := if m <=? 2 then 1 else 0).
  replace (y + e * 400 - c) with (y - c + e * 400) by lia.
  rewrite Z.div_add by lia. set (q := (y - c) / 400).
  replace (y - c + e * 400 - (q + e) * 400) with (y - c - q * 400) by lia. lia.
Qed.

(** Inside an era: the date is in range and converts back. *)
Definition civil_ok (days lo : Z) (t : Z * Z * Z) : Prop :=
  let '(y, m, d) := t in
  ymd_to_days y m d = days /\ 1 <= m <= 12 /\ 1 <= d <= 31 /\ lo <= y <= lo + 400.

Lemma era_civil doe :
  0 <= doe < 146097 -> civil_ok (doe - 719468) 0 (days_to_ymd (doe - 719468)).
Proof.
  intros Hd. unfold days_to_ymd.
  rewrite !(fun z => era_quot z 146097 ltac:(lia) : Z.quot (if 0 <=? z then z else z - 146096) 146097 = _).
  replace (doe - 719468 + 719468) with doe by lia.
  rewrite (Z.div_small doe) by lia. rewrite Z.mul_0_l, Z.sub_0_r.
  pose proof (yoe_bounds doe Hd) as Hy. cbv zeta in Hy |- *.
  revert Hy. generalize ((doe - doe / 1460 + doe / 36524 - doe / 146096) / 365).
  intros yoe [Hy Hdoy]. set (doy := doe - (365 * yoe + yoe / 4 - yoe / 100)) in *.
  assert (doe = yoe * 365 + yoe / 4 - yoe / 100 + doy) as Hdoe by lia.
  clearbody doy. subst doe. set (mp := (5 * doy + 2) / 153).
  assert (0 <= mp <= 11) as Hmp by (subst mp; div_lia).
  assert (1 <= doy - (153 * mp + 2) / 5 + 1 <= 31) as Hday by (subst mp; div_lia).
  clearbody mp. unfold civil_ok, ymd_to_days. change 399 with (400 - 1).
  rewrite era_quot by lia.
  destruct (Z.ltb_spec mp 10);
    [rewrite (proj2 (Z.leb_gt (mp + 3) 2)), (proj2 (Z.ltb_lt 2 (mp + 3))) by lia
    |rewrite (proj2 (Z.leb_le (mp - 9) 2)), (proj2 (Z.ltb_ge 2 (mp - 9))) by lia].
  - replace (yoe + 0 * 400 + 0 - 0) with yoe by lia. rewrite Z.div_small by lia.
    replace (yoe - 0 * 400) with yoe by lia. replace (mp + 3 + 0 - 3) with mp by lia. lia.
  - replace (yoe + 0 * 400 + 1 - 1) with yoe by lia. rewrite Z.div_small by lia.
    replace (yoe - 0 * 400) with yoe by lia. replace (mp - 9 + 12 - 3) with mp by lia. lia.
Qed.

Lemma civil_era days lo e t :
  civil_ok days lo t ->
  civil_ok (days + e * 146097) (lo + e * 400) (let '(y, m, d) := t in (y + e * 400, m, d)).
Proof.
  destruct t as [[y m] d]. unfold civil_ok. rewrite ymd_to_days_era. lia.
Qed.

Lemma civil_roundtrip days :
  civil_ok days ((days + 719468) / 146097 * 400) (days_to_ymd days).
Proof.
  pose proof (Z.div_mod (days + 719468) 146097 ltac:(lia)) as Hdm.
  pose proof (Z.mod_pos_bound (days + 719468) 146097 ltac:(lia)) as Hb.
  revert Hdm Hb. generalize ((days + 719468) / 146097) ((days + 719468) mod 146097).
  intros e doe Hdm Hb.
  pose proof (civil_era _ _ e _ (era_civil doe Hb)) as H.
  rewrite <- days_to_ymd_era in H by done.
  assert (doe + e * 146097 - 719468 = days) as Hd by lia.
  rewrite Hd in H. replace (doe - 719468 + e * 146097) with days in H by lia.
  by rewrite Z.add_0_l in H.
Qed.

(** * Lemmas: text fields *)

(** A nonempty string of digits. *)
Definition digs (s : bytes) : Prop := s <> [] /\ forallb is_digit s = true.

Lemma digits_aux_length fuel z acc k :
  0 <= z < 10 ^ Z.of_nat (S k) -> (length (digits_aux fuel z acc) <= S k + length acc)%nat.
Proof.
  revert z acc k. induction fuel as [|fuel IH]; intros z acc k Hz; cbn [digits_aux]; [lia|].
  destruct (Z.ltb_spec z 10); [cbn; lia|].
  destruct k as [|k]; [change (10 ^ Z.of_nat 1) with 10 in Hz; lia|].
  rewrite Nat2Z.inj_succ, Z.pow_succ_r in Hz by lia.
  etransitivity; [apply (IH _ _ k); div_lia | cbn; lia].
Qed.

Lemma dec_value_zeros n s : dec_value 0 (zeros n ++ s) = dec_value 0 s.
Proof. induction n as [|n IH]; [done|]. exact IH. Qed.

Lemma fmt_pad_digs w z : 0 <= z -> digs (fmt_pad w z) /\ dec_value 0 (fmt_pad w z) = z.
Proof.
  intros Hz. unfold fmt_pad, digs. zb. destruct (digits_spec z Hz) as [Hd Hv].
  rewrite dec_value_zeros, forallb_app, Hd, andb_true_r. split; [|done]. split.
  - intros H. apply app_eq_nil in H as [_ H]. by apply (digits_ne z).
  - unfold zeros. clear. induction (w - length (digits z))%nat; done.
Qed.

Lemma fmt_pad_length w z :
  0 <= z < 10 ^ Z.of_nat (S w) -> length (fmt_pad (S w) z) = S w.
Proof.
  intros Hz. unfold fmt_pad, zeros. zb. rewrite length_app, length_replicate.
  pose proof (digits_aux_length (S (Z.to_nat (Z.log2 z))) z [] w Hz) as Hl.
  fold (digits z) in Hl. cbn [length] in Hl. lia.
Qed.

Lemma digs_head s : digs s -> exists c r, s = c :: r /\ 48 <= c <= 57.
Proof.
  intros [Hne Hd]. destruct s as [|c r]; [done|]. cbn in Hd. unfold is_digit in Hd. bsimp.
  exists c, r. split; [done | lia].
Qed.

(** A digit string parses to its value when that fits. *)
Lemma parse_u32_digs s : digs s -> dec_value 0 s < 2 ^ 32 -> parse_u32 s = Some (dec_value 0 s).
Proof.
  intros Hs Hv. destruct (digs_head s Hs) as (c & r & -> & Hc). destruct Hs as [_ Hd].
  unfold parse_u32. replace (match c :: r with 43 :: r => parse_digits r | _ => parse_digits (c :: r) end)
    with (Some (dec_value 0 (c :: r))); [cbn [mbind option_bind]; by zb|].
  assert (c = 48 \/ c = 49 \/ c = 50 \/ c = 51 \/ c = 52 \/ c = 53 \/ c = 54 \/ c = 55 \/
          c = 56 \/ c = 57) as Hc' by lia.
  repeat destruct Hc' as [->|Hc']; try subst c; unfold parse_digits; by rewrite Hd.
Qed.

Lemma parse_i32_digs s : digs s -> 0 <= dec_value 0 s < 2 ^ 31 -> parse_i32 s = Some (dec_value 0 s).
Proof.
  intros Hs Hv. destruct (digs_head s Hs) as (c & r & -> & Hc). destruct Hs as [_ Hd].
  unfold parse_i32.
  replace (match c :: r with
           | 43 :: r => parse_digits r | 45 :: r => Z.opp <$> parse_digits r
           | _ => parse_digits (c :: r) end)
    with (Some (dec_value 0 (c :: r))); [cbn [mbind option_bind]; by zb|].
  assert (c = 48 \/ c = 49 \/ c = 50 \/ c = 51 \/ c = 52 \/ c = 53 \/ c = 54 \/ c = 55 \/
          c = 56 \/ c = 57) as Hc' by lia.
  repeat destruct Hc' as [->|Hc']; try subst c; unfold parse_digits; by rewrite Hd.
Qed.

Lemma parse_u32_pad w z : 0 <= z < 2 ^ 32 -> parse_u32 (fmt_pad w z) = Some z.
Proof.
  intros Hz. destruct (fmt_pad_digs w z) as [Hd Hv]; [lia|].
  rewrite parse_u32_digs by (done || lia). by rewrite Hv.
Qed.

Lemma parse_i32_pad w z : 0 <= z < 2 ^ 31 -> parse_i32 (fmt_pad w z) = Some z.
Proof.
  intros Hz. destruct (fmt_pad_digs w z) as [Hd Hv]; [lia|].
  rewrite parse_i32_digs by (done || lia). by rewrite Hv.
Qed.

Lemma digit_not s c b : forallb is_digit s = true -> b ∈ s -> c < 48 \/ 57 < c -> b <> c.
Proof.
  intros Hd Hb Hc ->. rewrite forallb_forall in Hd.
  apply list_elem_of_In in Hb. apply Hd in Hb. unfold is_digit in Hb. bsimp. lia.
Qed.

Lemma split_on_field c cur s rest :
  (forall b, b ∈ s -> b <> c) -> split_on c cur (s ++ c :: rest) = (cur ++ s) :: split_on c [] rest.
Proof.
  revert cur. induction s as [|b s IH]; intros cur Hs; cbn [split_on app].
  - by rewrite Z.eqb_refl, app_nil_r.
  - rewrite (proj2 (Z.eqb_neq b c)) by (apply Hs; set_solver).
    rewrite IH by (intros; apply Hs; set_solver). by rewrite <- app_assoc.
Qed.

Lemma split_on_last c cur s :
  (forall b, b ∈ s -> b <> c) -> split_on c cur s = [cur ++ s].
Proof.
  revert cur. induction s as [|b s IH]; intros cur Hs; cbn [split_on app].
  - by rewrite app_nil_r.
  - rewrite (proj2 (Z.eqb_neq b c)) by (apply Hs; set_solver).
    rewrite IH by (intros; apply Hs; set_solver). by rewrite <- app_assoc.
Qed.

(** Bytes from ['-'] to [':'] are not white space. *)
Definition plain (s : bytes) : Prop := Forall (fun b => 45 <= b <= 58) s.

Lemma ws_len_plain b r : 45 <= b <= 58 -> ws_len (b :: r) = 0%nat.
Proof.
  intros Hb. unfold ws_len, between. zb. cbn [andb orb].
  destruct r as [|b1 [|b2 r]]; zb; cbn [andb orb]; done.
Qed.

Lemma split_ws_plain cur s :
  plain s -> cur ++ s <> [] -> split_ws 0 cur s = [cur ++ s].
Proof.
  revert cur. induction s as [|b s IH]; intros cur Hs Hne.
  - rewrite app_nil_r in *. by destruct cur.
  - inversion Hs; subst. cbn [split_ws]. rewrite ws_len_plain by done.
    rewrite IH; [by rewrite <- app_assoc | done | rewrite <- app_assoc; done].
Qed.

Lemma split_ws_field cur s rest :
  plain s -> cur ++ s <> [] -> split_ws 0 cur (s ++ 32 :: rest) = (cur ++ s) :: split_ws 0 [] rest.
Proof.
  revert cur. induction s as [|b s IH]; intros cur Hs Hne.
  - rewrite app_nil_r in *. cbn. by destruct cur.
  - inversion Hs; subst. cbn [split_ws app]. rewrite ws_len_plain by done.
    rewrite IH; [by rewrite <- app_assoc | done | rewrite <- app_assoc; done].
Qed.

Lemma digs_plain s : digs s -> plain s.
Proof.
  intros [_ Hd]. apply Forall_forall. intros b Hb. rewrite forallb_forall in Hd.
  apply list_elem_of_In, Hd in Hb. unfold is_digit in Hb. bsimp. lia.
Qed.

Lemma digs_no c s : digs s -> c < 48 \/ 57 < c -> forall b, b ∈ s -> b <> c.
Proof. intros [_ Hd] Hc b Hb. by eapply digit_not. Qed.

(** Splitting [a c b c d] for fields free of the separator. *)
Lemma split_3 c a b d :
  (forall x, x ∈ a -> x <> c) -> (forall x, x ∈ b -> x <> c) -> (forall x, x ∈ d -> x <> c) ->
  split c (a ++ [c] ++ b ++ [c] ++ d) = [a; b; d].
Proof.
  intros Ha Hb Hd. unfold split. cbn [app].
  rewrite split_on_field, split_on_field, split_on_last by done. done.
Qed.

(** The seconds field, with and without its fraction. *)
Definition sec_field (s us : Z) : bytes :=
  fmt_pad 2 s ++ (if 0 <? us then [46] ++ fmt_pad 6 us else []).

Lemma parse_time_format h m s us :
  0 <= h < 24 -> 0 <= m < 60 -> 0 <= s < 60 -> 0 <= us < 1000000 ->
  parse_time (fmt_pad 2 h ++ [58] ++ fmt_pad 2 m ++ [58] ++ sec_field s us) = Some (h, m, s, us).
Proof.
  intros Hh Hm Hs Hus. unfold parse_time.
  destruct (fmt_pad_digs 2 h) as [Dh _]; [lia|]. destruct (fmt_pad_digs 2 m) as [Dm _]; [lia|].
  destruct (fmt_pad_digs 2 s) as [Ds _]; [lia|]. destruct (fmt_pad_digs 6 us) as [Du _]; [lia|].
  rewrite split_3; [|apply digs_no; auto; lia|apply digs_no; auto; lia|].
  - rewrite !parse_u32_pad by lia. cbn [mbind option_bind]. unfold sec_field, split.
    destruct (Z.ltb_spec 0 us) as [Hp|Hp].
    + cbn [app]. rewrite split_on_field by (apply digs_no; auto; lia).
      rewrite split_on_last by (apply digs_no; auto; lia). cbn [app hd].
      rewrite !parse_u32_pad by lia. cbn [mbind option_bind].
      rewrite fmt_pad_length by (cbn; lia). unfold scale_micros. cbn. do 2 f_equal. lia.
    + rewrite app_nil_r, split_on_last by (apply digs_no; auto; lia). cbn [app hd].
      rewrite parse_u32_pad by lia. cbn. do 2 f_equal. lia.
  - intros b Hb. unfold sec_field in Hb. apply elem_of_app in Hb as [Hb|Hb].
    { revert b Hb. apply digs_no; auto; lia. }
    destruct (0 <? us); [|by apply not_elem_of_nil in Hb].
    apply elem_of_app in Hb as [Hb|Hb]; [apply list_elem_of_singleton in Hb; lia|].
    revert b Hb. apply digs_no; auto; lia.
Qed.

Lemma plain_app s r : plain s -> plain r -> plain (s ++ r).
Proof. apply Forall_app_2. Qed.

Lemma plain_sep c r : 45 <= c <= 58 -> plain r -> plain ([c] ++ r).
Proof. intros. by constructor. Qed.

Lemma sec_field_plain s us : 0 <= s -> 0 <= us -> plain (sec_field s us).
Proof.
  intros Hs Hu. unfold sec_field. apply plain_app; [apply digs_plain, fmt_pad_digs; lia|].
  destruct (0 <? us); [|constructor].
  apply plain_sep; [lia|]. apply digs_plain, fmt_pad_digs. lia.
Qed.

(** The time of day of a count of seconds. *)
Lemma tod_parts secs :
  let tod := secs mod 86400 in
  0 <= tod / 3600 < 24 /\ 0 <= (tod mod 3600) / 60 < 60 /\ 0 <= tod mod 60 < 60 /\
  secs / 86400 * 86400 + tod / 3600 * 3600 + (tod mod 3600) / 60 * 60 + tod mod 60 = secs.
Proof.
  cbv zeta.
  assert (0 <= secs mod 86400 < 86400) as Ht by (apply Z.mod_pos_bound; lia).
  pose proof (Z.div_mod secs 86400 ltac:(lia)).
  set (t := secs mod 86400) in *. clearbody t. div_lia.
Qed.

(** Parsing the printed form of a date with a non-negative year. *)
Lemma parse_format_ymd y m d h mi s us :
  0 <= y < 2 ^ 31 -> 1 <= m <= 12 -> 1 <= d <= 31 ->
  0 <= h < 24 -> 0 <= mi < 60 -> 0 <= s < 60 -> 0 <= us < 1000000 ->
  parse_datetime_str
    ((fmt_pad 4 y ++ [45] ++ fmt_pad 2 m ++ [45] ++ fmt_pad 2 d) ++ 32 ::
     (fmt_pad 2 h ++ [58] ++ fmt_pad 2 mi ++ [58] ++ sec_field s us))
  = Some (wrap_i 64 ((ymd_to_days y m d * 86400 + h * 3600 + mi * 60 + s) * 1000000 + us)).
Proof.
  intros Hy Hm Hd Hh Hmi Hs Hus. unfold parse_datetime_str, split_whitespace.
  destruct (fmt_pad_digs 4 y) as [Dy _]; [lia|]. destruct (fmt_pad_digs 2 m) as [Dm _]; [lia|].
  destruct (fmt_pad_digs 2 d) as [Dd _]; [lia|]. destruct (fmt_pad_digs 2 h) as [Dh _]; [lia|].
  destruct (fmt_pad_digs 2 mi) as [Dmi _]; [lia|].
  rewrite split_ws_field; cycle 1.
  { repeat first [apply plain_sep; [lia|] | apply plain_app | by apply digs_plain]. }
  { destruct (digs_head _ Dy) as (c & r & -> & _). done. }
  rewrite split_ws_plain; cycle 1.
  { repeat first [apply plain_sep; [lia|] | by apply digs_plain | apply sec_field_plain; lia
                 | apply plain_app]. }
  { destruct (digs_head _ Dh) as (c & r & -> & _). done. }
  rewrite !app_nil_l.
  cbn [length]. zb.
  rewrite (split_3 45 (fmt_pad 4 y) (fmt_pad 2 m) (fmt_pad 2 d)) by (apply digs_no; auto; lia).
  rewrite parse_i32_pad, !parse_u32_pad by lia. cbn [mbind option_bind].
  rewrite (parse_time_format h mi s us) by lia. cbn [mbind option_bind]. by zb.
Qed.

Lemma parse_format_datetime x :
  i64 x -> - 719468 * 86400000000 <= x ->
  parse_datetime_str (format_datetime_micros x) = Some x.
Proof.
  intros Hx Hlo. widths. unfold format_datetime_micros.
  pose proof (civil_roundtrip (x / 1000000 / 86400)) as Hc.
  pose proof (tod_parts (x / 1000000)) as Ht. cbv zeta in Ht.
  pose proof (Z.mod_pos_bound x 1000000 ltac:(lia)) as Hu.
  assert (0 <= (x / 1000000 / 86400 + 719468) / 146097 < 1000) as He by div_lia.
  destruct (days_to_ymd (x / 1000000 / 86400)) as [[y m] d]. unfold civil_ok in Hc.
  pose proof (parse_format_ymd y m d (x / 1000000 mod 86400 / 3600)
    (x / 1000000 mod 86400 mod 3600 / 60) (x / 1000000 mod 86400 mod 60) (x mod 1000000)) as H.
  unfold sec_field in H. rewrite <- !app_assoc in H. cbn [app] in H |- *.
  rewrite H by lia. clear H. destruct Hc as (-> & _).
  rewrite wrap_i_id; [|lia|]; [f_equal; div_lia | widths; div_lia].
Qed.

(** * Properties *)

(** Date-time text round-trips: every [i64] microsecond count from 1 March of
    year 0 on, printed by [format_datetime_micros] (with or without a fraction),
    is read back by [parse_datetime_str] as the same count. *)
Theorem datetime_text_roundtrip x :
  i64 x -> - 719468 * 86400000000 <= x ->
  parse_datetime_str (format_datetime_micros x) = Some x.
Proof. apply parse_format_datetime. Qed.

Lemma datetime_text_roundtrip_witness :
  parse_datetime_str (str "1969-12-31 23:59:59.999999") = Some (-1).
Proof.
  apply (datetime_text_roundtrip (-1)); [split; reflexivity || discriminate | discriminate].
Defined.

(** the calendar conversions agree on every day number: [days_to_ymd] yields a
    month in 1..12 and a day in 1..31, and [ymd_to_days] maps the date back. *)
Theorem civil_calendar_roundtrip days :
  let '(y, m, d) := days_to_ymd days in
  ymd_to_days y m d = days /\ 1 <= m <= 12 /\ 1 <= d <= 31.
Proof.
  pose proof (civil_roundtrip days) as H. destruct (days_to_ymd days) as [[y m] d].
  unfold civil_ok in H. tauto.
Qed.

(** [parse_datetime_str] accepts years whose microsecond count leaves [i64],
    and then wraps (release profile): year 300000 reads as a date before 1970. *)
Theorem datetime_parse_overflow :
  exists v, parse_datetime_str (str "300000-01-01") = Some v /\
    v <> ymd_to_days 300000 1 1 * 86400000000 /\ v < 0.
Proof. eexists. split; [reflexivity|]. split; [discriminate | reflexivity]. Qed.
