(* ===== verification/TableDef.v ===== *)
(** Table definitions and their binary form: the schema records of table.rs,
    the statistics section of stats.rs and the table-definition codec of wal.rs
    ([encode_table_def_pub] / [decode_table_def_pub]), shared by the log and the
    snapshot. *)
From stdpp Require Import base list gmap strings sorting.
From Stdlib Require Import ZArith Lia.
From S2P Require Import Prelude Machine Types.

(** * Schema records (table.rs) *)

Record ColumnDef := mkColumnDef {
  col_name : bytes;
  col_ctype : ColumnType;
  col_nullable : bool;
  col_auto_increment : bool;
  col_default_value : option Datum;
}.

Record Schema := mkSchema { columns : list ColumnDef; pk_idx : Z }.

Record IndexDef := mkIndexDef { idx_name : bytes; idx_column : bytes }.

Inductive FkAction : Type := Restrict | Cascade | SetNull.

Record ForeignKeyDef := mkForeignKeyDef {
  fk_name : bytes;
  fk_column : bytes;
  fk_ref_table : bytes;
  fk_ref_column : bytes;
  fk_on_delete : FkAction;
}.

(** * Statistics records (stats.rs) *)

Record ColumnStats := mkColumnStats {
  null_count : Z;
  distinct_count : Z;
  st_min : option Datum;
  st_max : option Datum;
  mcv : list (Datum * Z);
  total : Z;
}.

Record TableStats := mkTableStats {
  row_count : Z;
  st_columns : gmap bytes ColumnStats;
  analyzed_at : Z;
}.

Record TableDef := mkTableDef {
  td_name : bytes;
  td_schema : Schema;
  td_indexes : list IndexDef;
  td_foreign_keys : list ForeignKeyDef;
  td_stats : option TableStats;
}.

Definition MCV_CAP : Z := 8.

(** * Field codecs (wal.rs) *)

Definition put_str (s : bytes) : bytes := to_le 4 (Zlen s) ++ s.

Abbreviation put_bytes := put_str.

Definition take_bytes : Dec bytes :=
  b ← get_slice (Corrupted (str "bytes: truncated")) 4;
  get_slice (Corrupted (str "bytes: overruns record")) (of_le b).

Definition take_u32 : Dec Z :=
  b ← get_slice (Corrupted (str "u32: truncated")) 4; mret (of_le b).

Definition take_str : Dec bytes :=
  b ← take_bytes; dec_lift (from_utf8 (Corrupted (str "utf8 string")) b).

(** [Some(d)] is a 1 byte and the datum, [None] a 0 byte. *)
Definition put_opt_datum (d : option Datum) : bytes :=
  match d with Some d => 1 :: encode d | None => [0] end.

(** [if len > cap { return Err(..) }]. *)
Definition check_le (n cap : Z) (msg : string) : Dec () :=
  if cap <? n then dec_fail (Corrupted (str msg)) else mret ().

(** * Statistics codec (stats.rs) *)

Definition stats_EOF : Error := Corrupted (str "stats: EOF").

Definition st_take_u32 : Dec Z := b ← get_slice stats_EOF 4; mret (of_le b).
Definition st_take_u64 : Dec Z := b ← get_slice stats_EOF 8; mret (of_le b).

Definition st_take_str : Dec bytes :=
  len ← st_take_u32;
  check_le len 1024 "stats: name too long";;
  b ← get_slice stats_EOF len;
  dec_lift (from_utf8 (Corrupted (str "stats: utf8")) b).

(** The presence byte and the optional datum after it. *)
Definition st_take_opt : Dec (option Datum) :=
  t ← get_byte stats_EOF;
  if t =? 0 then mret None else (d ← decode; mret (Some d)).

(** [names.sort()]: the entries of the map by ascending name. *)
Definition lex_le (a b : bytes * ColumnStats) : Prop := lex a.1 b.1 <> Gt.

#[global] Instance lex_le_dec a b : Decision (lex_le a b).
Proof. unfold lex_le. destruct (lex a.1 b.1); [left|left|right]; congruence. Defined.

Definition sorted_entries (m : gmap bytes ColumnStats) : list (bytes * ColumnStats) :=
  merge_sort lex_le (map_to_list m).

Definition encode_mcv (e : Datum * Z) : bytes := encode e.1 ++ to_le 8 e.2.

Definition encode_col_stats (e : bytes * ColumnStats) : bytes :=
  let c := e.2 in
  put_str e.1 ++ to_le 8 (null_count c) ++ to_le 8 (distinct_count c) ++ to_le 8 (total c) ++
  put_opt_datum (st_min c) ++ put_opt_datum (st_max c) ++
  to_le 4 (Zlen (mcv c)) ++ mjoin (encode_mcv <$> mcv c).

Definition encode_stats (s : TableStats) : bytes :=
  to_le 8 (row_count s) ++ to_le 8 (analyzed_at s) ++ to_le 4 (Z.of_nat (size (st_columns s))) ++
  mjoin (encode_col_stats <$> sorted_entries (st_columns s)).

Definition decode_mcv : Dec (Datum * Z) := d ← decode; n ← st_take_u64; mret (d, n).

Definition decode_col_stats : Dec (bytes * ColumnStats) :=
  name ← st_take_str;
  null_count ← st_take_u64;
  distinct_count ← st_take_u64;
  total ← st_take_u64;
  min ← st_take_opt;
  max ← st_take_opt;
  nmcv ← st_take_u32;
  check_le nmcv (MCV_CAP * 128) "stats: MCV list too large";;
  mcv ← dec_list (Z.to_nat nmcv) decode_mcv;
  mret (name, mkColumnStats null_count distinct_count min max mcv total).

(** The map is filled entry by entry; a repeated name keeps its last entry. *)
Definition insert_entries (l : list (bytes * ColumnStats)) : gmap bytes ColumnStats :=
  fold_left (fun m e => <[e.1 := e.2]> m) l ∅.

Definition decode_stats : Dec TableStats :=
  row_count ← st_take_u64;
  check_le row_count 1000000000 "stats: row count too large";;
  analyzed_at ← st_take_u64;
  ncols ← st_take_u32;
  check_le ncols 10000 "stats: too many columns";;
  cols ← dec_list (Z.to_nat ncols) decode_col_stats;
  mret (mkTableStats row_count (insert_entries cols) analyzed_at).

(** * Table-definition codec (wal.rs) *)

Definition bool_byte (b : bool) : Z := if b then 1 else 0.

(** [col.ctype.name().as_bytes()[0]]: the first letter of the type's name. *)
Definition ctype_byte (t : ColumnType) : Z := hd 0 (ColumnType_name t).

Definition ctype_of_byte (b : Z) : res ColumnType :=
  if b =? 73 then Ok CInt (* I *)
  else if b =? 66 then Ok CBigInt (* B *)
  else if b =? 70 then Ok CFloat (* F *)
  else if b =? 68 then Ok CDouble (* D *)
  else if b =? 84 then Ok CText (* T *)
  else if b =? 86 then Ok CVarChar (* V *)
  else if b =? 76 then Ok CBool (* L *)
  else if (b =? 69) || (b =? 77) then Ok CDateTime (* E, M *)
  else if (b =? 80) || (b =? 83) then Ok CTimestamp (* P, S *)
  else Err (Corrupted (str "unknown col type " ++ show_Z b)).

Definition encode_col (c : ColumnDef) : bytes :=
  put_str (col_name c) ++
  [ctype_byte (col_ctype c)] ++ [bool_byte (col_nullable c)] ++ [bool_byte (col_auto_increment c)] ++
  put_opt_datum (col_default_value c).

Definition encode_index (i : IndexDef) : bytes := put_str (idx_name i) ++ put_str (idx_column i).

Definition fk_action_byte (a : FkAction) : Z :=
  match a with Restrict => 0 | Cascade => 1 | SetNull => 2 end.

Definition encode_fk (f : ForeignKeyDef) : bytes :=
  put_str (fk_name f) ++ put_str (fk_column f) ++ put_str (fk_ref_table f) ++
  put_str (fk_ref_column f) ++ [fk_action_byte (fk_on_delete f)].

Definition encode_opt_stats (s : option TableStats) : bytes :=
  match s with Some s => 1 :: encode_stats s | None => [0] end.

Definition encode_table_def (def : TableDef) : bytes :=
  put_str (td_name def) ++
  to_le 4 (Zlen (columns (td_schema def))) ++ to_le 4 (pk_idx (td_schema def)) ++
  mjoin (encode_col <$> columns (td_schema def)) ++
  to_le 4 (Zlen (td_indexes def)) ++ mjoin (encode_index <$> td_indexes def) ++
  to_le 4 (Zlen (td_foreign_keys def)) ++ mjoin (encode_fk <$> td_foreign_keys def) ++
  encode_opt_stats (td_stats def).

Definition coldef_EOF : Error := Corrupted (str "coldef: EOF").

Definition decode_default (legacy_cols : bool) : Dec (option Datum) :=
  if legacy_cols then mret None else
  more ← more_bytes;
  if more : bool then
    has_def ← get_byte coldef_EOF;
    if has_def =? 0 then mret None else (d ← decode; mret (Some d))
  else mret None.

Definition decode_col (legacy_cols : bool) : Dec ColumnDef :=
  cname ← take_str;
  tbyte ← get_byte coldef_EOF;
  nullable ← get_byte coldef_EOF;
  auto_increment ←
    (if legacy_cols then mret false else (b ← get_byte coldef_EOF; mret (negb (b =? 0))));
  ctype ← dec_lift (ctype_of_byte tbyte);
  default_value ← decode_default legacy_cols;
  mret (mkColumnDef cname ctype (negb (nullable =? 0)) auto_increment default_value).

Definition decode_index : Dec IndexDef :=
  iname ← take_str; icol ← take_str; mret (mkIndexDef iname icol).

Definition take_fk_action : Dec FkAction :=
  b ← get_byte (Corrupted (str "fk: EOF"));
  match b with
  | 0 => mret Restrict
  | 1 => mret Cascade
  | 2 => mret SetNull
  | v => dec_fail (Corrupted (str "unknown FK action " ++ show_Z v))
  end.

Definition decode_fk : Dec ForeignKeyDef :=
  name ← take_str;
  column ← take_str;
  ref_table ← take_str;
  ref_column ← take_str;
  on_delete ← take_fk_action;
  mret (mkForeignKeyDef name column ref_table ref_column on_delete).

(** A trailing section: absent when the buffer ends before it. *)
Definition tolerant {A} (absent : A) (d : Dec A) : Dec A :=
  more ← more_bytes; if more : bool then d else mret absent.

(** [let n = take_u32()?; if n > 10_000 { .. }; for _ in 0..n { .. }]. *)
Definition counted {A} (msg : string) (d : Dec A) : Dec (list A) :=
  n ← take_u32;
  check_le n 10000 msg;;
  dec_list (Z.to_nat n) d.

Definition decode_opt_stats : Dec (option TableStats) :=
  present ← get_byte (Corrupted (str "tabledef: EOF"));
  if present =? 0 then mret None else (s ← decode_stats; mret (Some s)).

Definition decode_table_def (legacy_cols : bool) : Dec TableDef :=
  name ← take_str;
  ncols ← take_u32;
  check_le ncols 10000 "too many columns in table def";;
  pk_idx ← take_u32;
  columns ← dec_list (Z.to_nat ncols) (decode_col legacy_cols);
  indexes ← tolerant [] (counted "too many indexes in table def" decode_index);
  foreign_keys ← tolerant [] (counted "too many FKs in table def" decode_fk);
  stats ← tolerant None decode_opt_stats;
  mret (mkTableDef name (mkSchema columns pk_idx) indexes foreign_keys stats).

(** * Well-formed definitions: what the decoder's caps and the integer widths admit *)

Definition str_wf (s : bytes) : Prop := utf8_valid s = true /\ Zlen s < 2 ^ 32.

Definition opt_datum_wf (d : option Datum) : Prop := match d with Some d => datum_wf d | None => True end.

Definition col_stats_wf (e : bytes * ColumnStats) : Prop :=
  let c := e.2 in
  utf8_valid e.1 = true /\ Zlen e.1 <= 1024 /\
  u64 (null_count c) /\ u64 (distinct_count c) /\ u64 (total c) /\
  opt_datum_wf (st_min c) /\ opt_datum_wf (st_max c) /\ Zlen (mcv c) <= 1024 /\
  Forall (fun m => datum_wf m.1 /\ u64 m.2) (mcv c).

Definition stats_wf (s : TableStats) : Prop :=
  0 <= row_count s <= 1000000000 /\ u64 (analyzed_at s) /\
  Z.of_nat (size (st_columns s)) <= 10000 /\
  forall n c, st_columns s !! n = Some c -> col_stats_wf (n, c).

Definition col_wf (c : ColumnDef) : Prop :=
  str_wf (col_name c) /\ opt_datum_wf (col_default_value c).

Definition table_def_wf (def : TableDef) : Prop :=
  str_wf (td_name def) /\ u32 (pk_idx (td_schema def)) /\
  Zlen (columns (td_schema def)) <= 10000 /\ Forall col_wf (columns (td_schema def)) /\
  Zlen (td_indexes def) <= 10000 /\
  Forall (fun i => str_wf (idx_name i) /\ str_wf (idx_column i)) (td_indexes def) /\
  Zlen (td_foreign_keys def) <= 10000 /\
  Forall (fun f => str_wf (fk_name f) /\ str_wf (fk_column f) /\ str_wf (fk_ref_table f) /\
                   str_wf (fk_ref_column f)) (td_foreign_keys def) /\
  match td_stats def with Some s => stats_wf s | None => True end.

(** The type a stored column comes back with. *)
Definition reread_type (t : ColumnType) : ColumnType :=
  match t with
  | CBool => CBigInt
  | CDateTime => CDouble
  | CTimestamp => CText
  | t => t
  end.

Definition reread_col (c : ColumnDef) : ColumnDef :=
  mkColumnDef (col_name c) (reread_type (col_ctype c)) (col_nullable c) (col_auto_increment c)
    (col_default_value c).

Definition reread_schema (s : Schema) : Schema := mkSchema (reread_col <$> columns s) (pk_idx s).

Definition reread_def (def : TableDef) : TableDef :=
  mkTableDef (td_name def)
    (reread_schema (td_schema def))
    (td_indexes def) (td_foreign_keys def) (td_stats def).

(** * Lemmas: field codecs *)

Lemma decodes_check {B} n cap msg (k : Dec B) bs y :
  n <= cap -> decodes k bs y -> decodes (check_le n cap msg;; k) bs y.
Proof. intros Hn Hk. unfold check_le. zb. exact Hk. Qed.

Lemma decodes_le e w z :
  in_u (8 * Z.of_nat w) z -> decodes (b ← get_slice e (Z.of_nat w); mret (of_le b)) (to_le w z) z.
Proof.
  intros Hz. rewrite <- (of_le_to_le_u w z Hz) at 2.
  apply (decodes_bind_ret _ of_le). apply decodes_get_slice, Zlen_to_le.
Qed.

Lemma decodes_take_u32 z : u32 z -> decodes take_u32 (to_le 4 z) z.
Proof. apply (decodes_le _ 4). Qed.

Lemma decodes_st_take_u32 z : u32 z -> decodes st_take_u32 (to_le 4 z) z.
Proof. apply (decodes_le _ 4). Qed.

Lemma decodes_st_take_u64 z : u64 z -> decodes st_take_u64 (to_le 8 z) z.
Proof. apply (decodes_le _ 8). Qed.

Lemma decodes_from_utf8 e s : utf8_valid s = true -> decodes (dec_lift (from_utf8 e s)) [] s.
Proof. intros H. unfold from_utf8. rewrite H. apply decodes_lift. Qed.

Lemma decodes_take_bytes s : Zlen s < 2 ^ 32 -> decodes take_bytes (put_bytes s) s.
Proof.
  intros H. eapply decodes_bind; [apply decodes_get_slice, Zlen_to_le|].
  rewrite (of_le_to_le_u 4) by (widths; lia). by apply decodes_get_slice.
Qed.

Lemma decodes_take_str s : str_wf s -> decodes take_str (put_str s) s.
Proof.
  intros [Hu Hl]. rewrite <- (app_nil_r (put_str s)).
  eapply decodes_bind; [by apply decodes_take_bytes | by apply decodes_from_utf8].
Qed.

Lemma decodes_st_take_str s :
  utf8_valid s = true -> Zlen s <= 1024 -> decodes st_take_str (put_str s) s.
Proof.
  intros Hu Hl. eapply decodes_bind; [apply decodes_st_take_u32; widths; lia|].
  apply decodes_check; [done|]. rewrite <- (app_nil_r s) at 2.
  eapply decodes_bind; [by apply decodes_get_slice | by apply decodes_from_utf8].
Qed.

(** An optional datum behind its presence byte. *)
Lemma decodes_opt_datum e d :
  opt_datum_wf d ->
  decodes (t ← get_byte e; if t =? 0 then mret None else (d ← decode; mret (Some d)))
    (put_opt_datum d) d.
Proof.
  intros Hd. destruct d as [d|]; apply decodes_tag; cbn [Z.eqb].
  - by apply (decodes_bind_ret _ Some), datum_decodes.
  - apply decodes_ret.
Qed.

#[export] Hint Resolve decodes_take_u32 decodes_st_take_u32 decodes_st_take_u64 decodes_take_bytes
  decodes_take_str decodes_st_take_str decodes_opt_datum : codec.

(** Follow a decoder's binds against an encoding's concatenation. *)
Ltac dec_seq :=
  repeat first
    [ apply decodes_ret
    | apply decodes_check; [lia|]
    | eapply decodes_bind; [solve [eauto with codec] |]; cbn beta ].

(** * Lemmas: statistics *)

Lemma decodes_mcv e : datum_wf e.1 -> u64 e.2 -> decodes decode_mcv (encode_mcv e) e.
Proof.
  destruct e as [d n]. intros Hd Hn. unfold decode_mcv, encode_mcv. cbn in *. dec_seq.
  apply (decodes_bind_ret _ (fun n => (d, n))). auto with codec.
Qed.

Lemma decodes_col_stats e : col_stats_wf e -> decodes decode_col_stats (encode_col_stats e) e.
Proof.
  destruct e as [n [nc dc mn mx mv tt]].
  intros (Hu & Hl & Hnc & Hdc & Htt & Hmn & Hmx & Hml & Hmv). cbn in *.
  unfold decode_col_stats, encode_col_stats. cbn [fst snd null_count distinct_count total st_min st_max mcv].
  dec_seq. eapply decodes_bind; [apply decodes_st_take_u32; widths; lia|].
  apply decodes_check; [unfold MCV_CAP; lia|]. rewrite Nat2Z.id.
  apply (decodes_bind_ret _ (fun mv => (n, mkColumnStats nc dc mn mx mv tt))).
  rewrite <- (list_fmap_id mv) at 3. apply decodes_list.
  intros e He. rewrite Forall_forall in Hmv. destruct (Hmv e He). by apply decodes_mcv.
Qed.

Lemma insert_entries_eq l : NoDup l.*1 -> insert_entries l = list_to_map l.
Proof.
  intros Hn. unfold insert_entries.
  rewrite <- (fold_left_rev_right (fun e m => <[e.1 := e.2]> m)).
  change (list_to_map (rev l) = list_to_map (M := gmap bytes ColumnStats) l).
  apply list_to_map_proper.
  - by rewrite <- Permutation_rev.
  - by rewrite <- Permutation_rev.
Qed.

Lemma sorted_entries_perm m : sorted_entries m ≡ₚ map_to_list m.
Proof. apply merge_sort_Permutation. Qed.

Lemma insert_sorted_entries m : insert_entries (sorted_entries m) = m.
Proof.
  assert (NoDup (sorted_entries m).*1) as Hn.
  { rewrite sorted_entries_perm. apply NoDup_fst_map_to_list. }
  rewrite insert_entries_eq by done.
  rewrite <- (list_to_map_to_list m) at 2.
  apply list_to_map_proper; [done | apply sorted_entries_perm].
Qed.

Lemma length_sorted_entries m : length (sorted_entries m) = size m.
Proof. rewrite sorted_entries_perm. apply length_map_to_list. Qed.

Lemma decodes_stats s : stats_wf s -> decodes decode_stats (encode_stats s) s.
Proof.
  destruct s as [rc m at_]. intros (Hr & Ha & Hs & Hm). cbn in *.
  unfold decode_stats, encode_stats. cbn [row_count analyzed_at st_columns].
  eapply decodes_bind; [apply decodes_st_take_u64; widths; lia|].
  dec_seq. eapply decodes_bind; [apply decodes_st_take_u32; widths; lia|].
  apply decodes_check; [done|]. rewrite Nat2Z.id, <- length_sorted_entries.
  rewrite <- (insert_sorted_entries m) at 3.
  apply (decodes_bind_ret _ (fun l => mkTableStats rc (insert_entries l) at_)).
  rewrite <- (list_fmap_id (sorted_entries m)) at 3. apply decodes_list.
  intros [n c] He. apply decodes_col_stats, Hm. apply elem_of_map_to_list.
  by rewrite <- sorted_entries_perm.
Qed.

(** * Lemmas: table definitions *)

Lemma ctype_of_ctype_byte t : ctype_of_byte (ctype_byte t) = Ok (reread_type t).
Proof. by destruct t. Qed.

Lemma decodes_ctype t : decodes (dec_lift (ctype_of_byte (ctype_byte t))) [] (reread_type t).
Proof. rewrite ctype_of_ctype_byte. apply decodes_lift. Qed.

Lemma decodes_default d :
  opt_datum_wf d -> decodes (decode_default false) (put_opt_datum d) d.
Proof.
  intros Hd. apply decodes_more_bytes; [by destruct d|]. by apply decodes_opt_datum.
Qed.

Lemma bool_byte_neq0 b : negb (bool_byte b =? 0) = b.
Proof. by destruct b. Qed.

Lemma decodes_bool e b : decodes (x ← get_byte e; mret (negb (x =? 0))) [bool_byte b] b.
Proof.
  rewrite <- (bool_byte_neq0 b) at 2.
  apply (decodes_bind_ret _ (fun x => negb (x =? 0))). apply decodes_get_byte.
Qed.

Lemma decodes_col c : col_wf c -> decodes (decode_col false) (encode_col c) (reread_col c).
Proof.
  destruct c as [n t nl ai dv]. intros [Hn Hd]. cbn in *.
  unfold decode_col, encode_col, reread_col. cbn.
  eapply decodes_bind; [by apply decodes_take_str|].
  apply decodes_tag. apply decodes_tag.
  eapply (decodes_bind _ _ [bool_byte ai]); [apply decodes_bool|].
  eapply (decodes_bind _ _ []); [apply decodes_ctype|].
  rewrite bool_byte_neq0.
  apply (decodes_bind_ret _ (fun d => mkColumnDef n (reread_type t) nl ai d)).
  by apply decodes_default.
Qed.

Lemma decodes_index i :
  str_wf (idx_name i) -> str_wf (idx_column i) -> decodes decode_index (encode_index i) i.
Proof.
  destruct i as [n c]. intros Hn Hc. unfold decode_index, encode_index. cbn in *. dec_seq.
  apply (decodes_bind_ret _ (mkIndexDef n)). auto with codec.
Qed.

Lemma decodes_fk_action a : decodes take_fk_action [fk_action_byte a] a.
Proof. apply decodes_tag. destruct a; apply decodes_ret. Qed.

Lemma decodes_fk f :
  str_wf (fk_name f) -> str_wf (fk_column f) -> str_wf (fk_ref_table f) ->
  str_wf (fk_ref_column f) -> decodes decode_fk (encode_fk f) f.
Proof.
  destruct f as [n c rt rc a]. cbn. intros. unfold decode_fk, encode_fk. cbn. dec_seq.
  apply (decodes_bind_ret _ (mkForeignKeyDef n c rt rc)). apply decodes_fk_action.
Qed.

Lemma to_le_app_ne w z bs : to_le (S w) z ++ bs <> [].
Proof. done. Qed.

(** A counted tolerant section reads back its list. *)
Lemma decodes_section {A B} msg (enc : A -> bytes) (d : Dec A) xs (k : list A -> Dec B) rest y :
  Zlen xs <= 10000 -> (forall x, x ∈ xs -> decodes d (enc x) x) -> decodes (k xs) rest y ->
  decodes (tolerant [] (counted msg d) ≫= k) (to_le 4 (Zlen xs) ++ mjoin (enc <$> xs) ++ rest) y.
Proof.
  intros Hl Hx Hk. rewrite app_assoc. eapply decodes_bind; [|exact Hk].
  apply decodes_more_bytes; [apply to_le_app_ne|].
  eapply decodes_bind; [apply decodes_take_u32; widths; lia|].
  apply decodes_check; [done|]. rewrite Nat2Z.id.
  rewrite <- (list_fmap_id xs) at 3. by apply decodes_list.
Qed.

Lemma decodes_opt_stats s :
  match s with Some s => stats_wf s | None => True end ->
  decodes (tolerant None decode_opt_stats) (encode_opt_stats s) s.
Proof.
  intros Hs. apply decodes_more_bytes; [by destruct s|].
  destruct s as [s|]; apply decodes_tag; cbn [Z.eqb].
  - by apply (decodes_bind_ret _ Some), decodes_stats.
  - apply decodes_ret.
Qed.

Lemma decodes_table_def def :
  table_def_wf def -> decodes (decode_table_def false) (encode_table_def def) (reread_def def).
Proof.
  destruct def as [n [cols pk] idx fks st].
  intros (Hn & Hpk & Hcl & Hc & Hil & Hi & Hfl & Hf & Hs). cbn in *.
  unfold decode_table_def, encode_table_def, reread_def. cbn.
  eapply decodes_bind; [by apply decodes_take_str|].
  eapply decodes_bind; [apply decodes_take_u32; widths; lia|].
  apply decodes_check; [done|]. rewrite Nat2Z.id.
  eapply decodes_bind; [by apply decodes_take_u32|].
  rewrite !Forall_forall in *.
  eapply decodes_bind; [apply (decodes_list encode_col reread_col);
    intros c Hin; apply decodes_col; auto|].
  apply decodes_section; [done | intros i Hin; destruct (Hi i Hin); by apply decodes_index|].
  apply decodes_section; [done | intros f Hin; destruct (Hf f Hin) as (?&?&?&?); by apply decodes_fk|].
  apply (decodes_bind_ret _ (mkTableDef n (mkSchema (reread_col <$> cols) pk) idx fks)).
  by apply decodes_opt_stats.
Qed.

#[export] Hint Resolve decodes_table_def : codec.

(** The column types whose name starts with the letter the decoder expects. *)
Definition stable_type (t : ColumnType) : bool :=
  match t with CBool | CDateTime | CTimestamp => false | _ => true end.

Lemma reread_col_id c : reread_col c = c <-> stable_type (col_ctype c) = true.
Proof. destruct c as [n t nl ai dv]. unfold reread_col. cbn. by destruct t. Qed.

Lemma reread_def_id def :
  reread_def def = def <->
  Forall (fun c => stable_type (col_ctype c) = true) (columns (td_schema def)).
Proof.
  destruct def as [n [cols pk] idx fks st]. unfold reread_def, reread_schema. cbn.
  transitivity (reread_col <$> cols = cols); [split; congruence|].
  induction cols as [|c cols IH]; cbn; [by split|].
  rewrite Forall_cons, <- IH, <- reread_col_id. split; [by intros [=]|].
  intros [-> ->]. done.
Qed.

(** * Properties *)

(** A table definition written to the log or the snapshot is read back whole
    (name, columns with nullability, auto-increment and default, primary key,
    indexes, foreign keys, statistics), except that each column type is the one
    its first letter stands for. *)
Theorem table_def_roundtrip def :
  table_def_wf def -> decodes (decode_table_def false) (encode_table_def def) (reread_def def).
Proof. apply decodes_table_def. Qed.

(** A two-column definition used by the witnesses. *)
Definition demo_def (t : ColumnType) : TableDef :=
  mkTableDef (str "db.t")
    (mkSchema [mkColumnDef (str "id") CInt false true None;
               mkColumnDef (str "flag") t true false (Some Null)] 0)
    [mkIndexDef (str "i") (str "flag")]
    [mkForeignKeyDef (str "f") (str "flag") (str "db.p") (str "id") Cascade]
    None.

Lemma demo_def_wf t : table_def_wf (demo_def t).
Proof.
  unfold table_def_wf, demo_def, str_wf, col_wf. widths. cbn.
  repeat (split || constructor || reflexivity || discriminate).
Qed.

Lemma table_def_roundtrip_witness :
  decode_table_def false (encode_table_def (demo_def CText)) 0
  = Ok (demo_def CText, Zlen (encode_table_def (demo_def CText))).
Proof.
  pose proof (table_def_roundtrip (demo_def CText) (demo_def_wf CText) [] []) as H.
  rewrite app_nil_l, app_nil_r in H. exact H.
Defined.

(** The type byte is ambiguous: a stored definition comes back unchanged
    exactly when no column is BOOL, DATETIME or TIMESTAMP; those come back as
    BIGINT, DOUBLE and TEXT, and the re-read column of a DATETIME rejects the
    DATETIME values stored in it. *)
Theorem table_def_type_loss def d off :
  table_def_wf def ->
  decode_table_def false (encode_table_def def) 0 = Ok (d, off) ->
  (d = def <-> Forall (fun c => stable_type (col_ctype c) = true) (columns (td_schema def))) /\
  (forall c v, c ∈ columns (td_schema def) -> col_ctype c = CDateTime ->
    exists c', c' ∈ columns (td_schema d) /\ col_name c' = col_name c /\
      col_ctype c' = CDouble /\ accepts (col_ctype c') (DateTime v) = false).
Proof.
  intros Hwf Hd. pose proof (decodes_table_def def Hwf [] []) as H.
  rewrite app_nil_l, app_nil_r in H. change (Zlen []) with 0 in H.
  rewrite H in Hd. injection Hd as <- <-. split; [apply reread_def_id|].
  intros c v Hc Ht. exists (reread_col c). split; [by apply list_elem_of_fmap_2|].
  cbn. rewrite Ht. done.
Qed.

Lemma table_def_type_loss_witness :
  exists off, decode_table_def false (encode_table_def (demo_def CBool)) 0
              = Ok (demo_def CBigInt, off) /\ demo_def CBigInt <> demo_def CBool.
Proof.
  eexists. split; [vm_compute; reflexivity|].
  assert (exists off, decode_table_def false (encode_table_def (demo_def CBool)) 0
                      = Ok (demo_def CBigInt, off)) as [off Hd] by (eexists; vm_compute; reflexivity).
  destruct (table_def_type_loss (demo_def CBool) (demo_def CBigInt) off (demo_def_wf CBool) Hd)
    as [Hiff _].
  intros He. apply Hiff in He. rewrite Forall_forall in He.
  specialize (He (mkColumnDef (str "flag") CBool true false (Some Null))).
  cbn in He. discriminate He. right. left.
Defined.

(** ANALYZE statistics round-trip through their codec, whatever the order in
    which the hash map held the columns. *)
Theorem stats_roundtrip s : stats_wf s -> decodes decode_stats (encode_stats s) s.
Proof. apply decodes_stats. Qed.

Definition demo_stats : TableStats :=
  mkTableStats 3 (<[str "b" := mkColumnStats 1 2 (Some (Int 1)) (Some (Int 9)) [(Int 1, 2)] 3]>
                   {[str "a" := mkColumnStats 0 3 None None [] 3]}) 7.

Lemma stats_roundtrip_witness :
  decode_stats (encode_stats demo_stats) 0 = Ok (demo_stats, Zlen (encode_stats demo_stats)).
Proof.
  assert (stats_wf demo_stats) as Hwf.
  { split; [cbn; lia|]. split; [widths; cbn; lia|]. split; [vm_compute; discriminate|].
    intros n c H. cbn in H. apply lookup_insert_Some in H as [[<- <-]|[_ H]];
      [|apply lookup_singleton_Some in H as [<- <-]];
      unfold col_stats_wf, opt_datum_wf, datum_wf; widths; cbn;
      repeat (split || constructor || reflexivity || discriminate). }
  pose proof (stats_roundtrip demo_stats Hwf [] []) as H.
  rewrite app_nil_l, app_nil_r in H. exact H.
Defined.

(** the statistics decoder refuses what the encoder writes unchecked: the
    entry of a column whose name is longer than 1024 bytes, which the column
    codec itself accepts, is an error when the definition is read back. *)
Theorem stats_name_cap e post :
  1024 < Zlen e.1 < 2 ^ 32 ->
  decode_col_stats (encode_col_stats e ++ post) 0 = Err (Corrupted (str "stats: name too long")).
Proof.
  intros Hl. unfold encode_col_stats, put_str. rewrite <- !app_assoc.
  unfold decode_col_stats, st_take_str, mbind, dec_bind.
  match goal with |- context [st_take_u32 (to_le 4 ?z ++ ?r) 0] =>
    pose proof (decodes_st_take_u32 z ltac:(widths; lia) [] r) as H end.
  rewrite app_nil_l in H. change (Zlen []) with 0 in H. rewrite H.
  unfold check_le. zb. done.
Qed.

Lemma stats_name_cap_witness :
  decode_col_stats
    (encode_col_stats (replicate 1025 97, mkColumnStats 0 0 None None [] 0) ++ []) 0
  = Err (Corrupted (str "stats: name too long")).
Proof. apply stats_name_cap. split; reflexivity. Defined.
