(* ===== verification/WalCodec.v ===== *)
(** The write-ahead log's records on disk (crates/engine/src/wal.rs): record
    payloads, the CRC-32 framing, the replica-side range decoder
    [decode_wal_range] and the recovery reader [read_all]. *)
From stdpp Require Import base list gmap strings.
From Stdlib Require Import ZArith Lia.
From S2P Require Import Prelude Machine Types TableDef.

(** * Records *)

Inductive Record_ : Type :=
| RPut (txn : Z) (table key row : bytes)
| RDelete (txn : Z) (table key : bytes)
| RCommit (txn : Z) (ts : option Z)
| RCreateTable (txn : Z) (def : TableDef)
| RDropTable (txn : Z) (name : bytes)
| RCreateIndex (txn : Z) (table name column : bytes)
| RDropIndex (txn : Z) (table name : bytes)
| RCreateDatabase (txn : Z) (name : bytes)
| RDropDatabase (txn : Z) (name : bytes).

Definition WAL_MAGIC : bytes := str "HDBW".
Definition WAL_FORMAT_VERSION : Z := 4.

Definition KIND_PUT : Z := 1.
Definition KIND_DELETE : Z := 2.
Definition KIND_COMMIT : Z := 3.
Definition KIND_CREATE_TABLE : Z := 4.
Definition KIND_DROP_TABLE : Z := 5.
Definition KIND_CREATE_INDEX : Z := 6.
Definition KIND_DROP_INDEX : Z := 7.
Definition KIND_CREATE_DB : Z := 8.
Definition KIND_DROP_DB : Z := 9.

(** * CRC-32 (IEEE, reflected, table driven) *)

(** One bit of the table generator:
    [if c & 1 != 0 { 0xEDB8_8320 ^ (c >> 1) } else { c >> 1 }]. *)
Definition crc_bit (c : Z) : Z :=
  if negb (Z.land c 1 =? 0) then Z.lxor 0xEDB88320 (Z.shiftr c 1) else Z.shiftr c 1.

Definition poly_table : list Z :=
  Eval vm_compute in (fun i => Nat.iter 8 crc_bit (Z.of_nat i)) <$> seq 0 256.

(** [table[((crc ^ b) & 0xFF) as usize] ^ (crc >> 8)]. *)
Definition crc_step (crc b : Z) : Z :=
  Z.lxor (nth (Z.to_nat (Z.land (Z.lxor crc b) 0xFF)) poly_table 0) (Z.shiftr crc 8).

Definition crc32 (data : bytes) : Z :=
  Z.lxor (fold_left crc_step data 0xFFFFFFFF) 0xFFFFFFFF.

(** * Record codec *)

Definition encode_payload (rec : Record_) : bytes :=
  match rec with
  | RPut txn table key row =>
      KIND_PUT :: to_le 8 txn ++ put_str table ++ put_bytes key ++ put_bytes row
  | RDelete txn table key => KIND_DELETE :: to_le 8 txn ++ put_str table ++ put_bytes key
  | RCommit txn ts =>
      KIND_COMMIT :: to_le 8 txn ++ (match ts with Some ts => to_le 8 ts | None => [] end)
  | RCreateTable txn def => KIND_CREATE_TABLE :: to_le 8 txn ++ encode_table_def def
  | RDropTable txn name => KIND_DROP_TABLE :: to_le 8 txn ++ put_str name
  | RCreateIndex txn table name column =>
      KIND_CREATE_INDEX :: to_le 8 txn ++ put_str table ++ put_str name ++ put_str column
  | RDropIndex txn table name => KIND_DROP_INDEX :: to_le 8 txn ++ put_str table ++ put_str name
  | RCreateDatabase txn name => KIND_CREATE_DB :: to_le 8 txn ++ put_str name
  | RDropDatabase txn name => KIND_DROP_DB :: to_le 8 txn ++ put_str name
  end.

(** [encode_record]: the payload behind its length and checksum. *)
Definition frame (payload : bytes) : bytes :=
  to_le 4 (Zlen payload) ++ to_le 4 (crc32 payload) ++ payload.

Definition encode_record (rec : Record_) : bytes := frame (encode_payload rec).

(** The optional commit timestamp: present when eight bytes remain. *)
Definition take_ts : Dec (option Z) := fun buf off =>
  if 8 <=? Zlen buf - off
  then Ok (Some (of_le (take 8 (drop (Z.to_nat off) buf))), off + 8)
  else Ok (None, off).

(** The fields after the kind byte and the transaction id. *)
Definition decode_fields (legacy_cols : bool) (kind txn : Z) : Dec Record_ :=
  match kind with
  | 1 => table ← take_str; key ← take_bytes; row ← take_bytes; mret (RPut txn table key row)
  | 2 => table ← take_str; key ← take_bytes; mret (RDelete txn table key)
  | 3 => ts ← take_ts; mret (RCommit txn ts)
  | 4 => def ← decode_table_def legacy_cols; mret (RCreateTable txn def)
  | 5 => name ← take_str; mret (RDropTable txn name)
  | 6 => table ← take_str; name ← take_str; column ← take_str;
         mret (RCreateIndex txn table name column)
  | 7 => table ← take_str; name ← take_str; mret (RDropIndex txn table name)
  | 8 => name ← take_str; mret (RCreateDatabase txn name)
  | 9 => name ← take_str; mret (RDropDatabase txn name)
  | t => dec_fail (Corrupted (str "unknown record kind " ++ show_Z t))
  end.

Definition decode_record (legacy_cols : bool) : Dec Record_ :=
  kind ← get_byte (Corrupted (str "record: EOF"));
  t ← get_slice (Corrupted (str "record: truncated txn id")) 8;
  decode_fields legacy_cols kind (of_le t).

(** * Reading a log *)

Definition MAX_RECORD : Z := 2 ^ 30.

(** [decode_wal_range]: the loop over a raw byte range; [rest] is
    [data[off..]].  Each round consumes at least the 8 header bytes, so one unit
    of fuel per byte is enough ([decode_wal_range] below supplies it). *)
Fixpoint range_loop (fuel : nat) (legacy_cols : bool) (rest : bytes) (off : Z)
    (out : list Record_) : res (list Record_ * Z) :=
  match fuel with
  | O => Panic
  | S fuel =>
    if Zlen rest <? 8 then Ok (out, off) (* end of data or torn header *)
    else
      let len := of_le (take 4 rest) in
      let crc := of_le (take 4 (drop 4 rest)) in
      if MAX_RECORD <? len then Err (Corrupted (str "WAL record too large"))
      else if Zlen rest - 8 <? len then Ok (out, off) (* torn payload *)
      else
        let payload := take (Z.to_nat len) (drop 8 rest) in
        if negb (crc32 payload =? crc) then Err (Corrupted (str "WAL crc mismatch"))
        else
          '(rec, _) ← decode_record legacy_cols payload 0;
          range_loop fuel legacy_cols (drop (8 + Z.to_nat len) rest) (off + 8 + len) (out ++ [rec])
  end.

Definition decode_wal_range (data : bytes) (legacy_cols : bool) : res (list Record_ * Z) :=
  range_loop (S (length data)) legacy_cols data 0 [].

(** [reader.read_exact(buf of n bytes)]: the bytes and what follows, or the
    end-of-file error. *)
Definition read_exact (n : nat) (r : bytes) : option (bytes * bytes) :=
  if (length r <? n)%nat then None else Some (take n r, drop n r).

Definition eof : Error := Io (str "failed to fill whole buffer").

(** [read_all]: recovery's reader over the whole file. *)
Fixpoint read_loop (fuel : nat) (legacy_cols : bool) (r : bytes) (out : list Record_)
    : res (list Record_) :=
  match fuel with
  | O => Panic
  | S fuel =>
    match read_exact 8 r with
    | None => Ok out (* clean EOF or torn header: stop *)
    | Some (hdr, r) =>
      let len := of_le (take 4 hdr) in
      let crc := of_le (take 4 (drop 4 hdr)) in
      if MAX_RECORD <? len then Err (Corrupted (str "WAL record too large"))
      else if Zlen r <? len then Ok out (* torn tail *)
      else
        let payload := take (Z.to_nat len) r in
        if negb (crc32 payload =? crc) then Err (Corrupted (str "WAL crc mismatch"))
        else
          '(rec, _) ← decode_record legacy_cols payload 0;
          read_loop fuel legacy_cols (drop (Z.to_nat len) r) (out ++ [rec])
    end
  end.

Definition read_all (file : bytes) : res (list Record_) :=
  match read_exact 4 file with
  | None => Err eof
  | Some (magic, r) =>
    if negb (bool_decide (magic = WAL_MAGIC)) then Err (Corrupted (str "bad WAL magic"))
    else match read_exact 4 r with
    | None => Err eof
    | Some (vb, r) =>
      let version := of_le vb in
      if (version <? 1) || (WAL_FORMAT_VERSION <? version)
      then Err (Corrupted (str "WAL version " ++ show_Z version))
      else read_loop (S (length r)) (version <? 3) r []
    end
  end.

(** The header [Wal::open] and [Wal::reset] write. *)
Definition wal_header : bytes := WAL_MAGIC ++ to_le 4 WAL_FORMAT_VERSION.

(** * Well-formed records *)

Definition bytes_wf (b : bytes) : Prop := Zlen b < 2 ^ 32.

Definition fields_wf (rec : Record_) : Prop :=
  match rec with
  | RPut txn table key row => u64 txn /\ str_wf table /\ bytes_wf key /\ bytes_wf row
  | RDelete txn table key => u64 txn /\ str_wf table /\ bytes_wf key
  | RCommit txn ts => u64 txn /\ match ts with Some t => u64 t | None => True end
  | RCreateTable txn def => u64 txn /\ table_def_wf def
  | RCreateIndex txn table name column =>
      u64 txn /\ str_wf table /\ str_wf name /\ str_wf column
  | RDropIndex txn table name => u64 txn /\ str_wf table /\ str_wf name
  | RDropTable txn name | RCreateDatabase txn name | RDropDatabase txn name =>
      u64 txn /\ str_wf name
  end.

Definition record_wf (rec : Record_) : Prop :=
  fields_wf rec /\ Zlen (encode_payload rec) <= MAX_RECORD.

Definition reread_record (rec : Record_) : Record_ :=
  match rec with
  | RCreateTable txn def => RCreateTable txn (reread_def def)
  | r => r
  end.

(** The bytes of a sequence of records. *)
Definition log_bytes (recs : list Record_) : bytes := mjoin (encode_record <$> recs).

(** The records that lie entirely inside the first [n] bytes. *)
Fixpoint complete (n : Z) (recs : list Record_) : list Record_ :=
  match recs with
  | [] => []
  | r :: recs =>
    if Zlen (encode_record r) <=? n
    then r :: complete (n - Zlen (encode_record r)) recs else []
  end.

(** * Lemmas: CRC *)

Lemma in_u_lt_pow2 w a : 0 <= w -> 0 <= a -> (forall n, w <= n -> Z.testbit a n = false) -> in_u w a.
Proof.
  intros Hw Ha H. split; [done|]. destruct (Z.eq_dec a 0) as [->|]; [lia|].
  apply Z.log2_lt_pow2; [lia|]. destruct (Z.lt_ge_cases (Z.log2 a) w) as [|Hge]; [done|].
  specialize (H _ Hge). rewrite Z.bit_log2 in H by lia. done.
Qed.

Lemma testbit_high w a n : in_u w a -> 0 <= w <= n -> Z.testbit a n = false.
Proof.
  intros Ha Hn. rewrite <- (Z.mod_small a (2 ^ w)) by apply Ha. by apply Z.mod_pow2_bits_high.
Qed.

Lemma lxor_in_u w a b : 0 <= w -> in_u w a -> in_u w b -> in_u w (Z.lxor a b).
Proof.
  intros Hw Ha Hb. apply in_u_lt_pow2; [done| |].
  - apply Z.lxor_nonneg. split; intros; apply Ha || apply Hb.
  - intros n Hn. rewrite Z.lxor_spec, (testbit_high w a), (testbit_high w b) by (done || lia). done.
Qed.

Lemma poly_table_u32 : forallb (fun e => (0 <=? e) && (e <? 2 ^ 32)) poly_table = true.
Proof. reflexivity. Qed.

Lemma poly_entry_u32 i : u32 (nth i poly_table 0).
Proof.
  destruct (Nat.lt_ge_cases i (length poly_table)) as [Hi|Hi].
  - pose proof (proj1 (forallb_forall _ _) poly_table_u32 (nth i poly_table 0) (nth_In _ _ Hi)) as H.
    cbv beta in H. bsimp. widths. lia.
  - rewrite nth_overflow by done. widths. lia.
Qed.

Lemma shiftr_8 s : u32 s -> in_u 24 (Z.shiftr s 8).
Proof.
  intros Hs. widths. rewrite Z.shiftr_div_pow2 by lia.
  split; [apply Z.div_pos; lia | apply Z.div_lt_upper_bound; lia].
Qed.

Lemma crc_step_u32 s b : u32 s -> u32 (crc_step s b).
Proof.
  intros Hs. apply lxor_in_u; [lia | apply poly_entry_u32|].
  pose proof (shiftr_8 s Hs). widths. lia.
Qed.

Lemma crc_fold_u32 data s : u32 s -> u32 (fold_left crc_step data s).
Proof. revert s. induction data; intros s Hs; cbn; [done|]. auto using crc_step_u32. Qed.

Lemma crc32_u32 data : u32 (crc32 data).
Proof. apply lxor_in_u; [lia | apply crc_fold_u32; widths; lia | widths; lia]. Qed.

(** * Lemmas: record payloads *)

Lemma decodes_ts t : u64 t -> decodes take_ts (to_le 8 t) (Some t).
Proof.
  intros Ht pre post. unfold take_ts. rewrite !Zlen_app, Zlen_to_le. zb.
  rewrite drop_Zlen_app, take_app_length' by by rewrite length_to_le.
  by rewrite (of_le_to_le_u 8).
Qed.

(** Reading the kind and the transaction id leads to the fields, which may
    reach the end of the buffer ([post] is what follows them). *)
Lemma decode_record_head kind txn bs :
  u64 txn ->
  decode_record false (kind :: to_le 8 txn ++ bs) 0
  = decode_fields false kind txn (kind :: to_le 8 txn ++ bs) 9.
Proof.
  intros Ht. unfold decode_record, mbind, dec_bind.
  pose proof (decodes_get_byte (Corrupted (str "record: EOF")) kind [] (to_le 8 txn ++ bs)) as H1.
  rewrite app_nil_l in H1. cbn [app] in H1. change (Zlen []) with 0 in H1. rewrite H1.
  pose proof (decodes_get_slice (Corrupted (str "record: truncated txn id")) 8 (to_le 8 txn)
                (Zlen_to_le 8 txn) [kind] bs) as H2.
  cbn [app] in H2. change (Zlen [kind]) with (0 + Zlen [kind]) in H2 at 1. rewrite H2.
  by rewrite Zlen_to_le, (of_le_to_le_u 8).
Qed.

Lemma decode_record_fields kind txn bs rec :
  u64 txn -> decodes (decode_fields false kind txn) bs rec ->
  exists off, decode_record false (kind :: to_le 8 txn ++ bs) 0 = Ok (rec, off).
Proof.
  intros Ht Hd. rewrite decode_record_head by done.
  specialize (Hd (kind :: to_le 8 txn) []). rewrite app_nil_r in Hd.
  rewrite Zlen_cons, Zlen_to_le in Hd. cbn [app] in Hd. eauto.
Qed.

Ltac record_fields := apply decode_record_fields; [done|]; cbn [decode_fields]; dec_seq.

Lemma decode_record_payload rec :
  fields_wf rec ->
  exists off, decode_record false (encode_payload rec) 0 = Ok (reread_record rec, off).
Proof.
  destruct rec as [txn t k r|txn t k|txn [ts|]|txn d|txn n|txn t n c|txn t n|txn n|txn n];
    cbn; intros Hwf; destruct_and?.
  - record_fields. apply (decodes_bind_ret _ (RPut txn t k)). by apply decodes_take_bytes.
  - record_fields. apply (decodes_bind_ret _ (RDelete txn t)). by apply decodes_take_bytes.
  - record_fields. apply (decodes_bind_ret _ (RCommit txn)). by apply decodes_ts.
  - rewrite decode_record_head by done. exists 9. rewrite app_nil_r.
    change (decode_fields false KIND_COMMIT txn) with (ts ← take_ts; mret (RCommit txn ts)).
    unfold mbind, dec_bind, take_ts. by rewrite Zlen_cons, Zlen_to_le.
  - record_fields. apply (decodes_bind_ret _ (RCreateTable txn)). by apply decodes_table_def.
  - record_fields. apply (decodes_bind_ret _ (RDropTable txn)). by apply decodes_take_str.
  - record_fields. apply (decodes_bind_ret _ (RCreateIndex txn t n)). by apply decodes_take_str.
  - record_fields. apply (decodes_bind_ret _ (RDropIndex txn t)). by apply decodes_take_str.
  - record_fields. apply (decodes_bind_ret _ (RCreateDatabase txn)). by apply decodes_take_str.
  - record_fields. apply (decodes_bind_ret _ (RDropDatabase txn)). by apply decodes_take_str.
Qed.

(** * Lemmas: frames *)

Lemma Zlen_frame p : Zlen (frame p) = 8 + Zlen p.
Proof. unfold frame. rewrite !Zlen_app, !Zlen_to_le. lia. Qed.

Lemma take_4_frame p rest : take 4 (frame p ++ rest) = to_le 4 (Zlen p).
Proof.
  unfold frame. rewrite <- app_assoc. by rewrite take_app_length' by by rewrite length_to_le.
Qed.

Lemma drop_4_frame p rest : drop 4 (frame p ++ rest) = to_le 4 (crc32 p) ++ p ++ rest.
Proof.
  unfold frame. rewrite <- !app_assoc. by rewrite drop_app_length' by by rewrite length_to_le.
Qed.

Lemma drop_8_frame p rest : drop 8 (frame p ++ rest) = p ++ rest.
Proof.
  change 8%nat with (4 + 4)%nat. rewrite <- drop_drop, drop_4_frame.
  by rewrite drop_app_length' by by rewrite length_to_le.
Qed.

Lemma range_loop_step fuel rec rest off out :
  record_wf rec ->
  range_loop (S fuel) false (encode_record rec ++ rest) off out
  = range_loop fuel false rest (off + Zlen (encode_record rec)) (out ++ [reread_record rec]).
Proof.
  intros [Hf Hl]. unfold encode_record, MAX_RECORD in *. set (p := encode_payload rec) in *.
  cbn [range_loop]. rewrite Zlen_app, Zlen_frame, take_4_frame, drop_4_frame, drop_8_frame.
  rewrite (take_app_length' (to_le 4 (crc32 p))) by by rewrite length_to_le.
  rewrite !(of_le_to_le_u 4) by (apply crc32_u32 || (widths; lia)).
  unfold MAX_RECORD. zb. rewrite take_Zlen_app, Z.eqb_refl. cbn [negb].
  destruct (decode_record_payload rec Hf) as [o Ho]. fold p in Ho. rewrite Ho.
  cbn [mbind res_bind]. rewrite Nat2Z.id.
  rewrite drop_app_length' by (pose proof (Zlen_frame p); lia).
  f_equal. lia.
Qed.

Lemma take_torn {A} n (a b : list A) : (n < length a)%nat -> take n (a ++ b) = take n a.
Proof. intros. by rewrite take_app_le by lia. Qed.

(** A torn frame stops the reader without an error. *)
Lemma range_loop_torn fuel p n off out :
  Zlen p <= MAX_RECORD -> Z.of_nat n < Zlen (frame p) ->
  range_loop (S fuel) false (take n (frame p)) off out = Ok (out, off).
Proof.
  intros Hl Hn. unfold MAX_RECORD in *. rewrite Zlen_frame in Hn. cbn [range_loop].
  assert (length (frame p) = 8 + length p)%nat as Hf by (pose proof (Zlen_frame p); lia).
  rewrite length_take. destruct (Z.ltb_spec (Z.of_nat (n `min` length (frame p))) 8) as [|H8]; [done|].
  rewrite take_take, Nat.min_l by lia.
  rewrite <- (app_nil_r (frame p)), take_4_frame.
  rewrite (of_le_to_le_u 4) by (widths; lia). unfold MAX_RECORD. zb. done.
Qed.

Lemma log_bytes_cons r recs : log_bytes (r :: recs) = encode_record r ++ log_bytes recs.
Proof. done. Qed.

Lemma complete_prefix n recs fuel off out :
  Forall record_wf recs -> (n < fuel)%nat -> (n <= length (log_bytes recs))%nat ->
  range_loop fuel false (take n (log_bytes recs)) off out
  = Ok (out ++ (reread_record <$> complete (Z.of_nat n) recs),
        off + Zlen (log_bytes (complete (Z.of_nat n) recs))).
Proof.
  intros Hwf. revert n fuel off out.
  induction Hwf as [|r recs Hr Hwf IH]; intros n fuel off out Hfuel Hn.
  - destruct fuel as [|fuel]; [lia|].
    assert (n = 0)%nat as -> by (cbn in Hn; lia).
    replace (range_loop (S fuel) false (take 0 (log_bytes [])) off out) with (Ok (out, off))
      by reflexivity.
    change (complete (Z.of_nat 0) []) with (@nil Record_). cbn. by rewrite app_nil_r, Z.add_0_r.
  - rewrite log_bytes_cons in *. rewrite length_app in Hn. cbn [complete].
    destruct (Z.leb_spec (Zlen (encode_record r)) (Z.of_nat n)) as [Hle|Hgt].
    + rewrite take_app_ge by lia.
      destruct fuel as [|fuel]; [lia|]. rewrite range_loop_step by done.
      assert (8 <= Zlen (encode_record r)) by (unfold encode_record; rewrite Zlen_frame; lia).
      rewrite IH by lia.
      replace (Z.of_nat (n - length (encode_record r))) with (Z.of_nat n - Zlen (encode_record r)) by lia.
      rewrite log_bytes_cons, Zlen_app, fmap_cons, <- app_assoc. cbn [app]. do 2 f_equal. lia.
    + rewrite take_torn by lia. destruct fuel as [|fuel]; [lia|].
      unfold encode_record in *. rewrite range_loop_torn by (done || apply Hr).
      cbn. by rewrite app_nil_r, Z.add_0_r.
Qed.

(** Recovery's reader and the replica's range decoder are the same loop. *)
Lemma read_loop_range fuel legacy r off out :
  read_loop fuel legacy r out = fst <$> range_loop fuel legacy r off out.
Proof.
  revert r off out. induction fuel as [|fuel IH]; intros r off out; [done|].
  cbn [read_loop range_loop]. unfold read_exact.
  destruct (Nat.ltb_spec (length r) 8) as [Hs|Hs]; zb; [done|].
  rewrite take_take, Nat.min_l by lia.
  assert (drop 4 (take 8 r) = take 4 (drop 4 r)) as -> by (by rewrite skipn_firstn_comm).
  rewrite take_take, Nat.min_l by lia. rewrite length_drop.
  replace (Z.of_nat (length r - 8)) with (Zlen r - 8) by lia.
  destruct (MAX_RECORD <? _); [done|]. destruct (Zlen r - 8 <? _); [done|].
  destruct (negb _); [done|].
  destruct (decode_record _ _ _) as [[rec o]| |]; cbn [mbind res_bind]; try done.
  rewrite drop_drop. by rewrite (IH _ (off + 8 + of_le (take 4 r))).
Qed.

Lemma read_all_header rest :
  read_all (wal_header ++ rest) = fst <$> decode_wal_range rest false.
Proof.
  unfold read_all, wal_header, read_exact.
  change (WAL_MAGIC ++ to_le 4 WAL_FORMAT_VERSION) with [72; 68; 66; 87; 4; 0; 0; 0].
  cbn [app length Nat.ltb Nat.leb firstn skipn]. cbn -[read_loop length decode_wal_range].
  apply read_loop_range.
Qed.

(** A header that is cut is an end-of-file error, wherever the cut falls. *)
Lemma read_all_cut_header n rest : (n < 8)%nat -> read_all (take n (wal_header ++ rest)) = Err eof.
Proof. intros Hn. do 8 (destruct n as [|n]; [reflexivity|]). lia. Qed.

(** * Lemmas: the checksum detects a changed byte *)

Lemma poly_high_nodup : NoDup ((fun e => Z.shiftr e 24) <$> poly_table).
Proof. apply (bool_decide_unpack _). vm_compute. exact I. Qed.

Lemma lxor_cancel_l a b c : Z.lxor a b = Z.lxor a c -> b = c.
Proof.
  intros H. apply (f_equal (Z.lxor a)) in H.
  by rewrite <- !Z.lxor_assoc, !Z.lxor_nilpotent, !Z.lxor_0_l in H.
Qed.

Lemma land_255_index x : (Z.to_nat (Z.land x 0xFF) < 256)%nat.
Proof.
  change 0xFF with (Z.ones 8). rewrite Z.land_ones by lia.
  pose proof (Z.mod_pos_bound x (2 ^ 8) ltac:(lia)). lia.
Qed.

(** The high byte of a table entry names its index. *)
Lemma poly_high_inj i j :
  (i < 256)%nat -> (j < 256)%nat ->
  Z.shiftr (nth i poly_table 0) 24 = Z.shiftr (nth j poly_table 0) 24 -> i = j.
Proof.
  intros Hi Hj H. apply (NoDup_lookup _ _ _ (Z.shiftr (nth i poly_table 0) 24) poly_high_nodup).
  - rewrite list_lookup_fmap. destruct (nth_lookup_or_length poly_table i 0) as [->|Hl]; [done|].
    change (length poly_table) with 256%nat in Hl. lia.
  - rewrite H, list_lookup_fmap. destruct (nth_lookup_or_length poly_table j 0) as [->|Hl]; [done|].
    change (length poly_table) with 256%nat in Hl. lia.
Qed.

Lemma crc_step_high s b :
  u32 s -> Z.shiftr (crc_step s b) 24 = Z.shiftr (nth (Z.to_nat (Z.land (Z.lxor s b) 0xFF)) poly_table 0) 24.
Proof.
  intros Hs. unfold crc_step. rewrite Z.shiftr_lxor, Z.shiftr_shiftr by lia.
  rewrite (Z.shiftr_div_pow2 s) by lia. widths. rewrite (Z.div_small s) by (cbn; lia).
  apply Z.lxor_0_r.
Qed.

(** Equal outputs come from the same table index and the same high bytes. *)
Lemma crc_step_inv s s' b b' :
  u32 s -> u32 s' -> crc_step s b = crc_step s' b' ->
  Z.land (Z.lxor s b) 0xFF = Z.land (Z.lxor s' b') 0xFF /\ Z.shiftr s 8 = Z.shiftr s' 8.
Proof.
  intros Hs Hs' H. pose proof (f_equal (fun x => Z.shiftr x 24) H) as Hh. cbv beta in Hh.
  rewrite !crc_step_high in Hh by done.
  apply poly_high_inj in Hh; [|apply land_255_index..].
  assert (forall x, 0 <= Z.land x 0xFF) as Hnn by (intros; apply Z.land_nonneg; lia).
  unfold crc_step in H. rewrite Hh in H. apply lxor_cancel_l in H.
  split; [|done]. apply Z2Nat.inj; auto.
Qed.

Lemma land_255_u8 b : u8 b -> Z.land b 0xFF = b.
Proof. intros Hb. change 0xFF with (Z.ones 8). rewrite Z.land_ones by lia. by apply Z.mod_small. Qed.

Lemma land_lxor_255 a b : Z.land (Z.lxor a b) 0xFF = Z.lxor (Z.land a 0xFF) (Z.land b 0xFF).
Proof. apply Z.bits_inj'. intros n _. rewrite !Z.land_spec, !Z.lxor_spec, !Z.land_spec.
  by destruct (Z.testbit a n), (Z.testbit b n), (Z.testbit 0xFF n).
Qed.

Lemma crc_step_inj_state s s' b : u32 s -> u32 s' -> crc_step s b = crc_step s' b -> s = s'.
Proof.
  intros Hs Hs' H. apply crc_step_inv in H as [Hl Hh]; [|done..].
  rewrite !land_lxor_255, !(Z.lxor_comm _ (Z.land b _)) in Hl. apply lxor_cancel_l in Hl.
  change 0xFF with (Z.ones 8) in Hl. rewrite !Z.land_ones in Hl by lia.
  rewrite !Z.shiftr_div_pow2 in Hh by lia.
  rewrite (Z.div_mod s (2 ^ 8)), (Z.div_mod s' (2 ^ 8)) by lia. congruence.
Qed.

Lemma crc_step_inj_byte s b b' : u32 s -> u8 b -> u8 b' -> crc_step s b = crc_step s b' -> b = b'.
Proof.
  intros Hs Hb Hb' H. apply crc_step_inv in H as [Hl _]; [|done..].
  rewrite !land_lxor_255 in Hl. apply lxor_cancel_l in Hl. by rewrite !land_255_u8 in Hl.
Qed.

Lemma crc_fold_inj data s s' :
  u32 s -> u32 s' -> fold_left crc_step data s = fold_left crc_step data s' -> s = s'.
Proof.
  revert s s'. induction data as [|b data IH]; intros s s' Hs Hs' H; [done|]. cbn in H.
  apply IH in H; [|by apply crc_step_u32..]. by eapply crc_step_inj_state.
Qed.

(** * Properties *)

(** C14: crash prefixes of the log file decode to exactly the records they
    contain: of a file of the header and the frames of [recs], cut after any [n]
    bytes (a crash in the middle of a write), [read_all] fails with the
    end-of-file error when the header itself is cut and otherwise returns the
    records whose frames are complete, in order, without an error for the torn
    one; [decode_wal_range] over the bytes behind the header returns the same
    records and the offset just after the last of them. *)
Theorem wal_prefix_recovery recs n :
  let file := take n (wal_header ++ log_bytes recs) in
  let whole := complete (Z.of_nat n - 8) recs in
  Forall record_wf recs -> (n <= length (wal_header ++ log_bytes recs))%nat ->
  read_all file = (if (n <? 8)%nat then Err eof else Ok (reread_record <$> whole))
  /\ ((8 <= n)%nat ->
      decode_wal_range (drop 8 file) false = Ok (reread_record <$> whole, Zlen (log_bytes whole))).
Proof.
  intros file whole Hwf Hn. rewrite length_app in Hn. change (length wal_header) with 8%nat in Hn.
  assert (Hfile : (8 <= n)%nat -> file = wal_header ++ take (n - 8) (log_bytes recs)).
  { intros H8. unfold file. rewrite take_app, take_ge by (change (length wal_header) with 8%nat; lia).
    done. }
  assert (Hrange : (8 <= n)%nat -> decode_wal_range (take (n - 8) (log_bytes recs)) false
    = Ok (reread_record <$> whole, Zlen (log_bytes whole))).
  { intros H8. unfold decode_wal_range, whole.
    replace (Z.of_nat n - 8) with (Z.of_nat (n - 8)) by lia.
    rewrite complete_prefix; [done|done| |lia]. rewrite length_take. lia. }
  split.
  - destruct (Nat.ltb_spec n 8) as [Hlt|H8].
    + by apply read_all_cut_header.
    + by rewrite (Hfile H8), read_all_header, (Hrange H8).
  - intros H8. rewrite (Hfile H8), <- (Hrange H8). done.
Qed.

(** A two-record transaction used by the witnesses. *)
Definition demo_log : list Record_ := [RPut 7 (str "db.t") [1; 2] [0]; RCommit 7 (Some 99)].

Lemma demo_log_wf : Forall record_wf demo_log.
Proof.
  unfold demo_log, record_wf, fields_wf, str_wf, bytes_wf, MAX_RECORD. widths. cbn.
  repeat (split || constructor || reflexivity || discriminate).
Qed.

Lemma wal_prefix_recovery_witness :
  read_all (take 48 (wal_header ++ log_bytes demo_log)) = Ok [RPut 7 (str "db.t") [1; 2] [0]]
  /\ decode_wal_range (drop 8 (take 48 (wal_header ++ log_bytes demo_log))) false
     = Ok ([RPut 7 (str "db.t") [1; 2] [0]], 36)
  /\ read_all (take 5 (wal_header ++ log_bytes demo_log)) = Err eof.
Proof.
  destruct (wal_prefix_recovery demo_log 48 demo_log_wf) as [Hall Hrange];
    [apply Nat.leb_le; vm_compute; reflexivity|].
  destruct (wal_prefix_recovery demo_log 5 demo_log_wf) as [Hcut _];
    [apply Nat.leb_le; vm_compute; reflexivity|].
  rewrite Hall, Hrange, Hcut by lia. split; [|split]; reflexivity.
Defined.

(** The recovery reader agrees with the replica's decoder: on a file with the
    current header, [read_all] returns the records [decode_wal_range] returns for
    the bytes after the header, and fails or stops exactly when it does. *)
Theorem read_all_equals_range rest :
  read_all (wal_header ++ rest) = fst <$> decode_wal_range rest false.
Proof. apply read_all_header. Qed.

(** The record checksum detects every single-byte change: two payloads that
    differ in one byte have different CRC-32 values. *)
Theorem crc32_detects_byte_change p b b' q :
  u8 b -> u8 b' -> b <> b' -> crc32 (p ++ b :: q) <> crc32 (p ++ b' :: q).
Proof.
  intros Hb Hb' Hne H. unfold crc32 in H.
  rewrite !(Z.lxor_comm _ 0xFFFFFFFF) in H. apply lxor_cancel_l in H.
  rewrite !fold_left_app in H. cbn [fold_left] in H.
  assert (u32 (fold_left crc_step p 0xFFFFFFFF)) as Hp by (apply crc_fold_u32; widths; lia).
  apply crc_fold_inj in H; [|by apply crc_step_u32..].
  by apply crc_step_inj_byte in H.
Qed.

Lemma crc32_detects_byte_change_witness :
  crc32 (str "123456789") = 0xCBF43926 /\ crc32 (str "123456789") <> crc32 (str "123456780").
Proof.
  split; [vm_compute; reflexivity|].
  apply (crc32_detects_byte_change (str "12345678") 57 48 []);
    [split; reflexivity || discriminate.. | discriminate].
Defined.
