(* ===== verification/BTree.v ===== *)
(** The B+ tree index (btree.rs): nodes in a shared store, one definition per
    function of the source, and the search of a node's key array.

    An [Arc<Node>] is a location of a store of node bodies, so a leaf's [next]
    pointer and a parent's child pointer alias the same node, as in the source.
    The definitions give each call run on its own: latches are free when asked
    for and the version checks of a read succeed, so the restarts that remain
    are the ones the sequential code takes by itself.  Loops carry fuel; [Fuel]
    is the outcome of a run that used it up. *)
From stdpp Require Import base list gmap.
From Stdlib Require Import ZArith Lia.
From S2P Require Import Prelude Machine.

(** * Outcomes *)

Inductive out (A : Type) : Type :=
| Ret (a : A)
| Panics
| Fuel.
Arguments Ret {A} a.
Arguments Panics {A}.
Arguments Fuel {A}.

#[global] Instance out_ret : MRet out := fun A a => Ret a.
#[global] Instance out_bind : MBind out := fun A B k m =>
  match m with Ret a => k a | Panics => Panics | Fuel => Fuel end.

(** Indexing and [unwrap]: a panic when there is nothing there. *)
Definition ix {A} (o : option A) : out A := match o with Some a => Ret a | None => Panics end.

(** * Node bodies and the tree *)

Abbreviation loc := nat (only parsing).

Inductive NodeBody : Type :=
| Leaf (keys : list bytes) (heads : list Z) (vals : list bytes) (next : option loc)
| Internal (keys : list bytes) (heads : list Z) (children : list loc).

Definition MAX_KEYS : nat := 128.
Definition MIN_KEYS : nat := MAX_KEYS / 2.

(** [store] holds every node allocated so far, [brk] the next free location;
    [retired] lists the nodes handed to the epoch manager. *)
Record BTree := mkBTree {
  store : gmap loc NodeBody;
  brk : loc;
  root : loc;
  splits : Z;
  merges : Z;
  in_place : Z;
  entries : Z;
  retired : list loc;
}.

Definition set_body (t : BTree) (l : loc) (b : NodeBody) : BTree :=
  mkBTree (<[l := b]> (store t)) (brk t) (root t) (splits t) (merges t) (in_place t) (entries t) (retired t).

(** [Node::with_body]: a fresh node. *)
Definition with_body (t : BTree) (b : NodeBody) : BTree * loc :=
  (mkBTree (<[brk t := b]> (store t)) (S (brk t)) (root t) (splits t) (merges t) (in_place t)
     (entries t) (retired t), brk t).

Definition set_root (t : BTree) (l : loc) : BTree :=
  mkBTree (store t) (brk t) l (splits t) (merges t) (in_place t) (entries t) (retired t).

Definition bump_splits (t : BTree) : BTree :=
  mkBTree (store t) (brk t) (root t) (wrap_u 64 (splits t + 1)) (merges t) (in_place t) (entries t)
    (retired t).

Definition bump_merges (t : BTree) : BTree :=
  mkBTree (store t) (brk t) (root t) (splits t) (wrap_u 64 (merges t + 1)) (in_place t) (entries t)
    (retired t).

Definition bump_in_place (t : BTree) : BTree :=
  mkBTree (store t) (brk t) (root t) (splits t) (merges t) (wrap_u 64 (in_place t + 1)) (entries t)
    (retired t).

Definition add_entries (d : Z) (t : BTree) : BTree :=
  mkBTree (store t) (brk t) (root t) (splits t) (merges t) (in_place t) (wrap_u 64 (entries t + d))
    (retired t).

Definition retire (t : BTree) (l : loc) : BTree :=
  mkBTree (store t) (brk t) (root t) (splits t) (merges t) (in_place t) (entries t) (l :: retired t).

(** * Searching a node *)

(** [a.as_slice() < b] and [a.as_slice() <= b]. *)
Definition blt (a b : bytes) : bool := match lex a b with Lt => true | _ => false end.
Definition ble (a b : bytes) : bool := negb (blt b a).

Definition key_head (key : bytes) : Z := of_be (take 4 (key ++ [0; 0; 0; 0])).

Definition heads_for (keys : list bytes) : list Z := key_head <$> keys.

Fixpoint lower_bound_loop (fuel : nat) (keys : list bytes) (heads : list Z) (key : bytes)
    (lo hi : nat) : nat :=
  match fuel with
  | O => lo
  | S fuel =>
    if bool_decide (lo < hi)%nat then
      let mid := ((lo + hi) / 2)%nat in
      let h := key_head key in
      if (nth mid heads 0 <? h) || ((nth mid heads 0 =? h) && blt (nth mid keys []) key)
      then lower_bound_loop fuel keys heads key (S mid) hi
      else lower_bound_loop fuel keys heads key lo mid
    else lo
  end.

(** Each round shrinks [hi - lo], so [n] rounds are enough. *)
Definition lower_bound (keys : list bytes) (heads : list Z) (key : bytes) : nat :=
  let n := min (length keys) (length heads) in
  lower_bound_loop n keys heads key 0 n.

(** [Vec::insert] at an index at most the length, and [Vec::remove]. *)
Definition vinsert {A} (i : nat) (x : A) (l : list A) : list A := take i l ++ x :: drop i l.
Definition vremove {A} (i : nat) (l : list A) : list A := take i l ++ drop (S i) l.

Definition new_leaf_with (t : BTree) (keys vals : list bytes) (next : option loc) : BTree * loc :=
  with_body t (Leaf keys (heads_for keys) vals next).

Definition new_internal (t : BTree) (keys : list bytes) (children : list loc) : BTree * loc :=
  with_body t (Internal keys (heads_for keys) children).

Definition btree_new : BTree :=
  mkBTree {[ 0%nat := Leaf [] [] [] None ]} 1 0 0 0 0 0 [].

Definition lock (t : BTree) (l : loc) : out NodeBody := ix (store t !! l).

Definition key_count (t : BTree) (l : loc) : out nat :=
  b ← lock t l;
  match b with Leaf keys _ _ _ => mret (length keys) | Internal keys _ _ => mret (length keys) end.

(** A descent visits a node at most once: the number of nodes bounds it. *)
Definition depth_fuel (t : BTree) : nat := S (brk t).

(** * Reads *)

Fixpoint get_loop (fuel : nat) (t : BTree) (node : loc) (key : bytes) : out (option bytes) :=
  match fuel with
  | O => Fuel
  | S fuel =>
    b ← lock t node;
    match b with
    | Leaf keys heads vals _ =>
      let idx := lower_bound keys heads key in
      let n := min (length keys) (length vals) in
      if bool_decide (idx < n)%nat && bool_decide (keys !! idx = Some key)
      then mret (vals !! idx) else mret None
    | Internal keys heads children =>
      let idx := min (lower_bound keys heads key) (length children - 1) in
      child ← ix (children !! idx);
      get_loop fuel t child key
    end
  end.

Definition get (t : BTree) (key : bytes) : out (option bytes) :=
  get_loop (depth_fuel t) t (root t) key.

(** The descent of [range]: to the leaf where the scan starts. *)
Fixpoint first_leaf (fuel : nat) (t : BTree) (node : loc) (start : option bytes) : out loc :=
  match fuel with
  | O => Fuel
  | S fuel =>
    b ← lock t node;
    match b with
    | Leaf _ _ _ _ => mret node
    | Internal keys heads children =>
      let idx := match start with Some k => lower_bound keys heads k | None => 0%nat end in
      child ← ix (children !! (min idx (length children - 1)));
      first_leaf fuel t child start
    end
  end.

(** The entries of one leaf: [inl] when the upper bound ended the scan. *)
Fixpoint emit (kvs : list (bytes * bytes)) (start : option bytes) (start_incl : bool)
    (end_ : option bytes) (end_incl : bool) (last_key : option bytes)
    (acc : list (bytes * bytes)) :
    (list (bytes * bytes)) + (option bytes * list (bytes * bytes)) :=
  match kvs with
  | [] => inr (last_key, acc)
  | (k, v) :: kvs =>
    if match last_key with Some last => ble k last | None => false end then
      emit kvs start start_incl end_ end_incl last_key acc
    else if match start with
            | Some lo => blt k lo || (bool_decide (k = lo) && negb start_incl)
            | None => false
            end then
      emit kvs start start_incl end_ end_incl last_key acc
    else if match end_ with
            | Some hi => blt hi k || (bool_decide (k = hi) && negb end_incl)
            | None => false
            end then inl acc
    else emit kvs start start_incl end_ end_incl (Some k) (acc ++ [(k, v)])
  end.

Fixpoint walk_leaves (fuel : nat) (t : BTree) (node : loc) (start : option bytes)
    (start_incl : bool) (end_ : option bytes) (end_incl : bool) (last_key : option bytes)
    (acc : list (bytes * bytes)) : out (list (bytes * bytes)) :=
  match fuel with
  | O => Fuel
  | S fuel =>
    b ← lock t node;
    match b with
    | Internal _ _ _ => mret acc
    | Leaf keys _ vals next =>
      match emit (zip keys vals) start start_incl end_ end_incl last_key acc with
      | inl acc => mret acc
      | inr (last_key, acc) =>
        match next with
        | Some n => walk_leaves fuel t n start start_incl end_ end_incl last_key acc
        | None => mret acc
        end
      end
    end
  end.

Definition range (t : BTree) (start : option bytes) (start_incl : bool) (end_ : option bytes)
    (end_incl : bool) : out (list (bytes * bytes)) :=
  leaf ← first_leaf (depth_fuel t) t (root t) start;
  walk_leaves (depth_fuel t) t leaf start start_incl end_ end_incl None [].

Definition scan_all (t : BTree) : out (list (bytes * bytes)) := range t None true None true.

(** [BTree::len] and [BTree::is_empty]. *)
Definition btree_len (t : BTree) : out nat := l ← scan_all t; mret (length l).
Definition btree_is_empty (t : BTree) : out bool :=
  l ← scan_all t; mret (bool_decide (l = [])).

(** * Writes *)

(** [split_child_in_place]: the parent's arrays are the caller's, the child is
    in the store. *)
Definition split_child_in_place (t : BTree) (p_keys : list bytes) (p_heads : list Z)
    (p_children : list loc) (idx : nat) : out (BTree * (list bytes * list Z * list loc)) :=
  child ← ix (p_children !! idx);
  cg ← lock t child;
  '(t, sep, sib) ←
    match cg with
    | Leaf keys heads vals next =>
      let mid := (length keys / 2)%nat in
      let '(t, sib) := new_leaf_with t (drop mid keys) (drop mid vals) next in
      let t := set_body t child (Leaf (take mid keys) (take mid heads) (take mid vals) (Some sib)) in
      mret (t, default [] (last (take mid keys)), sib)
    | Internal keys heads children =>
      let mid := (length keys / 2)%nat in
      sep ← ix (keys !! mid);
      let t := set_body t child
                 (Internal (take mid keys) (take mid heads) (take (S mid) children)) in
      let '(t, sib) := new_internal t (drop (S mid) keys) (drop (S mid) children) in
      mret (t, sep, sib)
    end;
  let at_ := lower_bound p_keys p_heads sep in
  mret (bump_splits t,
        (vinsert at_ sep p_keys, vinsert at_ (key_head sep) p_heads, vinsert (S at_) sib p_children)).

(** Both [Descend] and [UpsertDescend]: done with a value, or start again. *)
Inductive Descend (A : Type) : Type :=
| Done (a : A)
| Restart.
Arguments Done {A} a.
Arguments Restart {A}.

(** The step of a writer at an internal node: split a full child first, then
    choose the child to descend into. *)
Definition route_for_write (t : BTree) (node : loc) (keys : list bytes) (heads : list Z)
    (children : list loc) (key : bytes) : out (BTree * loc) :=
  let idx := lower_bound keys heads key in
  c ← ix (children !! idx);
  n ← key_count t c;
  if bool_decide (MAX_KEYS <= n)%nat then
    '(t, (keys, heads, children)) ← split_child_in_place t keys heads children idx;
    child ← ix (children !! lower_bound keys heads key);
    mret (set_body t node (Internal keys heads children), child)
  else mret (t, c).

(** [next.is_some() && !keys.is_empty() && key > keys.last()]: the key looks as
    if it belonged to a leaf further right. *)
Definition moved_right (keys : list bytes) (next : option loc) (key : bytes) : bool :=
  bool_decide (next <> None) && match last keys with Some l => blt l key | None => false end.

Definition leaf_insert (t : BTree) (node : loc) (keys : list bytes) (heads : list Z)
    (vals : list bytes) (next : option loc) (key val : bytes) : BTree :=
  let idx := lower_bound keys heads key in
  set_body t node
    (Leaf (vinsert idx key keys) (vinsert idx (key_head key) heads) (vinsert idx val vals) next).

Fixpoint insert_rec (fuel : nat) (t : BTree) (node : loc) (key val : bytes) :
    out (BTree * Descend bool) :=
  match fuel with
  | O => Fuel
  | S fuel =>
    b ← lock t node;
    match b with
    | Leaf keys heads vals next =>
      if bool_decide (MAX_KEYS <= length keys)%nat then mret (t, Restart)
      else if moved_right keys next key then mret (t, Restart)
      else
        let idx := lower_bound keys heads key in
        if bool_decide (keys !! idx = Some key) then mret (t, Done false)
        else mret (leaf_insert t node keys heads vals next key val, Done true)
    | Internal keys heads children =>
      '(t, child) ← route_for_write t node keys heads children key;
      insert_rec fuel t child key val
    end
  end.

Fixpoint upsert_rec (fuel : nat) (t : BTree) (node : loc) (key val : bytes) :
    out (BTree * Descend (option bytes)) :=
  match fuel with
  | O => Fuel
  | S fuel =>
    b ← lock t node;
    match b with
    | Leaf keys heads vals next =>
      let idx := lower_bound keys heads key in
      if bool_decide (keys !! idx = Some key) then
        prev ← ix (vals !! idx);
        mret (set_body t node (Leaf keys heads (<[idx := val]> vals) next), Done (Some prev))
      else if bool_decide (MAX_KEYS <= length keys)%nat then mret (t, Restart)
      else if moved_right keys next key then mret (t, Restart)
      else mret (leaf_insert t node keys heads vals next key val, Done None)
    | Internal keys heads children =>
      '(t, child) ← route_for_write t node keys heads children key;
      upsert_rec fuel t child key val
    end
  end.

(** The head of the loops of [insert] and [upsert]: a full root is wrapped. *)
Definition wrap_root (t : BTree) : out (option BTree) :=
  n ← key_count t (root t);
  if bool_decide (MAX_KEYS <= n)%nat then
    let '(t, w) := new_internal t [] [root t] in
    mret (Some (bump_splits (set_root t w)))
  else mret None.

Fixpoint insert (fuel : nat) (t : BTree) (key val : bytes) : out (BTree * bool) :=
  match fuel with
  | O => Fuel
  | S fuel =>
    w ← wrap_root t;
    match w with
    | Some t => insert fuel t key val
    | None =>
      '(t, d) ← insert_rec (depth_fuel t) t (root t) key val;
      match d with
      | Done inserted => mret (if inserted : bool then add_entries 1 t else t, inserted)
      | Restart => insert fuel t key val
      end
    end
  end.

Fixpoint upsert (fuel : nat) (t : BTree) (key val : bytes) : out (BTree * option bytes) :=
  match fuel with
  | O => Fuel
  | S fuel =>
    w ← wrap_root t;
    match w with
    | Some t => upsert fuel t key val
    | None =>
      '(t, d) ← upsert_rec (depth_fuel t) t (root t) key val;
      match d with
      | Done prev => mret (match prev with None => add_entries 1 t | Some _ => t end, prev)
      | Restart => upsert fuel t key val
      end
    end
  end.

Fixpoint update_in_place_rec (fuel : nat) (t : BTree) (node : loc) (key val : bytes) :
    out (BTree * option bytes) :=
  match fuel with
  | O => Fuel
  | S fuel =>
    b ← lock t node;
    match b with
    | Leaf keys heads vals next =>
      let idx := lower_bound keys heads key in
      if bool_decide (keys !! idx = Some key) then
        prev ← ix (vals !! idx);
        mret (set_body t node (Leaf keys heads (<[idx := val]> vals) next), Some prev)
      else mret (t, None)
    | Internal keys heads children =>
      if bool_decide (children = []) then mret (t, None)
      else
        child ← ix (children !! lower_bound keys heads key);
        update_in_place_rec fuel t child key val
    end
  end.

Definition update_in_place (t : BTree) (key val : bytes) : out (BTree * option bytes) :=
  '(t, prev) ← update_in_place_rec (depth_fuel t) t (root t) key val;
  mret (match prev with Some _ => bump_in_place t | None => t end, prev).

(** * Deletion *)

Fixpoint delete_rec (fuel : nat) (t : BTree) (node : loc) (key : bytes) :
    out (BTree * option bytes) :=
  match fuel with
  | O => Fuel
  | S fuel =>
    b ← lock t node;
    match b with
    | Leaf keys heads vals next =>
      let idx := lower_bound keys heads key in
      if bool_decide (keys !! idx = Some key) then
        v ← ix (vals !! idx);
        mret (set_body t node (Leaf (vremove idx keys) (vremove idx heads) (vremove idx vals) next),
              Some v)
      else mret (t, None)
    | Internal keys heads children =>
      child ← ix (children !! lower_bound keys heads key);
      delete_rec fuel t child key
    end
  end.

(** [BTree::borrow]: [cl] is the child at [idx], [sl] its sibling at
    [sib_idx]; the parent [pl] has arrays [pk], [ph], [pc]. *)
Definition borrow (t : BTree) (pl : loc) (pk : list bytes) (ph : list Z) (pc : list loc)
    (idx sib_idx : nat) (cl : loc) (cb : NodeBody) (sl : loc) (sb : NodeBody) : out BTree :=
  let sep := min idx sib_idx in
  match cb, sb with
  | Leaf ck ch cv cn, Leaf sk sh sv sn =>
    if bool_decide (idx < sib_idx)%nat then
      k ← ix (sk !! 0%nat); h ← ix (sh !! 0%nat); v ← ix (sv !! 0%nat);
      let t := set_body t cl (Leaf (ck ++ [k]) (ch ++ [h]) (cv ++ [v]) cn) in
      let t := set_body t sl (Leaf (vremove 0 sk) (vremove 0 sh) (vremove 0 sv) sn) in
      mret (set_body t pl (Internal (<[sep := k]> pk) (<[sep := h]> ph) pc))
    else
      k ← ix (last sk); h ← ix (last sh); v ← ix (last sv);
      let sk := take (length sk - 1) sk in
      let sh := take (length sh - 1) sh in
      let sv := take (length sv - 1) sv in
      let t := set_body t cl (Leaf (k :: ck) (h :: ch) (v :: cv) cn) in
      let t := set_body t sl (Leaf sk sh sv sn) in
      mret (set_body t pl (Internal (<[sep := default [] (last sk)]> pk)
                             (<[sep := default 0 (last sh)]> ph) pc))
  | Internal ck ch cc, Internal sk sh sc =>
    down ← ix (pk !! sep); down_h ← ix (ph !! sep);
    if bool_decide (idx < sib_idx)%nat then
      up ← ix (sk !! 0%nat); up_h ← ix (sh !! 0%nat); mv ← ix (sc !! 0%nat);
      let t := set_body t cl (Internal (ck ++ [down]) (ch ++ [down_h]) (cc ++ [mv])) in
      let t := set_body t sl (Internal (vremove 0 sk) (vremove 0 sh) (vremove 0 sc)) in
      mret (set_body t pl (Internal (<[sep := up]> pk) (<[sep := up_h]> ph) pc))
    else
      up ← ix (last sk); up_h ← ix (last sh); mv ← ix (last sc);
      let t := set_body t cl (Internal (down :: ck) (down_h :: ch) (mv :: cc)) in
      let t := set_body t sl (Internal (take (length sk - 1) sk) (take (length sh - 1) sh)
                                (take (length sc - 1) sc)) in
      mret (set_body t pl (Internal (<[sep := up]> pk) (<[sep := up_h]> ph) pc))
  | _, _ => Panics
  end.

(** [BTree::merge]: the right node of the pair is emptied into the left one,
    unlinked from the parent and retired. *)
Definition merge (t : BTree) (pl : loc) (pk : list bytes) (ph : list Z) (pc : list loc)
    (idx sib_idx : nat) (merge_into_left : bool) (cl : loc) (cb : NodeBody) (sl : loc)
    (sb : NodeBody) : out BTree :=
  let sep := min idx sib_idx in
  t ← match cb, sb with
      | Leaf ak ah av an, Leaf bk bh bv bn =>
        if merge_into_left then
          let t := set_body t cl (Leaf (ak ++ bk) (ah ++ bh) (av ++ bv) bn) in
          mret (set_body t sl (Leaf [] [] [] None))
        else
          let t := set_body t sl (Leaf (bk ++ ak) (bh ++ ah) (bv ++ av) an) in
          mret (set_body t cl (Leaf [] [] [] None))
      | Internal ak ah ac, Internal bk bh bc =>
        k ← ix (pk !! sep); h ← ix (ph !! sep);
        if merge_into_left then
          let t := set_body t cl (Internal (ak ++ k :: bk) (ah ++ h :: bh) (ac ++ bc)) in
          mret (set_body t sl (Internal [] [] []))
        else
          let t := set_body t sl (Internal (bk ++ k :: ak) (bh ++ h :: ah) (bc ++ ac)) in
          mret (set_body t cl (Internal [] [] []))
      | _, _ => Panics
      end;
  evicted ← ix (pc !! S sep);
  let t := set_body t pl (Internal (vremove sep pk) (vremove sep ph) (vremove (S sep) pc)) in
  mret (bump_merges (bump_splits (retire t evicted))).

(** Fullness as the fix-up counts it: keys of a leaf, children of an internal
    node. *)
Definition occupancy (b : NodeBody) : nat :=
  match b with Leaf keys _ _ _ => length keys | Internal _ _ children => length children end.

Definition fix_child (t : BTree) (pl : loc) (pk : list bytes) (ph : list Z) (pc : list loc)
    (idx : nat) (cl : loc) (cb : NodeBody) : out (BTree * bool) :=
  let '(sib_idx, merge_into_left) :=
    if bool_decide (S idx < length pc)%nat then (S idx, true) else ((idx - 1)%nat, false) in
  sl ← ix (pc !! sib_idx);
  sb ← lock t sl;
  if bool_decide (MIN_KEYS < occupancy sb)%nat then
    t ← borrow t pl pk ph pc idx sib_idx cl cb sl sb;
    mret (t, false)
  else
    t ← merge t pl pk ph pc idx sib_idx merge_into_left cl cb sl sb;
    mret (t, true).

Fixpoint fix_pass_loop (fuel : nat) (t : BTree) (parent : loc) (key : bytes) : out (BTree * bool) :=
  match fuel with
  | O => Fuel
  | S fuel =>
    p ← lock t parent;
    match p with
    | Leaf _ _ _ _ => mret (t, false)
    | Internal keys heads children =>
      if bool_decide (length children <= 1)%nat then mret (t, false)
      else
        let idx := min (lower_bound keys heads key) (length children - 1) in
        child ← ix (children !! idx);
        cb ← lock t child;
        if bool_decide (occupancy cb < MIN_KEYS)%nat then
          fix_child t parent keys heads children idx child cb
        else
          match cb with
          | Leaf _ _ _ _ => mret (t, false)
          | Internal _ _ _ => fix_pass_loop fuel t child key
          end
    end
  end.

Definition fix_pass (t : BTree) (key : bytes) : out (BTree * bool) :=
  fix_pass_loop (depth_fuel t) t (root t) key.

(** [while self.fix_pass(key) {}] *)
Fixpoint fix_passes (fuel : nat) (t : BTree) (key : bytes) : out BTree :=
  match fuel with
  | O => Fuel
  | S fuel =>
    '(t, again) ← fix_pass t key;
    if again : bool then fix_passes fuel t key else mret t
  end.

Fixpoint collapse_root (fuel : nat) (t : BTree) : out BTree :=
  match fuel with
  | O => Fuel
  | S fuel =>
    b ← lock t (root t);
    match b with
    | Internal _ _ [child] => collapse_root fuel (bump_splits (set_root t child))
    | _ => mret t
    end
  end.

Definition remove (t : BTree) (key : bytes) : out (BTree * option bytes) :=
  '(t, removed) ← delete_rec (depth_fuel t) t (root t) key;
  match removed with
  | None => mret (t, None)
  | Some v =>
    let t := add_entries (-1) t in
    t ← fix_passes (depth_fuel t) t key;
    t ← collapse_root (depth_fuel t) t;
    mret (t, Some v)
  end.

(** * Diagnostics *)

Fixpoint height_loop (fuel : nat) (t : BTree) (node : loc) (h : nat) : out nat :=
  match fuel with
  | O => Fuel
  | S fuel =>
    b ← lock t node;
    match b with
    | Leaf _ _ _ _ | Internal _ _ [] => mret (S h)
    | Internal _ _ (c :: _) => height_loop fuel t c (S h)
    end
  end.

Definition height (t : BTree) : out nat := height_loop (depth_fuel t) t (root t) 0.

Fixpoint count_nodes (fuel : nat) (t : BTree) (node : loc) : out nat :=
  match fuel with
  | O => Fuel
  | S fuel =>
    b ← lock t node;
    match b with
    | Leaf _ _ _ _ => mret 1%nat
    | Internal _ _ children =>
      foldl (fun acc c => n ← acc; m ← count_nodes fuel t c; mret (n + m)%nat) (mret 1%nat) children
    end
  end.

Definition node_count (t : BTree) : out nat := count_nodes (depth_fuel t) t (root t).
