(* ===== verification/BTreeRep.v ===== *)
(** Correctness of the node search, and what a store of nodes represents: the
    ghost tree of a store, its well-formedness (key bounds, uniform depth,
    node capacity, leaf chain), and how routing and splitting act on it. *)
From stdpp Require Import base list gmap sorting.
From Stdlib Require Import ZArith Lia.
From S2P Require Import Prelude Machine BTree.

(** * Keys in memcmp order *)

Definition klt (a b : bytes) : Prop := lex a b = Lt.
Definition kle (a b : bytes) : Prop := klt a b \/ a = b.

#[global] Instance klt_strict : StrictOrder klt.
Proof.
  split.
  - intros a H. unfold klt in H. by rewrite lex_refl in H.
  - intros a b c. apply lex_lt_trans.
Qed.

Lemma klt_total a b : klt a b \/ a = b \/ klt b a.
Proof.
  unfold klt. rewrite (lex_antisym a b). destruct (lex a b) eqn:E; cbn; auto.
  apply lex_eq in E. auto.
Qed.

Lemma blt_spec a b : reflect (klt a b) (blt a b).
Proof. unfold blt, klt. by destruct (lex a b); constructor. Qed.

Lemma ble_spec a b : reflect (kle a b) (ble a b).
Proof.
  unfold ble. destruct (blt_spec b a) as [H|H]; constructor.
  - intros [H'| ->]; [apply (irreflexivity klt a); by transitivity b | by apply (irreflexivity klt b)].
  - destruct (klt_total a b) as [?|[?|?]]; [by left | by right | done].
Qed.

(** Close a goal that follows from the order facts of the context. *)
Ltac ko_close :=
  match goal with
  | H : klt ?a ?a |- _ => exfalso; exact (irreflexivity klt a H)
  | _ => assumption
  | |- kle ?a ?a => right; reflexivity
  | |- kle _ _ => left; assumption
  | _ => exact I
  end.

Ltac ko :=
  intros;
  repeat match goal with
  | H : kle _ _ |- _ => destruct H as [H | H]; [|try subst]
  end;
  try ko_close;
  repeat (match goal with
  | H1 : klt ?a ?b, H2 : klt ?b ?c |- _ =>
      lazymatch goal with
      | H : klt a c |- _ => fail
      | _ => pose proof (transitivity (R := klt) H1 H2)
      end
  end; try ko_close);
  try ko_close.

(** * Node search *)

Lemma pad_lt n m m' a b :
  (n <= m)%nat -> (n <= m')%nat -> Forall u8 a -> Forall u8 b ->
  lex (take n (a ++ replicate m 0)) (take n (b ++ replicate m' 0)) = Lt -> klt a b.
Proof.
  unfold klt. revert m m' a b. induction n as [|n IH]; intros m m' a b Hm Hm' Ha Hb; [done|].
  destruct m as [|m], m' as [|m']; [lia..|].
  destruct a as [|x a], b as [|y b]; cbn -[replicate]; try done.
  - cbn. intros H. by apply (IH m m' [] []) in H; [|lia..|done|done].
  - inversion Ha as [|? ? Hx Ha']; subst. cbn. destruct (Z.compare_spec x 0) as [->|?|?]; try done.
    + intros H. apply (IH (S m) m' a []) in H; [|lia..|done|done]. by destruct a.
    + widths. lia.
  - inversion Ha; inversion Hb; subst. destruct (x ?= y) eqn:E; try done.
    intros H. apply (IH (S m) (S m') a b); [lia..|done|done|done].
Qed.

(** A smaller head decides the comparison of the whole keys. *)
Lemma key_head_lt a b : Forall u8 a -> Forall u8 b -> key_head a < key_head b -> klt a b.
Proof.
  intros Ha Hb H. apply (pad_lt 4 4 4 a b); [done..|].
  change (replicate 4 0) with [0; 0; 0; 0].
  assert (H0 : Forall u8 [0; 0; 0; 0]) by (rewrite !Forall_cons; unfold in_u; split_and!; done).
  rewrite lex_of_be.
  - by apply Z.compare_lt_iff.
  - rewrite !length_take, !length_app. cbn [length]. lia.
  - by apply Forall_take, Forall_app.
  - by apply Forall_take, Forall_app.
Qed.

Lemma nth_heads_for keys i :
  (i < length keys)%nat -> nth i (heads_for keys) 0 = key_head (nth i keys []).
Proof.
  intros H. unfold heads_for. rewrite <- (map_nth key_head).
  rewrite (nth_indep _ 0 (key_head [])); [done|]. by rewrite length_fmap.
Qed.

(** The comparison a search step makes, once by head and once by key, is the
    comparison of the keys. *)
Lemma search_step a key :
  Forall u8 a -> Forall u8 key ->
  (key_head a <? key_head key) || ((key_head a =? key_head key) && blt a key) = blt a key.
Proof.
  intros Ha Hk. destruct (Z.ltb_spec (key_head a) (key_head key)) as [H|H].
  - cbn. apply key_head_lt in H; [|done..]. by destruct (blt_spec a key).
  - destruct (Z.eqb_spec (key_head a) (key_head key)); [done|]. cbn.
    assert (H' : klt key a) by (apply key_head_lt; [done..|lia]).
    destruct (blt_spec a key); [ko|done].
Qed.

Section search.
Context (ks1 ks2 : list bytes) (key : bytes).
Hypothesis Hu : Forall (Forall u8) (ks1 ++ ks2).
Hypothesis Hk : Forall u8 key.
Hypothesis Hlo : Forall (fun k => klt k key) ks1.
Hypothesis Hhi : Forall (fun k => kle key k) ks2.

Lemma lower_bound_loop_partition fuel lo hi :
  (hi - lo <= fuel)%nat -> (lo <= length ks1 <= hi)%nat -> (hi <= length (ks1 ++ ks2))%nat ->
  lower_bound_loop fuel (ks1 ++ ks2) (heads_for (ks1 ++ ks2)) key lo hi = length ks1.
Proof.
  revert lo hi. induction fuel as [|fuel IH]; intros lo hi Hf Hb Hn; cbn [lower_bound_loop]; [lia|].
  case_bool_decide as Hlt; [|lia]. cbv zeta.
  assert (Hm : (lo <= (lo + hi) / 2 < hi)%nat).
  { split; [apply Nat.div_le_lower_bound; lia | apply Nat.Div0.div_lt_upper_bound; lia]. }
  set (mid := ((lo + hi) / 2)%nat) in *.
  destruct (lookup_lt_is_Some_2 (ks1 ++ ks2) mid ltac:(lia)) as [a Ha].
  rewrite nth_heads_for, (nth_lookup_Some _ _ _ _ Ha) by lia.
  rewrite search_step by (done || by eapply (Forall_lookup_1 _ _ _ _ Hu)).
  destruct (blt_spec a key) as [Hc|Hc].
  - apply IH; [lia| |lia].
    destruct (decide (mid < length ks1)%nat); [lia|].
    rewrite lookup_app_r in Ha by lia. pose proof (Forall_lookup_1 _ _ _ _ Hhi Ha) as H. cbn in H. ko.
  - apply IH; [lia| |lia].
    destruct (decide (mid < length ks1)%nat); [|lia].
    rewrite lookup_app_l in Ha by lia. by pose proof (Forall_lookup_1 _ _ _ _ Hlo Ha).
Qed.

Lemma lower_bound_partition :
  lower_bound (ks1 ++ ks2) (heads_for (ks1 ++ ks2)) key = length ks1.
Proof.
  unfold lower_bound. assert (length (heads_for (ks1 ++ ks2)) = length (ks1 ++ ks2)) as ->.
  { unfold heads_for. by rewrite length_fmap. }
  rewrite Nat.min_id.
  apply lower_bound_loop_partition; rewrite ?length_app; lia.
Qed.

End search.

(** * Sorted keys *)

Abbreviation ksorted := (StronglySorted klt).

(** A sorted array splits at any key. *)
Lemma ksorted_split ks key :
  ksorted ks -> exists ks1 ks2, ks = ks1 ++ ks2 /\
    Forall (fun k => klt k key) ks1 /\ Forall (fun k => kle key k) ks2.
Proof.
  induction 1 as [|k ks Hs IH Hall].
  - by exists [], [].
  - destruct (klt_total k key) as [Hlt|Hge].
    + destruct IH as (ks1 & ks2 & -> & H1 & H2). exists (k :: ks1), ks2. auto.
    + assert (kle key k) as Hle by (destruct Hge as [->|?]; [by right | by left]).
      exists [], (k :: ks). split_and!; [done..|]. constructor; [done|].
      eapply Forall_impl; [exact Hall|]. cbn. intros x Hx. ko.
Qed.

Lemma ksorted_app ks1 ks2 :
  ksorted (ks1 ++ ks2) <->
  ksorted ks1 /\ ksorted ks2 /\ Forall (fun a => Forall (klt a) ks2) ks1.
Proof.
  induction ks1 as [|k ks1 IH]; cbn.
  - split; [intros; split_and!; [constructor|done|constructor] | tauto].
  - split.
    + inversion 1 as [|? ? Hs Hall]; subst. apply IH in Hs as (? & ? & ?).
      apply Forall_app in Hall as [? ?]. split_and!; [by constructor|done|by constructor].
    + intros (H1 & H2 & H3). inversion H1; inversion H3; subst. constructor.
      * by apply IH.
      * by apply Forall_app.
Qed.

(** * Ghost trees *)

(** The tree a store holds, with the location of each node. *)
Inductive tree : Type :=
| TLeaf (l : loc) (ks vs : list bytes) (nx : option loc)
| TNode (l : loc) (ks : list bytes) (cs : list tree).

Definition tloc (g : tree) : loc := match g with TLeaf l _ _ _ | TNode l _ _ => l end.
Definition tkeys (g : tree) : list bytes := match g with TLeaf _ ks _ _ | TNode _ ks _ => ks end.

Definition tbody (g : tree) : NodeBody :=
  match g with
  | TLeaf _ ks vs nx => Leaf ks (heads_for ks) vs nx
  | TNode _ ks cs => Internal ks (heads_for ks) (tloc <$> cs)
  end.

Fixpoint nodes (g : tree) : list (loc * NodeBody) :=
  (tloc g, tbody g) :: match g with TLeaf _ _ _ _ => [] | TNode _ _ cs => flat_map nodes cs end.

(** The entries, in key order. *)
Fixpoint kvs (g : tree) : list (bytes * bytes) :=
  match g with TLeaf _ ks vs _ => zip ks vs | TNode _ _ cs => flat_map kvs cs end.

(** The leaves from left to right, each with its [next] pointer. *)
Fixpoint leaves (g : tree) : list (loc * option loc) :=
  match g with TLeaf l _ _ nx => [(l, nx)] | TNode _ _ cs => flat_map leaves cs end.

Definition locs (g : tree) : list loc := (nodes g).*1.

(** Leaf pointers form a chain that ends in [e]. *)
Fixpoint chained (ls : list (loc * option loc)) (e : option loc) : Prop :=
  match ls with
  | [] => True
  | (_, nx) :: ls => nx = match ls with [] => e | (l, _) :: _ => Some l end /\ chained ls e
  end.

(** [head_loc ls e]: where a chain that continues with [ls] goes next. *)
Definition head_loc (ls : list (loc * option loc)) (e : option loc) : option loc :=
  match ls with [] => e | (l, _) :: _ => Some l end.

Lemma chained_app a b e : chained (a ++ b) e <-> chained a (head_loc b e) /\ chained b e.
Proof.
  induction a as [|[l nx] a IH]; cbn; [tauto|].
  rewrite IH. destruct a as [|[? ?] a]; cbn; [|tauto].
  destruct b as [|[? ?] b]; cbn; tauto.
Qed.

Lemma head_loc_app a b e : head_loc (a ++ b) e = head_loc a (head_loc b e).
Proof. by destruct a as [|[? ?] ?]. Qed.

(** * Key bounds *)

(** Above an optional lower bound; below an optional upper bound. *)
Definition ogt (lo : option bytes) (k : bytes) : Prop :=
  match lo with None => True | Some a => klt a k end.
Definition ole (k : bytes) (hi : option bytes) : Prop :=
  match hi with None => True | Some b => kle k b end.
Definition olt (k : bytes) (hi : option bytes) : Prop :=
  match hi with None => True | Some b => klt k b end.

Definition within (lo hi : option bytes) (k : bytes) : Prop :=
  ogt lo k /\ ole k hi /\ Forall u8 k.

(** A separator lies strictly inside the bounds of its node. *)
Definition sepin (lo hi : option bytes) (k : bytes) : Prop :=
  ogt lo k /\ olt k hi /\ Forall u8 k.

(** [P lo hi c] holds of each child between the separators around it. *)
Fixpoint cwf (P : option bytes -> option bytes -> tree -> Prop) (lo : option bytes)
    (ks : list bytes) (hi : option bytes) (cs : list tree) : Prop :=
  match ks, cs with
  | [], [c] => P lo hi c
  | k :: ks, c :: cs => sepin lo hi k /\ P lo (Some k) c /\ cwf P (Some k) ks hi cs
  | _, _ => False
  end.

(** A subtree of depth [n] with keys in [(lo, hi]].  With [tg] set it is tight:
    the upper bound of every leaf but the rightmost is its last key. *)
Fixpoint twf (tg : bool) (n : nat) (lo hi : option bytes) (g : tree) : Prop :=
  (length (tkeys g) <= MAX_KEYS)%nat /\
  match n, g with
  | O, TLeaf _ ks vs _ =>
      length ks = length vs /\ ksorted ks /\ Forall (within lo hi) ks /\
      (tg = true -> hi = None \/ last ks = hi)
  | S n, TNode _ ks cs => cwf (twf tg n) lo ks hi cs
  | _, _ => False
  end.

(** * What a store represents *)

Definition holds (t : BTree) (g : tree) : Prop :=
  Forall (fun p => store t !! p.1 = Some p.2) (nodes g).

(** The store holds the ghost tree, node by node, and nothing at or above the
    break. *)
Record rep (t : BTree) (g : tree) : Prop := {
  rep_holds : holds t g;
  rep_nodup : NoDup (locs g);
  rep_fresh : forall l, (brk t <= l)%nat -> store t !! l = None;
}.

(** ** Structural lemmas *)

Lemma locs_node l ks cs : locs (TNode l ks cs) = l :: flat_map locs cs.
Proof.
  unfold locs. cbn. f_equal. induction cs as [|c cs IH]; [done|].
  cbn. by rewrite fmap_app, IH.
Qed.

Lemma tloc_in_locs g : tloc g ∈ locs g.
Proof. unfold locs. destruct g; cbn; left. Qed.

Lemma holds_node t l ks cs :
  holds t (TNode l ks cs) <->
  store t !! l = Some (Internal ks (heads_for ks) (tloc <$> cs)) /\ Forall (holds t) cs.
Proof.
  unfold holds. cbn [nodes]. rewrite Forall_cons. cbn. apply and_iff_compat_l.
  induction cs as [|c cs IH]; cbn; [done|]. by rewrite Forall_app, Forall_cons, IH.
Qed.

Lemma holds_lock t g : holds t g -> lock t (tloc g) = Ret (tbody g).
Proof.
  intros H. unfold lock. assert (store t !! tloc g = Some (tbody g)) as ->; [|done].
  unfold holds in H. destruct g; cbn in H; by apply Forall_cons in H as [? _].
Qed.

Lemma holds_locs t g l : holds t g -> l ∈ locs g -> is_Some (store t !! l).
Proof.
  unfold holds, locs. intros H Hl. apply list_elem_of_fmap in Hl as ([l' b] & -> & Hin).
  rewrite Forall_forall in H. specialize (H _ Hin). cbn in *. by rewrite H.
Qed.

Lemma rep_locs_lt t g l : rep t g -> l ∈ locs g -> (l < brk t)%nat.
Proof.
  intros [Hh _ Hf] Hl. destruct (decide (l < brk t)%nat) as [|Hge]; [done|].
  destruct (holds_locs _ _ _ Hh Hl) as [b Hb]. rewrite Hf in Hb by lia. done.
Qed.

Lemma holds_ext t t' g :
  (forall l, l ∈ locs g -> store t' !! l = store t !! l) -> holds t g -> holds t' g.
Proof.
  unfold holds. intros He H. rewrite Forall_forall in H |- *. intros [l b] Hin.
  rewrite He; [by apply (H (l, b))|]. apply list_elem_of_fmap. by exists (l, b).
Qed.

Lemma in_flat_locs l c cs : c ∈ cs -> l ∈ locs c -> l ∈ flat_map locs cs.
Proof. intros Hc Hl. apply list_elem_of_In, in_flat_map. exists c. by rewrite <- !list_elem_of_In. Qed.

Lemma twf_keys tg n lo hi g : twf tg n lo hi g -> (length (tkeys g) <= MAX_KEYS)%nat.
Proof. destruct n; by intros [? _]. Qed.

Lemma cwf_length P lo ks hi cs : cwf P lo ks hi cs -> length cs = S (length ks).
Proof.
  revert lo cs. induction ks as [|k ks IH]; intros lo [|c [|c' cs]]; cbn; try tauto.
  - intros (_ & _ & H). destruct ks; done.
  - intros (_ & _ & H). by rewrite <- (IH _ _ H).
Qed.

Lemma cwf_impl (P Q : option bytes -> option bytes -> tree -> Prop) lo ks hi cs :
  (forall lo hi c, c ∈ cs -> P lo hi c -> Q lo hi c) -> cwf P lo ks hi cs -> cwf Q lo ks hi cs.
Proof.
  revert lo cs. induction ks as [|k ks IH]; intros lo [|c cs] HPQ; cbn; try done.
  - destruct cs; [|done]. apply HPQ. left.
  - intros (? & HP & H). split_and!; [done|apply HPQ; [left|done]|].
    apply IH; [|done]. intros. apply HPQ; [by right|done].
Qed.

(** A tree of depth [n] has more than [n] nodes. *)
Lemma twf_depth tg n lo hi g : twf tg n lo hi g -> (n < length (locs g))%nat.
Proof.
  revert lo hi g. induction n as [|n IH]; intros lo hi g [_ H]; destruct g as [|l ks cs]; try done.
  - cbn. lia.
  - rewrite locs_node. cbn [length]. destruct ks as [|k ks], cs as [|c cs]; cbn in H; try done.
    + destruct cs; [|done]. apply IH in H. cbn. rewrite app_nil_r. lia.
    + destruct H as (_ & H & _). apply IH in H. cbn. rewrite length_app. lia.
Qed.

Lemma nodup_below l m : NoDup l -> (forall x, x ∈ l -> (x < m)%nat) -> (length l <= m)%nat.
Proof.
  intros Hd Hlt. rewrite <- (length_seq m 0). apply submseteq_length, NoDup_submseteq; [done|].
  intros x Hx. apply elem_of_seq. pose proof (Hlt x Hx). lia.
Qed.

(** The descent fuel is enough for a represented tree. *)
Lemma depth_fuel_enough tg t n lo hi g : rep t g -> twf tg n lo hi g -> (n < depth_fuel t)%nat.
Proof.
  intros Hr Hw. pose proof (twf_depth _ _ _ _ _ Hw).
  pose proof (nodup_below (locs g) (brk t) (rep_nodup _ _ Hr) (fun l => rep_locs_lt t g l Hr)).
  unfold depth_fuel. lia.
Qed.

(** * Entries between bounds *)

Definition below (key : bytes) (l : list (bytes * bytes)) := List.filter (fun e => blt e.1 key) l.
Definition above (key : bytes) (l : list (bytes * bytes)) := List.filter (fun e => blt key e.1) l.

(** A sorted entry list as a map: insert or replace, delete, look up. *)
Definition kv_insert (key v : bytes) (l : list (bytes * bytes)) := below key l ++ (key, v) :: above key l.
Definition kv_delete (key : bytes) (l : list (bytes * bytes)) := below key l ++ above key l.
Definition kv_lookup (key : bytes) (l : list (bytes * bytes)) : option bytes :=
  snd <$> List.find (fun e => bool_decide (e.1 = key)) l.

Abbreviation all_lt key := (Forall (fun e : bytes * bytes => klt e.1 key)).
Abbreviation all_gt key := (Forall (fun e : bytes * bytes => klt key e.1)).

Lemma filter_id {A} (f : A -> bool) l : Forall (fun x => f x = true) l -> List.filter f l = l.
Proof. induction 1 as [|x l H _ IH]; cbn; [done|]. by rewrite H, IH. Qed.

Lemma filter_none {A} (f : A -> bool) l : Forall (fun x => f x = false) l -> List.filter f l = [].
Proof. induction 1 as [|x l H _ IH]; cbn; [done|]. by rewrite H, IH. Qed.

Lemma find_none {A} (f : A -> bool) l : Forall (fun x => f x = false) l -> List.find f l = None.
Proof. induction 1 as [|x l H _ IH]; cbn; [done|]. by rewrite H, IH. Qed.

Lemma find_app {A} (f : A -> bool) a b :
  List.find f (a ++ b) = match List.find f a with Some x => Some x | None => List.find f b end.
Proof. induction a as [|x a IH]; cbn; [done|]. by destruct (f x). Qed.

Section frame.
Context (key : bytes) (a m b : list (bytes * bytes)).
Hypothesis Ha : all_lt key a.
Hypothesis Hb : all_gt key b.

Lemma below_frame : below key (a ++ m ++ b) = a ++ below key m.
Proof.
  unfold below. rewrite !List.filter_app, (filter_id _ a), (filter_none _ b), app_nil_r; [done|..].
  - eapply Forall_impl; [exact Hb|]. cbn. intros x H. destruct (blt_spec x.1 key); [ko|done].
  - eapply Forall_impl; [exact Ha|]. cbn. intros x H. by destruct (blt_spec x.1 key).
Qed.

Lemma above_frame : above key (a ++ m ++ b) = above key m ++ b.
Proof.
  unfold above. rewrite !List.filter_app, (filter_none _ a), (filter_id _ b); [done|..].
  - eapply Forall_impl; [exact Hb|]. cbn. intros x H. by destruct (blt_spec key x.1).
  - eapply Forall_impl; [exact Ha|]. cbn. intros x H. destruct (blt_spec key x.1); [ko|done].
Qed.

Lemma kv_insert_frame v : kv_insert key v (a ++ m ++ b) = a ++ kv_insert key v m ++ b.
Proof. unfold kv_insert. by rewrite below_frame, above_frame, <- !app_assoc. Qed.

Lemma kv_delete_frame : kv_delete key (a ++ m ++ b) = a ++ kv_delete key m ++ b.
Proof. unfold kv_delete. by rewrite below_frame, above_frame, <- !app_assoc. Qed.

Lemma kv_lookup_frame : kv_lookup key (a ++ m ++ b) = kv_lookup key m.
Proof.
  unfold kv_lookup. rewrite !find_app, (find_none _ a), (find_none _ b).
  - by destruct (List.find _ m).
  - eapply Forall_impl; [exact Hb|]. intros x H. apply bool_decide_eq_false. intros <-. cbn in H. ko.
  - eapply Forall_impl; [exact Ha|]. intros x H. apply bool_decide_eq_false. intros <-. cbn in H. ko.
Qed.

End frame.

Lemma within_hi lo hi k x : sepin lo hi k -> within lo (Some k) x -> within lo hi x.
Proof.
  intros (_ & H & _) (? & Hx & ?). split_and!; [done| |done]. destruct hi; cbn in *; [|done]. ko.
Qed.

Lemma within_lo lo hi k x : sepin lo hi k -> within (Some k) hi x -> within lo hi x.
Proof.
  intros (H & _ & _) (Hx & ? & ?). split_and!; [|done|done]. destruct lo; cbn in *; [|done]. ko.
Qed.

Lemma sepin_lo lo hi k x : sepin lo hi k -> sepin (Some k) hi x -> sepin lo hi x.
Proof.
  intros (H & _ & _) (Hx & ? & ?). split_and!; [|done|done]. destruct lo; cbn in *; [|done]. ko.
Qed.

Lemma sepin_hi lo hi k x : sepin lo hi k -> sepin lo (Some k) x -> sepin lo hi x.
Proof.
  intros (_ & H & _) (? & Hx & ?). split_and!; [done| |done]. destruct hi; cbn in *; [|done]. ko.
Qed.

Lemma cwf_seps P lo ks hi cs : cwf P lo ks hi cs -> Forall (sepin lo hi) ks.
Proof.
  revert lo cs. induction ks as [|k ks IH]; intros lo [|c cs]; cbn; try done.
  intros (Hk & _ & H). constructor; [done|].
  eapply Forall_impl; [exact (IH _ _ H)|]. intros x. by apply sepin_lo.
Qed.

Definition bounded (P : option bytes -> option bytes -> tree -> Prop) : Prop :=
  forall lo hi c, P lo hi c -> Forall (fun e => within lo hi e.1) (kvs c).

Lemma cwf_kvs P lo ks hi cs :
  bounded P -> cwf P lo ks hi cs -> Forall (fun e => within lo hi e.1) (flat_map kvs cs).
Proof.
  intros HP. revert lo cs. induction ks as [|k ks IH]; intros lo [|c cs]; cbn; try done.
  - destruct cs; [|done]. intros H. cbn. rewrite app_nil_r. by apply HP.
  - intros (Hk & Hc & H). apply Forall_app. split.
    + eapply Forall_impl; [exact (HP _ _ _ Hc)|]. intros x. by apply within_hi.
    + eapply Forall_impl; [exact (IH _ _ H)|]. intros x. by apply within_lo.
Qed.

Lemma Forall_zip_fst {A B} (P : A -> Prop) (l : list A) (k : list B) :
  Forall P l -> Forall (fun e => P e.1) (zip l k).
Proof.
  intros H. revert k. induction H as [|x l Hx _ IH]; intros [|y k]; cbn; constructor; auto.
Qed.

Lemma twf_bounded tg n : bounded (twf tg n).
Proof.
  induction n as [|n IH]; intros lo hi [l ks vs nx|l ks cs]; intros [_ H]; try done; cbn in *.
  - apply Forall_zip_fst. tauto.
  - by eapply cwf_kvs.
Qed.

(** * Routing *)

(** The child a key is routed to, its bounds, and what stays put around it. *)
Record routed (P : option bytes -> option bytes -> tree -> Prop) (lo : option bytes)
    (ks : list bytes) (hi : option bytes) (cs : list tree) (key : bytes)
    (ks1 ks2 : list bytes) (cs1 : list tree) (c : tree) (cs2 : list tree)
    (lo' hi' : option bytes) : Prop := {
  rt_ks : ks = ks1 ++ ks2;
  rt_cs : cs = cs1 ++ c :: cs2;
  rt_len : length cs1 = length ks1;
  rt_lt : Forall (fun k => klt k key) ks1;
  rt_ge : Forall (fun k => kle key k) ks2;
  rt_u8 : Forall (Forall u8) (ks1 ++ ks2);
  rt_child : P lo' hi' c;
  rt_in : within lo' hi' key;
  rt_left : all_lt key (flat_map kvs cs1);
  rt_right : all_gt key (flat_map kvs cs2);
  rt_replace : forall c', P lo' hi' c' -> cwf P lo (ks1 ++ ks2) hi (cs1 ++ c' :: cs2);
  rt_hi : hi' = None -> cs2 = [] /\ hi = None;
  rt_lo : forall x, ogt lo' x -> ogt lo x;
  rt_seps : forall k, sepin lo' hi' k -> Forall (fun x => klt x k) ks1 /\ Forall (klt k) ks2;
  rt_split : forall k c1 c2, sepin lo' hi' k -> P lo' (Some k) c1 -> P (Some k) hi' c2 ->
    cwf P lo (ks1 ++ k :: ks2) hi (cs1 ++ c1 :: c2 :: cs2);
}.

Lemma kle_total a b : kle a b \/ klt b a.
Proof. destruct (klt_total a b) as [?|[->|?]]; [left; by left | left; by right | by right]. Qed.

Lemma cwf_route P lo ks hi cs key :
  bounded P -> cwf P lo ks hi cs -> within lo hi key ->
  exists ks1 ks2 cs1 c cs2 lo' hi', routed P lo ks hi cs key ks1 ks2 cs1 c cs2 lo' hi'.
Proof.
  intros HP. revert lo cs. induction ks as [|k ks IH]; intros lo [|c cs] H Hin; cbn in H; try done.
  - destruct cs as [|? ?]; [|done]. exists [], [], [], c, [], lo, hi. by split.
  - destruct H as (Hk & Hc & H). pose proof (cwf_seps _ _ _ _ _ H) as Hs.
    destruct (kle_total key k) as [Hle|Hlt].
    + exists [], (k :: ks), [], c, cs, lo, (Some k). split; try done.
      * constructor; [done|]. eapply Forall_impl; [exact Hs|]. intros x (Hx & _). cbn in Hx. ko.
      * constructor; [apply Hk|]. eapply Forall_impl; [exact Hs|]. intros x Hx. apply Hx.
      * by destruct Hin as (? & _ & ?).
      * eapply Forall_impl; [exact (cwf_kvs _ _ _ _ _ HP H)|]. intros x (Hx & _). cbn in Hx. ko.
      * intros x (_ & Hx & _). cbn in Hx. split; [done|]. constructor; [done|].
        eapply Forall_impl; [exact Hs|]. intros y (Hy & _). cbn in Hy. ko.
      * intros x c1 c2 Hx H1 H2. cbn. split; [by eapply sepin_hi|]. split; [done|]. split; [|done].
        destruct Hx as (_ & Hx & _), Hk as (_ & ? & ?). by split_and!.
    + assert (within (Some k) hi key) as Hin' by (destruct Hin as (_ & ? & ?); by split_and!).
      destruct (IH (Some k) cs H Hin') as (ks1 & ks2 & cs1 & c' & cs2 & lo' & hi' & R).
      destruct R as [-> -> Hlen ? ? ? ? ? ? ? Hrep Hhi Hmono Hseps Hsplit].
      exists (k :: ks1), ks2, (c :: cs1), c', cs2, lo', hi'. split; try done.
      * cbn. by rewrite Hlen.
      * by constructor.
      * constructor; [apply Hk|done].
      * cbn. apply Forall_app. split; [|done].
        eapply Forall_impl; [exact (HP _ _ _ Hc)|]. intros x (_ & Hx & _). cbn in Hx. ko.
      * intros y Hy. cbn. auto.
      * intros x Hx. apply Hmono in Hx. destruct Hk as (Hk & _). destruct lo; cbn in *; [|done]. ko.
      * intros x Hx. destruct (Hseps x Hx) as [? ?]. split; [|done]. constructor; [|done].
        apply Hmono, Hx.
      * intros y c1 c2 ? ? ?. cbn. auto.
Qed.

(** Separators and children of a node around one separator [k]. *)
Lemma cwf_app P lo ks1 k ks2 hi cs1 cs2 :
  length cs1 = S (length ks1) ->
  cwf P lo (ks1 ++ k :: ks2) hi (cs1 ++ cs2) <->
  sepin lo hi k /\ cwf P lo ks1 (Some k) cs1 /\ cwf P (Some k) ks2 hi cs2.
Proof.
  revert lo cs1. induction ks1 as [|x ks1 IH]; intros lo [|c cs1]; try done; intros [= Hl].
  - destruct cs1; [|done]. cbn. tauto.
  - cbn. rewrite IH by done. split.
    + intros (Hx & Hc & Hk & H1 & H2). split; [by eapply sepin_lo|].
      split; [|done]. split; [|done].
      destruct Hx as (? & _ & ?), Hk as (Hk & _). by split_and!.
    + intros (Hk & (Hx & Hc & H1) & H2). split; [by eapply sepin_hi|]. split; [done|].
      split; [|done]. destruct Hk as (_ & ? & ?), Hx as (_ & Hx & _). by split_and!.
Qed.

Lemma flat_map_take_drop {A B} (f : A -> list B) n l :
  flat_map f (take n l) ++ flat_map f (drop n l) = flat_map f l.
Proof. by rewrite <- flat_map_app, take_drop. Qed.

(** * Splitting *)

#[local] Arguments take : simpl never.
#[local] Arguments drop : simpl never.
#[local] Arguments Nat.min : simpl never.
#[local] Arguments Nat.div : simpl never.

Definition tsplit (c : tree) (new : loc) : tree * bytes * tree :=
  match c with
  | TLeaf l ks vs nx =>
    let mid := (length ks / 2)%nat in
    (TLeaf l (take mid ks) (take mid vs) (Some new), default [] (last (take mid ks)),
     TLeaf new (drop mid ks) (drop mid vs) nx)
  | TNode l ks cs =>
    let mid := (length ks / 2)%nat in
    (TNode l (take mid ks) (take (S mid) cs), default [] (ks !! mid),
     TNode new (drop (S mid) ks) (drop (S mid) cs))
  end.

(** The key is routed to a leaf from which the writer starts over. *)
Fixpoint moved (n : nat) (g : tree) (key : bytes) : Prop :=
  match n, g with
  | O, TLeaf _ ks _ nx => moved_right ks nx key = true
  | S n, TNode _ ks cs =>
    match cs !! lower_bound ks (heads_for ks) key with
    | Some c => moved n c key
    | None => False
    end
  | _, _ => False
  end.

Lemma last_sorted ks k x : ksorted ks -> last ks = Some k -> x ∈ ks -> kle x k.
Proof.
  intros Hs Hl Hx. apply last_Some in Hl as [ks' ->].
  apply ksorted_app in Hs as (_ & _ & H). apply elem_of_app in Hx as [Hx|Hx].
  - rewrite Forall_forall in H. specialize (H x Hx). apply Forall_cons in H as [? _]. by left.
  - apply list_elem_of_singleton in Hx. by right.
Qed.

(** The two halves of a full child, and the separator between them. *)
Record split_of (tg : bool) (n : nat) (lo hi : option bytes) (c c1 : tree) (k : bytes) (c2 : tree) : Prop := {
  sp_sep : sepin lo hi k;
  sp_left : twf tg n lo (Some k) c1;
  sp_right : twf tg n (Some k) hi c2;
  sp_kvs : kvs c1 ++ kvs c2 = kvs c;
  sp_free1 : (length (tkeys c1) < MAX_KEYS)%nat;
  sp_free2 : (length (tkeys c2) < MAX_KEYS)%nat;
  sp_chain : forall e, chained (leaves c) e -> chained (leaves c1 ++ leaves c2) e;
  sp_first : forall e, head_loc (leaves c1 ++ leaves c2) e = head_loc (leaves c) e;
  sp_moved : forall key, within lo hi key ->
    moved n (if ble key k then c1 else c2) key <-> moved n c key;
}.

Lemma half_bounds n : (MAX_KEYS <= n <= MAX_KEYS)%nat -> (n / 2 = 64 /\ n = 128)%nat.
Proof. unfold MAX_KEYS. intros ?. assert (n = 128%nat) as -> by lia. done. Qed.

Lemma moved_right_false ks nx key k :
  ksorted ks -> k ∈ ks -> kle key k -> moved_right ks nx key = false.
Proof.
  intros Hs Hk Hle. unfold moved_right. destruct (last ks) as [z|] eqn:E; [|by rewrite andb_false_r].
  pose proof (last_sorted _ _ _ Hs E Hk). destruct (blt_spec z key); [|by rewrite andb_false_r]. ko.
Qed.

Lemma tsplit_leaf tg lo hi l ks vs nx new :
  twf tg 0 lo hi (TLeaf l ks vs nx) -> (MAX_KEYS <= length ks)%nat ->
  let '(c1, k, c2) := tsplit (TLeaf l ks vs nx) new in split_of tg 0 lo hi (TLeaf l ks vs nx) c1 k c2.
Proof.
  intros (Hmax & Hlen & Hs & Hin & Htg) Hfull. cbn in Hmax.
  destruct (half_bounds (length ks) ltac:(lia)) as [Hmid H128]. unfold tsplit. cbv zeta. rewrite Hmid.
  destruct (last (take 64 ks)) as [k|] eqn:Hk.
  2:{ apply last_None in Hk. apply (f_equal length) in Hk. rewrite length_take in Hk. cbn in Hk. lia. }
  cbn. rewrite <- (take_drop 64 ks) in Hs. apply ksorted_app in Hs as (Hs1 & Hs2 & Hlt).
  rewrite <- (take_drop 64 ks), Forall_app in Hin. destruct Hin as [Hin1 Hin2].
  assert (Hkin : k ∈ take 64 ks) by (apply last_Some in Hk as [? ->]; set_solver).
  assert (Hkw : within lo hi k) by (rewrite Forall_forall in Hin1; auto).
  assert (Hkd : Forall (klt k) (drop 64 ks)) by (rewrite Forall_forall in Hlt; by apply Hlt).
  destruct (drop 64 ks) as [|d ds] eqn:Hd.
  { apply (f_equal length) in Hd. rewrite length_drop in Hd. cbn in Hd. lia. }
  assert (Hds : length (d :: ds) = 64%nat) by (rewrite <- Hd, length_drop; lia).
  assert (last ks = last (d :: ds)) as Hlast.
  { rewrite <- (take_drop 64 ks), Hd. apply last_app_cons. }
  split.
  - split_and!; [apply Hkw| |apply Hkw]. apply Forall_cons in Hkd as [Hkd _].
    apply Forall_cons in Hin2 as [(_ & Hdhi & _) _]. destruct hi; cbn in *; [ko|done].
  - cbn. rewrite !length_take. split_and!; [unfold MAX_KEYS; lia|lia|done| |by right].
    apply Forall_forall. intros x Hx. pose proof (last_sorted _ _ _ Hs1 Hk Hx).
    rewrite Forall_forall in Hin1. destruct (Hin1 x Hx) as (? & _ & ?). by split_and!.
  - cbn. rewrite length_drop. cbn in Hds. split_and!; [unfold MAX_KEYS; lia|lia|done| |by rewrite <- Hlast].
    apply Forall_forall. intros x Hx. rewrite !Forall_forall in Hkd, Hin2.
    destruct (Hin2 x Hx) as (_ & ? & ?). split_and!; [by apply Hkd|done|done].
  - cbn [kvs]. rewrite <- Hd, <- zip_with_app, !take_drop; [done|]. rewrite !length_take. lia.
  - cbn. rewrite length_take. unfold MAX_KEYS. lia.
  - cbn [tkeys]. unfold MAX_KEYS. lia.
  - cbn. tauto.
  - done.
  - intros key Hkey. destruct (ble_spec key k) as [Hle|Hgt]; cbn [moved].
    + rewrite (moved_right_false _ _ _ _ Hs1 Hkin Hle).
      rewrite (moved_right_false ks nx key k); [done| | |done].
      * rewrite <- (take_drop 64 ks), Hd. by apply ksorted_app.
      * rewrite <- (take_drop 64 ks). set_solver.
    + unfold moved_right. by rewrite Hlast.
Qed.

Lemma lower_bound_split ks key :
  ksorted ks -> Forall (Forall u8) ks -> Forall u8 key -> exists ks1 ks2, ks = ks1 ++ ks2 /\
    Forall (fun k => klt k key) ks1 /\ Forall (fun k => kle key k) ks2 /\
    lower_bound ks (heads_for ks) key = length ks1.
Proof.
  intros Hs Hu Hk. destruct (ksorted_split ks key Hs) as (ks1 & ks2 & -> & H1 & H2).
  exists ks1, ks2. split_and!; [done..|]. by apply lower_bound_partition.
Qed.

Lemma lower_bound_at ks key i :
  (i <= length ks)%nat -> Forall (Forall u8) ks -> Forall u8 key ->
  Forall (fun k => klt k key) (take i ks) -> Forall (fun k => kle key k) (drop i ks) ->
  lower_bound ks (heads_for ks) key = i.
Proof.
  intros Hi Hu Hk H1 H2. rewrite <- (take_drop i ks) in Hu |- *.
  rewrite lower_bound_partition by done. rewrite length_take. lia.
Qed.

Lemma cwf_sorted P lo ks hi cs : cwf P lo ks hi cs -> ksorted ks /\ Forall (Forall u8) ks.
Proof.
  revert lo cs. induction ks as [|k ks IH]; intros lo [|c cs]; cbn; try done.
  - intros _. split; constructor.
  - intros (Hk & _ & H). destruct (IH _ _ H) as [? ?]. split; constructor; try done.
    + eapply Forall_impl; [exact (cwf_seps _ _ _ _ _ H)|]. by intros x (? & _).
    + apply Hk.
Qed.

Lemma tsplit_node tg n lo hi l ks cs new :
  twf tg (S n) lo hi (TNode l ks cs) -> (MAX_KEYS <= length ks)%nat ->
  let '(c1, k, c2) := tsplit (TNode l ks cs) new in split_of tg (S n) lo hi (TNode l ks cs) c1 k c2.
Proof.
  intros (Hmax & Hw) Hfull. cbn in Hmax.
  destruct (half_bounds (length ks) ltac:(lia)) as [Hmid H128]. unfold tsplit. cbv zeta. rewrite Hmid.
  destruct (lookup_lt_is_Some_2 ks 64 ltac:(lia)) as [k Hk]. rewrite Hk. change (default [] (Some k)) with k.
  pose proof (cwf_length _ _ _ _ _ Hw) as Hcl.
  pose proof (cwf_sorted _ _ _ _ _ Hw) as [Hs Hu].
  pose proof Hw as Hw'. rewrite <- (take_drop_middle _ _ _ Hk), <- (take_drop 65 cs) in Hw.
  apply cwf_app in Hw as (Hsep & H1 & H2); [|rewrite !length_take; lia].
  split; cbn [tkeys kvs leaves twf].
  - done.
  - split; [rewrite length_take; unfold MAX_KEYS; lia|done].
  - split; [rewrite length_drop; unfold MAX_KEYS; lia|done].
  - apply flat_map_take_drop.
  - rewrite length_take. unfold MAX_KEYS. lia.
  - rewrite length_drop. unfold MAX_KEYS. lia.
  - intros e. by rewrite flat_map_take_drop.
  - intros e. by rewrite flat_map_take_drop.
  - intros key (_ & _ & Hkey). destruct (lower_bound_split ks key Hs Hu Hkey)
      as (ks1 & ks2 & Hks & Hlt & Hge & Hlb).
    assert (H1' : take (length ks1) ks = ks1) by (by rewrite Hks, take_app_length).
    assert (H2' : drop (length ks1) ks = ks2) by (by rewrite Hks, drop_app_length).
    set (i := length ks1) in *.
    assert (i <= length ks)%nat by (subst i; rewrite Hks, length_app; lia).
    destruct (ble_spec key k) as [Hle|Hgt]; cbn [moved]; rewrite Hlb.
    + assert (i <= 64)%nat.
      { destruct (decide (i <= 64)%nat); [done|]. rewrite <- H1', Forall_forall in Hlt.
        assert (klt k key); [|ko]. apply Hlt. apply (list_elem_of_lookup_2 _ 64%nat).
        by rewrite lookup_take_lt by lia. }
      rewrite (lower_bound_at (take 64 ks) key i); rewrite ?length_take.
      * by rewrite lookup_take_lt by lia.
      * lia.
      * by apply Forall_take.
      * done.
      * rewrite take_take, Nat.min_l, H1' by lia. done.
      * replace 64%nat with (i + (64 - i))%nat by lia. rewrite <- take_drop_commute, H2'.
        by apply Forall_take.
    + assert (65 <= i)%nat.
      { destruct (decide (65 <= i)%nat); [done|]. rewrite <- H2', Forall_forall in Hge.
        destruct Hgt. apply Hge. apply (list_elem_of_lookup_2 _ (64 - i)%nat).
        rewrite lookup_drop, <- Hk. f_equal. lia. }
      rewrite (lower_bound_at (drop 65 ks) key (i - 65)); rewrite ?length_drop.
      * rewrite lookup_drop. replace (65 + (i - 65))%nat with i by lia. done.
      * lia.
      * by apply Forall_drop.
      * done.
      * rewrite take_drop_commute. replace (65 + (i - 65))%nat with i by lia. rewrite H1'.
        by apply Forall_drop.
      * rewrite drop_drop. replace (65 + (i - 65))%nat with i by lia. by rewrite H2'.
Qed.
