(* ===== verification/BTreeOps.v ===== *)
(** The operations of the B+ tree on a represented tree: what each call returns
    and the tree it leaves, up to the entry list of the tree. *)
From stdpp Require Import base list gmap sorting.
From Stdlib Require Import ZArith Lia.
From S2P Require Import Prelude Machine BTree BTreeRep.

#[local] Arguments take : simpl never.
#[local] Arguments drop : simpl never.
#[local] Arguments Nat.div : simpl never.
#[local] Arguments lower_bound : simpl never.
#[local] Arguments heads_for : simpl never.

(** * Local changes of a represented tree *)

(** [t'] holds [g'] where [t] held [g]; everything else is as it was, and what
    is new in [g'] was free before. *)
Record step_ok (t : BTree) (g : tree) (t' : BTree) (g' : tree) : Prop := {
  so_rep : rep t' g';
  so_loc : tloc g' = tloc g;
  so_brk : (brk t <= brk t')%nat;
  so_frame : forall l, l ∉ locs g -> (l < brk t)%nat -> store t' !! l = store t !! l;
  so_locs : forall l, l ∈ locs g' -> l ∈ locs g \/ (brk t <= l)%nat;
  so_root : root t' = root t;
  so_entries : entries t' = entries t;
}.

Lemma step_refl t g : rep t g -> step_ok t g t g.
Proof. split; auto. Qed.

Lemma step_trans t g t1 g1 t2 g2 :
  step_ok t g t1 g1 -> step_ok t1 g1 t2 g2 -> step_ok t g t2 g2.
Proof.
  intros [? ? ? Hf1 Hl1 ? ?] [? ? ? Hf2 Hl2 ? ?]. split; [done|congruence|lia| | |congruence..].
  - intros l Hl Hlt. rewrite Hf2, Hf1; [done..| |lia].
    intros Hin. destruct (Hl1 _ Hin); [done|lia].
  - intros l Hin. destruct (Hl2 _ Hin) as [Hin'|?]; [auto|right; lia].
Qed.

Lemma holds_ext_all t t' cs :
  (forall l, l ∈ flat_map locs cs -> store t' !! l = store t !! l) ->
  Forall (holds t) cs -> Forall (holds t') cs.
Proof.
  intros He H. rewrite Forall_forall in H |- *. intros c Hc.
  apply (holds_ext t); [|by apply H]. intros l Hl. by eapply He, in_flat_locs.
Qed.

Lemma nodup_node (l : loc) (a c b : list loc) :
  NoDup (l :: a ++ c ++ b) <->
  (l ∉ a /\ l ∉ c /\ l ∉ b) /\ NoDup a /\ NoDup c /\ NoDup b /\
  (forall x, x ∈ a -> x ∉ c) /\ (forall x, x ∈ a -> x ∉ b) /\ (forall x, x ∈ c -> x ∉ b).
Proof.
  rewrite NoDup_cons, !NoDup_app, !elem_of_app. setoid_rewrite elem_of_app. naive_solver.
Qed.

(** Disjointness of a node's location and its children. *)
Lemma rep_node t l ks cs1 c cs2 :
  rep t (TNode l ks (cs1 ++ c :: cs2)) ->
  rep t c /\ Forall (holds t) cs1 /\ Forall (holds t) cs2 /\
  NoDup (l :: flat_map locs cs1 ++ locs c ++ flat_map locs cs2) /\
  store t !! l = Some (Internal ks (heads_for ks) ((tloc <$> cs1) ++ tloc c :: (tloc <$> cs2))).
Proof.
  intros [Hh Hd Hf]. apply holds_node in Hh as [Hl Hh].
  apply Forall_app in Hh as [? Hh]. apply Forall_cons in Hh as [? ?].
  rewrite locs_node, flat_map_app in Hd. cbn in Hd.
  split_and!; [|done|done|done|by rewrite fmap_app in Hl].
  split; [done| |done]. by apply nodup_node in Hd as (_ & _ & ? & _).
Qed.

Lemma rep_node_lt t l ks cs1 c cs2 x :
  rep t (TNode l ks (cs1 ++ c :: cs2)) ->
  x = l \/ x ∈ flat_map locs cs1 \/ x ∈ locs c \/ x ∈ flat_map locs cs2 -> (x < brk t)%nat.
Proof.
  intros Hr Hx. apply (rep_locs_lt _ _ _ Hr). rewrite locs_node, flat_map_app. cbn.
  by rewrite elem_of_cons, !elem_of_app.
Qed.

(** A change inside one child is a change of the node. *)
Lemma step_child t l ks cs1 c cs2 t' c' :
  rep t (TNode l ks (cs1 ++ c :: cs2)) -> step_ok t c t' c' ->
  step_ok t (TNode l ks (cs1 ++ c :: cs2)) t' (TNode l ks (cs1 ++ c' :: cs2)).
Proof.
  intros Hr [[Hh' Hd' Hf'] Hloc Hbrk Hframe Hlocs Hroot Hent].
  pose proof (rep_node _ _ _ _ _ _ Hr) as (Hrc & H1 & H2 & Hd & Hst).
  pose proof (fun x => rep_node_lt t l ks cs1 c cs2 x Hr) as Hlt.
  apply nodup_node in Hd as ((? & ? & ?) & Hd1 & Hdc & Hd2 & Hx1 & Hx2 & Hx3).
  assert (Hnew : forall x, x ∈ locs c' -> x <> l /\ x ∉ flat_map locs cs1 /\ x ∉ flat_map locs cs2).
  { intros x Hx. destruct (Hlocs x Hx) as [Hin|Hge]; [naive_solver|].
    split_and!; intros Hin; assert (x < brk t)%nat by (apply Hlt; auto); lia. }
  split; try done.
  - split; [|rewrite locs_node, flat_map_app; cbn|done].
    + apply holds_node. split.
      * rewrite Hframe by auto. rewrite Hst, fmap_app. cbn. by rewrite Hloc.
      * apply Forall_app. split; [|constructor]; [|done|].
        -- apply (holds_ext_all t); [|done]. intros x Hx. apply Hframe; auto.
        -- apply (holds_ext_all t); [|done]. intros x Hx. apply Hframe; [|auto].
           intros Hx'. by apply (Hx3 x).
    + apply nodup_node. split_and!; try done; naive_solver.
  - intros x Hx Hlt'. apply Hframe; [|done]. rewrite locs_node, flat_map_app in Hx. cbn in Hx.
    rewrite elem_of_cons, !elem_of_app in Hx. naive_solver.
  - intros x Hx. rewrite locs_node, flat_map_app in Hx |- *. cbn in Hx |- *.
    rewrite elem_of_cons, !elem_of_app in Hx |- *. naive_solver.
Qed.

(** Overwriting a leaf in place. *)
Lemma step_leaf t l ks vs nx ks' vs' :
  rep t (TLeaf l ks vs nx) ->
  step_ok t (TLeaf l ks vs nx) (set_body t l (Leaf ks' (heads_for ks') vs' nx)) (TLeaf l ks' vs' nx).
Proof.
  intros Hr. pose proof (rep_locs_lt _ _ l Hr ltac:(left)) as Hlt.
  split; try done.
  - split.
    + unfold holds. cbn. constructor; [|done]. cbn. by rewrite lookup_insert_eq.
    + apply NoDup_singleton.
    + intros x Hx. cbn in *. rewrite lookup_insert_ne by lia. by apply Hr.
  - intros x Hx _. cbn in *. rewrite lookup_insert_ne; [done|]. by apply not_elem_of_cons in Hx as [? _].
  - intros x Hx. by left.
Qed.

(** Counters do not matter to what a store represents. *)
Lemma rep_store t t' g : store t' = store t -> brk t' = brk t -> rep t g -> rep t' g.
Proof.
  intros Hs Hb [Hh Hd Hf]. split; [|done|].
  - eapply holds_ext; [|done]. by rewrite Hs.
  - rewrite Hs, Hb. done.
Qed.

(** * Splitting a child *)

Lemma heads_for_app a b : heads_for (a ++ b) = heads_for a ++ heads_for b.
Proof. apply fmap_app. Qed.

Lemma heads_for_take n ks : take n (heads_for ks) = heads_for (take n ks).
Proof. unfold heads_for. by rewrite fmap_take. Qed.

Lemma heads_for_drop n ks : drop n (heads_for ks) = heads_for (drop n ks).
Proof. unfold heads_for. by rewrite fmap_drop. Qed.

Lemma length_heads_for ks : length (heads_for ks) = length ks.
Proof. apply length_fmap. Qed.

Lemma vinsert_app {A} (x : A) a b n : n = length a -> vinsert n x (a ++ b) = a ++ x :: b.
Proof. intros ->. unfold vinsert. by rewrite take_app_length, drop_app_length. Qed.

(** The store after the child's halves were written. *)
Record split_store (t t1 : BTree) (c c1 c2 : tree) : Prop := {
  ss_left : store t1 !! tloc c = Some (tbody c1);
  ss_right : store t1 !! brk t = Some (tbody c2);
  ss_rest : forall x, x <> tloc c -> x <> brk t -> store t1 !! x = store t !! x;
  ss_brk : brk t1 = S (brk t);
  ss_root : root t1 = root t;
  ss_entries : entries t1 = entries t;
}.

Lemma tsplit_holds t t1 c c1 k c2 :
  rep t c -> tsplit c (brk t) = (c1, k, c2) -> split_store t t1 c c1 c2 ->
  tloc c1 = tloc c /\ tloc c2 = brk t /\ holds t1 c1 /\ holds t1 c2 /\
  NoDup (locs c1 ++ locs c2) /\ (forall x, x ∈ locs c1 ++ locs c2 -> x ∈ locs c \/ x = brk t).
Proof.
  intros Hr E [Hl Hri Hrest _ _ _].
  pose proof (fun x => rep_locs_lt t c x Hr) as Hlt. destruct Hr as [Hh Hd Hf].
  destruct c as [l ks vs nx|l ks cs]; cbn in E; injection E as <- <- <-; cbn [tloc] in *.
  - assert (l < brk t)%nat by (apply Hlt; left).
    split_and!; try done; try (constructor; [done|constructor]).
    + cbn. apply NoDup_cons. split; [rewrite list_elem_of_singleton; lia | apply NoDup_singleton].
    + cbn. intros x. rewrite !elem_of_cons. naive_solver.
  - apply holds_node in Hh as [_ Hh]. rewrite locs_node in Hd, Hlt |- *.
    set (m := S (length ks / 2)) in *. rewrite !locs_node.
    rewrite <- (flat_map_take_drop locs m cs) in Hd, Hlt |- *.
    rewrite <- (take_drop m cs), Forall_app in Hh. destruct Hh as [Hh1 Hh2].
    set (A := flat_map locs (take m cs)) in *. set (B := flat_map locs (drop m cs)) in *.
    apply NoDup_cons in Hd as [Hnl Hd]. apply NoDup_app in Hd as (Hd1 & Hx & Hd2).
    apply not_elem_of_app in Hnl as [HnA HnB].
    assert (HlA : forall x, x ∈ A -> (x < brk t)%nat) by (intros x ?; apply Hlt; right; apply elem_of_app; auto).
    assert (HlB : forall x, x ∈ B -> (x < brk t)%nat) by (intros x ?; apply Hlt; right; apply elem_of_app; auto).
    assert (Hll : (l < brk t)%nat) by (apply Hlt; left).
    split_and!; try done.
    + apply holds_node. split; [done|]. apply (holds_ext_all t); [|done].
      intros x Hx'. apply Hrest; [by intros ->|]. apply HlA in Hx'. lia.
    + apply holds_node. split; [done|]. apply (holds_ext_all t); [|done].
      intros x Hx'. apply Hrest; [by intros ->|]. apply HlB in Hx'. lia.
    + apply NoDup_app. rewrite !NoDup_cons. split_and!; [done|done| |by intros ?%HlB; lia|done].
      intros x [-> | Hx']%elem_of_cons [Hy | Hy]%elem_of_cons; [lia|done| |by apply (Hx x)].
      apply HlA in Hx'. lia.
    + intros x. rewrite !elem_of_cons, !elem_of_app, !elem_of_cons. tauto.
Qed.

Lemma step_split t t1 l ks ks' cs1 c cs2 c1 k c2 :
  rep t (TNode l ks (cs1 ++ c :: cs2)) -> tsplit c (brk t) = (c1, k, c2) ->
  split_store t t1 c c1 c2 ->
  step_ok t (TNode l ks (cs1 ++ c :: cs2))
    (set_body t1 l (Internal ks' (heads_for ks') (tloc <$> (cs1 ++ c1 :: c2 :: cs2))))
    (TNode l ks' (cs1 ++ c1 :: c2 :: cs2)).
Proof.
  intros Hr E Hss. pose proof (rep_node _ _ _ _ _ _ Hr) as (Hrc & H1 & H2 & Hd & _).
  pose proof (fun x => rep_node_lt t l ks cs1 c cs2 x Hr) as Hlt.
  destruct (tsplit_holds _ _ _ _ _ _ Hrc E Hss) as (Hl1 & Hl2 & Hh1 & Hh2 & Hnd & Hin).
  destruct Hss as [_ _ Hrest Hbrk Hroot Hent].
  apply nodup_node in Hd as ((? & ? & ?) & Hd1 & Hdc & Hd2 & Hx1 & Hx2 & Hx3).
  pose proof (tloc_in_locs c) as Htc.
  assert (Hlb : (l < brk t)%nat) by (apply Hlt; auto).
  assert (Hkeep : forall x, x <> l -> x ∉ locs c -> (x < brk t)%nat ->
    <[l:=Internal ks' (heads_for ks') (tloc <$> (cs1 ++ c1 :: c2 :: cs2))]> (store t1) !! x = store t !! x).
  { intros x ? ? ?. rewrite lookup_insert_ne by done. apply Hrest; [intros ->; done|lia]. }
  assert (Hnew : forall x, x ∈ locs c1 ++ locs c2 ->
                 x <> l /\ x ∉ flat_map locs cs1 /\ x ∉ flat_map locs cs2).
  { intros x Hx. destruct (Hin x Hx) as [Hin' | ->].
    - naive_solver.
    - split_and!; [lia|intros Hy; assert (brk t < brk t)%nat by (apply Hlt; auto); lia..]. }
  setoid_rewrite elem_of_app in Hnew.
  split; try done; cbn [set_body store brk root entries].
  - split; cbn [set_body store brk].
    + apply holds_node. cbn [store set_body]. split; [by rewrite lookup_insert_eq|].
      rewrite Forall_app, !Forall_cons. split_and!.
      * apply (holds_ext_all t); [|done]. intros x Hx. apply Hkeep; [naive_solver..|apply Hlt; auto].
      * apply (holds_ext t1); [|done]. intros x Hx. apply lookup_insert_ne. naive_solver.
      * apply (holds_ext t1); [|done]. intros x Hx. apply lookup_insert_ne. naive_solver.
      * apply (holds_ext_all t); [|done]. intros x Hx. apply Hkeep; [naive_solver..|apply Hlt; auto].
    + rewrite locs_node, flat_map_app. cbn [flat_map]. rewrite (app_assoc (locs c1)).
      apply nodup_node. setoid_rewrite elem_of_app. split_and!; try done; naive_solver.
    + intros x Hx. rewrite lookup_insert_ne by lia. rewrite Hrest; [apply Hr; lia|..|lia].
      intros ->. assert (tloc c < brk t)%nat by (apply Hlt; auto). lia.
  - lia.
  - intros x Hx Hxb. rewrite locs_node, flat_map_app in Hx. cbn in Hx.
    rewrite elem_of_cons, !elem_of_app in Hx. apply Hkeep; naive_solver.
  - intros x. rewrite !locs_node, !flat_map_app. cbn [flat_map].
    rewrite !elem_of_cons, !elem_of_app. setoid_rewrite elem_of_app in Hin.
    intros [?|[?|[?|[?|?]]]]; [auto|auto|..|auto].
    + destruct (Hin x) as [? | ->]; auto.
    + destruct (Hin x) as [? | ->]; auto.
Qed.

Lemma tloc_lookup cs1 c cs2 n :
  length cs1 = n -> (tloc <$> (cs1 ++ c :: cs2)) !! n = Some (tloc c).
Proof. intros <-. by rewrite list_lookup_fmap, list_lookup_middle. Qed.

Lemma split_child_ok tg t l ks1 ks2 cs1 c cs2 n lo' hi' :
  rep t (TNode l (ks1 ++ ks2) (cs1 ++ c :: cs2)) -> length cs1 = length ks1 ->
  twf tg n lo' hi' c -> (MAX_KEYS <= length (tkeys c))%nat ->
  (forall k, sepin lo' hi' k -> Forall (fun x => klt x k) ks1 /\ Forall (klt k) ks2) ->
  Forall (Forall u8) (ks1 ++ ks2) ->
  exists t1 c1 k c2, let ks' := ks1 ++ k :: ks2 in let cs' := cs1 ++ c1 :: c2 :: cs2 in
    split_child_in_place t (ks1 ++ ks2) (heads_for (ks1 ++ ks2)) (tloc <$> (cs1 ++ c :: cs2))
      (length ks1) = Ret (t1, (ks', heads_for ks', tloc <$> cs')) /\
    split_of tg n lo' hi' c c1 k c2 /\
    step_ok t (TNode l (ks1 ++ ks2) (cs1 ++ c :: cs2))
      (set_body t1 l (Internal ks' (heads_for ks') (tloc <$> cs'))) (TNode l ks' cs').
Proof.
  intros Hr Hlen Hw Hfull Hseps Hu.
  pose proof (rep_node _ _ _ _ _ _ Hr) as (Hrc & _).
  pose proof (rep_locs_lt _ _ _ Hrc (tloc_in_locs c)) as Hlt.
  destruct (tsplit c (brk t)) as [[c1 k] c2] eqn:E.
  assert (Hsp : split_of tg n lo' hi' c c1 k c2).
  { destruct n, c as [cl cks cvs cnx|cl cks ccs]; try (by destruct Hw as [_ []]).
    - pose proof (tsplit_leaf _ _ _ _ _ _ _ (brk t) Hw Hfull) as H. by rewrite E in H.
    - pose proof (tsplit_node _ _ _ _ _ _ _ (brk t) Hw Hfull) as H. by rewrite E in H. }
  pose proof (sp_sep _ _ _ _ _ _ _ _ Hsp) as Hsep. destruct (Hseps _ Hsep) as [Hs1 Hs2].
  assert (Hlb : lower_bound (ks1 ++ ks2) (heads_for (ks1 ++ ks2)) k = length ks1).
  { apply lower_bound_partition; [done|apply Hsep|done|].
    eapply Forall_impl; [exact Hs2|]. intros x ?. by left. }
  assert (Hex : exists t1, split_child_in_place t (ks1 ++ ks2) (heads_for (ks1 ++ ks2))
      (tloc <$> (cs1 ++ c :: cs2)) (length ks1) =
      Ret (t1, (ks1 ++ k :: ks2, heads_for (ks1 ++ k :: ks2), tloc <$> (cs1 ++ c1 :: c2 :: cs2))) /\
      split_store t t1 c c1 c2).
  { unfold split_child_in_place. rewrite (tloc_lookup _ _ _ _ Hlen). cbn [ix mbind out_bind].
    rewrite (holds_lock _ _ (rep_holds _ _ Hrc)). cbn [mbind out_bind].
    assert (Hins : forall r, r = tloc c2 -> tloc c1 = tloc c ->
      vinsert (S (length ks1)) r (tloc <$> (cs1 ++ c :: cs2)) = tloc <$> (cs1 ++ c1 :: c2 :: cs2)).
    { intros r -> Hc1. rewrite !fmap_app, !fmap_cons, Hc1, (cons_middle (tloc c)), app_assoc.
      rewrite vinsert_app; [by rewrite <- app_assoc|]. rewrite length_app, length_fmap. cbn. lia. }
    destruct c as [cl cks cvs cnx|cl cks ccs]; cbn [tbody tloc] in *; cbn in E; injection E as <- <- <-.
    - unfold new_leaf_with, with_body. cbn [mbind out_bind mret out_ret]. eexists. split.
      + rewrite Hlb, heads_for_app, !vinsert_app by (by rewrite ?length_heads_for).
        rewrite Hins by done. rewrite heads_for_app. reflexivity.
      + split; try done; cbn [store bump_splits set_body].
        * rewrite lookup_insert_eq. by rewrite heads_for_take.
        * rewrite lookup_insert_ne by (cbn in Hlt; lia). by rewrite lookup_insert_eq.
        * intros x Hx1 Hx2. cbn in Hx1. by rewrite !lookup_insert_ne by done.
    - destruct (lookup_lt_is_Some_2 cks (length cks / 2)) as [s Hs].
      { cbn in Hfull. apply Nat.Div0.div_lt_upper_bound. unfold MAX_KEYS in Hfull. lia. }
      rewrite Hs in *. cbn [default ix from_option id] in *. unfold new_internal, with_body.
      cbn [mbind out_bind mret out_ret]. eexists. split.
      + rewrite Hlb, heads_for_app, !vinsert_app by (by rewrite ?length_heads_for).
        rewrite Hins by done. rewrite heads_for_app. reflexivity.
      + cbn in Hlt. split; try done; cbn [store bump_splits set_body brk].
        * rewrite lookup_insert_ne by (cbn; lia). cbn [tloc]. rewrite lookup_insert_eq.
          cbn [tbody]. by rewrite heads_for_take, fmap_take.
        * rewrite lookup_insert_eq. cbn [tbody]. by rewrite fmap_drop.
        * intros x Hx1 Hx2. cbn in Hx1. by rewrite !lookup_insert_ne by done. }
  destruct Hex as (t1 & Heq & Hss). exists t1, c1, k, c2. cbv zeta. split_and!; [done..|].
  by eapply step_split.
Qed.

(** * The descent of a writer *)

Lemma routed_lb P lo ks hi cs key ks1 ks2 cs1 c cs2 lo' hi' :
  routed P lo ks hi cs key ks1 ks2 cs1 c cs2 lo' hi' ->
  lower_bound ks (heads_for ks) key = length ks1.
Proof. intros [-> _ _ ? ? ? _ (_ & _ & ?) _ _ _ _ _ _ _]. by apply lower_bound_partition. Qed.

Lemma routed_lookup P lo ks hi cs key ks1 ks2 cs1 c cs2 lo' hi' :
  routed P lo ks hi cs key ks1 ks2 cs1 c cs2 lo' hi' ->
  cs !! lower_bound ks (heads_for ks) key = Some c.
Proof.
  intros R. rewrite (routed_lb _ _ _ _ _ _ _ _ _ _ _ _ _ R). destruct R. subst.
  by apply list_lookup_middle.
Qed.

Lemma key_count_ok t g : holds t g -> key_count t (tloc g) = Ret (length (tkeys g)).
Proof. intros H. unfold key_count. rewrite (holds_lock _ _ H). by destruct g. Qed.

Lemma flat_map_mid {A B} (f : A -> list B) a x b :
  flat_map f (a ++ x :: b) = flat_map f a ++ f x ++ flat_map f b.
Proof. by rewrite flat_map_app. Qed.

(** Same entries, same place in the leaf chain. *)
Record same_view (g g' : tree) : Prop := {
  sv_kvs : kvs g' = kvs g;
  sv_chain : forall e, chained (leaves g) e -> chained (leaves g') e;
  sv_first : forall e, head_loc (leaves g') e = head_loc (leaves g) e;
}.

Lemma same_view_refl g : same_view g g.
Proof. by split. Qed.

Lemma split_view tg n lo hi l ks ks' cs1 c cs2 c1 k c2 :
  split_of tg n lo hi c c1 k c2 ->
  same_view (TNode l ks (cs1 ++ c :: cs2)) (TNode l ks' (cs1 ++ c1 :: c2 :: cs2)).
Proof.
  intros [_ _ _ Hk _ _ Hc Hf _]. split; cbn [kvs leaves].
  - rewrite !flat_map_mid. cbn [flat_map]. by rewrite <- Hk, <- !app_assoc.
  - intros e. rewrite !flat_map_mid. cbn [flat_map]. rewrite (app_assoc (leaves c1)).
    generalize dependent (leaves c1 ++ leaves c2). intros L Hc Hf.
    rewrite !chained_app, !head_loc_app, Hf. naive_solver.
  - intros e. rewrite !flat_map_mid. cbn [flat_map]. rewrite (app_assoc (leaves c1)).
    by rewrite !(head_loc_app (flat_map leaves cs1)), (head_loc_app (leaves c1 ++ leaves c2)), Hf,
      head_loc_app.
Qed.

Lemma route_ok tg n t l ks cs lo hi key :
  rep t (TNode l ks cs) -> twf tg (S n) lo hi (TNode l ks cs) -> within lo hi key ->
  (length ks < MAX_KEYS)%nat ->
  exists t' ks1 ks2 cs1 c cs2 lo' hi', let g' := TNode l (ks1 ++ ks2) (cs1 ++ c :: cs2) in
    route_for_write t l ks (heads_for ks) (tloc <$> cs) key = Ret (t', tloc c) /\
    step_ok t (TNode l ks cs) t' g' /\
    routed (twf tg n) lo (ks1 ++ ks2) hi (cs1 ++ c :: cs2) key ks1 ks2 cs1 c cs2 lo' hi' /\
    (length (ks1 ++ ks2) <= MAX_KEYS)%nat /\ (length (tkeys c) < MAX_KEYS)%nat /\
    same_view (TNode l ks cs) g' /\ (moved n c key <-> moved (S n) (TNode l ks cs) key).
Proof.
  intros Hr [_ Hw] Hin Hfree.
  destruct (cwf_route _ _ _ _ _ key (twf_bounded tg n) Hw Hin)
    as (ks1 & ks2 & cs1 & c & cs2 & lo' & hi' & R).
  pose proof (routed_lb _ _ _ _ _ _ _ _ _ _ _ _ _ R) as Hlb.
  pose proof (routed_lookup _ _ _ _ _ _ _ _ _ _ _ _ _ R) as Hlk.
  pose proof R as [-> -> Hlen Hlt Hge Hu Hc Hinc _ _ _ _ _ Hseps Hsplit].
  pose proof (rep_node _ _ _ _ _ _ Hr) as (Hrc & _).
  assert (Hmoved : moved (S n) (TNode l (ks1 ++ ks2) (cs1 ++ c :: cs2)) key <-> moved n c key).
  { cbn [moved]. by rewrite Hlk. }
  unfold route_for_write. rewrite Hlb, (tloc_lookup _ _ _ _ Hlen). cbn [ix mbind out_bind].
  rewrite (key_count_ok _ _ (rep_holds _ _ Hrc)). cbn [mbind out_bind].
  case_bool_decide as Hfull.
  2:{ exists t, ks1, ks2, cs1, c, cs2, lo', hi'. cbv zeta. split; [done|]. split; [by apply step_refl|].
      split_and!; [done|lia|lia|apply same_view_refl|by rewrite Hmoved]. }
  destruct (split_child_ok _ _ _ _ _ _ _ _ _ _ _ Hr Hlen Hc Hfull Hseps Hu)
    as (t1 & c1 & k & c2 & Heq & Hsp & Hstep).
  rewrite Heq. cbn [mbind out_bind].
  pose proof Hsp as [Hsep Hc1 Hc2 Hkvs Hf1 Hf2 Hch Hfi Hmv].
  pose proof (Hsplit _ _ _ Hsep Hc1 Hc2) as Hw'.
  destruct (cwf_route _ _ _ _ _ key (twf_bounded tg n) Hw' Hin)
    as (ks1' & ks2' & cs1' & c' & cs2' & lo'' & hi'' & R').
  pose proof (routed_lookup _ _ _ _ _ _ _ _ _ _ _ _ _ R') as Hlk'.
  pose proof (routed_lb _ _ _ _ _ _ _ _ _ _ _ _ _ R') as Hlb'.
  destruct (Hseps _ Hsep) as [Hk1 Hk2].
  pose proof (cwf_sorted _ _ _ _ _ Hw') as [_ Hu'].
  assert (Hc' : c' = if ble key k then c1 else c2).
  { destruct (ble_spec key k) as [Hle|Hgt].
    - rewrite (lower_bound_partition ks1 (k :: ks2)) in Hlk'; [|done|apply Hin|done|by constructor].
      rewrite <- Hlen, list_lookup_middle in Hlk' by done. congruence.
    - destruct (kle_total key k) as [|Hgt']; [done|].
      rewrite (cons_middle k), app_assoc in Hlk', Hu'.
      rewrite (lower_bound_partition (ks1 ++ [k]) ks2) in Hlk';
        [|done|apply Hin|by apply Forall_app; auto|done].
      rewrite (cons_middle c1), app_assoc, list_lookup_middle in Hlk'; [congruence|].
      rewrite !length_app. cbn. lia. }
  pose proof R' as [Hks' Hcs' Hlen' _ _ _ _ _ _ _ _ _ _ _ _].
  rewrite Hlb', Hcs', (tloc_lookup _ _ _ _ Hlen'). cbn [ix mbind out_bind].
  rewrite <- Hcs'. eexists _, ks1', ks2', cs1', c', cs2', lo'', hi''. cbv zeta.
  rewrite <- Hks', <- Hcs'. split; [done|]. split; [done|]. split_and!.
  - done.
  - rewrite length_app in Hfree |- *. cbn [length]. lia.
  - subst c'. by destruct (ble key k).
  - by eapply split_view.
  - rewrite Hmoved, Hc'. by apply Hmv.
Qed.

(** * Inside a leaf *)

(** Where a key stands in a leaf: found, or between two neighbours. *)
Record leaf_at (ks vs : list bytes) (key : bytes) (ks1 vs1 : list bytes) (found : option bytes)
    (ks2 vs2 : list bytes) : Prop := {
  la_ks : ks = ks1 ++ match found with Some _ => key :: ks2 | None => ks2 end;
  la_vs : vs = vs1 ++ match found with Some v => v :: vs2 | None => vs2 end;
  la_len1 : length ks1 = length vs1;
  la_len2 : length ks2 = length vs2;
  la_lb : lower_bound ks (heads_for ks) key = length ks1;
  la_lt : Forall (fun k => klt k key) ks1;
  la_gt : Forall (klt key) ks2;
}.

Lemma leaf_cases ks vs key :
  length ks = length vs -> ksorted ks -> Forall (Forall u8) ks -> Forall u8 key ->
  exists ks1 vs1 found ks2 vs2, leaf_at ks vs key ks1 vs1 found ks2 vs2.
Proof.
  intros Hlen Hs Hu Hk. destruct (lower_bound_split ks key Hs Hu Hk) as (ks1 & ks2 & -> & H1 & H2 & Hlb).
  apply ksorted_app in Hs as (_ & Hs2 & _). rewrite length_app in Hlen.
  rewrite <- (take_drop (length ks1) vs).
  assert (Hl1 : length ks1 = length (take (length ks1) vs)) by (rewrite length_take; lia).
  assert (Hl2 : length ks2 = length (drop (length ks1) vs)) by (rewrite length_drop; lia).
  destruct ks2 as [|k ks2].
  - exists ks1, (take (length ks1) vs), None, [], (drop (length ks1) vs). by split.
  - apply Forall_cons in H2 as [Hk2 H2]. inversion Hs2 as [|? ? _ Hgt]; subst.
    destruct Hk2 as [Hlt | ->].
    + exists ks1, (take (length ks1) vs), None, (k :: ks2), (drop (length ks1) vs). split; try done.
      constructor; [done|]. eapply Forall_impl; [exact Hgt|]. cbn. intros x ?. ko.
    + destruct (drop (length ks1) vs) as [|v vs2]; [done|].
      exists ks1, (take (length ks1) vs), (Some v), ks2, vs2. split; try done. by injection Hl2.
Qed.

Lemma Forall_zip_gt key ks vs : Forall (klt key) ks -> all_gt key (zip ks vs).
Proof. apply Forall_zip_fst. Qed.

Section leaf.
Context {ks vs : list bytes} {key : bytes} {ks1 vs1 : list bytes} {found : option bytes}.
Context {ks2 vs2 : list bytes}.
Hypothesis L : leaf_at ks vs key ks1 vs1 found ks2 vs2.

Lemma leaf_zip :
  zip ks vs = zip ks1 vs1 ++ match found with Some v => [(key, v)] | None => [] end ++ zip ks2 vs2.
Proof.
  destruct L as [-> -> Hl1 Hl2 _ _ _]. rewrite zip_with_app by done. f_equal. by destruct found.
Qed.

Lemma leaf_found : kv_lookup key (zip ks vs) = found.
Proof.
  rewrite leaf_zip. destruct L. rewrite kv_lookup_frame.
  - destruct found; [|done]. unfold kv_lookup. cbn. by rewrite bool_decide_eq_true_2.
  - by apply Forall_zip_fst with (P := fun k => klt k key).
  - by apply Forall_zip_gt.
Qed.

Lemma leaf_hit : bool_decide (ks !! lower_bound ks (heads_for ks) key = Some key) = bool_decide (found <> None).
Proof.
  destruct L as [Hks _ _ _ -> _ Hgt]. rewrite Hks. destruct found as [v|].
  - rewrite list_lookup_middle by done. by rewrite !bool_decide_eq_true_2.
  - rewrite lookup_app_r, Nat.sub_diag by lia. rewrite (bool_decide_eq_false_2 (None <> None)) by naive_solver.
    apply bool_decide_eq_false_2. intros H. destruct ks2 as [|k ks2']; [done|].
    injection H as ->. apply Forall_cons in Hgt as [Hgt _]. ko.
Qed.

Lemma leaf_inserted v :
  found = None -> zip (ks1 ++ key :: ks2) (vs1 ++ v :: vs2) = kv_insert key v (zip ks vs).
Proof.
  intros Hf. rewrite leaf_zip. destruct L as [_ _ Hl1 _ _ ? ?]. rewrite kv_insert_frame, Hf.
  - by rewrite zip_with_app by done.
  - by apply Forall_zip_fst with (P := fun k => klt k key).
  - by apply Forall_zip_gt.
Qed.

Lemma leaf_replaced v w :
  found = Some v -> zip ks (<[length ks1 := w]> vs) = kv_insert key w (zip ks vs).
Proof.
  intros Hf. rewrite leaf_zip. destruct L as [-> -> Hl1 Hl2 _ ? ?]. rewrite kv_insert_frame, Hf.
  - rewrite Hl1, insert_app_r_alt, Nat.sub_diag by lia. cbn.
    rewrite zip_with_app by done. cbn. unfold kv_insert, below, above. cbn.
    destruct (blt_spec key key) as [H|_]; [ko|done].
  - by apply Forall_zip_fst with (P := fun k => klt k key).
  - by apply Forall_zip_gt.
Qed.

Lemma leaf_removed v :
  found = Some v -> zip (ks1 ++ ks2) (vs1 ++ vs2) = kv_delete key (zip ks vs).
Proof.
  intros Hf. rewrite leaf_zip. destruct L as [_ _ Hl1 _ _ ? ?]. rewrite kv_delete_frame, Hf.
  - rewrite zip_with_app by done. unfold kv_delete, below, above. cbn.
    destruct (blt_spec key key) as [H|_]; [ko|done].
  - by apply Forall_zip_fst with (P := fun k => klt k key).
  - by apply Forall_zip_gt.
Qed.

Lemma leaf_sorted_insert : ksorted ks -> found = None -> ksorted (ks1 ++ key :: ks2).
Proof.
  intros Hs Hf. destruct L as [-> _ _ _ _ Hlt Hgt]. rewrite Hf in Hs.
  apply ksorted_app in Hs as (H1 & H2 & H3). apply ksorted_app. split_and!; [done|by constructor|].
  rewrite Forall_forall in Hlt, H3 |- *. intros x Hx. constructor; [by apply Hlt|by apply H3].
Qed.

Lemma leaf_sorted_remove v : ksorted ks -> found = Some v -> ksorted (ks1 ++ ks2).
Proof.
  intros Hs Hf. destruct L as [-> _ _ _ _ Hlt Hgt]. rewrite Hf in Hs.
  apply ksorted_app in Hs as (H1 & H2 & H3). inversion H2; subst. apply ksorted_app.
  split_and!; [done..|]. eapply Forall_impl; [exact H3|]. intros x Hx. by apply Forall_cons in Hx as [_ ?].
Qed.

End leaf.
