(* ===== verification/BTreeWrite.v ===== *)
(** Lookup, insertion, upsert and in-place update of the B+ tree as operations
    on its sorted entries, and when an insertion never returns. *)
From stdpp Require Import base list gmap sorting.
From Stdlib Require Import ZArith Lia.
From S2P Require Import Prelude Machine BTree BTreeRep BTreeOps.

#[local] Arguments take : simpl never.
#[local] Arguments drop : simpl never.
#[local] Arguments Nat.div : simpl never.
#[local] Arguments lower_bound : simpl never.
#[local] Arguments heads_for : simpl never.

(** * A well-formed tree *)

(** [t] represents the ghost tree [g] of depth [n], whose leaves are chained
    from left to right, and counts its entries.  [tg] asks for a tight tree. *)
Record btree_ok (tg : bool) (t : BTree) (n : nat) (g : tree) : Prop := {
  bo_rep : rep t g;
  bo_root : root t = tloc g;
  bo_wf : twf tg n None None g;
  bo_chain : chained (leaves g) None;
  bo_entries : entries t = wrap_u 64 (Zlen (kvs g));
}.

(** * Reads *)

Lemma twf_leaf tg lo hi g : twf tg 0 lo hi g -> exists l ks vs nx, g = TLeaf l ks vs nx /\
  length ks = length vs /\ ksorted ks /\ Forall (within lo hi) ks /\ Forall (Forall u8) ks /\
  (tg = true -> hi = None \/ last ks = hi).
Proof.
  destruct g as [l ks vs nx|]; [|by intros [_ []]]. intros (_ & ? & ? & Hw & ?).
  exists l, ks, vs, nx. split_and!; try done. eapply Forall_impl; [exact Hw|]. by intros x (_ & _ & ?).
Qed.

Lemma twf_node tg n lo hi g : twf tg (S n) lo hi g -> exists l ks cs, g = TNode l ks cs /\
  cwf (twf tg n) lo ks hi cs /\ (length ks <= MAX_KEYS)%nat.
Proof. destruct g as [|l ks cs]; [by intros [_ []]|]. intros (? & ?). by exists l, ks, cs. Qed.

Lemma get_loop_ok tg n fuel t g lo hi key :
  (n < fuel)%nat -> rep t g -> twf tg n lo hi g -> within lo hi key ->
  get_loop fuel t (tloc g) key = Ret (kv_lookup key (kvs g)).
Proof.
  revert fuel g lo hi. induction n as [|n IH]; intros [|fuel] g lo hi Hf Hr Hw Hin; try lia;
    cbn [get_loop]; rewrite (holds_lock _ _ (rep_holds _ _ Hr)); cbn [mbind out_bind].
  - destruct (twf_leaf _ _ _ _ Hw) as (l & ks & vs & nx & -> & Hlen & Hs & _ & Hu & _).
    cbn [tbody]. destruct (leaf_cases ks vs key Hlen Hs Hu ltac:(apply Hin))
      as (ks1 & vs1 & found & ks2 & vs2 & L).
    rewrite <- Hlen, Nat.min_id, (leaf_hit L). cbn [kvs]. rewrite (leaf_found L).
    destruct L as [-> -> Hl1 Hl2 -> _ _]. destruct found as [v|].
    + rewrite length_app. cbn [length]. rewrite !bool_decide_eq_true_2 by (done || lia). cbn.
      by rewrite Hl1, list_lookup_middle.
    + rewrite (bool_decide_eq_false_2 (None <> None)) by naive_solver. by rewrite andb_false_r.
  - destruct (twf_node _ _ _ _ _ Hw) as (l & ks & cs & -> & Hc & _). cbn [tbody].
    destruct (cwf_route _ _ _ _ _ key (twf_bounded tg n) Hc Hin)
      as (ks1 & ks2 & cs1 & c & cs2 & lo' & hi' & R).
    rewrite (routed_lb _ _ _ _ _ _ _ _ _ _ _ _ _ R). destruct R as [-> -> Hl _ _ _ Hcw Hic HL HR _ _ _ _ _].
    rewrite length_fmap, length_app. cbn [length].
    replace (min (length ks1) (length cs1 + S (length cs2) - 1)) with (length ks1) by lia.
    rewrite (tloc_lookup _ _ _ _ Hl). cbn [ix mbind out_bind].
    pose proof (rep_node _ _ _ _ _ _ Hr) as (Hrc & _).
    rewrite (IH fuel c lo' hi') by (done || lia). f_equal. cbn [kvs]. rewrite flat_map_mid.
    by rewrite kv_lookup_frame.
Qed.

(** * Writes below a node *)

(** The new subtree fits where the old one was. *)
Record kept (tg : bool) (n : nat) (lo hi : option bytes) (g g' : tree) : Prop := {
  kp_wf : twf tg n lo hi g';
  kp_chain : forall e, chained (leaves g) e -> chained (leaves g') e;
  kp_first : forall e, head_loc (leaves g') e = head_loc (leaves g) e;
}.

Lemma kept_refl tg n lo hi g : twf tg n lo hi g -> kept tg n lo hi g g.
Proof. by split. Qed.

Lemma kept_child tg n lo hi g l ks1 ks2 cs1 c cs2 lo' hi' key c' :
  same_view g (TNode l (ks1 ++ ks2) (cs1 ++ c :: cs2)) ->
  routed (twf tg n) lo (ks1 ++ ks2) hi (cs1 ++ c :: cs2) key ks1 ks2 cs1 c cs2 lo' hi' ->
  (length (ks1 ++ ks2) <= MAX_KEYS)%nat -> kept tg n lo' hi' c c' ->
  kept tg (S n) lo hi g (TNode l (ks1 ++ ks2) (cs1 ++ c' :: cs2)).
Proof.
  intros [_ Hc Hf] R Hlen [Hw' Hc' Hf']. split; [split; [done|]|..].
  - by apply R.
  - intros e He. apply Hc in He. revert He. cbn [leaves]. rewrite !flat_map_mid, !chained_app, !head_loc_app.
    rewrite Hf'. naive_solver.
  - intros e. rewrite <- Hf. cbn [leaves]. rewrite !flat_map_mid, !head_loc_app. by rewrite Hf'.
Qed.

(** A leaf with other keys and values in the same place. *)
Lemma kept_leaf tg lo hi l ks vs nx ks' vs' :
  length ks' = length vs' -> ksorted ks' -> Forall (within lo hi) ks' ->
  (length ks' <= MAX_KEYS)%nat -> (tg = true -> hi = None \/ last ks' = hi) -> kept tg 0 lo hi (TLeaf l ks vs nx) (TLeaf l ks' vs' nx).
Proof. intros. by split. Qed.

Lemma routed_frame tg n lo hi l ks1 ks2 cs1 c cs2 lo' hi' key c' :
  routed (twf tg n) lo (ks1 ++ ks2) hi (cs1 ++ c :: cs2) key ks1 ks2 cs1 c cs2 lo' hi' ->
  kv_lookup key (kvs (TNode l (ks1 ++ ks2) (cs1 ++ c :: cs2))) = kv_lookup key (kvs c) /\
  (forall v, kvs c' = kv_insert key v (kvs c) ->
     kvs (TNode l (ks1 ++ ks2) (cs1 ++ c' :: cs2)) =
     kv_insert key v (kvs (TNode l (ks1 ++ ks2) (cs1 ++ c :: cs2)))) /\
  (kvs c' = kv_delete key (kvs c) ->
     kvs (TNode l (ks1 ++ ks2) (cs1 ++ c' :: cs2)) =
     kv_delete key (kvs (TNode l (ks1 ++ ks2) (cs1 ++ c :: cs2)))) /\
  (kvs c' = kvs c -> kvs (TNode l (ks1 ++ ks2) (cs1 ++ c' :: cs2)) =
                     kvs (TNode l (ks1 ++ ks2) (cs1 ++ c :: cs2))).
Proof.
  intros R. cbn [kvs]. rewrite !flat_map_mid. destruct R. split_and!.
  - by apply kv_lookup_frame.
  - intros v ->. by rewrite kv_insert_frame.
  - intros ->. by rewrite kv_delete_frame.
  - by intros ->.
Qed.

(** What a write descent can do: start over from an unchanged set of entries,
    or finish with the entries [f] and the result [r]. *)
Definition descent_post {A} (n : nat) (g g' : tree) (key : bytes) (d : Descend A)
    (r : A) (f : list (bytes * bytes)) (stuck : Prop) : Prop :=
  (stuck /\ d = Restart /\ kvs g' = kvs g /\ moved n g' key) \/
  (~ stuck /\ d = Done r /\ kvs g' = f).

(** A key that is not in a leaf goes in where the search ended. *)
Lemma leaf_insert_ok tg t l ks vs nx key val lo hi ks1 vs1 ks2 vs2 :
  rep t (TLeaf l ks vs nx) -> ksorted ks -> Forall (within lo hi) ks -> within lo hi key ->
  (length ks < MAX_KEYS)%nat -> (tg = true -> hi = None \/ last ks = hi) ->
  leaf_at ks vs key ks1 vs1 None ks2 vs2 ->
  exists g', step_ok t (TLeaf l ks vs nx) (leaf_insert t l ks (heads_for ks) vs nx key val) g' /\
    kept tg 0 lo hi (TLeaf l ks vs nx) g' /\ kvs g' = kv_insert key val (zip ks vs).
Proof.
  intros Hr Hs Hwi Hin Hfree Htg L. exists (TLeaf l (ks1 ++ key :: ks2) (vs1 ++ val :: vs2) nx).
  pose proof (leaf_sorted_insert L Hs eq_refl) as Hs'.
  pose proof (leaf_inserted L val eq_refl) as Hz.
  destruct L as [-> -> Hl1 Hl2 Hlb Hlt _]. split_and!.
  - unfold leaf_insert. rewrite Hlb. rewrite heads_for_app, !vinsert_app; [|done|by rewrite length_heads_for|done].
    change (key_head key :: heads_for ks2) with (heads_for (key :: ks2)). rewrite <- heads_for_app.
    by apply step_leaf.
  - apply kept_leaf; [|done|..].
    + rewrite !length_app. cbn. lia.
    + rewrite Forall_app, Forall_cons in *. tauto.
    + rewrite length_app in *. cbn. lia.
    + intros Ht. destruct (Htg Ht) as [?|Hl]; [by left|]. destruct hi as [b|]; [|by left]. right.
      destruct ks2 as [|k ks2]; [|by rewrite !last_app_cons in *].
      rewrite app_nil_r in Hl. apply last_Some in Hl as [? ->].
      rewrite Forall_app, Forall_cons in Hlt. destruct Hlt as (_ & ? & _), Hin as (_ & Hle & _).
      cbn in Hle. ko.
  - done.
Qed.

(** The entries of a node after a write into the child the key goes to. *)
Lemma descent_child {A} tg n lo hi g l ks1 ks2 cs1 c cs2 lo' hi' key c' (d : Descend A) r F stuck :
  same_view g (TNode l (ks1 ++ ks2) (cs1 ++ c :: cs2)) ->
  routed (twf tg n) lo (ks1 ++ ks2) hi (cs1 ++ c :: cs2) key ks1 ks2 cs1 c cs2 lo' hi' ->
  kept tg n lo' hi' c c' ->
  (forall a m b, all_lt key a -> all_gt key b -> F (a ++ m ++ b) = a ++ F m ++ b) ->
  descent_post n c c' key d r (F (kvs c)) stuck ->
  descent_post (S n) g (TNode l (ks1 ++ ks2) (cs1 ++ c' :: cs2)) key d r (F (kvs g)) stuck.
Proof.
  intros [Hv _ _] R Hk HF H. pose proof (routed_lb _ _ _ _ _ _ _ _ _ _ _ _ _ R) as Hlb.
  destruct R as [_ _ Hlen _ _ _ _ _ HL HR _ _ _ _ _]. unfold descent_post. rewrite <- Hv. cbn [kvs].
  rewrite !flat_map_mid, HF by done. destruct H as [(? & ? & Hkv & Hm)|(? & ? & Hkv)]; [left|right].
  - split_and!; [done|done|by rewrite Hkv|]. cbn [moved]. by rewrite Hlb, <- Hlen, list_lookup_middle.
  - split_and!; [done|done|by rewrite Hkv].
Qed.

(** The entries after an insertion that keeps an existing key. *)
Definition kv_put (key val : bytes) (l : list (bytes * bytes)) : list (bytes * bytes) :=
  match kv_lookup key l with Some _ => l | None => kv_insert key val l end.

Lemma kv_put_frame key val a m b :
  all_lt key a -> all_gt key b -> kv_put key val (a ++ m ++ b) = a ++ kv_put key val m ++ b.
Proof.
  intros. unfold kv_put. rewrite kv_lookup_frame, kv_insert_frame by done. by destruct (kv_lookup key m).
Qed.

Lemma insert_rec_ok tg n fuel t g lo hi key val :
  (n < fuel)%nat -> rep t g -> twf tg n lo hi g -> within lo hi key ->
  (length (tkeys g) < MAX_KEYS)%nat ->
  exists t' g' d, insert_rec fuel t (tloc g) key val = Ret (t', d) /\
    step_ok t g t' g' /\ kept tg n lo hi g g' /\
    descent_post n g g' key d (bool_decide (kv_lookup key (kvs g) = None)) (kv_put key val (kvs g))
      (moved n g key).
Proof.
  revert fuel t g lo hi. induction n as [|n IH]; intros [|fuel] t g lo hi Hf Hr Hw Hin Hfree; try lia;
    cbn [insert_rec]; rewrite (holds_lock _ _ (rep_holds _ _ Hr)); cbn [mbind out_bind].
  - destruct (twf_leaf _ _ _ _ Hw) as (l & ks & vs & nx & -> & Hlen & Hs & Hwi & Hu & Htg).
    cbn [tbody tloc]. cbn [tkeys] in Hfree. rewrite bool_decide_eq_false_2 by lia. cbn [moved].
    destruct (moved_right ks nx key) eqn:Hm.
    { exists t, (TLeaf l ks vs nx), Restart. split; [done|]. split; [by apply step_refl|].
      split; [by apply kept_refl|]. by left. }
    destruct (leaf_cases ks vs key Hlen Hs Hu ltac:(apply Hin)) as (ks1 & vs1 & found & ks2 & vs2 & L).
    rewrite (leaf_hit L). cbn [kvs]. unfold kv_put. rewrite (leaf_found L). destruct found as [v|].
    { rewrite bool_decide_eq_true_2 by done. exists t, (TLeaf l ks vs nx), (Done false).
      split; [done|]. split; [by apply step_refl|]. split; [by apply kept_refl|]. by right. }
    rewrite bool_decide_eq_false_2 by naive_solver.
    destruct (leaf_insert_ok tg t l ks vs nx key val lo hi _ _ _ _ Hr Hs Hwi Hin Hfree Htg L) as (g' & ? & ? & ?).
    eexists _, g', _. split; [done|]. split; [done|]. split; [done|]. by right.
  - destruct (twf_node _ _ _ _ _ Hw) as (l & ks & cs & -> & Hc & _). cbn [tbody tloc].
    destruct (route_ok tg n t l ks cs lo hi key Hr Hw Hin Hfree)
      as (t1 & ks1 & ks2 & cs1 & c & cs2 & lo' & hi' & Hrt & Hst & R & Hlen & Hcf & Hsv & Hm).
    rewrite Hrt. cbn [mbind out_bind]. pose proof (rep_node _ _ _ _ _ _ (so_rep _ _ _ _ Hst)) as (Hrc & _).
    destruct (IH fuel t1 c lo' hi' ltac:(lia) Hrc ltac:(apply R) ltac:(apply R) Hcf)
      as (t' & c' & d & Heq & Hst' & Hk & Hd).
    exists t', (TNode l (ks1 ++ ks2) (cs1 ++ c' :: cs2)), d. split; [done|]. split; [|split].
    + eapply step_trans; [exact Hst|]. apply step_child; [apply Hst|done].
    + by eapply kept_child.
    + destruct (routed_frame tg n lo hi l _ _ _ _ _ _ _ _ c' R) as (Hlk & _).
      rewrite <- (sv_kvs _ _ Hsv), Hlk, (sv_kvs _ _ Hsv).
      eapply descent_child; [done|done|done|intros; by apply kv_put_frame|].
      unfold descent_post in *. rewrite <- Hm. done.
Qed.

(** Replacing the value of a key that is in the leaf. *)
Lemma leaf_replace_ok tg t l ks vs nx key val lo hi ks1 vs1 v ks2 vs2 :
  rep t (TLeaf l ks vs nx) -> twf tg 0 lo hi (TLeaf l ks vs nx) ->
  leaf_at ks vs key ks1 vs1 (Some v) ks2 vs2 ->
  vs !! lower_bound ks (heads_for ks) key = Some v /\
  exists g', step_ok t (TLeaf l ks vs nx)
      (set_body t l (Leaf ks (heads_for ks) (<[lower_bound ks (heads_for ks) key := val]> vs) nx)) g' /\
    kept tg 0 lo hi (TLeaf l ks vs nx) g' /\ kvs g' = kv_insert key val (zip ks vs).
Proof.
  intros Hr (Hmax & Hlen & Hs & Hwi & Htg) L. rewrite (la_lb _ _ _ _ _ _ _ _ L). split.
  - destruct L as [_ -> -> _ _ _ _]. by apply list_lookup_middle.
  - exists (TLeaf l ks (<[length ks1 := val]> vs) nx). split_and!.
    + by apply step_leaf.
    + apply kept_leaf; try done. by rewrite length_insert.
    + cbn [kvs]. by apply (leaf_replaced L v).
Qed.

(** A leaf that holds the key does not send a writer away. *)
Lemma found_not_moved ks vs nx key v :
  length ks = length vs -> ksorted ks -> Forall (Forall u8) ks -> Forall u8 key ->
  kv_lookup key (zip ks vs) = Some v -> moved_right ks nx key = false.
Proof.
  intros Hlen Hs Hu Hk Hf. destruct (leaf_cases ks vs key Hlen Hs Hu Hk) as (ks1 & vs1 & found & ks2 & vs2 & L).
  rewrite (leaf_found L) in Hf. subst found. apply (moved_right_false _ _ _ key Hs); [|by right].
  destruct L as [-> _ _ _ _ _ _]. apply elem_of_app. right. left.
Qed.

Lemma upsert_rec_ok tg n fuel t g lo hi key val :
  (n < fuel)%nat -> rep t g -> twf tg n lo hi g -> within lo hi key ->
  (length (tkeys g) < MAX_KEYS)%nat ->
  exists t' g' d, upsert_rec fuel t (tloc g) key val = Ret (t', d) /\
    step_ok t g t' g' /\ kept tg n lo hi g g' /\
    descent_post n g g' key d (kv_lookup key (kvs g)) (kv_insert key val (kvs g)) (moved n g key).
Proof.
  revert fuel t g lo hi. induction n as [|n IH]; intros [|fuel] t g lo hi Hf Hr Hw Hin Hfree; try lia;
    cbn [upsert_rec]; rewrite (holds_lock _ _ (rep_holds _ _ Hr)); cbn [mbind out_bind].
  - destruct (twf_leaf _ _ _ _ Hw) as (l & ks & vs & nx & -> & Hlen & Hs & Hwi & Hu & Htg).
    cbn [tbody tloc]. cbn [tkeys] in Hfree.
    destruct (leaf_cases ks vs key Hlen Hs Hu ltac:(apply Hin)) as (ks1 & vs1 & found & ks2 & vs2 & L).
    rewrite (leaf_hit L). cbn [kvs]. pose proof (leaf_found L) as Hfd. rewrite Hfd. destruct found as [v|].
    { rewrite bool_decide_eq_true_2 by done.
      destruct (leaf_replace_ok tg t l ks vs nx key val lo hi _ _ _ _ _ Hr Hw L) as (Hv & g' & ? & ? & ?).
      rewrite Hv. cbn [ix mbind out_bind]. eexists _, g', _. split; [done|]. split; [done|]. split; [done|].
      right. cbn [moved]. rewrite (found_not_moved _ _ _ _ _ Hlen Hs Hu ltac:(apply Hin) Hfd). done. }
    rewrite !bool_decide_eq_false_2 by (lia || naive_solver). cbn [moved].
    destruct (moved_right ks nx key) eqn:Hm.
    { exists t, (TLeaf l ks vs nx), Restart. split; [done|]. split; [by apply step_refl|].
      split; [by apply kept_refl|]. by left. }
    destruct (leaf_insert_ok tg t l ks vs nx key val lo hi _ _ _ _ Hr Hs Hwi Hin Hfree Htg L)
      as (g' & ? & ? & ?).
    eexists _, g', _. split; [done|]. split; [done|]. split; [done|]. by right.
  - destruct (twf_node _ _ _ _ _ Hw) as (l & ks & cs & -> & Hc & _). cbn [tbody tloc].
    destruct (route_ok tg n t l ks cs lo hi key Hr Hw Hin Hfree)
      as (t1 & ks1 & ks2 & cs1 & c & cs2 & lo' & hi' & Hrt & Hst & R & Hlen & Hcf & Hsv & Hm).
    rewrite Hrt. cbn [mbind out_bind]. pose proof (rep_node _ _ _ _ _ _ (so_rep _ _ _ _ Hst)) as (Hrc & _).
    destruct (IH fuel t1 c lo' hi' ltac:(lia) Hrc ltac:(apply R) ltac:(apply R) Hcf)
      as (t' & c' & d & Heq & Hst' & Hk & Hd).
    exists t', (TNode l (ks1 ++ ks2) (cs1 ++ c' :: cs2)), d. split; [done|]. split; [|split].
    + eapply step_trans; [exact Hst|]. apply step_child; [apply Hst|done].
    + by eapply kept_child.
    + destruct (routed_frame tg n lo hi l _ _ _ _ _ _ _ _ c' R) as (Hlk & _).
      rewrite <- (sv_kvs _ _ Hsv), Hlk, (sv_kvs _ _ Hsv).
      eapply descent_child; [done|done|done|intros; by apply kv_insert_frame|].
      unfold descent_post in *. rewrite <- Hm. done.
Qed.

(** * The whole tree *)

Lemma root_bounds key : Forall u8 key -> within None None key.
Proof. intros ?. by split_and!. Qed.

(** Counters other than [entries] are free. *)
Lemma btree_ok_same tg t t' n g :
  store t' = store t -> brk t' = brk t -> root t' = root t -> entries t' = entries t ->
  btree_ok tg t n g -> btree_ok tg t' n g.
Proof.
  intros Hs Hb Hr He []. split; try done; try congruence. by eapply rep_store.
Qed.

(** The tree after a step that replaced the root's subtree. *)
Lemma btree_ok_step tg t n g t' g' :
  btree_ok tg t n g -> step_ok t g t' g' -> kept tg n None None g g' -> kvs g' = kvs g ->
  btree_ok tg t' n g'.
Proof.
  intros [? Hrt ? Hc He] [? Hl ? ? ? Hr' He'] [? Hc' _] Hk.
  split; [done|by rewrite Hr', Hl|done|by apply Hc'|by rewrite He', Hk].
Qed.

Lemma wrap_root_ok tg t n g :
  btree_ok tg t n g ->
  exists w, wrap_root t = Ret w /\
    match w with
    | None => (length (tkeys g) < MAX_KEYS)%nat
    | Some t' => (MAX_KEYS <= length (tkeys g))%nat /\ exists g', btree_ok tg t' (S n) g' /\ kvs g' = kvs g /\ tkeys g' = [] /\
        (forall key, moved (S n) g' key <-> moved n g key)
    end.
Proof.
  intros [Hr Hrt Hw Hc He]. unfold wrap_root. rewrite Hrt, (key_count_ok _ _ (rep_holds _ _ Hr)).
  cbn [mbind out_bind]. case_bool_decide as Hfull; [|exists None; split; [done|lia]].
  pose proof (fun x => rep_locs_lt _ _ x Hr) as Hlt.
  eexists. split; [done|]. split; [done|]. exists (TNode (brk t) [] [g]). split_and!.
  - split; cbn [bump_splits set_root store brk root entries new_internal with_body].
    + split; cbn [store brk].
      * apply holds_node. split; [cbn; by rewrite lookup_insert_eq|]. constructor; [|done].
        apply (holds_ext t); [|apply Hr]. intros x Hx. apply Hlt in Hx. cbn.
        by rewrite lookup_insert_ne by lia.
      * rewrite locs_node. cbn. rewrite app_nil_r. apply NoDup_cons. split; [|apply Hr].
        intros Hx. apply Hlt in Hx. lia.
      * intros x Hx. cbn in Hx |- *. rewrite lookup_insert_ne by lia. apply Hr. lia.
    + done.
    + split; [cbn; unfold MAX_KEYS; lia|done].
    + cbn. by rewrite app_nil_r.
    + cbn. by rewrite app_nil_r.
  - cbn. by rewrite app_nil_r.
  - done.
  - done.
Qed.

(** An insertion whose key is routed to a leaf that sends it away starts over
    for ever. *)
Lemma insert_moved tg fuel t n g key val :
  btree_ok tg t n g -> Forall u8 key -> moved n g key -> insert fuel t key val = Fuel.
Proof.
  intros Hok Hk. revert t n g Hok. induction fuel as [|fuel IH]; intros t n g Hok Hm; [done|].
  cbn [insert]. destruct (wrap_root_ok _ _ _ _ Hok) as (w & -> & Hw). cbn [mbind out_bind].
  destruct w as [t'|].
  - destruct Hw as (_ & g' & Hok' & _ & _ & Hm'). eapply IH; [done|]. by apply Hm'.
  - pose proof Hok as [Hr -> Hwf Hc _].
    destruct (insert_rec_ok tg n (depth_fuel t) t g None None key val) as (t' & g' & d & -> & Hst & Hkp & Hd);
      [by eapply depth_fuel_enough|done|done|by apply root_bounds|done|].
    cbn [mbind out_bind]. destruct Hd as [(_ & -> & Hkv & Hm')|[]]; [|done].
    eapply IH; [|done]. by eapply btree_ok_step.
Qed.

Lemma upsert_moved tg fuel t n g key val :
  btree_ok tg t n g -> Forall u8 key -> moved n g key -> upsert fuel t key val = Fuel.
Proof.
  intros Hok Hk. revert t n g Hok. induction fuel as [|fuel IH]; intros t n g Hok Hm; [done|].
  cbn [upsert]. destruct (wrap_root_ok _ _ _ _ Hok) as (w & -> & Hw). cbn [mbind out_bind].
  destruct w as [t'|].
  - destruct Hw as (_ & g' & Hok' & _ & _ & Hm'). eapply IH; [done|]. by apply Hm'.
  - pose proof Hok as [Hr -> Hwf Hc _].
    destruct (upsert_rec_ok tg n (depth_fuel t) t g None None key val) as (t' & g' & d & -> & Hst & Hkp & Hd);
      [by eapply depth_fuel_enough|done|done|by apply root_bounds|done|].
    cbn [mbind out_bind]. destruct Hd as [(_ & -> & Hkv & Hm')|[]]; [|done].
    eapply IH; [|done]. by eapply btree_ok_step.
Qed.

Lemma kv_insert_length key v l :
  kv_lookup key l = None -> Zlen (kv_insert key v l) = Zlen l + 1.
Proof.
  intros H. unfold kv_insert. rewrite Zlen_app, Zlen_cons.
  assert (Zlen (below key l) + Zlen (above key l) = Zlen l); [|lia].
  unfold kv_lookup in H. induction l as [|[k w] l IH]; [done|]. cbn in H.
  case_bool_decide as Hk; [done|]. specialize (IH H). unfold below, above in *. cbn [List.filter fst].
  destruct (blt_spec k key), (blt_spec key k); rewrite ?Zlen_cons; try lia; [ko|].
  destruct (klt_total k key) as [?|[?|?]]; done.
Qed.

Lemma kv_insert_length_found key v w l :
  kv_lookup key l = Some w -> ksorted l.*1 -> Zlen (kv_insert key v l) = Zlen l.
Proof.
  intros H Hs. unfold kv_insert. rewrite Zlen_app, Zlen_cons.
  assert (Zlen (below key l) + Zlen (above key l) + 1 = Zlen l); [|lia].
  unfold kv_lookup, below, above in *. induction l as [|[k x] l IH]; [done|]. cbn [List.find fst] in H.
  cbn [fmap list_fmap fst] in Hs. inversion Hs as [|? ? Hs' Hall]; subst. cbn [List.filter fst].
  case_bool_decide as Hk.
  - subst k. destruct (blt_spec key key); [ko|]. rewrite filter_none, filter_id, Zlen_cons; [cbn; lia|..].
    + rewrite Forall_fmap in Hall. eapply Forall_impl; [exact Hall|]. cbn. intros y Hy.
      by destruct (blt_spec key y.1).
    + rewrite Forall_fmap in Hall. eapply Forall_impl; [exact Hall|]. cbn. intros y Hy.
      destruct (blt_spec y.1 key); [ko|done].
  - specialize (IH H Hs'). destruct (blt_spec k key), (blt_spec key k); rewrite ?Zlen_cons; try lia; [ko|].
    destruct (klt_total k key) as [?|[?|?]]; done.
Qed.

(** The entries of a tree are in key order. *)
Lemma kvs_sorted tg n lo hi g : twf tg n lo hi g -> ksorted (kvs g).*1.
Proof.
  revert lo hi g. induction n as [|n IH]; intros lo hi g Hw.
  - destruct (twf_leaf _ _ _ _ Hw) as (l & ks & vs & nx & -> & Hlen & Hs & _). cbn [kvs].
    rewrite fst_zip; [done|lia].
  - destruct (twf_node _ _ _ _ _ Hw) as (l & ks & cs & -> & Hc & _). cbn [kvs]. clear Hw.
    revert lo cs Hc. induction ks as [|k ks IHk]; intros lo [|c cs] Hc; cbn in Hc; try done.
    + destruct cs; [|done]. cbn. rewrite app_nil_r. by eapply IH.
    + destruct Hc as (Hk & Hcw & Hc). cbn [flat_map]. rewrite fmap_app. apply ksorted_app.
      split_and!; [by eapply IH|by eapply IHk|].
      pose proof (twf_bounded _ _ _ _ _ Hcw) as H1.
      pose proof (cwf_kvs _ _ _ _ _ (twf_bounded tg n) Hc) as H2.
      apply Forall_fmap. eapply Forall_impl; [exact H1|]. intros x (_ & Hx & _).
      apply Forall_fmap. eapply Forall_impl; [exact H2|]. intros y (Hy & _). cbn in *. ko.
Qed.

Lemma wrap_u64_add a b : wrap_u 64 (wrap_u 64 a + b) = wrap_u 64 (a + b).
Proof. unfold wrap_u. apply Zplus_mod_idemp_l. Qed.

Lemma btree_ok_put tg t n g t' g' d :
  btree_ok tg t n g -> step_ok t g t' g' -> kept tg n None None g g' -> Zlen (kvs g') = Zlen (kvs g) + d ->
  btree_ok tg (if d =? 0 then t' else add_entries d t') n g'.
Proof.
  intros [? Hrt ? Hc He] [? Hl ? ? ? Hr' He'] [? Hc' _] Hk.
  destruct (Z.eqb_spec d 0) as [->|_].
  - split; [done|by rewrite Hr', Hl|done|by apply Hc'|]. by rewrite He', He, Hk, Z.add_0_r.
  - split; [by apply (rep_store t')|cbn; congruence|done|by apply Hc'|].
    cbn [add_entries entries]. by rewrite He', He, wrap_u64_add, Hk.
Qed.

(** Otherwise one descent, after at most one wrapping of the root, is enough. *)
Lemma insert_once tg fuel t n g key val :
  btree_ok tg t n g -> Forall u8 key -> ~ moved n g key -> (length (tkeys g) < MAX_KEYS)%nat ->
  exists t' g', insert (S fuel) t key val = Ret (t', bool_decide (kv_lookup key (kvs g) = None)) /\
    btree_ok tg t' n g' /\ kvs g' = kv_put key val (kvs g).
Proof.
  intros Hok Hk Hm Hfree. cbn [insert].
  destruct (wrap_root_ok _ _ _ _ Hok) as (w & -> & Hw). cbn [mbind out_bind].
  destruct w as [t1|]; [destruct Hw as [? _]; lia|]. pose proof Hok as [Hr Hrt Hwf _ _].
  destruct (insert_rec_ok tg n (depth_fuel t) t g None None key val) as (t' & g' & d & Heq & Hst & Hkp & Hd);
    [by eapply depth_fuel_enough|done|done|by apply root_bounds|done|].
  rewrite Hrt, Heq. cbn [mbind out_bind]. destruct Hd as [[? _]|(_ & -> & Hkv)]; [done|].
  eexists _, g'. split; [done|]. split; [|done]. unfold kv_put in Hkv.
  destruct (kv_lookup key (kvs g)) as [v|] eqn:Hlk.
  - rewrite bool_decide_eq_false_2 by done. apply (btree_ok_put tg t n g t' g' 0); try done.
    by rewrite Hkv, Z.add_0_r.
  - rewrite bool_decide_eq_true_2 by done. apply (btree_ok_put tg t n g t' g' 1); try done.
    by rewrite Hkv, kv_insert_length.
Qed.

Lemma insert_done tg fuel t n g key val :
  btree_ok tg t n g -> Forall u8 key -> ~ moved n g key -> (2 <= fuel)%nat ->
  exists t' n' g', insert fuel t key val = Ret (t', bool_decide (kv_lookup key (kvs g) = None)) /\
    btree_ok tg t' n' g' /\ kvs g' = kv_put key val (kvs g).
Proof.
  intros Hok Hk Hm Hf. destruct fuel as [|[|fuel]]; [lia..|].
  destruct (decide (length (tkeys g) < MAX_KEYS)%nat) as [Hfree|Hfull].
  { destruct (insert_once tg (S fuel) t n g key val) as (t' & g' & ? & ? & ?); [done..|]. by exists t', n, g'. }
  cbn [insert]. destruct (wrap_root_ok _ _ _ _ Hok) as (w & -> & Hw). cbn [mbind out_bind].
  destruct w as [t1|]; [|lia]. destruct Hw as (_ & g1 & Hok1 & Hkv & Hnil & Hm1).
  destruct (insert_once tg fuel t1 (S n) g1 key val) as (t' & g' & Heq & ? & ?);
    [done|done|by rewrite Hm1|rewrite Hnil; cbn; unfold MAX_KEYS; lia|].
  exists t', (S n), g'. by rewrite <- Hkv.
Qed.

Lemma upsert_once tg fuel t n g key val :
  btree_ok tg t n g -> Forall u8 key -> ~ moved n g key -> (length (tkeys g) < MAX_KEYS)%nat ->
  exists t' g', upsert (S fuel) t key val = Ret (t', kv_lookup key (kvs g)) /\
    btree_ok tg t' n g' /\ kvs g' = kv_insert key val (kvs g).
Proof.
  intros Hok Hk Hm Hfree. cbn [upsert].
  destruct (wrap_root_ok _ _ _ _ Hok) as (w & -> & Hw). cbn [mbind out_bind].
  destruct w as [t1|]; [destruct Hw as [? _]; lia|]. pose proof Hok as [Hr Hrt Hwf _ _].
  destruct (upsert_rec_ok tg n (depth_fuel t) t g None None key val) as (t' & g' & d & Heq & Hst & Hkp & Hd);
    [by eapply depth_fuel_enough|done|done|by apply root_bounds|done|].
  rewrite Hrt, Heq. cbn [mbind out_bind]. destruct Hd as [[? _]|(_ & -> & Hkv)]; [done|].
  eexists _, g'. split; [done|]. split; [|done].
  destruct (kv_lookup key (kvs g)) as [v|] eqn:Hlk.
  - apply (btree_ok_put tg t n g t' g' 0); try done. rewrite Hkv, Z.add_0_r.
    eapply kv_insert_length_found; [done|by eapply kvs_sorted].
  - apply (btree_ok_put tg t n g t' g' 1); try done. by rewrite Hkv, kv_insert_length.
Qed.

Lemma upsert_done tg fuel t n g key val :
  btree_ok tg t n g -> Forall u8 key -> ~ moved n g key -> (2 <= fuel)%nat ->
  exists t' n' g', upsert fuel t key val = Ret (t', kv_lookup key (kvs g)) /\
    btree_ok tg t' n' g' /\ kvs g' = kv_insert key val (kvs g).
Proof.
  intros Hok Hk Hm Hf. destruct fuel as [|[|fuel]]; [lia..|].
  destruct (decide (length (tkeys g) < MAX_KEYS)%nat) as [Hfree|Hfull].
  { destruct (upsert_once tg (S fuel) t n g key val) as (t' & g' & ? & ? & ?); [done..|]. by exists t', n, g'. }
  cbn [upsert]. destruct (wrap_root_ok _ _ _ _ Hok) as (w & -> & Hw). cbn [mbind out_bind].
  destruct w as [t1|]; [|lia]. destruct Hw as (_ & g1 & Hok1 & Hkv & Hnil & Hm1).
  destruct (upsert_once tg fuel t1 (S n) g1 key val) as (t' & g' & Heq & ? & ?);
    [done|done|by rewrite Hm1|rewrite Hnil; cbn; unfold MAX_KEYS; lia|].
  exists t', (S n), g'. by rewrite <- Hkv.
Qed.

(** In a tight tree no key is routed to a leaf that sends it away. *)
Lemma tight_not_moved n lo hi g e key :
  twf true n lo hi g -> chained (leaves g) e -> (hi = None -> e = None) -> within lo hi key ->
  ~ moved n g key.
Proof.
  revert lo hi g e. induction n as [|n IH]; intros lo hi g e Hw Hc He Hin.
  - destruct (twf_leaf _ _ _ _ Hw) as (l & ks & vs & nx & -> & _ & _ & _ & _ & Htg).
    cbn in Hc |- *. destruct Hc as [-> _]. unfold moved_right. destruct (Htg eq_refl) as [Hn|Hl].
    + rewrite (He Hn). rewrite (bool_decide_eq_false_2 (None <> None)) by naive_solver. done.
    + rewrite Hl. destruct hi as [b|]; [|by rewrite andb_false_r].
      destruct (blt_spec b key); [|by rewrite andb_false_r].
      destruct Hin as (_ & Hin & _). cbn in Hin. intros _. ko.
  - destruct (twf_node _ _ _ _ _ Hw) as (l & ks & cs & -> & Hcw & _).
    destruct (cwf_route _ _ _ _ _ key (twf_bounded true n) Hcw Hin)
      as (ks1 & ks2 & cs1 & c & cs2 & lo' & hi' & R).
    cbn [moved]. rewrite (routed_lookup _ _ _ _ _ _ _ _ _ _ _ _ _ R).
    destruct R as [-> -> _ _ _ _ Hcc Hic _ _ _ Hhi _ _ _]. cbn [leaves] in Hc.
    rewrite flat_map_mid, !chained_app in Hc. destruct Hc as (_ & Hc & _).
    eapply IH; [exact Hcc|exact Hc| |done]. intros Hn. destruct (Hhi Hn) as [-> Hn']. by apply He.
Qed.

(** * In-place update *)

(** The entries after a write that needs the key to be there. *)
Definition kv_replace (key val : bytes) (l : list (bytes * bytes)) : list (bytes * bytes) :=
  match kv_lookup key l with Some _ => kv_insert key val l | None => l end.

Lemma update_in_place_rec_ok tg n fuel t g lo hi key val :
  (n < fuel)%nat -> rep t g -> twf tg n lo hi g -> within lo hi key ->
  exists t' g', update_in_place_rec fuel t (tloc g) key val = Ret (t', kv_lookup key (kvs g)) /\
    step_ok t g t' g' /\ kept tg n lo hi g g' /\ kvs g' = kv_replace key val (kvs g).
Proof.
  revert fuel t g lo hi. induction n as [|n IH]; intros [|fuel] t g lo hi Hf Hr Hw Hin; try lia;
    cbn [update_in_place_rec]; rewrite (holds_lock _ _ (rep_holds _ _ Hr)); cbn [mbind out_bind].
  - destruct (twf_leaf _ _ _ _ Hw) as (l & ks & vs & nx & -> & Hlen & Hs & Hwi & Hu & Htg).
    cbn [tbody tloc].
    destruct (leaf_cases ks vs key Hlen Hs Hu ltac:(apply Hin)) as (ks1 & vs1 & found & ks2 & vs2 & L).
    rewrite (leaf_hit L). cbn [kvs]. unfold kv_replace. rewrite (leaf_found L). destruct found as [v|].
    + rewrite bool_decide_eq_true_2 by done.
      destruct (leaf_replace_ok tg t l ks vs nx key val lo hi _ _ _ _ _ Hr Hw L) as (Hv & g' & ? & ? & ?).
      rewrite Hv. cbn [ix mbind out_bind]. by eexists _, g'.
    + rewrite bool_decide_eq_false_2 by naive_solver. exists t, (TLeaf l ks vs nx).
      split; [done|]. split; [by apply step_refl|]. split; [by apply kept_refl|done].
  - destruct (twf_node _ _ _ _ _ Hw) as (l & ks & cs & -> & Hc & Hmax). cbn [tbody tloc].
    destruct (cwf_route _ _ _ _ _ key (twf_bounded tg n) Hc Hin)
      as (ks1 & ks2 & cs1 & c & cs2 & lo' & hi' & R).
    rewrite (routed_lb _ _ _ _ _ _ _ _ _ _ _ _ _ R). pose proof R as [-> -> Hl _ _ _ Hcw Hic HL HR _ _ _ _ _].
    rewrite bool_decide_eq_false_2 by (by destruct cs1). rewrite (tloc_lookup _ _ _ _ Hl).
    cbn [ix mbind out_bind]. pose proof (rep_node _ _ _ _ _ _ Hr) as (Hrc & _).
    destruct (IH fuel t c lo' hi' ltac:(lia) Hrc Hcw Hic) as (t' & c' & -> & Hst & Hk & Hkv).
    exists t', (TNode l (ks1 ++ ks2) (cs1 ++ c' :: cs2)). cbn [kvs]. unfold kv_replace in *.
    rewrite !flat_map_mid, kv_lookup_frame, kv_insert_frame, Hkv by done.
    split; [done|]. split; [by apply step_child|]. split; [|by destruct (kv_lookup key (kvs c))].
    by eapply kept_child; [apply same_view_refl|..].
Qed.

Lemma update_in_place_done tg t n g key val :
  btree_ok tg t n g -> Forall u8 key ->
  exists t' g', update_in_place t key val = Ret (t', kv_lookup key (kvs g)) /\
    btree_ok tg t' n g' /\ kvs g' = kv_replace key val (kvs g).
Proof.
  intros Hok Hk. pose proof Hok as [Hr Hrt Hwf _ _]. unfold update_in_place.
  destruct (update_in_place_rec_ok tg n (depth_fuel t) t g None None key val)
    as (t' & g' & Heq & Hst & Hkp & Hkv); [by eapply depth_fuel_enough|done|done|by apply root_bounds|].
  rewrite Hrt, Heq. cbn [mbind out_bind]. eexists _, g'. split; [done|]. split; [|done].
  assert (btree_ok tg t' n g') as Hok'.
  { apply (btree_ok_put tg t n g t' g' 0); try done. rewrite Hkv, Z.add_0_r. unfold kv_replace.
    destruct (kv_lookup key (kvs g)) eqn:E; [|done].
    eapply kv_insert_length_found; [done|by eapply kvs_sorted]. }
  destruct (kv_lookup key (kvs g)); [|done]. by apply (btree_ok_same tg t').
Qed.

(** * Properties *)

(** [t] stores the entries [kv], in key order. *)
Definition models (tg : bool) (t : BTree) (kv : list (bytes * bytes)) : Prop :=
  exists n g, btree_ok tg t n g /\ kvs g = kv.

Lemma models_new : models true btree_new [].
Proof.
  exists 0%nat, (TLeaf 0 [] [] None). split; [|done]. split; try done.
  - split.
    + constructor; [done|constructor].
    + apply NoDup_singleton.
    + intros l Hl. cbn in *. rewrite lookup_singleton_ne; [done|lia].
  - cbn. unfold MAX_KEYS. split_and!; try lia; try constructor. done.
Qed.

(** A tree with one entry, for the witnesses. *)
Lemma models_one : exists t, insert 2 btree_new [5; 1] [7] = Ret (t, true) /\ models true t [([5; 1], [7])].
Proof.
  destruct models_new as (n & g & Hok & Hkv). pose proof Hok as [_ _ Hw Hc _].
  assert (Hk : Forall u8 [5; 1]) by (rewrite !Forall_cons; unfold in_u; split_and!; done).
  destruct (insert_done true 2 btree_new n g [5; 1] [7] Hok Hk) as (t & n' & g' & Heq & Hok' & Hkv').
  - exact (tight_not_moved n None None g None [5; 1] Hw Hc (fun _ => eq_refl) (root_bounds _ Hk)).
  - lia.
  - exists t. rewrite Hkv in Heq, Hkv'. split; [done|]. by exists n', g'.
Qed.

(** [lower_bound] returns the first index whose key is not below the
    searched key, for every sorted key array with its head cache: the head
    prefilter never changes the result of the binary search. *)
Theorem lower_bound_correct keys key :
  ksorted keys -> Forall (Forall u8) keys -> Forall u8 key ->
  let i := lower_bound keys (heads_for keys) key in
  (i <= length keys)%nat /\ Forall (fun k => blt k key = true) (take i keys) /\
  Forall (fun k => blt k key = false) (drop i keys).
Proof.
  intros Hs Hu Hk. destruct (lower_bound_split keys key Hs Hu Hk) as (ks1 & ks2 & -> & H1 & H2 & ->).
  cbv zeta. rewrite length_app, take_app_length, drop_app_length. split_and!; [lia|..].
  - eapply Forall_impl; [exact H1|]. cbn. intros x ?. by destruct (blt_spec x key).
  - eapply Forall_impl; [exact H2|]. cbn. intros x ?. destruct (blt_spec x key); [ko|done].
Qed.

Lemma lower_bound_correct_witness :
  let i := lower_bound [[1; 2; 3; 4; 5]; [1; 2; 3; 4; 6]; [9]] (heads_for [[1; 2; 3; 4; 5]; [1; 2; 3; 4; 6]; [9]])
             [1; 2; 3; 4; 6] in
  (i <= 3)%nat /\
  Forall (fun k => blt k [1; 2; 3; 4; 6] = true) (take i [[1; 2; 3; 4; 5]; [1; 2; 3; 4; 6]; [9]]) /\
  Forall (fun k => blt k [1; 2; 3; 4; 6] = false) (drop i [[1; 2; 3; 4; 5]; [1; 2; 3; 4; 6]; [9]]).
Proof.
  apply (lower_bound_correct [[1; 2; 3; 4; 5]; [1; 2; 3; 4; 6]; [9]] [1; 2; 3; 4; 6]).
  - repeat constructor.
  - rewrite !Forall_cons. unfold in_u. split_and!; done.
  - rewrite !Forall_cons. unfold in_u. split_and!; done.
Defined.

(** A point lookup returns the stored value of the key, or nothing when
    the tree does not hold it, for every tree the operations build. *)
Theorem btree_get_spec tg t kv key :
  models tg t kv -> Forall u8 key -> get t key = Ret (kv_lookup key kv).
Proof.
  intros (n & g & [Hr Hrt Hw _ _] & <-) Hk. unfold get. rewrite Hrt.
  eapply get_loop_ok; [by eapply depth_fuel_enough|done|done|by apply root_bounds].
Qed.

Lemma btree_get_spec_witness :
  exists t, models true t [([5; 1], [7])] /\ get t [5; 1] = Ret (kv_lookup [5; 1] [([5; 1], [7])]).
Proof.
  destruct models_one as (t & _ & Hm). exists t. split; [exact Hm|].
  apply (btree_get_spec true t [([5; 1], [7])] [5; 1]); [exact Hm|].
  rewrite !Forall_cons. unfold in_u. split_and!; done.
Defined.
