(* ===== verification/BTreeScan.v ===== *)
(** Range scans of the B+ tree: the descent to the first leaf and the walk
    along the leaf chain return the entries between the bounds. *)
From stdpp Require Import base list gmap sorting.
From Stdlib Require Import ZArith Lia.
From S2P Require Import Prelude Machine BTree BTreeRep BTreeOps BTreeWrite.

#[local] Arguments lower_bound : simpl never.
#[local] Arguments heads_for : simpl never.

(** * The leaves of a tree *)

Fixpoint leaf_nodes (g : tree) : list tree :=
  match g with TLeaf _ _ _ _ => [g] | TNode _ _ cs => flat_map leaf_nodes cs end.

Definition leaf_next (g : tree) : option loc :=
  match g with TLeaf _ _ _ nx => nx | TNode _ _ _ => None end.

(** By depth: each node of a well-formed tree has its children one level down. *)
Lemma twf_ind (P : nat -> tree -> Prop) tg :
  (forall l ks vs nx, P 0%nat (TLeaf l ks vs nx)) ->
  (forall n l ks cs, Forall (P n) cs -> P (S n) (TNode l ks cs)) ->
  forall n lo hi g, twf tg n lo hi g -> P n g.
Proof.
  intros HL HN n. induction n as [|n IH]; intros lo hi g Hw.
  - by destruct (twf_leaf _ _ _ _ Hw) as (l & ks & vs & nx & -> & _).
  - destruct (twf_node _ _ _ _ _ Hw) as (l & ks & cs & -> & Hc & _). apply HN. clear Hw.
    revert lo cs Hc. induction ks as [|k ks IHk]; intros lo [|c cs] Hc; cbn in Hc; try done.
    + destruct cs; [|done]. constructor; [by eapply IH|constructor].
    + destruct Hc as (_ & Hcw & Hc). constructor; [by eapply IH|by eapply IHk].
Qed.

Lemma cwf_elem P lo ks hi cs c : cwf P lo ks hi cs -> c ∈ cs -> exists lo' hi', P lo' hi' c.
Proof.
  revert lo cs. induction ks as [|k ks IH]; intros lo [|x cs]; cbn; try done.
  - destruct cs; [|done]. intros H ->%list_elem_of_singleton. eauto.
  - intros (_ & Hx & H) [-> |Hc]%elem_of_cons; eauto.
Qed.

Lemma flat_map_flat {A B C} (f : B -> list C) (h : A -> list B) (k : A -> list C) l :
  Forall (fun x => flat_map f (h x) = k x) l -> flat_map f (flat_map h l) = flat_map k l.
Proof. induction 1 as [|x l H _ IH]; cbn; [done|]. by rewrite flat_map_app, H, IH. Qed.

Lemma leaf_nodes_ok tg n lo hi g :
  twf tg n lo hi g ->
  flat_map kvs (leaf_nodes g) = kvs g /\
  flat_map leaves (leaf_nodes g) = leaves g /\
  (length (leaf_nodes g) <= length (locs g))%nat /\
  Forall (fun L => exists l ks vs nx, L = TLeaf l ks vs nx) (leaf_nodes g) /\
  (forall t, holds t g -> Forall (holds t) (leaf_nodes g)).
Proof.
  intros Hw. pattern n, g. eapply twf_ind; [| |exact Hw]; cbn beta.
  - intros l ks vs nx. cbn. rewrite !app_nil_r. split_and!; [done|done|lia| |].
    + constructor; [by eexists _, _, _, _|constructor].
    + intros t H. by constructor.
  - clear. intros _ l ks cs H. cbn [leaf_nodes kvs leaves]. rewrite locs_node.
    split_and!.
    + apply flat_map_flat. eapply Forall_impl; [exact H|]. cbn. tauto.
    + apply flat_map_flat. eapply Forall_impl; [exact H|]. cbn. tauto.
    + cbn [length]. apply le_S. induction H as [|c cs (_ & _ & Hc & _) _ IH]; [done|].
      cbn. rewrite !length_app. lia.
    + induction H as [|c cs (_ & _ & _ & Hc & _) _ IH]; cbn; [constructor|]. by apply Forall_app.
    + intros t Hh. apply holds_node in Hh as [_ Hh].
      induction H as [|c cs (_ & _ & _ & _ & Hc) _ IH]; cbn; [constructor|].
      apply Forall_cons in Hh as [? ?]. apply Forall_app. auto.
Qed.

(** * Emitting the entries of leaves *)

(** The bounds of [range] as a predicate on keys. *)
Definition in_range (start : option bytes) (start_incl : bool) (end_ : option bytes) (end_incl : bool)
    (k : bytes) : bool :=
  negb match start with
       | Some lo => blt k lo || (bool_decide (k = lo) && negb start_incl)
       | None => false
       end &&
  negb match end_ with
       | Some hi => blt hi k || (bool_decide (k = hi) && negb end_incl)
       | None => false
       end.

Definition emitted (r : list (bytes * bytes) + option bytes * list (bytes * bytes)) : list (bytes * bytes) :=
  match r with inl acc => acc | inr (_, acc) => acc end.

Section emit.
Context (start : option bytes) (start_incl : bool) (end_ : option bytes) (end_incl : bool).

Lemma emit_app a b last acc :
  emit (a ++ b) start start_incl end_ end_incl last acc =
  match emit a start start_incl end_ end_incl last acc with
  | inl acc => inl acc
  | inr (last, acc) => emit b start start_incl end_ end_incl last acc
  end.
Proof.
  revert last acc. induction a as [|[k v] a IH]; intros last acc; cbn; [done|].
  repeat (case_match; try done).
Qed.

Lemma emit_sorted kv last acc :
  ksorted kv.*1 -> match last with Some l => all_gt l kv | None => True end ->
  emitted (emit kv start start_incl end_ end_incl last acc) =
  acc ++ List.filter (fun e => in_range start start_incl end_ end_incl e.1) kv.
Proof.
  revert last acc. induction kv as [|[k v] kv IH]; intros last acc Hs Hl.
  - cbn. by rewrite app_nil_r.
  - cbn [fmap list_fmap fst] in Hs. inversion Hs as [|? ? Hs' Hall]; subst.
    rewrite Forall_fmap in Hall. cbn [emit List.filter fst].
    assert (match last with Some last => ble k last | None => false end = false) as ->.
    { destruct last as [l|]; [|done]. apply Forall_cons in Hl as [Hl _]. cbn in Hl.
      destruct (ble_spec k l); [ko|done]. }
    assert (Hl' : match last with Some l => all_gt l kv | None => True end).
    { destruct last; [|done]. by apply Forall_cons in Hl as [_ ?]. }
    unfold in_range at 1. destruct (match start with Some _ => _ | None => _ end); cbn [negb andb]; [by apply IH|].
    destruct (match end_ with Some _ => _ | None => _ end) eqn:HE; cbn [negb andb].
    + cbn. rewrite filter_none; [by rewrite app_nil_r|].
      destruct end_ as [hi|]; [|done].
      eapply Forall_impl; [exact Hall|]. cbn. intros x Hx. unfold in_range.
      assert (blt hi x.1 = true) as ->; [|by rewrite andb_false_r].
      destruct (blt_spec hi x.1) as [|Hn]; [done|]. destruct Hn.
      apply orb_true_iff in HE as [HE|HE].
      * destruct (blt_spec hi k); [ko|done].
      * apply andb_true_iff in HE as [->%bool_decide_eq_true _]. done.
    + rewrite IH; [by rewrite <- app_assoc|done|done].
Qed.

Lemma walk_ok t e : forall ls fuel L last acc,
  (length ls < fuel)%nat -> Forall (fun L => exists l ks vs nx, L = TLeaf l ks vs nx) (L :: ls) ->
  Forall (holds t) (L :: ls) -> chained (flat_map leaves (L :: ls)) e -> e = None ->
  walk_leaves fuel t (tloc L) start start_incl end_ end_incl last acc =
  Ret (emitted (emit (flat_map kvs (L :: ls)) start start_incl end_ end_incl last acc)).
Proof.
  induction ls as [|L' ls IH]; intros [|fuel] L last acc Hf Hall Hh Hc ->; try (cbn in Hf; lia);
    apply Forall_cons in Hall as [(l & ks & vs & nx & ->) Hall]; apply Forall_cons in Hh as [Hh Hhs];
    cbn [walk_leaves]; rewrite (holds_lock _ _ Hh); cbn [mbind out_bind tbody];
    change (flat_map kvs (TLeaf l ks vs nx :: ?x)) with (zip ks vs ++ flat_map kvs x); rewrite emit_app;
    destruct (emit (zip ks vs) start start_incl end_ end_incl last acc) as [acc'|[last' acc']]; try done.
  - cbn in Hc. destruct Hc as [-> _]. done.
  - pose proof Hall as Hall'. apply Forall_cons in Hall' as [(l' & ks' & vs' & nx' & ->) _].
    cbn in Hc. destruct Hc as [-> Hc]. apply (IH fuel (TLeaf l' ks' vs' nx')); [cbn in Hf; lia|done..].
Qed.

End emit.

(** * The descent *)

Lemma first_leaf_ok tg n fuel t g lo hi start :
  (n < fuel)%nat -> rep t g -> twf tg n lo hi g ->
  match start with Some k => within lo hi k | None => True end ->
  exists A L B, first_leaf fuel t (tloc g) start = Ret (tloc L) /\ leaf_nodes g = A ++ L :: B /\
    match start with Some k => all_lt k (flat_map kvs A) | None => A = [] end.
Proof.
  revert fuel g lo hi. induction n as [|n IH]; intros [|fuel] g lo hi Hf Hr Hw Hin; try lia;
    cbn [first_leaf]; rewrite (holds_lock _ _ (rep_holds _ _ Hr)); cbn [mbind out_bind].
  - destruct (twf_leaf _ _ _ _ Hw) as (l & ks & vs & nx & -> & _). cbn [tbody].
    exists [], (TLeaf l ks vs nx), []. by destruct start.
  - destruct (twf_node _ _ _ _ _ Hw) as (l & ks & cs & -> & Hc & _). cbn [tbody leaf_nodes].
    rewrite length_fmap. pose proof (cwf_length _ _ _ _ _ Hc) as Hlen. destruct start as [k|].
    + destruct (cwf_route _ _ _ _ _ k (twf_bounded tg n) Hc Hin)
        as (ks1 & ks2 & cs1 & c & cs2 & lo' & hi' & R).
      rewrite (routed_lb _ _ _ _ _ _ _ _ _ _ _ _ _ R). destruct R as [-> -> Hl _ _ _ Hcw Hic HL HR _ _ _ _ _].
      rewrite length_app in Hlen |- *. cbn [length] in Hlen |- *.
      replace (min (length ks1) (length cs1 + S (length cs2) - 1)) with (length ks1) by lia.
      rewrite (tloc_lookup _ _ _ _ Hl). cbn [ix mbind out_bind].
      pose proof (rep_node _ _ _ _ _ _ Hr) as (Hrc & _).
      destruct (IH fuel c lo' hi' ltac:(lia) Hrc Hcw Hic) as (A & L & B & -> & HA & Hlt).
      exists (flat_map leaf_nodes cs1 ++ A), L, (B ++ flat_map leaf_nodes cs2). split; [done|]. split.
      * rewrite flat_map_mid, HA. by rewrite <- !app_assoc.
      * rewrite flat_map_app. apply Forall_app. split; [|done].
        rewrite (flat_map_flat _ _ kvs); [done|]. apply Forall_forall. intros x Hx.
        destruct (cwf_elem _ _ _ _ _ x Hc) as (lo1 & hi1 & Hx'); [apply elem_of_app; by left|].
        by destruct (leaf_nodes_ok _ _ _ _ _ Hx') as (? & _).
    + destruct cs as [|c cs]; [done|]. destruct (cwf_elem _ _ _ _ _ c Hc) as (lo1 & hi1 & Hcw); [left|].
      change (c :: cs) with ([] ++ c :: cs) in Hr |- *. rewrite Nat.min_0_l, (tloc_lookup [] c cs 0 eq_refl).
      cbn [ix mbind out_bind]. pose proof (rep_node _ _ _ _ _ _ Hr) as (Hrc & _).
      destruct (IH fuel c lo1 hi1 ltac:(lia) Hrc Hcw I) as (A & L & B & -> & HA & ->).
      exists [], L, (B ++ flat_map leaf_nodes cs). split_and!; [done| |done]. cbn. by rewrite HA.
Qed.

(** * Properties *)

Lemma range_done tg t n g start start_incl end_ end_incl :
  btree_ok tg t n g -> match start with Some k => Forall u8 k | None => True end ->
  range t start start_incl end_ end_incl =
  Ret (List.filter (fun e => in_range start start_incl end_ end_incl e.1) (kvs g)).
Proof.
  intros [Hr Hrt Hw Hc _] Hst. unfold range. rewrite Hrt.
  destruct (first_leaf_ok tg n (depth_fuel t) t g None None start) as (A & L & B & -> & Hl & HA);
    [by eapply depth_fuel_enough|done|done|by destruct start|].
  cbn [mbind out_bind].
  destruct (leaf_nodes_ok _ _ _ _ _ Hw) as (Hkv & Hlv & Hlen & Hall & Hh).
  specialize (Hh t (rep_holds _ _ Hr)). pose proof (kvs_sorted _ _ _ _ _ Hw) as Hs.
  pose proof (nodup_below (locs g) (brk t) (rep_nodup _ _ Hr) (fun l => rep_locs_lt t g l Hr)) as Hb.
  rewrite <- Hlv, Hl, flat_map_app, chained_app in Hc. destruct Hc as [_ Hc].
  rewrite <- Hkv, Hl, flat_map_app in Hs |- *. rewrite Hl in Hall, Hh, Hlen.
  apply Forall_app in Hall as [_ Hall]. apply Forall_app in Hh as [_ Hh].
  rewrite length_app in Hlen. cbn [length] in Hlen.
  rewrite (walk_ok _ _ _ _ _ None B); [|unfold depth_fuel; lia|done..].
  rewrite fmap_app in Hs. apply ksorted_app in Hs as (_ & Hs & _).
  rewrite emit_sorted by done. f_equal. cbn [app]. rewrite List.filter_app.
  rewrite (filter_none _ (flat_map kvs A)); [done|].
  destruct start as [k|]; [|by subst A]. eapply Forall_impl; [exact HA|]. cbn. intros x Hx.
  unfold in_range. by destruct (blt_spec x.1 k).
Qed.

(** C32: A range scan returns exactly the entries between its bounds, in key
    order, with the inclusivity asked for at each end. *)
Theorem btree_range_spec tg t kv start start_incl end_ end_incl :
  models tg t kv -> match start with Some k => Forall u8 k | None => True end ->
  range t start start_incl end_ end_incl =
  Ret (List.filter (fun e => in_range start start_incl end_ end_incl e.1) kv).
Proof. intros (n & g & Hok & <-). by apply range_done with (tg := tg) (n := n). Qed.

Lemma btree_range_spec_witness :
  exists t, models true t [([5; 1], [7])] /\
    range t (Some [5]) false (Some [5; 1]) true =
    Ret (List.filter (fun e => in_range (Some [5]) false (Some [5; 1]) true e.1) [([5; 1], [7])]).
Proof.
  destruct models_one as (t & _ & Hm). exists t. split; [exact Hm|].
  apply (btree_range_spec true t [([5; 1], [7])]); [exact Hm|].
  rewrite !Forall_cons. unfold in_u. split_and!; done.
Defined.

(** A full scan returns every entry once, in strictly ascending key order,
    and the entry counter is their number. *)
Theorem btree_scan_sorted tg t kv :
  models tg t kv ->
  scan_all t = Ret kv /\ StronglySorted klt kv.*1 /\ entries t = wrap_u 64 (Zlen kv).
Proof.
  intros (n & g & Hok & <-). split_and!; [|by eapply kvs_sorted; destruct Hok|apply Hok].
  unfold scan_all. rewrite (range_done tg t n g) by done. f_equal. apply filter_id.
  apply Forall_forall. done.
Qed.

Lemma btree_scan_sorted_witness :
  exists t, models true t [([5; 1], [7])] /\ scan_all t = Ret [([5; 1], [7])] /\
    StronglySorted klt [([5; 1], [7])].*1 /\ entries t = wrap_u 64 (Zlen [([5; 1], [7])]).
Proof.
  destruct models_one as (t & _ & Hm). exists t. split; [exact Hm|].
  apply (btree_scan_sorted true t [([5; 1], [7])]). exact Hm.
Defined.
