(* ===== verification/BTreeRemove.v ===== *)
(** Deletion from the B+ tree: removal from a leaf, borrowing from and merging
    with a sibling, collapsing the root. *)
From stdpp Require Import base list gmap sorting.
From Stdlib Require Import ZArith Lia.
From S2P Require Import Prelude Machine BTree BTreeRep BTreeOps BTreeWrite.

#[local] Arguments take : simpl never.
#[local] Arguments drop : simpl never.
#[local] Arguments lower_bound : simpl never.
#[local] Arguments heads_for : simpl never.

(** * Removal from a leaf *)

Lemma cwf_mono (P Q : option bytes -> option bytes -> tree -> Prop) lo ks hi cs :
  (forall lo hi c, P lo hi c -> Q lo hi c) -> cwf P lo ks hi cs -> cwf Q lo ks hi cs.
Proof. intros H. apply cwf_impl. auto. Qed.

Lemma twf_loosen tg n lo hi g : twf tg n lo hi g -> twf false n lo hi g.
Proof.
  revert lo hi g. induction n as [|n IH]; intros lo hi g Hw.
  - destruct (twf_leaf _ _ _ _ Hw) as (l & ks & vs & nx & -> & ? & ? & ? & _).
    destruct Hw as [? _]. by split_and!.
  - destruct (twf_node _ _ _ _ _ Hw) as (l & ks & cs & -> & Hc & Hm). split; [done|].
    eapply cwf_mono; [|exact Hc]. intros. by apply IH.
Qed.

(** The entries after a removal. *)
Definition kv_remove (key : bytes) (l : list (bytes * bytes)) : list (bytes * bytes) :=
  match kv_lookup key l with Some _ => kv_delete key l | None => l end.

Lemma vremove_app {A} (x : A) a b n : n = length a -> vremove n (a ++ x :: b) = a ++ b.
Proof.
  intros ->. unfold vremove. rewrite take_app_length. f_equal.
  replace (S (length a)) with (length (a ++ [x])) by (rewrite length_app; cbn; lia).
  change (x :: b) with ([x] ++ b). by rewrite app_assoc, drop_app_length.
Qed.

Lemma delete_rec_ok tg n fuel t g lo hi key :
  (n < fuel)%nat -> rep t g -> twf tg n lo hi g -> within lo hi key ->
  exists t' g', delete_rec fuel t (tloc g) key = Ret (t', kv_lookup key (kvs g)) /\
    step_ok t g t' g' /\ kept false n lo hi g g' /\ kvs g' = kv_remove key (kvs g).
Proof.
  intros Hf Hr Hw Hin. apply twf_loosen in Hw. revert fuel t g lo hi Hf Hr Hw Hin.
  induction n as [|n IH]; intros [|fuel] t g lo hi Hf Hr Hw Hin; try lia;
    cbn [delete_rec]; rewrite (holds_lock _ _ (rep_holds _ _ Hr)); cbn [mbind out_bind].
  - destruct (twf_leaf _ _ _ _ Hw) as (l & ks & vs & nx & -> & Hlen & Hs & Hwi & Hu & _).
    cbn [tbody tloc].
    destruct (leaf_cases ks vs key Hlen Hs Hu ltac:(apply Hin)) as (ks1 & vs1 & found & ks2 & vs2 & L).
    rewrite (leaf_hit L). cbn [kvs]. unfold kv_remove. rewrite (leaf_found L). destruct found as [v|].
    + rewrite bool_decide_eq_true_2 by done.
      pose proof (leaf_removed L v eq_refl) as Hz. pose proof (leaf_sorted_remove L v Hs eq_refl) as Hs'.
      destruct L as [-> -> Hl1 Hl2 Hlb _ _]. rewrite Hlb.
      rewrite (list_lookup_middle vs1 vs2 v (length ks1)) by done. cbn [ix mbind out_bind].
      exists (set_body t l (Leaf (ks1 ++ ks2) (heads_for (ks1 ++ ks2)) (vs1 ++ vs2) nx)),
        (TLeaf l (ks1 ++ ks2) (vs1 ++ vs2) nx). split_and!.
      * rewrite heads_for_app. change (heads_for (key :: ks2)) with (key_head key :: heads_for ks2).
        rewrite !vremove_app by (by rewrite ?length_heads_for). by rewrite heads_for_app.
      * by apply step_leaf.
      * destruct Hw as [Hm _]. cbn in Hm. rewrite length_app in Hm, Hlen. cbn in Hm, Hlen.
        rewrite length_app in Hlen. cbn in Hlen.
        apply kept_leaf; rewrite ?length_app; [lia|done| |lia|done].
        rewrite Forall_app, Forall_cons in Hwi. apply Forall_app. tauto.
      * done.
    + rewrite bool_decide_eq_false_2 by naive_solver. exists t, (TLeaf l ks vs nx).
      split; [done|]. split; [by apply step_refl|]. split; [by apply kept_refl|done].
  - destruct (twf_node _ _ _ _ _ Hw) as (l & ks & cs & -> & Hc & Hmax). cbn [tbody tloc].
    destruct (cwf_route _ _ _ _ _ key (twf_bounded false n) Hc Hin)
      as (ks1 & ks2 & cs1 & c & cs2 & lo' & hi' & R).
    rewrite (routed_lb _ _ _ _ _ _ _ _ _ _ _ _ _ R). pose proof R as [-> -> Hl _ _ _ Hcw Hic HL HR _ _ _ _ _].
    rewrite (tloc_lookup _ _ _ _ Hl). cbn [ix mbind out_bind].
    pose proof (rep_node _ _ _ _ _ _ Hr) as (Hrc & _).
    destruct (IH fuel t c lo' hi' ltac:(lia) Hrc Hcw Hic) as (t' & c' & -> & Hst & Hk & Hkv).
    exists t', (TNode l (ks1 ++ ks2) (cs1 ++ c' :: cs2)). cbn [kvs]. unfold kv_remove in *.
    rewrite !flat_map_mid, kv_lookup_frame, kv_delete_frame, Hkv by done.
    split; [done|]. split; [by apply step_child|]. split; [|by destruct (kv_lookup key (kvs c))].
    by eapply kept_child; [apply same_view_refl|..].
Qed.

(** * Two neighbours *)

Definition tchildren (g : tree) : list tree :=
  match g with TLeaf _ _ _ _ => [] | TNode _ _ cs => cs end.

Lemma locs_unfold g : locs g = tloc g :: flat_map locs (tchildren g).
Proof. destruct g; [done|apply locs_node]. Qed.

Lemma holds_unfold t g :
  holds t g <-> store t !! tloc g = Some (tbody g) /\ Forall (holds t) (tchildren g).
Proof.
  destruct g as [l ks vs nx|l ks cs]; [|apply holds_node]. unfold holds. cbn.
  rewrite Forall_singleton. cbn. split; [by intros|by intros [? _]].
Qed.

Lemma flat_locs_perm cs :
  flat_map locs cs ≡ₚ (tloc <$> cs) ++ flat_map locs (flat_map tchildren cs).
Proof.
  induction cs as [|c cs IH]; [done|]. cbn. rewrite IH, flat_map_app, (locs_unfold c). cbn.
  constructor. by rewrite !app_assoc, (Permutation_app_comm (flat_map locs (tchildren c)) (tloc <$> cs)).
Qed.

(** Children [a] and [b] of a node give way to [new], made of the same
    grandchildren. *)
Record pair_store (t t' : BTree) (l : loc) (ks' : list bytes) (cs1 : list tree) (a b : tree)
    (cs2 new : list tree) : Prop := {
  ps_locs : (tloc <$> new) = [tloc a; tloc b] \/ (tloc <$> new) = [tloc a];
  ps_sub : flat_map tchildren new = tchildren a ++ tchildren b;
  ps_parent : store t' !! l = Some (Internal ks' (heads_for ks') (tloc <$> (cs1 ++ new ++ cs2)));
  ps_new : Forall (fun c => store t' !! tloc c = Some (tbody c)) new;
  ps_rest : forall x, x <> l -> x <> tloc a -> x <> tloc b -> store t' !! x = store t !! x;
  ps_brk : brk t' = brk t;
  ps_root : root t' = root t;
  ps_entries : entries t' = entries t;
}.

Lemma Forall_flat_children (P : tree -> Prop) cs :
  Forall P (flat_map tchildren cs) <-> Forall (fun c => Forall P (tchildren c)) cs.
Proof. induction cs as [|c cs IH]; cbn; [done|]. by rewrite Forall_app, Forall_cons, IH. Qed.

Lemma step_pair t t' l ks ks' cs1 a b cs2 new :
  rep t (TNode l ks (cs1 ++ a :: b :: cs2)) -> pair_store t t' l ks' cs1 a b cs2 new ->
  step_ok t (TNode l ks (cs1 ++ a :: b :: cs2)) t' (TNode l ks' (cs1 ++ new ++ cs2)) /\
  (length (locs (TNode l ks' (cs1 ++ new ++ cs2))) + 2 =
   length (locs (TNode l ks (cs1 ++ a :: b :: cs2))) + length new)%nat.
Proof.
  intros Hr [Hlo Hsub Hpar Hnew Hrest Hbrk Hroot Hent].
  set (R := flat_map locs cs1 ++ flat_map locs cs2 ++ flat_map locs (tchildren a) ++ flat_map locs (tchildren b)).
  assert (Hp : locs (TNode l ks (cs1 ++ a :: b :: cs2)) ≡ₚ tloc a :: tloc b :: l :: R).
  { rewrite locs_node, flat_map_app. cbn [flat_map]. rewrite (locs_unfold a), (locs_unfold b). subst R.
    cbn. solve_Permutation. }
  assert (Hp' : locs (TNode l ks' (cs1 ++ new ++ cs2)) ≡ₚ (tloc <$> new) ++ l :: R).
  { rewrite locs_node, !flat_map_app, (flat_locs_perm new), Hsub, flat_map_app. subst R. solve_Permutation. }
  pose proof (rep_nodup _ _ Hr) as Hd. rewrite Hp in Hd.
  assert (Hsubset : forall x, x ∈ locs (TNode l ks' (cs1 ++ new ++ cs2)) ->
                              x ∈ locs (TNode l ks (cs1 ++ a :: b :: cs2))).
  { intros x. rewrite Hp, Hp', elem_of_app. destruct Hlo as [-> | ->]; rewrite !elem_of_cons, elem_of_nil; tauto. }
  split; [|rewrite Hp, Hp', length_app, length_fmap; cbn; lia].
  assert (HR : forall x, x ∈ R -> store t' !! x = store t !! x).
  { intros x Hx. apply NoDup_cons in Hd as [Ha Hd]. apply NoDup_cons in Hd as [Hb Hd].
    apply NoDup_cons in Hd as [Hl _]. rewrite !not_elem_of_cons in Ha. rewrite !not_elem_of_cons in Hb.
    apply Hrest; intros ->; tauto. }
  subst R. setoid_rewrite elem_of_app in HR. setoid_rewrite elem_of_app in HR. setoid_rewrite elem_of_app in HR.
  pose proof (rep_holds _ _ Hr) as Hh. apply holds_node in Hh as [_ Hh].
  rewrite Forall_app, !Forall_cons, (holds_unfold t a), (holds_unfold t b) in Hh.
  destruct Hh as (Hh1 & (_ & Hha) & (_ & Hhb) & Hh2).
  split; try done; [|lia| |by intros; left; apply Hsubset].
  - split.
    + apply holds_node. split; [done|]. rewrite !Forall_app. split_and!.
      * apply (holds_ext_all t); [|done]. intros. apply HR. tauto.
      * assert (Hg : Forall (fun c => Forall (holds t') (tchildren c)) new).
        { apply Forall_flat_children. rewrite Hsub. apply Forall_app. split.
          - apply (holds_ext_all t); [|done]. intros. apply HR. tauto.
          - apply (holds_ext_all t); [|done]. intros. apply HR. tauto. }
        rewrite Forall_forall in Hnew, Hg |- *. intros c Hc. apply holds_unfold. auto.
      * apply (holds_ext_all t); [|done]. intros. apply HR. tauto.
    + rewrite Hp'. destruct Hlo as [-> | ->]; [done|]. cbn [app].
      apply NoDup_cons in Hd as [Ha Hd]. apply NoDup_cons in Hd as [_ Hd].
      apply NoDup_cons. split; [by apply not_elem_of_cons in Ha as [_ ?]|done].
    + intros x Hx. rewrite Hrest.
      * apply Hr. lia.
      * pose proof (rep_locs_lt _ _ l Hr ltac:(rewrite Hp; set_solver)). lia.
      * pose proof (rep_locs_lt _ _ (tloc a) Hr ltac:(rewrite Hp; set_solver)). lia.
      * pose proof (rep_locs_lt _ _ (tloc b) Hr ltac:(rewrite Hp; set_solver)). lia.
  - intros x Hx _. rewrite Hp, !not_elem_of_cons in Hx. apply Hrest; tauto.
Qed.

(** * Bounds around two neighbours *)

Lemma cwf_pair P lo ks1 s ks2 hi cs1 a b cs2 :
  length cs1 = length ks1 -> cwf P lo (ks1 ++ s :: ks2) hi (cs1 ++ a :: b :: cs2) ->
  exists lo' hi', sepin lo' hi' s /\ P lo' (Some s) a /\ P (Some s) hi' b /\
    (forall s' a' b', sepin lo' hi' s' -> P lo' (Some s') a' -> P (Some s') hi' b' ->
       cwf P lo (ks1 ++ s' :: ks2) hi (cs1 ++ a' :: b' :: cs2)) /\
    (forall c, P lo' hi' c -> cwf P lo (ks1 ++ ks2) hi (cs1 ++ c :: cs2)).
Proof.
  revert lo cs1. induction ks1 as [|k ks1 IH]; intros lo [|c cs1]; try done; intros Hl H.
  - cbn in H. destruct H as (Hs & Ha & H). destruct ks2 as [|k ks2].
    + destruct cs2; [|done]. exists lo, hi. by split_and!.
    + destruct H as (Hk & Hb & H). exists lo, (Some k). split_and!; try done.
      * destruct Hs as (? & _ & ?), Hk as (? & _). by split_and!.
      * intros s' a' b' Hs' ? ?. assert (Hk' : sepin lo hi k) by (by eapply sepin_lo).
        cbn. split; [by eapply sepin_hi|]. split; [done|]. split; [|done].
        destruct Hs' as (_ & ? & _), Hk as (_ & ? & ?). by split_and!.
      * intros c ?. cbn. split; [by eapply sepin_lo|done].
  - cbn in H. destruct H as (Hk & Hc & H). injection Hl as Hl.
    destruct (IH (Some k) cs1 Hl H) as (lo' & hi' & ? & ? & ? & Hr & Hm). exists lo', hi'.
    split_and!; try done.
    + intros s' a' b' ? ? ?. cbn. auto.
    + intros c' ?. cbn. auto.
Qed.

(** What replaces the two neighbours holds the same entries in the same place
    of the leaf chain. *)
Record pair_view (a b : tree) (new : list tree) : Prop := {
  pv_kvs : flat_map kvs new = kvs a ++ kvs b;
  pv_chain : forall e, chained (leaves a ++ leaves b) e -> chained (flat_map leaves new) e;
  pv_first : forall e, head_loc (flat_map leaves new) e = head_loc (leaves a ++ leaves b) e;
}.

Lemma pair_same_view l ks ks' cs1 a b cs2 new :
  pair_view a b new ->
  same_view (TNode l ks (cs1 ++ a :: b :: cs2)) (TNode l ks' (cs1 ++ new ++ cs2)).
Proof.
  intros [Hk Hc Hf]. split; cbn [kvs leaves].
  - rewrite !flat_map_app. cbn [flat_map]. by rewrite Hk, <- !app_assoc.
  - intros e. rewrite !flat_map_app. cbn [flat_map]. rewrite (app_assoc (leaves a)).
    generalize dependent (leaves a ++ leaves b). intros L Hc Hf.
    rewrite !chained_app, !head_loc_app, Hf. naive_solver.
  - intros e. rewrite !flat_map_app. cbn [flat_map]. rewrite (app_assoc (leaves a)).
    by rewrite !(head_loc_app (flat_map leaves cs1)), (head_loc_app (flat_map leaves new)), Hf,
      (head_loc_app (leaves a ++ leaves b)).
Qed.

(** ** Leaves *)

Section leaves.
Context (lo hi : option bytes) (s : bytes) (al bl : loc) (an bn : option loc).
Hypothesis Hs : sepin lo hi s.

Lemma ksorted_snoc ks k : ksorted ks -> Forall (fun x => klt x k) ks -> ksorted (ks ++ [k]).
Proof.
  intros H1 H2. apply ksorted_app. split_and!; [done|repeat constructor|].
  eapply Forall_impl; [exact H2|]. intros x ?. by constructor.
Qed.

Lemma leaf_borrow_right ak av k v k' bk bv :
  twf false 0 lo (Some s) (TLeaf al ak av an) ->
  twf false 0 (Some s) hi (TLeaf bl (k :: k' :: bk) (v :: bv) bn) ->
  (length ak < MAX_KEYS)%nat ->
  sepin lo hi k /\ twf false 0 lo (Some k) (TLeaf al (ak ++ [k]) (av ++ [v]) an) /\
  twf false 0 (Some k) hi (TLeaf bl (k' :: bk) bv bn).
Proof.
  intros (_ & Hla & Hsa & Hwa & _) (Hmb & Hlb & Hsb & Hwb & _) Hfree. cbn in Hmb.
  apply Forall_cons in Hwb as [Hk Hwb]. inversion Hsb as [|? ? Hsb' Hgt]; subst.
  destruct Hk as (Hk1 & Hk2 & Hk3). cbn in Hk1.
  assert (Hlok : ogt lo k) by (destruct Hs as (Hs1 & _); destruct lo; cbn in *; [ko|done]).
  split; [|split].
  - split; [done|]. split; [|done]. apply Forall_cons in Hwb as [(_ & Hk' & _) _].
    apply Forall_cons in Hgt as [? _]. destruct hi; cbn in *; [ko|done].
  - cbn [twf tkeys]. rewrite !length_app. cbn [length]. split_and!; [lia|lia| | |done].
    + apply ksorted_snoc; [done|]. eapply Forall_impl; [exact Hwa|]. intros x (_ & Hx & _). cbn in Hx. ko.
    + apply Forall_app. split; [|constructor; [by split_and!; try done; right|constructor]].
      eapply Forall_impl; [exact Hwa|]. intros x (? & Hx & ?). cbn in Hx. split_and!; try done. cbn. ko.
  - cbn [twf tkeys length] in *. split_and!; [lia|lia|done| |done].
    rewrite Forall_forall in Hgt, Hwb |- *. intros x Hx. destruct (Hwb x Hx) as (_ & ? & ?).
    split_and!; try done. by apply Hgt.
Qed.

Lemma leaf_borrow_left ak av j k v bk bv :
  twf false 0 lo (Some s) (TLeaf al (ak ++ [j; k]) (av ++ [v]) an) ->
  twf false 0 (Some s) hi (TLeaf bl bk bv bn) -> (length bk < MAX_KEYS)%nat ->
  sepin lo hi j /\ twf false 0 lo (Some j) (TLeaf al (ak ++ [j]) av an) /\
  twf false 0 (Some j) hi (TLeaf bl (k :: bk) (v :: bv) bn).
Proof.
  intros (Hma & Hla & Hsa & Hwa & _) (_ & Hlb & Hsb & Hwb & _) Hfree. cbn in Hma.
  change [j; k] with ([j] ++ [k]) in *. rewrite app_assoc in Hma, Hla, Hsa, Hwa.
  apply ksorted_app in Hsa as (Hsa & _ & Hlt).
  apply Forall_app in Hwa as [Hwa Hk]. apply Forall_cons in Hk as [(Hk1 & Hk2 & Hk3) _].
  pose proof Hwa as Hwj. apply Forall_app in Hwj as [_ Hwj]. apply Forall_cons in Hwj as [(Hj1 & Hj2 & Hj3) _].
  pose proof Hlt as Hjk. apply Forall_app in Hjk as [_ Hjk]. apply Forall_cons in Hjk as [Hjk _].
  apply Forall_cons in Hjk as [Hjk _]. cbn in Hk2, Hj2.
  rewrite !length_app in *. cbn [length] in *. unfold sepin. cbn [twf tkeys length].
  assert (Hlast : forall x, x ∈ ak ++ [j] -> kle x j).
  { intros x Hx. eapply last_sorted; [exact Hsa| |done]. by rewrite last_snoc. }
  split; [|split].
  - split_and!; try done. destruct Hs as (_ & Hs1 & _). destruct hi; cbn in *; [ko|done].
  - rewrite length_app. cbn [length]. split_and!; try done; try lia.
    rewrite Forall_forall in Hwa |- *. intros x Hx. destruct (Hwa x Hx) as (? & _ & ?).
    split_and!; try done. by apply Hlast.
  - split_and!; try done; try lia.
    + constructor; [done|]. eapply Forall_impl; [exact Hwb|]. intros x (Hx & _). cbn in Hx. ko.
    + constructor.
      * split_and!; try done. destruct Hs as (_ & Hs1 & _). destruct hi; cbn in *; [ko|done].
      * eapply Forall_impl; [exact Hwb|]. intros x (Hx & ? & ?). cbn in Hx. split_and!; try done. cbn. ko.
Qed.

Lemma leaf_merge ak av bk bv nx :
  twf false 0 lo (Some s) (TLeaf al ak av an) -> twf false 0 (Some s) hi (TLeaf bl bk bv bn) ->
  (length ak + length bk <= MAX_KEYS)%nat -> twf false 0 lo hi (TLeaf al (ak ++ bk) (av ++ bv) nx).
Proof.
  intros (_ & Hla & Hsa & Hwa & _) (_ & Hlb & Hsb & Hwb & _) Hfree.
  cbn [twf tkeys]. rewrite !length_app. split_and!; try done; try lia.
  - apply ksorted_app. split_and!; try done. eapply Forall_impl; [exact Hwa|]. intros x (_ & Hx & _).
    eapply Forall_impl; [exact Hwb|]. intros y (Hy & _). cbn in *. ko.
  - apply Forall_app. split.
    + eapply Forall_impl; [exact Hwa|]. intros x. by apply within_hi.
    + eapply Forall_impl; [exact Hwb|]. intros x. by apply within_lo.
Qed.

End leaves.

(** ** Internal nodes *)

Lemma node_merge n lo hi s al bl ak bk ac bc :
  sepin lo hi s -> twf false (S n) lo (Some s) (TNode al ak ac) ->
  twf false (S n) (Some s) hi (TNode bl bk bc) -> (length ak + length bk < MAX_KEYS)%nat ->
  twf false (S n) lo hi (TNode al (ak ++ s :: bk) (ac ++ bc)).
Proof.
  intros Hs [_ Ha] [_ Hb] Hlen. split; [cbn; rewrite length_app; cbn; lia|].
  apply cwf_app; [by eapply cwf_length|done].
Qed.

Lemma node_borrow_right n lo hi s al bl ak ac u bk m bc :
  sepin lo hi s -> twf false (S n) lo (Some s) (TNode al ak ac) ->
  twf false (S n) (Some s) hi (TNode bl (u :: bk) (m :: bc)) -> (length ak < MAX_KEYS)%nat ->
  sepin lo hi u /\ twf false (S n) lo (Some u) (TNode al (ak ++ [s]) (ac ++ [m])) /\
  twf false (S n) (Some u) hi (TNode bl bk bc).
Proof.
  intros Hs [_ Ha] [Hmb Hb] Hlen. cbn in Hmb.
  assert (H : cwf (twf false n) lo (ak ++ s :: u :: bk) hi (ac ++ m :: bc)).
  { apply cwf_app; [by eapply cwf_length|done]. }
  change (s :: u :: bk) with ([s] ++ u :: bk) in H. change (m :: bc) with ([m] ++ bc) in H.
  rewrite !app_assoc in H. apply cwf_app in H as (? & ? & ?).
  - split; [done|]. split; (split; [|done]); cbn [tkeys]; rewrite ?length_app; cbn [length]; lia.
  - rewrite !length_app, (cwf_length _ _ _ _ _ Ha). cbn. lia.
Qed.

Lemma node_borrow_left n lo hi s al bl ak ac u m bk bc :
  sepin lo hi s -> twf false (S n) lo (Some s) (TNode al (ak ++ [u]) (ac ++ [m])) ->
  twf false (S n) (Some s) hi (TNode bl bk bc) -> (length bk < MAX_KEYS)%nat ->
  sepin lo hi u /\ twf false (S n) lo (Some u) (TNode al ak ac) /\
  twf false (S n) (Some u) hi (TNode bl (s :: bk) (m :: bc)).
Proof.
  intros Hs [Hma Ha] [_ Hb] Hlen. cbn in Hma. rewrite length_app in Hma. cbn in Hma.
  pose proof (cwf_length _ _ _ _ _ Ha) as Hl. rewrite !length_app in Hl. cbn in Hl.
  assert (H : cwf (twf false n) lo ((ak ++ [u]) ++ s :: bk) hi ((ac ++ [m]) ++ bc)).
  { apply cwf_app; [rewrite !length_app; cbn; lia|done]. }
  rewrite <- !app_assoc in H. apply cwf_app in H as (? & ? & ?); [|lia].
  split; [done|]. split; (split; [|done]); cbn [tkeys length]; lia.
Qed.

(** * Borrowing and merging *)

Lemma list_insert_mid {A} (x y : A) a b n : n = length a -> <[n := y]> (a ++ x :: b) = a ++ y :: b.
Proof. intros ->. by rewrite insert_app_r_alt, Nat.sub_diag by lia. Qed.

Lemma snoc_inv {A} (l : list A) : l <> [] -> exists a x, l = a ++ [x].
Proof. intros H. destruct (exists_last H) as (a & x & ->). by exists a, x. Qed.

Lemma take_snoc {A} (a : list A) x : take (length (a ++ [x]) - 1) (a ++ [x]) = a.
Proof. rewrite length_app. cbn [length]. rewrite Nat.add_sub. apply take_app_length. Qed.

Lemma heads_for_snoc a x : heads_for (a ++ [x]) = heads_for a ++ [key_head x].
Proof. apply heads_for_app. Qed.

Section pair.
Context (t : BTree) (n : nat) (lo hi : option bytes) (l : loc) (ks1 : list bytes) (s : bytes).
Context (ks2 : list bytes) (cs1 : list tree) (a b : tree) (cs2 : list tree).
Abbreviation ks := (ks1 ++ s :: ks2).
Abbreviation cs := (cs1 ++ a :: b :: cs2).
Abbreviation g := (TNode l ks cs).
Hypothesis Hr : rep t g.
Hypothesis Hw : twf false (S n) lo hi g.
Hypothesis Hlen : length cs1 = length ks1.

Lemma pair_ne : tloc a <> tloc b /\ tloc a <> l /\ tloc b <> l.
Proof using Hr.
  pose proof (rep_nodup _ _ Hr) as Hd. rewrite locs_node, flat_map_app in Hd. cbn [flat_map] in Hd.
  apply NoDup_cons in Hd as [Hl Hd]. apply NoDup_app in Hd as (_ & _ & Hd).
  apply NoDup_app in Hd as (_ & Hd & _). rewrite !elem_of_app in Hl.
  pose proof (tloc_in_locs a) as Ha. pose proof (tloc_in_locs b) as Hb. split_and!.
  - intros E. apply (Hd (tloc a)); [done|]. apply elem_of_app. left. by rewrite E.
  - intros E. apply Hl. right. left. by rewrite <- E.
  - intros E. apply Hl. right. right. left. by rewrite <- E.
Qed.

Lemma pair_finish t' ks' new :
  pair_store t t' l ks' cs1 a b cs2 new -> pair_view a b new ->
  cwf (twf false n) lo ks' hi (cs1 ++ new ++ cs2) -> (length ks' <= MAX_KEYS)%nat ->
  exists g', step_ok t g t' g' /\ kept false (S n) lo hi g g' /\ kvs g' = kvs g /\
    (length (locs g') + 2 = length (locs g) + length new)%nat.
Proof using Hr.
  intros Hps Hpv Hc Hm. destruct (step_pair _ _ _ _ _ _ _ _ _ _ Hr Hps) as [Hst Hll].
  pose proof (pair_same_view l ks ks' cs1 a b cs2 new Hpv) as [Hk Hch Hf].
  eexists. split; [exact Hst|]. split; [|done]. by split.
Qed.

(** The store after writing the two neighbours and their parent. *)
Lemma set3_store ba bb bp x y :
  (x = tloc a /\ y = tloc b) \/ (x = tloc b /\ y = tloc a) ->
  let t' := set_body (set_body (set_body t x ba) y bb) l bp in
  store t' !! l = Some bp /\ store t' !! x = Some ba /\ store t' !! y = Some bb /\
  (forall z, z <> l -> z <> tloc a -> z <> tloc b -> store t' !! z = store t !! z).
Proof using Hr.
  intros Hxy. destruct pair_ne as (? & ? & ?). cbn [set_body store].
  assert (x <> l /\ y <> l /\ x <> y) as (? & ? & ?) by (destruct Hxy as [[-> ->]|[-> ->]]; auto).
  split_and!.
  - by rewrite lookup_insert_eq.
  - by rewrite !lookup_insert_ne, lookup_insert_eq by done.
  - by rewrite lookup_insert_ne, lookup_insert_eq by done.
  - intros z Hz1 Hz2 Hz3. rewrite !lookup_insert_ne; [done|..]; destruct Hxy as [[-> ->]|[-> ->]]; congruence.
Qed.

Lemma length_ks_mid s' : length (ks1 ++ s' :: ks2) = length ks.
Proof using Type. rewrite !length_app. done. Qed.

(** Writing two replacements for the two neighbours. *)
Lemma pair_write2 a' b' s' x y ba bb :
  tloc a' = tloc a -> tloc b' = tloc b -> tchildren a' ++ tchildren b' = tchildren a ++ tchildren b ->
  (x = tloc a /\ y = tloc b /\ ba = tbody a' /\ bb = tbody b') \/
  (x = tloc b /\ y = tloc a /\ ba = tbody b' /\ bb = tbody a') ->
  pair_store t (set_body (set_body (set_body t x ba) y bb) l
                  (Internal (ks1 ++ s' :: ks2) (heads_for (ks1 ++ s' :: ks2)) (tloc <$> cs)))
    l (ks1 ++ s' :: ks2) cs1 a b cs2 [a'; b'].
Proof using Hr.
  intros Ha Hb Hch Hxy.
  destruct (set3_store ba bb (Internal (ks1 ++ s' :: ks2) (heads_for (ks1 ++ s' :: ks2)) (tloc <$> cs)) x y)
    as (H1 & H2 & H3 & H4); [tauto|].
  split; try done; cbn [fmap list_fmap flat_map].
  - left. by rewrite Ha, Hb.
  - by rewrite app_nil_r.
  - rewrite H1, !fmap_app. cbn [fmap list_fmap app]. by rewrite Ha, Hb.
  - rewrite !Forall_cons, Ha, Hb. destruct Hxy as [(-> & -> & -> & ->)|(-> & -> & -> & ->)]; auto.
Qed.

(** What a fix-up of the node leaves: [again] when a child was merged away. *)
Definition fixed (t' : BTree) (again : bool) : Prop :=
  exists g', step_ok t g t' g' /\ kept false (S n) lo hi g g' /\ kvs g' = kvs g /\
    (length (locs g') + (if again then 1 else 0) = length (locs g))%nat.

Lemma pair_bounds :
  exists lo' hi', sepin lo' hi' s /\ twf false n lo' (Some s) a /\ twf false n (Some s) hi' b /\
    (forall s' a' b', sepin lo' hi' s' -> twf false n lo' (Some s') a' -> twf false n (Some s') hi' b' ->
       cwf (twf false n) lo (ks1 ++ s' :: ks2) hi (cs1 ++ a' :: b' :: cs2)) /\
    (forall c, twf false n lo' hi' c -> cwf (twf false n) lo (ks1 ++ ks2) hi (cs1 ++ c :: cs2)) /\
    (length ks <= MAX_KEYS)%nat.
Proof using Hw Hlen.
  destruct Hw as [Hm Hc]. destruct (cwf_pair _ _ _ _ _ _ _ _ _ _ Hlen Hc) as (lo' & hi' & H).
  exists lo', hi'. naive_solver.
Qed.

End pair.

(** The parent's arrays with another separator. *)
Lemma set_sep ks1 s ks2 s' :
  <[length ks1 := s']> (ks1 ++ s :: ks2) = ks1 ++ s' :: ks2 /\
  <[length ks1 := key_head s']> (heads_for (ks1 ++ s :: ks2)) = heads_for (ks1 ++ s' :: ks2).
Proof.
  split; [by apply list_insert_mid|]. rewrite !heads_for_app.
  change (heads_for (?x :: ks2)) with (key_head x :: heads_for ks2).
  by apply list_insert_mid; rewrite length_heads_for.
Qed.

Lemma get_sep ks1 s ks2 :
  (ks1 ++ s :: ks2) !! length ks1 = Some s /\
  heads_for (ks1 ++ s :: ks2) !! length ks1 = Some (key_head s).
Proof.
  split; [by apply list_lookup_middle|]. unfold heads_for. by rewrite list_lookup_fmap, list_lookup_middle.
Qed.

(** Two replacements for two neighbours finish a fix-up that removed nothing. *)
Lemma fixed_two t n lo hi l ks1 s ks2 cs1 a b cs2 a' b' s' x y ba bb :
  rep t (TNode l (ks1 ++ s :: ks2) (cs1 ++ a :: b :: cs2)) ->
  tloc a' = tloc a -> tloc b' = tloc b -> tchildren a' ++ tchildren b' = tchildren a ++ tchildren b ->
  (x = tloc a /\ y = tloc b /\ ba = tbody a' /\ bb = tbody b') \/
  (x = tloc b /\ y = tloc a /\ ba = tbody b' /\ bb = tbody a') ->
  pair_view a b [a'; b'] ->
  cwf (twf false n) lo (ks1 ++ s' :: ks2) hi (cs1 ++ a' :: b' :: cs2) ->
  (length (ks1 ++ s :: ks2) <= MAX_KEYS)%nat ->
  fixed t n lo hi l ks1 s ks2 cs1 a b cs2
    (set_body (set_body (set_body t x ba) y bb) l
       (Internal (ks1 ++ s' :: ks2) (heads_for (ks1 ++ s' :: ks2)) (tloc <$> (cs1 ++ a :: b :: cs2)))) false.
Proof.
  intros Hr Ha Hb Hch Hxy Hpv Hc Hm.
  pose proof (pair_write2 t l ks1 s ks2 cs1 a b cs2 Hr a' b' s' x y ba bb Ha Hb Hch Hxy) as Hps.
  destruct (pair_finish t n lo hi l ks1 s ks2 cs1 a b cs2 Hr _ _ _ Hps Hpv Hc) as (g' & ? & ? & ? & Hl).
  { by rewrite (length_ks_mid ks1 s). }
  exists g'. split_and!; try done. cbn [length] in Hl. lia.
Qed.

Lemma leaf_pair_view al ak av an bl bk bv bn ak' av' bk' bv' :
  zip ak' av' ++ zip bk' bv' = zip ak av ++ zip bk bv ->
  pair_view (TLeaf al ak av an) (TLeaf bl bk bv bn) [TLeaf al ak' av' an; TLeaf bl bk' bv' bn].
Proof. intros H. split; cbn; try done. by rewrite app_nil_r. Qed.

Lemma node_pair_view al ak ac bl bk bc ak' ac' bk' bc' :
  ac' ++ bc' = ac ++ bc ->
  pair_view (TNode al ak ac) (TNode bl bk bc) [TNode al ak' ac'; TNode bl bk' bc'].
Proof.
  intros H. split; cbn [flat_map kvs leaves]; rewrite app_nil_r.
  - by rewrite <- !flat_map_app, H.
  - intros e. by rewrite <- !flat_map_app, H.
  - intros e. by rewrite <- !flat_map_app, H.
Qed.

Lemma borrow_right_ok t n lo hi l ks1 s ks2 cs1 a b cs2 :
  rep t (TNode l (ks1 ++ s :: ks2) (cs1 ++ a :: b :: cs2)) ->
  twf false (S n) lo hi (TNode l (ks1 ++ s :: ks2) (cs1 ++ a :: b :: cs2)) ->
  length cs1 = length ks1 ->
  (occupancy (tbody a) < MIN_KEYS)%nat -> (MIN_KEYS < occupancy (tbody b))%nat ->
  exists t', borrow t l (ks1 ++ s :: ks2) (heads_for (ks1 ++ s :: ks2)) (tloc <$> (cs1 ++ a :: b :: cs2))
      (length ks1) (S (length ks1)) (tloc a) (tbody a) (tloc b) (tbody b) = Ret t' /\
    fixed t n lo hi l ks1 s ks2 cs1 a b cs2 t' false.
Proof.
  intros Hr Hw Hlen Ho1 Ho2.
  destruct (pair_bounds n lo hi l ks1 s ks2 cs1 a b cs2 Hw Hlen) as (lo' & hi' & Hs & Ha & Hb & Hrep & _ & Hm).
  assert (Hmin : min (length ks1) (S (length ks1)) = length ks1) by lia.
  unfold borrow. rewrite Hmin, bool_decide_eq_true_2 by lia. unfold MIN_KEYS, MAX_KEYS in Ho1, Ho2.
  cbn in Ho1, Ho2. destruct n as [|n'].
  - destruct (twf_leaf _ _ _ _ Ha) as (al & ak & av & an & -> & Hla & _).
    destruct (twf_leaf _ _ _ _ Hb) as (bl & bk & bv & bn & -> & Hlb & _).
    cbn [tbody occupancy tloc] in *.
    destruct bk as [|k [|k' bk]]; [cbn in Ho2; lia..|]. destruct bv as [|v bv]; [done|].
    change (heads_for (k :: k' :: bk)) with (key_head k :: heads_for (k' :: bk)).
    cbn [lookup list_lookup ix mbind out_bind mret out_ret]. eexists. split; [done|].
    destruct (leaf_borrow_right _ _ s al bl an bn Hs ak av k v k' bk bv Ha Hb) as (Hk & Ha' & Hb');
      [unfold MAX_KEYS; lia|].
    destruct (set_sep ks1 s ks2 k) as [-> ->].
    apply (fixed_two t 0 lo hi l ks1 s ks2 cs1 _ _ cs2 (TLeaf al (ak ++ [k]) (av ++ [v]) an)
             (TLeaf bl (k' :: bk) bv bn)); try done.
    + left. cbn [tbody]. by rewrite heads_for_snoc.
    + apply leaf_pair_view. rewrite zip_with_app by done. by rewrite <- app_assoc.
    + by apply Hrep.
  - destruct (twf_node _ _ _ _ _ Ha) as (al & ak & ac & -> & Hca & _).
    destruct (twf_node _ _ _ _ _ Hb) as (bl & bk & bc & -> & Hcb & _).
    pose proof (cwf_length _ _ _ _ _ Hca) as Hlc. pose proof (cwf_length _ _ _ _ _ Hcb) as Hlb.
    cbn [tbody occupancy tloc] in *. rewrite length_fmap in Ho1, Ho2.
    destruct bk as [|u bk]; [cbn in Hlb; lia|]. destruct bc as [|m bc]; [done|].
    destruct (get_sep ks1 s ks2) as [-> ->].
    change (heads_for (u :: bk)) with (key_head u :: heads_for bk).
    cbn [lookup list_lookup ix mbind out_bind mret out_ret fmap list_fmap]. eexists. split; [done|].
    destruct (node_borrow_right n' _ _ s al bl ak ac u bk m bc Hs Ha Hb) as (Hk & Ha' & Hb');
      [unfold MAX_KEYS; lia|].
    destruct (set_sep ks1 s ks2 u) as [-> ->].
    apply (fixed_two t (S n') lo hi l ks1 s ks2 cs1 _ _ cs2 (TNode al (ak ++ [s]) (ac ++ [m]))
             (TNode bl bk bc)); try done.
    + cbn [tchildren]. by rewrite <- app_assoc.
    + left. cbn [tbody]. by rewrite heads_for_snoc, fmap_app.
    + apply node_pair_view. by rewrite <- app_assoc.
    + by apply Hrep.
Qed.

Lemma borrow_left_ok t n lo hi l ks1 s ks2 cs1 a b cs2 :
  rep t (TNode l (ks1 ++ s :: ks2) (cs1 ++ a :: b :: cs2)) ->
  twf false (S n) lo hi (TNode l (ks1 ++ s :: ks2) (cs1 ++ a :: b :: cs2)) ->
  length cs1 = length ks1 ->
  (occupancy (tbody b) < MIN_KEYS)%nat -> (MIN_KEYS < occupancy (tbody a))%nat ->
  exists t', borrow t l (ks1 ++ s :: ks2) (heads_for (ks1 ++ s :: ks2)) (tloc <$> (cs1 ++ a :: b :: cs2))
      (S (length ks1)) (length ks1) (tloc b) (tbody b) (tloc a) (tbody a) = Ret t' /\
    fixed t n lo hi l ks1 s ks2 cs1 a b cs2 t' false.
Proof.
  intros Hr Hw Hlen Ho1 Ho2.
  destruct (pair_bounds n lo hi l ks1 s ks2 cs1 a b cs2 Hw Hlen) as (lo' & hi' & Hs & Ha & Hb & Hrep & _ & Hm).
  assert (Hmin : min (S (length ks1)) (length ks1) = length ks1) by lia.
  unfold borrow. rewrite Hmin, bool_decide_eq_false_2 by lia. unfold MIN_KEYS, MAX_KEYS in Ho1, Ho2.
  cbn in Ho1, Ho2. destruct n as [|n'].
  - destruct (twf_leaf _ _ _ _ Ha) as (al & ak & av & an & -> & Hla & _).
    destruct (twf_leaf _ _ _ _ Hb) as (bl & bk & bv & bn & -> & Hlb & _).
    cbn [tbody occupancy tloc] in *.
    destruct (snoc_inv ak) as (ak0 & k & ->); [by intros ->; cbn in Ho2; lia|].
    rewrite length_app in Ho2. cbn in Ho2. destruct (snoc_inv ak0) as (ak & j & ->); [by intros ->; cbn in Ho2; lia|].
    destruct (snoc_inv av) as (av0 & v & ->); [by intros ->; rewrite !length_app in Hla; cbn in Hla; lia|].
    rewrite !length_app in Hla. cbn in Hla.
    rewrite !take_snoc, !(heads_for_snoc (ak ++ [j])), !take_snoc, (heads_for_snoc ak), !last_snoc.
    cbn [ix mbind out_bind mret out_ret default from_option id]. eexists. split; [done|].
    rewrite <- app_assoc in Ha.
    destruct (leaf_borrow_left _ _ s al bl an bn Hs ak av0 j k v bk bv Ha Hb) as (Hk & Ha' & Hb');
      [unfold MAX_KEYS; lia|].
    destruct (set_sep ks1 s ks2 j) as [-> ->].
    apply (fixed_two t 0 lo hi l ks1 s ks2 cs1 _ _ cs2 (TLeaf al (ak ++ [j]) av0 an)
             (TLeaf bl (k :: bk) (v :: bv) bn)); try done.
    + right. cbn [tbody]. by rewrite heads_for_snoc.
    + apply leaf_pair_view. rewrite (zip_with_app _ (ak ++ [j])) by (rewrite length_app; cbn; lia).
      by rewrite <- app_assoc.
    + by apply Hrep.
  - destruct (twf_node _ _ _ _ _ Ha) as (al & ak0 & ac0 & -> & Hca & _).
    destruct (twf_node _ _ _ _ _ Hb) as (bl & bk & bc & -> & Hcb & _).
    pose proof (cwf_length _ _ _ _ _ Hca) as Hlc. pose proof (cwf_length _ _ _ _ _ Hcb) as Hlb.
    cbn [tbody occupancy tloc] in *. rewrite length_fmap in Ho1, Ho2.
    destruct (snoc_inv ak0) as (ak & u & ->); [by intros ->; cbn in Hlc; lia|].
    destruct (snoc_inv ac0) as (ac & m & ->); [by intros ->; cbn in Hlc; lia|].
    destruct (get_sep ks1 s ks2) as [-> ->]. rewrite fmap_app. cbn [fmap list_fmap].
    rewrite heads_for_snoc, !take_snoc, !last_snoc.
    cbn [ix mbind out_bind mret out_ret]. eexists. split; [done|].
    destruct (node_borrow_left n' _ _ s al bl ak ac u m bk bc Hs Ha Hb) as (Hk & Ha' & Hb');
      [unfold MAX_KEYS; lia|].
    destruct (set_sep ks1 s ks2 u) as [-> ->].
    apply (fixed_two t (S n') lo hi l ks1 s ks2 cs1 _ _ cs2 (TNode al ak ac)
             (TNode bl (s :: bk) (m :: bc))); try done.
    + cbn [tchildren]. by rewrite <- app_assoc.
    + right. cbn [tbody]. done.
    + apply node_pair_view. by rewrite <- app_assoc.
    + by apply Hrep.
Qed.

(** One replacement for two neighbours finishes a fix-up that removed a node. *)
Lemma fixed_one t n lo hi l ks1 s ks2 cs1 a b cs2 c bb t' :
  rep t (TNode l (ks1 ++ s :: ks2) (cs1 ++ a :: b :: cs2)) ->
  tloc c = tloc a -> tchildren c = tchildren a ++ tchildren b -> pair_view a b [c] ->
  cwf (twf false n) lo (ks1 ++ ks2) hi (cs1 ++ c :: cs2) ->
  (length (ks1 ++ s :: ks2) <= MAX_KEYS)%nat ->
  let t0 := set_body (set_body (set_body t (tloc a) (tbody c)) (tloc b) bb) l
              (Internal (ks1 ++ ks2) (heads_for (ks1 ++ ks2)) (tloc <$> (cs1 ++ c :: cs2))) in
  store t' = store t0 -> brk t' = brk t -> root t' = root t -> entries t' = entries t ->
  fixed t n lo hi l ks1 s ks2 cs1 a b cs2 t' true.
Proof.
  intros Hr Hl Hch Hpv Hc Hm t0 Hst Hb Hrt He.
  destruct (set3_store t l ks1 s ks2 cs1 a b cs2 Hr (tbody c) bb
    (Internal (ks1 ++ ks2) (heads_for (ks1 ++ ks2)) (tloc <$> (cs1 ++ c :: cs2))) (tloc a) (tloc b))
    as (H1 & H2 & H3 & H4); [by left|].
  assert (Hps : pair_store t t' l (ks1 ++ ks2) cs1 a b cs2 [c]).
  { split; try done; rewrite ?Hst; try done.
    - right. cbn. by rewrite Hl.
    - cbn. by rewrite app_nil_r.
    - constructor; [|done]. by rewrite Hl. }
  destruct (pair_finish t n lo hi l ks1 s ks2 cs1 a b cs2 Hr _ _ _ Hps Hpv Hc) as (g' & ? & ? & ? & Hll).
  { rewrite length_app in *. cbn [length] in Hm. lia. }
  exists g'. split_and!; try done. cbn [length] in Hll. lia.
Qed.

Lemma drop_pair ks1 s ks2 cs1 a b cs2 c :
  length cs1 = length ks1 -> tloc c = tloc a ->
  vremove (length ks1) (ks1 ++ s :: ks2) = ks1 ++ ks2 /\
  vremove (length ks1) (heads_for (ks1 ++ s :: ks2)) = heads_for (ks1 ++ ks2) /\
  (tloc <$> (cs1 ++ a :: b :: cs2)) !! S (length ks1) = Some (tloc b) /\
  vremove (S (length ks1)) (tloc <$> (cs1 ++ a :: b :: cs2)) = tloc <$> (cs1 ++ c :: cs2).
Proof.
  intros Hlen Hl. split_and!.
  - by apply vremove_app.
  - rewrite !heads_for_app. change (heads_for (s :: ks2)) with (key_head s :: heads_for ks2).
    apply vremove_app. by rewrite length_heads_for.
  - change (a :: b :: cs2) with ([a] ++ b :: cs2). rewrite app_assoc. apply tloc_lookup.
    rewrite length_app. cbn. lia.
  - change (a :: b :: cs2) with ([a] ++ b :: cs2). rewrite app_assoc, !fmap_app, !fmap_cons.
    rewrite vremove_app by (rewrite length_app, !length_fmap; cbn; lia). cbn. rewrite Hl. by rewrite <- app_assoc.
Qed.

(** [merge] of the child with its right sibling, or of the left sibling with
    the child: the left node of the pair survives in both cases. *)
Lemma merge_ok t n lo hi l ks1 s ks2 cs1 a b cs2 (into_left : bool) :
  rep t (TNode l (ks1 ++ s :: ks2) (cs1 ++ a :: b :: cs2)) ->
  twf false (S n) lo hi (TNode l (ks1 ++ s :: ks2) (cs1 ++ a :: b :: cs2)) ->
  length cs1 = length ks1 ->
  (occupancy (tbody a) + occupancy (tbody b) < MAX_KEYS)%nat ->
  exists t', (if into_left
    then merge t l (ks1 ++ s :: ks2) (heads_for (ks1 ++ s :: ks2)) (tloc <$> (cs1 ++ a :: b :: cs2))
           (length ks1) (S (length ks1)) true (tloc a) (tbody a) (tloc b) (tbody b)
    else merge t l (ks1 ++ s :: ks2) (heads_for (ks1 ++ s :: ks2)) (tloc <$> (cs1 ++ a :: b :: cs2))
           (S (length ks1)) (length ks1) false (tloc b) (tbody b) (tloc a) (tbody a)) = Ret t' /\
    fixed t n lo hi l ks1 s ks2 cs1 a b cs2 t' true.
Proof.
  intros Hr Hw Hlen Ho.
  destruct (pair_bounds n lo hi l ks1 s ks2 cs1 a b cs2 Hw Hlen) as (lo' & hi' & Hs & Ha & Hb & _ & Hone & Hm).
  assert (Hmin1 : min (length ks1) (S (length ks1)) = length ks1) by lia.
  assert (Hmin2 : min (S (length ks1)) (length ks1) = length ks1) by lia.
  unfold merge. rewrite Hmin1, Hmin2. destruct n as [|n'].
  - destruct (twf_leaf _ _ _ _ Ha) as (al & ak & av & an & -> & Hla & _).
    destruct (twf_leaf _ _ _ _ Hb) as (bl & bk & bv & bn & -> & Hlb & _).
    cbn [tbody occupancy tloc] in *.
    set (c := TLeaf al (ak ++ bk) (av ++ bv) bn).
    destruct (drop_pair ks1 s ks2 cs1 (TLeaf al ak av an) (TLeaf bl bk bv bn) cs2 c Hlen eq_refl)
      as (-> & -> & Hev & ->).
    assert (Hfix : forall t', store t' = store (set_body (set_body (set_body t al
          (Leaf (ak ++ bk) (heads_for ak ++ heads_for bk) (av ++ bv) bn)) bl (Leaf [] [] [] None)) l
          (Internal (ks1 ++ ks2) (heads_for (ks1 ++ ks2)) (tloc <$> (cs1 ++ c :: cs2)))) ->
        brk t' = brk t -> root t' = root t -> entries t' = entries t ->
        fixed t 0 lo hi l ks1 s ks2 cs1 (TLeaf al ak av an) (TLeaf bl bk bv bn) cs2 t' true).
    { intros t' Hst ? ? ?. rewrite <- heads_for_app in Hst.
      apply (fixed_one t 0 lo hi l ks1 s ks2 cs1 _ _ cs2 c (Leaf [] [] [] None)); try done.
      - split; cbn; [by rewrite app_nil_r, zip_with_app| |done]. tauto.
      - apply Hone. apply (leaf_merge lo' hi' s al bl an bn Hs ak av bk bv bn Ha Hb). lia. }
    destruct into_left; cbn [mbind out_bind mret out_ret]; rewrite Hev; cbn [ix mbind out_bind mret out_ret];
      (eexists; split; [done|]; apply Hfix; done).
  - destruct (twf_node _ _ _ _ _ Ha) as (al & ak & ac & -> & Hca & _).
    destruct (twf_node _ _ _ _ _ Hb) as (bl & bk & bc & -> & Hcb & _).
    pose proof (cwf_length _ _ _ _ _ Hca) as Hlc. pose proof (cwf_length _ _ _ _ _ Hcb) as Hlb.
    cbn [tbody occupancy tloc] in *. rewrite !length_fmap in Ho.
    set (c := TNode al (ak ++ s :: bk) (ac ++ bc)).
    destruct (get_sep ks1 s ks2) as [-> ->].
    destruct (drop_pair ks1 s ks2 cs1 (TNode al ak ac) (TNode bl bk bc) cs2 c Hlen eq_refl)
      as (-> & -> & Hev & ->).
    assert (Hfix : forall t', store t' = store (set_body (set_body (set_body t al
          (Internal (ak ++ s :: bk) (heads_for ak ++ key_head s :: heads_for bk) ((tloc <$> ac) ++ (tloc <$> bc))))
          bl (Internal [] [] [])) l
          (Internal (ks1 ++ ks2) (heads_for (ks1 ++ ks2)) (tloc <$> (cs1 ++ c :: cs2)))) ->
        brk t' = brk t -> root t' = root t -> entries t' = entries t ->
        fixed t (S n') lo hi l ks1 s ks2 cs1 (TNode al ak ac) (TNode bl bk bc) cs2 t' true).
    { intros t' Hst ? ? ?. change (key_head s :: heads_for bk) with (heads_for (s :: bk)) in Hst.
      rewrite <- heads_for_app, <- fmap_app in Hst.
      apply (fixed_one t (S n') lo hi l ks1 s ks2 cs1 _ _ cs2 c (Internal [] [] [])); try done.
      - split; cbn [flat_map kvs leaves c]; intros; rewrite app_nil_r; by rewrite flat_map_app.
      - apply Hone. apply node_merge with (bl := bl); try done. lia. }
    cbn [ix mbind out_bind mret out_ret].
    destruct into_left; cbn [mbind out_bind mret out_ret]; rewrite Hev; cbn [ix mbind out_bind mret out_ret];
      (eexists; split; [done|]; apply Hfix; done).
Qed.

(** * Fix-up passes *)

(** A fix-up of the subtree [g]: same entries, [again] when it lost a node. *)
Definition fixup (t : BTree) (n : nat) (lo hi : option bytes) (g : tree) (t' : BTree) (again : bool) : Prop :=
  exists g', step_ok t g t' g' /\ kept false n lo hi g g' /\ kvs g' = kvs g /\
    (length (locs g') + (if again then 1 else 0) = length (locs g))%nat.

Lemma fix_child_ok t n lo hi l ks1 ks2 cs1 c cs2 :
  rep t (TNode l (ks1 ++ ks2) (cs1 ++ c :: cs2)) ->
  twf false (S n) lo hi (TNode l (ks1 ++ ks2) (cs1 ++ c :: cs2)) -> length cs1 = length ks1 ->
  (2 <= length (cs1 ++ c :: cs2))%nat -> (occupancy (tbody c) < MIN_KEYS)%nat ->
  exists t' again, fix_child t l (ks1 ++ ks2) (heads_for (ks1 ++ ks2)) (tloc <$> (cs1 ++ c :: cs2))
      (length ks1) (tloc c) (tbody c) = Ret (t', again) /\
    fixup t (S n) lo hi (TNode l (ks1 ++ ks2) (cs1 ++ c :: cs2)) t' again.
Proof.
  intros Hr Hw Hlen H2 Ho. pose proof (cwf_length _ _ _ _ _ (proj2 Hw)) as Hcl.
  rewrite !length_app in Hcl. cbn [length] in Hcl. rewrite length_app in H2. cbn [length] in H2.
  pose proof (rep_holds _ _ Hr) as Hh. apply holds_node in Hh as [_ Hh]. rewrite Forall_app, Forall_cons in Hh.
  destruct Hh as (Hh1 & _ & Hh2). unfold fix_child. rewrite length_fmap, length_app. cbn [length].
  destruct cs2 as [|b cs2].
  - rewrite bool_decide_eq_false_2 by (cbn [length]; lia).
    assert (ks2 = []) as -> by (destruct ks2; [done|cbn in Hcl; lia]).
    destruct (snoc_inv cs1) as (cs1' & a & ->); [by intros ->; cbn in H2; lia|].
    destruct (snoc_inv ks1) as (ks1' & s & ->); [by intros ->; rewrite length_app in Hlen; cbn in Hlen; lia|].
    rewrite !length_app in Hlen. cbn [length] in Hlen. rewrite app_nil_r in *. rewrite length_app. cbn [length].
    rewrite <- app_assoc in *. cbn [app] in *. replace (length ks1' + 1 - 1)%nat with (length ks1') by lia.
    replace (length ks1' + 1)%nat with (S (length ks1')) by lia.
    rewrite (tloc_lookup cs1' a [c]) by lia. cbn [ix mbind out_bind].
    rewrite Forall_app, Forall_singleton in Hh1. destruct Hh1 as [_ Hha].
    rewrite (holds_lock _ _ Hha). cbn [mbind out_bind]. case_bool_decide as Hb.
    + destruct (borrow_left_ok t n lo hi l ks1' s [] cs1' a c [] Hr Hw) as (t' & -> & Hf); [lia|done|done|].
      cbn [mbind out_bind]. by exists t', false.
    + destruct (merge_ok t n lo hi l ks1' s [] cs1' a c [] false Hr Hw) as (t' & -> & Hf);
        [lia|unfold MIN_KEYS, MAX_KEYS in *; cbn in Ho, Hb |- *; lia|].
      cbn [mbind out_bind]. by exists t', true.
  - rewrite bool_decide_eq_true_2 by (cbn [length]; lia).
    destruct ks2 as [|s ks2]; [cbn in Hcl; lia|].
    assert ((tloc <$> (cs1 ++ c :: b :: cs2)) !! S (length ks1) = Some (tloc b)) as ->.
    { change (c :: b :: cs2) with ([c] ++ b :: cs2). rewrite app_assoc. apply tloc_lookup.
      rewrite length_app. cbn. lia. }
    cbn [ix mbind out_bind]. apply Forall_cons in Hh2 as [Hhb _].
    rewrite (holds_lock _ _ Hhb). cbn [mbind out_bind]. case_bool_decide as Hb.
    + destruct (borrow_right_ok t n lo hi l ks1 s ks2 cs1 c b cs2 Hr Hw Hlen Ho Hb) as (t' & -> & Hf).
      cbn [mbind out_bind]. by exists t', false.
    + destruct (merge_ok t n lo hi l ks1 s ks2 cs1 c b cs2 true Hr Hw Hlen) as (t' & -> & Hf);
        [unfold MIN_KEYS, MAX_KEYS in *; cbn in Ho, Hb |- *; lia|].
      cbn [mbind out_bind]. by exists t', true.
Qed.

Lemma fixup_refl t n lo hi g : rep t g -> twf false n lo hi g -> fixup t n lo hi g t false.
Proof.
  intros. exists g. split; [by apply step_refl|]. split; [by apply kept_refl|]. split; [done|lia].
Qed.

Lemma fix_pass_loop_ok n fuel t g lo hi key :
  (n < fuel)%nat -> rep t g -> twf false n lo hi g -> within lo hi key ->
  exists t' again, fix_pass_loop fuel t (tloc g) key = Ret (t', again) /\ fixup t n lo hi g t' again.
Proof.
  revert fuel t g lo hi. induction n as [|n IH]; intros [|fuel] t g lo hi Hf Hr Hw Hin; try lia;
    cbn [fix_pass_loop]; rewrite (holds_lock _ _ (rep_holds _ _ Hr)); cbn [mbind out_bind].
  - destruct (twf_leaf _ _ _ _ Hw) as (l & ks & vs & nx & -> & _). cbn [tbody].
    exists t, false. split; [done|by apply fixup_refl].
  - destruct (twf_node _ _ _ _ _ Hw) as (l & ks & cs & -> & Hc & Hmax). cbn [tbody tloc].
    rewrite length_fmap. case_bool_decide as H1.
    { exists t, false. split; [done|by apply fixup_refl]. }
    destruct (cwf_route _ _ _ _ _ key (twf_bounded false n) Hc Hin)
      as (ks1 & ks2 & cs1 & c & cs2 & lo' & hi' & R).
    rewrite (routed_lb _ _ _ _ _ _ _ _ _ _ _ _ _ R). pose proof R as [-> -> Hl _ _ _ Hcw Hic _ _ _ _ _ _ _].
    assert (min (length ks1) (length (cs1 ++ c :: cs2) - 1) = length ks1) as ->.
    { rewrite length_app. cbn [length]. lia. }
    rewrite (tloc_lookup _ _ _ _ Hl). cbn [ix mbind out_bind].
    pose proof (rep_node _ _ _ _ _ _ Hr) as (Hrc & _). rewrite (holds_lock _ _ (rep_holds _ _ Hrc)).
    cbn [mbind out_bind]. case_bool_decide as Ho; [apply fix_child_ok; try done; lia|].
    destruct n as [|n].
    { destruct (twf_leaf _ _ _ _ Hcw) as (cl & cks & cvs & cnx & -> & _). cbn [tbody].
      exists t, false. split; [done|by apply fixup_refl]. }
    destruct (twf_node _ _ _ _ _ Hcw) as (cl & cks & ccs & Ec & _ & _).
    destruct (IH fuel t c lo' hi' ltac:(lia) Hrc Hcw Hic) as (t' & again & Heq & c' & Hst & Hk & Hkv & Hll).
    exists t', again. split; [by rewrite Ec in Heq |- *|].
    exists (TNode l (ks1 ++ ks2) (cs1 ++ c' :: cs2)). split; [by apply step_child|]. split; [|split].
    + by eapply kept_child; [apply same_view_refl|..].
    + cbn [kvs]. by rewrite !flat_map_mid, Hkv.
    + rewrite !locs_node, !flat_map_mid. cbn [length]. rewrite !length_app. lia.
Qed.

(** * The whole tree *)

Lemma btree_ok_loosen tg t n g : btree_ok tg t n g -> btree_ok false t n g.
Proof. intros []. split; try done. by eapply twf_loosen. Qed.

Lemma fix_passes_ok fuel t n g key :
  btree_ok false t n g -> Forall u8 key -> (length (locs g) < fuel)%nat ->
  exists t' g', fix_passes fuel t key = Ret t' /\ btree_ok false t' n g' /\ kvs g' = kvs g.
Proof.
  revert t g. induction fuel as [|fuel IH]; intros t g Hok Hk Hf; [lia|]. cbn [fix_passes].
  pose proof Hok as [Hr Hrt Hw _ _]. unfold fix_pass. rewrite Hrt.
  destruct (fix_pass_loop_ok n (depth_fuel t) t g None None key) as (t' & again & -> & g' & Hst & Hkp & Hkv & Hll);
    [by eapply depth_fuel_enough|done|done|by apply root_bounds|].
  cbn [mbind out_bind]. pose proof (btree_ok_step _ _ _ _ _ _ Hok Hst Hkp Hkv) as Hok'.
  destruct again; [|by exists t', g'].
  destruct (IH t' g' Hok' Hk) as (t2 & g2 & ? & ? & ?); [lia|]. exists t2, g2. by rewrite <- Hkv.
Qed.

Lemma collapse_root_ok fuel t n g :
  btree_ok false t n g -> (n < fuel)%nat ->
  exists t' n' g', collapse_root fuel t = Ret t' /\ btree_ok false t' n' g' /\ kvs g' = kvs g.
Proof.
  revert fuel t g. induction n as [|n IH]; intros [|fuel] t g Hok Hf; try lia;
    pose proof Hok as [Hr Hrt Hw Hc He]; cbn [collapse_root];
    rewrite Hrt, (holds_lock _ _ (rep_holds _ _ Hr)); cbn [mbind out_bind].
  - destruct (twf_leaf _ _ _ _ Hw) as (l & ks & vs & nx & -> & _). cbn [tbody]. by eexists t, _, _.
  - destruct (twf_node _ _ _ _ _ Hw) as (l & ks & cs & -> & Hcw & _). cbn [tbody].
    destruct cs as [|c [|c2 cs]]; cbn [fmap list_fmap]; [by eexists t, _, _| |by eexists t, _, _].
    destruct ks as [|k ks]; [|by apply cwf_length in Hcw].
    pose proof (rep_node t l [] [] c [] Hr) as (Hrc & _).
    destruct (IH fuel (bump_splits (set_root t (tloc c))) c) as (t' & n' & g' & ? & ? & Hkv); [|lia|].
    + split; [by apply (rep_store t)|done|done|by cbn in Hc; rewrite app_nil_r in Hc|].
      cbn. cbn in He. by rewrite app_nil_r in He.
    + exists t', n', g'. cbn [kvs flat_map]. by rewrite app_nil_r.
Qed.

Lemma kv_delete_length key v l :
  kv_lookup key l = Some v -> ksorted l.*1 -> Zlen (kv_delete key l) = Zlen l + -1.
Proof.
  intros H Hs. pose proof (kv_insert_length_found key v v l H Hs) as Hi. unfold kv_insert in Hi.
  unfold kv_delete. rewrite Zlen_app, Zlen_cons in Hi. rewrite Zlen_app. lia.
Qed.

Lemma remove_done tg t n g key :
  btree_ok tg t n g -> Forall u8 key ->
  exists t' n' g', remove t key = Ret (t', kv_lookup key (kvs g)) /\
    btree_ok false t' n' g' /\ kvs g' = kv_remove key (kvs g).
Proof.
  intros Hok Hk. apply btree_ok_loosen in Hok. pose proof Hok as [Hr Hrt Hw _ _]. unfold remove.
  destruct (delete_rec_ok false n (depth_fuel t) t g None None key) as (t' & g' & Heq & Hst & Hkp & Hkv);
    [by eapply depth_fuel_enough|done|done|by apply root_bounds|].
  rewrite Hrt, Heq. cbn [mbind out_bind]. unfold kv_remove in *.
  destruct (kv_lookup key (kvs g)) as [v|] eqn:Hlk.
  2:{ exists t', n, g'. split; [done|]. split; [|done]. by eapply btree_ok_step. }
  pose proof (btree_ok_put false t n g t' g' (-1) Hok Hst Hkp) as Hok'. cbn [Z.eqb] in Hok'.
  rewrite Hkv in Hok'. specialize (Hok' (kv_delete_length _ _ _ Hlk (kvs_sorted _ _ _ _ _ Hw))).
  cbn zeta. pose proof Hok' as [Hr' _ Hw' _ _].
  pose proof (nodup_below (locs g') _ (rep_nodup _ _ Hr') (fun l => rep_locs_lt _ g' l Hr')) as Hb.
  destruct (fix_passes_ok (depth_fuel (add_entries (-1) t')) (add_entries (-1) t') n g' key Hok' Hk)
    as (t1 & g1 & -> & Hok1 & Hkv1); [unfold depth_fuel; lia|].
  cbn [mbind out_bind].
  destruct (collapse_root_ok (depth_fuel t1) t1 n g1 Hok1) as (t2 & n2 & g2 & -> & Hok2 & Hkv2).
  { destruct Hok1. by eapply depth_fuel_enough. }
  cbn [mbind out_bind]. exists t2, n2, g2. by rewrite Hkv2, Hkv1, Hkv.
Qed.
