(* ===== verification/BTreeSpec.v ===== *)
(** The B+ tree as an ordered map: the sorted entry list is a finite map, every
    operation refines the map operation, and the one way a call can fail to
    return. *)
From stdpp Require Import base list gmap sorting.
From Stdlib Require Import ZArith Lia.
From S2P Require Import Prelude Machine BTree BTreeRep BTreeOps BTreeWrite BTreeScan BTreeRemove.

(** * Sorted entries and finite maps *)

Definition to_map (kv : list (bytes * bytes)) : gmap bytes bytes := list_to_map kv.

Lemma kv_lookup_map key kv : kv_lookup key kv = to_map kv !! key.
Proof.
  unfold kv_lookup, to_map. induction kv as [|[k v] kv IH]; cbn; [done|].
  case_bool_decide as H; cbn in *.
  - subst. by rewrite lookup_insert_eq.
  - by rewrite lookup_insert_ne.
Qed.

Lemma find_filter {A} (f h : A -> bool) l :
  (forall x, f x = true -> h x = true) -> List.find f (List.filter h l) = List.find f l.
Proof.
  intros H. induction l as [|x l IH]; cbn; [done|]. destruct (h x) eqn:E; cbn; rewrite IH; [done|].
  destruct (f x) eqn:E'; [|done]. by rewrite (H x E') in E.
Qed.

Lemma kv_lookup_app key a b :
  kv_lookup key (a ++ b) = match kv_lookup key a with Some v => Some v | None => kv_lookup key b end.
Proof. unfold kv_lookup. rewrite find_app. by destruct (List.find _ a) as [[? ?]|]. Qed.

Lemma find_filter_none {A} (f h : A -> bool) l :
  (forall x, f x = true -> h x = false) -> List.find f (List.filter h l) = None.
Proof.
  intros H. apply find_none. induction l as [|x l IH]; cbn; [constructor|].
  destruct (h x) eqn:E; [|done]. constructor; [|done].
  destruct (f x) eqn:E'; [|done]. by rewrite (H x E') in E.
Qed.

(** Looking up around the split of an entry list at [key]. *)
Lemma kv_lookup_sides key k kv :
  (if bool_decide (k = key) then kv_lookup k (below key kv) = None /\ kv_lookup k (above key kv) = None
   else kv_lookup k (below key kv ++ above key kv) = kv_lookup k kv).
Proof.
  case_bool_decide as E.
  - subst k. unfold kv_lookup, below, above.
    rewrite !find_filter_none; [done|..]; intros x ->%bool_decide_eq_true; destruct (blt_spec key key); try done; ko.
  - rewrite kv_lookup_app. unfold kv_lookup, below, above. destruct (klt_total k key) as [Hlt|[?|Hgt]]; [|done|].
    + rewrite (find_filter _ (fun e => blt e.1 key)).
      * rewrite find_filter_none; [by destruct (List.find _ kv)|].
        intros x ->%bool_decide_eq_true. destruct (blt_spec key k); [ko|done].
      * intros x ->%bool_decide_eq_true. by destruct (blt_spec k key).
    + rewrite (find_filter_none _ (fun e => blt e.1 key)).
      * rewrite find_filter; [done|]. intros x ->%bool_decide_eq_true. by destruct (blt_spec key k).
      * intros x ->%bool_decide_eq_true. destruct (blt_spec k key); [ko|done].
Qed.

Lemma kv_insert_map key v kv : to_map (kv_insert key v kv) = <[key := v]> (to_map kv).
Proof.
  apply map_eq. intros k. rewrite <- kv_lookup_map. unfold kv_insert.
  pose proof (kv_lookup_sides key k kv) as H. rewrite kv_lookup_app in *. case_bool_decide as E.
  - subst k. destruct H as [-> _]. rewrite lookup_insert_eq. unfold kv_lookup. cbn.
    by rewrite bool_decide_eq_true_2.
  - rewrite lookup_insert_ne by done. rewrite <- kv_lookup_map, <- H. destruct (kv_lookup k (below key kv)); [done|].
    unfold kv_lookup. cbn. by rewrite bool_decide_eq_false_2.
Qed.

Lemma kv_delete_map key kv : to_map (kv_delete key kv) = delete key (to_map kv).
Proof.
  apply map_eq. intros k. rewrite <- kv_lookup_map. unfold kv_delete.
  pose proof (kv_lookup_sides key k kv) as H. case_bool_decide as E.
  - subst k. rewrite lookup_delete_eq, kv_lookup_app. destruct H as [-> ->]. done.
  - rewrite lookup_delete_ne by done. by rewrite H, kv_lookup_map.
Qed.

Lemma kv_remove_map key kv : to_map (kv_remove key kv) = delete key (to_map kv).
Proof.
  unfold kv_remove. destruct (kv_lookup key kv) eqn:E; [apply kv_delete_map|].
  symmetry. apply delete_id. by rewrite <- kv_lookup_map.
Qed.

Lemma kv_put_map key v kv :
  to_map (kv_put key v kv) = match to_map kv !! key with Some _ => to_map kv | None => <[key := v]> (to_map kv) end.
Proof. unfold kv_put. rewrite kv_lookup_map. destruct (to_map kv !! key); [done|apply kv_insert_map]. Qed.

Lemma kv_replace_map key v kv :
  to_map (kv_replace key v kv) = match to_map kv !! key with Some _ => <[key := v]> (to_map kv) | None => to_map kv end.
Proof. unfold kv_replace. rewrite kv_lookup_map. destruct (to_map kv !! key); [apply kv_insert_map|done]. Qed.

(** * Histories *)

Inductive Op : Type :=
| OGet (k : bytes)
| OInsert (k v : bytes)
| OUpsert (k v : bytes)
| OUpdate (k v : bytes)
| ORemove (k : bytes).

Inductive Answer : Type :=
| AVal (v : option bytes)
| ADone (b : bool).

Definition op_key (o : Op) : bytes :=
  match o with OGet k | OInsert k _ | OUpsert k _ | OUpdate k _ | ORemove k => k end.

(** One call on the tree. *)
Definition call (fuel : nat) (t : BTree) (o : Op) : out (BTree * Answer) :=
  match o with
  | OGet k => v ← get t k; mret (t, AVal v)
  | OInsert k v => '(t, b) ← insert fuel t k v; mret (t, ADone b)
  | OUpsert k v => '(t, p) ← upsert fuel t k v; mret (t, AVal p)
  | OUpdate k v => '(t, p) ← update_in_place t k v; mret (t, AVal p)
  | ORemove k => '(t, p) ← remove t k; mret (t, AVal p)
  end.

Fixpoint calls (fuel : nat) (t : BTree) (os : list Op) : out (BTree * list Answer) :=
  match os with
  | [] => mret (t, [])
  | o :: os => '(t, a) ← call fuel t o; '(t, l) ← calls fuel t os; mret (t, a :: l)
  end.

(** The same call on a finite map: the contract of the tree. *)
Definition map_call (m : gmap bytes bytes) (o : Op) : gmap bytes bytes * Answer :=
  match o with
  | OGet k => (m, AVal (m !! k))
  | OInsert k v =>
    (match m !! k with Some _ => m | None => <[k := v]> m end, ADone (bool_decide (m !! k = None)))
  | OUpsert k v => (<[k := v]> m, AVal (m !! k))
  | OUpdate k v => (match m !! k with Some _ => <[k := v]> m | None => m end, AVal (m !! k))
  | ORemove k => (delete k m, AVal (m !! k))
  end.

Fixpoint map_calls (m : gmap bytes bytes) (os : list Op) : gmap bytes bytes * list Answer :=
  match os with
  | [] => (m, [])
  | o :: os => let '(m, a) := map_call m o in let '(m, l) := map_calls m os in (m, a :: l)
  end.

(** [t] stores the map [m]. *)
Definition stores (tg : bool) (t : BTree) (m : gmap bytes bytes) : Prop :=
  exists n g, btree_ok tg t n g /\ to_map (kvs g) = m.

Definition is_remove (o : Op) : bool := match o with ORemove _ => true | _ => false end.

Lemma moved_dec n g key : moved n g key \/ ~ moved n g key.
Proof.
  revert g. induction n as [|n IH]; intros [l ks vs nx|l ks cs]; cbn; try tauto.
  - destruct (moved_right ks nx key); auto.
  - destruct (cs !! _); auto.
Qed.

(** A call that writes a new key does not return when the key is routed to a
    leaf that sends it away; every other call returns what the map returns. *)
Lemma call_ok tg fuel t n g o :
  btree_ok tg t n g -> Forall u8 (op_key o) -> (2 <= fuel)%nat ->
  (moved n g (op_key o) /\ call fuel t o = Fuel) \/
  exists t' m' a, call fuel t o = Ret (t', a) /\ map_call (to_map (kvs g)) o = (m', a) /\
    stores (tg && negb (is_remove o)) t' m'.
Proof.
  intros Hok Hk Hf. destruct o as [k|k v|k v|k v|k]; cbn [op_key call map_call is_remove negb] in *;
    rewrite ?andb_true_r, ?andb_false_r.
  - right. exists t, (to_map (kvs g)), (AVal (to_map (kvs g) !! k)). split_and!; [|done|by exists n, g].
    unfold get. destruct Hok as [Hr -> Hw _ _].
    rewrite (get_loop_ok tg n _ t g None None k); [by rewrite kv_lookup_map|by eapply depth_fuel_enough|done|done|by apply root_bounds].
  - destruct (moved_dec n g k) as [Hm|Hm]; [left; by rewrite (insert_moved tg fuel t n g)|right].
    destruct (insert_done tg fuel t n g k v Hok Hk Hm Hf) as (t' & n' & g' & -> & Hok' & Hkv).
    cbn [mbind out_bind]. rewrite kv_lookup_map. eexists t', _, _. split_and!; [done|done|].
    exists n', g'. split; [done|]. by rewrite Hkv, kv_put_map.
  - destruct (moved_dec n g k) as [Hm|Hm]; [left; by rewrite (upsert_moved tg fuel t n g)|right].
    destruct (upsert_done tg fuel t n g k v Hok Hk Hm Hf) as (t' & n' & g' & -> & Hok' & Hkv).
    cbn [mbind out_bind]. rewrite kv_lookup_map. eexists t', _, _. split_and!; [done|done|].
    exists n', g'. split; [done|]. by rewrite Hkv, kv_insert_map.
  - right. destruct (update_in_place_done tg t n g k v Hok Hk) as (t' & g' & -> & Hok' & Hkv).
    cbn [mbind out_bind]. rewrite kv_lookup_map. eexists t', _, _. split_and!; [done|done|].
    exists n, g'. split; [done|]. by rewrite Hkv, kv_replace_map.
  - right. destruct (remove_done tg t n g k Hok Hk) as (t' & n' & g' & -> & Hok' & Hkv).
    cbn [mbind out_bind]. rewrite kv_lookup_map. eexists t', _, _. split_and!; [done|done|].
    exists n', g'. split; [done|]. by rewrite Hkv, kv_remove_map.
Qed.

Lemma stores_new : stores true btree_new ∅.
Proof. destruct models_new as (n & g & Hok & Hkv). exists n, g. by rewrite Hkv. Qed.

Lemma stores_loosen tg t m : stores tg t m -> stores false t m.
Proof. intros (n & g & Hok & Hkv). exists n, g. split; [by eapply btree_ok_loosen|done]. Qed.

Lemma calls_refine fuel t m os :
  stores false t m -> Forall (fun o => Forall u8 (op_key o)) os -> (2 <= fuel)%nat ->
  calls fuel t os = Fuel \/
  exists t', calls fuel t os = Ret (t', (map_calls m os).2) /\ stores false t' (map_calls m os).1.
Proof.
  intros Hst Hk Hf. revert t m Hst. induction Hk as [|o os Ho _ IH]; intros t m Hst; cbn [calls map_calls].
  - right. by exists t.
  - destruct Hst as (n & g & Hok & <-).
    destruct (call_ok false fuel t n g o Hok Ho Hf) as [[_ ->]|(t' & m' & a & -> & -> & Hst')]; [by left|].
    cbn [mbind out_bind]. destruct (IH t' m' Hst') as [->|(t2 & -> & Hst2)]; [by left|right].
    destruct (map_calls m' os) as [m2 l]. by exists t2.
Qed.

(** * Properties *)

Definition demo_ops : list Op :=
  [OInsert [1; 1] [7]; OInsert [1; 1] [8]; OUpsert [1; 2] [9]; OUpdate [1; 1] [5]; OGet [1; 1]; OGet [3]].

Lemma demo_keys (os : list Op) :
  forallb (fun o => forallb (fun b => (0 <=? b) && (b <? 256)) (op_key o)) os = true ->
  Forall (fun o => Forall u8 (op_key o)) os.
Proof.
  intros H. apply Forall_forall. intros o Ho. rewrite forallb_forall in H.
  rewrite list_elem_of_In in Ho. specialize (H o Ho). rewrite forallb_forall in H.
  apply Forall_forall. intros b Hb. rewrite list_elem_of_In in Hb. specialize (H b Hb).
  bsimp. unfold in_u. change (2 ^ 8) with 256. lia.
Qed.

(** C8: The B+ tree implements a finite map: from any tree the operations
    built, every history of lookups, insertions, upserts, in-place updates and
    removals gives the answers a finite map gives and leaves a tree that stores
    that map, unless one of the insertions never returns. *)
Theorem btree_refines_map fuel t m os :
  stores false t m -> Forall (fun o => Forall u8 (op_key o)) os -> (2 <= fuel)%nat ->
  calls fuel t os = Fuel \/
  exists t', calls fuel t os = Ret (t', (map_calls m os).2) /\ stores false t' (map_calls m os).1.
Proof.
  apply calls_refine.
Qed.

Lemma btree_refines_map_witness :
  calls 2 btree_new (demo_ops ++ [ORemove [1; 2]; OGet [1; 2]]) = Fuel \/
  exists t', calls 2 btree_new (demo_ops ++ [ORemove [1; 2]; OGet [1; 2]]) =
    Ret (t', (map_calls ∅ (demo_ops ++ [ORemove [1; 2]; OGet [1; 2]])).2) /\
    stores false t' (map_calls ∅ (demo_ops ++ [ORemove [1; 2]; OGet [1; 2]])).1.
Proof.
  apply (btree_refines_map 2 btree_new ∅).
  - exact (stores_loosen _ _ _ stores_new).
  - apply demo_keys. reflexivity.
  - lia.
Defined.

(** C35: Histories without removals always return: starting from the empty
    tree, every insertion, upsert, update and lookup answers like a finite map
    after at most one wrapping of a full root and one descent. *)
Theorem btree_total_without_removal fuel t m os :
  stores true t m -> Forall (fun o => Forall u8 (op_key o)) os -> forallb (fun o => negb (is_remove o)) os = true ->
  (2 <= fuel)%nat ->
  exists t', calls fuel t os = Ret (t', (map_calls m os).2) /\ stores true t' (map_calls m os).1.
Proof.
  intros Hst Hk Hn Hf. revert t m Hst Hn. induction Hk as [|o os Ho _ IH]; intros t m Hst Hn; cbn [calls map_calls].
  - by exists t.
  - cbn in Hn. apply andb_true_iff in Hn as [Hno Hn]. destruct Hst as (n & g & Hok & <-).
    destruct (call_ok true fuel t n g o Hok Ho Hf) as [[Hm _]|(t' & m' & a & -> & -> & Hst')].
    + destruct Hok as [_ _ Hw Hc _]. by destruct (tight_not_moved n None None g None (op_key o) Hw Hc (fun _ => eq_refl) (root_bounds _ Ho)).
    + rewrite Hno in Hst'. cbn [mbind out_bind]. destruct (IH t' m' Hst' Hn) as (t2 & -> & Hst2).
      destruct (map_calls m' os) as [m2 l]. by exists t2.
Qed.

Lemma btree_total_without_removal_witness :
  exists t', calls 2 btree_new demo_ops = Ret (t', (map_calls ∅ demo_ops).2) /\
    stores true t' (map_calls ∅ demo_ops).1.
Proof.
  apply (btree_total_without_removal 2 btree_new ∅ demo_ops).
  - exact stores_new.
  - apply demo_keys. reflexivity.
  - reflexivity.
  - lia.
Defined.

(** C19: Removing a key always returns the removed value, its borrowing,
    merging and root-collapsing passes terminate, and what is left is the map
    without the key. *)
Theorem btree_remove_spec t m key :
  stores false t m -> Forall u8 key ->
  exists t', remove t key = Ret (t', m !! key) /\ stores false t' (delete key m).
Proof.
  intros (n & g & Hok & <-) Hk. destruct (remove_done false t n g key Hok Hk) as (t' & n' & g' & -> & Hok' & Hkv).
  exists t'. rewrite kv_lookup_map. split; [done|]. exists n', g'. split; [done|]. by rewrite Hkv, kv_remove_map.
Qed.

Lemma btree_remove_spec_witness :
  exists t', remove btree_new [4; 2] = Ret (t', (∅ : gmap bytes bytes) !! [4; 2]) /\
    stores false t' (delete [4; 2] (∅ : gmap bytes bytes)).
Proof.
  apply (btree_remove_spec btree_new ∅ [4; 2]).
  - exact (stores_loosen _ _ _ stores_new).
  - rewrite !Forall_cons. unfold in_u. split_and!; done.
Defined.

(** ** A key that cannot be inserted again *)

(** The descent of an insertion ends in a restart. *)
Definition restarts (t : BTree) (key val : bytes) : bool :=
  match wrap_root t, insert_rec (depth_fuel t) t (root t) key val with
  | Ret None, Ret (_, Restart) => true
  | _, _ => false
  end.

Lemma restarts_moved tg t n g key val :
  btree_ok tg t n g -> Forall u8 key -> restarts t key val = true -> moved n g key.
Proof.
  intros Hok Hk H. unfold restarts in H.
  destruct (wrap_root_ok _ _ _ _ Hok) as (w & Hw & Hfree). rewrite Hw in H. destruct w; [done|].
  pose proof Hok as [Hr Hrt Hwf _ _]. rewrite Hrt in H.
  destruct (insert_rec_ok tg n (depth_fuel t) t g None None key val) as (t' & g' & d & Heq & _ & _ & Hd);
    [by eapply depth_fuel_enough|done|done|by apply root_bounds|done|].
  rewrite Heq in H. destruct Hd as [[? _]|(_ & -> & _)]; done.
Qed.

Definition key2 (n : Z) : bytes := [n / 256; n mod 256].

(** Keys 2, 4, ..., 258, then 1: the first leaf holds 65 keys below its upper
    bound 128; then 128 is removed. *)
Definition hang_ops : list Op :=
  ((fun i => OInsert (key2 (2 * Z.of_nat i)) [0]) <$> seq 1 129) ++ [OInsert (key2 1) [0]; ORemove (key2 128)].

Definition hang_check : bool :=
  match calls 2 btree_new hang_ops with
  | Ret (t, _) =>
    forallb (fun k => restarts t k [0] && match get t k with Ret None => true | _ => false end)
      [key2 128; key2 127]
  | _ => false
  end.

Lemma Ret_fst {A B} (a c : A) (b d : B) : Ret (a, b) = Ret (c, d) -> a = c.
Proof. congruence. Qed.

Lemma hang_check_true : hang_check = true.
Proof. vm_compute. reflexivity. Qed.

(** C36: A short history of calls that all return (130 insertions and one
    removal) leaves a tree without the key 128 in which inserting or upserting
    128, or 127, never returns: the removal keeps the separator, the search
    leads to a leaf whose last key is smaller, and the insertion starts over
    each time. *)
Theorem insert_livelock :
  exists t answers, calls 2 btree_new hang_ops = Ret (t, answers) /\
    forall key fuel val, key = key2 128 \/ key = key2 127 ->
      get t key = Ret None /\ insert fuel t key val = Fuel /\ upsert fuel t key val = Fuel.
Proof.
  pose proof hang_check_true as Hc. unfold hang_check in Hc.
  destruct (calls 2 btree_new hang_ops) as [[t l]| |] eqn:E; [|done|done].
  exists t, l. split; [done|]. intros key fuel val Hkey.
  destruct (calls_refine 2 btree_new ∅ hang_ops) as [H|(t' & H & n & g & Hok & _)];
    [exact (stores_loosen _ _ _ stores_new)|by apply demo_keys|lia|congruence|].
  rewrite E in H. apply Ret_fst in H. subst t'. clear E.
  assert (Hk : Forall u8 key) by (destruct Hkey as [-> | ->]; unfold key2; rewrite !Forall_cons; unfold in_u; split_and!; done).
  rewrite forallb_forall in Hc. assert (Hin : In key [key2 128; key2 127]) by (destruct Hkey as [-> | ->]; [left|right; left]; reflexivity).
  specialize (Hc key Hin). apply andb_true_iff in Hc as [Hre Hget].
  pose proof (restarts_moved false t n g key [0] Hok Hk Hre) as Hm. split_and!.
  - by destruct (get t key) as [[?|]| |].
  - by apply (insert_moved false fuel t n g).
  - by apply (upsert_moved false fuel t n g).
Qed.
