(* ===== verification/Mvcc.v ===== *)
(** The version buffer and the commit pipeline (db/mvcc.rs, and phases A and C
    of [commit_txn] / [commit_single_update] in db/mod.rs and db/dml.rs): how
    superseded row states are recorded, what a pinned snapshot reads, and what
    garbage collection may drop.

    A row is kept as the bytes the tree stores; [decode_stored] is a parameter.
    Epochs are [Z]: a 64-bit counter that starts at 1 and grows by one per
    commit. *)
From stdpp Require Import base list gmap strings sorting.
From Stdlib Require Import ZArith Lia.
From S2P Require Import Prelude.

Section mvcc.
Context {Row : Type} (decode_stored : bytes -> res Row).

(** (table name, encoded primary key) *)
Abbreviation K := (bytes * bytes)%type.

(** Superseded states of one key, newest first. *)
Abbreviation Chain := (list (Z * option Row)).

Record VersionState := mkVersions {
  committed : gmap K Z;
  chains : gmap K Chain;
  snapshots : gmap Z Z;
  next_snapshot_id : Z;
}.

Definition vs_new : VersionState := mkVersions ∅ ∅ ∅ 1.

Definition vs_clear (vs : VersionState) : VersionState :=
  mkVersions ∅ ∅ ∅ (next_snapshot_id vs).

(** [self.snapshots.values().min()] *)
Definition oldest_snapshot (vs : VersionState) : option Z :=
  map_fold (fun _ e acc => match acc with None => Some e | Some a => Some (Z.min e a) end) None (snapshots vs).

Definition prune (oldest : Z) (c : Chain) : option Chain :=
  match List.filter (fun e => oldest <? e.1) c with [] => None | c => Some c end.

Definition gc_locked (vs : VersionState) : VersionState :=
  match oldest_snapshot vs with
  | None => mkVersions ∅ ∅ (snapshots vs) (next_snapshot_id vs)
  | Some oldest =>
    mkVersions (filter (fun p => oldest < p.2) (committed vs)) (omap (prune oldest) (chains vs))
      (snapshots vs) (next_snapshot_id vs)
  end.

(** * Recording superseded states *)

Definition decode_raw_opt (raw : option bytes) : res (option Row) :=
  match raw with None => mret None | Some r => x ← decode_stored r; mret (Some x) end.

(** One iteration of [record_commit_batch], and [record_install]: the state is
    unchanged when the write changes nothing. *)
Definition record_install (vs : VersionState) (tree : gmap K bytes) (k : K) (new_enc : option bytes)
    (epoch : Z) : res VersionState :=
  let prev_raw := tree !! k in
  if bool_decide (prev_raw = new_enc) then mret vs
  else
    prev ← decode_raw_opt prev_raw;
    mret (mkVersions (<[k := epoch]> (committed vs))
            (<[k := (epoch, prev) :: default [] (chains vs !! k)]> (chains vs))
            (snapshots vs) (next_snapshot_id vs)).

(** The batch stops at the first error and keeps what it recorded. *)
Fixpoint record_commit_batch (vs : VersionState) (tree : gmap K bytes)
    (staged : list (K * option bytes)) (epoch : Z) : VersionState * bool :=
  match staged with
  | [] => (vs, true)
  | (k, enc) :: staged =>
    match record_install vs tree k enc epoch with
    | Ok vs => record_commit_batch vs tree staged epoch
    | _ => (vs, false)
    end
  end.

(** * Snapshot reads *)

Record SnapshotPin := mkPin { pin_id : Z; read_epoch : Z; is_statement : bool; created_at : Z }.

(** The walk along a chain: the last entry above the read epoch. *)
Fixpoint walk (R : Z) (c : Chain) (ans : option (option Row)) : option (option Row) :=
  match c with
  | [] => ans
  | (until, row) :: c => if R <? until then walk R c (Some row) else ans
  end.

Definition too_old (max_age : option Z) (now : Z) (p : SnapshotPin) : bool :=
  match max_age with Some a => a <? now - created_at p | None => false end.

(** The message of the age error leaves out the printed duration. *)
Definition snapshot_lookup (vs : VersionState) (max_age : option Z) (now : Z)
    (snapshot : option SnapshotPin) (k : K) (current : option Row) : res (option Row) :=
  match snapshot with
  | None => mret current
  | Some p =>
    if too_old max_age now p then Err (ExecutionError (str "snapshot exceeded maximum configured age limit"))
    else if default 0 (committed vs !! k) <=? read_epoch p then mret current
    else match walk (read_epoch p) (default [] (chains vs !! k)) None with
         | Some ans => mret ans
         | None => Err (ExecutionError (str "snapshot isolation violation: version history missing for table '" ++ k.1 ++ str "'"))
         end
  end.

(** Rows of deleted keys a snapshot still sees; [present] holds the keys the
    scan of [table] produced. *)
Definition snapshot_scan_extra (vs : VersionState) (max_age : option Z) (now : Z)
    (snapshot : option SnapshotPin) (table : bytes) (present : gset bytes) : res (list (bytes * Row)) :=
  match snapshot with
  | None => mret []
  | Some p =>
    if too_old max_age now p then Err (ExecutionError (str "snapshot exceeded maximum configured age limit"))
    else mret (omap (fun '((t, k), c) =>
                 if bool_decide (t <> table) || bool_decide (k ∈ present) then None
                 else match walk (read_epoch p) c None with
                      | Some (Some row) => Some (k, row)
                      | _ => None
                      end) (map_to_list (chains vs)))
  end.

(** * The database around the buffer *)

(** The commit whose installation is running: its epoch, and the writes still
    to be applied once its superseded states are recorded. *)
Record Install := mkInstall { in_epoch : Z; in_recorded : bool; in_failed : bool; in_todo : list (K * option bytes) }.

(** [published e] is the ghost record of the tree when [visible_epoch] became
    [e]; no operation reads it. *)
Record Db := mkDb {
  tree : gmap K bytes;
  versions : VersionState;
  commit_epoch : Z;
  visible_epoch : Z;
  queue : list (Z * list (K * option bytes));
  install : option Install;
  next_txn : Z;
  published : gmap Z (gmap K bytes);
}.

Definition db_open (rows : gmap K bytes) : Db :=
  mkDb rows vs_new 1 0 [] None 1 {[ 0 := rows ]}.

Definition set_versions (s : Db) (vs : VersionState) : Db :=
  mkDb (tree s) vs (commit_epoch s) (visible_epoch s) (queue s) (install s) (next_txn s) (published s).

(** Phase A: allocate the epoch under the commit lock and append; the queue is
    in log order. *)
Definition append_commit (s : Db) (staged : list (K * option bytes)) : Db :=
  mkDb (tree s) (versions s) (commit_epoch s + 1) (visible_epoch s)
    (queue s ++ [(commit_epoch s, staged)]) (install s) (next_txn s) (published s).

Definition apply_write (t : gmap K bytes) (w : K * option bytes) : gmap K bytes :=
  match w.2 with Some enc => <[w.1 := enc]> t | None => delete w.1 t end.

(** Register a pin at the visible epoch, under the write lock of the buffer. *)
Definition pin_snapshot (s : Db) (stmt : bool) (now : Z) : Db * SnapshotPin :=
  let vs := versions s in
  (set_versions s (mkVersions (committed vs) (chains vs)
                     (<[next_snapshot_id vs := visible_epoch s]> (snapshots vs))
                     (next_snapshot_id vs + 1)),
   mkPin (next_snapshot_id vs) (visible_epoch s) stmt now).

(** Drop a pin and prune, under the write lock of the buffer. *)
Definition release_snapshot (s : Db) (id : Z) : Db :=
  let vs := versions s in
  set_versions s (gc_locked (mkVersions (committed vs) (chains vs) (delete id (snapshots vs))
                               (next_snapshot_id vs))).

Definition gc_versions (s : Db) : Db := set_versions s (gc_locked (versions s)).

(** The part of a session the snapshots need: the id of its transaction and
    its pin. *)
Record Session := mkSession { txn : option Z; snapshot : option SnapshotPin }.

Definition snapshot_begin (s : Db) (x : Session) (now : Z) : res (Db * Session) :=
  match txn x with
  | Some _ => Err (TxnConflict (str "transaction already active"))
  | None =>
    let '(s, p) := pin_snapshot s false now in
    mret (mkDb (tree s) (versions s) (commit_epoch s) (visible_epoch s) (queue s) (install s)
            (next_txn s + 1) (published s), mkSession (Some (next_txn s)) (Some p))
  end.

Definition snapshot_pin_active (s : Db) (x : Session) (now : Z) : Db * Session :=
  match snapshot x with
  | Some _ => (s, x)
  | None => let '(s, p) := pin_snapshot s false now in (s, mkSession (txn x) (Some p))
  end.

Definition snapshot_pin_statement (s : Db) (x : Session) (now : Z) : Db * Session :=
  match snapshot x with
  | Some _ => (s, x)
  | None => let '(s, p) := pin_snapshot s true now in (s, mkSession (txn x) (Some p))
  end.

Definition snapshot_end_statement (s : Db) (x : Session) : Db * Session :=
  match snapshot x with
  | Some p => if is_statement p then (release_snapshot s (pin_id p), mkSession (txn x) None) else (s, x)
  | None => (s, x)
  end.

Definition snapshot_end (s : Db) (x : Session) : Db * Session :=
  match snapshot x with
  | Some p => (release_snapshot s (pin_id p), mkSession (txn x) None)
  | None => (s, x)
  end.

(** The [Commit] and [Rollback] statements, with the outcome of [commit_txn] on
    the staged writes. *)
Definition exec_commit (s : Db) (x : Session) (commit_txn : Db -> Db * res ()) : Db * Session * res () :=
  match txn x with
  | None => let '(s, x) := snapshot_end s x in (s, x, mret ())
  | Some _ =>
    let x := mkSession None (snapshot x) in
    match commit_txn s with
    | (s, Ok _) => let '(s, x) := snapshot_end s x in (s, x, mret ())
    | (s, e) => (s, x, e)
    end
  end.

Definition exec_rollback (s : Db) (x : Session) : Db * Session :=
  snapshot_end s (mkSession None (snapshot x)).

(** Forget one table, or every table of a database. *)
Definition purge_table_versions (vs : VersionState) (table_key : bytes) : VersionState :=
  mkVersions (filter (fun p => p.1.1 <> table_key) (committed vs))
    (filter (fun p => p.1.1 <> table_key) (chains vs)) (snapshots vs) (next_snapshot_id vs).

Definition purge_db_versions (vs : VersionState) (pre : bytes) : VersionState :=
  mkVersions (filter (fun p => take (length pre) p.1.1 <> pre) (committed vs))
    (filter (fun p => take (length pre) p.1.1 <> pre) (chains vs)) (snapshots vs) (next_snapshot_id vs).

(** The steps of phase C, of snapshots and of garbage collection, as they
    interleave: each is one critical section of the source. *)
Inductive Step : Type :=
| SAppend (staged : list (K * option bytes))
| SRecord
| SApply
| SPublish
| SGc
| SPin
| SEnd (id : Z).

Definition step (s : Db) (l : Step) : option Db :=
  match l with
  | SAppend staged => Some (append_commit s staged)
  | SRecord =>
    match install s, queue s with
    | None, (e, staged) :: q =>
      let '(vs, ok) := record_commit_batch (versions s) (tree s) staged e in
      Some (mkDb (tree s) vs (commit_epoch s) (visible_epoch s) q
              (Some (mkInstall e true (negb ok) staged)) (next_txn s) (published s))
    | _, _ => None
    end
  | SApply =>
    match install s with
    | Some (mkInstall e true false (w :: todo)) =>
      Some (mkDb (apply_write (tree s) w) (versions s) (commit_epoch s) (visible_epoch s) (queue s)
              (Some (mkInstall e true false todo)) (next_txn s) (published s))
    | _ => None
    end
  | SPublish =>
    match install s with
    | Some (mkInstall e true false []) =>
      Some (mkDb (tree s) (versions s) (commit_epoch s) e (queue s) None (next_txn s)
              (<[e := tree s]> (published s)))
    | _ => None
    end
  | SGc => Some (gc_versions s)
  | SPin => Some (pin_snapshot s true 0).1
  | SEnd id => Some (release_snapshot s id)
  end.

Fixpoint run (s : Db) (ls : list Step) : option Db :=
  match ls with
  | [] => Some s
  | l :: ls => match step s l with Some s => run s ls | None => None end
  end.

(** Garbage collection that clears the whole buffer: no pin is left. *)
Definition clears (s : Db) (l : Step) : bool :=
  match l with
  | SGc => bool_decide (snapshots (versions s) = ∅)
  | SEnd id => bool_decide (delete id (snapshots (versions s)) = ∅)
  | _ => false
  end.

(** No such collection runs while an installation is between recording its
    superseded states and publishing its epoch. *)
Fixpoint quiet (s : Db) (ls : list Step) : bool :=
  match ls with
  | [] => true
  | l :: ls =>
    negb (clears s l && bool_decide (is_Some (install s))) &&
    match step s l with Some s => quiet s ls | None => true end
  end.

(** * Chains *)

Abbreviation committed_at vs k := (default 0 (committed vs !! k)).
Abbreviation chain_of vs k := (default [] (chains vs !! k)).

(** The committed epoch of a key is the newest entry of its chain, and entries
    are ordered by epoch. *)
Definition chain_ok (c : option Z) (ch : Chain) : Prop :=
  c = fst <$> head ch /\ StronglySorted (fun a b => b.1 <= a.1) ch.

Lemma walk_stop R c ans : Forall (fun e => e.1 <= R) c -> walk R c ans = ans.
Proof. destruct 1 as [|[u r] c H _]; cbn; [done|]. cbn in H. by zb. Qed.

Lemma walk_seed R c ans u r : R < u -> walk R ((u, r) :: c) ans = walk R ((u, r) :: c) None.
Proof. intros H. cbn. by zb. Qed.

Lemma chain_ok_le c ch R : chain_ok c ch -> default 0 c <= R -> Forall (fun e => e.1 <= R) ch.
Proof.
  intros [-> Hs] H. destruct ch as [|[u r] ch]; [constructor|]. cbn in H. inversion Hs as [|? ? _ Hall]; subst.
  constructor; [done|]. eapply Forall_impl; [exact Hall|]. cbn. intros. lia.
Qed.

Lemma chain_ok_push c ch e row : chain_ok c ch -> default 0 c <= e -> chain_ok (Some e) ((e, row) :: ch).
Proof.
  intros Hc He. split; [done|]. constructor; [apply Hc|]. by apply (chain_ok_le c).
Qed.

Lemma filter_walk o R c ans :
  o <= R -> StronglySorted (fun a b => b.1 <= a.1) c ->
  walk R (List.filter (fun e => o <? e.1) c) ans = walk R c ans.
Proof.
  intros Ho Hs. revert ans. induction Hs as [|[u r] c Hs IH Hall]; intros ans; [done|]. cbn [List.filter fst walk].
  destruct (Z.ltb_spec R u) as [Hu|Hu].
  - assert ((o <? u) = true) as -> by (by zb; lia). cbn [walk]. rewrite (proj2 (Z.ltb_lt R u)) by lia. apply IH.
  - destruct (o <? u); [cbn [walk]; by rewrite (proj2 (Z.ltb_ge R u))|].
    rewrite IH. apply walk_stop. eapply Forall_impl; [exact Hall|]. cbn. intros. lia.
Qed.

Lemma head_filter o c ch :
  chain_ok c ch -> fst <$> head (List.filter (fun e => o <? e.1) ch) = (if o <? default 0 c then c else None) \/
                   (c = None /\ ch = []).
Proof.
  intros [-> Hs]. destruct ch as [|[u r] ch]; [by right|left]. cbn.
  inversion Hs as [|? ? _ Hall]; subst. destruct (Z.ltb_spec o u); [done|].
  assert (List.filter (fun e => o <? e.1) ch = []) as ->; [|done].
  clear Hs. induction Hall as [|x ch Hx _ IH]; [done|]. cbn in *. by zb.
Qed.

(** ** Pins *)

Lemma oldest_spec vs :
  match oldest_snapshot vs with
  | None => snapshots vs = ∅
  | Some o => (exists id, snapshots vs !! id = Some o) /\ forall id R, snapshots vs !! id = Some R -> o <= R
  end.
Proof.
  unfold oldest_snapshot. apply (map_fold_weak_ind (fun r (m : gmap Z Z) =>
    match r with
    | None => m = ∅
    | Some o => (exists id, m !! id = Some o) /\ forall id R, m !! id = Some R -> o <= R
    end)); [done|].
  intros i e m r Hi IH. destruct r as [a|].
  - destruct IH as [[id Hid] Hall]. split.
    + destruct (Z.min_spec e a) as [[_ ->]|[_ ->]].
      * exists i. by rewrite lookup_insert_eq.
      * exists id. rewrite lookup_insert_ne by congruence. done.
    + intros j R Hj. destruct (decide (i = j)) as [->|Hne].
      * rewrite lookup_insert_eq in Hj. injection Hj as <-. lia.
      * rewrite lookup_insert_ne in Hj by done. apply Hall in Hj. lia.
  - subst m. split; [exists i; by rewrite lookup_insert_eq|].
    intros j R Hj. destruct (decide (i = j)) as [->|Hne].
    + rewrite lookup_insert_eq in Hj. injection Hj as <-. lia.
    + by rewrite lookup_insert_ne, lookup_empty in Hj.
Qed.

(** * What a snapshot reads *)

(** At read epoch [R] the buffer [vs] over the tree [t] gives the rows of [h]. *)
Definition reads (vs : VersionState) (t h : gmap K bytes) (R : Z) : Prop := forall k,
  (committed_at vs k <= R -> t !! k = h !! k) /\
  (R < committed_at vs k ->
   exists row, walk R (chain_of vs k) None = Some row /\ decode_raw_opt (h !! k) = Ok row).

Definition chains_ok (vs : VersionState) : Prop := forall k, chain_ok (committed vs !! k) (chain_of vs k).

(** Nothing is committed after [v], except by the installation of [e]. *)
Definition capped (vs : VersionState) (v : Z) (e : option Z) : Prop := forall k c,
  committed vs !! k = Some c -> c <= v \/ e = Some c.

Lemma gc_lookup vs o k :
  oldest_snapshot vs = Some o -> chain_ok (committed vs !! k) (chain_of vs k) ->
  committed (gc_locked vs) !! k = (if o <? committed_at vs k then committed vs !! k else None) /\
  chain_of (gc_locked vs) k = List.filter (fun e => o <? e.1) (chain_of vs k).
Proof.
  intros Ho Hc. unfold gc_locked. rewrite Ho. cbn [committed chains]. split.
  - rewrite map_lookup_filter. destruct (committed vs !! k) as [c|]; cbn; [|by destruct (o <? 0)].
    destruct (Z.ltb_spec o c); [by rewrite option_guard_True|by rewrite option_guard_False by lia].
  - rewrite lookup_omap. destruct (chains vs !! k) as [ch|]; cbn; [|done]. unfold prune.
    by destruct (List.filter _ ch).
Qed.

Lemma gc_chains_ok vs : chains_ok vs -> chains_ok (gc_locked vs).
Proof.
  intros H k. specialize (H k). destruct (oldest_snapshot vs) as [o|] eqn:Ho.
  - destruct (gc_lookup vs o k Ho H) as [-> ->]. split.
    + destruct (head_filter o _ _ H) as [->|[-> ->]]; [done|by destruct (o <? _)].
    + apply sorted_filter, H.
  - unfold gc_locked. rewrite Ho. cbn. rewrite !lookup_empty. split; [done|constructor].
Qed.

Lemma gc_capped vs v e : chains_ok vs -> capped vs v e -> capped (gc_locked vs) v e.
Proof.
  intros Hok H k c Hc. destruct (oldest_snapshot vs) as [o|] eqn:Ho.
  - destruct (gc_lookup vs o k Ho (Hok k)) as [E _]. rewrite E in Hc. destruct (o <? _); [|done]. by apply (H k).
  - unfold gc_locked in Hc. rewrite Ho in Hc. cbn in Hc. by rewrite lookup_empty in Hc.
Qed.

(** Pruning below the oldest pin changes no read at or above it. *)
Lemma gc_reads vs t h R o :
  chains_ok vs -> oldest_snapshot vs = Some o -> 0 <= R -> o <= R -> reads vs t h R ->
  reads (gc_locked vs) t h R.
Proof.
  intros Hok Ho H0 HR H k. destruct (H k) as [H1 H2]. destruct (gc_lookup vs o k Ho (Hok k)) as [E1 E2].
  rewrite E1, E2. split.
  - intros Hc. apply H1. destruct (Z.ltb_spec o (committed_at vs k)); [done|lia].
  - intros Hc. destruct (Z.ltb_spec o (committed_at vs k)); [|cbn in Hc].
    + destruct (H2 Hc) as (row & Hw & ?). exists row. split; [|done]. rewrite filter_walk; [done|done|apply Hok].
    + lia.
Qed.

(** Clearing the buffer changes no read of the current state. *)
Lemma clear_reads vs t h R :
  oldest_snapshot vs = None -> 0 <= R -> capped vs R None -> reads vs t h R -> reads (gc_locked vs) t h R.
Proof.
  intros Ho HR Hcap H k. unfold gc_locked. rewrite Ho. cbn. rewrite !lookup_empty. cbn. split; [|lia].
  intros _. apply H. destruct (committed vs !! k) as [c|] eqn:E; cbn; [|done].
  by destruct (Hcap k c E).
Qed.

(** Recording the state a write at [e] supersedes. *)
Lemma record_install_ok vs t k enc e vs' v :
  record_install vs t k enc e = Ok vs' -> chains_ok vs -> capped vs v (Some e) -> 0 <= v < e ->
  chains_ok vs' /\ capped vs' v (Some e) /\ snapshots vs' = snapshots vs /\
  next_snapshot_id vs' = next_snapshot_id vs /\
  (forall k', committed_at vs k' <= committed_at vs' k') /\
  (t !! k = enc \/ committed_at vs' k = e) /\
  (forall h R, R <= v -> reads vs t h R -> reads vs' t h R).
Proof.
  intros E Hok Hcap Hv. unfold record_install in E. case_bool_decide as Hsame.
  { injection E as <-. split_and!; try done. by left. }
  apply res_bind_Ok in E as (prev & Hp & E). injection E as <-.
  assert (Hle : committed_at vs k <= e).
  { destruct (committed vs !! k) as [c|] eqn:Ec; cbn; [|lia]. destruct (Hcap k c Ec) as [?|[= <-]]; lia. }
  split_and!; cbn [committed chains snapshots]; try done.
  - intros k'. cbn. destruct (decide (k = k')) as [<-|Hne].
    + rewrite !lookup_insert_eq. cbn. by apply (chain_ok_push (committed vs !! k)).
    + rewrite !lookup_insert_ne by done. apply Hok.
  - intros k' c. cbn. destruct (decide (k = k')) as [<-|Hne].
    + rewrite lookup_insert_eq. intros [= <-]. by right.
    + rewrite lookup_insert_ne by done. apply Hcap.
  - intros k'. destruct (decide (k = k')) as [<-|Hne].
    + rewrite lookup_insert_eq. done.
    + by rewrite lookup_insert_ne.
  - right. by rewrite lookup_insert_eq.
  - intros h R HR H k'. cbn. destruct (decide (k = k')) as [<-|Hne].
    2:{ rewrite !lookup_insert_ne by done. apply H. }
    rewrite !lookup_insert_eq. cbn. split; [lia|]. intros _. rewrite (proj2 (Z.ltb_lt R e)) by lia.
    destruct (H k) as [H1 H2]. destruct (Z.leb_spec (committed_at vs k) R) as [Hc|Hc].
    + exists prev. rewrite walk_stop by (by eapply chain_ok_le; [apply Hok|]). split; [done|].
      by rewrite <- H1.
    + destruct (H2 Hc) as (row & Hw & Hd). exists row. split; [|done].
      pose proof (Hok k) as [Hh _]. destruct (chain_of vs k) as [|[u r] ch]; [done|].
      rewrite Hh in Hc. cbn in Hc. by rewrite walk_seed.
Qed.

Lemma record_batch_ok vs t staged e v :
  chains_ok vs -> capped vs v (Some e) -> 0 <= v < e ->
  let '(vs', ok) := record_commit_batch vs t staged e in
  chains_ok vs' /\ capped vs' v (Some e) /\ snapshots vs' = snapshots vs /\
  next_snapshot_id vs' = next_snapshot_id vs /\
  (forall k', committed_at vs k' <= committed_at vs' k') /\
  (forall h R, R <= v -> reads vs t h R -> reads vs' t h R) /\
  (ok = true -> forall k w, (k, w) ∈ staged -> t !! k = w \/ e <= committed_at vs' k).
Proof.
  intros Hok Hcap Hv. revert vs Hok Hcap. induction staged as [|[k enc] staged IH]; intros vs Hok Hcap; cbn.
  { split_and!; try done. intros _ k w. by rewrite elem_of_nil. }
  destruct (record_install vs t k enc e) as [vs1| |] eqn:E.
  2-3: split_and!; try done.
  destruct (record_install_ok _ _ _ _ _ _ _ E Hok Hcap Hv) as (Hok1 & Hcap1 & Hs1 & Hn1 & Hm1 & Hd1 & Hr1).
  specialize (IH vs1 Hok1 Hcap1). destruct (record_commit_batch vs1 t staged e) as [vs2 ok].
  destruct IH as (? & ? & Hs2 & Hn2 & Hm2 & Hr2 & Hd2). split_and!; try done; try congruence.
  - intros k'. specialize (Hm1 k'). specialize (Hm2 k'). lia.
  - intros h R HR Hrd. auto.
  - intros Hok' k' w Hin. apply elem_of_cons in Hin as [[= -> ->]|Hin]; [|auto].
    destruct Hd1 as [?|Hd1]; [by left|right]. specialize (Hm2 k). lia.
Qed.

(** * The invariant of the commit pipeline *)

Definition inst_epoch (s : Db) : option Z := in_epoch <$> install s.

(** A reader may be pinned at [R], or may pin it next. *)
Definition protected (s : Db) (R : Z) : Prop :=
  R = visible_epoch s \/ exists id, snapshots (versions s) !! id = Some R.

Record inv (s : Db) : Prop := {
  inv_epoch : 0 <= visible_epoch s < commit_epoch s;
  inv_pins : forall id R, snapshots (versions s) !! id = Some R ->
    0 <= R <= visible_epoch s /\ id < next_snapshot_id (versions s);
  inv_queue : Forall (fun p => visible_epoch s < p.1 < commit_epoch s /\
                               match install s with Some i => in_epoch i < p.1 | None => True end) (queue s);
  inv_order : StronglySorted (fun a b => a.1 < b.1) (queue s);
  inv_inst : forall i, install s = Some i -> visible_epoch s < in_epoch i < commit_epoch s;
  inv_todo : forall i k w, install s = Some i -> in_failed i = false -> (k, w) ∈ in_todo i ->
    tree s !! k = w \/ in_epoch i <= committed_at (versions s) k;
  inv_chains : chains_ok (versions s);
  inv_capped : capped (versions s) (visible_epoch s) (inst_epoch s);
  inv_reads : forall R, protected s R ->
    exists h, published s !! R = Some h /\ reads (versions s) (tree s) h R;
}.

Lemma inv_open rows : inv (db_open rows).
Proof.
  split; cbn [db_open tree versions commit_epoch visible_epoch queue install published]; try done.
  - constructor.
  - intros k. cbn. rewrite !lookup_empty. split; [done|constructor].
  - intros R [->|[id Hid]]; [|cbn in Hid; by rewrite lookup_empty in Hid]. exists rows.
    rewrite lookup_singleton_eq. split; [done|]. intros k. cbn. rewrite !lookup_empty. cbn. split; [done|lia].
Qed.

Lemma pinned_nonneg s R : inv s -> protected s R -> 0 <= R <= visible_epoch s.
Proof. intros Hi [->|[id Hid]]; [destruct Hi; lia|apply (inv_pins s Hi) in Hid; lia]. Qed.

(** Garbage collection in a state with the pins [vs'] leaves every read as it
    is, if nothing is being installed when it clears the buffer. *)
Lemma inv_gc s sn :
  inv s -> (forall id R, sn !! id = Some R -> snapshots (versions s) !! id = Some R) ->
  (sn = ∅ -> install s = None) ->
  let vs := mkVersions (committed (versions s)) (chains (versions s)) sn (next_snapshot_id (versions s)) in
  inv (set_versions s (gc_locked vs)).
Proof.
  intros Hi Hsub Hq vs.
  assert (Hsn : snapshots (gc_locked vs) = sn) by (unfold gc_locked; by destruct (oldest_snapshot vs)).
  assert (Hid : next_snapshot_id (gc_locked vs) = next_snapshot_id (versions s))
    by (unfold gc_locked; by destruct (oldest_snapshot vs)).
  pose proof (inv_chains s Hi) as Hch. assert (Hch' : chains_ok vs) by exact Hch.
  assert (Hcap : capped vs (visible_epoch s) (inst_epoch s)) by exact (inv_capped s Hi).
  pose proof (oldest_spec vs) as Hold.
  assert (Hmono : forall k i, install s = Some i -> in_epoch i <= committed_at (versions s) k ->
                  in_epoch i <= committed_at (gc_locked vs) k).
  { intros k i Hin Hle. destruct (oldest_snapshot vs) as [o|] eqn:Ho.
    - destruct (gc_lookup vs o k Ho (Hch' k)) as [-> _]. destruct Hold as [[id Ho'] _].
      apply Hsub, (inv_pins s Hi) in Ho'. pose proof (inv_inst s Hi i Hin). cbn [committed vs].
      by rewrite (proj2 (Z.ltb_lt o _)) by lia.
    - cbn in Hold. rewrite (Hq Hold) in Hin. done. }
  destruct Hi as [Hep Hpins Hqueue Hord Hinst Htodo _ _ Hrd].
  split; cbn [set_versions tree versions commit_epoch visible_epoch queue install published]; try done.
  - intros id R H. rewrite Hsn in H. rewrite Hid. by apply Hpins, Hsub.
  - intros i k w Hin Hf Hw. destruct (Htodo i k w Hin Hf Hw); [by left|right]. by apply Hmono.
  - by apply gc_chains_ok.
  - by apply gc_capped.
  - intros R HR. assert (HR' : protected s R).
    { destruct HR as [->|[id Hid']]; [by left|right]. exists id. apply Hsub. cbn in Hid'. by rewrite Hsn in Hid'. }
    destruct (Hrd R HR') as (h & Hh & Hr). exists h. split; [done|].
    assert (H0 : 0 <= R <= visible_epoch s).
    { destruct HR' as [->|[id Hid']]; [lia|apply Hpins in Hid'; lia]. }
    destruct (oldest_snapshot vs) as [o|] eqn:Ho.
    + apply (gc_reads vs (tree s) h R o); try done; [lia|]. destruct Hold as [[id Ho'] Hmin].
      destruct HR as [->|[id' Hid']]; [cbn; apply Hsub, Hpins in Ho'; lia|].
      cbn in Hid'. rewrite Hsn in Hid'. by apply Hmin in Hid'.
    + cbn in Hold. assert (R = visible_epoch s) as ->.
      { destruct HR as [->|[id' Hid']]; [done|]. cbn in Hid'. by rewrite Hsn, Hold, lookup_empty in Hid'. }
      apply clear_reads; try done; [lia|]. intros k c Hc. destruct (Hcap k c Hc) as [?|Hc']; [by left|].
      unfold inst_epoch in Hc'. by rewrite (Hq Hold) in Hc'.
Qed.

Lemma inv_append s staged : inv s -> inv (append_commit s staged).
Proof.
  intros [Hep Hpins Hq Hord Hinst Htodo Hch Hcap Hrd].
  split; cbn [append_commit tree versions commit_epoch visible_epoch queue install published]; try done.
  - lia.
  - apply Forall_app. split.
    + eapply Forall_impl; [exact Hq|]. cbn. intros x [? ?]. split; [lia|done].
    + constructor; [|done]. cbn. split; [lia|]. destruct (install s) as [i|] eqn:E; [|done].
      pose proof (Hinst i eq_refl). lia.
  - clear Hinst Htodo. induction Hord as [|x q Hs IH Hall]; cbn; [repeat constructor|].
    apply Forall_cons in Hq as [[Hx _] Hq]. constructor; [by apply IH|].
    apply Forall_app. split; [done|]. constructor; [cbn; lia|done].
  - intros i Hi. pose proof (Hinst i Hi). lia.
Qed.

Lemma inv_record s s' : inv s -> step s SRecord = Some s' -> inv s'.
Proof.
  intros [Hep Hpins Hq Hord Hinst Htodo Hch Hcap Hrd] E. cbn in E.
  destruct (install s) eqn:Ei; [done|]. destruct (queue s) as [|[e staged] q] eqn:Eq; [done|].
  apply Forall_cons in Hq as [[He _] Hq]. cbn in He. inversion Hord as [|? ? Hord' Hgt]; subst.
  assert (Hcap' : capped (versions s) (visible_epoch s) (Some e)).
  { intros k c Hc. destruct (Hcap k c Hc) as [?|Hc']; [by left|]. unfold inst_epoch in Hc'. by rewrite Ei in Hc'. }
  pose proof (record_batch_ok (versions s) (tree s) staged e (visible_epoch s) Hch Hcap' ltac:(lia)) as H.
  destruct (record_commit_batch (versions s) (tree s) staged e) as [vs ok].
  destruct H as (Hok & Hcp & Hsn & Hnx & _ & Hr & Hdone). injection E as <-.
  split; cbn [tree versions commit_epoch visible_epoch queue install published]; try done.
  - rewrite Hsn, Hnx. done.
  - rewrite Forall_forall in Hq, Hgt |- *. intros x Hx. cbn. split; [by apply Hq|by apply (Hgt x)].
  - intros i [= <-]. cbn. lia.
  - intros i k w [= <-]. cbn. intros Hf Hin. apply Hdone; [by destruct ok|done].
  - intros R HR. assert (HR' : protected s R) by (destruct HR as [->|[id Hid]]; [by left|right; exists id; cbn in Hid; by rewrite Hsn in Hid]).
    destruct (Hrd R HR') as (h & Hh & Hrh). exists h. split; [done|]. apply Hr; [|done].
    destruct HR' as [->|[id Hid]]; [lia|]. apply Hpins in Hid. lia.
Qed.

Lemma inv_apply s s' : inv s -> step s SApply = Some s' -> inv s'.
Proof.
  intros Hi E. pose proof (fun R => pinned_nonneg s R Hi) as Hpr.
  destruct Hi as [Hep Hpins Hq Hord Hinst Htodo Hch Hcap Hrd]. cbn in E.
  destruct (install s) as [[e [] [] [|[k w] todo]]|] eqn:Ei; try done. injection E as <-.
  pose proof (Hinst _ eq_refl) as He. cbn in He.
  assert (Hk : tree s !! k = w \/ e <= committed_at (versions s) k).
  { apply (Htodo _ k w eq_refl); [done|]. cbn. left. }
  assert (Happ : forall k', k' <> k -> apply_write (tree s) (k, w) !! k' = tree s !! k').
  { intros k' Hne. unfold apply_write. cbn. destruct w; [by rewrite lookup_insert_ne|by rewrite lookup_delete_ne]. }
  assert (Happ' : apply_write (tree s) (k, w) !! k = w).
  { unfold apply_write. cbn. destruct w; [by rewrite lookup_insert_eq|by rewrite lookup_delete_eq]. }
  split; cbn [tree versions commit_epoch visible_epoch queue install published]; try done.
  - intros i [= <-]. done.
  - intros i k' w' [= <-]. cbn. intros _ Hin. destruct (decide (k' = k)) as [->|Hne].
    + rewrite Happ'. destruct (Htodo _ k w' eq_refl eq_refl ltac:(by right)) as [Hw'|?]; [|by right].
      destruct Hk as [Hk|?]; [left; congruence|by right].
    + rewrite Happ by done. apply (Htodo _ k' w' eq_refl eq_refl). by right.
  - intros k' c Hc. specialize (Hcap k' c Hc). unfold inst_epoch in Hcap. by rewrite Ei in Hcap.
  - intros R HR. destruct (Hrd R HR) as (h & Hh & Hr). exists h. split; [done|]. intros k'.
    destruct (Hr k') as [H1 H2]. split; [|done]. intros Hc. specialize (H1 Hc).
    destruct (decide (k' = k)) as [->|Hne]; [|by rewrite Happ]. rewrite Happ', <- H1.
    destruct Hk as [Hk|Hk]; [done|]. apply Hpr in HR. lia.
Qed.

Lemma inv_publish s s' : inv s -> step s SPublish = Some s' -> inv s'.
Proof.
  intros [Hep Hpins Hq Hord Hinst Htodo Hch Hcap Hrd] E. cbn in E.
  destruct (install s) as [[e [] [] [|? ?]]|] eqn:Ei; try done. injection E as <-.
  pose proof (Hinst _ eq_refl) as He. cbn in He.
  split; cbn [tree versions commit_epoch visible_epoch queue install published]; try done.
  - lia.
  - intros id R Hid. apply Hpins in Hid. lia.
  - eapply Forall_impl; [exact Hq|]. cbn. intros x [? ?]. lia.
  - intros k c Hc. left. destruct (Hcap k c Hc) as [?|Hc']; [lia|]. unfold inst_epoch in Hc'.
    rewrite Ei in Hc'. cbn in Hc'. injection Hc' as <-. lia.
  - intros R [->|[id Hid]]; cbn in *.
    + exists (tree s). rewrite lookup_insert_eq. split; [done|]. intros k. split; [done|].
      intros Hc. destruct (committed (versions s) !! k) as [c|] eqn:E; cbn in Hc; [|lia].
      destruct (Hcap k c E) as [?|Hc']; [lia|]. unfold inst_epoch in Hc'. rewrite Ei in Hc'. cbn in Hc'.
      injection Hc' as <-. lia.
    + destruct (Hrd R) as (h & Hh & Hr); [by right; exists id|]. exists h. split; [|done].
      rewrite lookup_insert_ne; [done|]. apply Hpins in Hid. lia.
Qed.

Lemma inv_pin s stmt now : inv s -> inv (pin_snapshot s stmt now).1.
Proof.
  intros [Hep Hpins Hq Hord Hinst Htodo Hch Hcap Hrd].
  split; cbn [pin_snapshot fst set_versions tree versions commit_epoch visible_epoch queue install published
              committed chains snapshots next_snapshot_id]; try done.
  - intros id R Hid. destruct (decide (next_snapshot_id (versions s) = id)) as [<-|Hne].
    + rewrite lookup_insert_eq in Hid. injection Hid as <-. lia.
    + rewrite lookup_insert_ne in Hid by done. apply Hpins in Hid. lia.
  - intros R HR. apply Hrd. destruct HR as [->|[id Hid]]; [by left|]. cbn in Hid.
    destruct (decide (next_snapshot_id (versions s) = id)) as [<-|Hne].
    + rewrite lookup_insert_eq in Hid. injection Hid as <-. by left.
    + rewrite lookup_insert_ne in Hid by done. right. by exists id.
Qed.

Lemma inv_step s l s' :
  inv s -> step s l = Some s' -> clears s l && bool_decide (is_Some (install s)) = false -> inv s'.
Proof.
  intros Hi E Hq. destruct l as [staged| | | | | |id]; cbn [clears] in Hq.
  - injection E as <-. by apply inv_append.
  - by eapply inv_record.
  - by eapply inv_apply.
  - by eapply inv_publish.
  - injection E as <-. unfold gc_versions.
    replace (versions s) with (mkVersions (committed (versions s)) (chains (versions s))
      (snapshots (versions s)) (next_snapshot_id (versions s))) by (by destruct (versions s)).
    apply inv_gc; [done|done|]. intros He. rewrite bool_decide_eq_true_2 in Hq by done. cbn in Hq.
    apply bool_decide_eq_false in Hq. by destruct (install s); [destruct Hq; eexists|].
  - injection E as <-. by apply (inv_pin s true 0).
  - injection E as <-. unfold release_snapshot. apply inv_gc; [done| |].
    + intros id' R H. by apply lookup_delete_Some in H as [_ ?].
    + intros He. rewrite bool_decide_eq_true_2 in Hq by done. cbn in Hq.
      apply bool_decide_eq_false in Hq. by destruct (install s); [destruct Hq; eexists|].
Qed.

Lemma inv_run s ls s' : inv s -> run s ls = Some s' -> quiet s ls = true -> inv s'.
Proof.
  revert s. induction ls as [|l ls IH]; intros s Hi E Hq; cbn in E, Hq; [by injection E as <-|].
  apply andb_true_iff in Hq as [Hq1 Hq2]. apply negb_true_iff in Hq1.
  destruct (step s l) as [s1|] eqn:E1; [|done]. apply (IH s1); [by eapply inv_step|done|done].
Qed.

(** * Reads across steps *)

(** A key that changed after the read epoch of a pin stays known as changed as
    long as the pin is held. *)
Lemma step_changed s l s' R id k :
  inv s -> step s l = Some s' -> snapshots (versions s') !! id = Some R ->
  snapshots (versions s) !! id = Some R -> R < committed_at (versions s) k -> R < committed_at (versions s') k.
Proof.
  intros Hi E Hid Hid0 Hc.
  assert (Hgc : forall sn, sn !! id = Some R ->
    let vs := mkVersions (committed (versions s)) (chains (versions s)) sn (next_snapshot_id (versions s)) in
    R < committed_at (gc_locked vs) k).
  { intros sn Hsn vs. pose proof (oldest_spec vs) as Hold. destruct (oldest_snapshot vs) as [o|] eqn:Ho.
    - destruct (gc_lookup vs o k Ho (inv_chains s Hi k)) as [-> _]. destruct Hold as [_ Hmin].
      apply Hmin in Hsn. cbn [committed vs]. by rewrite (proj2 (Z.ltb_lt o _)) by lia.
    - cbn in Hold. subst sn. by rewrite lookup_empty in Hsn. }
  destruct l as [staged| | | | | |id']; cbn in E.
  - by injection E as <-.
  - destruct (install s) eqn:Ei; [done|]. destruct (queue s) as [|[e staged] q] eqn:Eq; [done|].
    pose proof (inv_queue s Hi) as Hq. rewrite Eq in Hq. apply Forall_cons in Hq as [[He _] _]. cbn in He.
    assert (Hcap : capped (versions s) (visible_epoch s) (Some e)).
    { intros k' c Hc'. destruct (inv_capped s Hi k' c Hc') as [?|Hx]; [by left|]. unfold inst_epoch in Hx. by rewrite Ei in Hx. }
    pose proof (record_batch_ok (versions s) (tree s) staged e (visible_epoch s) (inv_chains s Hi) Hcap) as H.
    pose proof (inv_epoch s Hi). specialize (H ltac:(lia)).
    destruct (record_commit_batch (versions s) (tree s) staged e) as [vs ok]. injection E as <-. cbn.
    destruct H as (_ & _ & _ & _ & Hm & _). specialize (Hm k). lia.
  - by destruct (install s) as [[e [] [] [|? ?]]|]; try done; injection E as <-.
  - by destruct (install s) as [[e [] [] [|? ?]]|]; try done; injection E as <-.
  - injection E as <-. cbn. specialize (Hgc _ Hid0). by destruct (versions s).
  - by injection E as <-.
  - injection E as <-. cbn in Hid |- *. apply Hgc.
    unfold release_snapshot, gc_locked in Hid. cbn in Hid. by destruct (oldest_snapshot _).
Qed.

Lemma record_batch_frame vs t staged e :
  snapshots (record_commit_batch vs t staged e).1 = snapshots vs /\
  next_snapshot_id (record_commit_batch vs t staged e).1 = next_snapshot_id vs.
Proof.
  revert vs. induction staged as [|[k enc] st IH]; intros vs; cbn; [done|].
  destruct (record_install vs t k enc e) as [vs1| |] eqn:E; [|done..].
  destruct (IH vs1) as [-> ->]. unfold record_install in E.
  case_bool_decide; [by injection E as <-|]. apply res_bind_Ok in E as (? & _ & E). by injection E as <-.
Qed.

(** A pin held after a step was held before it, unless the step made it. *)
Lemma step_pins s l s' id R :
  inv s -> step s l = Some s' -> snapshots (versions s') !! id = Some R ->
  id < next_snapshot_id (versions s) -> snapshots (versions s) !! id = Some R.
Proof.
  intros Hi E Hid Hlt. destruct l as [staged| | | | | |id']; cbn in E.
  - by injection E as <-.
  - destruct (install s) eqn:Ei; [done|]. destruct (queue s) as [|[e staged] q] eqn:Eq; [done|].
    pose proof (record_batch_frame (versions s) (tree s) staged e) as [Hs _].
    destruct (record_commit_batch (versions s) (tree s) staged e) as [vs ok]. injection E as <-. cbn in *. by rewrite <- Hs.
  - by destruct (install s) as [[e [] [] [|? ?]]|]; try done; injection E as <-.
  - by destruct (install s) as [[e [] [] [|? ?]]|]; try done; injection E as <-.
  - injection E as <-. cbn in Hid. unfold gc_locked in Hid. by destruct (oldest_snapshot _).
  - injection E as <-. cbn in Hid. rewrite lookup_insert_ne in Hid by lia. done.
  - injection E as <-. cbn in Hid. unfold gc_locked in Hid.
    destruct (oldest_snapshot _); cbn in Hid; by apply lookup_delete_Some in Hid as [_ ?].
Qed.

Lemma step_next_id s l s' :
  step s l = Some s' -> next_snapshot_id (versions s) <= next_snapshot_id (versions s').
Proof.
  intros E. destruct l as [staged| | | | | |id']; cbn in E.
  - by injection E as <-.
  - destruct (install s) eqn:Ei; [done|]. destruct (queue s) as [|[e staged] q] eqn:Eq; [done|].
    pose proof (record_batch_frame (versions s) (tree s) staged e) as [_ Hs].
    destruct (record_commit_batch (versions s) (tree s) staged e) as [vs ok]. injection E as <-. cbn in *. lia.
  - by destruct (install s) as [[e [] [] [|? ?]]|]; try done; injection E as <-.
  - by destruct (install s) as [[e [] [] [|? ?]]|]; try done; injection E as <-.
  - injection E as <-. cbn. unfold gc_locked. by destruct (oldest_snapshot _).
  - injection E as <-. cbn. lia.
  - injection E as <-. cbn. unfold gc_locked. by destruct (oldest_snapshot _).
Qed.

(** What was published stays published. *)
Lemma step_published s l s' R h :
  inv s -> step s l = Some s' -> protected s R -> published s !! R = Some h -> published s' !! R = Some h.
Proof.
  intros Hi E HR Hh. destruct l as [staged| | | | | |id']; cbn in E; try (by injection E as <-).
  - destruct (install s) eqn:Ei; [done|]. destruct (queue s) as [|[e staged] q]; [done|].
    destruct (record_commit_batch _ _ _ _). by injection E as <-.
  - by destruct (install s) as [[e [] [] [|? ?]]|]; try done; injection E as <-.
  - destruct (install s) as [[e [] [] [|? ?]]|] eqn:Ei; try done. injection E as <-. cbn.
    apply (pinned_nonneg s R Hi) in HR. pose proof (inv_inst s Hi _ Ei) as He. cbn in He.
    rewrite lookup_insert_ne by lia. done.
Qed.

Lemma run_pins s ls s' id R :
  inv s -> run s ls = Some s' -> quiet s ls = true -> id < next_snapshot_id (versions s) ->
  snapshots (versions s') !! id = Some R -> snapshots (versions s) !! id = Some R.
Proof.
  revert s. induction ls as [|l ls IH]; intros s Hi E Hq Hlt Hid; cbn in E, Hq; [by injection E as ->|].
  apply andb_true_iff in Hq as [Hq1 Hq2]. apply negb_true_iff in Hq1.
  destruct (step s l) as [s1|] eqn:Es; [|done]. pose proof (step_next_id s l s1 Es).
  eapply step_pins; [done|done| |done]. eapply IH; [by eapply inv_step|done|done|lia|done].
Qed.

(** While a pin is held, what it published stays published, and a key that
    has not changed since the pin had not changed before. *)
Lemma run_stable s1 ls s2 id R k h :
  inv s1 -> run s1 ls = Some s2 -> quiet s1 ls = true ->
  snapshots (versions s1) !! id = Some R -> snapshots (versions s2) !! id = Some R ->
  published s1 !! R = Some h ->
  published s2 !! R = Some h /\
  (committed_at (versions s2) k <= R -> committed_at (versions s1) k <= R).
Proof.
  revert s1. induction ls as [|l ls IH]; intros s1 Hi E Hq H1 H2 Hh; cbn in E, Hq.
  { by injection E as <-. }
  assert (Hlt : id < next_snapshot_id (versions s1)) by (by apply (inv_pins s1 Hi) in H1 as [_ ?]).
  apply andb_true_iff in Hq as [Hq1 Hq2]. apply negb_true_iff in Hq1.
  destruct (step s1 l) as [s|] eqn:Es; [|done]. pose proof (step_next_id s1 l s Es) as Hn.
  pose proof (inv_step s1 l s Hi Es Hq1) as Hi'.
  pose proof (run_pins s ls s2 id R Hi' E Hq2 ltac:(lia) H2) as Hid.
  destruct (IH s Hi' E Hq2 Hid H2) as [? Hc].
  { eapply step_published; [exact Hi|done|by right; exists id|done]. }
  split; [done|]. intros Hle. apply Hc in Hle.
  destruct (Z.leb_spec (committed_at (versions s1) k) R) as [|Hgt]; [done|].
  pose proof (step_changed s1 l s R id k Hi Es Hid H1 Hgt). lia.
Qed.

End mvcc.

(** * Properties *)

(** Rows that are their own decoding, for the witnesses. *)
Definition raw_row (b : bytes) : res bytes := Ok b.

Definition demo_key : bytes * bytes := (str "db.t", [1]).

(** C11: Snapshot reads are repeatable and consistent: a row read from the tree
    at one moment and resolved against the version buffer at a later one is the
    row of the state that was published at the pin's read epoch, whatever
    commits, pins and collections happen in between, provided no collection
    clears the buffer in the middle of an installation. *)
Theorem snapshot_read_is_published {Row} (decode_stored : bytes -> res Row)
    rows ls1 ls2 s1 s2 p max_age now k cur :
  run decode_stored (db_open rows) ls1 = Some s1 -> quiet decode_stored (db_open rows) ls1 = true ->
  run decode_stored s1 ls2 = Some s2 -> quiet decode_stored s1 ls2 = true ->
  snapshots (versions s1) !! pin_id p = Some (read_epoch p) ->
  snapshots (versions s2) !! pin_id p = Some (read_epoch p) ->
  too_old max_age now p = false ->
  decode_raw_opt decode_stored (tree s1 !! k) = Ok cur ->
  exists h row, published s2 !! read_epoch p = Some h /\ decode_raw_opt decode_stored (h !! k) = Ok row /\
    snapshot_lookup (versions s2) max_age now (Some p) k cur = Ok row.
Proof.
  intros E1 Hq1 E2 Hq2 Hp1 Hp2 Hold Hcur.
  pose proof (inv_run _ _ _ _ (inv_open decode_stored rows) E1 Hq1) as Hi1.
  pose proof (inv_run _ _ _ _ Hi1 E2 Hq2) as Hi2.
  destruct (inv_reads _ s1 Hi1 (read_epoch p)) as (h & Hh & Hr1); [right; by exists (pin_id p)|].
  destruct (run_stable _ _ _ _ _ _ k h Hi1 E2 Hq2 Hp1 Hp2 Hh) as [Hh2 Hstay].
  destruct (inv_reads _ s2 Hi2 (read_epoch p)) as (h' & Hh' & Hr2); [right; by exists (pin_id p)|].
  rewrite Hh2 in Hh'. injection Hh' as <-. exists h. unfold snapshot_lookup. rewrite Hold.
  destruct (Z.leb_spec (default 0 (committed (versions s2) !! k)) (read_epoch p)) as [Hle|Hgt].
  - exists cur. split; [done|]. split; [|done]. rewrite <- Hcur. f_equal. symmetry. apply (Hr1 k), Hstay, Hle.
  - destruct (Hr2 k) as [_ H2]. destruct (H2 Hgt) as (row & Hw & Hd). exists row. by rewrite Hw.
Qed.

Definition demo_before : list Step :=
  [SAppend [(demo_key, Some [7])]; SRecord; SApply; SPublish; SGc; SPin].
Definition demo_after : list Step :=
  [SAppend [(demo_key, Some [8])]; SRecord; SApply; SPublish; SGc; SPin; SEnd 2].

(** The two runs of the demonstration exist and satisfy the hypotheses. *)
Definition demo_check : bool :=
  match run raw_row (db_open ∅) demo_before with
  | None => false
  | Some s1 =>
    match run raw_row s1 demo_after with
    | None => false
    | Some s2 =>
      quiet raw_row (db_open ∅) demo_before && quiet raw_row s1 demo_after &&
      bool_decide (snapshots (versions s1) !! 1 = Some 1) && bool_decide (snapshots (versions s2) !! 1 = Some 1) &&
      bool_decide (tree s1 !! demo_key = Some [7]) && bool_decide (tree s2 !! demo_key = Some [8])
    end
  end.

Lemma demo_check_true : demo_check = true.
Proof. vm_compute. reflexivity. Qed.

Lemma snapshot_read_is_published_witness :
  exists s1 s2 h row,
    run raw_row (db_open ∅) demo_before = Some s1 /\ run raw_row s1 demo_after = Some s2 /\
    published s2 !! 1 = Some h /\ decode_raw_opt raw_row (h !! demo_key) = Ok row /\
    snapshot_lookup (versions s2) None 0 (Some (mkPin 1 1 false 0)) demo_key (Some [7]) = Ok row.
Proof.
  pose proof demo_check_true as H. unfold demo_check in H.
  destruct (run raw_row (db_open ∅) demo_before) as [s1|] eqn:E1; [|discriminate H].
  destruct (run raw_row s1 demo_after) as [s2|] eqn:E2; [|discriminate H].
  apply andb_true_iff in H as [H _]. apply andb_true_iff in H as [H Ht%bool_decide_eq_true].
  apply andb_true_iff in H as [H H2%bool_decide_eq_true]. apply andb_true_iff in H as [H H1%bool_decide_eq_true].
  apply andb_true_iff in H as [Hq1 Hq2].
  destruct (snapshot_read_is_published raw_row ∅ demo_before demo_after s1 s2 (mkPin 1 1 false 0) None 0 demo_key
    (Some [7]) E1 Hq1 E2 Hq2 H1 H2 eq_refl) as (h & row & G1 & G2 & G3).
  - rewrite Ht. reflexivity.
  - exists s1, s2, h, row. split; [reflexivity|]. split; [exact E2|]. split; [exact G1|]. split; [exact G2|exact G3].
Defined.

(** A buffer that holds nothing lets every reader see the live row. *)
Lemma lookup_live {Row} (vs : VersionState (Row := Row)) now p k current :
  committed vs = ∅ -> 0 <= read_epoch p -> snapshot_lookup vs None now (Some p) k current = Ok current.
Proof.
  intros Hc Hp. unfold snapshot_lookup. cbn [too_old]. rewrite Hc, lookup_empty. cbn [default]. by rewrite (proj2 (Z.leb_le _ _) Hp).
Qed.

(** The install loop over the writes it has left. *)
Lemma run_applies {Row} (decode_stored : bytes -> res Row) staged : forall t vs ce ve q e rest nt pub,
  run decode_stored (mkDb t vs ce ve q (Some (mkInstall e true false (staged ++ rest))) nt pub) (replicate (length staged) SApply)
  = Some (mkDb (fold_left apply_write staged t) vs ce ve q (Some (mkInstall e true false rest)) nt pub).
Proof. induction staged as [|w staged IH]; intros; [done|]. apply IH. Qed.

Lemma run_app {Row} (decode_stored : bytes -> res Row) ls ls' : forall s,
  run decode_stored s (ls ++ ls') = match run decode_stored s ls with Some s' => run decode_stored s' ls' | None => None end.
Proof. induction ls as [|l ls IH]; intros s; cbn [run app]; [done|]. by destruct (step _ _ _). Qed.

Lemma record_batch_snapshots {Row} (decode_stored : bytes -> res Row) t e staged : forall vs,
  snapshots (record_commit_batch decode_stored vs t staged e).1 = snapshots vs /\
  next_snapshot_id (record_commit_batch decode_stored vs t staged e).1 = next_snapshot_id vs.
Proof.
  induction staged as [|[k enc] staged IH]; intros vs; cbn [record_commit_batch]; [done|].
  destruct (record_install decode_stored vs t k enc e) as [vs'| |] eqn:E; [|done..]. destruct (IH vs') as [-> ->].
  revert E. unfold record_install. case_bool_decide; [by intros [= <-]|]. destruct (decode_raw_opt _ _); [|done..]. by intros [= <-].
Qed.

(** C37: A collection that clears the buffer while a commit is between recording
    its superseded states and publishing its epoch breaks the snapshot of the
    reader that pins next, in every idle database, for every commit whose old
    rows decode and every pace of its installation: after any number [m] of its
    writes the pinned reader sees exactly those [m] writes, none of them
    published yet, and after the publication it sees all of them, although its
    read epoch is the one before the commit throughout. *)
Theorem gc_during_install_breaks_snapshot {Row} (decode_stored : bytes -> res Row) (s : Db (Row := Row)) staged m now :
  install s = None -> queue s = [] -> snapshots (versions s) = ∅ -> 0 <= visible_epoch s < commit_epoch s ->
  (record_commit_batch decode_stored (versions s) (tree s) staged (commit_epoch s)).2 = true ->
  (m <= length staged)%nat ->
  let p := mkPin (next_snapshot_id (versions s)) (visible_epoch s) true 0 in
  exists sm s2,
    run decode_stored s ([SAppend staged; SRecord; SGc; SPin] ++ replicate m SApply) = Some sm /\
    run decode_stored sm (replicate (length staged - m) SApply ++ [SPublish]) = Some s2 /\
    snapshots (versions sm) !! pin_id p = Some (read_epoch p) /\ snapshots (versions s2) !! pin_id p = Some (read_epoch p) /\
    tree sm = fold_left apply_write (take m staged) (tree s) /\ visible_epoch sm = read_epoch p /\
    tree s2 = fold_left apply_write staged (tree s) /\ read_epoch p < visible_epoch s2 /\
    (forall k current, snapshot_lookup (versions sm) None now (Some p) k current = Ok current) /\
    (forall k current, snapshot_lookup (versions s2) None now (Some p) k current = Ok current).
Proof.
  destruct s as [t vs ce ve q ins nt pub]. cbv beta iota delta [install queue versions visible_epoch commit_epoch tree].
  intros -> -> Hs Hv Hok Hm p. pose proof (record_batch_snapshots decode_stored t ce staged vs) as [Hn Hid].
  set (vm := mkVersions ∅ ∅ (<[next_snapshot_id vs := ve]> ∅) (next_snapshot_id vs + 1) : VersionState (Row := Row)).
  assert (Hstart : run decode_stored (mkDb t vs ce ve [] None nt pub) [SAppend staged; SRecord; SGc; SPin]
    = Some (mkDb t vm (ce + 1) ve [] (Some (mkInstall ce true false staged)) nt pub)).
  { cbn [run step append_commit queue install app versions tree commit_epoch visible_epoch next_txn published].
    destruct (record_commit_batch _ _ _ _ _) as [vs1 ok]. cbn [fst snd] in *. subst ok.
    unfold gc_versions, gc_locked, oldest_snapshot, pin_snapshot, set_versions. cbn. rewrite Hn, Hs, map_fold_empty. cbn. by rewrite Hid. }
  exists (mkDb (fold_left apply_write (take m staged) t) vm (ce + 1) ve [] (Some (mkInstall ce true false (drop m staged))) nt pub).
  exists (mkDb (fold_left apply_write staged t) vm (ce + 1) ce [] None nt (<[ce := fold_left apply_write staged t]> pub)).
  split; [|split].
  - rewrite run_app, Hstart. pose proof (run_applies decode_stored (take m staged) t vm (ce + 1) ve [] ce (drop m staged) nt pub) as H.
    rewrite take_drop, length_take, Nat.min_l in H by lia. exact H.
  - rewrite run_app. pose proof (run_applies decode_stored (drop m staged) (fold_left apply_write (take m staged) t) vm (ce + 1) ve [] ce [] nt pub) as H.
    rewrite app_nil_r, length_drop, <- fold_left_app, take_drop in H. by rewrite H.
  - split_and!; try (by apply lookup_insert_eq); try done; [apply Hv|..]; intros; (apply lookup_live; [done|apply Hv]).
Qed.

(** A database with one row, and a commit that overwrites it and adds another. *)
Definition demo_idle : Db (Row := bytes) := db_open {[ demo_key := [7] ]}.
Definition demo_staged : list ((bytes * bytes) * option bytes) := [(demo_key, Some [8]); ((str "db.t", [2]), Some [9])].

Lemma gc_during_install_breaks_snapshot_witness :
  exists sm s2, run raw_row demo_idle [SAppend demo_staged; SRecord; SGc; SPin; SApply] = Some sm /\
    run raw_row sm [SApply; SPublish] = Some s2 /\ visible_epoch sm = 0 /\ 0 < visible_epoch s2 /\
    tree demo_idle !! demo_key = Some [7] /\
    snapshot_lookup (versions sm) None 0 (Some (mkPin 1 0 true 0)) demo_key (tree sm !! demo_key) = Ok (Some [8]).
Proof.
  destruct (gc_during_install_breaks_snapshot raw_row demo_idle demo_staged 1 0) as (sm & s2 & H1 & H2 & _ & _ & Ht & Hv & _ & Hv2 & Hr & _).
  - reflexivity.
  - reflexivity.
  - reflexivity.
  - cbn. lia.
  - vm_compute. reflexivity.
  - cbn. lia.
  - exists sm, s2. split; [exact H1|]. split; [exact H2|]. split; [exact Hv|]. split; [exact Hv2|].
    split; [by vm_compute|]. etransitivity; [apply (Hr demo_key (tree sm !! demo_key))|]. rewrite Ht. by vm_compute.
Defined.

(** After a COMMIT that fails, the session has no transaction but keeps its
    snapshot: later statements neither take a new pin nor release the old one,
    so they keep reading the old state. *)
Theorem failed_commit_keeps_snapshot {Row} (s s' : Db (Row := Row)) x p e commit_txn now :
  txn x <> None -> snapshot x = Some p -> is_statement p = false -> commit_txn s = (s', Err e) ->
  let '(s1, x1, r) := exec_commit s x commit_txn in
  r = Err e /\ txn x1 = None /\ snapshot x1 = Some p /\
  snapshot_pin_statement s1 x1 now = (s1, x1) /\ snapshot_end_statement s1 x1 = (s1, x1).
Proof.
  intros Ht Hs Hst Hc. unfold exec_commit. destruct (txn x) as [id|]; [|done]. rewrite Hc.
  unfold snapshot_pin_statement, snapshot_end_statement. cbn [txn snapshot]. rewrite Hs, Hst. done.
Qed.

Lemma failed_commit_keeps_snapshot_witness :
  let '(s1, x1, r) := exec_commit (db_open (Row := bytes) ∅) (mkSession (Some 3) (Some (mkPin 1 0 false 0)))
                        (fun s => (s, Err (DuplicateKey [49]))) in
  r = Err (DuplicateKey [49]) /\ txn x1 = None /\ snapshot x1 = Some (mkPin 1 0 false 0) /\
  snapshot_pin_statement s1 x1 5 = (s1, x1) /\ snapshot_end_statement s1 x1 = (s1, x1).
Proof.
  apply (failed_commit_keeps_snapshot (db_open (Row := bytes) ∅) (db_open ∅)
    (mkSession (Some 3) (Some (mkPin 1 0 false 0))) (mkPin 1 0 false 0) (DuplicateKey [49])
    (fun s => (s, Err (DuplicateKey [49]))) 5); [discriminate|reflexivity|reflexivity|reflexivity].
Defined.

Lemma scan_extra_elem {Row} (vs : VersionState (Row := Row)) max_age now p table present l k row :
  snapshot_scan_extra vs max_age now (Some p) table present = Ok l ->
  (k, row) ∈ l <->
  k ∉ present /\ exists c, chains vs !! (table, k) = Some c /\ walk (read_epoch p) c None = Some (Some row).
Proof.
  unfold snapshot_scan_extra. destruct (too_old max_age now p); [done|]. intros [= <-].
  rewrite list_elem_of_omap. split.
  - intros ([[t k'] c] & Hin & H). apply elem_of_map_to_list in Hin.
    destruct (bool_decide (t <> table)) eqn:Ht; [done|]. apply bool_decide_eq_false in Ht.
    destruct (bool_decide (k' ∈ present)) eqn:Hk; [done|]. apply bool_decide_eq_false in Hk. cbn in H.
    destruct (walk (read_epoch p) c None) as [[r|]|] eqn:Hw; [|done..]. injection H as -> ->.
    destruct (decide (t = table)) as [->|]; [|done]. split; [done|]. by exists c.
  - intros (Hk & c & Hc & Hw). exists ((table, k), c). split; [by apply elem_of_map_to_list|].
    rewrite (bool_decide_eq_false_2 (table <> table)) by naive_solver.
    rewrite bool_decide_eq_false_2 by done. cbn. by rewrite Hw.
Qed.

(** A snapshot scan misses no deleted row and invents none: for the keys
    that are absent from the current scan of a table, the rows recovered from
    the version chains are exactly those of the state published at the pin's
    read epoch. *)
Theorem snapshot_scan_extra_complete {Row} (decode_stored : bytes -> res Row)
    rows ls s p max_age now table present l :
  run decode_stored (db_open rows) ls = Some s -> quiet decode_stored (db_open rows) ls = true ->
  snapshots (versions s) !! pin_id p = Some (read_epoch p) ->
  (forall k, k ∈ present <-> is_Some (tree s !! (table, k))) ->
  snapshot_scan_extra (versions s) max_age now (Some p) table present = Ok l ->
  exists h, published s !! read_epoch p = Some h /\
    forall k row, k ∉ present -> (k, row) ∈ l <-> decode_raw_opt decode_stored (h !! (table, k)) = Ok (Some row).
Proof.
  intros E Hq Hp Hpres Hl. pose proof (inv_run _ _ _ _ (inv_open decode_stored rows) E Hq) as Hi.
  destruct (inv_reads _ s Hi (read_epoch p)) as (h & Hh & Hr); [right; by exists (pin_id p)|].
  exists h. split; [done|]. intros k row Hk. rewrite (scan_extra_elem _ _ _ _ _ _ _ _ _ Hl).
  destruct (Hr (table, k)) as [H1 H2]. split.
  - intros (_ & c & Hc & Hw). pose proof (inv_chains _ s Hi (table, k)) as [Hhd _]. rewrite Hc in H2, Hhd. cbn in Hhd, H2.
    destruct c as [|[u r] c]; [done|]. cbn in Hhd. rewrite Hhd in H2. cbn in H2, Hw.
    destruct (Z.ltb_spec (read_epoch p) u) as [Hu|]; [|done].
    destruct (H2 Hu) as (row' & Hw' & Hd). congruence.
  - intros Hd. split; [done|].
    destruct (Z.leb_spec (default 0 (committed (versions s) !! (table, k))) (read_epoch p)) as [Hle|Hgt].
    + destruct Hk. apply Hpres. rewrite (H1 Hle). destruct (h !! (table, k)); [by eexists|done].
    + destruct (H2 Hgt) as (row' & Hw & Hd'). rewrite Hd in Hd'. injection Hd' as <-.
      destruct (chains (versions s) !! (table, k)) as [c|]; [|done]. by exists c.
Qed.

Definition demo_delete : list Step :=
  [SPin; SAppend [(([1], [1]), None)]; SRecord; SApply; SPublish; SGc].

Definition demo_delete_check : bool :=
  match run raw_row (db_open {[ ([1], [1]) := [7] ]}) demo_delete with
  | None => false
  | Some s =>
    quiet raw_row (db_open {[ ([1], [1]) := [7] ]}) demo_delete &&
    bool_decide (snapshots (versions s) !! 1 = Some 0) && bool_decide (tree s = ∅)
  end.

Lemma demo_delete_check_true : demo_delete_check = true.
Proof. vm_compute. reflexivity. Qed.

Lemma snapshot_scan_extra_complete_witness :
  exists s l h, run raw_row (db_open {[ ([1], [1]) := [7] ]}) demo_delete = Some s /\
    snapshot_scan_extra (versions s) None 0 (Some (mkPin 1 0 false 0)) [1] ∅ = Ok l /\
    published s !! 0 = Some h /\
    forall k row, k ∉ (∅ : gset bytes) -> (k, row) ∈ l <-> decode_raw_opt raw_row (h !! ([1], k)) = Ok (Some row).
Proof.
  pose proof demo_delete_check_true as H. unfold demo_delete_check in H.
  destruct (run raw_row (db_open {[ ([1], [1]) := [7] ]}) demo_delete) as [s|] eqn:E; [|discriminate H].
  apply andb_true_iff in H as [H Ht%bool_decide_eq_true]. apply andb_true_iff in H as [Hq Hp%bool_decide_eq_true].
  destruct (snapshot_scan_extra (versions s) None 0 (Some (mkPin 1 0 false 0)) [1] ∅) as [l| |] eqn:El;
    [|discriminate El..].
  destruct (snapshot_scan_extra_complete raw_row {[ ([1], [1]) := [7] ]} demo_delete s (mkPin 1 0 false 0) None 0 [1] ∅ l
    E Hq Hp) as (h & Hh & Hl); [|exact El|].
  - intros k. rewrite Ht, lookup_empty. split; [set_solver|by intros [? ?]].
  - exists s, l, h. split; [reflexivity|]. split; [exact El|]. split; [exact Hh|exact Hl].
Defined.
