(* ===== verification/Epoch.v ===== *)
(** Epoch-based reclamation (epoch.rs) and the quarantine of freed page slots
    that relies on it (page.rs, [free] and [reclaim_quarantine]).

    The steps follow the atomic accesses of the source: [pin] loads the global
    epoch and then swaps it into the participant; [try_reclaim] scans the
    participants, advances the epoch, and filters the queue.  Two steps merge
    several accesses.  [retire_obj] loads the epoch and pushes the object later,
    under the lock of the queue: a reader that pins in between comes after the
    unlinking of the object, and a reclamation in between is what the window
    proviso of the theorem excludes.  [reclaim_scan] reads the participants one
    after the other: a participant that pins meanwhile announces the epoch of
    the scan, which only the scanning thread advances, and what is retired
    meanwhile is again excluded by the proviso.  The participants
    lock is held throughout [try_reclaim], so one runs at a time, but neither
    [pin] nor [retire] takes that lock.  The 64-bit epoch is a [Z]; the
    telemetry counters are left out. *)
From stdpp Require Import base list gmap.
From Stdlib Require Import ZArith Lia.
From S2P Require Import Prelude.

(** A participant that is not in a read phase. *)
Definition INACTIVE_EPOCH : Z := 2 ^ 64 - 1.

(** [prev] is what the guard restores. The epoch it announced, the global epoch
    and the clock when it did so are ghost fields. *)
Record Guard := mkGuard { prev : Z; g_epoch : Z; g_at : Z; g_time : Z }.

(** An object awaiting reclamation: its (ghost) time of retirement and the
    epoch it is tagged with. *)
Record Retired := mkRetired { r_time : Z; r_epoch : Z }.

(** What a running [try_reclaim] knows after its scan, and after it advanced
    the epoch. *)
Inductive Reclaim : Type :=
| Scanned (min_active : option Z) (all_caught_up : bool)
| Horizon (horizon : Z).

(** [ever] and [qever] are the ghost histories of all retirements and frees,
    [clock] numbers them. *)
Record EpochManager := mkEpoch {
  global_epoch : Z;
  participants : gmap nat Z;
  exited : gset nat;
  loading : gmap nat Z;
  guards : gmap nat (list Guard);
  retired : list Retired;
  quarantine : list Retired;
  reclaiming : option Reclaim;
  clock : Z;
  ever : list Retired;
  qever : list Retired;
}.

Definition epoch_new : EpochManager := mkEpoch 1 ∅ ∅ ∅ ∅ [] [] None 0 [] [].

Abbreviation guards_of s t := (default [] (guards s !! t)).

(** [pin]: find or register the participant of the thread and load the global
    epoch ... *)
Definition pin_load (s : EpochManager) (t : nat) : option EpochManager :=
  match loading s !! t with
  | Some _ => None
  | None =>
    if bool_decide (t ∈ exited s) then None
    else Some (mkEpoch (global_epoch s) (<[t := default INACTIVE_EPOCH (participants s !! t)]> (participants s))
                 (exited s) (<[t := global_epoch s]> (loading s)) (guards s) (retired s) (quarantine s)
                 (reclaiming s) (clock s) (ever s) (qever s))
  end.

(** ... then swap it into the participant; the guard remembers what was there. *)
Definition pin_swap (s : EpochManager) (t : nat) : option EpochManager :=
  match loading s !! t, participants s !! t with
  | Some e, Some p =>
    Some (mkEpoch (global_epoch s) (<[t := e]> (participants s)) (exited s) (delete t (loading s))
            (<[t := mkGuard p e (global_epoch s) (clock s) :: guards_of s t]> (guards s))
            (retired s) (quarantine s) (reclaiming s) (clock s) (ever s) (qever s))
  | _, _ => None
  end.

(** [Guard::drop] *)
Definition unpin (s : EpochManager) (t : nat) : option EpochManager :=
  match guards s !! t with
  | Some (g :: gs) =>
    Some (mkEpoch (global_epoch s) (<[t := prev g]> (participants s)) (exited s) (loading s)
            (<[t := gs]> (guards s)) (retired s) (quarantine s) (reclaiming s) (clock s) (ever s) (qever s))
  | _ => None
  end.

(** [retire] and [retire_raw] of an object just unlinked. *)
Definition retire_obj (s : EpochManager) : EpochManager :=
  let r := mkRetired (clock s) (global_epoch s) in
  mkEpoch (global_epoch s) (participants s) (exited s) (loading s) (guards s) (retired s ++ [r])
    (quarantine s) (reclaiming s) (clock s + 1) (ever s ++ [r]) (qever s).

(** [try_reclaim], first loop: the smallest active epoch, and whether every
    active participant is at the current epoch. *)
Definition min_active (ps : gmap nat Z) : option Z :=
  map_fold (fun _ e acc => if bool_decide (e = INACTIVE_EPOCH) then acc
                           else match acc with None => Some e | Some m => Some (Z.min m e) end) None ps.

Definition all_caught_up (current_global : Z) (ps : gmap nat Z) : bool :=
  map_fold (fun _ e acc => acc && (bool_decide (e = INACTIVE_EPOCH) || (current_global <=? e))) true ps.

Definition reclaim_scan (s : EpochManager) : option EpochManager :=
  match reclaiming s with
  | Some _ => None
  | None =>
    let ps := filter (fun p => p.1 ∉ exited s) (participants s) in
    Some (mkEpoch (global_epoch s) ps (exited s) (loading s) (guards s) (retired s) (quarantine s)
            (Some (Scanned (min_active ps) (all_caught_up (global_epoch s) ps))) (clock s) (ever s) (qever s))
  end.

Definition reclaim_advance (s : EpochManager) : option EpochManager :=
  match reclaiming s with
  | Some (Scanned m caught) =>
    let safe_epoch := if caught then global_epoch s + 1 else global_epoch s in
    Some (mkEpoch safe_epoch (participants s) (exited s) (loading s) (guards s) (retired s) (quarantine s)
            (Some (Horizon (default safe_epoch m))) (clock s) (ever s) (qever s))
  | _ => None
  end.

Definition reclaim_retain (s : EpochManager) : option EpochManager :=
  match reclaiming s with
  | Some (Horizon h) =>
    Some (mkEpoch (global_epoch s) (participants s) (exited s) (loading s) (guards s)
            (List.filter (fun r => h <=? r_epoch r) (retired s)) (quarantine s) None (clock s) (ever s) (qever s))
  | _ => None
  end.

(** The three parts in sequence, as one call runs them. *)
Definition try_reclaim (s : EpochManager) : option EpochManager :=
  s ← reclaim_scan s; s ← reclaim_advance s; reclaim_retain s.

(** [BufferPool::free] tags the freed slots with the current epoch;
    [reclaim_quarantine] releases the entries two epochs behind. *)
Definition quarantine_free (s : EpochManager) : EpochManager :=
  let r := mkRetired (clock s) (global_epoch s) in
  mkEpoch (global_epoch s) (participants s) (exited s) (loading s) (guards s) (retired s)
    (quarantine s ++ [r]) (reclaiming s) (clock s + 1) (ever s) (qever s ++ [r]).

Definition quarantine_release (s : EpochManager) : EpochManager :=
  mkEpoch (global_epoch s) (participants s) (exited s) (loading s) (guards s) (retired s)
    (List.filter (fun r => negb (r_epoch r + 1 <? global_epoch s)) (quarantine s))
    (reclaiming s) (clock s) (ever s) (qever s).

(** A thread that ends drops its handle; the next scan forgets it. *)
Definition thread_exit (s : EpochManager) (t : nat) : option EpochManager :=
  match loading s !! t, guards_of s t with
  | None, [] => Some (mkEpoch (global_epoch s) (participants s) ({[ t ]} ∪ exited s) (loading s) (guards s)
                        (retired s) (quarantine s) (reclaiming s) (clock s) (ever s) (qever s))
  | _, _ => None
  end.

Inductive EpochStep : Type :=
| EPinLoad (t : nat) | EPinSwap (t : nat) | EUnpin (t : nat) | ERetire
| EScan | EAdvance | ERetain | EFree | ERelease | EExit (t : nat).

Definition epoch_step (s : EpochManager) (l : EpochStep) : option EpochManager :=
  match l with
  | EPinLoad t => pin_load s t
  | EPinSwap t => pin_swap s t
  | EUnpin t => unpin s t
  | ERetire => Some (retire_obj s)
  | EScan => reclaim_scan s
  | EAdvance => reclaim_advance s
  | ERetain => reclaim_retain s
  | EFree => Some (quarantine_free s)
  | ERelease => Some (quarantine_release s)
  | EExit t => thread_exit s t
  end.

Fixpoint epoch_run (s : EpochManager) (ls : list EpochStep) : option EpochManager :=
  match ls with
  | [] => Some s
  | l :: ls => match epoch_step s l with Some s => epoch_run s ls | None => None end
  end.

(** No thread pins while it holds a guard. *)
Definition flat_step (s : EpochManager) (l : EpochStep) : bool :=
  match l with EPinLoad t => bool_decide (guards_of s t = []) | _ => true end.

(** Nothing is retired between the scan of [try_reclaim] and its advance. *)
Definition window_step (s : EpochManager) (l : EpochStep) : bool :=
  match l, reclaiming s with ERetire, Some (Scanned _ _) => false | _, _ => true end.

Fixpoint along (f : EpochManager -> EpochStep -> bool) (s : EpochManager) (ls : list EpochStep) : bool :=
  match ls with
  | [] => true
  | l :: ls => f s l && match epoch_step s l with Some s => along f s ls | None => true end
  end.

(** What a guard promises: nothing retired (freed) since it was taken has been
    reclaimed (released). *)
Definition protects (s : EpochManager) (g : Guard) : Prop := forall r, r ∈ ever s -> g_time g <= r_time r -> r ∈ retired s.
Definition qprotects (s : EpochManager) (g : Guard) : Prop := forall r, r ∈ qever s -> g_time g <= r_time r -> r ∈ quarantine s.

(** * The scan of [try_reclaim] *)

Lemma min_active_spec ps :
  match min_active ps with
  | None => forall t e, ps !! t = Some e -> e = INACTIVE_EPOCH
  | Some m => (exists t, ps !! t = Some m /\ m <> INACTIVE_EPOCH) /\
              forall t e, ps !! t = Some e -> e <> INACTIVE_EPOCH -> m <= e
  end.
Proof.
  unfold min_active. apply (map_fold_weak_ind (fun r (ps : gmap nat Z) =>
    match r with
    | None => forall t e, ps !! t = Some e -> e = INACTIVE_EPOCH
    | Some m => (exists t, ps !! t = Some m /\ m <> INACTIVE_EPOCH) /\
                forall t e, ps !! t = Some e -> e <> INACTIVE_EPOCH -> m <= e
    end)); [done|].
  intros i e m r Hi IH. case_bool_decide as He.
  - destruct r as [x|].
    + destruct IH as [[t [Ht Hx]] Hall]. split.
      * exists t. split; [|done]. rewrite lookup_insert_ne by congruence. done.
      * intros j a [[<- <-]|[_ Hj]]%lookup_insert_Some Ha; [done|by apply (Hall j)].
    + intros j a [[<- <-]|[_ Hj]]%lookup_insert_Some; [done|by apply (IH j)].
  - destruct r as [x|].
    + destruct IH as [[t [Ht Hx]] Hall]. split.
      * destruct (Z.min_spec x e) as [[_ ->]|[_ ->]]; [exists t|exists i; by rewrite lookup_insert_eq].
        split; [|done]. rewrite lookup_insert_ne by congruence. done.
      * intros j a [[<- <-]|[_ Hj]]%lookup_insert_Some Ha; [lia|]. specialize (Hall j a Hj Ha). lia.
    + split; [exists i; by rewrite lookup_insert_eq|].
      intros j a [[<- <-]|[_ Hj]]%lookup_insert_Some Ha; [lia|]. by apply IH in Hj.
Qed.

Lemma all_caught_up_spec c ps t e :
  all_caught_up c ps = true -> ps !! t = Some e -> e = INACTIVE_EPOCH \/ c <= e.
Proof.
  unfold all_caught_up. apply (map_fold_weak_ind (fun r (ps : gmap nat Z) =>
    r = true -> ps !! t = Some e -> e = INACTIVE_EPOCH \/ c <= e)); [done|].
  intros i a m r Hi IH [Hr Ha]%andb_prop [[<- <-]|[_ Hj]]%lookup_insert_Some; [|by apply IH].
  apply orb_prop in Ha as [Ha|Ha]; [left; by apply bool_decide_eq_true in Ha|right; lia].
Qed.

(** * The invariant of runs without nested pins *)

Definition pending (s : EpochManager) : Z :=
  match reclaiming s with Some (Scanned _ true) => 1 | _ => 0 end.

Record einv (s : EpochManager) : Prop := {
  e_part : forall t, match guards_of s t with
                     | [] => default INACTIVE_EPOCH (participants s !! t) = INACTIVE_EPOCH
                     | [g] => participants s !! t = Some (g_epoch g) /\ prev g = INACTIVE_EPOCH
                     | _ => False
                     end;
  e_exited : forall t, t ∈ exited s -> guards_of s t = [] /\ loading s !! t = None;
  e_load : forall t e, loading s !! t = Some e -> e <= global_epoch s /\ guards_of s t = [];
  e_guard : forall t g, g ∈ guards_of s t ->
    g_epoch g <= g_at g <= global_epoch s /\ global_epoch s + pending s <= g_at g + 1 /\ g_time g <= clock s;
  e_items : forall r, r ∈ ever s ++ qever s -> r_time r < clock s /\ r_epoch r <= global_epoch s;
  e_order : forall t g r, g ∈ guards_of s t -> r ∈ ever s ++ qever s -> g_time g <= r_time r -> g_at g <= r_epoch r;
  e_quar : forall t g, g ∈ guards_of s t -> qprotects s g;
}.

Lemma guards_insert s t gs t' :
  default [] (<[t := gs]> (guards s) !! t') = if decide (t = t') then gs else guards_of s t'.
Proof. destruct (decide _) as [->|]; [by rewrite lookup_insert_eq|by rewrite lookup_insert_ne]. Qed.

Lemma part_active s t g : einv s -> g ∈ guards_of s t -> participants s !! t = Some (g_epoch g) /\ guards_of s t = [g].
Proof.
  intros H Hg. pose proof (e_part s H t) as Hp. destruct (guards_of s t) as [|g' [|]]; [by apply elem_of_nil in Hg| |done].
  apply list_elem_of_singleton in Hg as ->. by destruct Hp.
Qed.

Lemma einv_new : einv epoch_new.
Proof.
  assert (Hg : forall t, guards_of epoch_new t = []) by (intros; by cbn; rewrite lookup_empty).
  split; cbn [epoch_new guards]; intros t; rewrite ?Hg; cbn; rewrite ?lookup_empty; set_solver.
Qed.

Lemma einv_pin_load s t s' :
  einv s -> guards_of s t = [] -> pin_load s t = Some s' -> einv s'.
Proof.
  intros H Hf. unfold pin_load. destruct (loading s !! t) eqn:El; [done|]. case_bool_decide as Hx; [done|].
  intros [= <-]. split; cbn; try apply H.
  - intros t'. pose proof (e_part s H t') as Hp. destruct (decide (t = t')) as [<-|Hne].
    + rewrite Hf in *. by rewrite lookup_insert_eq.
    + by rewrite lookup_insert_ne.
  - intros t' Ht'. destruct (e_exited s H t' Ht'). rewrite lookup_insert_ne; [done|by intros ->].
  - intros t' e [[<- <-]|[_ Hj]]%lookup_insert_Some; [done|]. by apply H.
Qed.

Lemma einv_pin_swap s t s' : einv s -> pin_swap s t = Some s' -> einv s'.
Proof.
  intros H. unfold pin_swap. destruct (loading s !! t) as [e|] eqn:El; [|done].
  destruct (participants s !! t) as [p|] eqn:Ep; [|done]. intros [= <-].
  destruct (e_load s H t e El) as [He Hf]. pose proof (e_part s H t) as Hp. rewrite Hf, Ep in Hp. cbn in Hp.
  assert (Hg : forall t' g, g ∈ default [] (<[t := mkGuard p e (global_epoch s) (clock s) :: guards_of s t]> (guards s) !! t') ->
            (g = mkGuard p e (global_epoch s) (clock s)) \/ g ∈ guards_of s t').
  { intros t' g. rewrite guards_insert, Hf. destruct (decide _); [|by right].
    intros ->%list_elem_of_singleton. by left. }
  split; cbn.
  - intros t'. rewrite guards_insert, Hf. destruct (decide (t = t')) as [<-|Hne].
    + by rewrite lookup_insert_eq.
    + rewrite lookup_insert_ne by done. apply (e_part s H t').
  - intros t' Ht'. destruct (e_exited s H t' Ht') as [Hx Hl]. assert (t <> t') by congruence.
    by rewrite lookup_delete_ne, lookup_insert_ne.
  - intros t' e' [Hne Hl]%lookup_delete_Some. rewrite lookup_insert_ne by done. by apply H.
  - intros t' g [->|Hin]%Hg; [|by apply (e_guard s H t')]. unfold pending. cbn.
    destruct (reclaiming s) as [[? []|]|]; lia.
  - apply H.
  - intros t' g r [->|Hin]%Hg Hr; [|by apply (e_order s H t')]. cbn. apply (e_items s H) in Hr. lia.
  - intros t' g [->|Hin]%Hg; [|by apply (e_quar s H t')]. intros r Hr Hle. cbn in *.
    destruct (e_items s H r); [set_solver|lia].
Qed.

Lemma einv_unpin s t s' : einv s -> unpin s t = Some s' -> einv s'.
Proof.
  intros H. unfold unpin. destruct (guards s !! t) as [[|g gs]|] eqn:Eg; [done| |done]. intros [= <-].
  pose proof (e_part s H t) as Hp. rewrite Eg in Hp. cbn in Hp. destruct gs; [|done]. destruct Hp as [Hp1 Hp2].
  assert (Hg : forall t' g', g' ∈ default [] (<[t := []]> (guards s) !! t') -> g' ∈ guards_of s t').
  { intros t' g'. rewrite guards_insert. destruct (decide _); [by intros ?%elem_of_nil|done]. }
  split; cbn; try apply H.
  - intros t'. rewrite guards_insert. destruct (decide (t = t')) as [<-|Hne].
    + by rewrite lookup_insert_eq.
    + rewrite lookup_insert_ne by done. apply (e_part s H t').
  - intros t' Ht'. rewrite guards_insert. destruct (e_exited s H t' Ht') as [-> ?]. by destruct (decide _).
  - intros t' e Hl. rewrite guards_insert. destruct (e_load s H t' e Hl) as [? ->]. by destruct (decide _).
  - intros t' g' Hin%Hg. by apply (e_guard s H t').
  - intros t' g' r Hin%Hg. by apply (e_order s H t').
  - intros t' g' Hin%Hg. by apply (e_quar s H t').
Qed.

Lemma einv_push s r k m e q :
  einv s -> r = mkRetired (clock s) (global_epoch s) -> k = clock s + 1 ->
  (e = ever s ++ [r] /\ q = qever s /\ m = quarantine s) \/ (e = ever s /\ q = qever s ++ [r] /\ m = quarantine s ++ [r]) ->
  forall rt, einv (mkEpoch (global_epoch s) (participants s) (exited s) (loading s) (guards s) rt m (reclaiming s) k e q).
Proof.
  intros H Hr -> Hc rt.
  assert (Hx : forall x, x ∈ e ++ q -> x = r \/ x ∈ ever s ++ qever s).
  { intros x. destruct Hc as [(-> & -> & _)|(-> & -> & _)]; rewrite !elem_of_app, ?list_elem_of_singleton; tauto. }
  split; cbn; try apply H.
  - intros t g Hg. pose proof (e_guard s H t g Hg). unfold pending in *. cbn. lia.
  - intros x [->|Hin]%Hx; [subst r; cbn; lia|].
    apply (e_items s H) in Hin. lia.
  - intros t g x Hg [->|Hin]%Hx.
    + subst r. cbn. intros _. apply (e_guard s H) in Hg. lia.
    + by apply (e_order s H t).
  - intros t g Hg x Hq Hle. cbn in Hq, Hle |- *. pose proof (e_quar s H t g Hg x) as Hp.
    destruct Hc as [(-> & -> & ->)|(-> & -> & ->)]; [by apply Hp|].
    rewrite elem_of_app in Hq |- *. destruct Hq; [left; by apply Hp|by right].
Qed.

Lemma einv_scan s s' : einv s -> global_epoch s < INACTIVE_EPOCH -> reclaim_scan s = Some s' -> einv s'.
Proof.
  intros H Hlt. unfold reclaim_scan. destruct (reclaiming s) as [|] eqn:Er; [done|]. intros [= <-].
  split; cbn; try apply H.
  - intros t. pose proof (e_part s H t) as Hp. destruct (guards_of s t) as [|g [|]] eqn:Eg; [| |done].
    + rewrite map_lookup_filter. destruct (participants s !! t) as [p|] eqn:Ep; [|done]. cbn in *. subst p.
      by case_guard.
    + destruct Hp as [Hp ?]. split; [|done]. apply map_lookup_filter_Some. split; [done|]. cbn. intros Hx.
      apply (e_exited s H) in Hx as [Hx _]. rewrite Eg in Hx. done.
  - intros t g Hg. pose proof (e_guard s H t g Hg) as Hb. destruct (part_active s t g H Hg) as [Hp Hgs].
    unfold pending in *. rewrite Er in Hb. cbn. split; [lia|]. split; [|lia].
    destruct (all_caught_up _ _) eqn:Ec; [|lia].
    assert (Hp' : filter (fun p => p.1 ∉ exited s) (participants s) !! t = Some (g_epoch g)).
    { apply map_lookup_filter_Some. split; [done|]. cbn. intros Hx. apply (e_exited s H) in Hx as [Hx _]. by rewrite Hgs in Hx. }
    destruct (all_caught_up_spec _ _ _ _ Ec Hp'); lia.
Qed.

Lemma einv_advance s s' : einv s -> reclaim_advance s = Some s' -> einv s'.
Proof.
  intros H. unfold reclaim_advance. destruct (reclaiming s) as [[m c|]|] eqn:Er; [|done|done]. intros [= <-].
  split; cbn; try apply H.
  - intros t e Hl. destruct (e_load s H t e Hl). split; [|done]. destruct c; lia.
  - intros t g Hg. pose proof (e_guard s H t g Hg) as Hb. unfold pending in *. rewrite Er in Hb. cbn. destruct c; lia.
  - intros r Hr. pose proof (e_items s H r Hr). destruct c; lia.
Qed.

Lemma einv_release s : einv s -> einv (quarantine_release s).
Proof.
  intros H. split; try apply H. intros t g Hg r Hr Hle. cbn in *.
  rewrite list_elem_of_In, filter_In, <- list_elem_of_In. split; [by apply (e_quar s H t g)|].
  pose proof (e_order s H t g r Hg ltac:(set_solver) Hle). pose proof (e_guard s H t g Hg) as Hb.
  unfold pending in Hb. destruct (reclaiming s) as [[? []|]|]; by zb; lia.
Qed.

Lemma einv_exit s t s' : einv s -> thread_exit s t = Some s' -> einv s'.
Proof.
  intros H. unfold thread_exit. destruct (loading s !! t) eqn:El; [done|].
  destruct (guards_of s t) eqn:Eg; [|done]. intros [= <-]. split; cbn; try apply H.
  intros t' [->%elem_of_singleton|Hx]%elem_of_union; [done|]. by apply H.
Qed.

Lemma einv_step s l s' :
  einv s -> global_epoch s < INACTIVE_EPOCH -> flat_step s l = true -> epoch_step s l = Some s' -> einv s'.
Proof.
  intros H Hlt Hf Hs. destruct l; cbn in Hs, Hf.
  - apply bool_decide_eq_true in Hf. by eapply einv_pin_load.
  - by eapply einv_pin_swap.
  - by eapply einv_unpin.
  - injection Hs as <-. eapply einv_push; eauto.
  - by eapply einv_scan.
  - by eapply einv_advance.
  - unfold reclaim_retain in Hs. destruct (reclaiming s) as [[|h]|] eqn:Er; [done| |done]. injection Hs as <-.
    split; cbn; try apply H. intros t g Hg. pose proof (e_guard s H t g Hg) as Hb. unfold pending in *.
    rewrite Er in Hb. cbn. lia.
  - injection Hs as <-. eapply einv_push; eauto 10.
  - injection Hs as <-. by apply einv_release.
  - by eapply einv_exit.
Qed.

(** * The queue of retired objects *)

(** Nothing below the horizon [h] was retired under an open guard. *)
Definition below (s : EpochManager) (h : Z) : Prop := forall r t g,
  r ∈ ever s -> r_epoch r < h -> g ∈ guards_of s t -> r_time r < g_time g.

Definition window_ok (s : EpochManager) : Prop :=
  match reclaiming s with
  | None => True
  | Some (Scanned m c) =>
    below s (default (if c then global_epoch s + 1 else global_epoch s) m) /\
    match m with Some m => m <= global_epoch s | None => True end
  | Some (Horizon h) => below s h /\ h <= global_epoch s
  end.

Definition queue_ok (s : EpochManager) : Prop :=
  window_ok s /\ forall t g, g ∈ guards_of s t -> protects s g.

(** Steps that keep the guards, or drop one, and the histories. *)
Lemma queue_keep s s' :
  queue_ok s -> ever s' = ever s -> retired s' = retired s -> reclaiming s' = reclaiming s ->
  global_epoch s' = global_epoch s -> (forall t g, g ∈ guards_of s' t -> g ∈ guards_of s t) -> queue_ok s'.
Proof.
  intros [Hw Hp] He Hr Hc Hg Hin. split.
  - unfold window_ok, below in *. rewrite He, Hc, Hg.
    destruct (reclaiming s) as [[m c|h]|]; [| |done]; (destruct Hw; split; [|done]; eauto).
  - intros t g Hi. unfold protects. rewrite He, Hr. apply (Hp t), Hin, Hi.
Qed.

Lemma queue_pin_swap s t s' : einv s -> queue_ok s -> pin_swap s t = Some s' -> queue_ok s'.
Proof.
  intros H [Hw Hp]. unfold pin_swap. destruct (loading s !! t) as [e|] eqn:El; [|done].
  destruct (participants s !! t) as [p|]; [|done]. intros [= <-]. destruct (e_load s H t e El) as [_ Hf].
  assert (Hlate : forall r g, r ∈ ever s -> g = mkGuard p e (global_epoch s) (clock s) -> r_time r < g_time g).
  { intros r g Hr ->. cbn. apply (e_items s H). set_solver. }
  assert (Hg : forall t' g, g ∈ default [] (<[t := mkGuard p e (global_epoch s) (clock s) :: guards_of s t]> (guards s) !! t') ->
            (g = mkGuard p e (global_epoch s) (clock s)) \/ g ∈ guards_of s t').
  { intros t' g. rewrite guards_insert, Hf. destruct (decide _); [|by right].
    intros ->%list_elem_of_singleton. by left. }
  split.
  - unfold window_ok, below in *. cbn. destruct (reclaiming s) as [[m c|h]|]; [| |done];
      (destruct Hw as [Hw ?]; split; [|done]; intros r t' g Hr Hlt [->|Hin]%Hg; [by apply Hlate|by eapply Hw]).
  - intros t' g [->|Hin]%Hg; [|by apply (Hp t')]. intros r Hr Hle. cbn in *.
    specialize (Hlate r _ Hr eq_refl). cbn in Hlate. lia.
Qed.

Lemma queue_retire s :
  einv s -> queue_ok s -> window_step s ERetire = true -> queue_ok (retire_obj s).
Proof.
  intros H [Hw Hp] Hc. cbn in Hc. split.
  - unfold window_ok, below in *. cbn. destruct (reclaiming s) as [[m c|h]|]; [done| |done].
    destruct Hw as [Hw ?]. split; [|done].
    intros r t g [Hr| ->%list_elem_of_singleton]%elem_of_app Hlt Hg; [by eapply Hw|]. cbn in Hlt. lia.
  - intros t g Hg r Hr Hle. cbn in *. rewrite elem_of_app in Hr |- *. destruct Hr; [left; by apply (Hp t g)|by right].
Qed.

Lemma queue_scan s s' : einv s -> global_epoch s < INACTIVE_EPOCH -> queue_ok s -> reclaim_scan s = Some s' -> queue_ok s'.
Proof.
  intros H Hlt [Hw Hp]. unfold reclaim_scan. destruct (reclaiming s) as [|] eqn:Er; [done|]. intros [= <-].
  split; [|exact Hp]. unfold window_ok, below. cbn. set (ps := filter _ _). pose proof (min_active_spec ps) as Hm.
  assert (Hps : forall t g, g ∈ guards_of s t -> ps !! t = Some (g_epoch g)).
  { intros t g Hg. destruct (part_active s t g H Hg) as [Hq Hgs]. apply map_lookup_filter_Some. split; [done|]. cbn.
    intros Hx. apply (e_exited s H) in Hx as [Hx _]. by rewrite Hgs in Hx. }
  assert (Hact : forall t g, g ∈ guards_of s t -> g_epoch g <> INACTIVE_EPOCH).
  { intros t g Hg. apply (e_guard s H) in Hg. lia. }
  destruct (min_active ps) as [m|]; cbn.
  - destruct Hm as [[t0 [Ht0 Hne]] Hall]. split.
    + intros r t g Hr Hlo Hg. pose proof (Hall t _ (Hps t g Hg) (Hact t g Hg)).
      destruct (Z.lt_ge_cases (r_time r) (g_time g)) as [?|Hge]; [done|].
      pose proof (e_order s H t g r Hg ltac:(set_solver) Hge). apply (e_guard s H) in Hg. lia.
    + apply map_lookup_filter_Some in Ht0 as [Ht0 _]. pose proof (e_part s H t0) as Hq. rewrite Ht0 in Hq.
      destruct (guards_of s t0) as [|g [|]] eqn:Eg; [done| |done]. destruct Hq as [[= ->] _].
      assert (g ∈ guards_of s t0) as Hg by (rewrite Eg; set_solver). apply (e_guard s H) in Hg. lia.
  - split; [|done]. intros r t g _ _ Hg. by destruct (Hact t g Hg (Hm t _ (Hps t g Hg))).
Qed.

Lemma queue_retain s s' : queue_ok s -> reclaim_retain s = Some s' -> queue_ok s'.
Proof.
  intros [Hw Hp]. unfold reclaim_retain. destruct (reclaiming s) as [[|h]|] eqn:Er; [done| |done]. intros [= <-].
  split; [done|]. intros t g Hg r Hr Hle. cbn in *. unfold window_ok in Hw. rewrite Er in Hw. destruct Hw as [Hw _].
  rewrite list_elem_of_In, filter_In, <- list_elem_of_In. split; [by apply (Hp t g)|].
  destruct (Z.leb_spec h (r_epoch r)) as [|Hlt]; [done|]. specialize (Hw r t g Hr Hlt Hg). lia.
Qed.

Lemma queue_step s l s' :
  einv s -> global_epoch s < INACTIVE_EPOCH -> queue_ok s -> window_step s l = true ->
  epoch_step s l = Some s' -> queue_ok s'.
Proof.
  intros H Hlt Hq Hc Hs. destruct l; cbn in Hs.
  - unfold pin_load in Hs. destruct (loading s !! t); [done|]. case_bool_decide; [done|]. injection Hs as <-.
    by eapply queue_keep.
  - by eapply queue_pin_swap.
  - unfold unpin in Hs. destruct (guards s !! t) as [[|g gs]|] eqn:Eg; [done| |done]. injection Hs as <-.
    eapply queue_keep; try done. intros t' g'. cbn [guards]. rewrite guards_insert. destruct (decide (t = t')) as [<-|]; [|done].
    rewrite Eg. cbn. set_solver.
  - injection Hs as <-. by apply queue_retire.
  - by eapply queue_scan.
  - unfold reclaim_advance in Hs. destruct Hq as [Hw Hp]. unfold window_ok in Hw.
    destruct (reclaiming s) as [[m c|]|]; [|done|done]. injection Hs as <-. split; [|exact Hp].
    unfold window_ok, below in *. cbn. split; [apply Hw|]. destruct m; cbn; [|lia]. destruct Hw. destruct c; lia.
  - by eapply queue_retain.
  - injection Hs as <-. by eapply queue_keep.
  - injection Hs as <-. by eapply queue_keep.
  - unfold thread_exit in Hs. destruct (loading s !! t); [done|]. destruct (guards_of s t); [|done].
    injection Hs as <-. by eapply queue_keep.
Qed.

(** * Runs *)

Lemma epoch_step_mono s l s' : epoch_step s l = Some s' -> global_epoch s <= global_epoch s'.
Proof.
  destruct l; cbn; unfold pin_load, pin_swap, unpin, reclaim_scan, reclaim_advance, reclaim_retain, thread_exit; intros Hs;
    repeat (case_match; try done); injection Hs as <-; cbn; try case_match; lia.
Qed.

Lemma epoch_run_mono ls s s' : epoch_run s ls = Some s' -> global_epoch s <= global_epoch s'.
Proof.
  revert s. induction ls as [|l ls IH]; intros s; cbn; [intros [= <-]; lia|].
  destruct (epoch_step s l) as [s1|] eqn:E; [|done]. intros Hr%IH. apply epoch_step_mono in E. lia.
Qed.

Lemma einv_run ls s s' :
  einv s -> along flat_step s ls = true -> epoch_run s ls = Some s' -> global_epoch s' < INACTIVE_EPOCH -> einv s'.
Proof.
  revert s. induction ls as [|l ls IH]; intros s H; cbn; [by intros _ [= <-]|]. intros [Hf Ha]%andb_prop.
  destruct (epoch_step s l) as [s1|] eqn:E; [|done]. intros Hr Hlt. apply (IH s1); [|done|done|done].
  eapply einv_step; [done| |done|done]. apply epoch_run_mono in Hr. apply epoch_step_mono in E. lia.
Qed.

Lemma queue_run ls s s' :
  einv s -> queue_ok s -> along flat_step s ls = true -> along window_step s ls = true ->
  epoch_run s ls = Some s' -> global_epoch s' < INACTIVE_EPOCH -> queue_ok s'.
Proof.
  revert s. induction ls as [|l ls IH]; intros s H Hq; cbn; [by intros _ _ [= <-]|].
  intros [Hf Ha]%andb_prop [Hc Hb]%andb_prop.
  destruct (epoch_step s l) as [s1|] eqn:E; [|done]. intros Hr Hlt.
  assert (global_epoch s < INACTIVE_EPOCH) by (apply epoch_run_mono in Hr; apply epoch_step_mono in E; lia).
  apply (IH s1); try done; [by eapply einv_step|by eapply queue_step].
Qed.

Lemma queue_new : queue_ok epoch_new.
Proof. split; [done|]. intros t g. cbn. rewrite lookup_empty. by intros ?%elem_of_nil. Qed.

(** * What readers may rely on *)

(** C33: Without nested pins, and when nothing is retired between the scan and
    the advance of a running [try_reclaim], no object retired since a guard was
    taken is reclaimed while the guard is open, whatever the threads do. *)
Theorem retired_kept_under_guard ls s t g :
  epoch_run epoch_new ls = Some s -> along flat_step epoch_new ls = true ->
  along window_step epoch_new ls = true -> global_epoch s < INACTIVE_EPOCH ->
  g ∈ guards_of s t -> protects s g.
Proof.
  intros Hr Hf Hw Hlt. apply (queue_run ls epoch_new s); auto using einv_new, queue_new.
Qed.

(** Without nested pins a page slot freed since a guard was taken stays in
    quarantine while the guard is open: the wait of two epochs is enough. *)
Theorem quarantine_kept_under_guard ls s t g :
  epoch_run epoch_new ls = Some s -> along flat_step epoch_new ls = true ->
  global_epoch s < INACTIVE_EPOCH -> g ∈ guards_of s t -> qprotects s g.
Proof. intros Hr Hf Hlt. apply (einv_run ls epoch_new s); auto using einv_new. Qed.

(** Two threads, a retirement and a free under the guard of the first, and two
    rounds of reclamation. *)
Definition demo_run : list EpochStep :=
  [EPinLoad 1; EPinSwap 1; EPinLoad 2; EPinSwap 2; ERetire; EFree; EScan; EAdvance; ERetain; ERelease;
   EUnpin 2; EScan; EAdvance; ERetain; ERelease].
Definition demo_guard : Guard := mkGuard INACTIVE_EPOCH 1 1 0.
Definition demo_state : EpochManager := default epoch_new (epoch_run epoch_new demo_run).

Lemma retired_kept_under_guard_witness :
  demo_guard ∈ guards_of demo_state 1%nat /\ length (ever demo_state) = 1%nat /\ protects demo_state demo_guard.
Proof.
  assert (demo_guard ∈ guards_of demo_state 1%nat) as Hg by (vm_compute; left).
  split; [exact Hg|]. split; [vm_compute; reflexivity|].
  apply (retired_kept_under_guard demo_run demo_state 1 demo_guard); try exact Hg; vm_compute; reflexivity.
Defined.

Lemma quarantine_kept_under_guard_witness :
  demo_guard ∈ guards_of demo_state 1%nat /\ length (qever demo_state) = 1%nat /\ qprotects demo_state demo_guard.
Proof.
  assert (demo_guard ∈ guards_of demo_state 1%nat) as Hg by (vm_compute; left).
  split; [exact Hg|]. split; [vm_compute; reflexivity|].
  apply (quarantine_kept_under_guard demo_run demo_state 1 demo_guard); try exact Hg; vm_compute; reflexivity.
Defined.

(** An inner pin announces the current epoch for the whole thread. *)
Definition nested_run : list EpochStep :=
  [EPinLoad 1; EPinSwap 1; ERetire; EFree; EScan; EAdvance; ERetain;
   EPinLoad 1; EPinSwap 1; EScan; EAdvance; ERetain; ERelease].

(** The reclaimer saw no reader, one arrives, and an object is retired before
    the epoch advances. *)
Definition race_run : list EpochStep := [EScan; EPinLoad 1; EPinSwap 1; ERetire; EAdvance; ERetain].

(** A pin taken inside another one moves the thread's announced epoch
    forward, so that objects retired and slots freed under the outer guard are
    reclaimed while the outer guard is still open. *)
Theorem nested_pin_loses_protection :
  exists s g, epoch_run epoch_new nested_run = Some s /\ along window_step epoch_new nested_run = true /\
    g ∈ guards_of s 1%nat /\ ~ protects s g /\ ~ qprotects s g.
Proof.
  exists (default epoch_new (epoch_run epoch_new nested_run)), demo_guard.
  split; [vm_compute; reflexivity|]. split; [vm_compute; reflexivity|]. split; [vm_compute; right; left|].
  split; intros Hp.
  - assert (mkRetired 0 1 ∈ @nil Retired) as ?%elem_of_nil; [|done]. apply Hp; vm_compute; [left|done].
  - assert (mkRetired 1 1 ∈ @nil Retired) as ?%elem_of_nil; [|done]. apply Hp; vm_compute; [left|done].
Qed.

(** [try_reclaim] computes its horizon from a scan that a reader can miss:
    an object retired after that reader pinned, and before the epoch advances,
    is reclaimed while the reader's guard is open, without any nested pin. *)
Theorem reclaim_window_race :
  exists s g, epoch_run epoch_new race_run = Some s /\ along flat_step epoch_new race_run = true /\
    g ∈ guards_of s 1%nat /\ ~ protects s g.
Proof.
  exists (default epoch_new (epoch_run epoch_new race_run)), demo_guard.
  split; [vm_compute; reflexivity|]. split; [vm_compute; reflexivity|]. split; [vm_compute; left|].
  intros Hp. assert (mkRetired 0 1 ∈ @nil Retired) as ?%elem_of_nil; [|done]. apply Hp; vm_compute; [left|done].
Qed.
