(* ===== verification/Page.v ===== *)
(** Slotted pages, swizzled pointers and overflow locators (page.rs): the page
    image as bytes, its slot directory, insertion, deletion, compaction and the
    checks made on a page read from disk. *)
From stdpp Require Import base list gmap strings.
From Stdlib Require Import ZArith Lia.
From S2P Require Import Prelude Machine WalCodec.

Definition PAGE_SIZE : Z := 256 * 1024.
Definition PAGE_MAGIC : bytes := str "HDBP".
Definition PAGE_FORMAT_VERSION : Z := 1.
Definition MAX_VALUE_LEN : Z := 64 * 1024 * 1024.
Definition LOCATOR_TAG : Z := 0xFF.
Definition LOCATOR_MAGIC : Z := 80.
Definition LOCATOR_LEN : Z := 14.
Definition HEADER_LEN : Z := 32.
Definition SLOT_LEN : Z := 8.
Definition FRAG_SINGLE_OVERHEAD : Z := 9.
Definition FRAG_CHAIN_OVERHEAD : Z := 21.
Definition MAX_FRAG_PAYLOAD : Z := PAGE_SIZE - HEADER_LEN - 2 * SLOT_LEN - FRAG_CHAIN_OVERHEAD.
Definition MAX_CHAIN_FRAGS : nat := 4096.

(** * Swips: bit 63 tells a resident frame from a page on disk *)

Definition SWIZZLED_BIT : Z := Z.shiftl 1 63.

Definition unswizzled (page : Z) : Z := page.
Definition swizzled (frame_idx : Z) : Z := Z.lor frame_idx SWIZZLED_BIT.
Definition is_swizzled (w : Z) : bool := negb (Z.land w SWIZZLED_BIT =? 0).
Definition swip_page_id (w : Z) : option Z := if is_swizzled w then None else Some w.
Definition swip_frame_idx (w : Z) : option Z :=
  if is_swizzled w then Some (Z.land w (Z.lxor u64_MAX SWIZZLED_BIT)) else None.

(** * Locators *)

Record Locator := mkLocator { loc_page : Z; loc_slot : Z }.

#[global] Instance Locator_eq_dec : EqDecision Locator.
Proof. solve_decision. Defined.
#[global] Instance Locator_countable : Countable Locator.
Proof.
  refine (inj_countable' (fun l => (loc_page l, loc_slot l)) (fun p => mkLocator p.1 p.2) _). by intros [].
Defined.

Definition loc_encode (l : Locator) : bytes :=
  [LOCATOR_TAG; LOCATOR_MAGIC] ++ to_le 8 (loc_page l) ++ to_le 4 (loc_slot l).

Definition is_locator (buf : bytes) : bool :=
  (Zlen buf =? LOCATOR_LEN) && (default 0 (buf !! 0%nat) =? LOCATOR_TAG) && (default 0 (buf !! 1%nat) =? LOCATOR_MAGIC).

(** [img[off .. off + n]] *)
Definition sub (img : bytes) (off n : Z) : bytes := take (Z.to_nat n) (drop (Z.to_nat off) img).

(** [img[off .. off + bs.len()].copy_from_slice(bs)] *)
Definition patch (img : bytes) (off : Z) (bs : bytes) : bytes :=
  take (Z.to_nat off) img ++ bs ++ drop (Z.to_nat off + length bs) img.

Definition loc_decode (buf : bytes) : res Locator :=
  if is_locator buf then Ok (mkLocator (of_le (sub buf 2 8)) (of_le (sub buf 10 4)))
  else Err (Corrupted (str "bad overflow locator")).

(** * Page images *)

Definition read_u32 (img : bytes) (off : Z) : Z := of_le (sub img off 4).
Definition write_u32 (img : bytes) (off v : Z) : bytes := patch img off (to_le 4 v).
Definition read_u64 (img : bytes) (off : Z) : Z := of_le (sub img off 8).
Definition write_u64 (img : bytes) (off v : Z) : bytes := patch img off (to_le 8 v).

Record Page := mkPage { page_id : Z; img : bytes }.

Definition clear_crc (i : bytes) : bytes := patch i 24 [0; 0; 0; 0].

Definition update_checksum (p : Page) : Page :=
  let z := clear_crc (img p) in
  mkPage (page_id p) (patch z 24 (to_le 4 (crc32 z))).

Definition zeros (n : Z) : bytes := replicate (Z.to_nat n) 0.

Definition page_create (id : Z) : Page :=
  let i := patch (zeros PAGE_SIZE) 0 PAGE_MAGIC in
  let i := write_u32 i 4 PAGE_FORMAT_VERSION in
  let i := write_u64 i 8 id in
  let i := write_u32 i 16 0 in
  let i := write_u32 i 20 PAGE_SIZE in
  update_checksum (mkPage id i).

Definition slot_count (p : Page) : Z := read_u32 (img p) 16.
Definition data_start (p : Page) : Z := read_u32 (img p) 20.
Definition set_data_start (p : Page) (v : Z) : Page := mkPage (page_id p) (write_u32 (img p) 20 v).

Definition slot_base (slot : Z) : Z := HEADER_LEN + slot * SLOT_LEN.

Definition slot_off (p : Page) (slot : Z) : option (Z * Z) :=
  if slot_count p <=? slot then None
  else if PAGE_SIZE <? slot_base slot + SLOT_LEN then None
  else Some (read_u32 (img p) (slot_base slot), read_u32 (img p) (slot_base slot + 4)).

Definition write_slot (i : bytes) (slot off len : Z) : bytes :=
  write_u32 (write_u32 i (slot_base slot) off) (slot_base slot + 4) len.

Definition set_slot (p : Page) (slot off len : Z) : Page :=
  update_checksum (mkPage (page_id p) (write_slot (img p) slot off len)).

(** [saturating_sub] *)
Definition free_space (p : Page) : Z :=
  Z.max 0 (data_start p - (HEADER_LEN + (slot_count p + 1) * SLOT_LEN)).

Definition is_free (e : Z * Z) : bool := (e.1 =? 0) && (e.2 =? 0).

(** The first free slot among [s .. s + n]; [expect] panics outside the
    directory. *)
Fixpoint first_free (p : Page) (n : nat) (s : Z) : res (option Z) :=
  match n with
  | O => mret None
  | S n =>
    match slot_off p s with
    | None => Panic
    | Some e => if is_free e then mret (Some s) else first_free p n (s + 1)
    end
  end.

(** Copy the record below the data region. *)
Definition put_record (p : Page) (data : bytes) : Page * Z :=
  let start := data_start p - Zlen data in
  (set_data_start (mkPage (page_id p) (patch (img p) start data)) start, start).

Definition page_insert (p : Page) (data : bytes) : res (option (Page * Z)) :=
  if free_space p <? Zlen data + SLOT_LEN then mret None
  else
    let count := slot_count p in
    reuse ← first_free p (Z.to_nat count) 0;
    let '(p, start) := put_record p data in
    match reuse with
    | Some s => mret (Some (set_slot p s start (Zlen data), s))
    | None =>
      let p := mkPage (page_id p) (write_u32 (img p) 16 (count + 1)) in
      mret (Some (set_slot p count start (Zlen data), count))
    end.

Definition page_get (p : Page) (slot : Z) : option bytes :=
  match slot_off p slot with
  | None => None
  | Some (o, l) =>
    if is_free (o, l) then None
    else if (PAGE_SIZE <? o + l) || (o <? HEADER_LEN + slot_count p * SLOT_LEN) then None
    else Some (sub (img p) o l)
  end.

Definition free_slot (p : Page) (slot : Z) : Page * bool :=
  match slot_off p slot with
  | None => (p, false)
  | Some e => if is_free e then (p, false) else (set_slot p slot 0 0, true)
  end.

(** The live records of a page in slot order, copied out; slicing past the end
    of the image panics. *)
Fixpoint live_records (p : Page) (n : nat) (s : Z) : res (list (Z * bytes)) :=
  match n with
  | O => mret []
  | S n =>
    match slot_off p s with
    | None => Panic
    | Some (o, l) =>
      if is_free (o, l) then live_records p n (s + 1)
      else if Zlen (img p) <? o + l then Panic
      else rest ← live_records p n (s + 1); mret ((s, sub (img p) o l) :: rest)
    end
  end.

(** Repack toward the end of the page; [start -= len] is checked. *)
Fixpoint repack (i : bytes) (start : Z) (live : list (Z * bytes)) : res (bytes * Z) :=
  match live with
  | [] => mret (i, start)
  | (s, data) :: live =>
    let start := start - Zlen data in
    if start <? 0 then Panic
    else repack (write_slot (patch i start data) s start (Zlen data)) start live
  end.

Definition compact (p : Page) : res Page :=
  let count := slot_count p in
  live ← live_records p (Z.to_nat count) 0;
  '(i, start) ← repack (img p) PAGE_SIZE live;
  let dir_end := HEADER_LEN + count * SLOT_LEN in
  if start <? dir_end then Panic
  else mret (update_checksum (set_data_start (mkPage (page_id p) (patch i dir_end (zeros (start - dir_end)))) start)).

Definition verify (p : Page) : res () :=
  if negb (bool_decide (sub (img p) 0 4 = PAGE_MAGIC)) then Err (Corrupted (str "page: bad magic"))
  else if negb (read_u32 (img p) 4 =? PAGE_FORMAT_VERSION) then Err (Corrupted (str "page: version"))
  else if negb (read_u64 (img p) 8 =? page_id p) then Err (Corrupted (str "page: id mismatch"))
  else if negb (crc32 (clear_crc (img p)) =? read_u32 (img p) 24) then Err (Corrupted (str "page: checksum"))
  else if PAGE_SIZE <? HEADER_LEN + slot_count p * SLOT_LEN then Err (Corrupted (str "page: slot directory overflow"))
  else if (data_start p <? HEADER_LEN + slot_count p * SLOT_LEN) || (PAGE_SIZE <? data_start p)
       then Err (Corrupted (str "page: data-start out of range"))
  else Ok ().

Definition from_image (id : Z) (i : bytes) : res Page :=
  if negb (Zlen i =? PAGE_SIZE) then Err (Corrupted (str "page: short image"))
  else _ ← verify (mkPage id i); mret (mkPage id i).

(** * The superblock *)

Definition SUPERBLOCK_PAGE : Z := 0.

Definition superblock_image (next_id : Z) : bytes :=
  let i := patch (zeros PAGE_SIZE) 0 PAGE_MAGIC in
  let i := write_u32 i 4 PAGE_FORMAT_VERSION in
  let i := write_u64 i 8 SUPERBLOCK_PAGE in
  let i := write_u64 i HEADER_LEN next_id in
  patch i 24 (to_le 4 (crc32 i)).

Definition superblock_next_id (i : bytes) : res Z :=
  if negb (bool_decide (sub i 0 4 = PAGE_MAGIC)) || negb (read_u32 i 4 =? PAGE_FORMAT_VERSION)
  then Err (Corrupted (str "page file: bad superblock"))
  else if negb (crc32 (clear_crc i) =? read_u32 i 24) then Err (Corrupted (str "page file: superblock checksum"))
  else let next := read_u64 i HEADER_LEN in
       if next <? 1 then Err (Corrupted (str "page file: bad next-page")) else Ok next.

(** * Slices and patches *)

Lemma Zlen_patch i off bs : 0 <= off -> off + Zlen bs <= Zlen i -> Zlen (patch i off bs) = Zlen i.
Proof. intros H1 H2. unfold patch. rewrite !length_app, length_take, length_drop. lia. Qed.

Lemma sub_patch_same i off bs : 0 <= off -> off + Zlen bs <= Zlen i -> sub (patch i off bs) off (Zlen bs) = bs.
Proof.
  intros H1 H2. unfold sub, patch. rewrite drop_app_length' by (rewrite length_take; lia).
  by rewrite take_app_length' by lia.
Qed.

Lemma sub_patch_before i off bs o n :
  0 <= o -> 0 <= n -> o + n <= off -> off + Zlen bs <= Zlen i -> sub (patch i off bs) o n = sub i o n.
Proof.
  intros H1 H2 H3 H4. unfold sub, patch.
  rewrite !take_drop_commute, <- !Z2Nat.inj_add by lia.
  rewrite take_app_le by (rewrite length_take; lia). by rewrite take_take, Nat.min_l by lia.
Qed.

Lemma sub_patch_after i off bs o n :
  0 <= off -> off + Zlen bs <= o -> off + Zlen bs <= Zlen i -> sub (patch i off bs) o n = sub i o n.
Proof.
  intros H1 H2 H3. unfold sub, patch. f_equal.
  rewrite drop_app_ge by (rewrite length_take; lia). rewrite drop_app_ge by (rewrite length_take; lia).
  rewrite drop_drop. f_equal. rewrite length_take. lia.
Qed.

(** A patch away from a slice does not change it. *)
Lemma sub_patch_other i off bs o n :
  0 <= off -> off + Zlen bs <= Zlen i -> 0 <= o -> 0 <= n -> o + n <= off \/ off + Zlen bs <= o ->
  sub (patch i off bs) o n = sub i o n.
Proof. intros ? ? ? ? [?|?]; [by apply sub_patch_before|by apply sub_patch_after]. Qed.

Lemma patch_patch_same i off a b :
  0 <= off -> Zlen a = Zlen b -> off + Zlen a <= Zlen i -> patch (patch i off a) off b = patch i off b.
Proof.
  intros H1 H2 H3. unfold patch. rewrite take_app_length' by (rewrite length_take; lia). f_equal. f_equal.
  rewrite drop_app_ge by (rewrite length_take; lia). rewrite drop_app_ge by (rewrite length_take; lia).
  rewrite drop_drop. f_equal. rewrite length_take. lia.
Qed.

Lemma Zlen_sub i o n : 0 <= o -> 0 <= n -> o + n <= Zlen i -> Zlen (sub i o n) = n.
Proof. intros. unfold sub. rewrite length_take, length_drop. lia. Qed.

Lemma Forall_sub P i o n : Forall P i -> Forall P (sub i o n).
Proof. intros. unfold sub. by apply Forall_take, Forall_drop. Qed.

Lemma Forall_patch P i o bs : Forall P i -> Forall P bs -> Forall P (patch i o bs).
Proof. intros. unfold patch. rewrite !Forall_app. split_and!; [by apply Forall_take|done|by apply Forall_drop]. Qed.

Lemma sub_same_len i off n bs : Zlen bs = n -> 0 <= off -> off + n <= Zlen i -> sub (patch i off bs) off n = bs.
Proof. intros <-. apply sub_patch_same. Qed.

Lemma read_u32_same i off v : 0 <= off -> off + 4 <= Zlen i -> u32 v -> read_u32 (patch i off (to_le 4 v)) off = v.
Proof.
  intros. unfold read_u32. rewrite sub_same_len by (rewrite ?Zlen_to_le; lia). by apply of_le_to_le_u.
Qed.

Lemma read_u64_same i off v : 0 <= off -> off + 8 <= Zlen i -> u64 v -> read_u64 (patch i off (to_le 8 v)) off = v.
Proof.
  intros. unfold read_u64. rewrite sub_same_len by (rewrite ?Zlen_to_le; lia). by apply of_le_to_le_u.
Qed.

Lemma read_u32_bound i off : Forall u8 i -> 0 <= off -> off + 4 <= Zlen i -> u32 (read_u32 i off).
Proof.
  intros H ? ?. unfold read_u32. pose proof (of_le_bound _ (Forall_sub u8 i off 4 H)) as Hb.
  rewrite Zlen_sub in Hb by lia. exact Hb.
Qed.

(** * Sized images *)

Definition sized (i : bytes) : Prop := Zlen i = PAGE_SIZE.

Ltac consts := unfold slot_base in *; unfold PAGE_SIZE, HEADER_LEN, SLOT_LEN in *.

Lemma sized_patch i off bs : sized i -> 0 <= off -> off + Zlen bs <= PAGE_SIZE -> sized (patch i off bs).
Proof. unfold sized. intros H ? ?. rewrite Zlen_patch; lia. Qed.

Lemma sized_u32 i off v : sized i -> 0 <= off -> off + 4 <= PAGE_SIZE -> sized (write_u32 i off v).
Proof. intros. apply sized_patch; rewrite ?Zlen_to_le; lia || done. Qed.

Lemma sub_away i off bs o n :
  sized i -> 0 <= off -> off + Zlen bs <= PAGE_SIZE -> 0 <= o -> 0 <= n ->
  o + n <= off \/ off + Zlen bs <= o -> sub (patch i off bs) o n = sub i o n.
Proof. unfold sized. intros H ? ? ? ? ?. apply sub_patch_other; lia. Qed.

Lemma sub_away_u32 i off v o n :
  sized i -> 0 <= off -> off + 4 <= PAGE_SIZE -> 0 <= o -> 0 <= n ->
  o + n <= off \/ off + 4 <= o -> sub (write_u32 i off v) o n = sub i o n.
Proof. intros. apply sub_away; rewrite ?Zlen_to_le; lia || done. Qed.

Lemma read_u32_there i off v : sized i -> 0 <= off -> off + 4 <= PAGE_SIZE -> u32 v -> read_u32 (write_u32 i off v) off = v.
Proof. unfold sized. intros. apply read_u32_same; [lia|lia|done]. Qed.

Lemma read_u32_away i off v o :
  sized i -> 0 <= off -> off + 4 <= PAGE_SIZE -> 0 <= o -> o + 4 <= off \/ off + 4 <= o ->
  read_u32 (write_u32 i off v) o = read_u32 i o.
Proof. intros. unfold read_u32. by rewrite sub_away_u32 by lia || done. Qed.

Lemma Forall_u32 i off v : Forall u8 i -> Forall u8 (write_u32 i off v).
Proof. intros. apply Forall_patch; [done|apply to_le_u8]. Qed.

(** ** The checksum field *)

Definition sum_ok (i : bytes) : Prop := crc32 (clear_crc i) = read_u32 i 24.

Lemma checksum_sized p : sized (img p) -> sized (img (update_checksum p)).
Proof. intros. cbn. consts. repeat apply sized_patch; rewrite ?Zlen_to_le; cbn; consts; lia || done. Qed.

Lemma checksum_u8 p : Forall u8 (img p) -> Forall u8 (img (update_checksum p)).
Proof.
  intros. cbn. apply Forall_patch; [apply Forall_patch; [done|]|apply to_le_u8].
  repeat constructor; done.
Qed.

Lemma checksum_sum p : sized (img p) -> sum_ok (img (update_checksum p)).
Proof.
  intros H. unfold sum_ok. cbn [img update_checksum].
  assert (sized (clear_crc (img p))) as Hz by (apply sized_patch; consts; cbn; lia || done).
  assert (Hcc : forall v, clear_crc (patch (clear_crc (img p)) 24 (to_le 4 v)) = clear_crc (img p)).
  { intros v. unfold sized in H, Hz. unfold clear_crc at 1.
    rewrite patch_patch_same by (rewrite ?Zlen_to_le, ?Hz; (reflexivity || lia || done)).
    unfold clear_crc. by rewrite patch_patch_same by (rewrite ?H; (reflexivity || lia || done)). }
  rewrite Hcc. symmetry. apply read_u32_same; [lia|unfold sized in Hz; consts; lia|apply crc32_u32].
Qed.

Lemma checksum_sub p o n :
  sized (img p) -> 0 <= o -> 0 <= n -> o + n <= 24 \/ 28 <= o -> sub (img (update_checksum p)) o n = sub (img p) o n.
Proof.
  intros H ? ? ?. cbn [img update_checksum].
  assert (sized (clear_crc (img p))) as Hz by (apply sized_patch; consts; cbn; lia || done).
  rewrite sub_away by (rewrite ?Zlen_to_le; consts; lia || done).
  unfold clear_crc. by rewrite sub_away by (consts; cbn; lia || done).
Qed.

Lemma checksum_u32 p o : sized (img p) -> 0 <= o -> o + 4 <= 24 \/ 28 <= o -> read_u32 (img (update_checksum p)) o = read_u32 (img p) o.
Proof. intros. unfold read_u32. by rewrite checksum_sub by lia || done. Qed.

(** * The page invariant *)

Definition entry (i : bytes) (s : Z) : Z * Z := (read_u32 i (slot_base s), read_u32 i (slot_base s + 4)).

(** Bytes held by the slots [s .. s + n]. *)
Fixpoint held (i : bytes) (n : nat) (s : Z) : Z :=
  match n with O => 0 | S n => (entry i s).2 + held i n (s + 1) end.

Record header_ok (id : Z) (i : bytes) : Prop := {
  h_sized : sized i;
  h_u8 : Forall u8 i;
  h_magic : sub i 0 4 = PAGE_MAGIC;
  h_version : read_u32 i 4 = PAGE_FORMAT_VERSION;
  h_id : read_u64 i 8 = id;
}.

Record page_ok (p : Page) : Prop := {
  p_header : header_ok (page_id p) (img p);
  p_sum : sum_ok (img p);
  p_dir : slot_base (slot_count p) <= data_start p <= PAGE_SIZE;
  p_slot : forall s o l, 0 <= s < slot_count p -> entry (img p) s = (o, l) ->
    (o = 0 /\ l = 0) \/ (data_start p <= o /\ o + l <= PAGE_SIZE);
  p_room : held (img p) (Z.to_nat (slot_count p)) 0 <= PAGE_SIZE - data_start p;
}.

(** Everything the checks on a page read from disk look for. *)
Lemma page_ok_verify p : page_ok p -> verify p = Ok ().
Proof.
  intros [[Hs Hu Hm Hv Hi] Hsum Hdir _ _]. unfold verify. rewrite bool_decide_eq_true_2 by done.
  rewrite Hv, Hi, !Z.eqb_refl. cbn [negb]. rewrite Hsum, Z.eqb_refl. cbn [negb]. consts. by zb.
Qed.

Lemma count_bound p : header_ok (page_id p) (img p) -> 0 <= slot_count p.
Proof.
  intros H. unfold slot_count. apply (read_u32_bound (img p) 16); [apply H|lia|].
  pose proof (h_sized _ _ H). unfold sized in *. consts. lia.
Qed.

Lemma slot_off_entry p s : page_ok p -> 0 <= s < slot_count p -> slot_off p s = Some (entry (img p) s).
Proof.
  intros H Hs. pose proof (p_dir p H). unfold slot_off. consts. by zb.
Qed.

Lemma entry_nonneg p s : page_ok p -> 0 <= s < slot_count p -> 0 <= (entry (img p) s).1 /\ 0 <= (entry (img p) s).2.
Proof.
  intros H Hs. pose proof (p_dir p H). destruct (p_header p H) as [Hz Hu _ _ _]. unfold sized in Hz.
  split; cbn; apply read_u32_bound; try done; consts; lia.
Qed.

(** A slot gives its record, or nothing when it is free. *)
Lemma page_get_entry p s :
  page_ok p -> 0 <= s < slot_count p ->
  page_get p s = if is_free (entry (img p) s) then None else Some (sub (img p) (entry (img p) s).1 (entry (img p) s).2).
Proof.
  intros H Hs. unfold page_get. rewrite slot_off_entry by done.
  destruct (entry (img p) s) as [o l] eqn:E. cbn [fst snd].
  destruct (is_free (o, l)) eqn:F; [done|].
  pose proof (p_dir p H). destruct (p_slot p H s o l Hs E) as [[-> ->]|[? ?]]; [done|].
  unfold is_free in F. consts. assert ((256 * 1024 <? o + l) || (o <? 32 + slot_count p * 8) = false) as ->; [|done].
  apply orb_false_iff. split; by zb.
Qed.

Lemma page_get_range p s : slot_count p <= s -> page_get p s = None.
Proof. intros. unfold page_get, slot_off. by zb. Qed.

Lemma held_ext i j n s : (forall k, s <= k < s + Z.of_nat n -> (entry j k).2 = (entry i k).2) -> held j n s = held i n s.
Proof.
  revert s. induction n as [|n IH]; intros s H; [done|]. cbn [held]. rewrite H by lia. f_equal.
  apply IH. intros k Hk. apply H. lia.
Qed.

Lemma held_update i j n s k e :
  s <= k < s + Z.of_nat n -> entry j k = e -> (forall x, x <> k -> s <= x < s + Z.of_nat n -> entry j x = entry i x) ->
  held j n s = held i n s - (entry i k).2 + e.2.
Proof.
  revert s. induction n as [|n IH]; intros s Hk He Hx; [lia|]. cbn [held].
  destruct (Z.eq_dec s k) as [->|Hne].
  - rewrite He. rewrite (held_ext i j) by (intros x ?; rewrite Hx; [done|lia|lia]). lia.
  - rewrite (Hx s) by lia. rewrite (IH (s + 1)); [lia|lia|done|]. intros x ? ?. apply Hx; lia.
Qed.

Lemma held_snoc i n s : held i (S n) s = held i n s + (entry i (s + Z.of_nat n)).2.
Proof.
  revert s. induction n as [|n IH]; intros s.
  - cbn [held]. replace (s + Z.of_nat 0) with s by lia. lia.
  - change (held i (S (S n)) s) with ((entry i s).2 + held i (S n) (s + 1)). rewrite IH. cbn [held].
    replace (s + 1 + Z.of_nat n) with (s + Z.of_nat (S n)) by lia. lia.
Qed.

(** A record placed just below the data region and named by slot [s], a free
    one or the next one. *)
Lemma page_placed p i' s data :
  let c := slot_count p in let start := data_start p - Zlen data in let p' := mkPage (page_id p) i' in
  page_ok p -> 0 <= s <= c -> (s < c -> is_free (entry (img p) s) = true) ->
  slot_base (Z.max c (s + 1)) <= start ->
  header_ok (page_id p) i' -> sum_ok i' -> slot_count p' = Z.max c (s + 1) -> data_start p' = start ->
  entry i' s = (start, Zlen data) -> (forall x, 0 <= x < c -> x <> s -> entry i' x = entry (img p) x) ->
  sub i' start (Zlen data) = data -> (forall o n, data_start p <= o -> 0 <= n -> sub i' o n = sub (img p) o n) ->
  page_ok p' /\ page_get p' s = Some data /\ forall x, 0 <= x -> x <> s -> page_get p' x = page_get p x.
Proof.
  intros c start p' H Hs Hfree Hroom Hh Hsum Hc Hd He Hx Hdata Hsub.
  pose proof (count_bound p (p_header p H)) as Hc0. pose proof (p_dir p H) as Hdir.
  assert (Hok : page_ok p').
  { split; cbn [page_id img p'] in *; fold p'; try done.
    - rewrite Hc, Hd. consts. unfold start in *. lia.
    - intros x o l Hxr Ex. rewrite Hd. destruct (Z.eq_dec x s) as [->|Hne].
      + rewrite He in Ex. injection Ex as <- <-. right. unfold start. lia.
      + rewrite Hx in Ex by (unfold c in *; lia). destruct (p_slot p H x o l) as [?|?]; [unfold c in *; lia|done|by left|].
        right. unfold start. lia.
    - rewrite Hc, Hd. pose proof (p_room p H) as Hr. fold c in Hr. destruct (Z.lt_ge_cases s c) as [Hlt|Hge].
      + rewrite (held_update (img p) i' _ 0 s (start, Zlen data)); [|lia|done|intros; apply Hx; lia].
        specialize (Hfree Hlt). unfold is_free in Hfree. apply andb_true_iff in Hfree as [_ ->%Z.eqb_eq].
        rewrite Z.max_l by lia. unfold start. cbn [snd]. lia.
      + replace (Z.to_nat (Z.max c (s + 1))) with (S (Z.to_nat c)) by lia. rewrite held_snoc.
        replace (0 + Z.of_nat (Z.to_nat c)) with s by lia. rewrite He.
        rewrite (held_ext (img p) i') by (intros; rewrite Hx; [done|lia|lia]). unfold start. cbn [snd]. lia. }
  split; [exact Hok|]. split.
  - rewrite page_get_entry by (done || (rewrite Hc; lia)). cbn [img p']. rewrite He. cbn [fst snd].
    unfold is_free. cbn [fst snd]. rewrite (proj2 (Z.eqb_neq start 0)) by (unfold start in *; consts; lia).
    cbn [andb]. by rewrite Hdata.
  - intros x Hx0 Hne. destruct (Z.lt_ge_cases x c) as [Hlt|Hge].
    + rewrite !page_get_entry by (done || (rewrite ?Hc; unfold c in *; lia)). cbn [img p'].
      rewrite Hx by lia. destruct (is_free (entry (img p) x)) eqn:F; [done|]. f_equal. apply Hsub.
      * destruct (entry (img p) x) as [o l] eqn:E. cbn.
        destruct (p_slot p H x o l) as [[-> ->]|?]; [unfold c in *; lia|done|done|lia].
      * apply (entry_nonneg p x H). unfold c in *. lia.
    + rewrite !page_get_range; [done|unfold c in *; lia|rewrite Hc; lia].
Qed.

(** Writing slot [s] and the checksum over an image changes those bytes only. *)
Lemma set_slot_image id X s a b :
  sized X -> Forall u8 X -> 0 <= s -> slot_base (s + 1) <= PAGE_SIZE -> u32 a -> u32 b ->
  let i := img (set_slot (mkPage id X) s a b) in
  sized i /\ Forall u8 i /\ sum_ok i /\ entry i s = (a, b) /\
  (forall x, 0 <= x -> slot_base (x + 1) <= PAGE_SIZE -> x <> s -> entry i x = entry X x) /\
  (forall o n, 0 <= o -> 0 <= n -> o + n <= 24 \/ slot_base (s + 1) <= o -> sub i o n = sub X o n).
Proof.
  intros Hz Hu Hs Hb Ha Hl i. unfold set_slot, write_slot in i. cbn [page_id img] in i. consts.
  assert (sized (write_u32 X (32 + s * 8) a)) as Hz1 by (apply sized_u32; consts; lia || done).
  assert (sized (write_u32 (write_u32 X (32 + s * 8) a) (32 + s * 8 + 4) b)) as Hz2 by (apply sized_u32; consts; lia || done).
  split_and!.
  - by apply checksum_sized.
  - by apply checksum_u8, Forall_u32, Forall_u32.
  - by apply checksum_sum.
  - unfold entry, i. consts. rewrite !checksum_u32 by (cbn [img]; lia || done). cbn [img].
    rewrite read_u32_away by (consts; lia || done). by rewrite !read_u32_there by (consts; lia || done).
  - intros x Hx Hxb Hne. unfold entry, i. consts. rewrite !checksum_u32 by (cbn [img]; lia || done). cbn [img].
    by rewrite !read_u32_away by (consts; lia || done).
  - intros o n Ho Hn Hd. unfold i. rewrite checksum_sub by (cbn [img]; lia || done). cbn [img].
    by rewrite !sub_away_u32 by (consts; lia || done).
Qed.

Lemma first_free_spec p n s :
  page_ok p -> 0 <= s -> s + Z.of_nat n <= slot_count p ->
  match first_free p n s with
  | Ok (Some k) => s <= k < s + Z.of_nat n /\ is_free (entry (img p) k) = true
  | Ok None => True
  | _ => False
  end.
Proof.
  intros H. revert s. induction n as [|n IH]; intros s Hs Hn; [done|]. cbn [first_free].
  rewrite slot_off_entry by (done || lia). destruct (is_free (entry (img p) s)) eqn:F; [cbn; split; [lia|done]|].
  specialize (IH (s + 1) ltac:(lia) ltac:(lia)). destruct (first_free p n (s + 1)) as [[k|]| |]; [|done|done|done].
  destruct IH. split; [lia|done].
Qed.

(** Placing a record in slot [s] over an image [X] that already has the record,
    the new data start and the new count. *)
Lemma place_ok p X s data :
  let c := slot_count p in let start := data_start p - Zlen data in
  page_ok p -> Forall u8 data -> 0 <= s <= c -> (s < c -> is_free (entry (img p) s) = true) ->
  slot_base (Z.max c (s + 1)) <= start ->
  sized X -> Forall u8 X -> read_u32 X 16 = Z.max c (s + 1) -> read_u32 X 20 = start ->
  sub X start (Zlen data) = data ->
  (forall o n, 0 <= o -> 0 <= n -> o + n <= 16 \/ 24 <= o /\ o + n <= start \/ data_start p <= o -> sub X o n = sub (img p) o n) ->
  let p' := set_slot (mkPage (page_id p) X) s start (Zlen data) in
  page_ok p' /\ page_get p' s = Some data /\ forall x, 0 <= x -> x <> s -> page_get p' x = page_get p x.
Proof.
  intros c start H Hu Hs Hfree Hroom HzX HuX HcX HdX Hdata Haway p'.
  pose proof (p_dir p H) as Hdir. destruct (p_header p H) as [Hz Hub Hm Hv Hi].
  assert (Hsb : slot_base (s + 1) <= start) by (consts; lia).
  destruct (set_slot_image (page_id p) X s start (Zlen data)) as (Iz & Iu & Is & Ie & Ix & Ia);
    [done|done|lia|unfold start in *; consts; lia| | |].
  1,2: widths; unfold start in *; consts; lia.
  assert (Hrd : forall o, 0 <= o -> o + 4 <= 24 -> read_u32 (img p') o = read_u32 X o).
  { intros o ? ?. unfold read_u32, p'. by rewrite Ia by lia. }
  change p' with (mkPage (page_id p) (img p')). apply page_placed; try done; fold c start.
  - split; [done|done|..]; unfold p'.
    + rewrite Ia, Haway by lia. done.
    + unfold read_u32. rewrite Ia, Haway by lia. exact Hv.
    + unfold read_u64. rewrite Ia, Haway by lia. exact Hi.
  - unfold slot_count. cbn [img]. rewrite Hrd by lia. done.
  - unfold data_start. cbn [img]. rewrite Hrd by lia. done.
  - intros x Hx Hne. unfold p'. rewrite Ix by (unfold c, start in *; consts; lia). unfold entry, read_u32. consts.
    rewrite !Haway by (unfold c, start in *; lia). done.
  - unfold p'. rewrite Ia by (unfold start in *; consts; lia). done.
  - intros o n Ho Hn. unfold p'. rewrite Ia by (unfold start in *; consts; lia). apply Haway; consts; lia.
Qed.

(** The image [put_record] leaves. *)
Lemma put_record_image p data :
  let start := data_start p - Zlen data in
  page_ok p -> Forall u8 data -> slot_base (slot_count p) <= start ->
  let X := img (put_record p data).1 in
  (put_record p data).2 = start /\ sized X /\ Forall u8 X /\ read_u32 X 20 = start /\ sub X start (Zlen data) = data /\
  (forall o n, 0 <= o -> 0 <= n -> o + n <= 20 \/ 24 <= o /\ o + n <= start \/ data_start p <= o -> sub X o n = sub (img p) o n).
Proof.
  intros start H Hu Hroom X. pose proof (p_dir p H) as Hdir. destruct (p_header p H) as [Hz Hub _ _ _].
  pose proof (count_bound p (p_header p H)) as Hc0. consts. fold start in X.
  assert (sized (patch (img p) start data)) as Hz1 by (apply sized_patch; unfold start in *; consts; lia || done).
  unfold X, put_record. cbn [fst snd img set_data_start]. fold start. split_and!.
  - done.
  - by apply sized_u32; consts; lia || done.
  - by apply Forall_u32, Forall_patch.
  - apply read_u32_there; try done; consts; [lia..|]. widths. unfold start in *. lia.
  - rewrite sub_away_u32 by (consts; lia || done). unfold sized in Hz. apply sub_patch_same; unfold start in *; consts; lia.
  - intros o n Ho Hn Hd. rewrite sub_away_u32 by (unfold start in *; consts; lia || done).
    apply sub_away; unfold start in *; consts; lia || done.
Qed.

Lemma page_insert_fits p data :
  page_ok p -> Forall u8 data -> Zlen data + SLOT_LEN <= free_space p ->
  exists p' s, page_insert p data = Ok (Some (p', s)) /\ page_id p' = page_id p /\ 0 <= s /\ page_ok p' /\
    page_get p s = None /\ page_get p' s = Some data /\ forall x, 0 <= x -> x <> s -> page_get p' x = page_get p x.
Proof.
  intros H Hu Hfit. unfold page_insert. rewrite (proj2 (Z.ltb_ge _ _)) by lia.
  pose proof (count_bound p (p_header p H)) as Hc0. pose proof (p_dir p H) as Hdir.
  assert (slot_base (slot_count p + 1) <= data_start p - Zlen data) as Hroom by (unfold free_space in Hfit; consts; lia).
  pose proof (first_free_spec p (Z.to_nat (slot_count p)) 0 H ltac:(lia) ltac:(lia)) as Hff.
  destruct (put_record_image p data H Hu ltac:(consts; lia)) as (E2 & Hz & HuX & Hd & Hdata & Haway).
  destruct (put_record p data) as [q start] eqn:Ep. cbn [fst snd] in *. subst start.
  assert (page_id q = page_id p) as Eid by (unfold put_record in Ep; by injection Ep as <-).
  destruct (first_free p (Z.to_nat (slot_count p)) 0) as [[k|]| |]; [| |done|done]; cbn [mbind res_bind mret res_ret].
  - destruct Hff as [Hk Hfree].
    destruct (place_ok p (img q) k data) as (Hok & Hg & Hx); try done; try lia.
    { consts. lia. }
    { rewrite Z.max_l by lia. unfold slot_count, read_u32. by rewrite Haway by lia. }
    { intros o n ? ? ?. apply Haway; lia. }
    rewrite <- Eid in *. destruct q as [qid qi]. cbn [page_id img] in *.
    eexists _, k. split_and!; [done|done|lia|done| |done|done].
    rewrite page_get_entry by (done || lia). by rewrite Hfree.
  - set (X := write_u32 (img q) 16 (slot_count p + 1)).
    assert (sized X) as HzX by (apply sized_u32; consts; lia || done).
    destruct (place_ok p X (slot_count p) data) as (Hok & Hg & Hx); try done; try lia.
    { consts. lia. }
    { by apply Forall_u32. }
    { unfold X. rewrite read_u32_there; [lia|done|lia|consts; lia|]. widths. consts. lia. }
    { unfold X. rewrite read_u32_away by (consts; lia || done). done. }
    { unfold X. rewrite sub_away_u32 by (consts; lia || done). done. }
    { intros o n ? ? ?. unfold X. rewrite sub_away_u32 by (consts; lia || done). apply Haway; lia. }
    rewrite <- Eid in *. eexists _, (slot_count p). split_and!; [done|done|lia|done| |done|done].
    by apply page_get_range.
Qed.

Lemma page_insert_full p data : free_space p < Zlen data + SLOT_LEN -> page_insert p data = Ok None.
Proof. intros. unfold page_insert. by rewrite (proj2 (Z.ltb_lt _ _)). Qed.

Lemma free_slot_ok p s :
  page_ok p -> 0 <= s ->
  let p' := (free_slot p s).1 in
  (free_slot p s).2 = bool_decide (is_Some (page_get p s)) /\
  page_id p' = page_id p /\ page_ok p' /\ page_get p' s = None /\ forall x, 0 <= x -> x <> s -> page_get p' x = page_get p x.
Proof.
  intros H Hs. unfold free_slot. pose proof (p_dir p H) as Hdir. pose proof (count_bound p (p_header p H)) as Hc0.
  destruct (Z.lt_ge_cases s (slot_count p)) as [Hlt|Hge].
  2:{ assert (slot_off p s = None) as -> by (unfold slot_off; by zb). cbn. rewrite page_get_range by done.
      by rewrite bool_decide_eq_false_2 by (by intros [? ?]). }
  rewrite slot_off_entry by (done || lia). pose proof (page_get_entry p s H ltac:(lia)) as Hg.
  destruct (is_free (entry (img p) s)) eqn:F.
  { cbn. rewrite Hg. by rewrite bool_decide_eq_false_2 by (by intros [? ?]). }
  cbn [fst snd]. rewrite Hg, bool_decide_eq_true_2 by done. split; [done|]. split; [done|].
  destruct (p_header p H) as [Hz Hu Hm Hv Hi].
  destruct (set_slot_image (page_id p) (img p) s 0 0) as (Iz & Iu & Is & Ie & Ix & Ia); [done|done|lia|consts; lia|done|done|].
  replace (mkPage (page_id p) (img p)) with p in * by (by destruct p). set (p' := set_slot p s 0 0) in *.
  assert (Hrd : forall o, 0 <= o -> o + 4 <= 24 -> read_u32 (img p') o = read_u32 (img p) o).
  { intros o ? ?. unfold read_u32. by rewrite Ia by lia. }
  assert (Hc : slot_count p' = slot_count p) by (apply Hrd; lia).
  assert (Hd : data_start p' = data_start p) by (apply Hrd; lia).
  assert (Hok : page_ok p').
  { split; [split; try done| done | by rewrite Hc, Hd | |].
    - by rewrite Ia by lia.
    - by rewrite Hrd by lia.
    - unfold read_u64. by rewrite Ia by lia.
    - intros x o l Hx Ex. rewrite Hd. destruct (Z.eq_dec x s) as [->|Hne].
      + rewrite Ie in Ex. injection Ex as <- <-. by left.
      + rewrite Ix in Ex by (consts; lia). by apply (p_slot p H x); [lia|].
    - rewrite Hc, Hd. rewrite (held_update (img p) (img p') _ 0 s (0, 0)); [|lia|done|intros; apply Ix; consts; lia].
      pose proof (p_room p H). pose proof (entry_nonneg p s H ltac:(lia)). cbn [snd]. lia. }
  split_and!; [done| |].
  - rewrite page_get_entry by (done || lia). by rewrite Ie.
  - intros x Hx Hne. destruct (Z.lt_ge_cases x (slot_count p)) as [Hxl|Hxg]; [|by rewrite !page_get_range by lia].
    rewrite !page_get_entry by (done || lia). rewrite Ix by (consts; lia).
    destruct (is_free (entry (img p) x)) eqn:Fx; [done|]. f_equal.
    pose proof (entry_nonneg p x H ltac:(lia)). destruct (entry (img p) x) as [o l] eqn:E.
    destruct (p_slot p H x o l) as [[-> ->]|?]; [lia|done|done|]. cbn [fst snd] in *. apply Ia; consts; lia.
Qed.

(** ** Compaction *)

Fixpoint total_len (live : list (Z * bytes)) : Z :=
  match live with [] => 0 | (_, d) :: live => Zlen d + total_len live end.

Lemma total_len_nonneg live : 0 <= total_len live.
Proof. induction live as [|[s d] live IH]; cbn; lia. Qed.

(** The records copied out are the live ones, once each. *)
Lemma live_records_ok p n s :
  page_ok p -> 0 <= s -> s + Z.of_nat n <= slot_count p ->
  exists live, live_records p n s = Ok live /\ total_len live = held (img p) n s /\ NoDup live.*1 /\
    (forall x d, (x, d) ∈ live <-> s <= x < s + Z.of_nat n /\ page_get p x = Some d).
Proof.
  intros H. revert s. induction n as [|n IH]; intros s Hs Hn.
  { exists []. split_and!; [done|done|constructor|]. intros x d. split; [by intros ?%elem_of_nil|lia]. }
  destruct (IH (s + 1) ltac:(lia) ltac:(lia)) as (live & Hl & Ht & Hnd & Hin). cbn [live_records held].
  rewrite slot_off_entry by (done || lia). pose proof (page_get_entry p s H ltac:(lia)) as Hg.
  pose proof (entry_nonneg p s H ltac:(lia)) as Hnn. destruct (entry (img p) s) as [o l] eqn:E. cbn [fst snd] in *.
  destruct (p_header p H) as [Hz _ _ _ _]. unfold sized in Hz.
  destruct (is_free (o, l)) eqn:F.
  - exists live. unfold is_free in F. apply andb_true_iff in F as [_ F%Z.eqb_eq]. cbn in F. split_and!; [done|lia|done|].
    intros x d. rewrite Hin. split; [intros [? ?]; split; [lia|done]|]. intros [? Hx]. split; [|done].
    destruct (Z.eq_dec x s) as [->|]; [congruence|lia].
  - destruct (p_slot p H s o l) as [[-> ->]|[Ho Hl']]; [lia|done|done|].
    pose proof (p_dir p H). pose proof (count_bound p (p_header p H)).
    rewrite (proj2 (Z.ltb_ge _ _)) by lia. rewrite Hl. cbn [mbind res_bind mret res_ret].
    exists ((s, sub (img p) o l) :: live). split_and!; [done| | |].
    + cbn [total_len]. rewrite Zlen_sub by (consts; lia). lia.
    + cbn. constructor; [|done]. intros [[x d] [-> Hx]]%list_elem_of_fmap. apply Hin in Hx. cbn in Hx. lia.
    + intros x d. rewrite elem_of_cons, Hin. split.
      * intros [[= -> ->]|[? ?]]; split; (lia || done).
      * intros [? Hx]. destruct (Z.eq_dec x s) as [->|]; [left; congruence|right; split; [lia|done]].
Qed.

Lemma repack_ok c live i start :
  sized i -> Forall u8 i -> NoDup live.*1 -> start <= PAGE_SIZE -> 0 <= c -> slot_base c <= start - total_len live ->
  (forall x d, (x, d) ∈ live -> 0 <= x < c /\ Forall u8 d) ->
  exists i', repack i start live = Ok (i', start - total_len live) /\ sized i' /\ Forall u8 i' /\
    (forall o n, 0 <= o -> 0 <= n -> o + n <= 32 \/ start <= o -> sub i' o n = sub i o n) /\
    (forall x, 0 <= x < c -> x ∉ live.*1 -> entry i' x = entry i x) /\
    (forall x d, (x, d) ∈ live -> exists o, entry i' x = (o, Zlen d) /\ start - total_len live <= o /\
       o + Zlen d <= start /\ sub i' o (Zlen d) = d).
Proof.
  revert i start. induction live as [|[s d] live IH]; intros i start Hz Hu Hnd Hst Hc Hroom Hl.
  { exists i. cbn. rewrite Z.sub_0_r. split_and!; try done. by intros x d ?%elem_of_nil. }
  cbn [total_len fmap list_fmap fst] in *. apply NoDup_cons in Hnd as [Hns Hnd].
  pose proof (total_len_nonneg live) as Htn. destruct (Hl s d ltac:(set_solver)) as [Hs Hud].
  cbn [repack]. rewrite (proj2 (Z.ltb_ge _ _)) by (consts; lia). unfold write_slot. set (st := start - Zlen d) in *.
  set (i1 := patch i st d). set (i2 := write_u32 i1 (slot_base s) st). set (i3 := write_u32 i2 (slot_base s + 4) (Zlen d)).
  assert (sized i1) as Hz1 by (apply sized_patch; unfold st in *; consts; lia || done).
  assert (sized i2) as Hz2 by (apply sized_u32; unfold st in *; consts; lia || done).
  assert (sized i3) as Hz3 by (apply sized_u32; unfold st in *; consts; lia || done).
  assert (Haw : forall o n, 0 <= o -> 0 <= n -> o + n <= 32 \/ slot_base c <= o -> sub i3 o n = sub i1 o n).
  { intros o n ? ? ?. unfold i3, i2. rewrite !sub_away_u32 by (consts; unfold st in *; lia || done). done. }
  assert (He3 : entry i3 s = (st, Zlen d)).
  { unfold entry, i3, i2. rewrite read_u32_away by (unfold st in *; consts; lia || done).
    rewrite !read_u32_there; try done; unfold st in *; consts; widths; lia. }
  destruct (IH i3 st) as (i' & Hr & Hz' & Hu' & Hsub & Hent & Hrec); try done.
  { by apply Forall_u32, Forall_u32, Forall_patch. }
  { unfold st. lia. }
  { unfold st. lia. }
  { intros x e Hx. apply Hl. set_solver. }
  exists i'. rewrite Hr. split_and!; try done.
  - do 2 f_equal. unfold st. lia.
  - intros o n Ho Hn Hd. rewrite Hsub by (unfold st in *; lia). rewrite Haw by (unfold st in *; consts; lia).
    unfold i1. apply sub_away; unfold st in *; consts; lia || done.
  - intros x Hx Hni. apply not_elem_of_cons in Hni as [Hne Hni]. rewrite Hent by done. unfold entry, i3, i2.
    rewrite !read_u32_away by (unfold st in *; consts; lia || done). unfold i1, read_u32.
    rewrite !sub_away by (unfold st in *; consts; lia || done). done.
  - intros x e [[= -> ->]|Hx]%elem_of_cons.
    + exists st. rewrite Hent by done. split_and!; [done|unfold st; lia|unfold st; lia|].
      rewrite Hsub by (unfold st in *; consts; lia). rewrite Haw by (unfold st in *; consts; lia).
      unfold i1, sized in *. apply sub_patch_same; unfold st in *; consts; lia.
    + destruct (Hrec x e Hx) as (o & Ho & ? & ? & ?). exists o. split_and!; try done; unfold st in *; lia.
Qed.

Lemma Zlen_zeros n : 0 <= n -> Zlen (zeros n) = n.
Proof. intros. unfold zeros. rewrite length_replicate. lia. Qed.

Lemma zeros_u8 n : Forall u8 (zeros n).
Proof. apply Forall_replicate. done. Qed.

(** The image compaction leaves, over the repacked image [i]. *)
Lemma compact_image id i c start :
  sized i -> Forall u8 i -> 0 <= c -> slot_base c <= start <= PAGE_SIZE ->
  let j := img (update_checksum (set_data_start (mkPage id (patch i (slot_base c) (zeros (start - slot_base c)))) start)) in
  sized j /\ Forall u8 j /\ sum_ok j /\ read_u32 j 20 = start /\
  (forall o n, 0 <= o -> 0 <= n -> o + n <= 20 \/ 32 <= o /\ o + n <= slot_base c \/ start <= o -> sub j o n = sub i o n).
Proof.
  intros Hz Hu Hc Hst. cbn zeta. unfold set_data_start. cbn [page_id img].
  assert (Zlen (zeros (start - slot_base c)) = start - slot_base c) as Hlz by (apply Zlen_zeros; lia).
  assert (sized (patch i (slot_base c) (zeros (start - slot_base c)))) as Hz1
    by (apply sized_patch; rewrite ?Hlz; consts; lia || done).
  set (i1 := patch i (slot_base c) (zeros (start - slot_base c))) in *.
  assert (sized (write_u32 i1 20 start)) as Hz2 by (apply sized_u32; consts; lia || done).
  split_and!.
  - by apply checksum_sized.
  - apply checksum_u8, Forall_u32, Forall_patch; [done|apply zeros_u8].
  - by apply checksum_sum.
  - rewrite checksum_u32 by (cbn [img]; lia || done). cbn [img]. apply read_u32_there; try done; consts; widths; lia.
  - intros o n Ho Hn Hd. rewrite checksum_sub by (cbn [img]; consts; lia || done). cbn [img].
    rewrite sub_away_u32 by (consts; lia || done). unfold i1. apply sub_away; rewrite ?Hlz; consts; lia || done.
Qed.

Lemma page_get_u8 p x d : page_ok p -> page_get p x = Some d -> Forall u8 d.
Proof.
  intros H. unfold page_get. destruct (slot_off p x) as [[o l]|]; [|done].
  destruct (is_free _); [done|]. destruct (_ || _); [done|]. intros [= <-]. apply Forall_sub, H.
Qed.

Lemma page_get_len p x d : page_ok p -> page_get p x = Some d -> (entry (img p) x).2 = Zlen d.
Proof.
  intros H Hg. assert (x < slot_count p) as Hlt.
  { destruct (Z.lt_ge_cases x (slot_count p)); [done|]. by rewrite page_get_range in Hg. }
  unfold page_get in Hg. destruct (slot_off p x) as [[o l]|] eqn:E; [|done].
  assert (entry (img p) x = (o, l)) as Ee.
  { unfold slot_off in E. repeat case_match; try done. by injection E as <- <-. }
  destruct (is_free (o, l)); [done|]. destruct (_ || _) eqn:F; [done|]. apply orb_false_iff in F as [F1%Z.ltb_ge F2%Z.ltb_ge].
  injection Hg as <-. pose proof (count_bound p (p_header p H)). destruct (p_header p H) as [Hz Hu _ _ _].
  assert (0 <= l) as Hl.
  { assert (l = read_u32 (img p) (slot_base x + 4)) as -> by (unfold entry in Ee; by injection Ee).
    unfold read_u32. apply of_le_bound, Forall_sub, Hu. }
  rewrite Ee. unfold sized in Hz. rewrite Zlen_sub by (consts; lia). done.
Qed.

Lemma compact_ok p :
  page_ok p ->
  exists p', compact p = Ok p' /\ page_id p' = page_id p /\ slot_count p' = slot_count p /\ page_ok p' /\
    data_start p' = PAGE_SIZE - held (img p) (Z.to_nat (slot_count p)) 0 /\
    forall x, 0 <= x -> page_get p' x = page_get p x.
Proof.
  intros H. pose proof (count_bound p (p_header p H)) as Hc. pose proof (p_dir p H) as Hdir. pose proof (p_room p H) as Hroom.
  destruct (p_header p H) as [Hz Hu Hm Hv Hi]. set (c := slot_count p) in *.
  destruct (live_records_ok p (Z.to_nat c) 0 H) as (live & Hl & Ht & Hnd & Hin); [lia|unfold c; lia|].
  rewrite Z2Nat.id in Hin by lia.
  destruct (repack_ok c live (img p) PAGE_SIZE) as (i & Hr & Iz & Iu & Isub & Ient & Irec); try done; try lia.
  { intros x d Hx. apply Hin in Hx as [? Hg]. split; [lia|]. by eapply page_get_u8. }
  set (start := PAGE_SIZE - total_len live) in *.
  destruct (compact_image (page_id p) i c start) as (Jz & Ju & Js & Jd & Jsub); [done|done|lia|unfold start; pose proof (total_len_nonneg live); lia|].
  unfold compact. fold c. rewrite Hl. cbn [mbind res_bind]. rewrite Hr. cbn [mbind res_bind].
  change (HEADER_LEN + c * SLOT_LEN) with (slot_base c).
  rewrite (proj2 (Z.ltb_ge _ _)) by (unfold start; lia). eexists. split; [done|].
  set (p' := update_checksum _) in *. change (img p') with (img p') in *.
  assert (Hc' : slot_count p' = c). { unfold slot_count, read_u32. rewrite Jsub, Isub by lia. done. }
  assert (Hd' : data_start p' = start) by exact Jd.
  assert (He : forall x, 0 <= x < c -> entry (img p') x = entry i x).
  { intros x Hx. unfold entry, read_u32. rewrite !Jsub by (consts; lia). done. }
  assert (Hrec : forall x d, (x, d) ∈ live -> exists o, entry (img p') x = (o, Zlen d) /\ start <= o /\ o + Zlen d <= PAGE_SIZE /\
             sub (img p') o (Zlen d) = d).
  { intros x d Hx. destruct (Irec x d Hx) as (o & Ho & ? & ? & Hs). exists o. apply Hin in Hx as [? _].
    rewrite He by lia. split_and!; try done. rewrite Jsub by (consts; lia). done. }
  assert (Hcase : forall x, 0 <= x < c -> (exists d, (x, d) ∈ live /\ page_get p x = Some d) \/
             (page_get p x = None /\ entry (img p') x = (0, 0))).
  { intros x Hx. destruct (page_get p x) as [d|] eqn:Hg; [left; exists d; split; [apply Hin; split; [lia|done]|done]|right].
    split; [done|]. rewrite page_get_entry in Hg by (done || (unfold c in *; lia)).
    destruct (is_free (entry (img p) x)) eqn:F; [|done]. rewrite He by lia. rewrite Ient; [|lia|].
    - unfold is_free in F. apply andb_true_iff in F as [F1%Z.eqb_eq F2%Z.eqb_eq].
      destruct (entry (img p) x). cbn in *. by subst.
    - intros [[y d] [Ey Hy]]%list_elem_of_fmap. cbn in Ey. subst y. apply Hin in Hy as [_ Hy].
      rewrite page_get_entry, F in Hy by (done || (unfold c in *; lia)). done. }
  assert (Hheld : held (img p') (Z.to_nat c) 0 = held (img p) (Z.to_nat c) 0).
  { apply held_ext. intros x Hx. destruct (Hcase x ltac:(lia)) as [(d & Hd & Hg)|[Hg ->]].
    - destruct (Hrec x d Hd) as (o & -> & _). symmetry. by apply page_get_len.
    - rewrite page_get_entry in Hg by (done || (unfold c in *; lia)).
      destruct (is_free (entry (img p) x)) eqn:F; [|done]. unfold is_free in F.
      by apply andb_true_iff in F as [_ ->%Z.eqb_eq]. }
  assert (Hok : page_ok p').
  { split; [split; try done|done| |..]; rewrite ?Hc', ?Hd'.
    - by rewrite Jsub, Isub by lia.
    - unfold read_u32. by rewrite Jsub, Isub by lia.
    - unfold read_u64. by rewrite Jsub, Isub by lia.
    - unfold start. pose proof (total_len_nonneg live). lia.
    - intros x o l Hx Ex. destruct (Hcase x Hx) as [(d & Hd & Hg)|[_ E]].
      + destruct (Hrec x d Hd) as (o' & E & ? & ? & _). rewrite E in Ex. injection Ex as <- <-. by right.
      + rewrite E in Ex. injection Ex as <- <-. by left.
    - rewrite Hheld. unfold start. lia. }
  split_and!; [done|done|done|unfold start in Hd'; rewrite Hd'; lia|].
  intros x Hx. destruct (Z.lt_ge_cases x c) as [Hlt|Hge]; [|by rewrite !page_get_range by (unfold c in *; lia)].
  rewrite (page_get_entry p') by (done || lia). destruct (Hcase x ltac:(lia)) as [(d & Hd & ->)|[-> ->]]; [|done].
  destruct (Hrec x d Hd) as (o & -> & Ho & ? & Hs). cbn [fst snd]. rewrite Hs. unfold is_free. cbn [fst snd].
  rewrite (proj2 (Z.eqb_neq o 0)); [done|]. unfold start in Ho. consts. lia.
Qed.

(** ** Fresh pages and pages read back *)

Lemma page_create_ok id :
  u64 id -> page_ok (page_create id) /\ page_id (page_create id) = id /\ forall s, page_get (page_create id) s = None \/ s < 0.
Proof.
  intros Hid. assert (sized (zeros PAGE_SIZE)) as H0 by (apply Zlen_zeros; unfold PAGE_SIZE; lia).
  pose proof (zeros_u8 PAGE_SIZE) as Hu0.
  assert (Zlen PAGE_MAGIC = 4) as Hm by reflexivity.
  unfold page_create. cbv zeta. set (z := zeros PAGE_SIZE) in *. clearbody z.
  set (i1 := patch z 0 PAGE_MAGIC). assert (sized i1) as H1 by (apply sized_patch; rewrite ?Hm; consts; lia || done).
  set (i2 := write_u32 i1 4 PAGE_FORMAT_VERSION). assert (sized i2) as H2 by (apply sized_u32; consts; lia || done).
  set (i3 := write_u64 i2 8 id). assert (sized i3) as H3 by (apply sized_patch; rewrite ?Zlen_to_le; consts; lia || done).
  set (i4 := write_u32 i3 16 0). assert (sized i4) as H4 by (apply sized_u32; consts; lia || done).
  set (i5 := write_u32 i4 20 PAGE_SIZE). assert (sized i5) as H5 by (apply sized_u32; consts; lia || done).
  assert (Ha : forall o n, 0 <= o -> 0 <= n -> o + n <= 8 -> sub i5 o n = sub i2 o n).
  { intros o n ? ? ?. unfold i5, i4. rewrite !sub_away_u32 by (consts; lia || done).
    unfold i3. by apply sub_away; rewrite ?Zlen_to_le; consts; lia || done. }
  set (p := update_checksum (mkPage id i5)).
  assert (Hh : header_ok id (img p)).
  { split.
    - by apply checksum_sized.
    - apply checksum_u8, Forall_u32, Forall_u32, Forall_patch; [|apply to_le_u8].
      apply Forall_u32, Forall_patch; [done|]. by repeat constructor.
    - unfold p. rewrite checksum_sub, Ha by (cbn [img]; lia || done). unfold i2. rewrite sub_away_u32 by (consts; lia || done).
      unfold sized in H0. by apply sub_same_len; [done|lia|rewrite H0; consts; lia].
    - unfold p, read_u32. rewrite checksum_sub, Ha by (cbn [img]; lia || done). by apply read_u32_there.
    - unfold p, read_u64. rewrite checksum_sub by (cbn [img]; lia || done). cbn [img]. unfold i5, i4.
      rewrite !sub_away_u32 by (consts; lia || done). unfold sized in H2. apply read_u64_same; [lia|rewrite H2; consts; lia|done]. }
  assert (Hc : slot_count p = 0).
  { unfold slot_count, p. rewrite checksum_u32 by (cbn [img]; lia || done). cbn [img]. unfold i5.
    rewrite read_u32_away by (consts; lia || done). by apply read_u32_there. }
  assert (Hd : data_start p = PAGE_SIZE).
  { unfold data_start, p. rewrite checksum_u32 by (cbn [img]; lia || done). by apply read_u32_there. }
  split_and!; [|done|].
  - split.
    + done.
    + by apply checksum_sum.
    + rewrite Hc, Hd. unfold slot_base, HEADER_LEN, SLOT_LEN, PAGE_SIZE. lia.
    + intros s o l Hs. rewrite Hc in Hs. lia.
    + rewrite Hc, Hd, Z.sub_diag. change (Z.to_nat 0) with 0%nat. cbn [held]. lia.
  - intros s. destruct (Z.lt_ge_cases s 0); [by right|left]. apply page_get_range. lia.
Qed.

Lemma from_image_ok p : page_ok p -> from_image (page_id p) (img p) = Ok p.
Proof.
  intros H. unfold from_image. destruct (p_header p H) as [Hz _ _ _ _]. unfold sized in Hz.
  rewrite Hz, Z.eqb_refl. cbn [negb]. destruct p as [id i]. cbn [page_id img]. by rewrite page_ok_verify.
Qed.

(** * Histories of one page *)

Inductive PageOp : Type := PInsert (data : bytes) | PFree (slot : Z) | PCompact.

(** The operations on a page beside the records it should hold; an insertion
    that picked an occupied slot would be a failure. *)
Definition page_apply (p : Page) (m : gmap Z bytes) (o : PageOp) : res (Page * gmap Z bytes) :=
  match o with
  | PInsert d =>
    r ← page_insert p d;
    match r with
    | Some (p, s) => match m !! s with Some _ => Panic | None => mret (p, <[s := d]> m) end
    | None => mret (p, m)
    end
  | PFree s => mret ((free_slot p s).1, delete s m)
  | PCompact => p ← compact p; mret (p, m)
  end.

Fixpoint page_run (p : Page) (m : gmap Z bytes) (os : list PageOp) : res (Page * gmap Z bytes) :=
  match os with
  | [] => mret (p, m)
  | o :: os => '(p, m) ← page_apply p m o; page_run p m os
  end.

Definition page_op_wf (o : PageOp) : Prop :=
  match o with PInsert d => Forall u8 d | PFree s => 0 <= s | PCompact => True end.

Definition page_models (id : Z) (p : Page) (m : gmap Z bytes) : Prop :=
  page_ok p /\ page_id p = id /\ forall s, 0 <= s -> page_get p s = m !! s.

Lemma page_apply_ok id p m o :
  page_models id p m -> page_op_wf o -> exists p' m', page_apply p m o = Ok (p', m') /\ page_models id p' m'.
Proof.
  intros (H & Hid & Hm) Ho. destruct o as [d|s|]; cbn in *.
  - destruct (Z.le_gt_cases (Zlen d + SLOT_LEN) (free_space p)) as [Hf|Hf].
    + destruct (page_insert_fits p d H Ho Hf) as (p' & s & -> & Hid' & Hs & Hok & Hn & Hg & Hx). cbn.
      rewrite <- Hm, Hn by done. eexists _, _. split; [done|]. split_and!; [done|congruence|].
      intros x Hx0. destruct (decide (s = x)) as [<-|Hne]; [by rewrite lookup_insert_eq|].
      rewrite lookup_insert_ne by done. rewrite Hx by congruence || done. by apply Hm.
    + rewrite page_insert_full by lia. cbn. by exists p, m.
  - destruct (free_slot_ok p s H Ho) as (_ & Hid' & Hok & Hg & Hx). eexists _, _. split; [done|].
    split_and!; [done|congruence|]. intros x Hx0. destruct (decide (s = x)) as [<-|Hne]; [by rewrite lookup_delete_eq|].
    rewrite lookup_delete_ne by done. rewrite Hx by congruence || done. by apply Hm.
  - destruct (compact_ok p H) as (p' & -> & Hid' & _ & Hok & _ & Hx). cbn. exists p', m. split; [done|].
    split_and!; [done|congruence|]. intros x Hx0. rewrite Hx by done. by apply Hm.
Qed.

Lemma page_run_ok id p m os :
  page_models id p m -> Forall page_op_wf os -> exists p' m', page_run p m os = Ok (p', m') /\ page_models id p' m'.
Proof.
  intros H Ho. revert p m H. induction Ho as [|o os Ho _ IH]; intros p m H; [by exists p, m|]. cbn [page_run].
  destruct (page_apply_ok id p m o H Ho) as (p' & m' & -> & H'). cbn. by apply IH.
Qed.

(** C21: Whatever records are inserted, freed and compacted on a page, nothing
    panics, an insertion only ever takes a free slot, every slot reads back
    exactly the record it should hold, and the image passes every check made
    when a page is read from disk. *)
Theorem page_holds_records id os :
  u64 id -> Forall page_op_wf os ->
  exists p m, page_run (page_create id) ∅ os = Ok (p, m) /\ (forall s, 0 <= s -> page_get p s = m !! s) /\
    from_image id (img p) = Ok p.
Proof.
  intros Hid Ho. destruct (page_create_ok id Hid) as (Hok & Hi & Hn).
  destruct (page_run_ok id (page_create id) ∅ os) as (p & m & Hr & Hp & Hpi & Hm); [|done|].
  - split_and!; [done|done|]. intros s Hs. rewrite lookup_empty. destruct (Hn s); [done|lia].
  - exists p, m. split_and!; [done|done|]. rewrite <- Hpi. by apply from_image_ok.
Qed.

Lemma page_holds_records_witness :
  exists p m, page_run (page_create 7) ∅ [PInsert [1; 2]; PInsert []; PFree 0; PCompact; PInsert [3]] = Ok (p, m) /\
    (forall s, 0 <= s -> page_get p s = m !! s) /\ from_image 7 (img p) = Ok p.
Proof.
  apply page_holds_records; [split; reflexivity || discriminate|].
  repeat constructor; try discriminate; split; (discriminate || reflexivity).
Defined.

(** Compaction never loses a record and reclaims every byte the freed
    records occupied: the data region ends up exactly as long as the live
    records. *)
Theorem compact_reclaims p :
  page_ok p ->
  exists p' live, compact p = Ok p' /\ live_records p (Z.to_nat (slot_count p)) 0 = Ok live /\ page_ok p' /\
    PAGE_SIZE - data_start p' = total_len live /\ forall x, 0 <= x -> page_get p' x = page_get p x.
Proof.
  intros H. destruct (compact_ok p H) as (p' & Hc & _ & _ & Hok & Hd & Hg).
  pose proof (count_bound p (p_header p H)).
  destruct (live_records_ok p (Z.to_nat (slot_count p)) 0 H) as (live & Hl & Ht & _); [lia|lia|].
  exists p', live. split_and!; try done. lia.
Qed.

Lemma compact_reclaims_witness :
  exists p' live, compact (page_create 3) = Ok p' /\
    live_records (page_create 3) (Z.to_nat (slot_count (page_create 3))) 0 = Ok live /\ page_ok p' /\
    PAGE_SIZE - data_start p' = total_len live /\ forall x, 0 <= x -> page_get p' x = page_get (page_create 3) x.
Proof. apply compact_reclaims, page_create_ok. split; reflexivity || discriminate. Defined.
