(* ===== verification/Kv.v ===== *)
(** What the table layer asks of the two stores below it: an ordered map of
    byte strings, which the B+ tree of btree.rs implements, and a store of wide
    values behind locators, which the buffer pool of page.rs implements.

    A call on the tree may fail to return (see [insert_livelock]), so the laws
    say that a writing call either never returns or does what the map does. *)
From stdpp Require Import base list gmap sorting strings.
From Stdlib Require Import ZArith Lia.
From S2P Require Import Prelude Machine BTree BTreeRep BTreeOps BTreeWrite BTreeScan BTreeRemove BTreeSpec Page.

(** * Ordered maps *)

Class KvTree (T : Type) : Type := {
  tnew : T;
  tget : T -> bytes -> out (option bytes);
  tinsert : T -> bytes -> bytes -> out (T * bool);
  tupsert : T -> bytes -> bytes -> out (T * option bytes);
  tupdate : T -> bytes -> bytes -> out (T * option bytes);
  tremove : T -> bytes -> out (T * option bytes);
  trange : T -> option bytes -> bool -> option bytes -> bool -> out (list (bytes * bytes));
}.

(** The call never returns, where that [may_hang], or it returns [r] and the
    tree then satisfies [Q]. *)
Definition returns {T A} (may_hang : Prop) (c : out (T * A)) (r : A) (Q : T -> Prop) : Prop :=
  (c = Fuel /\ may_hang) \/ exists t, c = Ret (t, r) /\ Q t.

Class KvTreeOk (T : Type) `{KvTree T} : Type := {
  may_hang : Prop;
  stored : T -> gmap bytes bytes -> Prop;
  stored_new : stored tnew ∅;
  tget_ok t m k : stored t m -> Forall u8 k -> tget t k = Ret (m !! k);
  tinsert_ok t m k v : stored t m -> Forall u8 k ->
    returns may_hang (tinsert t k v) (bool_decide (m !! k = None))
      (fun t => stored t (match m !! k with Some _ => m | None => <[k := v]> m end));
  tupsert_ok t m k v : stored t m -> Forall u8 k ->
    returns may_hang (tupsert t k v) (m !! k) (fun t => stored t (<[k := v]> m));
  tupdate_ok t m k v : stored t m -> Forall u8 k ->
    returns may_hang (tupdate t k v) (m !! k) (fun t => stored t (match m !! k with Some _ => <[k := v]> m | None => m end));
  tremove_ok t m k : stored t m -> Forall u8 k ->
    returns may_hang (tremove t k) (m !! k) (fun t => stored t (delete k m));
  trange_ok t m lo li hi hi_incl : stored t m -> match lo with Some k => Forall u8 k | None => True end ->
    exists l, trange t lo li hi hi_incl = Ret (List.filter (fun e => in_range lo li hi hi_incl e.1) l) /\
      StronglySorted klt l.*1 /\ to_map l = m;
}.

(** The B+ tree, with the two descents an insertion that returns needs at most
    (wrapping a full root, then the insertion itself). *)
#[export] Instance btree_kv : KvTree BTree := {
  tnew := btree_new;
  tget := get;
  tinsert := insert 2;
  tupsert := upsert 2;
  tupdate := update_in_place;
  tremove := remove;
  trange := range;
}.

Lemma call_returns t m o :
  stores false t m -> Forall u8 (op_key o) ->
  call 2 t o = Fuel \/ exists t', call 2 t o = Ret (t', (map_call m o).2) /\ stores false t' (map_call m o).1.
Proof.
  intros (n & g & Hok & <-) Hk. destruct (call_ok false 2 t n g o Hok Hk) as [[_ ?]|(t' & m' & a & -> & -> & Hst)];
    [lia|by left|right]. by exists t'.
Qed.

Ltac by_call t o Hst Hk :=
  let H := fresh in pose proof (call_returns t _ o Hst Hk) as H;
  cbn [call map_call fst snd] in H; unfold returns; cbn [tinsert tupsert tupdate tremove btree_kv];
  match type of H with context [?c ≫= _] => destruct c as [[? ?]| |] end; unfold mbind, out_bind, mret, out_ret in H;
  destruct H as [?|(? & ? & ?)]; simplify_eq; first [left; by split | right; eauto].

#[export] Instance btree_kv_ok : KvTreeOk BTree.
Proof.
  refine {| may_hang := True; stored := stores false |}.
  - exact (stores_loosen _ _ _ stores_new).
  - intros t m k (n & g & [Hr Hrt Hw _ _] & <-) Hk. cbn [tget btree_kv]. unfold get. rewrite Hrt.
    rewrite (get_loop_ok false n _ t g None None k); [by rewrite kv_lookup_map|by eapply depth_fuel_enough|done|done|by apply root_bounds].
  - intros t m k v Hst Hk. by_call t (OInsert k v) Hst Hk.
  - intros t m k v Hst Hk. by_call t (OUpsert k v) Hst Hk.
  - intros t m k v Hst Hk. by_call t (OUpdate k v) Hst Hk.
  - intros t m k Hst Hk. by_call t (ORemove k) Hst Hk.
  - intros t m lo li hi hi_incl (n & g & Hok & <-) Hlo. exists (kvs g). split_and!; [|by eapply kvs_sorted; destruct Hok|done].
    by apply (range_done false t n g).
Defined.

(** The reference implementation: a finite map, whose calls always return. *)

Definition key_le (a b : bytes * bytes) : Prop := ble a.1 b.1 = true.
#[export] Instance key_le_dec a b : Decision (key_le a b) := decide (ble a.1 b.1 = true).
#[export] Instance key_le_total : Total key_le.
Proof.
  intros a b. unfold key_le. destruct (ble_spec a.1 b.1) as [|Hn]; [by left|right].
  destruct (kle_total a.1 b.1); [done|]. destruct (ble_spec b.1 a.1) as [|Hm]; [done|]. destruct Hm. by left.
Qed.
#[export] Instance key_le_trans : Transitive key_le.
Proof.
  intros a b c. unfold key_le. destruct (ble_spec a.1 b.1) as [H1|], (ble_spec b.1 c.1) as [H2|]; try done. intros _ _.
  destruct (ble_spec a.1 c.1) as [|Hn]; [done|]. destruct Hn. destruct H1 as [H1|E1], H2 as [H2|E2]; [left; by etrans|..].
  - left. by rewrite <- E2.
  - left. by rewrite E1.
  - right. congruence.
Qed.

Definition map_entries (m : gmap bytes bytes) : list (bytes * bytes) := merge_sort key_le (map_to_list m).

Lemma map_entries_ok m : StronglySorted klt (map_entries m).*1 /\ to_map (map_entries m) = m.
Proof.
  unfold map_entries. pose proof (StronglySorted_merge_sort key_le (map_to_list m)) as Hs.
  pose proof (merge_sort_Permutation key_le (map_to_list m)) as Hp. set (l := merge_sort key_le (map_to_list m)) in *.
  assert (NoDup l.*1) as Hnd by (rewrite Hp; apply NoDup_fst_map_to_list). split.
  - clearbody l. clear Hp. induction Hs as [|[k v] l Hs IH Hall]; cbn in *; [constructor|].
    apply NoDup_cons in Hnd as [Hk Hnd]. constructor; [by apply IH|]. apply Forall_fmap.
    rewrite Forall_forall in Hall |- *. intros [k' v'] Hin. specialize (Hall _ Hin). unfold key_le in Hall. cbn in *.
    destruct (ble_spec k k') as [Hle|]; [|done]. destruct Hle as [?| ->]; [done|].
    destruct Hk. apply list_elem_of_fmap. by exists (k', v').
  - unfold to_map. rewrite (list_to_map_proper l (map_to_list m)) by done. apply list_to_map_to_list.
Qed.

#[export] Instance gmap_kv : KvTree (gmap bytes bytes) := {
  tnew := ∅;
  tget m k := Ret (m !! k);
  tinsert m k v := Ret (match m !! k with Some _ => m | None => <[k := v]> m end, bool_decide (m !! k = None));
  tupsert m k v := Ret (<[k := v]> m, m !! k);
  tupdate m k v := Ret (match m !! k with Some _ => <[k := v]> m | None => m end, m !! k);
  tremove m k := Ret (delete k m, m !! k);
  trange m lo li hi hi_incl := Ret (List.filter (fun e => in_range lo li hi hi_incl e.1) (map_entries m));
}.

#[export] Instance gmap_kv_ok : KvTreeOk (gmap bytes bytes).
Proof.
  refine {| may_hang := False; stored := eq |}; try (by intros; subst; right; eauto); try by intros; subst.
  intros t m lo li hi hi_incl -> _. exists (map_entries m). split; [done|apply map_entries_ok].
Defined.

(** * Wide values *)

Class Pool (P : Type) : Type := {
  pool_store : P -> bytes -> P * res Locator;
  pool_load : P -> Locator -> P * res bytes;
  pool_free : P -> Locator -> P;
}.

Definition loc_wf (l : Locator) : Prop := u64 (loc_page l) /\ u32 (loc_slot l).

(** A freed value stays readable by the operation that freed it: its slot is
    quarantined until the epoch horizon has passed. *)
Class PoolOk (P : Type) `{Pool P} : Type := {
  holds : P -> gmap Locator bytes -> Prop;
  pool_store_ok p m d : holds p m -> 0 < Zlen d <= MAX_VALUE_LEN -> Forall u8 d ->
    match pool_store p d with
    | (p', Ok l) => m !! l = None /\ loc_wf l /\ holds p' (<[l := d]> m)
    | (p', Err _) => holds p' m
    | (_, Panic) => False
    end;
  pool_load_ok p m l d : holds p m -> m !! l = Some d -> exists p', pool_load p l = (p', Ok d) /\ holds p' m;
  pool_free_ok p m l d : holds p m -> m !! l = Some d ->
    holds (pool_free p l) (delete l m) /\
    exists p', pool_load (pool_free p l) l = (p', Ok d) /\ holds p' (delete l m);
}.

(** A reference store: values under increasing locators, freed ones kept aside. *)
Record RefPool := mkRefPool { rp_live : gmap Locator bytes; rp_dead : gmap Locator bytes; rp_next : Z }.

Definition ref_pool : RefPool := mkRefPool ∅ ∅ 1.

#[export] Instance ref_pool_ops : Pool RefPool := {
  pool_store p d :=
    if u64_MAX <? rp_next p then (p, Err (Io (str "page file exhausted")))
    else (mkRefPool (<[mkLocator (rp_next p) 0 := d]> (rp_live p)) (rp_dead p) (rp_next p + 1), Ok (mkLocator (rp_next p) 0));
  pool_load p l :=
    (p, match rp_live p !! l, rp_dead p !! l with
        | Some d, _ | None, Some d => Ok d
        | None, None => Err (Corrupted (str "overflow: bad slot"))
        end);
  pool_free p l :=
    match rp_live p !! l with
    | Some d => mkRefPool (delete l (rp_live p)) (<[l := d]> (rp_dead p)) (rp_next p)
    | None => p
    end;
}.

#[export] Instance ref_pool_ok : PoolOk RefPool.
Proof.
  refine {| holds p m := rp_live p = m /\ 0 <= rp_next p /\ forall l, is_Some (m !! l) -> loc_page l < rp_next p |}.
  - intros p m d (<- & Hn & Hl) _ _. cbn. destruct (Z.ltb_spec u64_MAX (rp_next p)); [done|]. split_and!.
    + apply eq_None_not_Some. intros Hx%Hl. cbn in Hx. lia.
    + split; cbn; [|done]. unfold u64_MAX in *. split; [done|lia].
    + done.
    + cbn. lia.
    + cbn. intros l [? [[<- _]|[_ Hx]]%lookup_insert_Some]; cbn; [lia|]. assert (loc_page l < rp_next p); [by apply Hl|lia].
  - intros p m l d (<- & Hn & Hl) Hd. cbn. rewrite Hd. by exists p.
  - intros p m l d (<- & Hn & Hl) Hd. cbn. rewrite Hd. cbn. rewrite lookup_delete_eq, lookup_insert_eq.
    assert (Hx : forall l0, is_Some (delete l (rp_live p) !! l0) -> loc_page l0 < rp_next p).
    { intros l0 [? [_ ?]%lookup_delete_Some]. by apply Hl. }
    split; [done|]. eexists. done.
Defined.
