(* ===== verification/Table.v ===== *)
(** The table layer (table.rs): rows on top of an ordered map, wide rows behind
    locators, secondary indexes, AUTO_INCREMENT, row validation, and the redo
    entry points of recovery.

    An operation is a state transformer that may not return (a tree call that
    restarts for ever), return an error with the changes made so far, or
    panic.  The tree and the pool are used through their interfaces. *)
From stdpp Require Import base list gmap strings sorting.
From Stdlib Require Import ZArith Lia.
From S2P Require Import Prelude Machine Types DateTime TableDef BTree BTreeRep BTreeScan BTreeSpec Page Kv.

(** * Operations with a state, errors and non-termination *)

Definition SM (S A : Type) : Type := S -> out (S * res A).

#[global] Instance sm_ret S : MRet (SM S) := fun A a s => Ret (s, Ok a).
#[global] Instance sm_bind S : MBind (SM S) := fun A B k m s =>
  match m s with
  | Ret (s, Ok a) => k a s
  | Ret (s, Err e) => Ret (s, Err e)
  | Ret (s, Panic) => Ret (s, Panic)
  | Panics => Panics
  | Fuel => Fuel
  end.

Definition lift {S A} (r : res A) : SM S A := fun s => Ret (s, r).
Definition fail {S A} (e : Error) : SM S A := lift (Err e).
Definition gets {S A} (f : S -> A) : SM S A := fun s => Ret (s, Ok (f s)).
Definition modify {S} (f : S -> S) : SM S () := fun s => Ret (f s, Ok ()).

(** [self.columns.iter().position(|c| c.name == name)] *)
Fixpoint position {A} (f : A -> bool) (l : list A) (i : Z) : option Z :=
  match l with [] => None | x :: l => if f x then Some i else position f l (i + 1) end.

Definition index_of (s : Schema) (name : bytes) : option Z :=
  position (fun c => bool_decide (col_name c = name)) (columns s) 0.

Definition MAX_INLINE_ROW : Z := 1024.

(** * Row codec *)

Definition encode_row (row : list Datum) : bytes := mjoin (encode <$> row).

Definition decode_row (s : Schema) (buf : bytes) : res (list Datum) :=
  '(out, off) ← dec_list (length (columns s)) decode buf 0;
  if negb (off =? Zlen buf) then Err (Corrupted (str "row trailing bytes")) else mret out.

(** * Validation *)

Definition fill_defaults (s : Schema) (row : list Datum) : list Datum :=
  row ++ ((fun c => default Null (col_default_value c)) <$> drop (length row) (columns s)).

(** Coercion of one value to its column type; [*sec * 1_000_000] wraps. *)
Definition coerce (t : ColumnType) (d : Datum) : Datum :=
  match t, d with
  | (CDateTime | CTimestamp), Text s =>
    match parse_datetime_str s with Some micros => DateTime micros | None => d end
  | (CDateTime | CTimestamp), Int sec => DateTime (wrap_i 64 (sec * 1000000))
  | CBool, Int v => Bool (negb (v =? 0))
  | (CInt | CBigInt), Bool b => Int (if b then 1 else 0)
  | _, _ => d
  end.

Definition validate_value (c : ColumnDef) (d : Datum) : res Datum :=
  let check d :=
    let d := coerce (col_ctype c) d in
    if accepts (col_ctype c) d then Ok d
    else Err (TypeMismatch (ColumnType_name (col_ctype c)) (type_name d)) in
  match d with
  | Null =>
    match col_default_value c with
    | Some def_val => check def_val
    | None => if negb (col_nullable c) then Err (NotNullViolation (col_name c)) else Ok Null
    end
  | _ => check d
  end.

Fixpoint validate_values (cs : list ColumnDef) (row : list Datum) : res (list Datum) :=
  match cs, row with
  | c :: cs, d :: row => d ← validate_value c d; row ← validate_values cs row; mret (d :: row)
  | _, _ => mret []
  end.

Definition validate_row (s : Schema) (row : list Datum) : res (list Datum) :=
  let row := fill_defaults s row in
  if negb (Zlen row =? Zlen (columns s)) then Err (ColumnCountMismatch (Zlen (columns s)) (Zlen row))
  else validate_values (columns s) row.

(** * Tables *)

Record AutoIncState := mkAutoInc { ai_col_idx : Z; ai_next : Z }.

Definition auto_inc_for (d : TableDef) : option AutoIncState :=
  (fun i => mkAutoInc i 1) <$> position col_auto_increment (columns (td_schema d)) 0.

Section table.
Context {T P : Type} `{KvTree T, Pool P} (to_string : Datum -> bytes).

Record SecondaryIndex := mkSec { si_def : IndexDef; si_col_idx : Z; si_tree : T }.

Record Table := mkTable {
  t_def : TableDef;
  t_tree : T;
  t_indexes : list SecondaryIndex;
  t_pool : option P;
  t_auto_inc : option AutoIncState;
  t_stats : option TableStats;
  t_ephemeral : bool;
}.

Abbreviation TM := (SM Table).
Abbreviation schema t := (td_schema (t_def t)).

Definition set_tree (x : T) (t : Table) : Table :=
  mkTable (t_def t) x (t_indexes t) (t_pool t) (t_auto_inc t) (t_stats t) (t_ephemeral t).
Definition set_indexes (x : list SecondaryIndex) (t : Table) : Table :=
  mkTable (t_def t) (t_tree t) x (t_pool t) (t_auto_inc t) (t_stats t) (t_ephemeral t).
Definition set_pool (x : option P) (t : Table) : Table :=
  mkTable (t_def t) (t_tree t) (t_indexes t) x (t_auto_inc t) (t_stats t) (t_ephemeral t).
Definition set_auto_inc (x : option AutoIncState) (t : Table) : Table :=
  mkTable (t_def t) (t_tree t) (t_indexes t) (t_pool t) x (t_stats t) (t_ephemeral t).
Definition set_stats (x : option TableStats) (t : Table) : Table :=
  mkTable (t_def t) (t_tree t) (t_indexes t) (t_pool t) (t_auto_inc t) x (t_ephemeral t).

Definition table_new (d : TableDef) : Table :=
  mkTable d tnew
    (omap (fun i => (fun c => mkSec i c tnew) <$> index_of (td_schema d) (idx_column i)) (td_indexes d))
    None (auto_inc_for d) (td_stats d) false.

Definition new_ephemeral (name : bytes) (s : Schema) : Table :=
  mkTable (mkTableDef name s [] [] None) tnew [] None None None true.

(** A call on the primary tree. *)
Definition on_tree {A} (f : T -> out (T * A)) : TM A := fun t =>
  match f (t_tree t) with
  | Ret (x, a) => Ret (set_tree x t, Ok a)
  | Panics => Panics
  | Fuel => Fuel
  end.

Definition tree_get (k : bytes) : TM (option bytes) := on_tree (fun x => v ← tget x k; mret (x, v)).
Definition tree_range (lo : option bytes) (li : bool) (hi : option bytes) (hi_incl : bool) : TM (list (bytes * bytes)) :=
  on_tree (fun x => l ← trange x lo li hi hi_incl; mret (x, l)).

(** A call on every secondary index in turn; an error stops the loop. *)
Fixpoint each_index (f : SecondaryIndex -> out (T * res ())) (l : list SecondaryIndex) :
    out (list SecondaryIndex * res ()) :=
  match l with
  | [] => mret ([], Ok ())
  | x :: l =>
    '(tr, r) ← f x;
    let x := mkSec (si_def x) (si_col_idx x) tr in
    match r with
    | Ok _ => '(l, r) ← each_index f l; mret (x :: l, r)
    | e => mret (x :: l, e)
    end
  end.

Definition on_indexes (f : SecondaryIndex -> out (T * res ())) : TM () := fun t =>
  '(l, r) ← each_index f (t_indexes t); mret (set_indexes l t, r).

(** [row[i]] *)
Definition row_at (row : list Datum) (i : Z) : res Datum :=
  match row !! Z.to_nat i with Some d => Ok d | None => Panic end.

(** ** Wide rows *)

Definition resolve_value (raw : bytes) : TM bytes := fun t =>
  if negb (is_locator raw) then Ret (t, Ok raw)
  else match t_pool t with
       | None => Ret (t, Err (Corrupted (str "overflow value without pool")))
       | Some p =>
         match loc_decode raw with
         | Ok l => let '(p, r) := pool_load p l in Ret (set_pool (Some p) t, r)
         | Err e => Ret (t, Err e)
         | Panic => Ret (t, Panic)
         end
       end.

Definition decode_stored (raw : bytes) : TM (list Datum) :=
  s ← gets (fun t => schema t);
  if negb (is_locator raw) then lift (decode_row s raw)
  else full ← resolve_value raw; lift (decode_row s full).

Definition alloc_value (full : bytes) : TM bytes := fun t =>
  if Zlen full <=? MAX_INLINE_ROW then Ret (t, Ok full)
  else match t_pool t with
       | None => Ret (t, Ok full)
       | Some p => let '(p, r) := pool_store p full in Ret (set_pool (Some p) t, loc_encode <$> r)
       end.

Definition free_value (raw : bytes) : TM () := fun t =>
  if negb (is_locator raw) then Ret (t, Ok ())
  else match t_pool t, loc_decode raw with
       | Some p, Ok l => Ret (set_pool (Some (pool_free p l)) t, Ok ())
       | _, _ => Ret (t, Ok ())
       end.

(** [if let Some(ref buf) = prev { self.free_value(buf) }], then
    [prev.map(|b| self.decode_stored(&b)).transpose()?] *)
Definition free_opt (prev : option bytes) : TM () :=
  match prev with Some b => free_value b | None => mret () end.
Definition decode_opt (prev : option bytes) : TM (option (list Datum)) :=
  match prev with Some b => r ← decode_stored b; mret (Some r) | None => mret None end.

(** ** AUTO_INCREMENT *)

Fixpoint max_int_key (kvs : list (bytes * bytes)) (m : option Z) : option Z :=
  match kvs with
  | [] => m
  | (k, _) :: kvs =>
    max_int_key kvs
      match decode_key k with
      | Ok (Int v) => if 0 <=? v then Some (match m with None => v | Some m => Z.max m v end) else m
      | _ => m
      end
  end.

Definition refresh_auto_inc : TM () :=
  a ← gets t_auto_inc;
  match a with
  | None => mret ()
  | Some st =>
    kvs ← tree_range None true None true;
    modify (set_auto_inc (Some (mkAutoInc (ai_col_idx st)
      match max_int_key kvs None with None => 1 | Some m => Z.min (m + 1) u64_MAX end)))
  end.

Definition assign_auto_inc (row : list Datum) : TM (list Datum) :=
  a ← gets t_auto_inc;
  match a with
  | None => mret row
  | Some (mkAutoInc col_idx next) =>
    if Zlen row <=? col_idx then fail (Corrupted (str "auto-inc column out of range"))
    else
      d ← lift (row_at row col_idx);
      match d with
      | Null =>
        if i64_MAX <? next then fail (NotSupported (str "auto-increment exhausted"))
        else
          _ ← modify (set_auto_inc (Some (mkAutoInc col_idx (next + 1))));
          mret (<[Z.to_nat col_idx := Int next]> row)
      | Int v =>
        if (0 <=? v) && (next <=? v) then
          _ ← modify (set_auto_inc (Some (mkAutoInc col_idx (Z.min (v + 1) u64_MAX))));
          mret row
        else mret row
      | _ => mret row
      end
  end.

(** ** Rows *)

Definition key_of (row : list Datum) : TM bytes :=
  s ← gets (fun t => schema t); d ← lift (row_at row (pk_idx s)); lift (encode_key d).

Definition duplicate {A} (key : bytes) : TM A :=
  pk ← lift (decode_key key); fail (DuplicateKey (to_string pk)).

(** Add the entry of a row to one index, drop it, or move it when the indexed
    value changed. *)
Definition index_add (pk : Datum) (row : list Datum) (x : SecondaryIndex) : out (T * res ()) :=
  match v ← row_at row (si_col_idx x); encode_sec_index_key v pk with
  | Ok k => '(tr, _) ← tinsert (si_tree x) k []; mret (tr, Ok ())
  | Err e => mret (si_tree x, Err e)
  | Panic => mret (si_tree x, Panic)
  end.

Definition index_drop (pk : Datum) (row : list Datum) (x : SecondaryIndex) : out (T * res ()) :=
  match v ← row_at row (si_col_idx x); encode_sec_index_key v pk with
  | Ok k => '(tr, _) ← tremove (si_tree x) k; mret (tr, Ok ())
  | Err e => mret (si_tree x, Err e)
  | Panic => mret (si_tree x, Panic)
  end.

Definition index_move (pk : Datum) (old new : list Datum) (x : SecondaryIndex) : out (T * res ()) :=
  match row_at old (si_col_idx x), row_at new (si_col_idx x) with
  | Ok old_val, Ok new_val =>
    if datum_eqb old_val new_val then mret (si_tree x, Ok ())
    else match encode_sec_index_key old_val pk with
         | Ok old_k =>
           '(tr, _) ← tremove (si_tree x) old_k;
           match encode_sec_index_key new_val pk with
           | Ok new_k => '(tr, _) ← tinsert tr new_k []; mret (tr, Ok ())
           | Err e => mret (tr, Err e)
           | Panic => mret (tr, Panic)
           end
         | Err e => mret (si_tree x, Err e)
         | Panic => mret (si_tree x, Panic)
         end
  | _, _ => mret (si_tree x, Panic)
  end.

(** The index loops run only when there is an index. *)
Definition with_indexes (row : list Datum) (f : Datum -> SecondaryIndex -> out (T * res ())) : TM () :=
  t ← gets id;
  match t_indexes t with
  | [] => mret ()
  | _ => pk ← lift (row_at row (pk_idx (schema t))); on_indexes (f pk)
  end.

Definition insert_row (row : list Datum) : TM () :=
  key ← key_of row;
  g ← tree_get key;
  match g with
  | Some _ => duplicate key
  | None =>
    storable ← alloc_value (encode_row row);
    fresh ← on_tree (fun x => tinsert x key storable);
    if negb (fresh : bool) then _ ← free_value storable; duplicate key
    else with_indexes row (fun pk => index_add pk row)
  end.

(** [update_in_place], else [upsert]. *)
Definition put_value (key storable : bytes) : TM (option bytes) :=
  prev ← on_tree (fun x => tupdate x key storable);
  match prev with
  | Some _ => mret prev
  | None => on_tree (fun x => tupsert x key storable)
  end.

Definition upsert_row (row : list Datum) : TM (option (list Datum)) :=
  key ← key_of row;
  storable ← alloc_value (encode_row row);
  prev ← put_value key storable;
  _ ← free_opt prev;
  prev ← decode_opt prev;
  _ ← with_indexes row (fun pk => match prev with
                                  | Some old => index_move pk old row
                                  | None => index_add pk row
                                  end);
  mret prev.

Definition update_row (row : list Datum) : TM (option (list Datum)) :=
  key ← key_of row;
  storable ← alloc_value (encode_row row);
  prev ← on_tree (fun x => tupdate x key storable);
  _ ← free_opt prev;
  prev ← decode_opt prev;
  _ ← match prev with
      | Some old => with_indexes row (fun pk => index_move pk old row)
      | None => mret ()
      end;
  mret prev.

Definition delete_row (key : Datum) : TM (option (list Datum)) :=
  key_bytes ← lift (encode_key key);
  prev ← on_tree (fun x => tremove x key_bytes);
  match prev with
  | Some buf =>
    _ ← free_value buf;
    row ← decode_stored buf;
    _ ← on_indexes (index_drop key row);
    mret (Some row)
  | None => mret None
  end.

Definition get_row (key : Datum) : TM (option (list Datum)) :=
  k ← lift (encode_key key); g ← tree_get k; decode_opt g.

Definition get_raw (key : Datum) : TM (option bytes) := k ← lift (encode_key key); tree_get k.

Fixpoint decode_pairs (kvs : list (bytes * bytes)) : TM (list (Datum * list Datum)) :=
  match kvs with
  | [] => mret []
  | (k, v) :: kvs => d ← lift (decode_key k); r ← decode_stored v; rest ← decode_pairs kvs; mret ((d, r) :: rest)
  end.

Definition scan : TM (list (Datum * list Datum)) := kvs ← tree_range None true None true; decode_pairs kvs.

Definition opt_key (f : Datum -> res bytes) (b : option (Datum * bool)) : res (option bytes) :=
  match b with None => mret None | Some (d, _) => k ← f d; mret (Some k) end.

Definition incl (b : option (Datum * bool)) : bool := match b with Some (_, i) => i | None => true end.

Definition scan_range (lo hi : option (Datum * bool)) : TM (list (Datum * list Datum)) :=
  lo_key ← lift (opt_key encode_key lo);
  hi_key ← lift (opt_key encode_key hi);
  kvs ← tree_range lo_key (incl lo) hi_key (incl hi);
  decode_pairs kvs.

(** ** Secondary indexes *)

Fixpoint build_index (s : Schema) (col_idx : Z) (rows : list (Datum * list Datum)) (tr : T) : out (T * res ()) :=
  match rows with
  | [] => mret (tr, Ok ())
  | (_, row) :: rows =>
    match v ← row_at row col_idx; pk ← row_at row (pk_idx s); encode_sec_index_key v pk with
    | Ok k => '(tr, _) ← tinsert tr k []; build_index s col_idx rows tr
    | Err e => mret (tr, Err e)
    | Panic => mret (tr, Panic)
    end
  end.

(** A tree built beside the table. *)
Definition fresh_index (c : out (T * res ())) : TM T := fun t =>
  match c with
  | Ret (tr, Ok _) => Ret (t, Ok tr)
  | Ret (_, Err e) => Ret (t, Err e)
  | Ret (_, Panic) => Ret (t, Panic)
  | Panics => Panics
  | Fuel => Fuel
  end.

Definition add_index (name column : bytes) : TM () :=
  t ← gets id;
  match index_of (schema t) column with
  | None => fail (ColumnNotFound column)
  | Some col_idx =>
    if col_idx =? pk_idx (schema t) then fail (InvalidSchema (str "cannot create secondary index on primary key"))
    else if existsb (fun x => bool_decide (idx_name (si_def x) = name)) (t_indexes t) then fail (IndexExists name)
    else
      rows ← scan;
      tr ← fresh_index (build_index (schema t) col_idx rows tnew);
      modify (fun t => set_indexes (t_indexes t ++ [mkSec (mkIndexDef name column) col_idx tr]) t)
  end.

Definition drop_index (name : bytes) : TM () :=
  t ← gets id;
  match position (fun x => bool_decide (idx_name (si_def x) = name)) (t_indexes t) 0 with
  | None => fail (IndexNotFound name)
  | Some pos => modify (fun t => set_indexes (vremove (Z.to_nat pos) (t_indexes t)) t)
  end.

Definition secondary_indexes (t : Table) : list IndexDef := si_def <$> t_indexes t.

Definition table_def (t : Table) : TableDef :=
  mkTableDef (td_name (t_def t)) (schema t) (secondary_indexes t) (td_foreign_keys (t_def t)) (t_stats t).

(** The loop of [scan_secondary]: skip below [lo], stop above [hi]. *)
Definition below_lo (lo : option (Datum * bool)) (sec : Datum) : bool :=
  match lo with
  | None => false
  | Some (v, true) => match cmp sec v with Lt => true | _ => false end
  | Some (v, false) => match cmp sec v with Gt => false | _ => true end
  end.

Definition above_hi (hi : option (Datum * bool)) (sec : Datum) : bool :=
  match hi with
  | None => false
  | Some (v, true) => match cmp sec v with Gt => true | _ => false end
  | Some (v, false) => match cmp sec v with Lt => false | _ => true end
  end.

Fixpoint sec_loop (lo hi : option (Datum * bool)) (scanned : list (bytes * bytes)) : res (list Datum) :=
  match scanned with
  | [] => mret []
  | (k, _) :: scanned =>
    '(sec, pk) ← decode_sec_index_key k;
    if below_lo lo sec then sec_loop lo hi scanned
    else if above_hi hi sec then mret []
    else pks ← sec_loop lo hi scanned; mret (pk :: pks)
  end.

Definition scan_secondary (col_idx : Z) (lo hi : option (Datum * bool)) : TM (option (list Datum)) := fun t =>
  match List.find (fun x => si_col_idx x =? col_idx) (t_indexes t) with
  | None => Ret (t, Ok None)
  | Some x =>
    match opt_key encode_sec_key_prefix lo with
    | Ok lo_key => scanned ← trange (si_tree x) lo_key true None true; Ret (t, Some <$> sec_loop lo hi scanned)
    | Err e => Ret (t, Err e)
    | Panic => Ret (t, Panic)
    end
  end.

(** ** Recovery and redo *)

(** The index loops of recovery upsert, and those of redo ignore a value they
    cannot encode. *)
Definition index_put (pk : Datum) (row : list Datum) (x : SecondaryIndex) : out (T * res ()) :=
  match v ← row_at row (si_col_idx x); encode_sec_index_key v pk with
  | Ok k => '(tr, _) ← tupsert (si_tree x) k []; mret (tr, Ok ())
  | Err e => mret (si_tree x, Err e)
  | Panic => mret (si_tree x, Panic)
  end.

Definition ignore_err (c : out (T * res ())) (tr : T) : out (T * res ()) :=
  '(t, r) ← c; mret (match r with Err _ => (tr, Ok ()) | _ => (t, r) end).

Definition index_move_redo (pk : Datum) (old new : list Datum) (x : SecondaryIndex) : out (T * res ()) :=
  match row_at old (si_col_idx x), row_at new (si_col_idx x) with
  | Ok old_val, Ok new_val =>
    if datum_eqb old_val new_val then mret (si_tree x, Ok ())
    else
      tr ← match encode_sec_index_key old_val pk with
           | Ok old_k => '(tr, _) ← tremove (si_tree x) old_k; mret tr
           | _ => mret (si_tree x)
           end;
      tr ← match encode_sec_index_key new_val pk with
           | Ok new_k => '(tr, _) ← tupsert tr new_k []; mret tr
           | _ => mret tr
           end;
      mret (tr, Ok ())
  | _, _ => mret (si_tree x, Panic)
  end.

Definition restore_raw (raw : bytes) : TM () :=
  s ← gets (fun t => schema t);
  row ← lift (decode_row s raw);
  key ← key_of row;
  _ ← on_tree (fun x => tupsert x key raw);
  with_indexes row (fun pk => index_put pk row).

Definition restore_kv (key val : bytes) : TM () :=
  row ← decode_stored val;
  expect ← key_of row;
  if negb (bool_decide (expect = key)) then fail (Corrupted (str "snapshot key/row mismatch"))
  else
    _ ← on_tree (fun x => tupsert x key val);
    l ← gets t_indexes;
    match l with
    | [] => mret ()
    | _ => pk ← lift (decode_key key); on_indexes (index_put pk row)
    end.

(** [self.decode_stored(&buf)] where an error is only tested for. *)
Definition try_decode (buf : bytes) : TM (option (list Datum)) := fun t =>
  match decode_stored buf t with
  | Ret (t, Ok r) => Ret (t, Ok (Some r))
  | Ret (t, Err _) => Ret (t, Ok None)
  | Ret (t, Panic) => Ret (t, Panic)
  | Panics => Panics
  | Fuel => Fuel
  end.

(** What the redo of one write does to the indexes. *)
Definition apply_indexes (key full : bytes) (prev : option bytes) : TM () :=
  t ← gets id;
  match t_indexes t with
  | [] => mret ()
  | _ =>
    match decode_key key, decode_row (schema t) full with
    | Ok pk, Ok new_row =>
      old ← match prev with Some b => try_decode b | None => mret None end;
      on_indexes (fun x => match old with
                           | Some old_row => index_move_redo pk old_row new_row x
                           | None => ignore_err (index_put pk new_row x) (si_tree x)
                           end)
    | Panic, _ | _, Panic => lift Panic
    | _, _ => mret ()
    end
  end.

Definition apply_raw (key full : bytes) : TM () :=
  storable ← alloc_value full;
  prev ← put_value key storable;
  _ ← free_opt prev;
  apply_indexes key full prev.

Definition remove_raw (key : bytes) : TM () :=
  prev ← on_tree (fun x => tremove x key);
  match prev with
  | None => mret ()
  | Some buf =>
    _ ← free_value buf;
    t ← gets id;
    match t_indexes t with
    | [] => mret ()
    | _ =>
      match decode_key key with
      | Panic => lift Panic
      | pk =>
        r ← try_decode buf;
        match pk, r with
        | Ok pk, Some row => on_indexes (fun x => ignore_err (index_drop pk row x) (si_tree x))
        | _, _ => mret ()
        end
      end
    end
  end.

Definition append_ephemeral (id : Z) (row : list Datum) : TM () :=
  key ← lift (encode_key (Int (wrap_i 64 id)));
  _ ← on_tree (fun x => tinsert x key (encode_row row));
  mret ().

End table.
