(* ===== verification/TableSpec.v ===== *)
(** What the table layer promises: rows are a finite map from encoded primary
    keys, every secondary index holds exactly one entry per row, wide rows
    come back through their locators, for every sequence of operations. *)
From stdpp Require Import base list gmap strings sorting.
From Stdlib Require Import ZArith Lia.
From S2P Require Import Prelude Machine Types DateTime TableDef BTree BTreeRep BTreeScan BTreeSpec Page Kv Table.

(** * Keys and rows as bytes *)

Lemma encode_key_u8 d k : datum_wf d -> encode_key d = Ok k -> Forall u8 k.
Proof.
  intros Hd. destruct d as [|v|v|v|v|v]; cbn; intros E; simplify_eq; rewrite ?Forall_cons;
    (split; [split; reflexivity || discriminate|]).
  all: try apply to_be_u8.
  - apply utf8_u8. by destruct Hd.
  - split; [|constructor]. destruct v; split; reflexivity || discriminate.
Qed.

Lemma sec_escape_u8 v : Forall u8 v -> Forall u8 (sec_escape v).
Proof.
  intros Hv. unfold sec_escape. rewrite Forall_app. split; [|repeat constructor; discriminate].
  apply Forall_join, Forall_fmap. eapply Forall_impl; [exact Hv|]. cbn. intros b Hb.
  destruct (b =? 0); repeat constructor; try apply Hb; discriminate.
Qed.

Lemma sec_prefix_u8 d k : datum_wf d -> encode_sec_key_prefix d = Ok k -> Forall u8 k.
Proof.
  intros Hd. destruct d as [|v|v|v|v|v]; cbn; intros E; simplify_eq; rewrite ?Forall_cons;
    try (split; [split; reflexivity || discriminate|]).
  all: try apply to_be_u8.
  - constructor.
  - apply sec_escape_u8, utf8_u8. by destruct Hd.
  - split; [|constructor]. destruct v; split; reflexivity || discriminate.
Qed.

Lemma sec_index_key_u8 a pk k : datum_wf a -> datum_wf pk -> encode_sec_index_key a pk = Ok k -> Forall u8 k.
Proof.
  intros Ha Hp. unfold encode_sec_index_key. intros E. apply res_bind_Ok in E as (x & Ex & E).
  apply res_bind_Ok in E as (y & Ey & [= <-]). apply Forall_app. split; [by apply (sec_prefix_u8 a)|by apply (encode_key_u8 pk)].
Qed.

Lemma encode_u8 d : datum_wf d -> Forall u8 (encode d).
Proof.
  intros Hd. destruct d as [|v|v|v|v|v]; cbn; rewrite ?Forall_cons; (split; [split; reflexivity || discriminate|]).
  all: try apply to_le_u8.
  - constructor.
  - apply Forall_app. split; [apply to_le_u8|]. apply utf8_u8. by destruct Hd.
  - split; [|constructor]. destruct v; split; reflexivity || discriminate.
Qed.

Lemma encode_row_u8 row : Forall datum_wf row -> Forall u8 (encode_row row).
Proof.
  intros H. unfold encode_row. apply Forall_join, Forall_fmap. eapply Forall_impl; [exact H|]. cbn. apply encode_u8.
Qed.

Lemma encode_ne d : encode d <> [].
Proof. by destruct d. Qed.

(** Values of one column that the index loop takes for equal have one entry. *)
Lemma datum_eqb_eq a b : sec_wf a -> sec_wf b -> datum_eqb a b = true -> encode_sec_key_prefix a = encode_sec_key_prefix b.
Proof.
  intros Ha Hb. pose proof Ha as [Wa Fa]. pose proof Hb as [Wb Fb].
  destruct a as [|v|v|v|v|v], b as [|w|w|w|w|w]; cbn; try done; intros E; bsimp; subst; try done.
  unfold f64_eqb in E. destruct (f64_partial_cmp v w) as [[]|] eqn:Ec; try done.
  do 2 f_equal. rewrite (float_ordered_cmp v w) in Ec by done. injection Ec as Ec%Z.compare_eq. by rewrite Ec.
Qed.

(** * Rows of a schema *)

Record row_wf (s : Schema) (row : list Datum) : Prop := {
  rw_len : length row = length (columns s);
  rw_vals : Forall sec_wf row;
  rw_pk : exists d, row !! Z.to_nat (pk_idx s) = Some d /\ key_wf d;
  rw_size : Zlen (encode_row row) <= MAX_VALUE_LEN;
}.

Definition row_key (s : Schema) (row : list Datum) : option bytes :=
  match row !! Z.to_nat (pk_idx s) with
  | Some d => match encode_key d with Ok k => Some k | _ => None end
  | None => None
  end.

(** The entry of a row in the index on column [col]. *)
Definition row_entry (s : Schema) (col : Z) (row : list Datum) : option bytes :=
  match row !! Z.to_nat col, row !! Z.to_nat (pk_idx s) with
  | Some v, Some pk => match encode_sec_index_key v pk with Ok k => Some k | _ => None end
  | _, _ => None
  end.

Lemma encode_key_Ok d : key_wf d -> exists k, encode_key d = Ok k.
Proof. intros [_ Hd]. destruct d; cbn; eauto. done. Qed.

Lemma encode_sec_prefix_Ok d : exists k, encode_sec_key_prefix d = Ok k.
Proof. destruct d; cbn; eauto. Qed.

Lemma encode_sec_Ok v pk : key_wf pk -> exists k, encode_sec_index_key v pk = Ok k.
Proof.
  intros H. unfold encode_sec_index_key. destruct (encode_sec_prefix_Ok v) as [a ->].
  destruct (encode_key_Ok pk H) as [b ->]. cbn. eauto.
Qed.

Lemma row_wf_datum s row : row_wf s row -> Forall datum_wf row.
Proof. intros H. eapply Forall_impl; [apply H|]. by intros d [? _]. Qed.

Lemma row_wf_key s row : row_wf s row -> exists k, row_key s row = Some k /\ Forall u8 k /\
  exists d, row_at row (pk_idx s) = Ok d /\ key_wf d /\ encode_key d = Ok k /\ decode_key k = Ok d.
Proof.
  intros H. destruct (rw_pk s row H) as (d & Hd & Hk). destruct (encode_key_Ok d Hk) as [k Ek]. exists k.
  unfold row_key, row_at. rewrite Hd, Ek. split_and!; [done|by eapply encode_key_u8; [apply Hk|]|].
  exists d. split_and!; try done. by apply decode_encode_key.
Qed.

Lemma row_ne s row : row_wf s row -> row <> [].
Proof. intros H ->. destruct (rw_pk s [] H) as (d & Hd & _). done. Qed.

Lemma encode_row_len s row : row_wf s row -> 0 < Zlen (encode_row row).
Proof.
  intros H. destruct row as [|d row]; [by apply row_ne in H|]. unfold encode_row. cbn.
  rewrite length_app. destruct (encode d) eqn:E; [by apply encode_ne in E|]. cbn. lia.
Qed.

(** The stored bytes of a row are never taken for a locator. *)
Lemma row_not_locator s row : row_wf s row -> is_locator (encode_row row) = false.
Proof.
  intros H. destruct row as [|d row]; [by apply row_ne in H|]. unfold is_locator, encode_row. cbn [fmap list_fmap mjoin list_join].
  apply andb_false_iff. left. apply andb_false_iff. right. destruct d; reflexivity.
Qed.

Lemma decode_encode_row s row : row_wf s row -> decode_row s (encode_row row) = Ok row.
Proof.
  intros H. unfold decode_row. rewrite <- (rw_len s row H).
  assert (decodes (dec_list (length row) decode) (encode_row row) (id <$> row)) as Hd.
  { apply decodes_list. intros d Hd. apply datum_decodes. pose proof (row_wf_datum s row H) as Hw.
    rewrite Forall_forall in Hw. by apply Hw. }
  specialize (Hd [] []). rewrite app_nil_r in Hd. cbn [app length] in Hd. rewrite list_fmap_id in Hd.
  change (Z.of_nat 0) with 0 in Hd. rewrite Hd. cbn [mbind res_bind]. rewrite Z.add_0_l, Z.eqb_refl. done.
Qed.

Lemma locator_decode l : loc_wf l -> is_locator (loc_encode l) = true /\ loc_decode (loc_encode l) = Ok l.
Proof.
  intros [Hp Hs]. assert (is_locator (loc_encode l) = true) as Hl.
  { unfold is_locator, loc_encode. rewrite !length_app, !length_to_le. done. }
  split; [done|]. unfold loc_decode. rewrite Hl. unfold loc_encode, sub.
  change (Z.to_nat 2) with 2%nat. change (Z.to_nat 10) with 10%nat. change (Z.to_nat 8) with 8%nat. change (Z.to_nat 4) with 4%nat.
  change (drop 2 ([LOCATOR_TAG; LOCATOR_MAGIC] ++ to_le 8 (loc_page l) ++ to_le 4 (loc_slot l)))
    with (to_le 8 (loc_page l) ++ to_le 4 (loc_slot l)).
  change (drop 10 ([LOCATOR_TAG; LOCATOR_MAGIC] ++ to_le 8 (loc_page l) ++ to_le 4 (loc_slot l)))
    with (drop 8 (to_le 8 (loc_page l) ++ to_le 4 (loc_slot l))).
  rewrite take_app_length' by by rewrite length_to_le. rewrite drop_app_length' by by rewrite length_to_le.
  rewrite take_ge by by rewrite length_to_le. rewrite !of_le_to_le_u by done. by destruct l.
Qed.

(** Two rows with one entry have one primary key. *)
Lemma row_entry_key s col a b k ka kb :
  row_wf s a -> row_wf s b -> row_entry s col a = Some k -> row_entry s col b = Some k ->
  row_key s a = Some ka -> row_key s b = Some kb -> ka = kb.
Proof.
  intros Ha Hb. destruct (rw_pk s a Ha) as (pa & Pa & Ka), (rw_pk s b Hb) as (pb & Pb & Kb).
  unfold row_entry, row_key. rewrite Pa, Pb. destruct (a !! Z.to_nat col) as [va|] eqn:Va; [|done].
  destruct (b !! Z.to_nat col) as [vb|] eqn:Vb; [|done].
  destruct (encode_sec_index_key va pa) eqn:Ea; try done. destruct (encode_sec_index_key vb pb) eqn:Eb; try done.
  intros [= ->] [= ->]. apply decode_encode_sec_index_key in Ea; [|by eapply Forall_lookup_1; [apply Ha|]|done].
  apply decode_encode_sec_index_key in Eb; [|by eapply Forall_lookup_1; [apply Hb|]|done].
  rewrite Ea in Eb. injection Eb as <- <-. destruct (encode_key pa); congruence.
Qed.

(** * Index contents *)

Abbreviation Rows := (gmap bytes (list Datum)).

Definition rows_wf (s : Schema) (rows : Rows) : Prop :=
  forall k row, rows !! k = Some row -> row_wf s row /\ row_key s row = Some k.

(** [im] has one empty entry per row, and nothing else. *)
Definition idx_map (s : Schema) (col : Z) (rows : Rows) (im : gmap bytes bytes) : Prop :=
  forall e v, im !! e = Some v <-> v = [] /\ exists k row, rows !! k = Some row /\ row_entry s col row = Some e.

Lemma idx_map_empty s col : idx_map s col ∅ ∅.
Proof. intros e v. rewrite lookup_empty. split; [done|]. intros (_ & k & row & H & _). by rewrite lookup_empty in H. Qed.

Lemma rows_wf_insert s rows k row :
  rows_wf s rows -> row_wf s row -> row_key s row = Some k -> rows_wf s (<[k := row]> rows).
Proof. intros H Hr Hk k' row' [[<- <-]|[_ Hl]]%lookup_insert_Some; [done|by apply H]. Qed.

Lemma rows_wf_delete s rows k : rows_wf s rows -> rows_wf s (delete k rows).
Proof. intros H k' row' [_ Hl]%lookup_delete_Some. by apply H. Qed.

Lemma idx_absent s col rows im k row e :
  idx_map s col rows im -> rows_wf s rows -> rows !! k = None -> row_wf s row -> row_key s row = Some k ->
  row_entry s col row = Some e -> im !! e = None.
Proof.
  intros Hi Hw Hn Hr Hk He. apply eq_None_not_Some. intros [v Hv]. apply Hi in Hv as (_ & k' & row' & Hl & He').
  destruct (Hw _ _ Hl) as [Hr' Hk']. by rewrite (row_entry_key s col row' row e k' k), Hn in Hl.
Qed.

Lemma idx_add s col rows im k row e :
  idx_map s col rows im -> rows !! k = None -> row_entry s col row = Some e ->
  idx_map s col (<[k := row]> rows) (<[e := []]> im).
Proof.
  intros Hi Hn He x v. rewrite lookup_insert_Some. split.
  - intros [[<- <-]|[Hne Hx]].
    + split; [done|]. exists k, row. by rewrite lookup_insert_eq.
    + apply Hi in Hx as (-> & k' & row' & Hl & He'). split; [done|]. exists k', row'. split; [|done].
      rewrite lookup_insert_ne; [done|congruence].
  - intros (-> & k' & row' & [[<- <-]|[Hne Hl]]%lookup_insert_Some & He').
    + left. split; [congruence|done].
    + destruct (decide (e = x)) as [<-|]; [by left|right]. split; [done|]. apply Hi. split; [done|]. by exists k', row'.
Qed.

Lemma idx_drop s col rows im k row e :
  idx_map s col rows im -> rows_wf s rows -> rows !! k = Some row -> row_entry s col row = Some e ->
  idx_map s col (delete k rows) (delete e im).
Proof.
  intros Hi Hw Hk He x v. rewrite lookup_delete_Some. split.
  - intros [Hne Hx]. apply Hi in Hx as (-> & k' & row' & Hl & He'). split; [done|]. exists k', row'. split; [|done].
    rewrite lookup_delete_ne; [done|]. intros <-. congruence.
  - intros (-> & k' & row' & [Hne Hl]%lookup_delete_Some & He'). split.
    + intros <-. destruct (Hw _ _ Hk) as [Hr Hrk], (Hw _ _ Hl) as [Hr' Hrk'].
      by destruct Hne; apply (row_entry_key s col row row' e).
    + apply Hi. split; [done|]. by exists k', row'.
Qed.

(** A row replaced by one with the same entry. *)
Lemma idx_same s col rows im k old row e :
  idx_map s col rows im -> rows !! k = Some old -> row_entry s col old = Some e -> row_entry s col row = Some e ->
  idx_map s col (<[k := row]> rows) im.
Proof.
  intros Hi Hk Ho Hr x v. rewrite (Hi x v). split; intros (-> & k' & row' & Hl & He'); (split; [done|]).
  - destruct (decide (k = k')) as [<-|Hne].
    + exists k, row. rewrite lookup_insert_eq. split; [done|congruence].
    + exists k', row'. by rewrite lookup_insert_ne.
  - apply lookup_insert_Some in Hl as [[<- <-]|[Hne Hl]]; [|by exists k', row'].
    exists k, old. split; [done|congruence].
Qed.

(** * Weakest preconditions *)

Section spec.
Context {T P : Type} {KT : KvTree T} {HT : KvTreeOk T} {KP : Pool P} {HP : PoolOk P}.

Abbreviation Tbl := (@Table T P).
Abbreviation TM := (SM Tbl).

(** The operation never panics in a tree, hangs only if trees may, and returns
    in a state and with a result that satisfy [Q]. *)
Definition wp {S A} (c : SM S A) (t : S) (Q : S -> res A -> Prop) : Prop :=
  match c t with Ret (t, r) => Q t r | Panics => False | Fuel => may_hang end.

Lemma wp_mono {S A} (c : SM S A) t Q R : wp c t Q -> (forall t' r, Q t' r -> R t' r) -> wp c t R.
Proof. unfold wp. destruct (c t) as [[? ?]| |]; auto. Qed.

Lemma wp_bind {S A B} (c : SM S A) (k : A -> SM S B) t Q :
  wp c t (fun t r => match r with Ok a => wp (k a) t Q | Err e => Q t (Err e) | Panic => Q t Panic end) ->
  wp (c ≫= k) t Q.
Proof. unfold wp, mbind, sm_bind. by destruct (c t) as [[? []]| |]. Qed.

(** A step that succeeds. *)
Lemma wp_then {S A B} (c : SM S A) (k : A -> SM S B) t (R : S -> A -> Prop) Q :
  wp c t (fun t r => exists a, r = Ok a /\ R t a) -> (forall t a, R t a -> wp (k a) t Q) -> wp (c ≫= k) t Q.
Proof. intros Hc Hk. apply wp_bind. eapply wp_mono; [exact Hc|]. cbn. intros t' r (a & -> & Ha). by apply Hk. Qed.

Lemma wp_ret {S A} (a : A) (t : S) (Q : S -> res A -> Prop) : Q t (Ok a) -> wp (mret a) t Q.
Proof. done. Qed.

Lemma wp_lift {S A B} (r : res A) (a : A) (k : A -> SM S B) t Q : r = Ok a -> wp (k a) t Q -> wp (lift r ≫= k) t Q.
Proof. intros ->. done. Qed.

Lemma wp_gets {S A B} (f : S -> A) (k : A -> SM S B) t Q : wp (k (f t)) t Q -> wp (gets f ≫= k) t Q.
Proof. done. Qed.

Lemma wp_tree {A} (f : T -> out (T * A)) t a R (Q : Tbl -> res A -> Prop) :
  returns may_hang (f (t_tree t)) a R -> (forall x, R x -> Q (set_tree x t) (Ok a)) -> wp (on_tree f) t Q.
Proof.
  intros [[Hf Hh]|(x & Hx & HR)] HQ; unfold wp, on_tree; [by rewrite Hf|]. rewrite Hx. by apply HQ.
Qed.

Lemma wp_get k m (t : Tbl) Q :
  stored (t_tree t) m -> Forall u8 k -> Q t (Ok (m !! k)) -> wp (tree_get k) t Q.
Proof.
  intros Hs Hk HQ. unfold tree_get, wp, on_tree. rewrite (tget_ok _ _ _ Hs Hk). cbn.
  by destruct t.
Qed.

(** * The representation of rows *)

Definition pool_rep (p : option P) (pm : gmap Locator bytes) : Prop :=
  match p with Some p => holds p pm | None => pm = ∅ end.

(** The bytes under which the tree holds a row. *)
Definition stored_as (pm : gmap Locator bytes) (raw : bytes) (row : list Datum) : Prop :=
  raw = encode_row row \/ exists l, raw = loc_encode l /\ loc_wf l /\ pm !! l = Some (encode_row row).

Definition index_rep (s : Schema) (rows : Rows) (x : SecondaryIndex) : Prop :=
  0 <= si_col_idx x < Zlen (columns s) /\ exists im, stored (si_tree x) im /\ idx_map s (si_col_idx x) rows im.

(** The tree [m], the pool [pm] and the indexes hold [rows]. *)
Record rep (t : Tbl) (m : gmap bytes bytes) (pm : gmap Locator bytes) (rows : Rows) : Prop := {
  r_tree : stored (t_tree t) m;
  r_pool : pool_rep (t_pool t) pm;
  r_rows : rows_wf (td_schema (t_def t)) rows;
  r_some : forall k row, rows !! k = Some row -> exists raw, m !! k = Some raw /\ stored_as pm raw row;
  r_none : forall k, rows !! k = None -> m !! k = None;
  r_uniq : forall k1 k2 l, m !! k1 = Some (loc_encode l) -> m !! k2 = Some (loc_encode l) -> loc_wf l -> k1 = k2;
  r_index : Forall (index_rep (td_schema (t_def t)) rows) (t_indexes t);
}.

Definition table_rep (t : Tbl) (rows : Rows) : Prop := exists m pm, rep t m pm rows.

(** ** Wide rows *)

Lemma loc_encode_inj a b : loc_wf a -> loc_wf b -> loc_encode a = loc_encode b -> a = b.
Proof. intros Ha Hb E. destruct (locator_decode a Ha) as [_ Ea], (locator_decode b Hb) as [_ Eb]. congruence. Qed.

Lemma wp_decode_stored t pm raw row (Q : Tbl -> res (list Datum) -> Prop) :
  row_wf (td_schema (t_def t)) row -> pool_rep (t_pool t) pm -> stored_as pm raw row ->
  (forall p, pool_rep p pm -> Q (set_pool p t) (Ok row)) -> wp (decode_stored raw) t Q.
Proof.
  intros Hr Hp Hs HQ. unfold decode_stored. apply wp_gets. destruct Hs as [->|(l & -> & Hl & Hpm)].
  - rewrite (row_not_locator _ _ Hr). cbn [negb]. unfold wp, lift. rewrite (decode_encode_row _ _ Hr).
    specialize (HQ (t_pool t) Hp). by destruct t.
  - destruct (locator_decode l Hl) as [Hi Hd]. rewrite Hi. cbn [negb]. unfold wp, mbind, sm_bind, resolve_value.
    rewrite Hi, Hd. cbn [negb]. destruct (t_pool t) as [p|]; cbn in Hp; [|subst pm; by rewrite lookup_empty in Hpm].
    destruct (pool_load_ok p pm l _ Hp Hpm) as (p' & -> & Hp'). unfold lift. rewrite (decode_encode_row _ _ Hr).
    by apply (HQ (Some p')).
Qed.

(** Where [alloc_value] puts the bytes of a row. *)
Definition allocated (pm : gmap Locator bytes) (row : list Datum) (raw : bytes) (pm' : gmap Locator bytes) : Prop :=
  (raw = encode_row row /\ pm' = pm) \/
  exists l, raw = loc_encode l /\ loc_wf l /\ pm !! l = None /\ pm' = <[l := encode_row row]> pm.

Lemma wp_alloc {B} (k : bytes -> TM B) t pm row (Q : Tbl -> res B -> Prop) :
  row_wf (td_schema (t_def t)) row -> pool_rep (t_pool t) pm ->
  (forall p raw pm', pool_rep p pm' -> allocated pm row raw pm' -> wp (k raw) (set_pool p t) Q) ->
  (forall p e, pool_rep p pm -> MAX_INLINE_ROW < Zlen (encode_row row) -> Q (set_pool p t) (Err e)) ->
  wp (alloc_value (encode_row row) ≫= k) t Q.
Proof.
  intros Hr Hp Hok Herr. apply wp_bind. unfold wp at 1, alloc_value.
  assert (Hin : wp (k (encode_row row)) t Q).
  { specialize (Hok (t_pool t) (encode_row row) pm Hp). destruct t. apply Hok. by left. }
  destruct (Z.leb_spec (Zlen (encode_row row)) MAX_INLINE_ROW) as [_|Hwide]; [done|].
  destruct (t_pool t) as [p|] eqn:Ep; [|done]. pose proof (pool_store_ok p pm (encode_row row) Hp) as Hst.
  destruct (pool_store p (encode_row row)) as [p' r].
  assert (Hst' : match r with Ok l => pm !! l = None /\ loc_wf l /\ holds p' (<[l:=encode_row row]> pm) | Err _ => holds p' pm | Panic => False end).
  { apply Hst; [|apply encode_row_u8; by eapply row_wf_datum]. pose proof (encode_row_len _ _ Hr). pose proof (rw_size _ _ Hr). lia. }
  destruct r as [l|e|]; [|by apply (Herr (Some p') e)|done]. destruct Hst' as (Hn & Hl & Hh).
  apply (Hok (Some p') (loc_encode l) (<[l := encode_row row]> pm) Hh). right. by exists l.
Qed.

(** Freeing a displaced value drops its locator only, and the operation that
    freed it can still read it. *)
Definition freed (pm : gmap Locator bytes) (raw : bytes) : gmap Locator bytes :=
  match loc_decode raw with Ok l => delete l pm | _ => pm end.

Lemma wp_free t pm raw row (Q : Tbl -> res () -> Prop) :
  row_wf (td_schema (t_def t)) row -> pool_rep (t_pool t) pm -> stored_as pm raw row ->
  (forall p, pool_rep p (freed pm raw) ->
     (forall (t' : Tbl) R, t_pool t' = p -> td_schema (t_def t') = td_schema (t_def t) ->
        (forall q, pool_rep q (freed pm raw) -> R (set_pool q t') (Ok row)) -> wp (decode_stored raw) t' R) ->
     Q (set_pool p t) (Ok ())) ->
  wp (free_value raw) t Q.
Proof.
  intros Hr Hp Hs HQ. unfold free_value, wp. destruct Hs as [->|(l & -> & Hl & Hpm)].
  - rewrite (row_not_locator _ _ Hr). cbn [negb].
    assert (freed pm (encode_row row) = pm) as Hf by (unfold freed, loc_decode; by rewrite (row_not_locator _ _ Hr)).
    rewrite Hf in HQ. specialize (HQ (t_pool t) Hp). destruct t. apply HQ. intros t' R Ht' Hsc HR.
    rewrite <- Ht' in Hp. apply (wp_decode_stored t' pm _ row); [by rewrite Hsc|done|by left|done].
  - destruct (locator_decode l Hl) as [Hi Hd]. rewrite Hi, Hd. cbn [negb].
    assert (freed pm (loc_encode l) = delete l pm) as Hf by (unfold freed; by rewrite Hd). rewrite Hf in HQ.
    destruct (t_pool t) as [p|]; cbn in Hp; [|subst pm; by rewrite lookup_empty in Hpm].
    destruct (pool_free_ok p pm l _ Hp Hpm) as (Hh & p' & Hload & Hp'). apply (HQ (Some (pool_free p l)) Hh).
    intros t' R Ht' Hsc HR. unfold decode_stored. apply wp_gets. rewrite Hi. cbn [negb].
    unfold wp, mbind, sm_bind, resolve_value. rewrite Hi, Hd, Ht', Hload. cbn [negb]. unfold lift.
    rewrite (decode_encode_row _ row) by by rewrite Hsc. by apply (HR (Some p')).
Qed.

(** ** Index loops *)

Lemma row_at_Ok row i d : row_at row i = Ok d <-> row !! Z.to_nat i = Some d.
Proof. unfold row_at. destruct (row !! _); split; congruence. Qed.

Lemma row_entry_ok s col row pk :
  row_wf s row -> 0 <= col < Zlen (columns s) -> row_at row (pk_idx s) = Ok pk ->
  exists v e, row_at row col = Ok v /\ sec_wf v /\ encode_sec_index_key v pk = Ok e /\
    row_entry s col row = Some e /\ Forall u8 e.
Proof.
  intros Hr Hc Hp. apply row_at_Ok in Hp. destruct (rw_pk s row Hr) as (d & Hd & Hk). rewrite Hp in Hd. injection Hd as <-.
  destruct (lookup_lt_is_Some_2 row (Z.to_nat col)) as [v Hv]; [rewrite (rw_len s row Hr); lia|].
  destruct (encode_sec_Ok v pk Hk) as [e He]. exists v, e.
  assert (sec_wf v) as Hsv by (eapply Forall_lookup_1; [apply Hr|done]).
  unfold row_entry. rewrite Hv, Hp, He. split_and!; [by apply row_at_Ok|done|done|done|].
  eapply sec_index_key_u8; [apply Hsv|apply Hk|done].
Qed.

Lemma each_index_ok s rows rows' f l :
  (forall x, index_rep s rows x ->
     returns may_hang (f x) (Ok ()) (fun tr => index_rep s rows' (mkSec (si_def x) (si_col_idx x) tr))) ->
  Forall (index_rep s rows) l ->
  returns may_hang (each_index f l) (Ok ()) (fun l' => Forall (index_rep s rows') l' /\ si_def <$> l' = si_def <$> l).
Proof.
  intros Hf. induction 1 as [|x l Hx _ IH]; cbn [each_index]; [right; by exists []|].
  destruct (Hf x Hx) as [[-> ?]|(tr & -> & Htr)]; [by left|]. cbn [mbind out_bind].
  destruct IH as [[-> ?]|(l' & -> & Hl' & Hd)]; [by left|right]. cbn [mbind out_bind].
  eexists. split; [done|]. split; [by constructor|]. cbn. by rewrite Hd.
Qed.

Lemma wp_indexes rows rows' f t (Q : Tbl -> res () -> Prop) :
  Forall (index_rep (td_schema (t_def t)) rows) (t_indexes t) ->
  (forall x, index_rep (td_schema (t_def t)) rows x -> returns may_hang (f x) (Ok ())
     (fun tr => index_rep (td_schema (t_def t)) rows' (mkSec (si_def x) (si_col_idx x) tr))) ->
  (forall l, Forall (index_rep (td_schema (t_def t)) rows') l -> Q (set_indexes l t) (Ok ())) -> wp (on_indexes f) t Q.
Proof.
  intros Hi Hf HQ. unfold wp, on_indexes.
  destruct (each_index_ok _ rows rows' f _ Hf Hi) as [[-> ?]|(l & -> & Hl & _)]; [done|]. by apply HQ.
Qed.

Section index_steps.
Context (s : Schema) (rows : Rows) (k : bytes) (pk : Datum) (Hw : rows_wf s rows).

Lemma index_add_ok row x :
  index_rep s rows x -> rows !! k = None -> row_wf s row -> row_key s row = Some k -> row_at row (pk_idx s) = Ok pk ->
  returns may_hang (index_add pk row x) (Ok ())
    (fun tr => index_rep s (<[k := row]> rows) (mkSec (si_def x) (si_col_idx x) tr)).
Proof.
  intros (Hc & im & Hst & Hi) Hn Hr Hk Hp. destruct (row_entry_ok s _ row pk Hr Hc Hp) as (v & e & Hv & _ & He & Hre & Hu).
  unfold index_add. rewrite Hv. cbn [mbind res_bind]. rewrite He.
  destruct (tinsert_ok _ _ e [] Hst Hu) as [[-> ?]|(tr & -> & Htr)]; [by left|right]. cbn.
  exists tr. split; [done|]. split; [done|]. cbn. rewrite (idx_absent s _ rows im k row e) in Htr by done.
  eexists. split; [exact Htr|]. by apply idx_add.
Qed.

Lemma index_put_ok row x :
  index_rep s rows x -> rows !! k = None -> row_wf s row -> row_key s row = Some k -> row_at row (pk_idx s) = Ok pk ->
  returns may_hang (index_put pk row x) (Ok ())
    (fun tr => index_rep s (<[k := row]> rows) (mkSec (si_def x) (si_col_idx x) tr)).
Proof.
  intros (Hc & im & Hst & Hi) Hn Hr Hk Hp. destruct (row_entry_ok s _ row pk Hr Hc Hp) as (v & e & Hv & _ & He & Hre & Hu).
  unfold index_put. rewrite Hv. cbn [mbind res_bind]. rewrite He.
  destruct (tupsert_ok _ _ e [] Hst Hu) as [[-> ?]|(tr & -> & Htr)]; [by left|right]. cbn.
  exists tr. split; [done|]. split; [done|]. cbn. eexists. split; [exact Htr|]. by apply idx_add.
Qed.

Lemma index_drop_ok row x :
  index_rep s rows x -> rows !! k = Some row -> row_at row (pk_idx s) = Ok pk ->
  returns may_hang (index_drop pk row x) (Ok ())
    (fun tr => index_rep s (delete k rows) (mkSec (si_def x) (si_col_idx x) tr)).
Proof.
  intros (Hc & im & Hst & Hi) Hk Hp. destruct (Hw _ _ Hk) as [Hr Hrk].
  destruct (row_entry_ok s _ row pk Hr Hc Hp) as (v & e & Hv & _ & He & Hre & Hu).
  unfold index_drop. rewrite Hv. cbn [mbind res_bind]. rewrite He.
  destruct (tremove_ok _ _ e Hst Hu) as [[-> ?]|(tr & -> & Htr)]; [by left|right]. cbn.
  exists tr. split; [done|]. split; [done|]. cbn. eexists. split; [exact Htr|]. by eapply idx_drop.
Qed.

(** Both move loops: one entry out, one in, or nothing when the indexed value
    stays. *)
Lemma index_move_case old row x :
  index_rep s rows x -> rows !! k = Some old -> row_wf s row -> row_key s row = Some k ->
  row_at old (pk_idx s) = Ok pk -> row_at row (pk_idx s) = Ok pk ->
  exists vo vn eo en im, row_at old (si_col_idx x) = Ok vo /\ row_at row (si_col_idx x) = Ok vn /\
    encode_sec_index_key vo pk = Ok eo /\ encode_sec_index_key vn pk = Ok en /\ Forall u8 eo /\ Forall u8 en /\
    stored (si_tree x) im /\
    (datum_eqb vo vn = true -> idx_map s (si_col_idx x) (<[k := row]> rows) im) /\
    delete eo im !! en = None /\ idx_map s (si_col_idx x) (<[k := row]> rows) (<[en := []]> (delete eo im)).
Proof.
  intros (Hc & im & Hst & Hi) Hk Hr Hrk Hpo Hpn. destruct (Hw _ _ Hk) as [Hro Hko].
  destruct (row_entry_ok s _ old pk Hro Hc Hpo) as (vo & eo & Hvo & Wo & Heo & Hreo & Huo).
  destruct (row_entry_ok s _ row pk Hr Hc Hpn) as (vn & en & Hvn & Wn & Hen & Hren & Hun).
  pose proof (idx_drop s _ rows im k old eo Hi Hw Hk Hreo) as Hd.
  exists vo, vn, eo, en, im. split_and!; try done.
  - intros Heq. eapply idx_same; [done|done|exact Hreo|]. rewrite Hren. f_equal.
    unfold encode_sec_index_key in Heo, Hen. rewrite (datum_eqb_eq vo vn Wo Wn Heq) in Heo. congruence.
  - apply (idx_absent s (si_col_idx x) (delete k rows) (delete eo im) k row en);
      [done|by apply rows_wf_delete|by rewrite lookup_delete_eq|done..].
  - rewrite <- insert_delete_eq. apply idx_add; [done|by rewrite lookup_delete_eq|done].
Qed.

Lemma index_move_ok old row x :
  index_rep s rows x -> rows !! k = Some old -> row_wf s row -> row_key s row = Some k ->
  row_at old (pk_idx s) = Ok pk -> row_at row (pk_idx s) = Ok pk ->
  returns may_hang (index_move pk old row x) (Ok ())
    (fun tr => index_rep s (<[k := row]> rows) (mkSec (si_def x) (si_col_idx x) tr)).
Proof.
  intros Hx Hk Hr Hrk Hpo Hpn. pose proof Hx as [Hc _].
  destruct (index_move_case old row x Hx Hk Hr Hrk Hpo Hpn) as (vo & vn & eo & en & im & Hvo & Hvn & Heo & Hen & Huo & Hun & Hst & Heq & Hnone & Hmap).
  unfold index_move. rewrite Hvo, Hvn. destruct (datum_eqb vo vn).
  { right. exists (si_tree x). split; [done|]. split; [done|]. exists im. split; [done|by apply Heq]. }
  rewrite Heo. destruct (tremove_ok _ _ eo Hst Huo) as [[-> ?]|(tr & -> & Htr)]; [by left|]. cbn [mbind out_bind]. rewrite Hen.
  destruct (tinsert_ok _ _ en [] Htr Hun) as [[-> ?]|(tr' & -> & Htr')]; [by left|right]. cbn.
  exists tr'. split; [done|]. split; [done|]. rewrite Hnone in Htr'. by eexists.
Qed.

Lemma index_move_redo_ok old row x :
  index_rep s rows x -> rows !! k = Some old -> row_wf s row -> row_key s row = Some k ->
  row_at old (pk_idx s) = Ok pk -> row_at row (pk_idx s) = Ok pk ->
  returns may_hang (index_move_redo pk old row x) (Ok ())
    (fun tr => index_rep s (<[k := row]> rows) (mkSec (si_def x) (si_col_idx x) tr)).
Proof.
  intros Hx Hk Hr Hrk Hpo Hpn. pose proof Hx as [Hc _].
  destruct (index_move_case old row x Hx Hk Hr Hrk Hpo Hpn) as (vo & vn & eo & en & im & Hvo & Hvn & Heo & Hen & Huo & Hun & Hst & Heq & Hnone & Hmap).
  unfold index_move_redo. rewrite Hvo, Hvn. destruct (datum_eqb vo vn).
  { right. exists (si_tree x). split; [done|]. split; [done|]. exists im. split; [done|by apply Heq]. }
  rewrite Heo. destruct (tremove_ok _ _ eo Hst Huo) as [[-> ?]|(tr & -> & Htr)]; [by left|]. cbn [mbind out_bind mret out_ret]. rewrite Hen.
  destruct (tupsert_ok _ _ en [] Htr Hun) as [[-> ?]|(tr' & -> & Htr')]; [by left|right]. cbn.
  exists tr'. split; [done|]. split; [done|]. by eexists.
Qed.

Lemma ignore_err_ok (c : out (T * res ())) (tr0 : T) (R : T -> Prop) : returns may_hang c (Ok ()) R -> returns may_hang (ignore_err c tr0) (Ok ()) R.
Proof. intros [[-> ?]|(tr & -> & Htr)]; [by left|right]. by exists tr. Qed.

End index_steps.

(** ** Writing and dropping a row *)

Definition displaced (pm : gmap Locator bytes) (prev : option bytes) : gmap Locator bytes :=
  match prev with Some raw => freed pm raw | None => pm end.

Lemma freed_inline s pm row : row_wf s row -> freed pm (encode_row row) = pm.
Proof. intros H. unfold freed, loc_decode. by rewrite (row_not_locator _ _ H). Qed.

Lemma freed_loc pm l : loc_wf l -> freed pm (loc_encode l) = delete l pm.
Proof. intros H. unfold freed. by destruct (locator_decode l H) as [_ ->]. Qed.

(** Another key's row survives the release of the value under [k]. *)
Lemma stored_as_freed t m pm rows k k' raw row' o :
  rep t m pm rows -> k <> k' -> m !! k = Some o -> rows !! k' = Some row' -> m !! k' = Some raw ->
  is_Some (rows !! k) -> forall pm', stored_as pm' raw row' -> stored_as (freed pm' o) raw row'.
Proof.
  intros H Hne Ho Hr' Hm' [row Hr] pm' Hs. destruct (r_some _ _ _ _ H _ _ Hr) as (o' & Ho' & Hso).
  rewrite Ho in Ho'. injection Ho' as <-. destruct (r_rows _ _ _ _ H _ _ Hr) as [Hwf _].
  destruct Hso as [->|(lo & -> & Hlo & _)]; [by rewrite (freed_inline _ _ _ Hwf)|]. rewrite freed_loc by done.
  destruct Hs as [->|(l & -> & Hl & Hpm)]; [by left|right]. exists l. split_and!; try done.
  rewrite lookup_delete_ne; [done|]. intros ->. destruct Hne. by eapply (r_uniq _ _ _ _ H).
Qed.

Lemma stored_as_alloc pm row raw pm' raw' row' :
  allocated pm row raw pm' -> stored_as pm raw' row' -> stored_as pm' raw' row'.
Proof.
  intros [[_ ->]|(l & _ & _ & Hn & ->)] Hs; [done|]. destruct Hs as [->|(l' & -> & Hl' & Hpm)]; [by left|right].
  exists l'. split_and!; try done. rewrite lookup_insert_ne; congruence.
Qed.

Lemma rep_prev t m pm rows k : rep t m pm rows ->
  match rows !! k with Some row => exists raw, m !! k = Some raw /\ stored_as pm raw row | None => m !! k = None end.
Proof. intros H. destruct (rows !! k) as [row|] eqn:E; [by apply H|by apply H]. Qed.

Lemma rep_put t m pm rows k row raw pm' x p l :
  let s := td_schema (t_def t) in
  rep t m pm rows -> row_wf s row -> row_key s row = Some k -> allocated pm row raw pm' ->
  stored x (<[k := raw]> m) -> pool_rep p (displaced pm' (m !! k)) -> Forall (index_rep s (<[k := row]> rows)) l ->
  rep (set_indexes l (set_pool p (set_tree x t))) (<[k := raw]> m) (displaced pm' (m !! k)) (<[k := row]> rows).
Proof.
  intros s H Hr Hk Ha Hx Hp Hl. pose proof (rep_prev _ _ _ _ k H) as Hprev. split; cbn -[loc_encode]; try done.
  - by apply rows_wf_insert; [apply H|..].
  - intros k' row' [[<- <-]|[Hne Hr']]%lookup_insert_Some.
    + exists raw. rewrite lookup_insert_eq. split; [done|].
      destruct Ha as [[-> ->]|(la & -> & Hla & Hn & ->)]; [by left|right]. exists la. split_and!; try done.
      unfold displaced. destruct (rows !! k) as [old|] eqn:Eold; [|rewrite Hprev; by rewrite lookup_insert_eq].
      destruct Hprev as (o & -> & Hso). destruct (r_rows _ _ _ _ H _ _ Eold) as [Hwf _].
      destruct Hso as [->|(lo & -> & Hlo & Hpm)]; [rewrite (freed_inline _ _ _ Hwf); by rewrite lookup_insert_eq|].
      rewrite freed_loc by done. rewrite lookup_delete_ne by congruence. by rewrite lookup_insert_eq.
    + destruct (r_some _ _ _ _ H _ _ Hr') as (raw' & Hm' & Hs'). exists raw'. rewrite lookup_insert_ne by done. split; [done|].
      pose proof (stored_as_alloc _ _ _ _ _ _ Ha Hs') as Hs2. unfold displaced.
      destruct (rows !! k) as [old|] eqn:Eold; [|by rewrite Hprev]. destruct Hprev as (o & Ho & _). rewrite Ho.
      by eapply stored_as_freed.
  - intros k' [Hn Hne]%lookup_insert_None. rewrite lookup_insert_ne by done. by apply H.
  - assert (Hother : forall k' la, k <> k' -> raw = loc_encode la -> loc_wf la -> m !! k' = Some (loc_encode la) -> False).
    { intros k' la Hne -> Hla Hm'. destruct (rows !! k') as [row'|] eqn:Er'; [|by rewrite (r_none _ _ _ _ H _ Er') in Hm'].
      destruct (r_some _ _ _ _ H _ _ Er') as (raw' & Hm2 & Hs'). rewrite Hm' in Hm2. injection Hm2 as <-.
      destruct (r_rows _ _ _ _ H _ _ Er') as [Hwf _]. destruct (locator_decode la Hla) as [Hil _].
      destruct Hs' as [Hs'|(l2 & Hl2 & Hwl2 & Hpm2)].
      - rewrite Hs', (row_not_locator _ _ Hwf) in Hil. done.
      - apply loc_encode_inj in Hl2; [|done|done]. subst l2.
        destruct Ha as [[Ha _]|(l3 & Hl3 & Hwl3 & Hn & _)].
        + rewrite Ha, (row_not_locator _ _ Hr) in Hil. done.
        + apply loc_encode_inj in Hl3; [|done|done]. congruence. }
    intros k1 k2 la [[<- H1]|[N1 H1]]%lookup_insert_Some [[<- H2]|[N2 H2]]%lookup_insert_Some Hla; [done|..].
    + by destruct (Hother k2 la).
    + by destruct (Hother k1 la).
    + by eapply (r_uniq _ _ _ _ H).
Qed.

Lemma rep_drop t m pm rows k row x p l :
  let s := td_schema (t_def t) in
  rep t m pm rows -> rows !! k = Some row -> stored x (delete k m) -> pool_rep p (displaced pm (m !! k)) ->
  Forall (index_rep s (delete k rows)) l ->
  rep (set_indexes l (set_pool p (set_tree x t))) (delete k m) (displaced pm (m !! k)) (delete k rows).
Proof.
  intros s H Hr Hx Hp Hl. split; cbn -[loc_encode]; try done.
  - by apply rows_wf_delete, H.
  - intros k' row' [Hne Hr']%lookup_delete_Some. destruct (r_some _ _ _ _ H _ _ Hr') as (raw' & Hm' & Hs').
    exists raw'. rewrite lookup_delete_ne by done. split; [done|]. destruct (r_some _ _ _ _ H _ _ Hr) as (o & Ho & _).
    rewrite Ho. cbn. by eapply stored_as_freed.
  - intros k' [<-|Hn]%lookup_delete_None; [by rewrite lookup_delete_eq|]. rewrite lookup_delete_None. right. by apply H.
  - intros k1 k2 la [_ H1]%lookup_delete_Some [_ H2]%lookup_delete_Some. by eapply (r_uniq _ _ _ _ H).
Qed.

(** * The operations *)

Abbreviation sch t := (td_schema (t_def t)).

(** The table still has its definition and now holds [rows]. *)
Definition keeps (t : Tbl) (rows : Rows) (t' : Tbl) : Prop := t_def t' = t_def t /\ table_rep t' rows.

Lemma wp_with_indexes rows rows' row pk f t (Q : Tbl -> res () -> Prop) :
  Forall (index_rep (sch t) rows) (t_indexes t) -> row_at row (pk_idx (sch t)) = Ok pk ->
  (forall x, index_rep (sch t) rows x -> returns may_hang (f pk x) (Ok ())
     (fun tr => index_rep (sch t) rows' (mkSec (si_def x) (si_col_idx x) tr))) ->
  (forall l, Forall (index_rep (sch t) rows') l -> Q (set_indexes l t) (Ok ())) -> wp (with_indexes row f) t Q.
Proof.
  intros Hi Hp Hf HQ. unfold with_indexes. apply wp_gets. cbn [id]. destruct (t_indexes t) as [|x l] eqn:Ei.
  - apply wp_ret. specialize (HQ [] ltac:(constructor)). destruct t. cbn in *. by subst.
  - apply (wp_lift _ pk _ _ _ Hp). apply (wp_indexes rows rows'); [by rewrite Ei|done|done].
Qed.

Lemma wp_key_of {B} t row k (c : bytes -> TM B) Q :
  row_wf (sch t) row -> row_key (sch t) row = Some k -> wp (c k) t Q -> wp (key_of row ≫= c) t Q.
Proof.
  intros Hr Hk HQ. destruct (row_wf_key _ _ Hr) as (k' & Hk' & _ & d & Hd & _ & He & _).
  rewrite Hk in Hk'. injection Hk' as <-. apply wp_bind. unfold key_of. apply wp_gets.
  apply (wp_lift _ d); [done|]. unfold wp, lift. by rewrite He.
Qed.

Lemma row_pk (t : Tbl) row k : row_wf (sch t) row -> row_key (sch t) row = Some k ->
  Forall u8 k /\ exists pk, row_at row (pk_idx (sch t)) = Ok pk /\ decode_key k = Ok pk /\ encode_key pk = Ok k.
Proof.
  intros Hr Hk. destruct (row_wf_key _ _ Hr) as (k' & Hk' & Hu & d & Hd & _ & He & Hdk).
  rewrite Hk in Hk'. injection Hk' as <-. split; [done|]. by exists d.
Qed.

(** One row per key: rows under one key share the primary key value. *)
Lemma same_pk (t : Tbl) row old k pk : row_wf (sch t) row -> row_wf (sch t) old -> row_key (sch t) row = Some k ->
  row_key (sch t) old = Some k -> row_at row (pk_idx (sch t)) = Ok pk -> row_at old (pk_idx (sch t)) = Ok pk.
Proof.
  intros Hr Ho Hk Hko Hp. destruct (row_pk t row k Hr Hk) as (_ & d & Hd & Hdk & _).
  destruct (row_pk t old k Ho Hko) as (_ & d' & Hd' & Hdk' & _). congruence.
Qed.

Lemma wp_duplicate {A} to_string t k pk (Q : Tbl -> res A -> Prop) :
  decode_key k = Ok pk -> Q t (Err (DuplicateKey (to_string pk))) -> wp (duplicate to_string k) t Q.
Proof. intros Hd HQ. unfold duplicate. by apply (wp_lift _ pk). Qed.

Lemma rep_pool t m pm rows p : rep t m pm rows -> pool_rep p pm -> rep (set_pool p t) m pm rows.
Proof. intros [] Hp. by split. Qed.

(** An allocation that nothing refers to yet. *)
Lemma rep_alloc t m pm rows row raw pm' p :
  rep t m pm rows -> allocated pm row raw pm' -> pool_rep p pm' -> rep (set_pool p t) m pm' rows.
Proof.
  intros H Ha Hp. destruct H as [H1 H2 H3 H4 H5 H6 H7]. split; cbn -[loc_encode]; try done.
  intros k row' Hr'. destruct (H4 k row' Hr') as (raw' & Hm & Hs). exists raw'. split; [done|].
  by eapply stored_as_alloc.
Qed.

Lemma insert_row_ok to_string t rows row k :
  table_rep t rows -> row_wf (sch t) row -> row_key (sch t) row = Some k ->
  wp (insert_row to_string row) t (fun t' r =>
    match rows !! k with
    | Some _ => keeps t rows t' /\ exists pk, decode_key k = Ok pk /\ r = Err (DuplicateKey (to_string pk))
    | None => (keeps t (<[k := row]> rows) t' /\ r = Ok ()) \/ (keeps t rows t' /\ MAX_INLINE_ROW < Zlen (encode_row row) /\ exists e, r = Err e)
    end).
Proof.
  intros (m & pm & H) Hr Hk. destruct (row_pk t row k Hr Hk) as (Hu & pk & Hpk & Hdk & _).
  pose proof (rep_prev _ _ _ _ k H) as Hprev. unfold insert_row. apply (wp_key_of t row k); [done|done|]. apply wp_bind.
  apply (wp_get k m); [apply H|done|]. destruct (rows !! k) as [old|] eqn:Eold.
  - destruct Hprev as (o & -> & _). apply (wp_duplicate _ _ _ pk); [done|]. split; [split; [done|by exists m, pm]|]. by exists pk.
  - rewrite Hprev. apply (wp_alloc _ t pm row); [done|apply H| |].
    2:{ intros p e Hp Hwide. right. split_and!; [split; [done|]|done|by exists e]. exists m, pm. by apply rep_pool. }
    intros p raw pm' Hp Ha. apply wp_bind.
    eapply (wp_tree _ (set_pool p t)); [apply (tinsert_ok _ m); [apply H|done]|]. cbn beta. rewrite Hprev.
    intros x Hx. rewrite bool_decide_eq_true_2 by done. cbn [negb].
    apply (wp_with_indexes rows (<[k := row]> rows) row pk); [apply H|done| |].
    + intros y Hy. eapply index_add_ok; (done || apply H).
    + intros l Hl. left. split; [|done]. split; [done|]. eexists _, _.
      eapply (rep_put t m pm rows k row raw pm' x p l); try done. by rewrite Hprev.
Qed.

Lemma wp_put_value {B} (c : option bytes -> TM B) t m k raw Q :
  stored (t_tree t) m -> Forall u8 k ->
  (forall x, stored x (<[k := raw]> m) -> wp (c (m !! k)) (set_tree x t) Q) -> wp (put_value k raw ≫= c) t Q.
Proof.
  intros Hs Hu HQ. apply wp_bind. unfold put_value. apply wp_bind.
  eapply wp_tree; [by apply (tupdate_ok _ m)|]. intros x Hx. destruct (m !! k) as [o|] eqn:Eo.
  - by apply wp_ret, HQ.
  - eapply (wp_tree _ (set_tree x t)); [by apply (tupsert_ok _ m)|]. rewrite Eo. intros y Hy. by apply HQ.
Qed.

(** The displaced value is freed first and decoded afterwards. *)
Definition readable (t : Tbl) (q : option P) (pm : gmap Locator bytes) (prev : option bytes) (old : option (list Datum)) : Prop :=
  match prev, old with
  | Some raw, Some row => forall (t2 : Tbl) R, t_pool t2 = q -> t_def t2 = t_def t ->
      (forall q', pool_rep q' pm -> R (set_pool q' t2) (Ok row)) -> wp (decode_stored raw) t2 R
  | None, None => True
  | _, _ => False
  end.

Lemma wp_free_opt {B} (c : () -> TM B) t m pm rows k pm' t1 Q :
  rep t m pm rows -> (forall raw row, stored_as pm raw row -> stored_as pm' raw row) ->
  pool_rep (t_pool t1) pm' -> t_def t1 = t_def t ->
  (forall q, pool_rep q (displaced pm' (m !! k)) -> readable t q (displaced pm' (m !! k)) (m !! k) (rows !! k) ->
     wp (c ()) (set_pool q t1) Q) ->
  wp (free_opt (m !! k) ≫= c) t1 Q.
Proof.
  intros H Hmono Hp Hd HQ. pose proof (rep_prev _ _ _ _ k H) as Hprev. apply wp_bind.
  destruct (rows !! k) as [old|] eqn:Eold.
  - destruct Hprev as (o & Ho & Hso). destruct (r_rows _ _ _ _ H _ _ Eold) as [Hwf _]. rewrite Ho in HQ |- *. cbn [free_opt displaced readable] in *.
    apply (wp_free t1 pm' o old); [by rewrite Hd|done|by apply Hmono|].
    intros q Hq Hread. apply HQ; [done|]. intros t2 R Hq2 Hd2 HR. apply Hread; [done|by rewrite Hd2, Hd|done].
  - rewrite Hprev in HQ |- *. cbn [free_opt displaced readable] in *. apply wp_ret.
    specialize (HQ (t_pool t1) Hp I). by destruct t1.
Qed.

Lemma wp_decode_opt t q pm prev old t2 (Q : Tbl -> res (option (list Datum)) -> Prop) :
  readable t q pm prev old -> t_pool t2 = q -> t_def t2 = t_def t -> pool_rep q pm ->
  (forall q', pool_rep q' pm -> Q (set_pool q' t2) (Ok old)) -> wp (decode_opt prev) t2 Q.
Proof.
  intros Hr Hq Hd Hp HQ. unfold readable in Hr. destruct prev as [raw|], old as [row|]; try done; cbn [decode_opt].
  - apply wp_bind. apply Hr; [done|done|]. intros q' Hq'. by apply wp_ret, HQ.
  - apply wp_ret. specialize (HQ q Hp). destruct t2. cbn in *. by subst.
Qed.

Lemma wp_try_decode t q pm prev old t2 (Q : Tbl -> res (option (list Datum)) -> Prop) :
  readable t q pm prev old -> t_pool t2 = q -> t_def t2 = t_def t -> pool_rep q pm ->
  (forall q', pool_rep q' pm -> Q (set_pool q' t2) (Ok old)) ->
  wp (match prev with Some b => try_decode b | None => mret None end) t2 Q.
Proof.
  intros Hr Hq Hd Hp HQ. unfold readable in Hr. destruct prev as [raw|], old as [row|]; try done.
  - specialize (Hr t2 (fun t' r => match r with Ok a => Q t' (Ok (Some a)) | _ => False end) Hq Hd HQ).
    unfold wp, try_decode in *. by destruct (decode_stored raw t2) as [[? []]| |].
  - apply wp_ret. specialize (HQ q Hp). destruct t2. cbn in *. by subst.
Qed.

Lemma old_row_pk t m pm rows k row pk old :
  rep t m pm rows -> row_wf (sch t) row -> row_key (sch t) row = Some k -> row_at row (pk_idx (sch t)) = Ok pk ->
  rows !! k = Some old -> row_at old (pk_idx (sch t)) = Ok pk.
Proof. intros H Hr Hk Hp Ho. destruct (r_rows _ _ _ _ H _ _ Ho). by apply (same_pk t row old k). Qed.

Lemma upsert_row_ok t rows row k :
  table_rep t rows -> row_wf (sch t) row -> row_key (sch t) row = Some k ->
  wp (upsert_row row) t (fun t' r =>
    (keeps t (<[k := row]> rows) t' /\ r = Ok (rows !! k)) \/ (keeps t rows t' /\ MAX_INLINE_ROW < Zlen (encode_row row) /\ exists e, r = Err e)).
Proof.
  intros (m & pm & H) Hr Hk. destruct (row_pk t row k Hr Hk) as (Hu & pk & Hpk & Hdk & _).
  unfold upsert_row. apply (wp_key_of t row k); [done|done|]. apply (wp_alloc _ t pm row); [done|apply H| |].
  2:{ intros p e Hp Hwide. right. split_and!; [split; [done|]|done|by exists e]. exists m, pm. by apply rep_pool. }
  intros p raw pm' Hp Ha. apply (wp_put_value _ (set_pool p t) m); [apply H|done|]. intros x Hx.
  apply (wp_free_opt _ t m pm rows k pm' (set_tree x (set_pool p t))); [done|by intros; eapply stored_as_alloc|done|done|].
  intros q Hq Hread. apply wp_bind. eapply wp_decode_opt; [exact Hread|done|done|done|]. intros q' Hq'. cbn beta.
  apply wp_bind. apply (wp_with_indexes rows (<[k := row]> rows) row pk); [apply H|done| |].
  - intros y Hy. destruct (rows !! k) as [old|] eqn:Eold.
    + eapply index_move_ok; try done; [apply H|by apply (old_row_pk t m pm rows k row pk old)].
    + eapply index_add_ok; (done || apply H).
  - intros l Hl. apply wp_ret. left. split; [|done]. split; [done|]. eexists _, _.
    eapply (rep_put t m pm rows k row raw pm' x q' l); done.
Qed.

Lemma update_row_ok t rows row k :
  table_rep t rows -> row_wf (sch t) row -> row_key (sch t) row = Some k ->
  wp (update_row row) t (fun t' r =>
    (keeps t (match rows !! k with Some _ => <[k := row]> rows | None => rows end) t' /\ r = Ok (rows !! k)) \/
    (keeps t rows t' /\ MAX_INLINE_ROW < Zlen (encode_row row) /\ exists e, r = Err e)).
Proof.
  intros (m & pm & H) Hr Hk. destruct (row_pk t row k Hr Hk) as (Hu & pk & Hpk & Hdk & _).
  unfold update_row. apply (wp_key_of t row k); [done|done|]. apply (wp_alloc _ t pm row); [done|apply H| |].
  2:{ intros p e Hp Hwide. right. split_and!; [split; [done|]|done|by exists e]. exists m, pm. by apply rep_pool. }
  intros p raw pm' Hp Ha. apply wp_bind.
  eapply (wp_tree _ (set_pool p t)); [apply (tupdate_ok _ m); [apply H|done]|]. intros x Hx.
  apply (wp_free_opt _ t m pm rows k pm' (set_tree x (set_pool p t))); [done|by intros; eapply stored_as_alloc|done|done|].
  intros q Hq Hread. apply wp_bind. eapply wp_decode_opt; [exact Hread|done|done|done|]. intros q' Hq'. cbn beta.
  pose proof (rep_prev _ _ _ _ k H) as Hprev. destruct (rows !! k) as [old|] eqn:Eold.
  - destruct Hprev as (o & Ho & _). rewrite Ho in Hx. apply wp_bind.
    apply (wp_with_indexes rows (<[k := row]> rows) row pk); [apply H|done| |].
    + intros y Hy. eapply index_move_ok; try done; [apply H|by apply (old_row_pk t m pm rows k row pk old)].
    + intros l Hl. apply wp_ret. left. split; [|done]. split; [done|]. eexists _, _.
      eapply (rep_put t m pm rows k row raw pm' x q' l); done.
  - rewrite Hprev in *. cbn [displaced] in *. apply wp_bind, wp_ret, wp_ret. left. split; [|done]. split; [done|].
    exists m, pm'. pose proof (rep_alloc t m pm rows row raw pm' q' H Ha Hq') as [H1 H2 H3 H4 H5 H6 H7]. by split.
Qed.

Lemma delete_row_ok t rows d k :
  table_rep t rows -> key_wf d -> encode_key d = Ok k ->
  wp (delete_row d) t (fun t' r => keeps t (delete k rows) t' /\ r = Ok (rows !! k)).
Proof.
  intros (m & pm & H) Hd He. pose proof (encode_key_u8 d k (proj1 Hd) He) as Hu. unfold delete_row.
  apply (wp_lift _ k); [done|]. apply wp_bind. eapply (wp_tree _ t); [apply (tremove_ok _ m); [apply H|done]|]. intros x Hx.
  pose proof (rep_prev _ _ _ _ k H) as Hprev. destruct (rows !! k) as [row|] eqn:Er.
  - destruct Hprev as (o & Ho & Hso). rewrite Ho. destruct (r_rows _ _ _ _ H _ _ Er) as [Hwf Hrk].
    apply (wp_bind (free_value o)). apply (wp_free (set_tree x t) pm o row); [done|apply H|done|].
    intros q Hq Hread. apply wp_bind. apply Hread; [done|done|]. intros q' Hq'. apply wp_bind.
    apply (wp_indexes rows (delete k rows)); [apply H| |].
    + intros y Hy. eapply index_drop_ok; try done; [apply H|].
      destruct (row_pk t row k Hwf Hrk) as (_ & pk & Hpk & Hdk & _). rewrite (decode_encode_key d k Hd He) in Hdk.
      injection Hdk as ->. done.
    + intros l Hl. apply wp_ret. split; [|done]. split; [done|]. eexists _, _.
      eapply (rep_drop t m pm rows k row x q' l); try done. by rewrite Ho.
  - rewrite Hprev. apply wp_ret. split; [|done]. split; [done|]. rewrite delete_id by done. exists m, pm.
    rewrite delete_id in Hx by done. destruct H as [H1 H2 H3 H4 H5 H6 H7]. by split.
Qed.

Lemma get_row_ok t rows d k :
  table_rep t rows -> key_wf d -> encode_key d = Ok k ->
  wp (get_row d) t (fun t' r => keeps t rows t' /\ r = Ok (rows !! k)).
Proof.
  intros (m & pm & H) Hd He. pose proof (encode_key_u8 d k (proj1 Hd) He) as Hu. unfold get_row.
  apply (wp_lift _ k); [done|]. apply wp_bind. apply (wp_get k m); [apply H|done|].
  pose proof (rep_prev _ _ _ _ k H) as Hprev. destruct (rows !! k) as [row|] eqn:Er.
  - destruct Hprev as (o & Ho & Hso). rewrite Ho. destruct (r_rows _ _ _ _ H _ _ Er) as [Hwf _]. cbn [decode_opt].
    apply wp_bind. apply (wp_decode_stored t pm o row); [done|apply H|done|]. intros q Hq. apply wp_ret.
    split; [|done]. split; [done|]. exists m, pm. by apply rep_pool.
  - rewrite Hprev. apply wp_ret. split; [|done]. split; [done|]. by exists m, pm.
Qed.

(** ** Redo *)

Lemma apply_raw_ok t rows row k :
  table_rep t rows -> row_wf (sch t) row -> row_key (sch t) row = Some k ->
  wp (apply_raw k (encode_row row)) t (fun t' r =>
    (keeps t (<[k := row]> rows) t' /\ r = Ok ()) \/
    (keeps t rows t' /\ MAX_INLINE_ROW < Zlen (encode_row row) /\ exists e, r = Err e)).
Proof.
  intros (m & pm & H) Hr Hk. destruct (row_pk t row k Hr Hk) as (Hu & pk & Hpk & Hdk & _).
  unfold apply_raw. apply (wp_alloc _ t pm row); [done|apply H| |].
  2:{ intros p e Hp Hwide. right. split_and!; [split; [done|]|done|by exists e]. exists m, pm. by apply rep_pool. }
  intros p raw pm' Hp Ha. apply (wp_put_value _ (set_pool p t) m); [apply H|done|]. intros x Hx.
  apply (wp_free_opt _ t m pm rows k pm' (set_tree x (set_pool p t))); [done|by intros; eapply stored_as_alloc|done|done|].
  intros q Hq Hread. unfold apply_indexes. apply wp_gets. cbn [id t_indexes set_pool set_tree t_def].
  destruct (t_indexes t) as [|y0 l0] eqn:Ei.
  - apply wp_ret. left. split; [|done]. split; [done|]. eexists _, _.
    pose proof (rep_put t m pm rows k row raw pm' x q [] H Hr Hk Ha Hx Hq ltac:(constructor)) as Hrep.
    unfold set_indexes in Hrep. rewrite <- Ei in Hrep. exact Hrep.
  - rewrite Hdk, (decode_encode_row _ _ Hr). apply wp_bind. eapply wp_try_decode; [exact Hread|done|done|done|].
    intros q' Hq'. cbn beta. apply (wp_indexes rows (<[k := row]> rows)); [apply H| |].
    + intros y Hy. destruct (rows !! k) as [old|] eqn:Eold.
      * eapply index_move_redo_ok; try done; [apply H|by apply (old_row_pk t m pm rows k row pk old)].
      * apply ignore_err_ok. eapply index_put_ok; done.
    + intros l Hl. left. split; [|done]. split; [done|]. eexists _, _.
      eapply (rep_put t m pm rows k row raw pm' x q' l); done.
Qed.

Lemma remove_raw_ok t rows k :
  table_rep t rows -> Forall u8 k ->
  wp (remove_raw k) t (fun t' r => keeps t (delete k rows) t' /\ r = Ok ()).
Proof.
  intros (m & pm & H) Hu. unfold remove_raw. apply wp_bind.
  eapply (wp_tree _ t); [apply (tremove_ok _ m); [apply H|done]|]. intros x Hx.
  pose proof (rep_prev _ _ _ _ k H) as Hprev. destruct (rows !! k) as [row|] eqn:Er.
  - destruct Hprev as (o & Ho & Hso). rewrite Ho. destruct (r_rows _ _ _ _ H _ _ Er) as [Hwf Hrk].
    destruct (row_pk t row k Hwf Hrk) as (_ & pk & Hpk & Hdk & _).
    apply (wp_bind (free_value o)). apply (wp_free (set_tree x t) pm o row); [done|apply H|done|].
    intros q Hq Hread. apply wp_gets. cbn [id t_indexes set_pool set_tree t_def].
    destruct (t_indexes t) as [|y0 l0] eqn:Ei.
    + apply wp_ret. split; [|done]. split; [done|]. eexists _, _.
      pose proof (rep_drop t m pm rows k row x q [] H Er Hx ltac:(rewrite Ho; exact Hq) ltac:(constructor)) as Hrep.
      unfold set_indexes in Hrep. rewrite <- Ei in Hrep. exact Hrep.
    + rewrite Hdk. apply wp_bind. eapply (wp_try_decode t q (freed pm o) (Some o) (Some row)); [|done|done|done|].
      { intros t2 R Hq2 Hd2 HR. apply Hread; [done|by rewrite Hd2|done]. }
      intros q' Hq'. cbn beta iota. apply (wp_indexes rows (delete k rows)); [apply H| |].
      * intros y Hy. apply ignore_err_ok. eapply index_drop_ok; try done. apply H.
      * intros l Hl. split; [|done]. split; [done|]. eexists _, _.
        eapply (rep_drop t m pm rows k row x q' l); try done. by rewrite Ho.
  - rewrite Hprev. apply wp_ret. split; [|done]. split; [done|]. rewrite delete_id by done. exists m, pm.
    rewrite delete_id in Hx by done. destruct H as [H1 H2 H3 H4 H5 H6 H7]. by split.
Qed.

(** * Histories *)

Inductive TableOp : Type :=
| TInsert (row : list Datum)
| TUpsert (row : list Datum)
| TUpdate (row : list Datum)
| TDelete (d : Datum)
| TGet (d : Datum)
| TApply (k : bytes) (row : list Datum)
| TRemove (k : bytes).

Section histories.
Context (to_string : Datum -> bytes).

Abbreviation Answer := (res (option (list Datum))).

Definition table_call (o : TableOp) : TM (option (list Datum)) :=
  match o with
  | TInsert row => _ ← insert_row to_string row; mret None
  | TUpsert row => upsert_row row
  | TUpdate row => update_row row
  | TDelete d => delete_row d
  | TGet d => get_row d
  | TApply k row => _ ← apply_raw k (encode_row row); mret None
  | TRemove k => _ ← remove_raw k; mret None
  end.

(** Calls one after the other; an error does not stop the history. *)
Fixpoint table_calls (t : Tbl) (os : list TableOp) : out (Tbl * list Answer) :=
  match os with
  | [] => mret (t, [])
  | o :: os => '(t, a) ← table_call o t; '(t, l) ← table_calls t os; mret (t, a :: l)
  end.

(** The contract: a finite map from encoded primary keys to rows. *)
Definition row_call (s : Schema) (rows : Rows) (o : TableOp) : Rows * Answer :=
  let key row := default [] (row_key s row) in
  let keyd d := match encode_key d with Ok k => k | _ => [] end in
  match o with
  | TInsert row =>
    match rows !! key row with
    | Some _ => (rows, pk ← decode_key (key row); Err (DuplicateKey (to_string pk)))
    | None => (<[key row := row]> rows, Ok None)
    end
  | TUpsert row => (<[key row := row]> rows, Ok (rows !! key row))
  | TUpdate row =>
    (match rows !! key row with Some _ => <[key row := row]> rows | None => rows end, Ok (rows !! key row))
  | TDelete d => (delete (keyd d) rows, Ok (rows !! keyd d))
  | TGet d => (rows, Ok (rows !! keyd d))
  | TApply k row => (<[k := row]> rows, Ok None)
  | TRemove k => (delete k rows, Ok None)
  end.

Definition op_row (o : TableOp) : list Datum :=
  match o with TInsert row | TUpsert row | TUpdate row | TApply _ row => row | _ => [] end.

(** A wide row may also be refused by the pool, and then nothing changed. *)
Definition row_step (s : Schema) (rows : Rows) (o : TableOp) (rows' : Rows) (a : Answer) : Prop :=
  (rows', a) = row_call s rows o \/
  (rows' = rows /\ MAX_INLINE_ROW < Zlen (encode_row (op_row o)) /\ exists e, a = Err e).

Inductive row_steps (s : Schema) : Rows -> list TableOp -> Rows -> list Answer -> Prop :=
| steps_nil rows : row_steps s rows [] rows []
| steps_cons rows o os rows1 a rows2 l :
    row_step s rows o rows1 a -> row_steps s rows1 os rows2 l -> row_steps s rows (o :: os) rows2 (a :: l).

Definition op_wf (s : Schema) (o : TableOp) : Prop :=
  match o with
  | TInsert row | TUpsert row | TUpdate row => row_wf s row
  | TDelete d | TGet d => key_wf d
  | TApply k row => row_wf s row /\ row_key s row = Some k
  | TRemove k => Forall u8 k
  end.

Lemma wp_unit {A} (c : TM A) t (Q : Tbl -> Answer -> Prop) :
  wp c t (fun t' r => match r with Ok _ => Q t' (Ok None) | Err e => Q t' (Err e) | Panic => Q t' Panic end) ->
  wp (_ ← c; mret None) t Q.
Proof. intros H. apply wp_bind. eapply wp_mono; [exact H|]. by intros t' []. Qed.

Lemma table_call_ok t rows o :
  table_rep t rows -> op_wf (sch t) o ->
  wp (table_call o) t (fun t' a => exists rows', row_step (sch t) rows o rows' a /\ keeps t rows' t').
Proof.
  intros Ht Ho. destruct o as [row|row|row|d|d|k row|k]; cbn in Ho |- *.
  - destruct (row_wf_key _ _ Ho) as (k & Hk & _). apply wp_unit. eapply wp_mono; [by apply (insert_row_ok to_string t rows row k)|].
    cbn. unfold row_step, row_call. cbn. rewrite Hk. cbn. intros t' r Hr. destruct (rows !! k).
    + destruct Hr as (Hkeep & pk & Hd & ->). exists rows. split; [|done]. left. by rewrite Hd.
    + destruct Hr as [[Hkeep ->]|(Hkeep & Hw & e & ->)]; [exists (<[k := row]> rows)|exists rows]; (split; [|done]); [by left|right; eauto].
  - destruct (row_wf_key _ _ Ho) as (k & Hk & _). eapply wp_mono; [by apply (upsert_row_ok t rows row k)|].
    cbn. unfold row_step, row_call. cbn. rewrite Hk. cbn.
    intros t' r [[Hkeep ->]|(Hkeep & Hw & e & ->)]; eexists; (split; [|exact Hkeep]); [by left|right; eauto].
  - destruct (row_wf_key _ _ Ho) as (k & Hk & _). eapply wp_mono; [by apply (update_row_ok t rows row k)|].
    cbn. unfold row_step, row_call. cbn. rewrite Hk. cbn.
    intros t' r [[Hkeep ->]|(Hkeep & Hw & e & ->)]; eexists; (split; [|exact Hkeep]); [by left|right; eauto].
  - destruct (encode_key_Ok d Ho) as [k Hk]. eapply wp_mono; [by apply (delete_row_ok t rows d k)|].
    cbn. unfold row_step, row_call. cbn. rewrite Hk. intros t' r [Hkeep ->]. eexists. split; [|exact Hkeep]. by left.
  - destruct (encode_key_Ok d Ho) as [k Hk]. eapply wp_mono; [by apply (get_row_ok t rows d k)|].
    cbn. unfold row_step, row_call. cbn. rewrite Hk. intros t' r [Hkeep ->]. eexists. split; [|exact Hkeep]. by left.
  - destruct Ho as [Ho Hk]. apply wp_unit. eapply wp_mono; [by apply (apply_raw_ok t rows row k)|].
    intros t' r [[Hkeep ->]|(Hkeep & Hw & e & ->)]; eexists; (split; [|exact Hkeep]); [by left|right; eauto].
  - apply wp_unit. eapply wp_mono; [by apply (remove_raw_ok t rows k)|].
    intros t' r [Hkeep ->]. eexists. split; [|exact Hkeep]. by left.
Qed.

Lemma table_calls_ok t rows os :
  table_rep t rows -> Forall (op_wf (sch t)) os ->
  (table_calls t os = Fuel /\ may_hang) \/
  exists t' rows' l, table_calls t os = Ret (t', l) /\ row_steps (sch t) rows os rows' l /\ keeps t rows' t'.
Proof.
  intros Ht Ho. revert t rows Ht Ho. induction os as [|o os IH]; intros t rows Ht Ho.
  - right. exists t, rows, []. split_and!; [done|constructor|done].
  - apply Forall_cons in Ho as [Ho Hos]. pose proof (table_call_ok t rows o Ht Ho) as Hw. cbn [table_calls].
    unfold wp in Hw. destruct (table_call o t) as [[t1 a]| |]; [|done|by left]. destruct Hw as (rows1 & Hs & Hd & Hk).
    cbn [mbind out_bind]. destruct (IH t1 rows1 Hk ltac:(by rewrite Hd)) as [[-> ?]|(t2 & rows2 & l & -> & Hss & Hd2 & Hk2)]; [by left|].
    right. exists t2, rows2, (a :: l). cbn. split_and!; [done| |split; [congruence|done]].
    econstructor; [exact Hs|]. by rewrite Hd in Hss.
Qed.

End histories.

End spec.
