(* ===== verification/TableScan.v ===== *)
(** Scans of a table and of its secondary indexes, and building an index:
    what they return in terms of the rows the table holds. *)
From stdpp Require Import base list gmap strings sorting.
From Stdlib Require Import ZArith Lia.
From S2P Require Import Prelude Machine Types DateTime TableDef BTree BTreeRep BTreeScan BTreeSpec Page Kv Table TableSpec.

(** * Values of one indexed column *)

(** Two values of one column: same kind, or NULL. *)
Definition like (a b : Datum) : bool :=
  same_kind a b || bool_decide (a = Null) || bool_decide (b = Null).

(** The bytes a value contributes to its index entries. *)
Definition pfx (d : Datum) : bytes := match encode_sec_key_prefix d with Ok k => k | _ => [] end.

Lemma pfx_Ok d : encode_sec_key_prefix d = Ok (pfx d).
Proof. unfold pfx. by destruct (encode_sec_prefix_Ok d) as [k ->]. Qed.

Lemma like_order a b p q :
  sec_wf a -> sec_wf b -> like a b = true ->
  lex (pfx a ++ p) (pfx b ++ q) = match cmp a b with Eq => lex p q | c => c end.
Proof.
  intros Ha Hb Hl. destruct (same_kind a b) eqn:Es; [by apply sec_prefix_order; rewrite ?pfx_Ok|].
  unfold like in Hl. rewrite Es in Hl. cbn in Hl. apply orb_true_iff in Hl as [H|H]; apply bool_decide_eq_true in H; subst.
  - by destruct b.
  - by destruct a.
Qed.

Lemma like_cmp a b : sec_wf a -> sec_wf b -> like a b = true -> cmp a b = lex (pfx a) (pfx b).
Proof.
  intros Ha Hb Hl. rewrite <- (app_nil_r (pfx a)), <- (app_nil_r (pfx b)), like_order by done. by destruct (cmp a b).
Qed.

(** Bounds whose values are values of the column. *)
Definition bound_ok (vals : Datum -> Prop) (b : option (Datum * bool)) : Prop :=
  match b with Some (d, _) => sec_wf d /\ forall v, vals v -> like v d = true | None => True end.

Lemma kle_trans_lt a b c : kle a b -> klt b c -> klt a c.
Proof. intros [?| ->] ?; [by etrans|done]. Qed.

(** Above the upper bound, every larger value is. *)
Lemma above_hi_mono vals hi a b :
  bound_ok vals hi -> vals a -> vals b -> sec_wf a -> sec_wf b -> kle (pfx a) (pfx b) ->
  above_hi hi a = true -> above_hi hi b = true.
Proof.
  intros Hb Va Vb Wa Wb Hle. destruct hi as [[d i]|]; [|done]. cbn in Hb. destruct Hb as [Wd Hl].
  cbn. rewrite (like_cmp a d), (like_cmp b d) by auto. unfold kle, klt in Hle.
  destruct Hle as [Hlt| ->]; [|done]. destruct i.
  - destruct (lex (pfx a) (pfx d)) eqn:E; try done. intros _.
    assert (lex (pfx d) (pfx b) = Lt) as Hdb.
    { eapply lex_lt_trans; [|exact Hlt]. by rewrite lex_antisym, E. }
    rewrite lex_antisym, Hdb. done.
  - destruct (lex (pfx a) (pfx d)) eqn:E; try done; intros _.
    + apply lex_eq in E. rewrite <- E, (lex_antisym (pfx a)), Hlt. done.
    + assert (lex (pfx d) (pfx b) = Lt) as Hdb.
      { eapply lex_lt_trans; [|exact Hlt]. by rewrite lex_antisym, E. }
      rewrite lex_antisym, Hdb. done.
Qed.

(** The range starts at the entries of the lower bound's value, so what it
    leaves out is below. *)
Lemma skipped_below lo a pk b :
  bound_ok (fun v => v = a) (Some (lo, b)) -> sec_wf a -> pk <> [] -> klt (pfx a ++ pk) (pfx lo) -> below_lo (Some (lo, b)) a = true.
Proof.
  intros [Wd Hl] Wa Hpk H. unfold klt in H. rewrite <- (app_nil_r (pfx lo)), like_order in H by (done || by apply Hl).
  cbn. destruct (cmp a lo); try done; [|by destruct b]. destruct pk; done.
Qed.

Definition pkb (d : Datum) : bytes := match encode_key d with Ok k => k | _ => [] end.

Definition wanted (lo hi : option (Datum * bool)) (e : Datum * Datum) : bool :=
  negb (below_lo lo e.1) && negb (above_hi hi e.1).

(** The order of an index: by value, then by primary key bytes. *)
Definition index_lt (a b : Datum * Datum) : Prop :=
  cmp a.1 b.1 = Lt \/ (cmp a.1 b.1 = Eq /\ klt (pkb a.2) (pkb b.2)).

(** The pair an index entry stands for. *)
Definition entry_pair (k : bytes) : Datum * Datum :=
  match decode_sec_index_key k with Ok e => e | _ => (Null, Null) end.

Record pair_ok (vals : Datum -> Prop) (k : bytes) (e : Datum * Datum) : Prop := {
  po_key : k = pfx e.1 ++ pkb e.2;
  po_decode : decode_sec_index_key k = Ok e;
  po_val : vals e.1;
  po_wf : sec_wf e.1;
  po_pk : pkb e.2 <> [];
}.

Lemma pair_order vals ka kb a b :
  pair_ok vals ka a -> pair_ok vals kb b -> like a.1 b.1 = true -> klt ka kb -> index_lt a b /\ kle (pfx a.1) (pfx b.1).
Proof.
  intros [-> _ _ Wa _] [-> _ _ Wb _] Hl H. unfold klt in H. rewrite like_order in H by done. unfold index_lt, kle, klt.
  rewrite <- (like_cmp a.1 b.1) by done. destruct (cmp a.1 b.1) eqn:E; [|by auto|done].
  split; [by right|right]. rewrite like_cmp in E by done. by apply lex_eq.
Qed.

(** The pairs of a list of index entries. *)
Definition pairs (l : list (bytes * bytes)) : list (Datum * Datum) := (fun x => entry_pair x.1) <$> l.
Definition pairs_ok (vals : Datum -> Prop) (l : list (bytes * bytes)) : Prop :=
  Forall (fun x => pair_ok vals x.1 (entry_pair x.1)) l.

Lemma sec_loop_ok vals lo hi (l : list (bytes * bytes)) :
  pairs_ok vals l -> StronglySorted (fun a b => kle (pfx a.1) (pfx b.1)) (pairs l) ->
  bound_ok vals hi -> sec_loop lo hi l = Ok (List.filter (wanted lo hi) (pairs l)).*2.
Proof.
  intros H Hs Hb. induction H as [|[k x] l [_ Hd Hv Hw _] Hl IH]; [done|]. cbn [fst] in Hd, Hv, Hw.
  change (pairs ((k, x) :: l)) with (entry_pair k :: pairs l) in *. apply StronglySorted_inv in Hs as [Hs Hall].
  specialize (IH Hs). destruct (entry_pair k) as [v pk]. cbn [fst] in Hv, Hw. cbn [sec_loop]. rewrite Hd. cbn [mbind res_bind].
  cbn [List.filter]. change (wanted lo hi (v, pk)) with (negb (below_lo lo v) && negb (above_hi hi v)).
  destruct (below_lo lo v) eqn:El; [exact IH|]. destruct (above_hi hi v) eqn:Eh; cbn [negb andb].
  - assert (List.filter (wanted lo hi) (pairs l) = []) as ->; [|done]. clear IH Hs.
    revert Hall. induction Hl as [|y l He _ IH]; intros Hall; [done|].
    change (pairs (y :: l)) with (entry_pair y.1 :: pairs l) in *. apply Forall_cons in Hall as [He1 Hall].
    destruct He as [_ _ Hve Hwe _]. cbn [List.filter].
    assert (wanted lo hi (entry_pair y.1) = false) as ->; [|by apply IH]. unfold wanted.
    by rewrite (above_hi_mono vals hi v _ Hb Hv Hve Hw Hwe He1 Eh), andb_false_r.
  - rewrite IH. done.
Qed.

Lemma pairs_sorted vals l :
  (forall v w, vals v -> vals w -> like v w = true) -> pairs_ok vals l -> StronglySorted klt l.*1 ->
  StronglySorted (fun a b => index_lt a b /\ kle (pfx a.1) (pfx b.1)) (pairs l).
Proof.
  intros Hlike H. induction H as [|y l Hy Hl IH]; intros Hs; [constructor|].
  change ((y :: l).*1) with (y.1 :: l.*1) in Hs. apply StronglySorted_inv in Hs as [Hs Hall].
  constructor; [by apply IH|]. apply Forall_fmap. rewrite Forall_fmap in Hall. unfold pairs_ok in Hl.
  rewrite Forall_forall in Hall, Hl |- *. intros z Hz. apply (pair_order vals y.1 z.1); [done|by apply Hl| |by apply Hall].
  apply Hlike; [apply Hy|by apply (po_val _ _ _ (Hl z Hz))].
Qed.

Section scans.
Context {T P : Type} {KT : KvTree T} {HT : KvTreeOk T} {KP : Pool P} {HP : PoolOk P}.

Abbreviation Tbl := (@Table T P).
Abbreviation sch t := (td_schema (t_def t)).

(** The value and the primary key of a row, as the index on [col] sees it. *)
Definition row_pair (s : Schema) (col : Z) (row : list Datum) (e : Datum * Datum) : Prop :=
  row !! Z.to_nat col = Some e.1 /\ row !! Z.to_nat (pk_idx s) = Some e.2.

Definition column_value (s : Schema) (col : Z) (rows : Rows) (v : Datum) : Prop :=
  exists k row, rows !! k = Some row /\ row !! Z.to_nat col = Some v.

Lemma row_entry_pair s col row k :
  row_wf s row -> row_entry s col row = Some k ->
  exists e, row_pair s col row e /\ k = pfx e.1 ++ pkb e.2 /\ decode_sec_index_key k = Ok e /\ sec_wf e.1 /\ pkb e.2 <> [].
Proof.
  intros Hr. unfold row_entry. destruct (row !! Z.to_nat col) as [v|] eqn:Ev; [|done].
  destruct (rw_pk s row Hr) as (pk & Epk & Hpk). rewrite Epk.
  destruct (encode_sec_index_key v pk) as [k'| |] eqn:Ek; [|done|done]. intros [= ->].
  assert (sec_wf v) as Hv by (eapply Forall_lookup_1; [apply Hr|done]).
  exists (v, pk). cbn. split_and!; [done| |by apply decode_encode_sec_index_key|done|].
  - unfold encode_sec_index_key in Ek. rewrite pfx_Ok in Ek. cbn in Ek. unfold pkb.
    destruct (encode_key pk); cbn in Ek; try done. by injection Ek as <-.
  - unfold pkb. destruct Hpk as [_ Hpk]. destruct pk; done.
Qed.

(** The entries of an index, in order, are the pairs of the rows. *)
Lemma index_pairs s col rows (l : list (bytes * bytes)) :
  rows_wf s rows -> idx_map s col rows (to_map l) -> StronglySorted klt l.*1 ->
  pairs_ok (column_value s col rows) l /\
  (forall e, e ∈ pairs l <-> exists k row, rows !! k = Some row /\ row_pair s col row e).
Proof.
  intros Hw Hi Hs. assert (Hnd : NoDup l.*1) by by apply (sorted_nodup klt).
  assert (Hin : forall x, x ∈ l -> exists k row e, rows !! k = Some row /\ row_entry s col row = Some x.1 /\
             row_pair s col row e /\ entry_pair x.1 = e /\ pair_ok (column_value s col rows) x.1 e).
  { intros [x v] Hx. assert (to_map l !! x = Some v) as Hlk by by apply elem_of_list_to_map_1.
    apply Hi in Hlk as (-> & k & row & Hk & He). destruct (Hw _ _ Hk) as [Hr _].
    destruct (row_entry_pair s col row x Hr He) as (e & Hp & Hkey & Hd & Hwf & Hne). exists k, row, e. cbn.
    split_and!; try done; [unfold entry_pair; by rewrite Hd|]. split; try done. exists k, row. split; [done|apply Hp]. }
  split.
  - apply Forall_forall. intros x Hx. destruct (Hin x Hx) as (k & row & e & _ & _ & _ & -> & He). done.
  - intros e. unfold pairs. rewrite list_elem_of_fmap. split.
    + intros (x & -> & Hx). destruct (Hin x Hx) as (k & row & e & Hk & _ & Hp & <- & _). by exists k, row.
    + intros (k & row & Hk & Hp). destruct (Hw _ _ Hk) as [Hr _]. destruct Hp as [Hp1 Hp2].
      destruct (rw_pk s row Hr) as (pk & Epk & Hpk). rewrite Hp2 in Epk. injection Epk as <-.
      destruct (encode_sec_Ok e.1 e.2 Hpk) as [x Hx].
      assert (row_entry s col row = Some x) as Hre by (unfold row_entry; by rewrite Hp1, Hp2, Hx).
      assert (to_map l !! x = Some []) as Hlk by (apply Hi; split; [done|]; by exists k, row).
      exists (x, []). split; [|by apply elem_of_list_to_map_2].
      cbn. destruct (row_entry_pair s col row x Hr Hre) as (e' & [Hq1 Hq2] & _ & Hd & _). unfold entry_pair. rewrite Hd.
      destruct e, e'. cbn in *. congruence.
Qed.

Lemma filter_twice {A} (f g : A -> bool) l :
  (forall x, x ∈ l -> g x = false -> f x = false) -> List.filter f (List.filter g l) = List.filter f l.
Proof.
  induction l as [|x l IH]; intros H; [done|]. cbn. destruct (g x) eqn:E; cbn; rewrite IH by (intros; apply H; set_solver || done); [done|].
  rewrite (H x); [done|set_solver|done].
Qed.

Lemma filter_fmap {A B} (f : A -> B) (g : B -> bool) l :
  List.filter g (f <$> l) = f <$> List.filter (fun x => g (f x)) l.
Proof. induction l as [|x l IH]; [done|]. cbn. rewrite IH. by destruct (g (f x)). Qed.

Lemma scan_secondary_ok (t : Tbl) rows col lo hi x :
  table_rep t rows -> List.find (fun x => si_col_idx x =? col) (t_indexes t) = Some x ->
  bound_ok (column_value (sch t) col rows) lo -> bound_ok (column_value (sch t) col rows) hi ->
  (forall v w, column_value (sch t) col rows v -> column_value (sch t) col rows w -> like v w = true) ->
  exists es, scan_secondary col lo hi t = Ret (t, Ok (Some es.*2)) /\ StronglySorted index_lt es /\
    forall e, e ∈ es <-> wanted lo hi e = true /\ exists k row, rows !! k = Some row /\ row_pair (sch t) col row e.
Proof.
  intros (m & pm & H) Hf Hlo Hhi Hlike. unfold scan_secondary. rewrite Hf.
  pose proof (find_some _ _ Hf) as [Hin Hcol%Z.eqb_eq]. subst col.
  assert (index_rep (sch t) rows x) as (Hc & im & Hst & Hi).
  { pose proof (r_index _ _ _ _ H) as Hall. rewrite Forall_forall in Hall. by apply Hall, list_elem_of_In. }
  set (lok := match lo with Some (d, _) => Some (pfx d) | None => None end).
  assert (opt_key encode_sec_key_prefix lo = Ok lok) as ->.
  { destruct lo as [[d i]|]; cbn; [by rewrite pfx_Ok|done]. }
  destruct (trange_ok (si_tree x) im lok true None true Hst) as (l & -> & Hs & <-).
  { destruct lo as [[d i]|]; cbn; [|done]. destruct Hlo as [[Hd _] _]. by apply (sec_prefix_u8 d); [|apply pfx_Ok]. }
  cbn [mbind out_bind]. destruct (index_pairs _ _ _ l (r_rows _ _ _ _ H) Hi Hs) as [Hpairs Hmem].
  set (vals := column_value (sch t) (si_col_idx x) rows) in *.
  set (kept := List.filter (fun e => in_range lok true None true e.1) l).
  assert (Hpk : pairs_ok vals kept).
  { apply Forall_forall. intros y Hy. unfold pairs_ok in Hpairs. rewrite Forall_forall in Hpairs. apply Hpairs.
    rewrite list_elem_of_In in Hy |- *. by apply filter_In in Hy as [? _]. }
  assert (Hsk : StronglySorted klt kept.*1).
  { unfold kept. rewrite (fmap_filter_fst (in_range lok true None true)). by apply sorted_filter. }
  rewrite (sec_loop_ok vals lo hi kept); [|done| |done].
  2:{ eapply sorted_weaken; [|by apply (pairs_sorted vals)]. by intros ? ? [? ?]. }
  assert (Heq : List.filter (wanted lo hi) (pairs kept) = List.filter (wanted lo hi) (pairs l)).
  { unfold pairs. rewrite !filter_fmap. f_equal. apply filter_twice. intros y Hy Hout.
    unfold pairs_ok in Hpairs. rewrite Forall_forall in Hpairs. destruct (Hpairs y Hy) as [Hkey Hd Hv Hwf Hne].
    unfold lok in Hout. destruct lo as [[d i]|]; [|done].
    unfold wanted. rewrite (skipped_below d _ (pkb (entry_pair y.1).2) i); [done| |done|done|].
    - destruct Hlo as [Wd Hl]. split; [done|]. intros w ->. by apply Hl.
    - rewrite <- Hkey. unfold in_range in Hout. rewrite andb_true_r, andb_false_r, orb_false_r in Hout.
      apply negb_false_iff in Hout. by destruct (blt_spec y.1 (pfx d)). }
  rewrite Heq. eexists. split; [done|]. split.
  - apply sorted_filter. eapply sorted_weaken; [|by apply (pairs_sorted vals)]. by intros ? ? [? ?].
  - intros e. rewrite list_elem_of_In, filter_In, <- list_elem_of_In, Hmem. tauto.
Qed.

(** * Scanning the rows *)

(** The rows in key order. *)
Definition key_rows (rows : Rows) (l : list (bytes * list Datum)) : Prop :=
  StronglySorted klt l.*1 /\ (list_to_map l : Rows) = rows.

Definition key_value (k : bytes) : Datum := match decode_key k with Ok d => d | _ => Null end.

Abbreviation keyed l := ((fun e => (key_value e.1, e.2)) <$> l).

Lemma wp_decode_pairs (t : Tbl) m pm rows kvs (Q : Tbl -> res (list (Datum * list Datum)) -> Prop) :
  rep t m pm rows -> (forall k v, (k, v) ∈ kvs -> m !! k = Some v) ->
  (forall q l, pool_rep q pm -> l.*1 = kvs.*1 -> (forall k row, (k, row) ∈ l -> rows !! k = Some row) ->
     Q (set_pool q t) (Ok (keyed l))) ->
  wp (decode_pairs kvs) t Q.
Proof.
  intros H Hin. revert t H Q. induction kvs as [|[k v] kvs IH]; intros t H Q HQ; cbn [decode_pairs].
  - apply wp_ret. specialize (HQ (t_pool t) [] (r_pool _ _ _ _ H) eq_refl). destruct t. apply HQ. set_solver.
  - assert (Hk : m !! k = Some v) by (apply Hin; left).
    destruct (rows !! k) as [row|] eqn:Er; [|by rewrite (r_none _ _ _ _ H k Er) in Hk].
    destruct (r_some _ _ _ _ H _ _ Er) as (raw & Hm & Hs). rewrite Hk in Hm. injection Hm as <-.
    destruct (r_rows _ _ _ _ H _ _ Er) as [Hwf Hrk]. destruct (row_pk t row k Hwf Hrk) as (_ & pk & _ & Hd & _).
    apply (wp_lift _ pk); [done|]. apply wp_bind. apply (wp_decode_stored t pm v row); [done|apply H|done|].
    intros p Hp. apply wp_bind. apply (IH ltac:(intros; apply Hin; by right) (set_pool p t)); [by apply (rep_pool t m pm rows p)|].
    intros q l Hq Hl Hlr. apply wp_ret.
    assert (Hpk : pk = key_value k) by (unfold key_value; by rewrite Hd). rewrite Hpk.
    apply (HQ q ((k, row) :: l) Hq); [cbn; by rewrite Hl|]. intros k' row' [[= -> ->]|?]%elem_of_cons; [done|by apply Hlr].
Qed.

Lemma to_map_elem (l : list (bytes * bytes)) k v : StronglySorted klt l.*1 -> (k, v) ∈ l <-> to_map l !! k = Some v.
Proof. intros Hs. unfold to_map. apply elem_of_list_to_map. by apply (sorted_nodup klt). Qed.

Lemma scan_ok (t : Tbl) rows :
  table_rep t rows ->
  wp scan t (fun t' r => keeps t rows t' /\ t_indexes t' = t_indexes t /\ exists l, r = Ok (keyed l) /\ key_rows rows l).
Proof.
  intros (m & pm & H). unfold scan. apply wp_bind.
  destruct (trange_ok (t_tree t) m None true None true (r_tree _ _ _ _ H) I) as (kvs & Hr & Hs & Hm).
  rewrite filter_id in Hr by (apply Forall_forall; done).
  unfold wp at 1, tree_range, on_tree. rewrite Hr. cbn [mbind out_bind mret out_ret].
  replace (set_tree (t_tree t) t) with t by by destruct t.
  apply (wp_decode_pairs t m pm rows); [done|intros k v Hin; rewrite <- Hm; by apply to_map_elem|].
  intros q l Hq Hl Hlr. split; [split; [done|]; exists m, pm; by apply rep_pool|]. split; [done|]. exists l. split; [done|].
  assert (Hnd : StronglySorted klt l.*1) by by rewrite Hl. split; [done|]. apply map_eq. intros k.
  destruct ((list_to_map l : Rows) !! k) as [row|] eqn:E.
  - apply elem_of_list_to_map_2 in E. symmetry. by apply Hlr.
  - destruct (rows !! k) as [row|] eqn:Er; [|done]. destruct (r_some _ _ _ _ H _ _ Er) as (raw & Hk & _).
    rewrite <- Hm in Hk. apply to_map_elem in Hk; [|done]. apply not_elem_of_list_to_map_2 in E. destruct E.
    rewrite Hl. apply list_elem_of_fmap. by exists (k, raw).
Qed.

(** * Building an index *)

Lemma build_index_ok s col l rows0 tr im :
  0 <= col < Zlen (columns s) -> stored tr im -> idx_map s col rows0 im -> rows_wf s rows0 -> NoDup l.*1 ->
  (forall k row, (k, row) ∈ l -> rows0 !! k = None /\ row_wf s row /\ row_key s row = Some k) ->
  returns may_hang (build_index s col (keyed l) tr) (Ok ())
    (fun tr => exists im, stored tr im /\ idx_map s col (list_to_map l ∪ rows0) im).
Proof.
  intros Hc. revert rows0 tr im. induction l as [|[k row] l IH]; intros rows0 tr im Hst Hi Hw Hnd Hl.
  - right. exists tr. split; [done|]. exists im. cbn. by rewrite (left_id_L ∅ (∪)).
  - destruct (Hl k row ltac:(left)) as (Hn & Hr & Hk). cbn [fmap list_fmap build_index fst snd].
    destruct (row_wf_key s row Hr) as (_ & _ & _ & pk & Hpk & _).
    destruct (row_entry_ok s col row pk Hr Hc Hpk) as (v & e & Hv & _ & He & Hre & Hu).
    rewrite Hv. cbn [mbind res_bind]. rewrite Hpk. cbn [mbind res_bind]. rewrite He.
    destruct (tinsert_ok tr im e [] Hst Hu) as [[-> ?]|(tr' & -> & Htr')]; [by left|]. cbn [mbind out_bind].
    rewrite (idx_absent s col rows0 im k row e) in Htr' by done. cbn in Hnd. apply NoDup_cons in Hnd as [Hni Hnd].
    destruct (IH (<[k := row]> rows0) tr' (<[e := []]> im)) as [[Hb ?]|(tr2 & Hb & im2 & Hst2 & Hi2)]; try done.
    + by apply idx_add.
    + by apply rows_wf_insert.
    + intros k' row' Hin. destruct (Hl k' row' ltac:(by right)) as (Hn' & ? & ?). split; [|done].
      rewrite lookup_insert_ne; [done|]. intros <-. destruct Hni. apply list_elem_of_fmap. by exists (k, row').
    + left. by split.
    + right. exists tr2. split; [exact Hb|]. exists im2. split; [done|]. cbn [list_to_map foldr uncurry fst snd].
      rewrite <- insert_union_l. rewrite <- insert_union_r in Hi2; [exact Hi2|]. by apply not_elem_of_list_to_map_1.
Qed.

Lemma position_range {A} (f : A -> bool) l i j : position f l i = Some j -> i <= j < i + Zlen l.
Proof.
  revert i. induction l as [|x l IH]; intros i; cbn; [done|]. destruct (f x); [intros [= ->]; lia|]. intros Hj%IH. lia.
Qed.

(** What CREATE INDEX answers. *)
Definition add_index_answer (t : Tbl) (name column : bytes) : res () :=
  match index_of (sch t) column with
  | None => Err (ColumnNotFound column)
  | Some c =>
    if c =? pk_idx (sch t) then Err (InvalidSchema (str "cannot create secondary index on primary key"))
    else if existsb (fun x => bool_decide (idx_name (si_def x) = name)) (t_indexes t) then Err (IndexExists name)
    else Ok ()
  end.

Lemma add_index_ok (t : Tbl) rows name column :
  table_rep t rows ->
  wp (add_index name column) t (fun t' r => r = add_index_answer t name column /\ keeps t rows t' /\
    secondary_indexes t' = secondary_indexes t ++ match r with Ok _ => [mkIndexDef name column] | _ => [] end).
Proof.
  intros Ht. unfold add_index. apply wp_gets. cbn [id]. unfold add_index_answer.
  assert (Hsame : forall e, @Err () e = Err e /\ keeps t rows t /\ secondary_indexes t = secondary_indexes t ++ []).
  { intros e. rewrite app_nil_r. by split_and!. }
  destruct (index_of (sch t) column) as [c|] eqn:Ec; [|exact (Hsame _)].
  destruct (c =? pk_idx (sch t)); [exact (Hsame _)|]. destruct (existsb _ _); [exact (Hsame _)|].
  unfold index_of in Ec. apply position_range in Ec. apply wp_bind. eapply wp_mono; [by apply scan_ok|]. cbn beta.
  intros t1 r ([Hd (m & pm & H)] & Hi & l & -> & Hs & Hl). cbn iota beta.
  destruct (build_index_ok (sch t) c l ∅ tnew ∅) as [[Hb Hh]|(tr & Hb & im & Hst & Him)].
  - lia.
  - apply stored_new.
  - apply idx_map_empty.
  - intros k row Hx. by rewrite lookup_empty in Hx.
  - by apply (sorted_nodup klt).
  - intros k row Hin. rewrite lookup_empty. split; [done|]. rewrite <- Hd. apply (r_rows _ _ _ _ H). rewrite <- Hl.
    by apply elem_of_list_to_map_1; [apply (sorted_nodup klt)|].
  - apply wp_bind. unfold wp at 1, fresh_index. by rewrite Hb.
  - apply wp_bind. unfold wp at 1, fresh_index. rewrite Hb. unfold wp, modify. rewrite (right_id_L ∅ (∪)), Hl in Him.
    split; [done|]. split.
    + split; [done|]. exists m, pm. destruct H as [H1 H2 H3 H4 H5 H6 H7]. split; try done. cbn. rewrite Hd in *.
      apply Forall_app. split; [done|]. constructor; [|done]. split; [cbn; lia|]. by exists im.
    + unfold secondary_indexes. cbn. by rewrite fmap_app, Hi.
Qed.

Lemma drop_index_ok (t : Tbl) rows name :
  table_rep t rows ->
  wp (drop_index name) t (fun t' r => keeps t rows t' /\
    match position (fun x => bool_decide (idx_name (si_def x) = name)) (t_indexes t) 0 with
    | None => r = Err (IndexNotFound name) /\ t' = t
    | Some p => r = Ok () /\ secondary_indexes t' = vremove (Z.to_nat p) (secondary_indexes t)
    end).
Proof.
  intros (m & pm & H). unfold drop_index. apply wp_gets. cbn [id].
  destruct (position _ (t_indexes t) 0) as [p|]; [|split; [split; [done|by exists m, pm]|done]].
  unfold wp, modify. split.
  - split; [done|]. exists m, pm. destruct H as [H1 H2 H3 H4 H5 H6 H7]. split; try done. cbn. unfold vremove.
    apply Forall_app. split; [by apply Forall_take|by apply Forall_drop].
  - split; [done|]. unfold secondary_indexes, vremove. cbn. by rewrite fmap_app, fmap_take, fmap_drop.
Qed.

Lemma table_new_rep d : table_rep (T := T) (P := P) (table_new d) ∅.
Proof.
  exists ∅, ∅. split; cbn; try done.
  - apply stored_new.
  - apply Forall_forall. intros x Hx. apply list_elem_of_omap in Hx as (i & _ & Hx).
    destruct (index_of _ _) as [c|] eqn:Ec; [|done]. injection Hx as <-. unfold index_of in Ec. apply position_range in Ec.
    split; [cbn; lia|]. exists ∅. split; [apply stored_new|apply idx_map_empty].
Qed.

End scans.

(** * Properties *)

(** A table of two integer columns with an index on the second one. *)
Definition demo_schema : Schema :=
  mkSchema [mkColumnDef (str "id") CInt false false None; mkColumnDef (str "age") CInt false false None] 0.
Definition demo_def : TableDef := mkTableDef (str "db.users") demo_schema [mkIndexDef (str "by_age") (str "age")] [] None.
Definition demo_row (id age : Z) : list Datum := [Int id; Int age].
Definition demo_table : @Table BTree RefPool := set_pool (Some ref_pool) (table_new demo_def).

Lemma demo_row_wf id age : i64 id -> i64 age -> row_wf demo_schema (demo_row id age).
Proof.
  intros Hi Ha. split; [done| | |].
  - repeat constructor; apply Hi || apply Ha.
  - exists (Int id). split; [done|]. split; [exact Hi|done].
  - unfold encode_row. cbn [fmap list_fmap demo_row mjoin list_join]. rewrite !length_app. cbn [encode length].
    rewrite !length_to_le. unfold MAX_VALUE_LEN. lia.
Qed.

Lemma demo_table_rep : table_rep demo_table ∅.
Proof.
  destruct (table_new_rep (T := BTree) (P := RefPool) demo_def) as (m & pm & H). exists m, ∅.
  destruct H as [H1 H2 H3 H4 H5 H6 H7]. split; try done.
  cbn. split; [done|]. split; [done|]. intros l [? Hl]. by rewrite lookup_empty in Hl.
Qed.

(** C10: A table is a finite map from primary keys to rows: every sequence of
    inserts, upserts, updates, deletes, lookups and redo writes answers as the
    map does and keeps one entry per row in every secondary index, wide rows
    included; only a wide row the page pool refuses is reported as an error,
    and it changes nothing.  Nothing panics, and a call fails to return only
    where a call on the tree does. *)
Theorem table_refines_rows {T P : Type} {KT : KvTree T} {HT : KvTreeOk T} {KP : Pool P} {HP : PoolOk P} (to_string : Datum -> bytes) (t : @Table T P) rows os :
  table_rep t rows -> Forall (op_wf (td_schema (t_def t))) os ->
  (table_calls to_string t os = Fuel /\ may_hang) \/
  exists t' rows' l, table_calls to_string t os = Ret (t', l) /\
    row_steps to_string (td_schema (t_def t)) rows os rows' l /\ keeps t rows' t'.
Proof. apply table_calls_ok. Qed.

Definition demo_table_ops : list TableOp :=
  [TInsert (demo_row 1 30); TUpsert (demo_row 2 25); TInsert (demo_row 1 31); TUpdate (demo_row 1 25); TDelete (Int 2); TGet (Int 1)].

Lemma table_refines_rows_witness :
  (table_calls encode demo_table demo_table_ops = Fuel /\ True) \/
  exists t' rows' l, table_calls encode demo_table demo_table_ops = Ret (t', l) /\
    row_steps encode demo_schema ∅ demo_table_ops rows' l /\ keeps demo_table rows' t'.
Proof.
  apply (table_refines_rows encode demo_table ∅ demo_table_ops demo_table_rep).
  unfold demo_table_ops. rewrite !Forall_cons. cbn [op_wf].
  split_and!; try (apply demo_row_wf; split; discriminate || reflexivity); try done; split; discriminate || reflexivity.
Defined.

(** A secondary-index scan returns exactly the primary keys of the rows whose
    indexed value is within the bounds, in the order of the value and then of
    the primary key, when the column's values and the bounds are of one kind
    (or NULL). *)
Theorem scan_secondary_spec {T P : Type} {KT : KvTree T} {HT : KvTreeOk T} {KP : Pool P} {HP : PoolOk P} (t : @Table T P) rows col lo hi x :
  table_rep t rows -> List.find (fun x => si_col_idx x =? col) (t_indexes t) = Some x ->
  bound_ok (column_value (td_schema (t_def t)) col rows) lo -> bound_ok (column_value (td_schema (t_def t)) col rows) hi ->
  (forall v w, column_value (td_schema (t_def t)) col rows v -> column_value (td_schema (t_def t)) col rows w -> like v w = true) ->
  exists es, scan_secondary col lo hi t = Ret (t, Ok (Some es.*2)) /\ StronglySorted index_lt es /\
    forall e, e ∈ es <-> wanted lo hi e = true /\
      exists k row, rows !! k = Some row /\ row_pair (td_schema (t_def t)) col row e.
Proof. intros H1 H2 H3 H4 H5. by apply (scan_secondary_ok t rows col lo hi x). Qed.

Lemma scan_secondary_spec_witness :
  exists es, scan_secondary 1 (Some (Int 18, true)) None demo_table = Ret (demo_table, Ok (Some es.*2)) /\
    StronglySorted index_lt es /\
    forall e, e ∈ es <-> wanted (Some (Int 18, true)) None e = true /\
      exists k row, (∅ : Rows) !! k = Some row /\ row_pair demo_schema 1 row e.
Proof.
  apply (scan_secondary_spec demo_table ∅ 1 (Some (Int 18, true)) None (mkSec (mkIndexDef (str "by_age") (str "age")) 1 btree_new)).
  - exact demo_table_rep.
  - reflexivity.
  - split; [split; [split; discriminate || reflexivity|exact I]|]. intros v (k & row & Hr & _). by rewrite lookup_empty in Hr.
  - exact I.
  - intros v w (k & row & Hr & _). by rewrite lookup_empty in Hr.
Defined.

(** CREATE INDEX refuses an unknown column, the primary key and a name in
    use, and otherwise adds an index that holds exactly one entry per row of
    the table; the rows and the other indexes stay as they are. *)
Theorem create_index_spec {T P : Type} {KT : KvTree T} {HT : KvTreeOk T} {KP : Pool P} {HP : PoolOk P} (t : @Table T P) rows name column :
  table_rep t rows ->
  wp (add_index name column) t (fun t' r => r = add_index_answer t name column /\ keeps t rows t' /\
    secondary_indexes t' = secondary_indexes t ++ match r with Ok _ => [mkIndexDef name column] | _ => [] end).
Proof. apply add_index_ok. Qed.

Lemma create_index_spec_witness :
  wp (HT := btree_kv_ok) (add_index (str "again") (str "age")) demo_table (fun t' r =>
    r = add_index_answer demo_table (str "again") (str "age") /\ keeps demo_table ∅ t' /\
    secondary_indexes t' = secondary_indexes demo_table ++ match r with Ok _ => [mkIndexDef (str "again") (str "age")] | _ => [] end).
Proof. apply (create_index_spec demo_table ∅). exact demo_table_rep. Defined.
