(* ===== verification/TableFrame.v ===== *)
(** What the operations of a table leave alone.

    Every operation is built from calls on the trees and on the pool, so a
    relation between the tables before and after that each of those respects
    (a [Framing]) is respected by the operation as a whole. *)
From stdpp Require Import base list gmap strings.
From Stdlib Require Import ZArith Lia.
From S2P Require Import Prelude Machine Types TableDef BTree BTreeRep BTreeScan BTreeSpec Page Kv Table TableSpec.

Section frame.
Context {T P : Type} {KT : KvTree T} {KP : Pool P}.

Abbreviation Tbl := (@Table T P).
Abbreviation TM := (SM Tbl).

(** [R] holds across a new tree, new contents of the same indexes, and a new
    state of a pool that is there. *)
Class Framing (R : Tbl -> Tbl -> Prop) : Prop := {
  #[global] fr_order :: PreOrder R;
  fr_tree x t : R t (set_tree x t);
  fr_indexes l t : si_def <$> l = si_def <$> t_indexes t -> R t (set_indexes l t);
  fr_pool p t : is_Some (t_pool t) -> R t (set_pool (Some p) t);
}.

Context (R : Tbl -> Tbl -> Prop) {HR : Framing R}.

Definition frames {A} (c : TM A) : Prop := forall t t' r, c t = Ret (t', r) -> R t t'.

Lemma frames_bind {A B} (c : TM A) (k : A -> TM B) : frames c -> (forall a, frames (k a)) -> frames (c ≫= k).
Proof.
  intros Hc Hk t t' r. unfold mbind, sm_bind. destruct (c t) as [[t1 [a|e|]]| |] eqn:E; try done; intros H.
  - etrans; [by eapply Hc|by eapply Hk].
  - simplify_eq. by eapply Hc.
  - simplify_eq. by eapply Hc.
Qed.

Lemma frames_lift {A} (r : res A) : frames (lift r).
Proof. by intros t t' r' [= <- <-]. Qed.

Lemma frames_ret {A} (a : A) : frames (mret a).
Proof. by intros t t' r' [= <- <-]. Qed.

Lemma frames_gets {A} (f : Tbl -> A) : frames (gets f).
Proof. by intros t t' r' [= <- <-]. Qed.

Lemma frames_modify (f : Tbl -> Tbl) : (forall t, R t (f t)) -> frames (modify f).
Proof. intros Hf t t' r' [= <- <-]. apply Hf. Qed.

Lemma frames_tree {A} (f : T -> out (T * A)) : frames (on_tree f).
Proof.
  intros t t' r. unfold on_tree. destruct (f (t_tree t)) as [[? ?]| |]; try done. intros [= <- <-]. apply fr_tree.
Qed.

Lemma each_index_defs (f : SecondaryIndex -> out (T * res ())) l l' r : each_index f l = Ret (l', r) -> si_def <$> l' = si_def <$> l.
Proof.
  revert l' r. induction l as [|x l IH]; intros l' r; cbn [each_index]; [by intros [= <- <-]|].
  destruct (f x) as [[tr [u|e|]]| |]; cbn [mbind out_bind]; try done.
  - destruct (each_index f l) as [[l1 r1]| |]; try done. intros [= <- <-]. cbn. by rewrite (IH l1 r1).
  - by intros [= <- <-].
  - by intros [= <- <-].
Qed.

Lemma frames_indexes f : frames (on_indexes f).
Proof.
  intros t t' r. unfold on_indexes. destruct (each_index f (t_indexes t)) as [[l r']| |] eqn:E; cbn; try done.
  intros [= <- <-]. apply fr_indexes. by eapply each_index_defs.
Qed.

Lemma frames_alloc b : frames (alloc_value b).
Proof.
  intros t t' r. unfold alloc_value. destruct (Zlen b <=? MAX_INLINE_ROW); [by intros [= <- <-]|].
  destruct (t_pool t) as [p|] eqn:Ep; [|by intros [= <- <-]]. destruct (pool_store p b). intros [= <- <-].
  apply fr_pool. rewrite Ep. eauto.
Qed.

Lemma frames_free b : frames (free_value b).
Proof.
  intros t t' r. unfold free_value. destruct (negb (is_locator b)); [by intros [= <- <-]|].
  destruct (t_pool t) as [p|] eqn:Ep; [|by intros [= <- <-]]. destruct (loc_decode b); try by intros [= <- <-].
  intros [= <- <-]. apply fr_pool. rewrite Ep. eauto.
Qed.

Lemma frames_resolve b : frames (resolve_value b).
Proof.
  intros t t' r. unfold resolve_value. destruct (negb (is_locator b)); [by intros [= <- <-]|].
  destruct (t_pool t) as [p|] eqn:Ep; [|by intros [= <- <-]]. destruct (loc_decode b) as [l|e|]; try by intros [= <- <-].
  destruct (pool_load p l). intros [= <- <-]. apply fr_pool. rewrite Ep. eauto.
Qed.

Create HintDb frames.
#[local] Hint Resolve frames_bind frames_lift frames_ret frames_gets frames_tree frames_indexes frames_alloc frames_free
  frames_resolve : frames.

(** Follow the binds and the case analyses of an operation. *)
Ltac frames_seq :=
  repeat first
    [ solve [auto 2 with frames nocore]
    | apply frames_bind; [|intros ?]
    | match goal with |- frames (match ?x with _ => _ end) => destruct x end ].

Lemma frames_decode_stored b : frames (decode_stored b).
Proof. unfold decode_stored. frames_seq. Qed.

#[local] Hint Resolve frames_decode_stored : frames.

Lemma frames_try_decode b : frames (try_decode b).
Proof.
  intros t t' r. unfold try_decode. pose proof (frames_decode_stored b t) as Hf.
  destruct (decode_stored b t) as [[t1 [a|e|]]| |]; try done; intros [= <- <-]; by eapply Hf.
Qed.

Lemma frames_key_of row : frames (key_of row).
Proof. unfold key_of. frames_seq. Qed.

Lemma frames_with_indexes row f : frames (with_indexes row f).
Proof. unfold with_indexes. frames_seq. Qed.

Lemma frames_put_value k b : frames (put_value k b).
Proof. unfold put_value. frames_seq. Qed.

Lemma frames_free_opt b : frames (free_opt b).
Proof. destruct b; cbn; frames_seq. Qed.

#[local] Hint Resolve frames_try_decode frames_key_of frames_with_indexes frames_put_value frames_free_opt : frames.

Lemma frames_insert_row to_string row : frames (insert_row to_string row).
Proof. unfold insert_row, tree_get, duplicate, fail. frames_seq. Qed.

Lemma frames_decode_pairs kvs : frames (decode_pairs kvs).
Proof. induction kvs as [|[k v] kvs IH]; cbn [decode_pairs]; frames_seq; done. Qed.

Lemma frames_scan : frames scan.
Proof. unfold scan, tree_range. frames_seq. apply frames_decode_pairs. Qed.

Lemma frames_apply_raw k full : frames (apply_raw k full).
Proof. unfold apply_raw, apply_indexes. frames_seq. Qed.

Lemma frames_remove_raw k : frames (remove_raw k).
Proof. unfold remove_raw. frames_seq. Qed.

Lemma frames_restore_raw raw : frames (restore_raw raw).
Proof. unfold restore_raw. frames_seq. Qed.

Lemma frames_restore_kv k v : frames (restore_kv k v).
Proof. unfold restore_kv, fail. frames_seq. Qed.

End frame.
