(* ===== verification/RowRules.v ===== *)
(** What a row must satisfy before it is stored: [validate_row] is a checker
    with a declarative typing judgement, and AUTO_INCREMENT never hands out a
    key in use. *)
From stdpp Require Import base list gmap strings sorting.
From Stdlib Require Import ZArith Lia.
From S2P Require Import Prelude Machine Types DateTime TableDef BTree BTreeRep BTreeScan BTreeSpec Page Kv Table TableSpec TableScan TableFrame.

(** * The typing of rows *)

(** What a stored value of a column may be: of the column's type once it has
    been converted, and NULL only where the column allows it. *)
Definition has_type (c : ColumnDef) (d : Datum) : Prop :=
  match d with
  | Null => col_default_value c = Some Null \/ (col_default_value c = None /\ col_nullable c = true)
  | Bool _ => match col_ctype c with CFloat | CDouble | CBool => True | _ => False end
  | Int _ => match col_ctype c with CInt | CBigInt | CFloat | CDouble => True | _ => False end
  | Float _ => match col_ctype c with CFloat | CDouble => True | _ => False end
  | Text s =>
    match col_ctype c with
    | CText | CVarChar => True
    | CDateTime | CTimestamp => parse_datetime_str s = None
    | _ => False
    end
  | DateTime _ => match col_ctype c with CDateTime | CTimestamp => True | _ => False end
  end.

Definition row_typed (s : Schema) (row : list Datum) : Prop := Forall2 has_type (columns s) row.

(** The value a cell stands for before it is converted: NULL is the default. *)
Definition source_value (c : ColumnDef) (d : Datum) : Datum :=
  match d with Null => default Null (col_default_value c) | _ => d end.

Lemma coerce_typed c d :
  d <> Null -> accepts (col_ctype c) (coerce (col_ctype c) d) = true -> has_type c (coerce (col_ctype c) d).
Proof.
  intros Hn. unfold has_type, coerce, accepts. destruct (col_ctype c), d as [|v|v|v|v|v]; cbn; try done.
  all: destruct (parse_datetime_str v) eqn:E; cbn; try done.
Qed.

Lemma validate_value_typed c d d' : validate_value c d = Ok d' -> has_type c d'.
Proof.
  unfold validate_value. destruct (decide (d = Null)) as [->|Hn].
  - destruct (col_default_value c) as [v|] eqn:Ed; [|destruct (col_nullable c) eqn:En; cbn; [intros [= <-]; by right|done]].
    destruct (accepts _ _) eqn:Ha; [|done]. intros [= <-]. destruct (decide (v = Null)) as [->|]; [|by apply coerce_typed].
    destruct (col_ctype c); cbn; by left.
  - destruct d; [done|..]; destruct (accepts _ _) eqn:Ha; try done; intros [= <-]; by apply coerce_typed.
Qed.

(** A typed value is stored as it is. *)
Lemma validate_typed_value c d : has_type c d -> validate_value c d = Ok d.
Proof.
  unfold validate_value, has_type. destruct d as [|v|v|v|v|v]; cbn.
  - intros [->|[-> ->]]; [|done]. by destruct (col_ctype c).
  - by destruct (col_ctype c).
  - by destruct (col_ctype c).
  - destruct (col_ctype c); try done; cbn; by intros ->.
  - by destruct (col_ctype c).
  - by destruct (col_ctype c).
Qed.

Lemma validate_value_total c d : exists r, validate_value c d = r /\
  match r with
  | Ok d' => d' = coerce (col_ctype c) (source_value c d) /\ has_type c d'
  | Err (NotNullViolation n) => n = col_name c /\ d = Null /\ col_default_value c = None /\ col_nullable c = false
  | Err (TypeMismatch e g) => e = ColumnType_name (col_ctype c) /\ g = type_name (coerce (col_ctype c) (source_value c d)) /\
      ~ has_type c (coerce (col_ctype c) (source_value c d))
  | _ => False
  end.
Proof.
  eexists; split; [done|]. pose proof (validate_value_typed c d) as Ht.
  assert (Hnt : forall x, accepts (col_ctype c) x = false -> ~ has_type c x).
  { intros x Hx Hc. apply validate_typed_value in Hc. destruct x as [|v|v|v|v|v]; [by destruct (col_ctype c)|..];
      revert Hc Hx; unfold validate_value, coerce, accepts; destruct (col_ctype c); done. }
  unfold validate_value in *. destruct d as [|v|v|v|v|v]; cbn [source_value].
  1: destruct (col_default_value c) as [v|]; [cbn [default]|destruct (col_nullable c)].
  2: split; [by destruct (col_ctype c)|exact (Ht _ eq_refl)].
  2: done.
  all: destruct (accepts (col_ctype c) _) eqn:Ha; [split; [done|by apply Ht]|split_and!; [done|done|by apply Hnt]].
Qed.

Lemma validate_values_ok cs row :
  length row = length cs ->
  match validate_values cs row with
  | Ok row' => Forall2 has_type cs row' /\ row' = zip_with (fun c d => coerce (col_ctype c) (source_value c d)) cs row
  | Err e => exists i c d, cs !! i = Some c /\ row !! i = Some d /\ validate_value c d = Err e
  | Panic => False
  end.
Proof.
  revert row. induction cs as [|c cs IH]; intros [|d row] Hl; try done; cbn [validate_values].
  destruct (validate_value_total c d) as (r & Hr & H). rewrite Hr. destruct r as [d'|e|]; cbn; [| |done].
  - destruct H as [-> Ht]. injection Hl as Hl. specialize (IH _ Hl). destruct (validate_values cs row); cbn.
    + destruct IH as [IH ->]. split; [by constructor|done].
    + destruct IH as (i & c' & d' & ? & ? & ?). by exists (S i), c', d'.
    + done.
  - by exists 0%nat, c, d.
Qed.

Lemma validate_values_typed cs row : Forall2 has_type cs row -> validate_values cs row = Ok row.
Proof.
  induction 1 as [|c d cs row Hd _ IH]; [done|]. cbn [validate_values]. rewrite (validate_typed_value _ _ Hd). cbn. by rewrite IH.
Qed.

Lemma fill_defaults_length s row : length (fill_defaults s row) = Nat.max (length row) (length (columns s)).
Proof. unfold fill_defaults. rewrite length_app, length_fmap, length_drop. lia. Qed.

Lemma fill_defaults_full s row : (length (columns s) <= length row)%nat -> fill_defaults s row = row.
Proof. intros H. unfold fill_defaults. rewrite drop_ge by done. apply app_nil_r. Qed.

(** * AUTO_INCREMENT *)

Section autoinc.
Context {T P : Type} {KT : KvTree T} {HT : KvTreeOk T} {KP : Pool P} {HP : PoolOk P}.

Abbreviation Tbl := (@Table T P).
Abbreviation TM := (SM Tbl).
Abbreviation sch t := (td_schema (t_def t)).

(** The next value [n] is above every key in use; CREATE TABLE allows
    AUTO_INCREMENT on the primary key only. *)
Definition key_bound (s : Schema) (rows : Rows) (n : Z) : Prop :=
  forall k row v, rows !! k = Some row -> row_at row (pk_idx s) = Ok (Int v) -> v < n.

Definition auto_ready (t : Tbl) (rows : Rows) (n : Z) : Prop :=
  t_auto_inc t = Some (mkAutoInc (pk_idx (sch t)) n) /\ 0 <= pk_idx (sch t) /\ 1 <= n <= 2 ^ 63 /\
  key_bound (sch t) rows n.

Definition at_key (s : Schema) (row : list Datum) (n : Z) : list Datum := <[Z.to_nat (pk_idx s) := Int n]> row.

(** A row whose key is left to AUTO_INCREMENT. *)
Definition auto_row (s : Schema) (row : list Datum) : Prop :=
  row_at row (pk_idx s) = Ok Null /\ forall n, 0 <= n < 2 ^ 63 -> row_wf s (at_key s row n).

Lemma row_at_lookup row i d : row_at row i = Ok d <-> row !! Z.to_nat i = Some d.
Proof. unfold row_at. destruct (row !! Z.to_nat i); cbn; split; congruence. Qed.

Lemma at_key_pk s row n : auto_row s row -> row_at (at_key s row n) (pk_idx s) = Ok (Int n).
Proof.
  intros [H _]. apply row_at_lookup in H. apply row_at_lookup. unfold at_key. apply list_lookup_insert_eq.
  by apply lookup_lt_Some in H.
Qed.

Lemma at_key_row_key s row n : auto_row s row -> exists k, row_key s (at_key s row n) = Some k /\ encode_key (Int n) = Ok k.
Proof.
  intros H. pose proof (at_key_pk s row n H) as Hp. apply row_at_lookup in Hp. unfold row_key. rewrite Hp. by eexists.
Qed.

(** A key above all keys in use is free. *)
Lemma bound_fresh s rows row n k :
  rows_wf s rows -> key_bound s rows n -> auto_row s row -> 0 <= n < 2 ^ 63 -> row_key s (at_key s row n) = Some k ->
  rows !! k = None /\ key_bound s (<[k := at_key s row n]> rows) (n + 1).
Proof.
  intros Hw Hb Ha Hn Hk. pose proof (at_key_pk s row n Ha) as Hp. pose proof (proj2 Ha n Hn) as Hr. split.
  - destruct (rows !! k) as [old|] eqn:Eo; [|done]. destruct (Hw k old Eo) as [Ho Hko].
    destruct (row_wf_key s _ Hr) as (k1 & Hk1 & _ & d1 & Hd1 & _ & _ & Hdk1).
    destruct (row_wf_key s _ Ho) as (k2 & Hk2 & _ & d2 & Hd2 & _ & _ & Hdk2).
    rewrite Hk in Hk1. rewrite Hko in Hk2. simplify_eq. specialize (Hb _ old n Eo). rewrite Hp in Hd1. assert (n < n); [apply Hb; congruence|lia].
  - intros k' row' v [[<- <-]|[_ Hl]]%lookup_insert_Some Hv; [rewrite Hp in Hv; injection Hv as <-; lia|].
    specialize (Hb _ _ _ Hl Hv). lia.
Qed.

(** ** Rebuilding the counter *)

Lemma max_int_key_ge kvs m0 : forall x, m0 = Some x \/ (exists k v, (k, v) ∈ kvs /\ decode_key k = Ok (Int x) /\ 0 <= x) ->
  exists y, max_int_key kvs m0 = Some y /\ x <= y.
Proof.
  revert m0. induction kvs as [|[k v] kvs IH]; intros m0 x Hx; cbn [max_int_key].
  - destruct Hx as [->|(? & ? & H & _)]; [by exists x|by apply elem_of_nil in H].
  - destruct Hx as [->|(k' & v' & [[= -> ->]|Hin]%elem_of_cons & Hd & Hp)].
    + destruct (decode_key k) as [[| z| | | |]| |]; try (apply IH; by left).
      destruct (Z.leb_spec 0 z); [|apply IH; by left]. destruct (IH (Some (Z.max x z)) (Z.max x z) ltac:(by left)) as (y & -> & Hy).
      exists y. split; [done|lia].
    + rewrite Hd, (proj2 (Z.leb_le 0 x) Hp). destruct m0 as [m|].
      * destruct (IH (Some (Z.max m x)) (Z.max m x) ltac:(by left)) as (y & -> & Hy). exists y. split; [done|lia].
      * apply IH. by left.
    + apply IH. right. by exists k', v'.
Qed.

Lemma max_int_key_bound kvs m0 b : (forall m, m0 = Some m -> 0 <= m < b) ->
  (forall k v x, (k, v) ∈ kvs -> decode_key k = Ok (Int x) -> x < b) -> forall y, max_int_key kvs m0 = Some y -> 0 <= y < b.
Proof.
  revert m0. induction kvs as [|[k v] kvs IH]; intros m0 Hm Hk y; cbn [max_int_key]; [apply Hm|].
  apply IH; [|intros; eapply Hk; [by right|done]]. intros m. destruct (decode_key k) as [[| z| | | |]| |] eqn:Ek; try apply Hm.
  pose proof (Hk k v z ltac:(left) Ek). destruct (Z.leb_spec 0 z); [|apply Hm].
  intros [= <-]. destruct m0 as [m0|]; [specialize (Hm m0 eq_refl)|]; lia.
Qed.

Lemma refresh_auto_inc_ok t rows st :
  table_rep t rows -> t_auto_inc t = Some st -> ai_col_idx st = pk_idx (sch t) -> 0 <= pk_idx (sch t) ->
  wp refresh_auto_inc t (fun t' r => r = Ok () /\ keeps t rows t' /\ exists n, auto_ready t' rows n).
Proof.
  intros (m & pm & H) Hst Hc Hpk. unfold refresh_auto_inc. apply wp_gets. rewrite Hst. apply wp_bind.
  destruct (trange_ok (t_tree t) m None true None true (r_tree _ _ _ _ H) I) as (kvs & Hr & Hs & Hm).
  rewrite filter_id in Hr by (apply Forall_forall; done).
  unfold wp at 1, tree_range, on_tree. rewrite Hr. cbn [mbind out_bind mret out_ret].
  replace (set_tree (t_tree t) t) with t by by destruct t.
  set (n := match max_int_key kvs None with None => 1 | Some m => Z.min (m + 1) u64_MAX end).
  assert (Hkey : forall k row d, rows !! k = Some row -> row_at row (pk_idx (sch t)) = Ok d ->
            decode_key k = Ok d /\ datum_wf d /\ exists v, (k, v) ∈ kvs).
  { intros k row d Hrow Hd. destruct (r_rows _ _ _ _ H _ _ Hrow) as [Hw Hk].
    destruct (row_wf_key _ _ Hw) as (k1 & Hk1 & _ & d1 & Hd1 & Hkd & _ & Hdk1). rewrite Hk in Hk1. injection Hk1 as <-. rewrite Hd in Hd1. injection Hd1 as <-.
    destruct (r_some _ _ _ _ H _ _ Hrow) as (raw & Hraw & _). rewrite <- Hm in Hraw. apply to_map_elem in Hraw; [|done].
    split_and!; [done|apply Hkd|by exists raw]. }
  assert (Hb : forall y, max_int_key kvs None = Some y -> 0 <= y < 2 ^ 63).
  { apply max_int_key_bound; [done|]. intros k v x Hin Hx. apply to_map_elem in Hin; [|done]. rewrite Hm in Hin.
    destruct (rows !! k) as [row|] eqn:Er; [|by rewrite (r_none _ _ _ _ H _ Er) in Hin].
    destruct (r_rows _ _ _ _ H _ _ Er) as [Hw _]. destruct (row_wf_key _ _ Hw) as (_ & _ & _ & d & Hd & _ & _ & _).
    destruct (Hkey _ _ _ Er Hd) as (Hdk & Hdw & _). rewrite Hx in Hdk. injection Hdk as <-.
    destruct Hdw as [_ Hdw]. unfold i64_MAX in Hdw. lia. }
  assert (1 <= n <= 2 ^ 63).
  { subst n. destruct (max_int_key kvs None) as [y|]; [|done]. specialize (Hb y eq_refl). unfold u64_MAX. lia. }
  unfold wp, modify. split; [done|]. split; [split; [done|]; exists m, pm; by destruct H|].
  exists n. split; [cbn; by rewrite Hc|]. split; [done|]. split; [done|]. intros k row v Hrow Hv.
  destruct (Hkey _ _ _ Hrow Hv) as (Hdk & _ & raw & Hin). destruct (decide (0 <= v)); [|lia].
  destruct (max_int_key_ge kvs None v) as (y & Hy & Hle); [right; by exists k, raw|]. subst n. rewrite Hy.
  specialize (Hb y Hy). unfold u64_MAX. lia.
Qed.

(** ** Row operations leave the counter alone *)

#[local] Instance auto_inc_framing : Framing (fun t t' : Tbl => t_auto_inc t' = t_auto_inc t).
Proof. split; try done. split; [done|]. intros x y z H1 H2. congruence. Qed.

(** ** Inserting with generated keys *)

(** The steps INSERT takes for one row, and several of them in turn. *)
Definition auto_insert (to_string : Datum -> bytes) (row : list Datum) : TM (list Datum) :=
  row ← assign_auto_inc row; _ ← insert_row to_string row; mret row.

Fixpoint auto_inserts (to_string : Datum -> bytes) (t : Tbl) (rows : list (list Datum)) : out (Tbl * list (res (list Datum))) :=
  match rows with
  | [] => mret (t, [])
  | row :: rows => '(t, a) ← auto_insert to_string row t; '(t, l) ← auto_inserts to_string t rows; mret (t, a :: l)
  end.

Lemma set_auto_inc_rep t rows a : table_rep t rows -> table_rep (set_auto_inc a t) rows.
Proof. intros (m & pm & []). by exists m, pm. Qed.

Lemma assign_null (t : Tbl) row n :
  row_at row (pk_idx (sch t)) = Ok Null -> t_auto_inc t = Some (mkAutoInc (pk_idx (sch t)) n) -> 0 <= pk_idx (sch t) ->
  assign_auto_inc row t =
    if i64_MAX <? n then Ret (t, Err (NotSupported (str "auto-increment exhausted")))
    else Ret (set_auto_inc (Some (mkAutoInc (pk_idx (sch t)) (n + 1))) t, Ok (at_key (sch t) row n)).
Proof.
  intros Hr Ha Hp. unfold assign_auto_inc, mbind, sm_bind, gets. rewrite Ha. pose proof (proj1 (row_at_lookup _ _ _) Hr) as Hl.
  apply lookup_lt_Some in Hl. destruct (Z.leb_spec (Zlen row) (pk_idx (sch t))) as [Hle|_]; [lia|].
  unfold lift. rewrite Hr. by destruct (i64_MAX <? n).
Qed.

(** The outcome of one insertion with a generated key. *)
Definition auto_outcome (s : Schema) (rows : Rows) (row : list Datum) (r : res (list Datum)) (rows' : Rows) : Prop :=
  match r with
  | Ok row' => exists id k, 1 <= id /\ key_bound s rows id /\ row' = at_key s row id /\
      row_key s row' = Some k /\ rows !! k = None /\ rows' = <[k := row']> rows
  | Err e => rows' = rows /\ (e = NotSupported (str "auto-increment exhausted") \/
      exists id, MAX_INLINE_ROW < Zlen (encode_row (at_key s row id)))
  | Panic => False
  end.

Lemma auto_insert_ok to_string (t : Tbl) rows n row :
  table_rep t rows -> auto_ready t rows n -> auto_row (sch t) row ->
  wp (auto_insert to_string row) t (fun t' r => exists rows', keeps t rows' t' /\ auto_outcome (sch t) rows row r rows' /\
    exists n', auto_ready t' rows' n').
Proof.
  intros Ht (Ha & Hp & Hn & Hb) Hrow. unfold auto_insert. apply wp_bind. unfold wp at 1.
  rewrite (assign_null t row n) by (apply Hrow || done). destruct (Z.ltb_spec i64_MAX n) as [Hx|Hx].
  { exists rows. split; [done|]. split; [|by exists n]. split; [done|by left]. }
  assert (Hlt : 0 <= n < 2 ^ 63) by (unfold i64_MAX in Hx; lia).
  set (t1 := set_auto_inc _ t). assert (Ht1 : table_rep t1 rows) by by apply set_auto_inc_rep.
  destruct (at_key_row_key (sch t) row n Hrow) as (k & Hk & _). destruct Ht as (m & pm & H).
  destruct (bound_fresh _ _ _ _ _ (r_rows _ _ _ _ H) Hb Hrow Hlt Hk) as [Hfree Hb'].
  pose proof (insert_row_ok to_string t1 rows (at_key (sch t) row n) k Ht1 (proj2 Hrow n Hlt) Hk) as Hins. rewrite Hfree in Hins.
  pose proof (frames_insert_row (fun t t' => t_auto_inc t' = t_auto_inc t) to_string (at_key (sch t) row n) t1) as Hf. cbv beta in Hf. apply wp_bind.
  unfold wp in Hins |- *. destruct (insert_row to_string (at_key (sch t) row n) t1) as [[t2 r]| |]; try done.
  specialize (Hf t2 r eq_refl). destruct Hins as [[[Hd Hr] ->]|([Hd Hr] & Hw & e & ->)].
  - exists (<[k := at_key (sch t) row n]> rows). split; [by split|]. split; [exists n, k; split_and!; try done; lia|].
    exists (n + 1). unfold auto_ready. rewrite Hd, Hf. split; [done|]. split; [done|]. split; [lia|done].
  - exists rows. split; [by split|]. split; [split; [done|right; by exists n]|].
    exists (n + 1). unfold auto_ready. rewrite Hd, Hf. split; [done|]. split; [done|]. split; [lia|].
    intros k' row' v Hl Hv. specialize (Hb _ _ _ Hl Hv). lia.
Qed.

Inductive auto_history (s : Schema) : Rows -> list (list Datum) -> list (res (list Datum)) -> Rows -> Prop :=
| auto_nil rows : auto_history s rows [] [] rows
| auto_cons rows row r rows1 inputs rs rows2 :
    auto_outcome s rows row r rows1 -> auto_history s rows1 inputs rs rows2 -> auto_history s rows (row :: inputs) (r :: rs) rows2.

Lemma auto_inserts_ok to_string inputs : forall (t : Tbl) rows n,
  table_rep t rows -> auto_ready t rows n -> Forall (auto_row (sch t)) inputs ->
  (auto_inserts to_string t inputs = Fuel /\ may_hang) \/
  exists t' rows' rs, auto_inserts to_string t inputs = Ret (t', rs) /\ keeps t rows' t' /\ auto_history (sch t) rows inputs rs rows'.
Proof.
  induction inputs as [|row inputs IH]; intros t rows n Ht Ha Hin; cbn [auto_inserts].
  - right. exists t, rows, []. split; [done|]. split; [done|constructor].
  - apply Forall_cons in Hin as [Hrow Hin]. pose proof (auto_insert_ok to_string t rows n row Ht Ha Hrow) as Hw.
    unfold wp in Hw. destruct (auto_insert to_string row t) as [[t1 r]| |]; [|done|by left].
    destruct Hw as (rows1 & [Hd Hr] & Ho & n' & Ha'). cbn [mbind out_bind].
    destruct (IH t1 rows1 n' Hr Ha') as [[-> ?]|(t2 & rows2 & rs & -> & [Hd2 Hr2] & Hh)]; [by rewrite Hd|by left|right].
    exists t2, rows2, (r :: rs). split; [done|]. split; [split; [congruence|done]|]. rewrite Hd in Hh. by econstructor.
Qed.

(** Recovery rebuilds the counter, then rows are inserted. *)
Definition reopen_and_insert (to_string : Datum -> bytes) (t : Tbl) (inputs : list (list Datum)) : out (Tbl * list (res (list Datum))) :=
  '(t, r) ← refresh_auto_inc t; match r with Ok _ => auto_inserts to_string t inputs | _ => Panics end.

Lemma reopen_and_insert_ok to_string (t : Tbl) rows st inputs :
  table_rep t rows -> t_auto_inc t = Some st -> ai_col_idx st = pk_idx (sch t) -> 0 <= pk_idx (sch t) ->
  Forall (auto_row (sch t)) inputs ->
  (reopen_and_insert to_string t inputs = Fuel /\ may_hang) \/
  exists t' rows' rs, reopen_and_insert to_string t inputs = Ret (t', rs) /\ keeps t rows' t' /\ auto_history (sch t) rows inputs rs rows'.
Proof.
  intros Ht Hst Hc Hp Hin. pose proof (refresh_auto_inc_ok t rows st Ht Hst Hc Hp) as Hw. unfold wp in Hw. unfold reopen_and_insert.
  destruct (refresh_auto_inc t) as [[t1 r]| |]; [|done|by left]. destruct Hw as (-> & [Hd Hr] & n & Ha). cbn [mbind out_bind].
  destruct (auto_inserts_ok to_string inputs t1 rows n Hr Ha) as [?|(t2 & rows2 & rs & -> & [Hd2 Hr2] & Hh)]; [by rewrite Hd|by left|right].
  exists t2, rows2, rs. split; [done|]. rewrite Hd in Hh. split; [split; [congruence|done]|done].
Qed.

End autoinc.

(** * Properties *)

(** C31: [validate_row] is a type checker that normalizes: the row it returns
    is well typed column by column, is the converted input with defaults
    filled in, and is accepted unchanged when it is validated again (as an
    UPDATE does); surplus values are always refused, never cut off, and a row
    is refused for nothing else but a cell that violates NOT NULL or cannot be
    converted; nothing panics. *)
Theorem validate_row_types (s : Schema) (row : list Datum) :
  match validate_row s row with
  | Ok row' =>
    Zlen row <= Zlen (columns s) /\ row_typed s row' /\ validate_row s row' = Ok row' /\
    row' = zip_with (fun c d => coerce (col_ctype c) (source_value c d)) (columns s) (fill_defaults s row)
  | Err (ColumnCountMismatch e g) => e = Zlen (columns s) /\ g = Zlen row /\ e < g
  | Err e =>
    exists i c d, columns s !! i = Some c /\ fill_defaults s row !! i = Some d /\
      match e with
      | NotNullViolation n => n = col_name c /\ d = Null /\ col_default_value c = None /\ col_nullable c = false
      | TypeMismatch _ _ => ~ has_type c (coerce (col_ctype c) (source_value c d))
      | _ => False
      end
  | Panic => False
  end.
Proof.
  unfold validate_row. pose proof (fill_defaults_length s row) as Hl.
  destruct (Z.eqb_spec (Zlen (fill_defaults s row)) (Zlen (columns s))) as [He|He]; cbn [negb].
  - pose proof (validate_values_ok (columns s) (fill_defaults s row) ltac:(lia)) as H.
    destruct (validate_values _ _) as [row'|e|]; [|destruct H as (i & c & d & Hc & Hd & Hv)|done].
    + destruct H as [Ht Hr]. split; [lia|]. split; [exact Ht|]. split; [|exact Hr].
      rewrite (fill_defaults_full s row') by (apply Forall2_length in Ht; lia).
      rewrite (proj2 (Z.eqb_eq _ _)) by (apply Forall2_length in Ht; lia). by apply validate_values_typed.
    + destruct (validate_value_total c d) as (r & Hr & H). rewrite Hv in Hr. subst r.
      destruct e; try done; exists i, c, d; split_and!; try done; apply H.
  - split_and!; [done|lia|lia].
Qed.

(** A table whose key is generated. *)
Definition auto_schema : Schema :=
  mkSchema [mkColumnDef (str "id") CInt false true None; mkColumnDef (str "age") CInt false false None] 0.
Definition auto_table : @Table BTree RefPool := table_new (mkTableDef (str "db.users") auto_schema [] [] None).

Lemma auto_demo_row age : i64 age -> auto_row auto_schema [Null; Int age].
Proof.
  intros Ha. split; [done|]. intros n Hn. assert (Hi : i64 n) by (unfold in_i; lia). split; [done| | |].
  - repeat constructor; apply Ha || apply Hi.
  - exists (Int n). split; [done|]. split; [exact Hi|done].
  - change (encode_row (at_key auto_schema [Null; Int age] n)) with (encode (Int n) ++ encode (Int age) ++ []).
    rewrite !length_app. cbn [encode length]. rewrite !length_to_le. unfold MAX_VALUE_LEN. lia.
Qed.

(** C30: AUTO_INCREMENT never collides: after the counter was rebuilt from the
    stored rows, every row inserted with a generated key gets an identifier
    above all integer keys the table then holds (so identifiers only grow)
    and becomes a row of the table; an insertion fails only when the
    identifiers of 63 bits are used up or the pool refuses a wide row, never as
    a duplicate key. *)
Theorem auto_increment_never_collides {T P : Type} {KT : KvTree T} {HT : KvTreeOk T} {KP : Pool P} {HP : PoolOk P} (to_string : Datum -> bytes) (t : @Table T P) rows st inputs :
  let s := td_schema (t_def t) in
  table_rep t rows -> t_auto_inc t = Some st -> ai_col_idx st = pk_idx s -> 0 <= pk_idx s -> Forall (auto_row s) inputs ->
  (reopen_and_insert to_string t inputs = Fuel /\ may_hang) \/
  exists t' rows' rs, reopen_and_insert to_string t inputs = Ret (t', rs) /\ keeps t rows' t' /\ auto_history s rows inputs rs rows'.
Proof. intros s. apply reopen_and_insert_ok. Qed.

Lemma auto_increment_never_collides_witness :
  (reopen_and_insert encode auto_table [[Null; Int 30]; [Null; Int 31]] = Fuel /\ True) \/
  exists t' rows' rs, reopen_and_insert encode auto_table [[Null; Int 30]; [Null; Int 31]] = Ret (t', rs) /\
    keeps auto_table rows' t' /\ auto_history auto_schema ∅ [[Null; Int 30]; [Null; Int 31]] rs rows'.
Proof.
  refine (auto_increment_never_collides encode auto_table ∅ (mkAutoInc 0 1) [[Null; Int 30]; [Null; Int 31]] _ _ _ _ _).
  - apply table_new_rep.
  - reflexivity.
  - reflexivity.
  - discriminate.
  - constructor; [|constructor; [|constructor]]; apply auto_demo_row; split; discriminate || reflexivity.
Defined.
