(* ===== verification/Literal.v ===== *)
(** Text and numbers of the standard library, as the SQL front end uses them:
    white space, ASCII case, and the parsers of [i64], [usize] and [f64]. *)
From stdpp Require Import base list gmap strings.
From Stdlib Require Import ZArith Lia SpecFloat.
From S2P Require Import Prelude Machine Utf8 Float Types DateTime.

(** * Characters *)

(** [char::is_whitespace]: the Unicode White_Space property. *)
Definition is_whitespace (c : Z) : bool :=
  between 9 c 13 || (c =? 32) || (c =? 0x85) || (c =? 0xA0) || (c =? 0x1680) || between 0x2000 c 0x200A ||
  (c =? 0x2028) || (c =? 0x2029) || (c =? 0x202F) || (c =? 0x205F) || (c =? 0x3000).

Definition is_alphabetic (c : Z) : bool := between 65 c 90 || between 97 c 122.
Definition is_alphanumeric (c : Z) : bool := is_alphabetic c || is_digit c.

Definition to_ascii_lowercase (s : bytes) : bytes := (fun c => if between 65 c 90 then c + 32 else c) <$> s.
Definition eq_ignore_ascii_case (a b : bytes) : bool := bool_decide (to_ascii_lowercase a = to_ascii_lowercase b).

Fixpoint trim_start (cs : list Z) : list Z :=
  match cs with c :: r => if is_whitespace c then trim_start r else cs | [] => [] end.

(** [str::trim] *)
Definition trim (s : bytes) : bytes := of_chars (rev (trim_start (rev (trim_start (chars s))))).

(** * Integers *)

(** The sign of [from_str]: [+] and [-] for signed types. *)
Definition signed (s : bytes) : bool * bytes :=
  match s with 43 :: r => (false, r) | 45 :: r => (true, r) | _ => (false, s) end.

Definition parse_i64 (s : bytes) : option Z :=
  let '(neg, r) := signed s in
  v ← parse_digits r;
  let z := if neg : bool then - v else v in
  if (i64_MIN <=? z) && (z <=? i64_MAX) then Some z else None.

(** A [-] is no digit, so an unsigned number only takes [+]. *)
Definition parse_usize (s : bytes) : option Z :=
  v ← parse_digits (match s with 43 :: r => r | _ => s end);
  if v <=? u64_MAX then Some v else None.

(** * binary64 *)

(** [m] times ten to the [e], rounded to nearest even. *)
Definition f64_of_decimal (neg : bool) (m e : Z) : Z :=
  match m with
  | Zpos p =>
    f64_bits
      (if 0 <=? e then binary_normalize 53 1024 (if neg then - (m * 10 ^ e) else m * 10 ^ e) 0 false
       else SFdiv 53 1024 (S754_finite neg p 0) (S754_finite false (Z.to_pos (10 ^ (- e))) 0))
  | _ => f64_bits (S754_zero neg)
  end.

Fixpoint span (p : Z -> bool) (s : bytes) : bytes * bytes :=
  match s with
  | c :: r => if p c then let '(a, b) := span p r in (c :: a, b) else ([], s)
  | [] => ([], [])
  end.

(** The exponent part: [e] or [E], a sign, digits. *)
Definition parse_exponent (s : bytes) : option Z :=
  match s with
  | [] => Some 0
  | c :: r =>
    if (c =? 101) || (c =? 69) then
      let '(neg, d) := signed r in v ← parse_digits d; Some (if neg : bool then - v else v)
    else None
  end.

(** [str::parse::<f64>]: [inf], [infinity], [nan], or digits with an optional
    point (one side of which may be empty) and exponent. *)
Definition parse_f64 (s : bytes) : option Z :=
  let '(neg, r) := signed s in
  let one_of (l : list string) := existsb (fun x => bool_decide (to_ascii_lowercase r = str x)) l in
  if one_of ["inf"; "infinity"]%string then Some (f64_bits (S754_infinity neg))
  else if one_of ["nan"]%string then Some (if neg : bool then 2 ^ 63 + 0x7ff8000000000000 else 0x7ff8000000000000)
  else
    let '(int, r1) := span is_digit r in
    let '(frac, r2) := match r1 with 46 :: r1 => span is_digit r1 | _ => ([], r1) end in
    match int ++ frac with
    | [] => None
    | ds => e ← parse_exponent r2; Some (f64_of_decimal neg (dec_value 0 ds) (e - Zlen frac))
    end.

Example parse_f64_tenth : parse_f64 (str "0.1") = Some 0x3FB999999999999A.
Proof. vm_compute. reflexivity. Qed.
Example parse_f64_third : parse_f64 (str "-.3333333333333333") = Some 0xBFD5555555555555.
Proof. vm_compute. reflexivity. Qed.
Example parse_f64_exp : parse_f64 (str "25e-1") = Some 0x4004000000000000 /\ parse_f64 (str "1e400") = Some 0x7FF0000000000000.
Proof. vm_compute. done. Qed.
Example parse_f64_bad : parse_f64 (str ".") = None /\ parse_f64 (str "1.2.3") = None /\ parse_f64 (str "") = None.
Proof. vm_compute. done. Qed.

(** * Lemmas *)

Lemma span_all p a r : forallb p a = true -> match r with c :: _ => p c = false | [] => True end -> span p (a ++ r) = (a, r).
Proof.
  intros Ha Hr. induction a as [|c a IH]; cbn in *.
  - destruct r as [|c r]; [done|]. cbn. by rewrite Hr.
  - apply andb_true_iff in Ha as [-> Ha]. by rewrite IH.
Qed.

Lemma span_parts p s a r : span p s = (a, r) -> s = a ++ r /\ forallb p a = true /\ match r with c :: _ => p c = false | [] => True end.
Proof.
  revert a r. induction s as [|c s IH]; intros a r H; cbn in H.
  - by injection H as <- <-.
  - destruct (p c) eqn:E.
    + destruct (span p s) as [a' b] eqn:Es. injection H as <- <-. destruct (IH a' b eq_refl) as (-> & Ha & Hb). cbn. by rewrite E.
    + injection H as <- <-. done.
Qed.
