(* ===== verification/Lexer.v ===== *)
(** The SQL lexer (sql/lexer.rs): characters to tokens.

    The cursor [pos] of the source only moves forward, so the state is the list
    of the characters that are left. *)
From stdpp Require Import base list gmap strings.
From Stdlib Require Import ZArith Lia.
From S2P Require Import Prelude Machine Utf8 Types DateTime Literal BTree.

Inductive Token : Type :=
| TIdent (s : bytes)
| TNumber (s : bytes)
| TStr (s : bytes)
| TSym (c : Z)
| TEof.

#[global] Instance Token_eq_dec : EqDecision Token.
Proof. solve_decision. Defined.

(** A character literal of the source. *)
Definition chr (s : string) : Z := match str s with c :: _ => c | [] => 0 end.

Definition DASH : Z := 45.
Definition NEWLINE : Z := 10.
Definition QUOTE : Z := 39.
Definition DQUOTE : Z := 34.
Definition DOT : Z := 46.

(** The comparison signs of two characters, which become one. *)
Definition SYM_LE : Z := 0x2264.
Definition SYM_GE : Z := 0x2265.
Definition SYM_NE : Z := 0x2260.

Definition head_is (c : Z) (cs : list Z) : bool := match cs with x :: _ => x =? c | [] => false end.
Definition peek_digit (cs : list Z) : bool := match cs with x :: _ => is_digit x | [] => false end.

(** [comment]: inside a comment, which ends with the line (whose end is white
    space). *)
Fixpoint skip_ws (comment : bool) (cs : list Z) : list Z :=
  match cs with
  | [] => []
  | c :: r =>
    if comment then skip_ws (negb (c =? NEWLINE)) r
    else if is_whitespace c then skip_ws false r
    else if (c =? DASH) && head_is DASH r then skip_ws true r
    else cs
  end.

(** The characters of a string literal after its opening quote, and what
    follows; [None] when it does not end. *)
Fixpoint read_string (quote : Z) (cs : list Z) : option (list Z * list Z) :=
  match cs with
  | [] => None
  | c :: r =>
    if c =? quote then
      match r with
      | c2 :: r2 => if c2 =? quote then '(s, rest) ← read_string quote r2; Some (quote :: s, rest) else Some ([], r)
      | [] => Some ([], [])
      end
    else '(s, rest) ← read_string quote r; Some (c :: s, rest)
  end.

Fixpoint number_tail (is_float : bool) (cs : list Z) : list Z * list Z :=
  match cs with
  | c :: r =>
    if is_digit c then let '(a, b) := number_tail is_float r in (c :: a, b)
    else if (c =? DOT) && negb is_float then let '(a, b) := number_tail true r in (c :: a, b)
    else ([], cs)
  | [] => ([], [])
  end.

Definition read_number (cs : list Z) : list Z * list Z :=
  match cs with
  | c :: r => if c =? DASH then let '(a, b) := number_tail false r in (c :: a, b) else number_tail false cs
  | [] => ([], [])
  end.

Definition ident_char (c : Z) : bool := is_alphanumeric c || (c =? 95).
Definition ident_start (c : Z) : bool := is_alphabetic c || (c =? 95).

Definition read_ident (cs : list Z) : list Z * list Z := span ident_char cs.

Definition simple_sym (c : Z) : bool := existsb (Z.eqb c) (str ",()*;=.:@").

(** One token, from a character that is not white space. *)
Definition read_token (c : Z) (r : list Z) : res (Token * list Z) :=
  if (c =? QUOTE) || (c =? DQUOTE) then
    match read_string c r with
    | Some (s, rest) => Ok (TStr (of_chars s), rest)
    | None => Err (ParseError (str "unterminated string"))
    end
  else if is_digit c then let '(n, rest) := read_number (c :: r) in Ok (TNumber (of_chars n), rest)
  else if ident_start c then let '(s, rest) := read_ident (c :: r) in Ok (TIdent (of_chars s), rest)
  else if (c =? DASH) && peek_digit r then let '(n, rest) := read_number (c :: r) in Ok (TNumber (of_chars n), rest)
  else if simple_sym c then Ok (TSym c, r)
  else if c =? chr "<" then
    if head_is (chr "=") r then Ok (TSym SYM_LE, tail r)
    else if head_is (chr ">") r then Ok (TSym SYM_NE, tail r)
    else Ok (TSym c, r)
  else if c =? chr ">" then
    if head_is (chr "=") r then Ok (TSym SYM_GE, tail r) else Ok (TSym c, r)
  else if c =? chr "!" then
    if head_is (chr "=") r then Ok (TSym SYM_NE, tail r) else Err (ParseError (str "expected '!='"))
  else Err (ParseError (str "unexpected character '" ++ of_char c ++ str "'")).

Fixpoint lex_loop (fuel : nat) (cs : list Z) : out (res (list Token)) :=
  match fuel with
  | O => Fuel
  | S fuel =>
    match skip_ws false cs with
    | [] => Ret (Ok [TEof])
    | c :: r =>
      match read_token c r with
      | Ok (t, rest) => ts ← lex_loop fuel rest; Ret (fmap (M:=res) (cons t) ts)
      | Err e => Ret (Err e)
      | Panic => Ret Panic
      end
    end
  end.

(** Every round consumes a character, so one round more than there are
    characters is enough. *)
Definition tokenize (src : bytes) : out (res (list Token)) := lex_loop (S (length (chars src))) (chars src).

Example tokenize_ex :
  tokenize (str "SELECT a.b, -1.5 FROM t -- all
 WHERE c<>'it''s' AND d <= 2;") =
  Ret (Ok [TIdent (str "SELECT"); TIdent (str "a"); TSym DOT; TIdent (str "b"); TSym (chr ","); TNumber (str "-1.5");
           TIdent (str "FROM"); TIdent (str "t"); TIdent (str "WHERE"); TIdent (str "c"); TSym SYM_NE;
           TStr (str "it's"); TIdent (str "AND"); TIdent (str "d"); TSym SYM_LE; TNumber (str "2");
           TSym (chr ";"); TEof]).
Proof. vm_compute. reflexivity. Qed.

(** * Consumption *)

Lemma skip_ws_length b cs : (length (skip_ws b cs) <= length cs)%nat.
Proof.
  revert b. induction cs as [|c cs IH]; intros b; [done|]. cbn [skip_ws length].
  repeat case_match; cbn [length]; try lia. all: etrans; [apply IH|lia].
Qed.

Lemma read_string_length q cs s rest : read_string q cs = Some (s, rest) -> (length rest < length cs)%nat.
Proof.
  remember (length cs) as n eqn:Hn. assert (length cs <= n)%nat as Hle by lia. clear Hn. revert cs s rest Hle.
  induction n as [|n IH]; intros [|c cs] s rest Hle H; cbn [length] in Hle; try done; try lia. cbn [read_string] in H.
  destruct (c =? q).
  - destruct cs as [|c2 r2]; [injection H as <- <-; cbn; lia|]. destruct (c2 =? q).
    + destruct (read_string q r2) as [[s' rest']|] eqn:E; [|done]. injection H as <- <-. cbn [length] in Hle.
      apply IH in E; [lia|lia].
    + injection H as <- <-. cbn [length] in *. lia.
  - destruct (read_string q cs) as [[s' rest']|] eqn:E; [|done]. injection H as <- <-. apply IH in E; lia.
Qed.

Lemma number_tail_length f cs : (length (number_tail f cs).2 <= length cs)%nat.
Proof.
  revert f. induction cs as [|c cs IH]; intros f; [done|]. cbn [number_tail length].
  pose proof (IH f). pose proof (IH true).
  destruct (number_tail f cs) as [a b]; destruct (number_tail true cs) as [a2 b2]; cbn in *. repeat case_match; cbn; lia.
Qed.

Lemma span_length p s : (length (span p s).2 <= length s)%nat.
Proof. induction s as [|c s IH]; [done|]. cbn. destruct (p c); [|done]. destruct (span p s) as [a b]. cbn in *. lia. Qed.

Lemma read_number_length c r : is_digit c = true \/ c = DASH -> (length (read_number (c :: r)).2 <= length r)%nat.
Proof.
  intros H. unfold read_number. pose proof (number_tail_length false r).
  destruct (Z.eqb_spec c DASH) as [->|Hn].
  - destruct (number_tail false r) as [a b]. cbn in *. lia.
  - destruct H as [H|H]; [|done]. cbn [number_tail]. rewrite H. destruct (number_tail false r) as [a b]. cbn in *. lia.
Qed.

Lemma ident_start_char c : ident_start c = true -> ident_char c = true.
Proof. unfold ident_start, ident_char, is_alphanumeric. intros [->| ->]%orb_true_iff; [done|]. by rewrite orb_true_r. Qed.

Lemma read_ident_length c r : ident_start c = true -> (length (read_ident (c :: r)).2 <= length r)%nat.
Proof.
  intros H%ident_start_char. unfold read_ident. cbn [span]. rewrite H. pose proof (span_length ident_char r).
  destruct (span ident_char r) as [a b]. cbn in *. lia.
Qed.

Lemma read_token_length c r t rest : read_token c r = Ok (t, rest) -> (length rest <= length r)%nat.
Proof.
  intros H. unfold read_token in H.
  destruct ((c =? QUOTE) || (c =? DQUOTE)).
  { destruct (read_string c r) as [[s rest']|] eqn:E; [|done]. injection H as <- <-. apply read_string_length in E. lia. }
  destruct (is_digit c) eqn:Ed.
  { pose proof (read_number_length c r (or_introl Ed)) as Hn. destruct (read_number (c :: r)) as [n rest']. by injection H as <- <-. }
  destruct (ident_start c) eqn:Ei.
  { pose proof (read_ident_length c r Ei) as Hn. destruct (read_ident (c :: r)) as [n rest']. by injection H as <- <-. }
  destruct ((c =? DASH) && peek_digit r) eqn:Em.
  { apply andb_true_iff in Em as [->%Z.eqb_eq _]. pose proof (read_number_length DASH r (or_intror eq_refl)) as Hn.
    destruct (read_number (DASH :: r)) as [n rest']. by injection H as <- <-. }
  assert (Ht : (length (tail r) <= length r)%nat) by (destruct r; cbn; lia).
  repeat case_match; try done; by injection H as <- <-.
Qed.

Lemma read_token_no_panic c r : read_token c r <> Panic.
Proof. unfold read_token. repeat case_match; done. Qed.

Lemma lex_loop_total fuel cs : (length cs < fuel)%nat -> exists r, lex_loop fuel cs = Ret r /\ r <> Panic.
Proof.
  revert cs. induction fuel as [|fuel IH]; intros cs Hf; [lia|]. cbn [lex_loop].
  pose proof (skip_ws_length false cs) as Hs. destruct (skip_ws false cs) as [|c r]; [by eexists|]. cbn [length] in Hs.
  destruct (read_token c r) as [[t rest]|e|] eqn:E; [|by eexists|by apply read_token_no_panic in E].
  apply read_token_length in E. destruct (IH rest ltac:(lia)) as (ts & -> & Hp). cbn. eexists. split; [done|]. by destruct ts.
Qed.

Lemma tokenize_total src : exists r, tokenize src = Ret r /\ r <> Panic.
Proof. apply lex_loop_total. lia. Qed.

(** More fuel than needed changes nothing. *)
Lemma lex_loop_mono fuel fuel' cs r : (fuel <= fuel')%nat -> lex_loop fuel cs = Ret r -> lex_loop fuel' cs = Ret r.
Proof.
  revert fuel' cs r. induction fuel as [|fuel IH]; intros [|fuel'] cs r Hf H; try done; try lia. cbn [lex_loop] in *.
  destruct (skip_ws false cs) as [|c rest]; [done|]. destruct (read_token c rest) as [[t rest']|e|]; try done.
  destruct (lex_loop fuel rest') as [ts| |] eqn:E; try done. by rewrite (IH fuel' rest' ts) by (done || lia).
Qed.
