(* ===== verification/Expr.v ===== *)
(** Predicates (sql/ast.rs) and their evaluation over one row (sql/eval.rs):
    the two-valued treatment of NULL, the coercions of a comparison, and LIKE
    with its memo table. *)
From stdpp Require Import base list gmap strings.
From Stdlib Require Import ZArith Lia.
From S2P Require Import Prelude Machine Utf8 Types DateTime TableDef Table.

(** * Syntax *)

Inductive AggFunc : Type := ASum | AAvg | AMin | AMax.
Inductive JoinKind : Type := JInner | JLeft.
Inductive CmpOp : Type := OpEq | OpNe | OpLt | OpLe | OpGt | OpGe.

#[global] Instance CmpOp_eq_dec : EqDecision CmpOp.
Proof. solve_decision. Defined.

Inductive Expr : Type :=
| EColumn (name : bytes)
| ELiteral (d : Datum)
| ECmp (lhs : Expr) (op : CmpOp) (rhs : Expr)
| EAnd (a b : Expr)
| EOr (a b : Expr)
| ENot (e : Expr)
| EIn (e : Expr) (values : list Datum) (negated : bool)
| EBetween (e : Expr) (lo hi : Datum) (negated : bool)
| ELike (e : Expr) (pattern : bytes) (negated : bool)
| EInSubquery (e : Expr) (query : SelectStmt) (negated : bool)
| EScalarSubquery (query : SelectStmt)
| EExists (query : SelectStmt) (negated : bool)
with SelectStmt : Type :=
| mkSelectStmt (items : list SelectItem) (from : TableRef) (joins : list JoinClause) (selection : option Expr)
    (order_by : list (bytes * bool)) (limit : option Z) (group_by : list bytes)
with SelectItem : Type :=
| IStar
| IColumn (name : bytes)
| ICountStar
| IAggregate (func : AggFunc) (column : bytes)
| ISubquery (query : SelectStmt) (alias : option bytes)
| ILiteral (d : Datum)
| ISysFunc (name : bytes) (alias : option bytes)
with TableRef : Type :=
| RTable (name : bytes)
| RDerived (query : SelectStmt) (alias : bytes)
| REmpty
with JoinClause : Type :=
| mkJoinClause (kind : JoinKind) (table : TableRef) (on : Expr).

(** * Comparisons *)

(** [CmpOp::apply], on the derived [PartialEq] and the [Ord] of [Datum]. *)
Definition cmp_apply (op : CmpOp) (a b : Datum) : bool :=
  match op with
  | OpEq => datum_eqb a b
  | OpNe => negb (datum_eqb a b)
  | OpLt => match cmp a b with Lt => true | _ => false end
  | OpLe => match cmp a b with Gt => false | _ => true end
  | OpGt => match cmp a b with Gt => true | _ => false end
  | OpGe => match cmp a b with Lt => false | _ => true end
  end.

Definition flipped (op : CmpOp) : CmpOp :=
  match op with OpEq => OpEq | OpNe => OpNe | OpLt => OpGt | OpLe => OpGe | OpGt => OpLt | OpGe => OpLe end.

Definition f64_one : Z := 0x3FF0000000000000.
Definition int_of_bool (b : bool) : Z := if b then 1 else 0.
Definition f64_of_bool (b : bool) : Z := if b then f64_one else 0.

Definition coerce_pair (l r : Datum) : Datum * Datum :=
  match l, r with
  | Bool b, Int i => (Int (int_of_bool b), Int i)
  | Int i, Bool b => (Int i, Int (int_of_bool b))
  | Bool b, Float f => (Float (f64_of_bool b), Float f)
  | Float f, Bool b => (Float f, Float (f64_of_bool b))
  | Int a, Float b => (Float (f64_of_i64 a), Float b)
  | Float a, Int b => (Float a, Float (f64_of_i64 b))
  | DateTime a, Text b =>
    match parse_datetime_str b with Some m => (DateTime a, DateTime m) | None => (DateTime a, Text b) end
  | Text a, DateTime b =>
    match parse_datetime_str a with Some m => (DateTime m, DateTime b) | None => (Text a, DateTime b) end
  | a, b => (a, b)
  end.

(** * LIKE *)

Definition PERCENT : Z := 37.
Definition UNDERSCORE : Z := 95.

(** [pj += 1] while [p[pj] == '%'] *)
Fixpoint skip_percent (p : list Z) (pj : nat) : nat :=
  match p with c :: p => if c =? PERCENT then skip_percent p (S pj) else pj | [] => pj end.

(** [(ti..=t.len()).any(f)], the closure updating the memo. *)
Fixpoint any_loop {M} (f : nat -> M -> option (bool * M)) (ks : list nat) (m : M) : option (bool * M) :=
  match ks with
  | [] => Some (false, m)
  | k :: ks => '(r, m) ← f k m; if r : bool then Some (true, m) else any_loop f ks m
  end.

Abbreviation Memo := (gmap (nat * nat) bool).

(** [None] when the fuel runs out. *)
Fixpoint like_go (fuel : nat) (t p : list Z) (ti pi : nat) (memo : Memo) : option (bool * Memo) :=
  match memo !! (ti, pi) with
  | Some r => Some (r, memo)
  | None =>
    match fuel with
    | O => None
    | S fuel =>
      '(r, memo) ←
        match p !! pi with
        | None => Some (Nat.eqb ti (length t), memo)
        | Some c =>
          if c =? PERCENT then
            let pj := skip_percent (drop pi p) pi in
            any_loop (fun k => like_go fuel t p k pj) (seq ti (S (length t) - ti)) memo
          else match t !! ti with
               | Some tc => if (c =? UNDERSCORE) || (c =? tc) then like_go fuel t p (S ti) (S pi) memo else Some (false, memo)
               | None => Some (false, memo)
               end
        end;
      Some (r, <[(ti, pi) := r]> memo)
    end
  end.

(** Every call advances in the pattern, so [length p + 1] levels are enough. *)
Definition like_match (text pattern : bytes) : bool :=
  let p := chars pattern in
  match like_go (S (length p)) (chars text) p 0 0 ∅ with Some (r, _) => r | None => false end.

(** * Evaluation *)

Section eval.
(** [Display] for [f64] and the derived [Debug] of an expression. *)
Context (f64_show : Z -> bytes) (debug : Expr -> bytes).

Definition datum_to_string (d : Datum) : bytes :=
  match d with
  | Null => str "NULL"
  | Int v => show_Z v
  | Float v => f64_show v
  | Text v => v
  | Bool v => if v then str "true" else str "false"
  | DateTime v => format_datetime_micros v
  end.

Definition is_null (d : Datum) : bool := match d with Null => true | _ => false end.

(** A value as a condition. *)
Definition truthy (d : Datum) : bool :=
  match d with
  | Bool b => b
  | Int i => negb (i =? 0)
  | Float f => negb (f64_eqb f 0)
  | _ => false
  end.

Definition eval_operand (resolve : bytes -> res Datum) (e : Expr) : res Datum :=
  match e with
  | ELiteral d => Ok d
  | EColumn name => resolve name
  | other => Err (NotSupported (str "cannot evaluate " ++ debug other ++ str " as a scalar"))
  end.

(** The loop of [In]: NULL members are skipped. *)
Definition in_hit (target : Datum) (values : list Datum) : bool :=
  existsb (fun v => negb (is_null v) && (let '(t, e) := coerce_pair target v in datum_eqb t e)) values.

Definition between_hit (target lo hi : Datum) : bool :=
  let '(t, l) := coerce_pair target lo in
  let '(t, h) := coerce_pair t hi in
  cmp_apply OpGe t l && cmp_apply OpLe t h.

Fixpoint eval_with (resolve : bytes -> res Datum) (e : Expr) : res bool :=
  match e with
  | EAnd a b => x ← eval_with resolve a; if x : bool then eval_with resolve b else mret false
  | EOr a b => x ← eval_with resolve a; if x : bool then mret true else eval_with resolve b
  | ENot e => x ← eval_with resolve e; mret (negb x)
  | ECmp lhs op rhs =>
    l ← eval_operand resolve lhs; r ← eval_operand resolve rhs;
    if is_null l || is_null r then mret false
    else let '(l, r) := coerce_pair l r in mret (cmp_apply op l r)
  | EIn e values negated =>
    target ← eval_operand resolve e;
    if is_null target then mret false else mret (xorb (in_hit target values) negated)
  | EBetween e lo hi negated =>
    target ← eval_operand resolve e;
    if is_null target then mret false else mret (xorb (between_hit target lo hi) negated)
  | ELike e pattern negated =>
    target ← eval_operand resolve e;
    if is_null target then mret false else mret (xorb (like_match (datum_to_string target) pattern) negated)
  | EColumn name => d ← resolve name; mret (truthy d)
  | ELiteral d => mret (truthy d)
  | other => Err (NotSupported (str "cannot evaluate " ++ debug other ++ str " as a predicate"))
  end.

(** Columns of one row: [row[idx].clone()]. *)
Definition column_of (s : Schema) (row : list Datum) (name : bytes) : res Datum :=
  match index_of s name with
  | Some idx => row_at row idx
  | None => Err (ColumnNotFound name)
  end.

Definition eval_expr (s : Schema) (row : list Datum) (e : Expr) : res bool := eval_with (column_of s row) e.

End eval.

Fixpoint collect_columns (e : Expr) : list bytes :=
  match e with
  | EColumn name => [name]
  | ELiteral _ => []
  | ECmp lhs _ rhs => collect_columns lhs ++ collect_columns rhs
  | EAnd a b | EOr a b => collect_columns a ++ collect_columns b
  | ENot e => collect_columns e
  | EIn e _ _ | EBetween e _ _ _ | ELike e _ _ | EInSubquery e _ _ => collect_columns e
  | EScalarSubquery _ | EExists _ _ => []
  end.

(** * LIKE is wildcard matching *)

Inductive like : list Z -> list Z -> Prop :=
| like_nil : like [] []
| like_percent t1 t2 p : like t2 p -> like (t1 ++ t2) (PERCENT :: p)
| like_underscore c t p : like t p -> like (c :: t) (UNDERSCORE :: p)
| like_char c t p : c <> PERCENT -> like t p -> like (c :: t) (c :: p).

#[local] Hint Constructors like : core.

Lemma like_percent_inv t p : like t (PERCENT :: p) <-> exists k, (k <= length t)%nat /\ like (drop k t) p.
Proof.
  split.
  - remember (PERCENT :: p) as q eqn:Eq. destruct 1 as [|t1 t2 q H|c t q H|c t q Hc H]; [done| |done|congruence].
    injection Eq as ->. exists (length t1). rewrite length_app, drop_app_length. split; [lia|done].
  - intros (k & Hk & H). rewrite <- (take_drop k t). by constructor.
Qed.

(** A run of [%] is one [%]. *)
Lemma like_percent_run t p q : Forall (fun c => c = PERCENT) q -> like t (PERCENT :: q ++ p) <-> like t (PERCENT :: p).
Proof.
  revert t. induction q as [|c q IH]; intros t Hq; [done|]. apply Forall_cons in Hq as [-> Hq]. cbn [app].
  rewrite like_percent_inv, like_percent_inv. setoid_rewrite (IH _ Hq). setoid_rewrite like_percent_inv. split.
  - intros (k & Hk & j & Hj & H). rewrite length_drop in Hj. rewrite drop_drop in H. exists (k + j)%nat. split; [lia|done].
  - intros (k & Hk & H). exists k. split; [done|]. exists 0%nat. split; [lia|]. by rewrite drop_0.
Qed.

Lemma like_char_inv c t p : c <> PERCENT ->
  like t (c :: p) <-> exists tc t', t = tc :: t' /\ (c = UNDERSCORE \/ c = tc) /\ like t' p.
Proof.
  intros Hc. split.
  - remember (c :: p) as q eqn:Eq. destruct 1 as [|t1 t2 q H|c' t q H|c' t q Hc' H]; [done|congruence|..];
      injection Eq as <- <-; eauto 10.
  - intros (tc & t' & -> & [-> | ->] & H); auto.
Qed.

Lemma skip_percent_spec p pj : exists q, p = replicate (skip_percent p pj - pj) PERCENT ++ q /\
  q = drop (skip_percent p pj - pj) p /\ (pj <= skip_percent p pj <= pj + length p)%nat.
Proof.
  revert pj. induction p as [|c p IH]; intros pj; cbn [skip_percent]; [exists []; rewrite Nat.sub_diag; split_and!; done || lia|].
  destruct (Z.eqb_spec c PERCENT) as [->|]; [|exists (c :: p); rewrite Nat.sub_diag; split_and!; cbn; done || lia].
  destruct (IH (S pj)) as (q & Hp & Hq & Hl). exists q.
  replace (skip_percent p (S pj) - pj)%nat with (S (skip_percent p (S pj) - S pj)) by lia.
  split_and!; [cbn; by rewrite <- Hp|by cbn|lia|cbn; lia].
Qed.

(** The memo only holds true answers. *)
Definition memo_ok (t p : list Z) (m : Memo) : Prop :=
  forall i j r, m !! (i, j) = Some r -> r = true <-> like (drop i t) (drop j p).

Lemma memo_ok_insert (t p : list Z) (m : Memo) i j r :
  memo_ok t p m -> (r = true <-> like (drop i t) (drop j p)) -> memo_ok t p (<[(i, j) := r]> m).
Proof. intros Hm Hr i' j' r' [[[= <- <-] <-]|[_ H]]%lookup_insert_Some; [done|by apply Hm]. Qed.

Lemma any_loop_ok (t p : list Z) (f : nat -> Memo -> option (bool * Memo)) (R : nat -> Prop) ks m :
  (forall k m, k ∈ ks -> memo_ok t p m -> exists r m', f k m = Some (r, m') /\ memo_ok t p m' /\ (r = true <-> R k)) ->
  memo_ok t p m -> exists r m', any_loop f ks m = Some (r, m') /\ memo_ok t p m' /\ (r = true <-> exists k, k ∈ ks /\ R k).
Proof.
  revert m. induction ks as [|k ks IH]; intros m Hf Hm; cbn [any_loop].
  - exists false, m. split_and!; [done|done|]. split; [done|]. by intros (k & Hk%elem_of_nil & _).
  - destruct (Hf k m ltac:(left) Hm) as (r & m1 & -> & Hm1 & Hr). cbn. destruct r.
    + exists true, m1. split_and!; [done|done|]. split; [|done]. intros _. exists k. split; [left|by apply Hr].
    + destruct (IH m1) as (r & m2 & -> & Hm2 & Hr2); [intros; apply Hf; [by right|done]|done|]. exists r, m2.
      split_and!; [done|done|]. rewrite Hr2. split.
      * intros (k' & Hk' & H). exists k'. split; [by right|done].
      * intros (k' & [->|Hk']%elem_of_cons & H); [by apply Hr in H|by exists k'].
Qed.

Lemma like_go_ok fuel (t p : list Z) : forall ti pi m,
  (length p < fuel + pi)%nat -> (pi <= length p)%nat -> (ti <= length t)%nat -> memo_ok t p m ->
  exists r m', like_go fuel t p ti pi m = Some (r, m') /\ memo_ok t p m' /\ (r = true <-> like (drop ti t) (drop pi p)).
Proof.
  induction fuel as [|fuel IH]; intros ti pi m Hf Hp Ht Hm; cbn [like_go]; [lia|].
  destruct (m !! (ti, pi)) as [r|] eqn:Em; [exists r, m; split_and!; [done|done|by apply Hm]|].
  match goal with |- context [mbind _ ?b] => set (body := b) end.
  assert (exists r m', body = Some (r, m') /\ memo_ok t p m' /\ (r = true <-> like (drop ti t) (drop pi p))) as (r & m' & -> & Hm' & Hr).
  2:{ exists r, (<[(ti, pi) := r]> m'). split; [done|]. split; [by apply memo_ok_insert|done]. }
  subst body. destruct (p !! pi) as [c|] eqn:Ec.
  2:{ exists (Nat.eqb ti (length t)), m. split_and!; [done|done|]. apply lookup_ge_None in Ec. rewrite (drop_ge p) by lia.
      rewrite Nat.eqb_eq. split; [intros ->; by rewrite drop_ge|]. intros H. inversion H as [E| | |].
      apply (f_equal length) in E. rewrite length_drop in E. cbn in E. lia. }
  pose proof (lookup_lt_Some _ _ _ Ec) as Hlt. pose proof (drop_S p c pi Ec) as Ed. destruct (Z.eqb_spec c PERCENT) as [->|Hc].
  - destruct (skip_percent_spec (drop pi p) pi) as (q & Hq & Hqd & Hl). rewrite length_drop in Hl.
    set (pj := skip_percent (drop pi p) pi) in *. assert (pi < pj)%nat as Hpj.
    { subst pj. rewrite Ed. cbn [skip_percent]. change (PERCENT =? PERCENT) with true. cbn iota.
      destruct (skip_percent_spec (drop (S pi) p) (S pi)) as (_ & _ & _ & ?). lia. }
    destruct (any_loop_ok t p (fun k => like_go fuel t p k pj) (fun k => like (drop k t) (drop pj p)) (seq ti (S (length t) - ti)) m)
      as (r & m' & Ha & Hm' & Hr); [|done|].
    { intros k m1 Hk%elem_of_seq Hm1. apply IH; (done || lia). }
    exists r, m'. split; [exact Ha|]. split; [done|]. rewrite Hr, Hq, Hqd, drop_drop.
    replace (pi + (pj - pi))%nat with pj by lia. destruct (pj - pi)%nat as [|n] eqn:En; [lia|]. cbn [replicate app].
    rewrite like_percent_run by (by apply Forall_replicate). rewrite like_percent_inv, length_drop. setoid_rewrite drop_drop. split.
    + intros (k & Hk%elem_of_seq & H). exists (k - ti)%nat. replace (ti + (k - ti))%nat with k by lia. split; [lia|done].
    + intros (k & Hk & H). exists (ti + k)%nat. split; [apply elem_of_seq; lia|done].
  - rewrite Ed. pose proof (like_char_inv c (drop ti t) (drop (S pi) p) Hc) as Hli. destruct (t !! ti) as [tc|] eqn:Et.
    + pose proof (drop_S t tc ti Et) as Etd. pose proof (lookup_lt_Some _ _ _ Et) as Hlt'.
      destruct ((c =? UNDERSCORE) || (c =? tc)) eqn:Eu.
      * destruct (IH (S ti) (S pi) m) as (r & m' & Hg & Hm' & Hr); [lia|lia|lia|done|]. exists r, m'. split_and!; [done|done|].
        rewrite Hr, Hli, Etd. split; [|by intros (? & ? & [= <- <-] & _ & H)]. intros H. exists tc, (drop (S ti) t). split_and!; [done| |done].
        apply orb_true_iff in Eu as [?%Z.eqb_eq|?%Z.eqb_eq]; auto.
      * exists false, m. split_and!; [done|done|]. rewrite Hli. split; [done|]. intros (? & ? & E & Hor & _). rewrite Etd in E.
        injection E as <- <-. apply orb_false_iff in Eu as [?%Z.eqb_neq ?%Z.eqb_neq]. by destruct Hor.
    + exists false, m. split_and!; [done|done|]. rewrite Hli. split; [done|]. intros (? & ? & E & _). apply lookup_ge_None in Et.
      by rewrite drop_ge in E.
Qed.

Lemma like_match_spec text pattern : like_match text pattern = true <-> like (chars text) (chars pattern).
Proof.
  unfold like_match. destruct (like_go_ok (S (length (chars pattern))) (chars text) (chars pattern) 0 0 ∅) as (r & m & -> & _ & Hr);
    [lia|lia|lia|by intros i j r; rewrite lookup_empty|]. by rewrite !drop_0 in Hr.
Qed.
