(* ===== verification/Ast.v ===== *)
(** Statements (sql/ast.rs): what the parser produces and the executor runs.
    Expressions and SELECT are in [Expr]. *)
From stdpp Require Import base list gmap strings.
From Stdlib Require Import ZArith Lia.
From S2P Require Import Prelude Machine Types TableDef Expr.

Record ColumnSpec := mkColumnSpec {
  cs_name : bytes; cs_ctype : bytes; cs_not_null : bool; cs_primary_key : bool; cs_auto_increment : bool;
  cs_default_value : option Datum }.

Record ForeignKeySpec := mkForeignKeySpec {
  fs_name : option bytes; fs_column : bytes; fs_ref_table : bytes; fs_ref_column : bytes; fs_on_delete : FkAction }.

Definition AggFunc_name (f : AggFunc) : bytes :=
  match f with ASum => str "SUM" | AAvg => str "AVG" | AMin => str "MIN" | AMax => str "MAX" end.

(** * Privileges *)

Inductive Privilege : Type := PSelect | PInsert | PUpdate | PDelete | PCreate | PDrop | PAll.

#[global] Instance Privilege_eq_dec : EqDecision Privilege.
Proof. solve_decision. Defined.

Definition Privilege_parse (s : bytes) : option Privilege :=
  let u := to_ascii_uppercase s in
  let eqs (x : string) := bool_decide (u = str x) in
  if eqs "SELECT" then Some PSelect
  else if eqs "INSERT" then Some PInsert
  else if eqs "UPDATE" then Some PUpdate
  else if eqs "DELETE" then Some PDelete
  else if eqs "CREATE" then Some PCreate
  else if eqs "DROP" then Some PDrop
  else if eqs "ALL" || eqs "ALL PRIVILEGES" then Some PAll
  else None.

Definition Privilege_name (p : Privilege) : bytes :=
  match p with
  | PSelect => str "SELECT" | PInsert => str "INSERT" | PUpdate => str "UPDATE" | PDelete => str "DELETE"
  | PCreate => str "CREATE" | PDrop => str "DROP" | PAll => str "ALL PRIVILEGES"
  end.

(** The byte of a privilege in the accounts file. *)
Definition codec_byte (p : Privilege) : Z :=
  match p with PSelect => 1 | PInsert => 2 | PUpdate => 3 | PDelete => 4 | PCreate => 5 | PDrop => 6 | PAll => 7 end.

Definition from_codec_byte (b : Z) : option Privilege :=
  match b with
  | 1 => Some PSelect | 2 => Some PInsert | 3 => Some PUpdate | 4 => Some PDelete
  | 5 => Some PCreate | 6 => Some PDrop | 7 => Some PAll | _ => None
  end.

Inductive GrantScope : Type :=
| GGlobal
| GDatabase (db : bytes)
| GTable (db : option bytes) (tbl : bytes).

#[global] Instance GrantScope_eq_dec : EqDecision GrantScope.
Proof. solve_decision. Defined.

Definition GrantScope_display (g : GrantScope) : bytes :=
  match g with
  | GGlobal => str "*.*"
  | GDatabase db => db ++ str ".*"
  | GTable (Some db) tbl => db ++ str "." ++ tbl
  | GTable None tbl => tbl
  end.

(** * Statements *)

Inductive IsolationLevel : Type := ReadCommitted | RepeatableRead | Serializable.

Inductive Statement : Type :=
| SCreateDatabase (name : bytes) (if_not_exists : bool)
| SDropDatabase (name : bytes) (if_exists : bool)
| SUseDatabase (name : bytes)
| SShowDatabases
| SCreateTable (name : bytes) (columns : list ColumnSpec) (foreign_keys : list ForeignKeySpec) (if_not_exists : bool)
| SDropTable (name : bytes) (if_exists : bool)
| SInsert (table : bytes) (columns : option (list bytes)) (rows : list (list Expr))
| SSelect (items : list SelectItem) (from : TableRef) (joins : list JoinClause) (selection : option Expr)
    (order_by : list (bytes * bool)) (limit : option Z) (group_by : list bytes)
| SUpdate (table : bytes) (assignments : list (bytes * Expr)) (selection : option Expr)
| SDelete (table : bytes) (selection : option Expr)
| SBegin (isolation : option IsolationLevel) (read_only : bool)
| SCommit
| SRollback
| SStartTransaction (snapshot : bool) (isolation : option IsolationLevel) (read_only : bool)
| SSetTransaction (isolation : IsolationLevel) (global : bool)
| SShowTables
| SShowStatus (like : option bytes)
| SShowEngineStatus
| SShowProcesslist
| SCheckpoint
| SPromote
| SBackup (path : bytes)
| SArchive (dir : option bytes)
| SCreateIndex (name table column : bytes) (if_not_exists : bool)
| SDropIndex (name table : bytes) (if_exists : bool)
| SSetVariable (name : bytes) (value : Datum)
| SAnalyzeTable (table : bytes)
| SExplain (analyze : bool) (statement : Statement)
| SExplainMemo (statement : Statement)
| SCreateUser (name : bytes) (if_not_exists : bool) (password : bytes)
| SDropUser (name : bytes) (if_exists : bool)
| SAlterUser (name password : bytes)
| SGrant (privs : list Privilege) (scope : GrantScope) (user : bytes)
| SRevoke (privs : list Privilege) (scope : GrantScope) (user : bytes)
| SShowGrants (for_user : option bytes)
| SCheckTable (table : bytes)
| SCheckDatabase (database : option bytes).

Lemma codec_byte_inv p : from_codec_byte (codec_byte p) = Some p.
Proof. by destruct p. Qed.

Lemma Privilege_parse_name p : Privilege_parse (Privilege_name p) = Some p.
Proof. by destruct p. Qed.
