(* ===== verification/Parser.v ===== *)
(** The SQL parser (sql/parser.rs): recursive descent over the tokens.

    The parser state is the list of the tokens from the cursor on.  A function
    that the source calls recursively after it has consumed a token is taken
    from a record [Rec]; [parsers] ties the knot, one level per token. *)
From stdpp Require Import base list gmap strings.
From Stdlib Require Import ZArith Lia.
From S2P Require Import Prelude Machine Utf8 Float Types DateTime TableDef BTree Table Literal Lexer Expr Ast.

Abbreviation PM := (SM (list Token)).

(** * Loops and choices *)

(** [loop { .. }]: a round goes on with [inl], breaks with [inr]. *)
Fixpoint rounds {A B} (n : nat) (body : A -> PM (A + B)) (a : A) : PM B :=
  match n with
  | O => fun _ => Fuel
  | S n => r ← body a; match r with inl a => rounds n body a | inr b => mret b end
  end.

(** Every round that goes on consumes a token. *)
Definition loop {A B} (body : A -> PM (A + B)) (a : A) : PM B := fun ts => rounds (S (length ts)) body a ts.

Notation "'eats' c 'then' a 'else' b" := (mbind (fun x : bool => if x then a else b) c)
  (at level 10, c at level 200, a at level 200, b at level 200, only parsing).

(** [a || b] *)
Definition or_else (a b : PM bool) : PM bool := eats a then mret true else b.

Definition upper (t : Token) : option bytes := match t with TIdent s => Some (to_ascii_uppercase s) | _ => None end.
Definition is_kw (k : string) (t : Token) : bool := bool_decide (upper t = Some (str k)).
Definition is_sym (c : Z) (t : Token) : bool := bool_decide (t = TSym c).
Definition is_ident (t : Token) : bool := match t with TIdent _ => true | _ => false end.
Definition is_text (t : Token) : bool := match t with TStr _ => true | _ => false end.
Definition is_number (t : Token) : bool := match t with TNumber _ => true | _ => false end.

Definition parse_agg_func (keyword : option bytes) : option AggFunc :=
  let eqs (s : string) := bool_decide (keyword = Some (str s)) in
  if eqs "SUM" then Some ASum else if eqs "AVG" then Some AAvg else if eqs "MIN" then Some AMin
  else if eqs "MAX" then Some AMax else None.

(** * Casts *)

Definition one_of (t : bytes) (l : list string) : bool := existsb (fun x => bool_decide (t = str x)) l.

Definition text_types : list string := ["TEXT"; "VARCHAR"; "CHAR"; "BPCHAR"; "NAME"; "REGCLASS"]%string.
Definition int_types : list string := ["OID"; "INT2"; "INT4"; "INT8"]%string.
Definition bool_types : list string := ["BOOL"; "BOOLEAN"]%string.
Definition float_types : list string := ["FLOAT4"; "FLOAT8"]%string.

Definition is_known_cast (target : bytes) : bool :=
  one_of (to_ascii_uppercase target) (text_types ++ int_types ++ bool_types ++ float_types).

Section parser.
(** [Display] of a float and the derived [Debug] of the values in messages. *)
Context (f64_show : Z -> bytes) (dbg_token : Token -> bytes) (dbg_datum : Datum -> bytes) (dbg_expr : Expr -> bytes).

Definition perr {A} (m : bytes) : PM A := fail (ParseError m).

Definition coerce_literal (d : Datum) (t target : bytes) : res Datum :=
  let bad_text s := Err (ParseError (str "cannot cast '" ++ s ++ str "' to '::" ++ target ++ str "'")) in
  let bad := Err (ParseError (str "cannot cast " ++ dbg_datum d ++ str " to '::" ++ target ++ str "'")) in
  match d with
  | Null => Ok Null
  | _ =>
    if one_of t text_types then Ok (Text (datum_to_string f64_show d))
    else if one_of t int_types then
      match d with
      | Int i => Ok (Int i)
      | Float f => Ok (Int (f64_to_i64 f))
      | Bool b => Ok (Int (int_of_bool b))
      | Text s => match parse_i64 (trim s) with Some v => Ok (Int v) | None => bad_text s end
      | Null => Ok Null
      | DateTime _ => bad
      end
    else if one_of t bool_types then
      match d with
      | Bool b => Ok (Bool b)
      | Int i => Ok (Bool (negb (i =? 0)))
      | Text s =>
        let l := to_ascii_lowercase (trim s) in
        if one_of l ["true"; "t"; "1"]%string then Ok (Bool true)
        else if one_of l ["false"; "f"; "0"]%string then Ok (Bool false)
        else bad_text s
      | Null => Ok Null
      | Float _ | DateTime _ => bad
      end
    else
      match d with
      | Float f => Ok (Float f)
      | Int i => Ok (Float (f64_of_i64 i))
      | Text s => match parse_f64 (trim s) with Some v => Ok (Float v) | None => bad_text s end
      | Null => Ok Null
      | Bool _ | DateTime _ => bad
      end
  end.

Definition apply_cast (base : Expr) (target : bytes) : res Expr :=
  let t := to_ascii_uppercase target in
  if negb (is_known_cast t) then Err (ParseError (str "unknown cast '::" ++ target ++ str "'"))
  else match base with
       | EColumn _ => Ok base
       | ELiteral d => ELiteral <$> coerce_literal d t target
       | other => Err (ParseError (str "cannot cast " ++ dbg_expr other ++ str " with '::" ++ target ++ str "'"))
       end.

(** * Tokens *)

Definition peek : PM Token := gets (hd TEof).
Definition advance : PM () := modify (@tail Token).
Definition next : PM Token := t ← peek; _ ← advance; mret t.

(** [self.tokens.get(self.pos + 1)], past the end as [Eof]. *)
Definition peek_at_1 : PM Token := gets (fun ts => hd TEof (tail ts)).

Definition eat_if (f : Token -> bool) : PM bool := t ← peek; if f t then _ ← advance; mret true else mret false.
Definition eat_sym (c : Z) : PM bool := eat_if (is_sym c).
Definition eat_kw (k : string) : PM bool := eat_if (is_kw k).

Definition got (m : bytes) : PM bytes := t ← peek; mret (m ++ str ", got " ++ dbg_token t).
Definition fail_got {A} (m : bytes) : PM A := m ← got m; perr m.

Definition expect_sym (c : Z) : PM () :=
  eats eat_sym c then mret () else fail_got (str "expected '" ++ of_char c ++ str "'").
Definition expect_kw (k : string) : PM () :=
  eats eat_kw k then mret () else fail_got (str "expected " ++ str k).

Definition wrong {A} (m : bytes) (t : Token) : PM A := perr (m ++ str ", got " ++ dbg_token t).

Definition expect_ident : PM bytes :=
  t ← next; match t with TIdent s => mret s | t => wrong (str "expected identifier") t end.

Definition LP : Z := chr "(".
Definition RP : Z := chr ")".
Definition COMMA : Z := chr ",".
Definition EQUALS : Z := chr "=".
Definition STAR : Z := chr "*".
Definition COLON : Z := chr ":".
Definition AT : Z := chr "@".

(** [if eat(',') { continue } else { break }] *)
Definition go_on {A} (acc : A) : PM (A + A) := eats eat_sym COMMA then mret (inl acc) else mret (inr acc).

(** A list with commas: [loop { xs.push(p()?); if !eat(',') { break } }]. *)
Definition comma_list {A} (p : PM A) : PM (list A) :=
  loop (fun acc => x ← p; go_on (acc ++ [x])) [].

(** The same, closed: [if eat(',') { continue } expect(')')?; break]. *)
Definition closed_list {A} (p : PM A) : PM (list A) := l ← comma_list p; _ ← expect_sym RP; mret l.

Definition parse_col_ref : PM bytes :=
  first ← expect_ident;
  eats eat_sym DOT then second ← expect_ident; mret (first ++ str "." ++ second) else mret first.

Definition parse_cmp_op : PM (option CmpOp) :=
  t ← peek;
  let op := match t with
            | TSym c =>
              if c =? EQUALS then Some OpEq else if c =? SYM_NE then Some OpNe
              else if c =? chr "<" then Some OpLt else if c =? SYM_LE then Some OpLe
              else if c =? chr ">" then Some OpGt else if c =? SYM_GE then Some OpGe else None
            | _ => None
            end in
  match op with Some _ => _ ← advance; mret op | None => mret None end.

Definition parse_like_pattern : PM bytes :=
  t ← next; match t with TStr s => mret s | t => wrong (str "LIKE needs a string pattern") t end.

Definition parse_number (n : bytes) : res Expr :=
  if existsb (Z.eqb DOT) n then
    match parse_f64 n with
    | Some v => Ok (ELiteral (Float v))
    | None => Err (ParseError (str "bad number '" ++ n ++ str "'"))
    end
  else
    match parse_i64 n with
    | Some v => Ok (ELiteral (Int v))
    | None => Err (ParseError (str "bad integer '" ++ n ++ str "'"))
    end.

(** * Expressions *)

Record Rec := mkRec { r_expr : PM Expr; r_not : PM Expr; r_select : PM SelectStmt }.

Section with_rec.
Context (self : Rec).

(** Whether the cursor is on [(SELECT]. *)
Definition at_subquery : PM bool :=
  t ← peek; t1 ← peek_at_1; mret (is_sym LP t && is_kw "SELECT" t1).

(** [pos += 1; let q = parse_select_stmt()?; expect(')')?] *)
Definition subquery : PM SelectStmt := _ ← advance; q ← r_select self; _ ← expect_sym RP; mret q.

(** [while eat(':') { expect(':')?; e = apply_cast(e, &expect_ident()?)? }] *)
Definition casts (e : Expr) : PM Expr :=
  loop (fun e => eats eat_sym COLON then
                   _ ← expect_sym COLON; target ← expect_ident; e ← lift (apply_cast e target); mret (inl e)
                 else mret (inr e)) e.

Definition parse_base : PM Expr :=
  t ← next;
  match t with
  | TStr s => mret (ELiteral (Text s))
  | TNumber n => lift (parse_number n)
  | TSym c =>
    if c =? DASH then
      t ← next; match t with TNumber n => lift (parse_number n) | t => wrong (str "expected number after '-'") t end
    else wrong (str "expected operand") t
  | TIdent s =>
    let up := to_ascii_uppercase s in
    if bool_decide (up = str "TRUE") then mret (ELiteral (Bool true))
    else if bool_decide (up = str "FALSE") then mret (ELiteral (Bool false))
    else if bool_decide (up = str "NULL") then mret (ELiteral Null)
    else eats eat_sym DOT then col ← expect_ident; mret (EColumn (s ++ str "." ++ col)) else mret (EColumn s)
  | TEof => wrong (str "expected operand") t
  end.

Definition parse_operand : PM Expr :=
  eats at_subquery then q ← subquery; mret (EScalarSubquery q) else e ← parse_base; casts e.

Definition parse_literal_operand : PM Datum :=
  e ← parse_operand;
  match e with ELiteral d => mret d | other => perr (str "expected a literal, got " ++ dbg_expr other) end.

Definition parse_between_bounds : PM (Datum * Datum) :=
  lo ← parse_literal_operand; _ ← expect_kw "AND"; hi ← parse_literal_operand; mret (lo, hi).

Definition parse_in_list : PM (list Datum) := _ ← expect_sym LP; closed_list parse_literal_operand.

Definition parse_in_tail (first : Expr) (negated : bool) : PM Expr :=
  eats at_subquery then q ← subquery; mret (EInSubquery first q negated)
  else values ← parse_in_list; mret (EIn first values negated).

(** The operand pairs a WHERE comparison accepts; a literal goes right. *)
Definition where_cmp (first : Expr) (op : CmpOp) (second : Expr) : res Expr :=
  match first, second with
  | EColumn _, ELiteral _ | EColumn _, EScalarSubquery _ | EScalarSubquery _, EColumn _
  | EScalarSubquery _, ELiteral _ | EScalarSubquery _, EScalarSubquery _ | EColumn _, EColumn _ =>
    Ok (ECmp first op second)
  | ELiteral _, EColumn _ | ELiteral _, EScalarSubquery _ => Ok (ECmp second (flipped op) first)
  | _, _ => Err (NotSupported (str "WHERE comparisons must be column vs literal"))
  end.

Definition parse_cmp_tail : PM Expr :=
  first ← parse_operand;
  op ← parse_cmp_op;
  match op with
  | Some op => second ← parse_operand; lift (where_cmp first op second)
  | None =>
    eats eat_kw "BETWEEN" then b ← parse_between_bounds; mret (EBetween first b.1 b.2 false)
    else eats eat_kw "NOT" then
      (eats eat_kw "IN" then parse_in_tail first true
       else eats eat_kw "LIKE" then p ← parse_like_pattern; mret (ELike first p true)
       else eats eat_kw "BETWEEN" then b ← parse_between_bounds; mret (EBetween first b.1 b.2 true)
       else fail_got (str "expected IN, LIKE or BETWEEN after NOT"))
    else eats eat_kw "IN" then parse_in_tail first false
    else eats eat_kw "LIKE" then p ← parse_like_pattern; mret (ELike first p false)
    else mret first
  end.

Definition parse_exists_body : PM SelectStmt :=
  _ ← expect_sym LP;
  t ← peek;
  if is_kw "SELECT" t then q ← r_select self; _ ← expect_sym RP; mret q
  else fail_got (str "expected SELECT after EXISTS (").

Definition subquery_cmp (scalar : Expr) (op : CmpOp) (second : Expr) : res Expr :=
  match second with
  | EColumn _ | ELiteral _ | EScalarSubquery _ => Ok (ECmp scalar op second)
  | other => Err (NotSupported (str "cannot compare a subquery with " ++ dbg_expr other))
  end.

Definition parse_predicate : PM Expr :=
  t ← peek;
  if is_kw "EXISTS" t then _ ← advance; q ← parse_exists_body; mret (EExists q false)
  else eats at_subquery then
    q ← subquery;
    op ← parse_cmp_op;
    match op with
    | Some op => second ← parse_operand; lift (subquery_cmp (EScalarSubquery q) op second)
    | None => mret (EScalarSubquery q)
    end
  else eats eat_sym LP then e ← r_expr self; _ ← expect_sym RP; mret e
  else parse_cmp_tail.

Definition parse_not : PM Expr :=
  eats eat_kw "NOT" then
    t ← peek;
    if is_kw "EXISTS" t then _ ← advance; q ← parse_exists_body; mret (EExists q true)
    else e ← r_not self; mret (ENot e)
  else parse_predicate.

(** [while eat(k) { left = join(left, p()?) }] *)
Definition chain (k : string) (join : Expr -> Expr -> Expr) (p : PM Expr) : PM Expr :=
  left ← p;
  loop (fun left => eats eat_kw k then right ← p; mret (inl (join left right)) else mret (inr left)) left.

Definition parse_and : PM Expr := chain "AND" EAnd parse_not.
Definition parse_or : PM Expr := chain "OR" EOr parse_and.
Definition parse_expr : PM Expr := parse_or.

(** * SELECT *)

Definition join_cmp (first : Expr) (op : CmpOp) (second : Expr) : res Expr :=
  match first, second with
  | EColumn _, ELiteral _ | EColumn _, EColumn _ => Ok (ECmp first op second)
  | ELiteral _, EColumn _ => Ok (ECmp second (flipped op) first)
  | _, _ => Err (NotSupported (str "JOIN conditions must compare columns and/or literals"))
  end.

Definition parse_join_cmp : PM Expr :=
  first ← parse_operand;
  op ← parse_cmp_op;
  match op with
  | Some op => second ← parse_operand; lift (join_cmp first op second)
  | None => mret first
  end.

Definition parse_join_cond : PM Expr := chain "AND" EAnd parse_join_cmp.

Definition parse_derived : PM TableRef :=
  _ ← expect_sym LP;
  t ← peek;
  if is_kw "SELECT" t then
    q ← r_select self; _ ← expect_sym RP; _ ← eat_kw "AS"; alias ← expect_ident; mret (RDerived q alias)
  else fail_got (str "expected SELECT after '(' in FROM").

Definition parse_table_ref : PM TableRef :=
  t ← peek;
  if is_sym LP t then parse_derived
  else
    first ← expect_ident;
    eats eat_sym DOT then
      second ← expect_ident;
      eats eat_sym DOT then perr (str "three-part table names are not supported")
      else mret (RTable (first ++ str "." ++ second))
    else mret (RTable first).

Definition opt_alias : PM (option bytes) := eats eat_kw "AS" then a ← expect_ident; mret (Some a) else mret None.

(** The casts of a system function are checked and dropped. *)
Definition skip_casts : PM () :=
  loop (fun _ => eats eat_sym COLON then
                   _ ← expect_sym COLON; target ← expect_ident;
                   (if is_known_cast target then mret (inl ()) else perr (str "unknown cast '::" ++ target ++ str "'"))
                 else mret (inr ())) ().

Definition literal_operand_for (what : bytes) : PM Datum :=
  e ← parse_operand;
  match e with ELiteral d => mret d | other => perr (str "expected literal " ++ what ++ str ", got " ++ dbg_expr other) end.

(** [SELECT 1 = 2]: the comparison of two literals is folded. *)
Definition literal_item : PM SelectItem :=
  l ← literal_operand_for (str "in projection");
  eats eat_sym EQUALS then
    r ← literal_operand_for (str "after '='");
    let '(a, b) := coerce_pair l r in mret (ILiteral (Int (if datum_eqb a b then 1 else 0)))
  else eats eat_sym SYM_NE then
    r ← literal_operand_for (str "after '!='");
    let '(a, b) := coerce_pair l r in mret (ILiteral (Int (if negb (datum_eqb a b) then 1 else 0)))
  else mret (ILiteral l).

Definition parse_item : PM SelectItem :=
  t ← peek;
  t1 ← peek_at_1;
  if is_sym STAR t then _ ← advance; mret IStar
  else if is_sym LP t && is_kw "SELECT" t1 then
    q ← subquery; alias ← opt_alias; mret (ISubquery q alias)
  else if is_kw "COUNT" t then
    _ ← advance; _ ← expect_sym LP; _ ← expect_sym STAR; _ ← expect_sym RP; mret ICountStar
  else match parse_agg_func (upper t) with
  | Some func => _ ← advance; _ ← expect_sym LP; column ← parse_col_ref; _ ← expect_sym RP; mret (IAggregate func column)
  | None =>
    if is_ident t && is_sym LP t1 then
      name ← expect_ident; _ ← expect_sym LP; _ ← expect_sym RP; alias ← opt_alias; _ ← skip_casts;
      mret (ISysFunc name alias)
    else if is_number t || is_text t || (is_sym DASH t && is_number t1) then literal_item
    else column ← parse_col_ref; mret (IColumn column)
  end.

Definition join_kind : PM (option JoinKind) :=
  eats eat_kw "INNER" then _ ← eat_kw "JOIN"; mret (Some JInner)
  else eats eat_kw "LEFT" then _ ← eat_kw "OUTER"; _ ← expect_kw "JOIN"; mret (Some JLeft)
  else eats eat_kw "JOIN" then mret (Some JInner)
  else mret None.

Definition parse_joins : PM (list JoinClause) :=
  loop (fun joins =>
    kind ← join_kind;
    match kind with
    | None => mret (inr joins)
    | Some kind =>
      table ← parse_table_ref; _ ← expect_kw "ON"; on ← parse_join_cond;
      mret (inl (joins ++ [mkJoinClause kind table on]))
    end) [].

Definition parse_where : PM (option Expr) := eats eat_kw "WHERE" then e ← parse_expr; mret (Some e) else mret None.

Definition order_key : PM (bytes * bool) :=
  col ← parse_col_ref;
  eats eat_kw "DESC" then mret (col, true) else (_ ← eat_kw "ASC"; mret (col, false)).

Definition parse_limit : PM (option Z) :=
  eats eat_kw "LIMIT" then
    t ← next;
    match t with
    | TNumber n =>
      match parse_usize n with Some v => mret (Some v) | None => perr (str "invalid LIMIT value '" ++ n ++ str "'") end
    | t => wrong (str "expected LIMIT number") t
    end
  else mret None.

Definition parse_select_body : PM SelectStmt :=
  items ← comma_list parse_item;
  from ← (eats eat_kw "FROM" then parse_table_ref else mret REmpty);
  joins ← parse_joins;
  selection ← parse_where;
  group_by ← (eats eat_kw "GROUP" then (_ ← expect_kw "BY"; comma_list parse_col_ref) else mret []);
  order_by ← (eats eat_kw "ORDER" then (_ ← expect_kw "BY"; comma_list order_key) else mret []);
  limit ← parse_limit;
  mret (mkSelectStmt items from joins selection order_by limit group_by).

Definition parse_select_stmt : PM SelectStmt := _ ← expect_kw "SELECT"; parse_select_body.

End with_rec.

(** The knot.  A recursive call starts after a consumed token, so one level
    more than there are tokens is enough. *)
Fixpoint parsers (n : nat) : Rec :=
  match n with
  | O => mkRec (fun _ => Fuel) (fun _ => Fuel) (fun _ => Fuel)
  | S n => let self := parsers n in mkRec (parse_or self) (parse_not self) (parse_select_stmt self)
  end.

End parser.
