(* ===== verification/ParseStmt.v ===== *)
(** The statements of the SQL parser (sql/parser.rs), and [parse_sql]. *)
From stdpp Require Import base list gmap strings.
From Stdlib Require Import ZArith Lia.
From S2P Require Import Prelude Machine Utf8 Types DateTime TableDef BTree Table Literal Lexer Expr Ast Parser.

Section statements.
Context (f64_show : Z -> bytes) (dbg_token : Token -> bytes) (dbg_datum : Datum -> bytes) (dbg_expr : Expr -> bytes).

Abbreviation expect_sym := (expect_sym dbg_token).
Abbreviation expect_kw := (expect_kw dbg_token).
Abbreviation expect_ident := (expect_ident dbg_token).
Abbreviation fail_got := (fail_got dbg_token).
Abbreviation wrong := (wrong dbg_token).

Section with_rec.
Context (self : Rec).

Abbreviation parse_literal_operand := (parse_literal_operand f64_show dbg_token dbg_datum dbg_expr self).
Abbreviation parse_expr := (parse_expr f64_show dbg_token dbg_datum dbg_expr self).
Abbreviation parse_where := (parse_where f64_show dbg_token dbg_datum dbg_expr self).
Abbreviation parse_select_stmt := (parse_select_stmt f64_show dbg_token dbg_datum dbg_expr self).

(** A string literal, named [what] in the message. *)
Definition text_literal (what : bytes) : PM bytes :=
  d ← parse_literal_operand; match d with Text p => mret p | other => perr (what ++ str ", got " ++ dbg_datum other) end.

(** [self.eat_kw(k)] for its effect. *)
Definition skip_kw (k : string) : PM () := _ ← eat_kw k; mret ().

(** [IF NOT EXISTS] and [IF EXISTS]. *)
Definition if_not_exists : PM bool :=
  eats eat_kw "IF" then _ ← expect_kw "NOT"; _ ← expect_kw "EXISTS"; mret true else mret false.
Definition if_exists : PM bool := eats eat_kw "IF" then _ ← expect_kw "EXISTS"; mret true else mret false.

Definition parse_fk_action : PM FkAction :=
  eats eat_kw "RESTRICT" then mret Restrict
  else eats eat_kw "CASCADE" then mret Cascade
  else eats eat_kw "SET" then _ ← expect_kw "NULL"; mret SetNull
  else fail_got (str "expected RESTRICT, CASCADE, or SET NULL").

Definition parse_isolation_level : PM IsolationLevel :=
  eats eat_kw "REPEATABLE" then _ ← expect_kw "READ"; mret RepeatableRead
  else eats eat_kw "READ" then
    (eats eat_kw "COMMITTED" then mret ReadCommitted
     else eats eat_kw "UNCOMMITTED" then mret ReadCommitted
     else perr (str "expected COMMITTED or UNCOMMITTED after READ"))
  else eats eat_kw "SERIALIZABLE" then mret Serializable
  else t ← peek; perr (str "unknown isolation level: " ++ dbg_token t).

(** * Accounts *)

Definition parse_user_name : PM bytes :=
  t ← next;
  name ← match t with TStr s | TIdent s => mret s | t => wrong (str "expected user name") t end;
  _ ← (eats eat_sym AT then
         h ← next; match h with TStr _ | TIdent _ => mret () | h => wrong (str "expected host after '@'") h end
       else mret ());
  if (Zlen name =? 0) || (256 <? Zlen name) then perr (str "bad user name") else mret name.

Definition parse_password : PM bytes := text_literal (str "password must be a string literal").

Definition parse_priv : PM Privilege :=
  word ← expect_ident;
  match Privilege_parse word with
  | None => perr (str "unknown privilege '" ++ word ++ str "'")
  | Some PAll => _ ← skip_kw "PRIVILEGES"; mret PAll
  | Some p => mret p
  end.

Definition parse_priv_list : PM (list Privilege) := comma_list parse_priv.

Definition parse_grant_scope : PM GrantScope :=
  eats eat_sym STAR then
    _ ← (eats eat_sym DOT then expect_sym STAR else mret ()); mret GGlobal
  else
    t ← next;
    first ← match t with TStr s | TIdent s => mret s | t => wrong (str "expected grant scope") t end;
    eats eat_sym DOT then
      (eats eat_sym STAR then mret (GDatabase first) else tbl ← expect_ident; mret (GTable (Some first) tbl))
    else mret (GTable None first).

Definition parse_grant (revoke : bool) : PM Statement :=
  _ ← advance;
  privs ← parse_priv_list;
  _ ← expect_kw "ON";
  scope ← parse_grant_scope;
  _ ← expect_kw (if revoke then "FROM" else "TO")%string;
  user ← parse_user_name;
  mret (if revoke then SRevoke privs scope user else SGrant privs scope user).

(** * CREATE and DROP *)

(** [for col in &mut columns { if .. { col.primary_key = true; ..; break } }] *)
Fixpoint mark_pk (pk_col : bytes) (columns : list ColumnSpec) : option (list ColumnSpec) :=
  match columns with
  | [] => None
  | c :: columns =>
    if eq_ignore_ascii_case (cs_name c) pk_col
    then Some (mkColumnSpec (cs_name c) (cs_ctype c) true true (cs_auto_increment c) (cs_default_value c) :: columns)
    else cons c <$> mark_pk pk_col columns
  end.

(** [(column)] *)
Definition paren_ident : PM bytes := _ ← expect_sym LP; c ← expect_ident; _ ← expect_sym RP; mret c.

(** [ON DELETE] and [ON UPDATE] clauses, from an action for deletes. *)
Definition fk_actions : PM FkAction :=
  loop (fun on_delete =>
    eats eat_kw "ON" then
      (eats eat_kw "DELETE" then a ← parse_fk_action; mret (inl a)
       else eats eat_kw "UPDATE" then
         a ← parse_fk_action;
         match a with Restrict => mret (inl on_delete)
         | _ => fail (NotSupported (str "ON UPDATE CASCADE/SET NULL is not supported")) end
       else fail_got (str "expected DELETE or UPDATE after ON"))
    else mret (inr on_delete)) Restrict.

Definition foreign_key (name : option bytes) : PM ForeignKeySpec :=
  _ ← expect_kw "KEY";
  column ← paren_ident;
  _ ← expect_kw "REFERENCES";
  ref_table ← expect_ident;
  ref_column ← paren_ident;
  on_delete ← fk_actions;
  mret (mkForeignKeySpec name column ref_table ref_column on_delete).

Record ColFlags := mkColFlags { cf_not_null : bool; cf_pk : bool; cf_auto : bool; cf_default : option Datum }.

Definition column_flags : PM ColFlags :=
  loop (fun f =>
    eats eat_kw "PRIMARY" then _ ← expect_kw "KEY"; mret (inl (mkColFlags true true (cf_auto f) (cf_default f)))
    else eats eat_kw "NOT" then _ ← expect_kw "NULL"; mret (inl (mkColFlags true (cf_pk f) (cf_auto f) (cf_default f)))
    else eats eat_kw "AUTO_INCREMENT" then mret (inl (mkColFlags (cf_not_null f) (cf_pk f) true (cf_default f)))
    else eats eat_kw "DEFAULT" then
      lit ← parse_literal_operand; mret (inl (mkColFlags (cf_not_null f) (cf_pk f) (cf_auto f) (Some lit)))
    else mret (inr f)) (mkColFlags false false false None).

Definition type_length : PM () :=
  eats eat_sym LP then
    t ← next; match t with TNumber _ => expect_sym RP | t => wrong (str "expected type length") t end
  else mret ().

Definition column_spec : PM ColumnSpec :=
  cname ← expect_ident; ctype ← expect_ident; _ ← type_length; f ← column_flags;
  mret (mkColumnSpec cname ctype (cf_not_null f) (cf_pk f) (cf_auto f) (cf_default f)).

Definition constraint_name : PM (option bytes) :=
  eats eat_kw "CONSTRAINT" then
    t ← peek;
    if is_kw "FOREIGN" t || is_kw "PRIMARY" t then mret None else n ← expect_ident; mret (Some n)
  else mret None.

(** One entry of the body of CREATE TABLE: a constraint or a column. *)
Definition table_entry (acc : list ColumnSpec * list ForeignKeySpec) :
    PM ((list ColumnSpec * list ForeignKeySpec) + (list ColumnSpec * list ForeignKeySpec)) :=
  name ← constraint_name;
  eats eat_kw "PRIMARY" then
    _ ← expect_kw "KEY";
    pk_col ← paren_ident;
    match mark_pk pk_col acc.1 with
    | None => perr (str "PRIMARY KEY column '" ++ pk_col ++ str "' not found in table definition")
    | Some columns => go_on (columns, acc.2)
    end
  else eats eat_kw "FOREIGN" then fk ← foreign_key name; go_on (acc.1, acc.2 ++ [fk])
  else match name with
  | Some _ => perr (str "CONSTRAINT must precede FOREIGN KEY or PRIMARY KEY")
  | None => c ← column_spec; go_on (acc.1 ++ [c], acc.2)
  end.

Definition parse_create : PM Statement :=
  _ ← advance;
  eats or_else (eat_kw "DATABASE") (eat_kw "SCHEMA") then
    b ← if_not_exists; name ← expect_ident; mret (SCreateDatabase name b)
  else eats eat_kw "USER" then
    b ← if_not_exists; name ← parse_user_name; _ ← expect_kw "IDENTIFIED"; _ ← expect_kw "BY";
    password ← parse_password; mret (SCreateUser name b password)
  else eats eat_kw "TABLE" then
    b ← if_not_exists; name ← expect_ident; _ ← expect_sym LP;
    entries ← loop table_entry ([], []); _ ← expect_sym RP;
    mret (SCreateTable name entries.1 entries.2 b)
  else eats eat_kw "INDEX" then
    b ← if_not_exists; name ← expect_ident; _ ← expect_kw "ON"; table ← expect_ident;
    column ← paren_ident; mret (SCreateIndex name table column b)
  else fail_got (str "expected DATABASE, TABLE, or INDEX after CREATE").

Definition parse_drop : PM Statement :=
  _ ← advance;
  eats or_else (eat_kw "DATABASE") (eat_kw "SCHEMA") then
    b ← if_exists; name ← expect_ident; mret (SDropDatabase name b)
  else eats eat_kw "TABLE" then b ← if_exists; name ← expect_ident; mret (SDropTable name b)
  else eats eat_kw "USER" then b ← if_exists; name ← parse_user_name; mret (SDropUser name b)
  else eats eat_kw "INDEX" then
    b ← if_exists; name ← expect_ident; _ ← expect_kw "ON"; table ← expect_ident; mret (SDropIndex name table b)
  else fail_got (str "expected DATABASE, TABLE, USER, or INDEX after DROP").

(** * Rows *)

Definition parse_insert : PM Statement :=
  _ ← advance;
  _ ← expect_kw "INTO";
  table ← expect_ident;
  columns ← (eats eat_sym LP then cols ← closed_list dbg_token expect_ident; mret (Some cols) else mret None);
  _ ← expect_kw "VALUES";
  rows ← comma_list (_ ← expect_sym LP; closed_list dbg_token parse_expr);
  mret (SInsert table columns rows).

Definition assignment : PM (bytes * Expr) :=
  col ← expect_ident; _ ← expect_sym EQUALS; v ← parse_expr; mret (col, v).

Definition parse_update : PM Statement :=
  _ ← advance;
  table ← expect_ident;
  _ ← expect_kw "SET";
  assignments ← comma_list assignment;
  selection ← parse_where;
  mret (SUpdate table assignments selection).

Definition parse_delete : PM Statement :=
  _ ← advance;
  _ ← expect_kw "FROM";
  table ← expect_ident;
  selection ← parse_where;
  mret (SDelete table selection).

Definition parse_select : PM Statement :=
  s ← parse_select_stmt;
  match s with
  | mkSelectStmt items from joins selection order_by limit group_by =>
    mret (SSelect items from joins selection order_by limit group_by)
  end.

(** * Transactions, SHOW, SET, EXPLAIN *)

Definition isolation_clause : PM IsolationLevel := _ ← expect_kw "LEVEL"; parse_isolation_level.

(** After [READ]: [ONLY], or an optional [WRITE]. *)
Definition read_only_clause : PM bool := eats eat_kw "ONLY" then mret true else (_ ← eat_kw "WRITE"; mret false).

Definition parse_begin : PM Statement :=
  _ ← advance;
  _ ← skip_kw "TRANSACTION";
  isolation ← (eats eat_kw "ISOLATION" then l ← isolation_clause; mret (Some l) else mret None);
  read_only ← (eats eat_kw "READ" then read_only_clause else mret false);
  mret (SBegin isolation read_only).

Record TxnOpts := mkTxnOpts { to_snapshot : bool; to_isolation : option IsolationLevel; to_read_only : bool }.

Definition txn_option (o : TxnOpts) : PM (TxnOpts + TxnOpts) :=
  t ← peek;
  if bool_decide (t = TEof) then mret (inr o)
  else eats eat_kw "WITH" then
    _ ← expect_kw "CONSISTENT"; _ ← expect_kw "SNAPSHOT"; mret (inl (mkTxnOpts true (to_isolation o) (to_read_only o)))
  else eats eat_kw "ISOLATION" then
    l ← isolation_clause; mret (inl (mkTxnOpts (to_snapshot o) (Some l) (to_read_only o)))
  else eats eat_kw "READ" then
    only ← read_only_clause;
    mret (inl (mkTxnOpts (to_snapshot o) (to_isolation o) (if only : bool then true else to_read_only o)))
  else mret (inr o).

Definition parse_start : PM Statement :=
  _ ← advance;
  _ ← expect_kw "TRANSACTION";
  o ← loop txn_option (mkTxnOpts false None false);
  mret (SStartTransaction (to_snapshot o) (to_isolation o) (to_read_only o)).

Definition parse_show : PM Statement :=
  _ ← advance;
  eats eat_kw "TABLES" then mret SShowTables
  else eats or_else (eat_kw "DATABASES") (eat_kw "SCHEMAS") then mret SShowDatabases
  else eats eat_kw "STATUS" then
    like ← (eats eat_kw "LIKE" then p ← text_literal (str "SHOW STATUS LIKE needs a string pattern"); mret (Some p)
            else mret None);
    mret (SShowStatus like)
  else eats or_else (eat_kw "ENGINE") (eat_kw "ENGINES") then
    _ ← skip_kw "INNODB"; _ ← skip_kw "STATUS"; mret SShowEngineStatus
  else eats eat_kw "PROCESSLIST" then mret SShowProcesslist
  else eats eat_kw "GRANTS" then
    for_user ← (eats eat_kw "FOR" then u ← parse_user_name; mret (Some u) else mret None); mret (SShowGrants for_user)
  else fail_got (str "expected TABLES, DATABASES, STATUS, ENGINE STATUS, PROCESSLIST or GRANTS after SHOW").

Definition parse_backup : PM Statement :=
  _ ← advance; _ ← expect_kw "DATABASE"; _ ← expect_kw "TO";
  path ← text_literal (str "BACKUP path must be a string literal"); mret (SBackup path).

Definition parse_archive : PM Statement :=
  _ ← advance;
  dir ← (eats or_else (eat_kw "TO") (t ← peek; mret (is_text t)) then
           p ← text_literal (str "ARCHIVE path must be string"); mret (Some p)
         else mret None);
  mret (SArchive dir).

(** The value of a variable: [ON] and [OFF] are words, all else is a literal. *)
Definition set_value : PM Datum :=
  t ← peek;
  match t with
  | TIdent s =>
    if eq_ignore_ascii_case s (str "ON") then _ ← advance; mret (Text (str "ON"))
    else if eq_ignore_ascii_case s (str "OFF") then _ ← advance; mret (Text (str "OFF"))
    else parse_literal_operand
  | _ => parse_literal_operand
  end.

Definition set_name : PM bytes :=
  _ ← (eats eat_sym AT then eat_sym AT else mret false);
  name ← expect_ident;
  eats eat_sym DOT then sub ← expect_ident; mret (name ++ str "." ++ sub) else mret name.

Definition parse_set : PM Statement :=
  _ ← advance;
  is_session ← eat_kw "SESSION";
  is_global ← (if is_session : bool then mret false else eat_kw "GLOBAL");
  eats eat_kw "TRANSACTION" then
    _ ← expect_kw "ISOLATION"; level ← isolation_clause; mret (SSetTransaction level is_global)
  else eats eat_kw "NAMES" then v ← parse_literal_operand; mret (SSetVariable (str "names") v)
  else name ← set_name; _ ← expect_sym EQUALS; v ← set_value; mret (SSetVariable name v).

Definition parse_analyze : PM Statement := _ ← advance; _ ← expect_kw "TABLE"; table ← expect_ident; mret (SAnalyzeTable table).

Definition parse_check : PM Statement :=
  _ ← advance;
  eats eat_kw "DATABASE" then
    t ← peek;
    if is_ident t then n ← expect_ident; mret (SCheckDatabase (Some n)) else mret (SCheckDatabase None)
  else (_ ← expect_kw "TABLE"; table ← expect_ident; mret (SCheckTable table)).

Definition select_only (what : bytes) : PM Statement :=
  t ← peek; if is_kw "SELECT" t then parse_select else fail_got (what ++ str " supports SELECT only").

Definition parse_explain : PM Statement :=
  _ ← advance;
  analyze ← eat_kw "ANALYZE";
  memo ← (if analyze : bool then mret false else eat_kw "MEMO");
  s ← select_only (str "EXPLAIN");
  mret (if memo : bool then SExplainMemo s else SExplain analyze s).

Definition parse_describe : PM Statement := _ ← advance; s ← select_only (str "DESCRIBE"); mret (SExplain false s).

Definition parse_alter : PM Statement :=
  _ ← advance; _ ← expect_kw "USER"; name ← parse_user_name; _ ← expect_kw "IDENTIFIED"; _ ← expect_kw "BY";
  password ← parse_password; mret (SAlterUser name password).

Definition parse_use : PM Statement := _ ← advance; name ← expect_ident; mret (SUseDatabase name).

(** A statement of one word. *)
Definition word (s : Statement) : PM Statement := _ ← advance; mret s.

(** The statement each first word starts. *)
Definition statement_table : list (string * PM Statement) :=
  [("CREATE", parse_create); ("DROP", parse_drop); ("USE", parse_use); ("INSERT", parse_insert); ("SELECT", parse_select);
   ("UPDATE", parse_update); ("DELETE", parse_delete); ("BEGIN", parse_begin); ("START", parse_start);
   ("COMMIT", word SCommit); ("ROLLBACK", word SRollback); ("SHOW", parse_show); ("CHECKPOINT", word SCheckpoint);
   ("PROMOTE", word SPromote); ("BACKUP", parse_backup); ("ARCHIVE", parse_archive); ("SET", parse_set);
   ("ANALYZE", parse_analyze); ("CHECK", parse_check); ("EXPLAIN", parse_explain); ("DESCRIBE", parse_describe);
   ("GRANT", parse_grant false); ("REVOKE", parse_grant true); ("ALTER", parse_alter)]%string.

Fixpoint dispatch (l : list (string * PM Statement)) (t : Token) : PM Statement :=
  match l with
  | [] => fail_got (str "expected statement")
  | (k, p) :: l => if is_kw k t then p else dispatch l t
  end.

Definition parse_statement : PM Statement := t ← peek; dispatch statement_table t.

(** A whole text: one statement, an optional [;], nothing else. *)
Definition parse_all : PM Statement :=
  stmt ← parse_statement;
  _ ← eat_sym (chr ";");
  t ← peek;
  if bool_decide (t = TEof) then mret stmt else perr (str "unexpected trailing input: " ++ dbg_token t).

End with_rec.

Definition parse_sql (src : bytes) : out (res Statement) :=
  r ← tokenize src;
  match r with
  | Ok tokens =>
    '(_, r) ← parse_all (parsers f64_show dbg_token dbg_datum dbg_expr (S (length tokens))) tokens; mret r
  | Err e => mret (Err e)
  | Panic => mret Panic
  end.

End statements.

(** * Examples *)

Section examples.
Let dbg {A} (_ : A) : bytes := str "?".
Let parse (s : string) : out (res Statement) := parse_sql dbg dbg dbg dbg (str s).

Example parse_precedence : parse "DELETE FROM t WHERE NOT a = 1 OR b < 2 AND 'x' > c" =
  Ret (Ok (SDelete (str "t") (Some (EOr (ENot (ECmp (EColumn (str "a")) OpEq (ELiteral (Int 1))))
    (EAnd (ECmp (EColumn (str "b")) OpLt (ELiteral (Int 2))) (ECmp (EColumn (str "c")) OpLt (ELiteral (Text (str "x"))))))))).
Proof. vm_compute. reflexivity. Qed.

Example parse_subquery : parse "SELECT a FROM (SELECT * FROM u) AS v WHERE a IN (SELECT b FROM w LIMIT 3);" =
  Ret (Ok (SSelect [IColumn (str "a")]
    (RDerived (mkSelectStmt [IStar] (RTable (str "u")) [] None [] None []) (str "v")) []
    (Some (EInSubquery (EColumn (str "a")) (mkSelectStmt [IColumn (str "b")] (RTable (str "w")) [] None [] (Some 3) []) false))
    [] None [])).
Proof. vm_compute. reflexivity. Qed.

Example parse_create_ex : parse "CREATE TABLE t (id INT AUTO_INCREMENT, p BIGINT DEFAULT 5::int8, PRIMARY KEY (ID), FOREIGN KEY (p) REFERENCES u(id) ON DELETE CASCADE)" =
  Ret (Ok (SCreateTable (str "t")
    [mkColumnSpec (str "id") (str "INT") true true true None; mkColumnSpec (str "p") (str "BIGINT") false false false (Some (Int 5))]
    [mkForeignKeySpec None (str "p") (str "u") (str "id") Cascade] false)).
Proof. vm_compute. reflexivity. Qed.

End examples.
