(* ===== verification/ParserTotal.v ===== *)
(** The parser always answers: every loop and every recursive call consumes
    tokens, so the rounds and levels the definitions allow are never used up,
    and no call panics. *)
From stdpp Require Import base list gmap strings.
From Stdlib Require Import ZArith Lia.
From S2P Require Import Prelude Machine Utf8 Types DateTime TableDef BTree Table Literal Lexer Expr Ast.
From S2P Require Import Parser ParseStmt.

(** [c] answers on [ts], does not move the cursor back, and a result it returns
    satisfies [Q]. *)
Definition run {A} (c : PM A) (ts : list Token) (Q : A -> list Token -> Prop) : Prop :=
  exists ts' r, c ts = Ret (ts', r) /\ (length ts' <= length ts)%nat /\
    match r with Ok a => Q a ts' | Err _ => True | Panic => False end.

Lemma run_mono {A} (c : PM A) ts (Q Q' : A -> list Token -> Prop) :
  run c ts Q -> (forall a ts', (length ts' <= length ts)%nat -> Q a ts' -> Q' a ts') -> run c ts Q'.
Proof. intros (ts' & r & Hc & Hl & Hr) H. exists ts', r. split_and!; [done..|]. destruct r; auto. Qed.

Lemma run_bind {A B} (c : PM A) (k : A -> PM B) ts Q Q' :
  run c ts Q -> (forall a ts', (length ts' <= length ts)%nat -> Q a ts' -> run (k a) ts' Q') -> run (c ≫= k) ts Q'.
Proof.
  intros (ts' & r & Hc & Hl & Hr) Hk. unfold mbind, sm_bind. unfold run in *. rewrite Hc. destruct r as [a|e|]; [|by exists ts', (Err e)|done].
  destruct (Hk a ts' Hl Hr) as (ts2 & r2 & Hk2 & Hl2 & Hr2). exists ts2, r2. split_and!; [done|lia|done].
Qed.

Lemma run_ret {A} (a : A) ts (Q : A -> list Token -> Prop) : Q a ts -> run (mret a) ts Q.
Proof. intros H. by exists ts, (Ok a). Qed.

Lemma run_perr {A} m ts (Q : A -> list Token -> Prop) : run (perr m) ts Q.
Proof. by exists ts, (Err (ParseError m)). Qed.

Lemma run_fail {A} e ts (Q : A -> list Token -> Prop) : run (fail e) ts Q.
Proof. by exists ts, (Err e). Qed.

Lemma run_lift {A} (r : res A) ts (Q : A -> list Token -> Prop) : r <> Panic -> (forall a, Q a ts) -> run (lift r) ts Q.
Proof. intros Hr H. exists ts, r. split_and!; [done..|]. destruct r; auto. Qed.

Lemma run_peek ts (Q : Token -> list Token -> Prop) : Q (hd TEof ts) ts -> run peek ts Q.
Proof. intros H. by exists ts, (Ok (hd TEof ts)). Qed.

Lemma run_peek1 ts (Q : Token -> list Token -> Prop) : (forall t, Q t ts) -> run peek_at_1 ts Q.
Proof. intros H. unfold peek_at_1. by exists ts, (Ok (hd TEof (tail ts))). Qed.

Lemma run_advance ts (Q : () -> list Token -> Prop) : Q () (tail ts) -> run advance ts Q.
Proof. intros H. exists (tail ts), (Ok ()). split_and!; [done| |done]. destruct ts; cbn; lia. Qed.

Lemma run_next ts (Q : Token -> list Token -> Prop) :
  (forall t ts', (t <> TEof -> length ts' < length ts)%nat -> Q t ts') -> run next ts Q.
Proof.
  intros H. exists (tail ts), (Ok (hd TEof ts)). split_and!; [done| |]; [destruct ts; cbn; lia|].
  apply H. destruct ts as [|t ts]; cbn; [done|lia].
Qed.

Lemma run_fail_got {A} dbg m ts (Q : A -> list Token -> Prop) : run (fail_got dbg m) ts Q.
Proof. by exists ts, (Err (ParseError (m ++ str ", got " ++ dbg (hd TEof ts)))). Qed.

(** A test that fails at the end of the input consumes what it accepts. *)
Lemma run_eat f ts (Q : bool -> list Token -> Prop) :
  f TEof = false -> (forall ts', (length ts' < length ts)%nat -> Q true ts') -> Q false ts -> run (eat_if f) ts Q.
Proof.
  intros Hf Ht HF. unfold eat_if. eapply run_bind; [apply (run_peek ts (fun t ts' => t = hd TEof ts /\ ts' = ts)); done|].
  intros t ts' _ [-> ->]. destruct ts as [|t ts]; cbn [hd]; [rewrite Hf; by apply run_ret|].
  destruct (f t); [|by apply run_ret]. eapply run_bind; [apply (run_advance _ (fun _ ts' => ts' = ts)); done|].
  intros _ ts' _ ->. apply run_ret, Ht. cbn. lia.
Qed.

Lemma run_loop {A B} (body : A -> PM (A + B)) a ts (Q : B -> list Token -> Prop) :
  (forall a ts', (length ts' <= length ts)%nat ->
     run (body a) ts' (fun r ts2 => match r with inl _ => (length ts2 < length ts')%nat | inr b => Q b ts2 end)) ->
  run (loop body a) ts Q.
Proof.
  intros H. unfold loop. enough (Hn : forall n ts' a, (length ts' < n)%nat -> (length ts' <= length ts)%nat -> run (rounds n body a) ts' Q).
  { destruct (Hn (S (length ts)) ts a) as (ts' & r & Hr); [lia..|]. by exists ts', r. }
  induction n as [|n IH]; intros ts' a' Hn Hl; [lia|]. cbn [rounds]. eapply run_bind; [by apply H|].
  intros [a2|b] ts2 Hl2 Hq; [|by apply run_ret]. apply IH; lia.
Qed.

(** * Calls that consume *)

(** On inputs of less than [n] tokens [c] answers; [true]: and a result it
    returns has consumed a token. *)
Definition answers (strict : bool) (n : nat) {A} (c : PM A) : Prop :=
  forall ts, (length ts < n)%nat -> run c ts (fun _ ts' => if strict then (length ts' < length ts)%nat else True).

Lemma answers_lax n {A} (c : PM A) : answers true n c -> answers false n c.
Proof. intros H ts Hts. eapply run_mono; [by apply H|done]. Qed.

Lemma answers_less b n n' {A} (c : PM A) : answers b n c -> (n' <= n)%nat -> answers b n' c.
Proof. intros H Hn ts Hts. apply H. lia. Qed.

Create HintDb parse.

Lemma coerce_literal_no_panic f dbg d t target : coerce_literal f dbg d t target <> Panic.
Proof. unfold coerce_literal. repeat case_match; done. Qed.

Lemma apply_cast_no_panic f d1 d2 e t : apply_cast f d1 d2 e t <> Panic.
Proof.
  unfold apply_cast. destruct (negb _); [done|]. destruct e; try done.
  pose proof (coerce_literal_no_panic f d1 d (to_ascii_uppercase t) t). by destruct (coerce_literal _ _ _ _ _).
Qed.

Lemma parse_number_no_panic n : parse_number n <> Panic.
Proof. unfold parse_number. repeat case_match; done. Qed.

Lemma where_cmp_no_panic a o b : where_cmp a o b <> Panic.
Proof. destruct a, b; done. Qed.

Lemma subquery_cmp_no_panic dbg a o b : subquery_cmp dbg a o b <> Panic.
Proof. by destruct b. Qed.

Lemma join_cmp_no_panic a o b : join_cmp a o b <> Panic.
Proof. destruct a, b; done. Qed.

#[export] Hint Resolve apply_cast_no_panic parse_number_no_panic where_cmp_no_panic subquery_cmp_no_panic join_cmp_no_panic : parse.
#[export] Hint Resolve answers_lax : parse.
#[export] Hint Unfold upper is_kw is_ident is_text is_number : parse.

(** ** One step of a function *)

Section steps.
Context {A B : Type} (ts : list Token) (Q : B -> list Token -> Prop).

Lemma step_peek (k : Token -> PM B) : run (k (hd TEof ts)) ts Q -> run (peek ≫= k) ts Q.
Proof. intros H. eapply run_bind; [apply (run_peek ts (fun t ts' => t = hd TEof ts /\ ts' = ts)); done|]. by intros t ts' _ [-> ->]. Qed.

Lemma step_peek1 (k : Token -> PM B) : (forall t, run (k t) ts Q) -> run (peek_at_1 ≫= k) ts Q.
Proof. intros H. eapply run_bind; [apply (run_peek1 ts (fun t ts' => ts' = ts)); done|]. by intros t ts' _ ->. Qed.

Lemma step_advance (k : () -> PM B) : (length (tail ts) <= length ts -> run (k ()) (tail ts) Q)%nat -> run (advance ≫= k) ts Q.
Proof. intros H. specialize (H ltac:(destruct ts; cbn; lia)). eapply run_bind; [apply (run_advance ts (fun _ ts' => ts' = tail ts)); done|]. by intros [] ts' _ ->. Qed.

Lemma step_next (k : Token -> PM B) :
  (forall t ts', (length ts' <= length ts)%nat -> (t <> TEof -> length ts' < length ts)%nat -> run (k t) ts' Q) -> run (next ≫= k) ts Q.
Proof. intros H. eapply run_bind; [apply (run_next ts (fun t ts' => t <> TEof -> length ts' < length ts)%nat); done|]. auto. Qed.

Lemma step_eat f (k : bool -> PM B) :
  f TEof = false -> (forall ts', (length ts' < length ts)%nat -> run (k true) ts' Q) -> run (k false) ts Q -> run (eat_if f ≫= k) ts Q.
Proof.
  intros Hf H1 H2. eapply run_bind.
  - apply (run_eat f ts (fun b ts' => if b then (length ts' < length ts)%nat else ts' = ts)); [done..|]. reflexivity.
  - intros [] ts' _; [apply H1|by intros ->].
Qed.

Lemma step_lift (r : res A) (k : A -> PM B) : r <> Panic -> (forall a, run (k a) ts Q) -> run (lift r ≫= k) ts Q.
Proof. intros Hr H. eapply run_bind; [apply (run_lift r ts (fun _ ts' => ts' = ts)); done|]. by intros a ts' _ ->. Qed.

Lemma step_perr m (k : A -> PM B) : run (perr m ≫= k) ts Q.
Proof. by exists ts, (Err (ParseError m)). Qed.

Lemma step_fail_got dbg m (k : A -> PM B) : run (fail_got dbg m ≫= k) ts Q.
Proof. by exists ts, (Err (ParseError (m ++ str ", got " ++ dbg (hd TEof ts)))). Qed.

Lemma step_ret (a : A) (k : A -> PM B) : run (k a) ts Q -> run (mret a ≫= k) ts Q.
Proof. done. Qed.

Lemma step_assoc {C} (c : PM C) (k1 : C -> PM A) (k2 : A -> PM B) :
  run (c ≫= (fun x => k1 x ≫= k2)) ts Q -> run ((c ≫= k1) ≫= k2) ts Q.
Proof.
  intros (ts' & r & H & Hl & Hr). exists ts', r. split_and!; [|done..]. rewrite <- H. unfold mbind, sm_bind.
  by destruct (c ts) as [[s [a|e|]]| |].
Qed.

Lemma step_call b n (c : PM A) (k : A -> PM B) : answers b n c -> (length ts < n)%nat ->
  (forall a ts', (length ts' <= length ts)%nat -> (if b then (length ts' < length ts)%nat else True) -> run (k a) ts' Q) -> run (c ≫= k) ts Q.
Proof. intros Hc Hn H. eapply run_bind; [by apply Hc|]. auto. Qed.

End steps.

Lemma last_call {A} ts (Q : A -> list Token -> Prop) b n (c : PM A) : answers b n c -> (length ts < n)%nat ->
  (forall a ts', (length ts' <= length ts)%nat -> (if b then (length ts' < length ts)%nat else True) -> Q a ts') -> run c ts Q.
Proof. intros Hc Hn H. eapply run_mono; [by apply Hc|]. auto. Qed.

(** The empty remainder has no token but the end. *)
Ltac there :=
  match goal with
  | H : context [hd TEof ?ts] |- (length (tail ?ts) < _)%nat => destruct ts; [done|cbn [tail length] in *; lia]
  | H : _ <> TEof -> _ |- _ => specialize (H ltac:(discriminate)); lia
  | |- _ => lia
  end.

Ltac step := cbn beta iota;
  lazymatch goal with
  | |- run (mret _) _ _ => apply run_ret
  | |- run (perr _) _ _ => apply run_perr
  | |- run (fail _) _ _ => apply run_fail
  | |- run (fail_got _ _) _ _ => apply run_fail_got
  | |- run (wrong _ _ _) _ _ => apply run_perr
  | |- run (lift _) _ _ => apply run_lift; [solve [eauto with parse]|intros ?]
  | |- run (mbind _ (mbind _ _)) _ _ => apply step_assoc
  | |- run (mbind _ peek) _ _ => apply step_peek
  | |- run (mbind _ peek_at_1) _ _ => apply step_peek1; intros ?
  | |- run (mbind _ advance) _ _ => apply step_advance; intros ?
  | |- run (mbind _ next) _ _ => apply step_next; intros ? ? ? ?
  | |- run (mbind _ (fail_got _ _)) _ _ => apply step_fail_got
  | |- run (mbind _ (perr _)) _ _ => apply step_perr
  | |- run (mbind _ (wrong _ _ _)) _ _ => apply step_perr
  | |- run (mbind _ (match ?x with _ => _ end)) _ _ => destruct x eqn:?
  | |- run (mbind _ (eat_sym _)) _ _ => apply step_eat; [done|intros ? ?|]
  | |- run (mbind _ (eat_kw _)) _ _ => apply step_eat; [done|intros ? ?|]
  | |- run (mbind _ (mret _)) _ _ => apply step_ret
  | |- run (mbind _ (lift _)) _ _ => apply step_lift; [solve [eauto with parse]|intros ?]
  | |- run (mbind _ (or_else _ _)) _ _ => unfold or_else
  | |- run (mbind _ (if ?b then _ else _)) _ _ => destruct b eqn:?
  | |- run (mbind _ _) _ _ =>
    first [ eapply (step_call _ _ true); [solve [eauto with parse]|first [apply Nat.lt_succ_diag_r|there]|intros ? ? ? ?]
          | eapply (step_call _ _ false); [solve [eauto with parse]|first [apply Nat.lt_succ_diag_r|there]|intros ? ? ? ?] ]
  | |- run (if ?b then _ else _) _ _ => destruct b eqn:?
  | |- run (match ?x with _ => _ end) _ _ => destruct x eqn:?
  | |- run _ _ _ =>
    first [ eapply (last_call _ _ true); [solve [eauto with parse]|first [apply Nat.lt_succ_diag_r|there]|intros ? ? ? ?]
          | eapply (last_call _ _ false); [solve [eauto with parse]|first [apply Nat.lt_succ_diag_r|there]|intros ? ? ? ?] ]
  | |- _ => solve [done|there]
  end.

(** * The token level *)

Section tokens.
Context (f64_show : Z -> bytes) (dbg_token : Token -> bytes) (dbg_datum : Datum -> bytes) (dbg_expr : Expr -> bytes).

Lemma expect_sym_ok n c : answers true n (expect_sym dbg_token c).
Proof. intros ts Hts. unfold expect_sym. repeat step. Qed.

Lemma expect_kw_ok n k : answers true n (expect_kw dbg_token k).
Proof. intros ts Hts. unfold expect_kw. repeat step. Qed.

Lemma expect_ident_ok n : answers true n (expect_ident dbg_token).
Proof. intros ts Hts. unfold expect_ident. repeat step. Qed.

Hint Resolve expect_sym_ok expect_kw_ok expect_ident_ok : parse.

Lemma go_on_ok {A} (acc : A) ts (Q : A -> list Token -> Prop) n : Q acc ts -> (length ts < n)%nat ->
  run (go_on acc) ts (fun r ts2 => match r with inl _ => (length ts2 < n)%nat | inr b => Q b ts2 end).
Proof. intros HQ Hn. unfold go_on. repeat step. Qed.

Lemma comma_list_ok {A} n (p : PM A) : answers true n p -> answers true n (comma_list p).
Proof.
  intros Hp ts Hts. unfold comma_list. apply run_loop. intros acc ts' Hl. step. apply (go_on_ok _ _ (fun _ ts2 => (length ts2 < length ts)%nat)); lia.
Qed.

Lemma closed_list_ok {A} n (p : PM A) : answers true n p -> answers true n (closed_list dbg_token p).
Proof. intros Hp%comma_list_ok ts Hts. unfold closed_list. repeat step. Qed.

Lemma parse_col_ref_ok n : answers true n (parse_col_ref dbg_token).
Proof. intros ts Hts. unfold parse_col_ref. repeat step. Qed.

Lemma parse_cmp_op_ok n : answers false n parse_cmp_op.
Proof. intros ts Hts. unfold parse_cmp_op. repeat step. Qed.

Lemma parse_like_pattern_ok n : answers true n (parse_like_pattern dbg_token).
Proof. intros ts Hts. unfold parse_like_pattern. repeat step. Qed.

Lemma parse_base_ok n : answers true n (parse_base dbg_token).
Proof. intros ts Hts. unfold parse_base. repeat step. Qed.

Lemma casts_ok n e : answers false n (casts f64_show dbg_token dbg_datum dbg_expr e).
Proof. intros ts Hts. apply run_loop. intros e' ts' Hl. repeat step. Qed.

Lemma opt_alias_ok n : answers false n (opt_alias dbg_token).
Proof. intros ts Hts. unfold opt_alias. repeat step. Qed.

Lemma skip_casts_ok n : answers false n (skip_casts dbg_token).
Proof. intros ts Hts. apply run_loop. intros e' ts' Hl. repeat step. Qed.

Lemma join_kind_ok ts (Q : option JoinKind -> list Token -> Prop) :
  (forall k ts', (length ts' < length ts)%nat -> Q (Some k) ts') -> Q None ts -> run (join_kind dbg_token) ts Q.
Proof. intros H1 H2. unfold join_kind. repeat step. all: apply H1; lia. Qed.

Lemma order_key_ok n : answers true n (order_key dbg_token).
Proof. pose proof parse_col_ref_ok. intros ts Hts. unfold order_key. repeat step. Qed.

Lemma parse_limit_ok n : answers false n (parse_limit dbg_token).
Proof. intros ts Hts. unfold parse_limit. repeat step. Qed.

End tokens.

#[export] Hint Resolve expect_sym_ok expect_kw_ok expect_ident_ok comma_list_ok closed_list_ok parse_col_ref_ok parse_cmp_op_ok : parse.
#[export] Hint Resolve parse_like_pattern_ok parse_base_ok casts_ok opt_alias_ok skip_casts_ok order_key_ok parse_limit_ok : parse.

(** * Expressions and SELECT *)

Section recursive.
Context (f64_show : Z -> bytes) (dbg_token : Token -> bytes) (dbg_datum : Datum -> bytes) (dbg_expr : Expr -> bytes).
Context (self : Rec) (n : nat).
Context (Hexpr : answers true n (r_expr self)) (Hnot : answers true n (r_not self))
  (Hselect : answers true n (r_select self)).

Lemma at_subquery_ok ts (Q : bool -> list Token -> Prop) :
  (length (tail ts) < length ts -> Q true ts)%nat -> Q false ts -> run at_subquery ts Q.
Proof.
  intros H1 H2. unfold at_subquery. repeat step. destruct (is_sym LP (hd TEof ts)) eqn:E; [|done]. cbn.
  destruct (is_kw _ _); [|done]. apply H1. destruct ts; [done|cbn; lia].
Qed.

Lemma step_at_subquery {A} (k : bool -> PM A) ts Q :
  (length (tail ts) < length ts -> run (k true) ts Q)%nat -> run (k false) ts Q -> run (at_subquery ≫= k) ts Q.
Proof.
  intros H1 H2. eapply run_bind; [apply (at_subquery_ok ts (fun b ts' => ts' = ts /\ if b then (length (tail ts) < length ts)%nat else True)); done|].
  intros [] ts' _ [-> H]; auto.
Qed.

(** [subquery] runs behind a token that is there. *)
Lemma step_subquery {A} (k : SelectStmt -> PM A) ts Q :
  (length (tail ts) < length ts)%nat -> (length ts <= n)%nat ->
  (forall q ts', (length ts' < length ts)%nat -> run (k q) ts' Q) -> run (subquery dbg_token self ≫= k) ts Q.
Proof. intros Ht Hn H. unfold subquery. repeat step. apply H. lia. Qed.

Ltac sub := match goal with
  | |- run (mbind _ at_subquery) _ _ => apply step_at_subquery; [intros ?|]
  | |- run (mbind _ (subquery _ _)) _ _ => apply step_subquery; [done|lia|intros ? ? ?]
  | |- _ => step
  end.

Lemma parse_operand_ok : answers true (S n) (parse_operand f64_show dbg_token dbg_datum dbg_expr self).
Proof. intros ts Hts. unfold parse_operand. repeat sub. Qed.
Hint Resolve parse_operand_ok : parse.

Lemma parse_literal_operand_ok : answers true (S n) (parse_literal_operand f64_show dbg_token dbg_datum dbg_expr self).
Proof. intros ts Hts. unfold parse_literal_operand. repeat sub. Qed.
Hint Resolve parse_literal_operand_ok : parse.

Lemma parse_between_bounds_ok : answers true (S n) (parse_between_bounds f64_show dbg_token dbg_datum dbg_expr self).
Proof. intros ts Hts. unfold parse_between_bounds. repeat sub. Qed.

Lemma parse_in_list_ok : answers true (S n) (parse_in_list f64_show dbg_token dbg_datum dbg_expr self).
Proof. intros ts Hts. unfold parse_in_list. repeat sub. Qed.
Hint Resolve parse_between_bounds_ok parse_in_list_ok : parse.

Lemma parse_in_tail_ok e b : answers true (S n) (parse_in_tail f64_show dbg_token dbg_datum dbg_expr self e b).
Proof. intros ts Hts. unfold parse_in_tail. repeat sub. Qed.
Hint Resolve parse_in_tail_ok : parse.

Lemma parse_cmp_tail_ok : answers true (S n) (parse_cmp_tail f64_show dbg_token dbg_datum dbg_expr self).
Proof. intros ts Hts. unfold parse_cmp_tail. repeat sub. Qed.

Lemma parse_exists_body_ok : answers true (S n) (parse_exists_body dbg_token self).
Proof. intros ts Hts. unfold parse_exists_body. repeat sub. Qed.
Hint Resolve parse_cmp_tail_ok parse_exists_body_ok : parse.

Lemma parse_predicate_ok : answers true (S n) (parse_predicate f64_show dbg_token dbg_datum dbg_expr self).
Proof. intros ts Hts. unfold parse_predicate. repeat sub. Qed.
Hint Resolve parse_predicate_ok : parse.

Lemma parse_not_ok : answers true (S n) (parse_not f64_show dbg_token dbg_datum dbg_expr self).
Proof. intros ts Hts. unfold parse_not. repeat sub. Qed.
Hint Resolve parse_not_ok : parse.

Lemma chain_ok k join p : answers true (S n) p -> answers true (S n) (chain k join p).
Proof.
  intros Hp ts Hts. unfold chain. step. eapply run_mono with (Q := fun _ _ => True); [|intros ? ? ? _; cbn beta in *; lia].
  apply run_loop. intros left ts2 Hl. repeat step.
Qed.

Lemma parse_or_ok : answers true (S n) (parse_or f64_show dbg_token dbg_datum dbg_expr self).
Proof. apply chain_ok, chain_ok, parse_not_ok. Qed.

Lemma parse_expr_ok : answers true (S n) (parse_expr f64_show dbg_token dbg_datum dbg_expr self).
Proof. apply parse_or_ok. Qed.

Lemma parse_join_cmp_ok : answers true (S n) (parse_join_cmp f64_show dbg_token dbg_datum dbg_expr self).
Proof. intros ts Hts. unfold parse_join_cmp. repeat sub. Qed.

Lemma parse_join_cond_ok : answers true (S n) (parse_join_cond f64_show dbg_token dbg_datum dbg_expr self).
Proof. apply chain_ok, parse_join_cmp_ok. Qed.
Hint Resolve parse_expr_ok parse_join_cond_ok : parse.

Lemma parse_derived_ok : answers true (S n) (parse_derived dbg_token self).
Proof. intros ts Hts. unfold parse_derived. repeat sub. Qed.
Hint Resolve parse_derived_ok : parse.

Lemma parse_table_ref_ok : answers true (S n) (parse_table_ref dbg_token self).
Proof. intros ts Hts. unfold parse_table_ref. repeat sub. Qed.

Lemma literal_operand_for_ok what : answers true (S n) (literal_operand_for f64_show dbg_token dbg_datum dbg_expr self what).
Proof. intros ts Hts. unfold literal_operand_for. repeat sub. Qed.
Hint Resolve parse_table_ref_ok literal_operand_for_ok : parse.

Lemma literal_item_ok : answers true (S n) (literal_item f64_show dbg_token dbg_datum dbg_expr self).
Proof. intros ts Hts. unfold literal_item. repeat sub. Qed.
Hint Resolve literal_item_ok : parse.

Lemma agg_func_end : parse_agg_func (upper TEof) = None.
Proof. done. Qed.

Lemma parse_item_ok : answers true (S n) (parse_item f64_show dbg_token dbg_datum dbg_expr self).
Proof.
  intros ts Hts. unfold parse_item. step. destruct ts as [|t ts]; [cbn [hd]|]; repeat sub.
  all: apply step_subquery; cbn [tail length] in *; [lia..|intros q ts' Hq; repeat sub].
Qed.

Lemma parse_joins_ok : answers false (S n) (parse_joins f64_show dbg_token dbg_datum dbg_expr self).
Proof.
  intros ts Hts. apply run_loop. intros joins ts2 Hl.
  eapply run_bind; [apply (join_kind_ok _ _ (fun k ts3 => match k with Some _ => (length ts3 < length ts2)%nat | None => True end)); auto|].
  intros [k|] ts3 Hl3 Hk; repeat sub.
Qed.

Lemma parse_where_ok : answers false (S n) (parse_where f64_show dbg_token dbg_datum dbg_expr self).
Proof. intros ts Hts. unfold parse_where. repeat sub. Qed.
Hint Resolve parse_item_ok parse_joins_ok parse_where_ok : parse.

Lemma parse_select_body_ok : answers true (S n) (parse_select_body f64_show dbg_token dbg_datum dbg_expr self).
Proof. intros ts Hts. unfold parse_select_body. repeat sub. Qed.
Hint Resolve parse_select_body_ok : parse.

Lemma parse_select_stmt_ok : answers true (S n) (parse_select_stmt f64_show dbg_token dbg_datum dbg_expr self).
Proof. intros ts Hts. unfold parse_select_stmt. repeat sub. Qed.

End recursive.

(** * Statements *)

Lemma parsers_ok f64_show dbg_token dbg_datum dbg_expr n :
  let self := parsers f64_show dbg_token dbg_datum dbg_expr n in
  answers true n (r_expr self) /\ answers true n (r_not self) /\ answers true n (r_select self).
Proof.
  induction n as [|n (IH1 & IH2 & IH3)]; [split_and!; intros ts Hts; lia|].
  split_and!; [by apply parse_or_ok|by apply parse_not_ok|by apply parse_select_stmt_ok].
Qed.

#[export] Hint Resolve parse_operand_ok parse_literal_operand_ok parse_expr_ok parse_where_ok parse_select_stmt_ok : parse.

Section statements.
Context (f64_show : Z -> bytes) (dbg_token : Token -> bytes) (dbg_datum : Datum -> bytes) (dbg_expr : Expr -> bytes).
Context (self : Rec) (n : nat).
Context (Hexpr : answers true n (r_expr self)) (Hnot : answers true n (r_not self)) (Hselect : answers true n (r_select self)).

Ltac call f := intros ts Hts; unfold f; repeat step.

Lemma text_literal_ok what : answers true (S n) (text_literal f64_show dbg_token dbg_datum dbg_expr self what).
Proof. call text_literal. Qed.
Hint Resolve text_literal_ok : parse.

Lemma skip_kw_ok k : answers false (S n) (skip_kw k).
Proof. call skip_kw. Qed.

Lemma if_not_exists_ok : answers false (S n) (if_not_exists dbg_token).
Proof. call if_not_exists. Qed.

Lemma if_exists_ok : answers false (S n) (if_exists dbg_token).
Proof. call if_exists. Qed.

Lemma parse_fk_action_ok : answers true (S n) (parse_fk_action dbg_token).
Proof. call parse_fk_action. Qed.

Lemma parse_isolation_level_ok : answers true (S n) (parse_isolation_level dbg_token).
Proof. call parse_isolation_level. Qed.

Lemma parse_user_name_ok : answers true (S n) (parse_user_name dbg_token).
Proof. call parse_user_name. Qed.
Hint Resolve skip_kw_ok if_not_exists_ok if_exists_ok parse_fk_action_ok parse_isolation_level_ok parse_user_name_ok : parse.

Lemma parse_password_ok : answers true (S n) (parse_password f64_show dbg_token dbg_datum dbg_expr self).
Proof. call parse_password. Qed.

Lemma parse_priv_ok : answers true (S n) (parse_priv dbg_token).
Proof. call parse_priv. Qed.

Lemma parse_grant_scope_ok : answers true (S n) (parse_grant_scope dbg_token).
Proof. call parse_grant_scope. Qed.
Hint Resolve parse_password_ok parse_priv_ok parse_grant_scope_ok : parse.

Lemma parse_grant_ok b : answers false (S n) (parse_grant dbg_token b).
Proof. call parse_grant. Qed.

Lemma paren_ident_ok : answers true (S n) (paren_ident dbg_token).
Proof. call paren_ident. Qed.
Hint Resolve paren_ident_ok : parse.

Lemma fk_actions_ok : answers false (S n) (fk_actions dbg_token).
Proof. intros ts Hts. apply run_loop. intros a ts2 Hl. repeat step. Qed.
Hint Resolve fk_actions_ok : parse.

Lemma foreign_key_ok name : answers true (S n) (foreign_key dbg_token name).
Proof. call foreign_key. Qed.

Lemma column_flags_ok : answers false (S n) (column_flags f64_show dbg_token dbg_datum dbg_expr self).
Proof. intros ts Hts. apply run_loop. intros a ts2 Hl. repeat step. Qed.

Lemma type_length_ok : answers false (S n) (type_length dbg_token).
Proof. call type_length. Qed.
Hint Resolve foreign_key_ok column_flags_ok type_length_ok : parse.

Lemma column_spec_ok : answers true (S n) (column_spec f64_show dbg_token dbg_datum dbg_expr self).
Proof. call column_spec. Qed.

Lemma constraint_name_ok : answers false (S n) (constraint_name dbg_token).
Proof. call constraint_name. Qed.
Hint Resolve column_spec_ok constraint_name_ok : parse.

Definition create_entries := loop (table_entry f64_show dbg_token dbg_datum dbg_expr self) ([], []).

Lemma create_entries_ok : answers false (S n) create_entries.
Proof.
  intros ts Hts. apply run_loop. intros acc ts2 Hl. unfold table_entry. repeat first [apply (go_on_ok _ _ (fun _ _ => True)); [done|there]|step].
Qed.

Lemma parse_create_ok : answers false (S n) (parse_create f64_show dbg_token dbg_datum dbg_expr self).
Proof. pose proof create_entries_ok. intros ts Hts. unfold parse_create. fold create_entries. repeat step. Qed.

Lemma parse_drop_ok : answers false (S n) (parse_drop dbg_token).
Proof. call parse_drop. Qed.

Lemma value_row_ok :
  answers true (S n) (_ ← expect_sym dbg_token LP; closed_list dbg_token (parse_expr f64_show dbg_token dbg_datum dbg_expr self)).
Proof. intros ts Hts. repeat step. Qed.
Hint Resolve value_row_ok : parse.

Lemma parse_insert_ok : answers false (S n) (parse_insert f64_show dbg_token dbg_datum dbg_expr self).
Proof. call parse_insert. Qed.

Lemma assignment_ok : answers true (S n) (assignment f64_show dbg_token dbg_datum dbg_expr self).
Proof. call assignment. Qed.
Hint Resolve assignment_ok : parse.

Lemma parse_update_ok : answers false (S n) (parse_update f64_show dbg_token dbg_datum dbg_expr self).
Proof. call parse_update. Qed.

Lemma parse_delete_ok : answers false (S n) (parse_delete f64_show dbg_token dbg_datum dbg_expr self).
Proof. call parse_delete. Qed.

Lemma parse_select_ok : answers false (S n) (parse_select f64_show dbg_token dbg_datum dbg_expr self).
Proof. call parse_select. Qed.

Lemma isolation_clause_ok : answers true (S n) (isolation_clause dbg_token).
Proof. call isolation_clause. Qed.

Lemma read_only_clause_ok : answers false (S n) read_only_clause.
Proof. call read_only_clause. Qed.
Hint Resolve parse_select_ok isolation_clause_ok read_only_clause_ok : parse.

Lemma parse_begin_ok : answers false (S n) (parse_begin dbg_token).
Proof. call parse_begin. Qed.

Definition txn_options := loop (txn_option dbg_token) (mkTxnOpts false None false).

Lemma txn_options_ok : answers false (S n) txn_options.
Proof. intros ts Hts. apply run_loop. intros o ts2 Hl. unfold txn_option. repeat step. Qed.

Lemma parse_start_ok : answers false (S n) (parse_start dbg_token).
Proof. pose proof txn_options_ok. intros ts Hts. unfold parse_start. fold txn_options. repeat step. Qed.

Lemma parse_show_ok : answers false (S n) (parse_show f64_show dbg_token dbg_datum dbg_expr self).
Proof. call parse_show. Qed.

Lemma parse_backup_ok : answers false (S n) (parse_backup f64_show dbg_token dbg_datum dbg_expr self).
Proof. call parse_backup. Qed.

Lemma parse_archive_ok : answers false (S n) (parse_archive f64_show dbg_token dbg_datum dbg_expr self).
Proof. call parse_archive. Qed.

Lemma set_value_ok : answers false (S n) (set_value f64_show dbg_token dbg_datum dbg_expr self).
Proof. call set_value. Qed.

Lemma set_name_ok : answers true (S n) (set_name dbg_token).
Proof. call set_name. Qed.
Hint Resolve set_value_ok set_name_ok : parse.

Lemma parse_set_ok : answers false (S n) (parse_set f64_show dbg_token dbg_datum dbg_expr self).
Proof. call parse_set. Qed.

Lemma parse_analyze_ok : answers false (S n) (parse_analyze dbg_token).
Proof. call parse_analyze. Qed.

Lemma parse_check_ok : answers false (S n) (parse_check dbg_token).
Proof. call parse_check. Qed.

Lemma select_only_ok what : answers false (S n) (select_only f64_show dbg_token dbg_datum dbg_expr self what).
Proof. call select_only. Qed.
Hint Resolve select_only_ok : parse.

Lemma parse_explain_ok : answers false (S n) (parse_explain f64_show dbg_token dbg_datum dbg_expr self).
Proof. call parse_explain. Qed.

Lemma parse_describe_ok : answers false (S n) (parse_describe f64_show dbg_token dbg_datum dbg_expr self).
Proof. call parse_describe. Qed.

Lemma parse_alter_ok : answers false (S n) (parse_alter f64_show dbg_token dbg_datum dbg_expr self).
Proof. call parse_alter. Qed.

Lemma parse_use_ok : answers false (S n) (parse_use dbg_token).
Proof. call parse_use. Qed.

Lemma word_ok s : answers false (S n) (word s).
Proof. call word. Qed.

Lemma dispatch_ok l t : Forall (fun e => answers false (S n) e.2) l -> answers false (S n) (dispatch dbg_token l t).
Proof.
  induction 1 as [|[k p] l Hp Hl IH]; [intros ts Hts; cbn; repeat step|]. cbn [dispatch]. by destruct (is_kw k t).
Qed.

Lemma statement_table_ok : Forall (fun e => answers false (S n) e.2) (statement_table f64_show dbg_token dbg_datum dbg_expr self).
Proof.
  unfold statement_table. repeat (apply Forall_cons; split; cbn [snd]).
  all: eauto using parse_create_ok, parse_drop_ok, parse_use_ok, parse_insert_ok, parse_select_ok, parse_update_ok, parse_delete_ok,
    parse_begin_ok, parse_start_ok, word_ok, parse_show_ok.
  all: eauto using parse_backup_ok, parse_archive_ok, parse_set_ok, parse_analyze_ok, parse_check_ok, parse_explain_ok,
    parse_describe_ok, parse_grant_ok, parse_alter_ok.
Qed.

Lemma parse_statement_ok : answers false (S n) (parse_statement f64_show dbg_token dbg_datum dbg_expr self).
Proof. intros ts Hts. unfold parse_statement. step. by apply (dispatch_ok _ _ statement_table_ok). Qed.
Hint Resolve parse_statement_ok : parse.

Lemma parse_all_ok : answers false (S n) (parse_all f64_show dbg_token dbg_datum dbg_expr self).
Proof. call parse_all. Qed.

End statements.

(** C29: the parser is total: every text, whatever its bytes, is answered with a
    statement or an error.  No input makes it loop or panic, and the levels its
    definition allows are never used up: the recursion is at most as deep as the
    text has tokens, plus one.  That the native stack of the process holds so
    many levels is assumed: the code has no limit of its own, and a long enough
    row of NOT or opening parentheses overflows it. *)
Theorem parse_sql_total f64_show dbg_token dbg_datum dbg_expr src :
  exists r, parse_sql f64_show dbg_token dbg_datum dbg_expr src = Ret r /\ r <> Panic.
Proof.
  unfold parse_sql. destruct (tokenize_total src) as (r & -> & Hr). unfold mbind at 1, out_bind. destruct r as [ts|e|]; [|by eexists|done].
  destruct (parsers_ok f64_show dbg_token dbg_datum dbg_expr (S (length ts))) as (H1 & H2 & H3).
  destruct (parse_all_ok f64_show dbg_token dbg_datum dbg_expr _ (S (length ts)) H1 H2 H3 ts ltac:(lia)) as (ts' & r & -> & _ & Hq).
  eexists. split; [done|]. by destruct r.
Qed.
