(* ===== verification/Print.v ===== *)
(** A printer for the SQL syntax, the reference the parser is proved against:
    tokens for every statement, with parentheses only where the precedence of
    OR, AND, NOT and the predicates asks for them, and a spelling of tokens as
    text.  [wf_stmt] says which syntax trees are written this way: those the
    grammar can express, with words for names and finite literals. *)
From stdpp Require Import base list gmap strings.
From Stdlib Require Import ZArith Lia.
From S2P Require Import Prelude Machine Utf8 Types DateTime TableDef BTree Literal Lexer Expr Ast Parser.

(** * Words *)

(** The words with a meaning in some place of the grammar. *)
Definition reserved : list string :=
  ["SELECT"; "FROM"; "WHERE"; "GROUP"; "ORDER"; "BY"; "LIMIT"; "JOIN"; "INNER"; "LEFT"; "OUTER"; "ON"; "AND"; "OR"; "NOT";
   "IN"; "LIKE"; "BETWEEN"; "EXISTS"; "TRUE"; "FALSE"; "NULL"; "AS"; "ASC"; "DESC"; "COUNT"; "SUM"; "AVG"; "MIN"; "MAX";
   "VALUES"; "SET"; "IF"; "PRIMARY"; "FOREIGN"; "CONSTRAINT"; "DEFAULT"; "AUTO_INCREMENT"; "SESSION"; "GLOBAL";
   "TRANSACTION"; "NAMES"; "OFF"]%string.

Definition ident (s : bytes) : bool := match s with c :: _ => ident_start c && forallb ident_char s | [] => false end.

Definition is_word (s : bytes) : bool := ident s && negb (one_of (to_ascii_uppercase s) reserved).

(** A name, possibly qualified: [a] or [a.b]. *)
Definition wf_name (n : bytes) : bool := match split DOT n with [a] => is_word a | [a; b] => is_word a && is_word b | _ => false end.

Definition kwt (s : string) : Token := TIdent (str s).

Definition name_toks (n : bytes) : list Token :=
  match split DOT n with [a] => [TIdent a] | [a; b] => [TIdent a; TSym DOT; TIdent b] | _ => [] end.

Definition paren (ts : list Token) : list Token := TSym LP :: ts ++ [TSym RP].
Definition wrap (b : bool) (ts : list Token) : list Token := if b then paren ts else ts.

Fixpoint commas (l : list (list Token)) : list Token :=
  match l with [] => [] | [x] => x | x :: l => x ++ TSym COMMA :: commas l end.

Definition opt_kw (b : bool) (k : string) : list Token := if b then [kwt k] else [].

(** * Expressions and SELECT *)

Section print.
(** A decimal text of a float, with a point. *)
Context (f64_lit : Z -> bytes).

Definition number_ok (s : bytes) : bool :=
  match s with
  | c :: r => (is_digit c || (c =? DASH) && peek_digit r) && bool_decide (read_number s = (s, []))
  | [] => false
  end.

Definition lit_tok (d : Datum) : Token :=
  match d with
  | Null => kwt "NULL"
  | Int v => TNumber (show_Z v)
  | Float f => TNumber (f64_lit f)
  | Text s => TStr s
  | Bool b => kwt (if b then "TRUE" else "FALSE")
  | DateTime _ => TEof
  end.

Definition wf_lit (d : Datum) : bool :=
  match d with
  | Null | Bool _ => true
  | Int v => (i64_MIN <=? v) && (v <=? i64_MAX)
  | Float f => number_ok (f64_lit f) && existsb (Z.eqb DOT) (f64_lit f) && bool_decide (parse_f64 (f64_lit f) = Some f)
  | Text s => utf8_valid s
  | DateTime _ => false
  end.

Definition op_tok (op : CmpOp) : Token :=
  TSym match op with
       | OpEq => EQUALS | OpNe => SYM_NE | OpLt => chr "<" | OpLe => SYM_LE | OpGt => chr ">" | OpGe => SYM_GE
       end.

Definition is_exists (e : Expr) : bool := match e with EExists _ false => true | _ => false end.
Definition is_base (e : Expr) : bool := match e with EColumn _ | ELiteral _ => true | _ => false end.
Definition cmp_shape (l r : Expr) : bool :=
  match l, r with
  | EColumn _, (ELiteral _ | EColumn _ | EScalarSubquery _) => true
  | EScalarSubquery _, (ELiteral _ | EColumn _ | EScalarSubquery _) => true
  | _, _ => false
  end.

Definition alias_toks (a : option bytes) : list Token := match a with Some a => [kwt "AS"; TIdent a] | None => [] end.
Definition in_toks (negated : bool) (body : list Token) : list Token := opt_kw negated "NOT" ++ kwt "IN" :: paren body.

Definition order_toks (k : bytes * bool) : list Token := name_toks k.1 ++ opt_kw k.2 "DESC".
Definition clause (k : list Token) (l : list (list Token)) : list Token := match l with [] => [] | _ => k ++ commas l end.
Definition limit_toks (l : option Z) : list Token := match l with Some v => [kwt "LIMIT"; TNumber (show_Z v)] | None => [] end.

Definition agg_name (f : AggFunc) : string := match f with ASum => "SUM" | AAvg => "AVG" | AMin => "MIN" | AMax => "MAX" end.
Definition kind_toks (k : JoinKind) : list Token := match k with JInner => [kwt "JOIN"] | JLeft => [kwt "LEFT"; kwt "JOIN"] end.

(** [p]: the level of the place: 0 OR, 1 AND, 2 NOT, 3 predicate. *)
Fixpoint print_expr (p : Z) (e : Expr) {struct e} : list Token :=
  match e with
  | EColumn n => name_toks n
  | ELiteral d => [lit_tok d]
  | ECmp l op r => print_expr 3 l ++ op_tok op :: print_expr 3 r
  | EAnd a b => wrap (1 <? p) (print_expr 1 a ++ kwt "AND" :: print_expr 2 b)
  | EOr a b => wrap (0 <? p) (print_expr 0 a ++ kwt "OR" :: print_expr 1 b)
  | ENot e => wrap (2 <? p) (kwt "NOT" :: wrap (is_exists e) (print_expr 2 e))
  | EIn e vs neg => print_expr 3 e ++ in_toks neg (commas ((fun d => [lit_tok d]) <$> vs))
  | EBetween e lo hi neg => print_expr 3 e ++ opt_kw neg "NOT" ++ [kwt "BETWEEN"; lit_tok lo; kwt "AND"; lit_tok hi]
  | ELike e pat neg => print_expr 3 e ++ opt_kw neg "NOT" ++ [kwt "LIKE"; TStr pat]
  | EInSubquery e q neg => print_expr 3 e ++ in_toks neg (print_select q)
  | EScalarSubquery q => paren (print_select q)
  | EExists q neg => wrap (neg && (2 <? p)) (opt_kw neg "NOT" ++ kwt "EXISTS" :: paren (print_select q))
  end
with print_select (q : SelectStmt) : list Token :=
  match q with
  | mkSelectStmt items from joins selection order_by limit group_by =>
    kwt "SELECT" :: commas (print_item <$> items) ++
    match from with REmpty => [] | _ => kwt "FROM" :: print_table_ref from end ++
    mjoin (print_join <$> joins) ++
    match selection with Some e => kwt "WHERE" :: print_expr 0 e | None => [] end ++
    clause [kwt "GROUP"; kwt "BY"] (name_toks <$> group_by) ++
    clause [kwt "ORDER"; kwt "BY"] (order_toks <$> order_by) ++
    limit_toks limit
  end
with print_item (i : SelectItem) : list Token :=
  match i with
  | IStar => [TSym STAR]
  | IColumn n => name_toks n
  | ICountStar => [kwt "COUNT"; TSym LP; TSym STAR; TSym RP]
  | IAggregate f c => kwt (agg_name f) :: paren (name_toks c)
  | ISubquery q alias => paren (print_select q) ++ alias_toks alias
  | ILiteral d => [lit_tok d]
  | ISysFunc n alias => [TIdent n; TSym LP; TSym RP] ++ alias_toks alias
  end
with print_table_ref (t : TableRef) : list Token :=
  match t with
  | RTable n => name_toks n
  | RDerived q alias => paren (print_select q) ++ [kwt "AS"; TIdent alias]
  | REmpty => []
  end
with print_join (j : JoinClause) : list Token :=
  match j with mkJoinClause k t on => kind_toks k ++ print_table_ref t ++ kwt "ON" :: print_expr 1 on end.

Definition opt_word (a : option bytes) : bool := match a with Some a => is_word a | None => true end.
Definition wf_limit (l : option Z) : bool := match l with Some v => (0 <=? v) && (v <=? u64_MAX) | None => true end.
Definition nonempty {A} (l : list A) : bool := match l with [] => false | _ => true end.

(** A conjunct of a join condition: a comparison of columns and literals. *)
Definition join_atom (e : Expr) : bool :=
  match e with
  | ECmp (EColumn _) _ (ELiteral _ | EColumn _) | EColumn _ | ELiteral _ | EScalarSubquery _ => true
  | _ => false
  end.
Fixpoint join_shape (e : Expr) : bool := match e with EAnd a b => join_shape a && join_atom b | e => join_atom e end.

Fixpoint wf_expr (e : Expr) : bool :=
  match e with
  | EColumn n => wf_name n
  | ELiteral d => wf_lit d
  | ECmp l op r => cmp_shape l r && wf_expr l && wf_expr r
  | EAnd a b | EOr a b => wf_expr a && wf_expr b
  | ENot e => wf_expr e
  | EIn e vs _ => is_base e && wf_expr e && nonempty vs && forallb wf_lit vs
  | EBetween e lo hi _ => is_base e && wf_expr e && wf_lit lo && wf_lit hi
  | ELike e pat _ => is_base e && wf_expr e && utf8_valid pat
  | EInSubquery e q _ => is_base e && wf_expr e && wf_select q
  | EScalarSubquery q | EExists q _ => wf_select q
  end
with wf_select (q : SelectStmt) : bool :=
  match q with
  | mkSelectStmt items from joins selection order_by limit group_by =>
    nonempty items && forallb wf_item items && wf_table_ref from && forallb wf_join joins &&
    match selection with Some e => wf_expr e | None => true end &&
    forallb (fun k => wf_name k.1) order_by && wf_limit limit && forallb wf_name group_by
  end
with wf_item (i : SelectItem) : bool :=
  match i with
  | IStar | ICountStar => true
  | IColumn n | IAggregate _ n => wf_name n
  | ISubquery q alias => wf_select q && opt_word alias
  | ILiteral d => match d with Int _ | Float _ | Text _ => wf_lit d | _ => false end
  | ISysFunc n alias => is_word n && opt_word alias
  end
with wf_table_ref (t : TableRef) : bool :=
  match t with
  | RTable n => wf_name n
  | RDerived q alias => wf_select q && is_word alias
  | REmpty => true
  end
with wf_join (j : JoinClause) : bool :=
  match j with
  | mkJoinClause _ t on => match t with REmpty => false | _ => true end && wf_table_ref t && join_shape on && wf_expr on
  end.

(** * Statements *)

Definition print_if (b : bool) (ks : list string) : list Token := if b then kwt <$> ks else [].
Definition not_exists := ["IF"; "NOT"; "EXISTS"]%string.

Definition where_toks (s : option Expr) : list Token := match s with Some e => kwt "WHERE" :: print_expr 0 e | None => [] end.
Definition wf_where (s : option Expr) : bool := match s with Some e => wf_expr e | None => true end.

Definition level_toks (l : IsolationLevel) : list Token :=
  kwt <$> match l with
          | ReadCommitted => ["READ"; "COMMITTED"] | RepeatableRead => ["REPEATABLE"; "READ"] | Serializable => ["SERIALIZABLE"]
          end%string.
Definition opt_level (l : option IsolationLevel) : list Token :=
  match l with Some l => [kwt "ISOLATION"; kwt "LEVEL"] ++ level_toks l | None => [] end.

Definition action_toks (a : FkAction) : list Token :=
  kwt <$> match a with Restrict => ["RESTRICT"] | Cascade => ["CASCADE"] | SetNull => ["SET"; "NULL"] end%string.

Definition column_toks (c : ColumnSpec) : list Token :=
  [TIdent (cs_name c); TIdent (cs_ctype c)] ++
  (if cs_primary_key c then [kwt "PRIMARY"; kwt "KEY"] else if cs_not_null c then [kwt "NOT"; kwt "NULL"] else []) ++
  opt_kw (cs_auto_increment c) "AUTO_INCREMENT" ++
  match cs_default_value c with Some d => [kwt "DEFAULT"; lit_tok d] | None => [] end.

Definition wf_column (c : ColumnSpec) : bool :=
  is_word (cs_name c) && is_word (cs_ctype c) && (negb (cs_primary_key c) || cs_not_null c) &&
  match cs_default_value c with Some d => wf_lit d | None => true end.

Definition fk_toks (f : ForeignKeySpec) : list Token :=
  match fs_name f with Some n => [kwt "CONSTRAINT"; TIdent n] | None => [] end ++
  [kwt "FOREIGN"; kwt "KEY"; TSym LP; TIdent (fs_column f); TSym RP; kwt "REFERENCES"; TIdent (fs_ref_table f);
   TSym LP; TIdent (fs_ref_column f); TSym RP; kwt "ON"; kwt "DELETE"] ++ action_toks (fs_on_delete f).

Definition wf_fk (f : ForeignKeySpec) : bool :=
  opt_word (fs_name f) && is_word (fs_column f) && is_word (fs_ref_table f) && is_word (fs_ref_column f).

Definition scope_toks (g : GrantScope) : list Token :=
  match g with
  | GGlobal => [TSym STAR; TSym DOT; TSym STAR]
  | GDatabase db => [TIdent db; TSym DOT; TSym STAR]
  | GTable (Some db) tbl => [TIdent db; TSym DOT; TIdent tbl]
  | GTable None tbl => [TIdent tbl]
  end.
Definition wf_scope (g : GrantScope) : bool :=
  match g with GGlobal => true | GDatabase db => is_word db | GTable db tbl => opt_word db && is_word tbl end.

Definition priv_toks (p : Privilege) : list Token :=
  kwt <$> match p with
          | PSelect => ["SELECT"] | PInsert => ["INSERT"] | PUpdate => ["UPDATE"] | PDelete => ["DELETE"]
          | PCreate => ["CREATE"] | PDrop => ["DROP"] | PAll => ["ALL"; "PRIVILEGES"]
          end%string.

Definition wf_user (u : bytes) : bool := utf8_valid u && negb (Zlen u =? 0) && (Zlen u <=? 256).

Fixpoint print_stmt (s : Statement) : list Token :=
  match s with
  | SCreateDatabase n b => [kwt "CREATE"; kwt "DATABASE"] ++ print_if b not_exists ++ [TIdent n]
  | SDropDatabase n b => [kwt "DROP"; kwt "DATABASE"] ++ print_if b ["IF"; "EXISTS"]%string ++ [TIdent n]
  | SUseDatabase n => [kwt "USE"; TIdent n]
  | SShowDatabases => [kwt "SHOW"; kwt "DATABASES"]
  | SCreateTable n cols fks b =>
    [kwt "CREATE"; kwt "TABLE"] ++ print_if b not_exists ++ TIdent n :: paren (commas ((column_toks <$> cols) ++ (fk_toks <$> fks)))
  | SDropTable n b => [kwt "DROP"; kwt "TABLE"] ++ print_if b ["IF"; "EXISTS"]%string ++ [TIdent n]
  | SInsert t cols rows =>
    [kwt "INSERT"; kwt "INTO"; TIdent t] ++
    match cols with Some cs => paren (commas ((fun c => [TIdent c]) <$> cs)) | None => [] end ++
    kwt "VALUES" :: commas ((fun row => paren (commas (print_expr 0 <$> row))) <$> rows)
  | SSelect items from joins selection order_by limit group_by =>
    print_select (mkSelectStmt items from joins selection order_by limit group_by)
  | SUpdate t asg s =>
    [kwt "UPDATE"; TIdent t; kwt "SET"] ++ commas ((fun a => TIdent a.1 :: TSym EQUALS :: print_expr 0 a.2) <$> asg) ++ where_toks s
  | SDelete t s => [kwt "DELETE"; kwt "FROM"; TIdent t] ++ where_toks s
  | SBegin l ro => [kwt "BEGIN"] ++ opt_level l ++ print_if ro ["READ"; "ONLY"]%string
  | SCommit => [kwt "COMMIT"]
  | SRollback => [kwt "ROLLBACK"]
  | SStartTransaction sn l ro =>
    [kwt "START"; kwt "TRANSACTION"] ++ print_if sn ["WITH"; "CONSISTENT"; "SNAPSHOT"]%string ++ opt_level l ++
    print_if ro ["READ"; "ONLY"]%string
  | SSetTransaction l g => [kwt "SET"] ++ opt_kw g "GLOBAL" ++ [kwt "TRANSACTION"; kwt "ISOLATION"; kwt "LEVEL"] ++ level_toks l
  | SShowTables => [kwt "SHOW"; kwt "TABLES"]
  | SShowStatus like => [kwt "SHOW"; kwt "STATUS"] ++ match like with Some p => [kwt "LIKE"; TStr p] | None => [] end
  | SShowEngineStatus => [kwt "SHOW"; kwt "ENGINE"]
  | SShowProcesslist => [kwt "SHOW"; kwt "PROCESSLIST"]
  | SCheckpoint => [kwt "CHECKPOINT"]
  | SPromote => [kwt "PROMOTE"]
  | SBackup p => [kwt "BACKUP"; kwt "DATABASE"; kwt "TO"; TStr p]
  | SArchive d => [kwt "ARCHIVE"] ++ match d with Some p => [kwt "TO"; TStr p] | None => [] end
  | SCreateIndex n t c b =>
    [kwt "CREATE"; kwt "INDEX"] ++ print_if b not_exists ++ [TIdent n; kwt "ON"; TIdent t; TSym LP; TIdent c; TSym RP]
  | SDropIndex n t b => [kwt "DROP"; kwt "INDEX"] ++ print_if b ["IF"; "EXISTS"]%string ++ [TIdent n; kwt "ON"; TIdent t]
  | SSetVariable n v => kwt "SET" :: name_toks n ++ [TSym EQUALS; lit_tok v]
  | SAnalyzeTable t => [kwt "ANALYZE"; kwt "TABLE"; TIdent t]
  | SExplain a s => kwt "EXPLAIN" :: opt_kw a "ANALYZE" ++ print_stmt s
  | SExplainMemo s => kwt "EXPLAIN" :: kwt "MEMO" :: print_stmt s
  | SCreateUser n b p => [kwt "CREATE"; kwt "USER"] ++ print_if b not_exists ++ [TStr n; kwt "IDENTIFIED"; kwt "BY"; TStr p]
  | SDropUser n b => [kwt "DROP"; kwt "USER"] ++ print_if b ["IF"; "EXISTS"]%string ++ [TStr n]
  | SAlterUser n p => [kwt "ALTER"; kwt "USER"; TStr n; kwt "IDENTIFIED"; kwt "BY"; TStr p]
  | SGrant ps g u => kwt "GRANT" :: commas (priv_toks <$> ps) ++ kwt "ON" :: scope_toks g ++ [kwt "TO"; TStr u]
  | SRevoke ps g u => kwt "REVOKE" :: commas (priv_toks <$> ps) ++ kwt "ON" :: scope_toks g ++ [kwt "FROM"; TStr u]
  | SShowGrants u => [kwt "SHOW"; kwt "GRANTS"] ++ match u with Some u => [kwt "FOR"; TStr u] | None => [] end
  | SCheckTable t => [kwt "CHECK"; kwt "TABLE"; TIdent t]
  | SCheckDatabase d => [kwt "CHECK"; kwt "DATABASE"] ++ match d with Some d => [TIdent d] | None => [] end
  end.

Definition is_select (s : Statement) : bool := match s with SSelect _ _ _ _ _ _ _ => true | _ => false end.

Fixpoint wf_stmt (s : Statement) : bool :=
  match s with
  | SCreateDatabase n _ | SDropDatabase n _ | SUseDatabase n | SDropTable n _ | SAnalyzeTable n | SCheckTable n => is_word n
  | SCreateTable n cols fks _ => is_word n && nonempty cols && forallb wf_column cols && forallb wf_fk fks
  | SInsert t cols rows =>
    is_word t && match cols with Some cs => nonempty cs && forallb is_word cs | None => true end && nonempty rows &&
    forallb (fun row => nonempty row && forallb wf_expr row) rows
  | SSelect items from joins selection order_by limit group_by =>
    wf_select (mkSelectStmt items from joins selection order_by limit group_by)
  | SUpdate t asg s => is_word t && nonempty asg && forallb (fun a => is_word a.1 && wf_expr a.2) asg && wf_where s
  | SDelete t s => is_word t && wf_where s
  | SCreateIndex n t c _ => is_word n && is_word t && is_word c
  | SDropIndex n t _ => is_word n && is_word t
  | SSetVariable n v => wf_name n && wf_lit v
  | SShowStatus p | SArchive p => match p with Some p => utf8_valid p | None => true end
  | SBackup p => utf8_valid p
  | SExplain _ s | SExplainMemo s => is_select s && wf_stmt s
  | SCreateUser n _ p | SAlterUser n p => wf_user n && utf8_valid p
  | SDropUser n _ => wf_user n
  | SGrant ps g u | SRevoke ps g u => nonempty ps && wf_scope g && wf_user u
  | SShowGrants u => match u with Some u => wf_user u | None => true end
  | SCheckDatabase d => opt_word d
  | _ => true
  end.

End print.

(** * Spelling *)

(** A string literal doubles its quotes. *)
Fixpoint double (cs : list Z) : list Z :=
  match cs with [] => [] | c :: cs => if c =? QUOTE then QUOTE :: QUOTE :: double cs else c :: double cs end.

Definition spell_tok (t : Token) : list Z :=
  match t with
  | TIdent s | TNumber s => s
  | TStr s => QUOTE :: double (chars s) ++ [QUOTE]
  | TSym c =>
    if c =? SYM_LE then str "<=" else if c =? SYM_GE then str ">=" else if c =? SYM_NE then str "<>" else [c]
  | TEof => []
  end.

(** The text of tokens, each followed by a space. *)
Definition spell_chars (ts : list Token) : list Z := mjoin ((fun t => spell_tok t ++ [32]) <$> ts).
Definition spell (ts : list Token) : bytes := of_chars (spell_chars ts).

Definition lexable (t : Token) : bool :=
  match t with
  | TIdent s => ident s
  | TNumber s => number_ok s
  | TStr s => utf8_valid s
  | TSym c => simple_sym c || existsb (Z.eqb c) [chr "<"; chr ">"; SYM_LE; SYM_GE; SYM_NE]
  | TEof => false
  end.
