(* ===== verification/PrintLex.v ===== *)
(** The lexer reads the spelling of tokens back as those tokens. *)
From stdpp Require Import base list gmap strings.
From Stdlib Require Import ZArith Lia.
From S2P Require Import Prelude Machine Utf8 Types DateTime TableDef BTree Literal Lexer Expr Ast Parser Print.

(** * Scalars *)

Lemma scalar_range c : 0 <= c < 128 -> scalar c.
Proof. unfold scalar. lia. Qed.

Lemma digit_range c : is_digit c = true -> 48 <= c <= 57.
Proof. unfold is_digit. intros H. bsimp. lia. Qed.

Lemma alpha_range c : is_alphabetic c = true -> 65 <= c <= 122.
Proof. unfold is_alphabetic. intros [H%between_true|H%between_true]%orb_true_iff; lia. Qed.

Lemma ident_char_range c : ident_char c = true -> 48 <= c <= 122.
Proof.
  unfold ident_char, is_alphanumeric. intros [[?%alpha_range|?%digit_range]%orb_true_iff|?%Z.eqb_eq]%orb_true_iff; lia.
Qed.

Lemma ident_start_range c : ident_start c = true -> 65 <= c <= 122.
Proof. unfold ident_start. intros [?%alpha_range|?%Z.eqb_eq]%orb_true_iff; lia. Qed.

Lemma ascii_chars s : Forall (fun c => 0 <= c < 128) s -> of_chars s = s.
Proof.
  induction 1 as [|c s Hc _ IH]; [done|]. rewrite of_chars_cons, IH. unfold of_char. by rewrite (proj2 (Z.ltb_lt c 0x80)) by lia.
Qed.

Lemma ident_ascii s : forallb ident_char s = true -> Forall (fun c => 0 <= c < 128) s.
Proof.
  induction s as [|c s IH]; [constructor|]. cbn. intros [Hc%ident_char_range H]%andb_true_iff. constructor; [lia|auto].
Qed.

Lemma number_tail_ascii f s a b : number_tail f s = (a, b) -> Forall (fun c => 0 <= c < 128) a.
Proof.
  revert f a b. induction s as [|c s IH]; intros f a b H; cbn in H; [by injection H as <- <-|].
  destruct (is_digit c) eqn:Ed.
  - destruct (number_tail f s) as [a' b'] eqn:E. injection H as <- <-. apply digit_range in Ed. constructor; [lia|eauto].
  - destruct (Z.eqb_spec c DOT) as [->|_]; cbn [andb] in H; [|by injection H as <- <-]. destruct f; cbn [negb] in H; [by injection H as <- <-|].
    destruct (number_tail true s) as [a' b'] eqn:E. injection H as <- <-. constructor; [unfold DOT; lia|eauto].
Qed.

Lemma read_number_ascii s a b : read_number s = (a, b) -> Forall (fun c => 0 <= c < 128) a.
Proof.
  unfold read_number. destruct s as [|c s]; [by intros [= <- <-]|]. destruct (Z.eqb_spec c DASH) as [->|_]; [|apply number_tail_ascii].
  destruct (number_tail false s) as [a' b'] eqn:E. intros [= <- <-]. constructor; [unfold DASH; lia|]. by eapply number_tail_ascii.
Qed.

(** * One token *)

Lemma skip_ws_start c r : is_whitespace c = false -> (c =? DASH) && head_is DASH r = false -> skip_ws false (c :: r) = c :: r.
Proof. intros H1 H2. cbn [skip_ws]. by rewrite H1, H2. Qed.

Lemma not_ws c : 33 <= c <= 126 -> is_whitespace c = false.
Proof.
  intros H. unfold is_whitespace.
  rewrite !between_out by lia. repeat (rewrite (proj2 (Z.eqb_neq _ _)) by lia). done.
Qed.

Lemma number_tail_app f s r : match r with c :: _ => is_digit c = false /\ c <> DOT | [] => True end -> forall a b,
  number_tail f s = (a, b) -> number_tail f (s ++ r) = (a, b ++ r).
Proof.
  intros Hr a b. revert f a b. induction s as [|c s IH]; intros f a b H; cbn in H.
  - injection H as <- <-. destruct r as [|c r]; [done|]. destruct Hr as [H1 H2]. cbn. rewrite H1. by rewrite (proj2 (Z.eqb_neq c DOT)).
  - cbn. destruct (is_digit c); [|destruct ((c =? DOT) && negb f)].
    + destruct (number_tail f s) as [a' b'] eqn:E. injection H as <- <-. by erewrite IH by done.
    + destruct (number_tail true s) as [a' b'] eqn:E. injection H as <- <-. by erewrite IH by done.
    + by injection H as <- <-.
Qed.

Lemma read_number_app s r a b : s <> [] -> match r with c :: _ => is_digit c = false /\ c <> DOT | [] => True end ->
  read_number s = (a, b) -> read_number (s ++ r) = (a, b ++ r).
Proof.
  intros Hs Hr H. destruct s as [|c s]; [done|]. unfold read_number in *. cbn [app]. destruct (c =? DASH).
  - destruct (number_tail false s) as [a' b'] eqn:E. injection H as <- <-. by erewrite number_tail_app by done.
  - change (c :: s ++ r) with ((c :: s) ++ r). by apply number_tail_app.
Qed.

Lemma read_string_double s r : match r with c :: _ => c <> QUOTE | [] => True end ->
  read_string QUOTE (double s ++ QUOTE :: r) = Some (s, r).
Proof.
  intros Hr. induction s as [|c s IH]; cbn [double app].
  - cbn [read_string]. rewrite Z.eqb_refl. destruct r as [|c r]; [done|]. by rewrite (proj2 (Z.eqb_neq c QUOTE)).
  - destruct (Z.eqb_spec c QUOTE) as [->|Hc]; cbn [app read_string].
    + rewrite !Z.eqb_refl. by rewrite IH.
    + rewrite (proj2 (Z.eqb_neq c QUOTE)) by done. by rewrite IH.
Qed.

(** A character that ends every token. *)
Definition breaks (c : Z) : Prop := ident_char c = false /\ c <> DOT /\ c <> QUOTE /\ c <> chr "=" /\ c <> chr ">".

(** The text [w] is the token [t] whatever breaking character follows. *)
Definition lexes (w : list Z) (t : Token) : Prop :=
  exists c w', w = c :: w' /\ is_whitespace c = false /\ (c =? DASH) && head_is DASH w' = false /\
    (c = DASH -> w' <> []) /\
    forall r, match r with x :: _ => breaks x | [] => True end -> read_token c (w' ++ r) = Ok (t, r).

Lemma lexes_ident s : ident s = true -> lexes s (TIdent s).
Proof.
  destruct s as [|c s]; [done|]. cbn [ident]. intros [Hc Hs]%andb_true_iff. pose proof (ident_start_range c Hc) as Hr.
  exists c, s. split; [done|]. split; [apply not_ws; lia|]. split; [by rewrite (proj2 (Z.eqb_neq c DASH)) by (unfold DASH; lia)|].
  split; [unfold DASH; lia|]. intros r Hb. unfold read_token.
  rewrite (proj2 (Z.eqb_neq c QUOTE)) by (unfold QUOTE; lia). rewrite (proj2 (Z.eqb_neq c DQUOTE)) by (unfold DQUOTE; lia).
  cbn [orb]. assert (is_digit c = false) as -> by (unfold is_digit; apply andb_false_iff; right; apply Z.leb_gt; lia).
  rewrite Hc. unfold read_ident. change (c :: s ++ r) with ((c :: s) ++ r). rewrite span_all.
  - by rewrite ascii_chars by by apply ident_ascii.
  - done.
  - destruct r as [|x r]; [done|]. apply Hb.
Qed.

Lemma lexes_number s : number_ok s = true -> lexes s (TNumber s).
Proof.
  destruct s as [|c s]; [done|]. unfold number_ok. intros [Hc Hn%bool_decide_eq_true]%andb_true_iff.
  assert (Hr : forall r, match r with x :: _ => breaks x | [] => True end -> read_number (c :: s ++ r) = (c :: s, r)).
  { intros r Hb. change (c :: s ++ r) with ((c :: s) ++ r). apply (read_number_app (c :: s) r (c :: s) []); [done| |done].
    destruct r as [|x r]; [done|]. destruct Hb as (H1 & H2 & _). split; [|done]. destruct (is_digit x) eqn:E; [|done].
    unfold ident_char, is_alphanumeric in H1. by rewrite E, orb_true_r in H1. }
  pose proof (read_number_ascii _ _ _ Hn) as Ha. apply orb_true_iff in Hc as [Hd|[->%Z.eqb_eq Hp]%andb_true_iff].
  - pose proof (digit_range c Hd). exists c, s. split; [done|]. split; [apply not_ws; lia|].
    rewrite (proj2 (Z.eqb_neq c DASH)) by (unfold DASH; lia). split; [done|]. split; [unfold DASH; lia|]. intros r Hb. unfold read_token.
    rewrite (proj2 (Z.eqb_neq c QUOTE)) by (unfold QUOTE; lia). rewrite (proj2 (Z.eqb_neq c DQUOTE)) by (unfold DQUOTE; lia).
    cbn [orb]. by rewrite Hd, Hr, ascii_chars by done.
  - exists DASH, s. destruct s as [|d s]; [done|]. cbn [peek_digit] in Hp. pose proof (digit_range d Hp).
    split; [done|]. split; [done|]. split; [cbn [head_is]; rewrite (proj2 (Z.eqb_neq d DASH)) by (unfold DASH; lia); done|].
    split; [done|]. intros r Hb. unfold read_token. cbn -[read_number of_chars]. rewrite Hp. cbn -[read_number of_chars].
    specialize (Hr r Hb). cbn [app] in Hr. by rewrite Hr, ascii_chars by done.
Qed.

Lemma lexes_str s : utf8_valid s = true -> lexes (QUOTE :: double (chars s) ++ [QUOTE]) (TStr s).
Proof.
  intros [Hs _]%chars_valid. exists QUOTE, (double (chars s) ++ [QUOTE]). split_and!; [done..|]. intros r Hb. unfold read_token. rewrite Z.eqb_refl. cbn [orb].
  rewrite <- app_assoc. cbn [app]. rewrite read_string_double; [by rewrite Hs|]. destruct r as [|x r]; [done|]. apply Hb.
Qed.

Lemma lexes_sym c : lexable (TSym c) = true -> lexes (spell_tok (TSym c)) (TSym c).
Proof.
  cbn [lexable]. intros H. unfold simple_sym in H. apply orb_true_iff in H.
  assert (Hin : c ∈ str ",()*;=.:@" ++ [chr "<"; chr ">"; SYM_LE; SYM_GE; SYM_NE]).
  { apply elem_of_app. destruct H as [(x & Hx & ->%Z.eqb_eq)%existsb_exists|(x & Hx & ->%Z.eqb_eq)%existsb_exists]; [left|right]; by apply list_elem_of_In. }
  clear H. repeat (apply elem_of_cons in Hin as [->|Hin]; [|]); [..|by apply elem_of_nil in Hin].
  all: unfold lexes; eexists _, _; split; [reflexivity|]; split_and!; [reflexivity..|try done; intros [=]|intros r Hb].
  all: try reflexivity.
  all: destruct r as [|x r]; [reflexivity|]; destruct Hb as (H1 & H2 & H3 & H4 & H5); unfold read_token; cbn -[Z.eqb chr].
  all: rewrite ?(proj2 (Z.eqb_neq x (chr "=")) H4), ?(proj2 (Z.eqb_neq x (chr ">")) H5); reflexivity.
Qed.

Lemma lexes_spell t : lexable t = true -> lexes (spell_tok t) t.
Proof. destruct t; [apply lexes_ident|apply lexes_number|apply lexes_str|apply lexes_sym|done]. Qed.

Lemma breaks_space : breaks 32.
Proof. by unfold breaks. Qed.

(** * The whole text *)

Lemma spell_chars_cons t ts : spell_chars (t :: ts) = spell_tok t ++ 32 :: spell_chars ts.
Proof. unfold spell_chars. cbn. by rewrite <- app_assoc. Qed.

Lemma skip_space cs : skip_ws false (32 :: cs) = skip_ws false cs.
Proof. done. Qed.

Lemma lex_spelled ts : Forall (fun t => lexable t = true) ts -> exists f, lex_loop f (spell_chars ts) = Ret (Ok (ts ++ [TEof])).
Proof.
  intros H. enough (exists f, lex_loop f (32 :: spell_chars ts) = Ret (Ok (ts ++ [TEof]))) as [f Hf].
  { exists f. destruct f as [|f]; [done|]. exact Hf. }
  induction H as [|t ts Ht _ [f IH]]; [by exists 1%nat|]. apply lexes_spell in Ht as (c & w & Hw & H1 & H2 & H3 & Hr).
  exists (S f). cbn [lex_loop]. rewrite spell_chars_cons, Hw, skip_space. cbn [app].
  rewrite skip_ws_start; [|done|].
  - rewrite Hr by apply breaks_space. by rewrite IH.
  - destruct (Z.eqb_spec c DASH) as [Hc|]; [|done]. specialize (H3 Hc). destruct w as [|x w]; [done|]. exact H2.
Qed.

Lemma double_scalar cs : Forall scalar cs -> Forall scalar (double cs).
Proof.
  induction 1 as [|c cs Hc _ IH]; [constructor|]. cbn. assert (scalar QUOTE) by (apply scalar_range; unfold QUOTE; lia).
  destruct (c =? QUOTE); by repeat apply Forall_cons_2.
Qed.

Lemma spell_tok_scalar t : lexable t = true -> Forall scalar (spell_tok t).
Proof.
  destruct t as [s|s|s|c|]; cbn [lexable spell_tok]; intros H; [..|constructor].
  - destruct s as [|c s]; [done|]. apply andb_true_iff in H as [_ H]. eapply Forall_impl; [by apply ident_ascii|apply scalar_range].
  - destruct s as [|c s]; [done|]. apply andb_true_iff in H as [_ H%bool_decide_eq_true].
    eapply Forall_impl; [by eapply read_number_ascii|apply scalar_range].
  - apply chars_valid in H as [_ H]. assert (scalar QUOTE) by (apply scalar_range; unfold QUOTE; lia).
    constructor; [done|]. apply Forall_app. split; [by apply double_scalar|by apply Forall_singleton].
  - assert (Hin : c ∈ str ",()*;=.:@" ++ [chr "<"; chr ">"; SYM_LE; SYM_GE; SYM_NE]).
    { apply orb_true_iff in H. apply elem_of_app. destruct H as [(x & Hx & ->%Z.eqb_eq)%existsb_exists|(x & Hx & ->%Z.eqb_eq)%existsb_exists];
        [left|right]; by apply list_elem_of_In. }
    clear H. repeat (apply elem_of_cons in Hin as [->|Hin]; [|]); [..|by apply elem_of_nil in Hin].
    all: cbn; repeat apply Forall_cons_2; try apply Forall_nil_2; unfold scalar; lia.
Qed.

Lemma tokenize_spell ts : Forall (fun t => lexable t = true) ts -> tokenize (spell ts) = Ret (Ok (ts ++ [TEof])).
Proof.
  intros H. unfold tokenize, spell. assert (Hs : Forall scalar (spell_chars ts)).
  { unfold spell_chars. induction H as [|t ts Ht _ IH]; [constructor|]. cbn. apply Forall_app. split; [|done].
    apply Forall_app. split; [by apply spell_tok_scalar|]. apply Forall_singleton, scalar_range. lia. }
  rewrite (proj2 (of_chars_valid _ Hs)). destruct (lex_spelled ts H) as [f Hf].
  destruct (lex_loop_total (S (length (spell_chars ts))) (spell_chars ts) ltac:(lia)) as (r & Hr & _).
  rewrite Hr. apply (lex_loop_mono _ (S (length (spell_chars ts)) `max` f)%nat) in Hr; [|lia].
  apply (lex_loop_mono _ (S (length (spell_chars ts)) `max` f)%nat) in Hf; [|lia]. congruence.
Qed.

(** * Decimal numbers *)

Lemma digits_cons z : 0 <= z -> exists c s, digits z = c :: s /\ is_digit c = true /\ forallb is_digit s = true.
Proof.
  intros Hz. destruct (digits_spec z Hz) as [Hd _]. pose proof (digits_ne z). destruct (digits z) as [|c s]; [done|].
  cbn in Hd. apply andb_true_iff in Hd as [? ?]. eauto.
Qed.

Lemma parse_digits_show z : 0 <= z -> parse_digits (digits z) = Some z.
Proof.
  intros Hz. destruct (digits_spec z Hz) as [Hd Hv]. unfold parse_digits. rewrite Hd, Hv.
  pose proof (digits_ne z). by destruct (digits z).
Qed.

Lemma signed_digits z : 0 <= z -> signed (digits z) = (false, digits z).
Proof.
  intros Hz. destruct (digits_cons z Hz) as (c & s & -> & Hc%digit_range & _). unfold signed.
  destruct c as [|p|p]; try lia. repeat (destruct p as [p|p|]; try lia; try done).
Qed.

Lemma parse_i64_show v : i64_MIN <= v <= i64_MAX -> parse_i64 (show_Z v) = Some v.
Proof.
  intros Hv. unfold parse_i64, show_Z. destruct (Z.ltb_spec v 0) as [Hn|Hn].
  - cbn [signed]. rewrite parse_digits_show by lia. cbn. rewrite Z.opp_involutive. by rewrite !(proj2 (Z.leb_le _ _)) by lia.
  - rewrite signed_digits by lia. rewrite parse_digits_show by lia. cbn. by rewrite !(proj2 (Z.leb_le _ _)) by lia.
Qed.

Lemma parse_usize_show v : 0 <= v <= u64_MAX -> parse_usize (show_Z v) = Some v.
Proof.
  intros Hv. unfold parse_usize, show_Z. rewrite (proj2 (Z.ltb_ge v 0)) by lia.
  destruct (digits_cons v ltac:(lia)) as (c & s & E & Hc%digit_range & _). pose proof (parse_digits_show v ltac:(lia)) as Hp. rewrite E in *.
  assert (Hm : match c :: s with 43 :: r => r | _ => c :: s end = c :: s).
  { destruct c as [|p|p]; try lia. repeat (destruct p as [p|p|]; try lia; try done). }
  rewrite Hm, Hp. cbn. by rewrite (proj2 (Z.leb_le _ _)) by lia.
Qed.

Lemma digits_no_dot s : forallb is_digit s = true -> existsb (Z.eqb DOT) s = false.
Proof.
  induction s as [|c s IH]; [done|]. cbn [forallb existsb]. intros [Hc%digit_range Hs]%andb_true_iff. rewrite IH by done.
  by rewrite (proj2 (Z.eqb_neq DOT c)) by (unfold DOT; lia).
Qed.

Lemma show_no_dot v : existsb (Z.eqb DOT) (show_Z v) = false.
Proof.
  unfold show_Z. destruct (Z.ltb_spec v 0); cbn [existsb].
  - by rewrite digits_no_dot by (apply digits_spec; lia).
  - apply digits_no_dot, digits_spec. lia.
Qed.

Lemma number_tail_digits s : forallb is_digit s = true -> number_tail false s = (s, []).
Proof. induction s as [|c s IH]; [done|]. cbn. intros [-> Hs]%andb_true_iff. by rewrite IH. Qed.

Lemma number_ok_show v : number_ok (show_Z v) = true.
Proof.
  unfold show_Z. destruct (Z.ltb_spec v 0).
  - destruct (digits_cons (- v) ltac:(lia)) as (c & s & E & Hc & Hs). pose proof (proj1 (digits_spec (- v) ltac:(lia))) as Hd.
    cbn [number_ok]. rewrite E in *. cbn [peek_digit]. rewrite Hc. cbn [orb andb Z.eqb Pos.eqb].
    apply andb_true_iff. split; [by rewrite orb_true_r|]. apply bool_decide_eq_true. unfold read_number.
    change (45 =? DASH) with true. cbv iota. by rewrite number_tail_digits.
  - destruct (digits_cons v ltac:(lia)) as (c & s & E & Hc & Hs). pose proof (proj1 (digits_spec v ltac:(lia))) as Hd. rewrite E in *.
    cbn [number_ok]. rewrite Hc. cbn [orb andb]. apply bool_decide_eq_true. unfold read_number.
    apply digit_range in Hc. rewrite (proj2 (Z.eqb_neq c DASH)) by (unfold DASH; lia). by rewrite number_tail_digits.
Qed.
