(* ===== verification/ParserSpec.v ===== *)
(** The parser inverts the printer on expressions and SELECT: precedence,
    associativity, subqueries and clauses are read as they are written. *)
From stdpp Require Import base list gmap strings.
From Stdlib Require Import ZArith Lia.
From S2P Require Import Prelude Machine Utf8 Types DateTime TableDef BTree Table Literal Lexer Expr Ast.
From S2P Require Import Parser Print PrintLex.

(** [c] reads [a] and leaves [rest]. *)
Definition parses {A} (c : PM A) (ts : list Token) (a : A) (rest : list Token) : Prop := c ts = Ret (rest, Ok a).

Lemma p_bind {A B} (c : PM A) (k : A -> PM B) ts a mid b rest : parses c ts a mid -> parses (k a) mid b rest -> parses (c ≫= k) ts b rest.
Proof. unfold parses, mbind, sm_bind. by intros ->. Qed.

Section steps.
Context {A B : Type}.

Lemma p_yes f (k : bool -> PM B) t ts b rest : f t = true -> parses (k true) ts b rest -> parses (eat_if f ≫= k) (t :: ts) b rest.
Proof. intros Hf H. eapply p_bind; [|exact H]. unfold parses, eat_if, mbind, sm_bind. cbn. by rewrite Hf. Qed.

Lemma p_no f (k : bool -> PM B) ts b rest : f (hd TEof ts) = false -> parses (k false) ts b rest -> parses (eat_if f ≫= k) ts b rest.
Proof. intros Hf H. eapply p_bind; [|exact H]. unfold parses, eat_if, mbind, sm_bind. cbn. by rewrite Hf. Qed.

Lemma p_assoc {C} (c : PM C) (k1 : C -> PM A) (k2 : A -> PM B) ts b rest :
  parses (c ≫= (fun x => k1 x ≫= k2)) ts b rest -> parses ((c ≫= k1) ≫= k2) ts b rest.
Proof. unfold parses. intros H. rewrite <- H. unfold mbind, sm_bind. by destruct (c ts) as [[s [a|e|]]| |]. Qed.

Lemma p_peek (k : Token -> PM B) ts b rest : parses (k (hd TEof ts)) ts b rest -> parses (peek ≫= k) ts b rest.
Proof. done. Qed.

Lemma p_peek1 (k : Token -> PM B) ts b rest : parses (k (hd TEof (tail ts))) ts b rest -> parses (peek_at_1 ≫= k) ts b rest.
Proof. done. Qed.

Lemma p_advance (k : () -> PM B) t ts b rest : parses (k ()) ts b rest -> parses (advance ≫= k) (t :: ts) b rest.
Proof. done. Qed.

Lemma p_next (k : Token -> PM B) t ts b rest : parses (k t) ts b rest -> parses (next ≫= k) (t :: ts) b rest.
Proof. done. Qed.

Lemma p_lift (r : res A) a (k : A -> PM B) ts b rest : r = Ok a -> parses (k a) ts b rest -> parses (lift r ≫= k) ts b rest.
Proof. by intros ->. Qed.

Lemma p_mret (a : A) (k : A -> PM B) ts b rest : parses (k a) ts b rest -> parses (mret a ≫= k) ts b rest.
Proof. done. Qed.

End steps.

Lemma p_ret {A} (a : A) ts : parses (mret a) ts a ts.
Proof. done. Qed.

(** ** Loops *)

Lemma rounds_mono {A B} (body : A -> PM (A + B)) n n' a ts x : rounds n body a ts = Ret x -> (n <= n')%nat -> rounds n' body a ts = Ret x.
Proof.
  revert n' a ts. induction n as [|n IH]; intros [|n'] a ts H Hn; try done; try lia. cbn [rounds] in *. unfold mbind, sm_bind in *.
  destruct (body a ts) as [[ts' [[a'|b]|e|]]| |]; try done. apply IH; [done|lia].
Qed.

Lemma loop_more {A B} (body : A -> PM (A + B)) a a' ts ts' x :
  parses (body a) ts (inl a') ts' -> (length ts' < length ts)%nat -> loop body a' ts' = Ret x -> loop body a ts = Ret x.
Proof.
  intros Hb Hl H. unfold loop in *. cbn [rounds]. unfold mbind, sm_bind. rewrite Hb. eapply rounds_mono; [exact H|lia].
Qed.

Lemma loop_stop {A B} (body : A -> PM (A + B)) a b ts ts' : parses (body a) ts (inr b) ts' -> parses (loop body a) ts b ts'.
Proof. intros Hb. unfold parses, loop. cbn [rounds]. unfold mbind, sm_bind. by rewrite Hb. Qed.

(** * What may follow *)

(** The next token is one of [F]. *)
Definition follows (F : list Token) (ts : list Token) : Prop := hd TEof ts ∈ F.

Definition sel_ends : list Token := [TEof; TSym RP; TSym (chr ";")].
Definition clauses : list Token := kwt <$> ["LEFT"; "JOIN"; "WHERE"; "GROUP"; "ORDER"; "LIMIT"]%string.

(** After an expression at level [p]. *)
Definition expr_ends (p : Z) : list Token :=
  sel_ends ++ clauses ++ [TSym COMMA] ++ (if 0 <? p then [kwt "OR"] else []) ++ (if 1 <? p then [kwt "AND"] else []).

(** After an operand, a name or a select item. *)
Definition operand_ends : list Token :=
  expr_ends 3 ++ (op_tok <$> [OpEq; OpNe; OpLt; OpLe; OpGt; OpGe]) ++ (kwt <$> ["NOT"; "IN"; "LIKE"; "BETWEEN"; "FROM"; "DESC"; "ON"]%string).

Definition item_ends : list Token := sel_ends ++ clauses ++ [kwt "FROM"].

Lemma follows_false F ts (f : Token -> bool) : follows F ts -> forallb (fun t => negb (f t)) F = true -> f (hd TEof ts) = false.
Proof. intros Hin Hf. apply negb_true_iff. apply (proj1 (forallb_forall _ _) Hf). by apply list_elem_of_In. Qed.

Lemma follows_sub F F' ts : follows F ts -> forallb (fun t => bool_decide (t ∈ F')) F = true -> follows F' ts.
Proof.
  intros Hin Hf. apply (bool_decide_eq_true_1 (hd TEof ts ∈ F')), (proj1 (forallb_forall _ _) Hf). by apply list_elem_of_In.
Qed.

Lemma follows_app F s ts : match s with t :: _ => t ∈ F | [] => True end -> follows F ts -> follows F (s ++ ts).
Proof. destruct s; by intros. Qed.

Lemma follows_here F t ts : bool_decide (t ∈ F) = true -> follows F (t :: ts).
Proof. intros H. by apply bool_decide_eq_true_1 in H. Qed.

Lemma member (F : list Token) t : bool_decide (t ∈ F) = true -> t ∈ F.
Proof. by intros H%bool_decide_eq_true_1. Qed.

(** * Words and names *)

Lemma word_kw s k : is_word s = true -> bool_decide (k ∈ reserved) = true -> is_kw k (TIdent s) = false.
Proof.
  intros [_ H%negb_true_iff]%andb_true_iff Hk%bool_decide_eq_true_1. unfold is_kw. cbn [upper]. apply bool_decide_eq_false. intros [= E].
  apply not_true_iff_false in H. apply H. unfold one_of. apply existsb_exists. exists k. split; [by apply list_elem_of_In|].
  by apply bool_decide_eq_true.
Qed.

Lemma split_on_ne c cur s : split_on c cur s <> [].
Proof. revert cur. induction s as [|x s IH]; intros cur; [done|]. cbn. by destruct (x =? c). Qed.

Lemma split_on_spec c cur s : match split_on c cur s with
  | [a] => cur ++ s = a | [a; b] => cur ++ s = a ++ [c] ++ b | _ => True end.
Proof.
  revert cur. induction s as [|x s IH]; intros cur; cbn [split_on]; [by rewrite app_nil_r|].
  destruct (Z.eqb_spec x c) as [->|Hx].
  - specialize (IH []). pose proof (split_on_ne c [] s). destruct (split_on c [] s) as [|a [|b l]]; try done. cbn [app] in IH. by subst.
  - specialize (IH (cur ++ [x])). rewrite <- app_assoc in IH. exact IH.
Qed.

Lemma name_cases n : wf_name n = true -> exists a, is_word a = true /\
  ((n = a /\ name_toks n = [TIdent a]) \/
   exists b, is_word b = true /\ n = a ++ str "." ++ b /\ name_toks n = [TIdent a; TSym DOT; TIdent b]).
Proof.
  unfold wf_name, name_toks, split. intros H. pose proof (split_on_spec DOT [] n) as Hs.
  destruct (split_on DOT [] n) as [|a [|b [|c l]]]; try done.
  - exists a. split; [done|]. by left.
  - apply andb_true_iff in H as [Ha Hb]. exists a. split; [done|]. right. by exists b.
Qed.

Ltac look :=
  first [ reflexivity
        | apply word_kw; [assumption|reflexivity]
        | match goal with H : follows _ _ |- _ => eapply follows_false; [exact H|vm_compute; reflexivity] end ].

Ltac pstep := cbn beta iota;
  lazymatch goal with
  | |- parses (mret _) _ _ _ => apply p_ret
  | |- parses (mbind _ (mbind _ _)) _ _ _ => apply p_assoc
  | |- parses (mbind _ (mret _)) _ _ _ => apply p_mret
  | |- parses (mbind _ peek) _ _ _ => apply p_peek; cbn [hd]
  | |- parses (mbind _ peek_at_1) _ _ _ => apply p_peek1; cbn [hd tail]
  | |- parses (mbind _ advance) _ _ _ => apply p_advance
  | |- parses (mbind _ next) _ _ _ => apply p_next
  | |- parses (mbind _ (or_else _ _)) _ _ _ => unfold or_else
  | |- parses (mbind _ (eat_sym _)) _ _ _ => first [apply p_yes; [reflexivity|] | apply p_no; [look|]]
  | |- parses (mbind _ (eat_kw _)) _ _ _ => first [apply p_yes; [reflexivity|] | apply p_no; [look|]]
  end.

Section tokens.
Context (dbg_token : Token -> bytes).

Lemma p_expect_sym c ts : parses (expect_sym dbg_token c) (TSym c :: ts) () ts.
Proof. unfold expect_sym. eapply p_yes; [by apply bool_decide_eq_true|]. apply p_ret. Qed.

Lemma p_expect_kw k ts : is_kw k (kwt k) = true -> parses (expect_kw dbg_token k) (kwt k :: ts) () ts.
Proof. intros H. unfold expect_kw. eapply p_yes; [done|]. apply p_ret. Qed.

Lemma p_expect_ident s ts : parses (expect_ident dbg_token) (TIdent s :: ts) s ts.
Proof. done. Qed.

Lemma p_col_ref n ts : wf_name n = true -> follows operand_ends ts -> parses (parse_col_ref dbg_token) (name_toks n ++ ts) n ts.
Proof.
  intros (a & Ha & [[-> ->]|(b & Hb & -> & ->)])%name_cases Hf; cbn [app]; unfold parse_col_ref.
  - eapply p_bind; [apply p_expect_ident|]. repeat pstep.
  - eapply p_bind; [apply p_expect_ident|]. repeat pstep. eapply p_bind; [apply p_expect_ident|]. apply p_ret.
Qed.

Lemma p_cmp_op op ts : parses parse_cmp_op (op_tok op :: ts) (Some op) ts.
Proof. by destruct op. Qed.

Lemma p_no_cmp_op F ts : follows F ts -> forallb (fun t => bool_decide (t ∈ operand_ends) && negb (bool_decide (t ∈ op_tok <$> [OpEq; OpNe; OpLt; OpLe; OpGt; OpGe]))) F = true ->
  parses parse_cmp_op ts None ts.
Proof.
  intros Hin Hf. pose proof (proj1 (forallb_forall _ _) Hf (hd TEof ts) ltac:(by apply list_elem_of_In)) as [H1%bool_decide_eq_true_1 H2%negb_true_iff]%andb_true_iff.
  unfold parse_cmp_op. apply p_peek. clear Hin Hf. remember (hd TEof ts) as t eqn:Et. clear Et.
  repeat (apply elem_of_cons in H1 as [->|H1]; [try done|]). by apply elem_of_nil in H1.
Qed.

(** A list with commas, of items each read whatever separator follows. *)
Lemma p_comma_list {A} (p : PM A) (pr : A -> list Token) F l ts :
  (forall x rest, x ∈ l -> follows (TSym COMMA :: F) rest -> parses p (pr x ++ rest) x rest) ->
  (forall x, x ∈ l -> pr x <> []) -> bool_decide (TSym COMMA ∈ F) = false -> l <> [] -> follows F ts ->
  parses (comma_list p) (commas (pr <$> l) ++ ts) l ts.
Proof.
  intros Hp Hne HF Hl Hts. unfold comma_list.
  enough (H : forall acc, parses (loop (fun acc => x ← p; go_on (acc ++ [x])) acc) (commas (pr <$> l) ++ ts) (acc ++ l) ts) by apply (H []).
  revert Hp Hne Hl. induction l as [|x l IH]; intros Hp Hne Hl acc; [done|].
  destruct l as [|y l].
  - cbn [fmap list_fmap commas]. apply loop_stop. eapply p_bind; [apply Hp; [left|right; exact Hts]|]. unfold go_on.
    apply p_no; [|apply p_ret]. apply bool_decide_eq_false. intros E. apply bool_decide_eq_false in HF. apply HF. by rewrite <- E.
  - change (commas (pr <$> x :: y :: l)) with (pr x ++ TSym COMMA :: commas (pr <$> y :: l)). set (tl := commas (pr <$> (y :: l))).
    assert (Hx : parses p ((pr x ++ TSym COMMA :: tl) ++ ts) x (TSym COMMA :: tl ++ ts)).
    { rewrite <- app_assoc. cbn [app]. apply Hp; [left|]. by left. }
    replace (acc ++ x :: y :: l) with ((acc ++ [x]) ++ y :: l) by (by rewrite <- app_assoc).
    eapply loop_more with (a' := acc ++ [x]) (ts' := tl ++ ts).
    + eapply p_bind; [exact Hx|]. unfold go_on. apply p_yes; [done|apply p_ret].
    + rewrite !length_app. cbn [length]. lia.
    + apply IH; [intros; apply Hp; [by right|done]|intros; apply Hne; by right|done].
Qed.

End tokens.

(** * Operands *)

Section recursive.
Context (f64_show f64_lit : Z -> bytes) (dbg_token : Token -> bytes) (dbg_datum : Datum -> bytes) (dbg_expr : Expr -> bytes).

Abbreviation print_expr := (print_expr f64_lit).
Abbreviation print_select := (print_select f64_lit).
Abbreviation wf_expr := (wf_expr f64_lit).
Abbreviation wf_select := (wf_select f64_lit).
Abbreviation wf_lit := (wf_lit f64_lit).
Abbreviation lit_tok := (lit_tok f64_lit).

(** The recursive calls read what is shorter than [m] tokens. *)
Record good (m : nat) (self : Rec) : Prop := mkGood {
  g_expr e ts : wf_expr e = true -> (length (print_expr 0 e) < m)%nat -> follows (expr_ends 0) ts ->
    parses (r_expr self) (print_expr 0 e ++ ts) e ts;
  g_not e ts : wf_expr e = true -> (length (print_expr 2 e) < m)%nat -> follows (expr_ends 2) ts ->
    parses (r_not self) (print_expr 2 e ++ ts) e ts;
  g_paren e ts : wf_expr e = true -> (length (paren (print_expr 0 e)) < m)%nat -> follows (expr_ends 2) ts ->
    parses (r_not self) (paren (print_expr 0 e) ++ ts) e ts;
  g_select q ts : wf_select q = true -> (length (print_select q) < m)%nat -> follows sel_ends ts ->
    parses (r_select self) (print_select q ++ ts) q ts;
}.

Context (self : Rec) (m : nat) (Hself : good m self).

Abbreviation parse_operand := (parse_operand f64_show dbg_token dbg_datum dbg_expr self).
Abbreviation parse_literal_operand := (parse_literal_operand f64_show dbg_token dbg_datum dbg_expr self).
Abbreviation parse_cmp_tail := (parse_cmp_tail f64_show dbg_token dbg_datum dbg_expr self).
Abbreviation parse_predicate := (parse_predicate f64_show dbg_token dbg_datum dbg_expr self).
Abbreviation parse_not := (parse_not f64_show dbg_token dbg_datum dbg_expr self).
Abbreviation parse_and := (parse_and f64_show dbg_token dbg_datum dbg_expr self).
Abbreviation parse_or := (parse_or f64_show dbg_token dbg_datum dbg_expr self).

Lemma select_head q : exists tl, print_select q = kwt "SELECT" :: tl.
Proof. destruct q; cbn; eauto. Qed.

(** [at_subquery] on an opening parenthesis. *)
Lemma p_at_subquery_yes {A} (k : bool -> PM A) q ts b rest :
  parses (k true) (TSym LP :: print_select q ++ ts) b rest -> parses (at_subquery ≫= k) (TSym LP :: print_select q ++ ts) b rest.
Proof. intros H. eapply p_bind; [|exact H]. destruct (select_head q) as [tl ->]. reflexivity. Qed.

Lemma p_at_subquery_no {A} (k : bool -> PM A) ts b rest :
  is_sym LP (hd TEof ts) = false -> parses (k false) ts b rest -> parses (at_subquery ≫= k) ts b rest.
Proof.
  intros Hl H. eapply p_bind; [|exact H]. unfold at_subquery. apply p_peek, p_peek1. rewrite Hl. apply p_ret.
Qed.

Lemma p_subquery {A} (k : SelectStmt -> PM A) q ts b rest :
  wf_select q = true -> (length (print_select q) < m)%nat -> parses (k q) ts b rest ->
  parses (subquery dbg_token self ≫= k) (TSym LP :: print_select q ++ TSym RP :: ts) b rest.
Proof.
  intros Hq Hm H. eapply p_bind; [|exact H]. unfold subquery. apply p_advance.
  eapply p_bind; [apply Hself; [done..|by apply follows_here]|]. eapply p_bind; [apply p_expect_sym|apply p_ret].
Qed.

Lemma p_casts e ts F : follows F ts -> forallb (fun t => negb (is_sym COLON t)) F = true ->
  parses (casts f64_show dbg_token dbg_datum dbg_expr e) ts e ts.
Proof. intros Hf HF. unfold casts. apply loop_stop. apply p_no; [by eapply follows_false|apply p_ret]. Qed.

Lemma lit_number d ts : wf_lit d = true ->
  parses (parse_base dbg_token) (lit_tok d :: ts) (ELiteral d) ts.
Proof.
  destruct d as [|v|f|s|b|v]; cbn [Print.wf_lit Print.lit_tok]; intros H; [reflexivity|..|done].
  - apply andb_true_iff in H as [H1 H2]. bsimp. unfold parse_base. repeat pstep. unfold parse_number.
    rewrite show_no_dot, parse_i64_show by lia. done.
  - apply andb_true_iff in H as [[H1 H2]%andb_true_iff H3%bool_decide_eq_true]. unfold parse_base. repeat pstep.
    unfold parse_number. by rewrite H2, H3.
  - reflexivity.
  - by destruct b.
Qed.

Lemma p_base_col n ts : wf_name n = true -> follows operand_ends ts -> parses (parse_base dbg_token) (name_toks n ++ ts) (EColumn n) ts.
Proof.
  intros (a & Ha & Hn)%name_cases Hf.
  assert (Hk : forall k, bool_decide (k ∈ reserved) = true -> bool_decide (to_ascii_uppercase a = str k) = false).
  { intros k Hk. pose proof (word_kw a k Ha Hk) as H. unfold is_kw in H. cbn [upper] in H.
    apply bool_decide_eq_false in H. apply bool_decide_eq_false. congruence. }
  destruct Hn as [[-> ->]|(b & Hb & -> & ->)]; cbn [app]; unfold parse_base; apply p_next; cbv zeta.
  all: rewrite !Hk by done; repeat pstep. eapply p_bind; [apply p_expect_ident|]. apply p_ret.
Qed.

(** Tokens that start something else than a parenthesis or EXISTS. *)
Lemma name_head n ts : wf_name n = true -> exists a tl, name_toks n ++ ts = TIdent a :: tl /\ is_word a = true.
Proof. intros (a & Ha & [[-> ->]|(b & Hb & -> & ->)])%name_cases; cbn; eauto. Qed.

Definition base_head (t : Token) : Prop :=
  (exists a, t = TIdent a /\ is_word a = true) \/ (exists s, t = TNumber s) \/ (exists s, t = TStr s) \/
  t ∈ kwt <$> ["NULL"; "TRUE"; "FALSE"]%string.

Lemma base_head_of e ts : is_base e = true -> wf_expr e = true -> exists t tl, print_expr 3 e ++ ts = t :: tl /\ base_head t.
Proof.
  destruct e; cbn [is_base Print.wf_expr Print.print_expr]; try done; intros _ Hw.
  - destruct (name_head name ts Hw) as (a & tl & -> & Ha). eexists _, _. split; [done|]. left. eauto.
  - eexists _, _. split; [done|]. unfold base_head. destruct d; cbn; eauto; try done.
    + do 3 right. by left.
    + do 3 right. destruct b; [right; left|right; right; left].
Qed.

Lemma base_head_kw t k : base_head t -> bool_decide (k ∈ reserved) = true -> bool_decide (k ∈ ["NULL"; "TRUE"; "FALSE"]%string) = false ->
  bool_decide (str k ∈ str <$> ["NULL"; "TRUE"; "FALSE"]%string) = false -> is_kw k t = false.
Proof.
  intros [(a & -> & Ha)|[[s ->]|[[s ->]|Ht]]] Hk Hn Hs; [by apply word_kw|done|done|].
  apply bool_decide_eq_false in Hs. unfold is_kw. apply bool_decide_eq_false. intros E. apply Hs.
  repeat (apply elem_of_cons in Ht as [->|Ht]; [injection E as <-; cbn; repeat first [left|right]; reflexivity|]).
  by apply elem_of_nil in Ht.
Qed.

Lemma base_head_sym t c : base_head t -> is_sym c t = false.
Proof.
  intros [(a & -> & Ha)|[[s ->]|[[s ->]|Ht]]]; [done..|]. repeat (apply elem_of_cons in Ht as [->|Ht]; [done|]). by apply elem_of_nil in Ht.
Qed.

Definition is_operand (e : Expr) : bool := is_base e || match e with EScalarSubquery _ => true | _ => false end.

Lemma p_base e ts : is_base e = true -> wf_expr e = true -> follows operand_ends ts ->
  parses (parse_base dbg_token) (print_expr 3 e ++ ts) e ts.
Proof.
  destruct e; try done; cbn [Print.wf_expr Print.print_expr]; intros _ Hw Hf; [by apply p_base_col|by apply lit_number].
Qed.

Lemma p_operand e ts : is_operand e = true -> wf_expr e = true -> (length (print_expr 3 e) <= m)%nat -> follows operand_ends ts ->
  parses parse_operand (print_expr 3 e ++ ts) e ts.
Proof.
  intros He Hw Hm Hf. unfold Parser.parse_operand. destruct (is_base e) eqn:Hb.
  - destruct (base_head_of e ts Hb Hw) as (t & tl & Ht & Hh). apply p_at_subquery_no; [rewrite Ht; cbn [hd]; by apply base_head_sym|].
    eapply p_bind; [by apply p_base|]. eapply p_casts; [exact Hf|reflexivity].
  - destruct e; try done. cbn [Print.wf_expr Print.print_expr] in *. unfold paren in *. cbn [app length] in *. rewrite length_app in Hm.
    rewrite <- app_assoc. apply p_at_subquery_yes. apply p_subquery; [done|lia|apply p_ret].
Qed.

Lemma p_literal_operand d ts : wf_lit d = true -> follows operand_ends ts -> parses parse_literal_operand (lit_tok d :: ts) d ts.
Proof.
  intros Hd Hf. unfold Parser.parse_literal_operand. apply (p_bind _ _ _ (ELiteral d) ts); [|apply p_ret].
  unfold Parser.parse_operand. apply p_at_subquery_no.
  - cbn [hd]. apply base_head_sym. destruct (base_head_of (ELiteral d) ts eq_refl Hd) as (t & tl & [= <- <-] & Hh). done.
  - eapply p_bind; [by apply lit_number|]. eapply p_casts; [exact Hf|reflexivity].
Qed.

(** * Predicates *)

Lemma p_at_subquery_lp {A} (k : bool -> PM A) t ts b rest :
  is_kw "SELECT" t = false -> parses (k false) (TSym LP :: t :: ts) b rest -> parses (at_subquery ≫= k) (TSym LP :: t :: ts) b rest.
Proof. intros Hs H. eapply p_bind; [|exact H]. unfold at_subquery. apply p_peek, p_peek1. cbn [hd tail]. rewrite Hs. apply p_ret. Qed.

Lemma lit_head d : wf_lit d = true -> base_head (lit_tok d).
Proof. intros H. by destruct (base_head_of (ELiteral d) [] eq_refl H) as (t & tl & [= <- <-] & Hh). Qed.

Lemma p_between_bounds lo hi ts : wf_lit lo = true -> wf_lit hi = true -> follows operand_ends ts ->
  parses (parse_between_bounds f64_show dbg_token dbg_datum dbg_expr self) (lit_tok lo :: kwt "AND" :: lit_tok hi :: ts) (lo, hi) ts.
Proof.
  intros Hl Hh Hf. unfold parse_between_bounds. eapply p_bind; [by apply p_literal_operand, follows_here|].
  eapply p_bind; [by apply p_expect_kw|]. eapply p_bind; [by apply p_literal_operand|]. apply p_ret.
Qed.

Lemma p_in_list vs ts : vs <> [] -> forallb wf_lit vs = true ->
  parses (parse_in_list f64_show dbg_token dbg_datum dbg_expr self) (paren (commas ((fun d => [lit_tok d]) <$> vs)) ++ ts) vs ts.
Proof.
  intros Hne Hvs. unfold parse_in_list, paren. cbn [app]. rewrite <- app_assoc. cbn [app].
  eapply p_bind; [apply p_expect_sym|]. unfold closed_list. eapply p_bind; [apply (p_comma_list _ _ [TSym RP])|].
  - intros d rest Hd Hf. apply p_literal_operand; [|by eapply follows_sub].
    apply list_elem_of_In in Hd. by apply (proj1 (forallb_forall _ _) Hvs).
  - done.
  - done.
  - done.
  - by apply follows_here.
  - eapply p_bind; [apply p_expect_sym|]. apply p_ret.
Qed.

Lemma paren_app (a ts : list Token) : paren a ++ ts = TSym LP :: a ++ TSym RP :: ts.
Proof. unfold paren. cbn. by rewrite <- app_assoc. Qed.

Lemma paren_length (a : list Token) : length (paren a) = (2 + length a)%nat.
Proof. unfold paren. cbn [length app]. rewrite length_app. cbn. lia. Qed.

Lemma p_in_tail_list e vs neg ts : vs <> [] -> forallb wf_lit vs = true ->
  parses (parse_in_tail f64_show dbg_token dbg_datum dbg_expr self e neg) (paren (commas ((fun d => [lit_tok d]) <$> vs)) ++ ts) (EIn e vs neg) ts.
Proof.
  intros Hne Hvs. unfold parse_in_tail. pose proof (p_in_list vs ts Hne Hvs) as H. destruct vs as [|v vs]; [done|].
  assert (Hv : exists tl, paren (commas ((fun d => [lit_tok d]) <$> v :: vs)) ++ ts = TSym LP :: lit_tok v :: tl) by (destruct vs; cbn; eauto).
  destruct Hv as [tl Hv]. rewrite Hv in *. apply p_at_subquery_lp.
  - cbn in Hvs. apply andb_true_iff in Hvs as [Hv0 _]. by apply base_head_kw; [apply lit_head|..].
  - eapply p_bind; [exact H|apply p_ret].
Qed.

Lemma p_in_tail_sub e q neg ts : wf_select q = true -> (length (print_select q) < m)%nat ->
  parses (parse_in_tail f64_show dbg_token dbg_datum dbg_expr self e neg) (paren (print_select q) ++ ts) (EInSubquery e q neg) ts.
Proof.
  intros Hq Hm. unfold parse_in_tail. rewrite paren_app. apply p_at_subquery_yes. apply p_subquery; [done..|]. apply p_ret.
Qed.

Lemma expr_operand p ts : 0 <= p <= 3 -> follows (expr_ends p) ts -> follows operand_ends ts.
Proof. intros Hp H. assert (p = 0 \/ p = 1 \/ p = 2 \/ p = 3) as [->|[->|[->| ->]]] by lia; by eapply follows_sub. Qed.

(** What follows the first operand of a predicate. *)
Lemma p_cmp_tail_op l op r ts : is_base l = true -> cmp_shape l r = true -> wf_expr l = true -> wf_expr r = true ->
  (length (print_expr 3 l) <= m)%nat -> (length (print_expr 3 r) <= m)%nat -> follows (expr_ends 3) ts ->
  parses parse_cmp_tail (print_expr 3 l ++ op_tok op :: print_expr 3 r ++ ts) (ECmp l op r) ts.
Proof.
  intros Hb Hs Hl Hr Hml Hmr Hf. unfold Parser.parse_cmp_tail. eapply p_bind.
  { apply p_operand; [unfold is_operand; by rewrite Hb|done..|]. destruct op; by apply follows_here. }
  eapply p_bind; [apply p_cmp_op|]. eapply p_bind.
  { apply p_operand; [by destruct l, r|done..|]. by apply (expr_operand 3). }
  cbv beta iota. unfold parses, lift. by destruct l, r.
Qed.

Lemma p_cmp_tail_rest l X r ts (k : string) : is_base l = true -> wf_expr l = true -> (length (print_expr 3 l) <= m)%nat ->
  hd TEof X = kwt k -> bool_decide (k ∈ ["BETWEEN"; "NOT"; "IN"; "LIKE"]%string) = true ->
  parses (eats eat_kw "BETWEEN" then b ← parse_between_bounds f64_show dbg_token dbg_datum dbg_expr self; mret (EBetween l b.1 b.2 false)
    else eats eat_kw "NOT" then
      (eats eat_kw "IN" then parse_in_tail f64_show dbg_token dbg_datum dbg_expr self l true
       else eats eat_kw "LIKE" then p ← parse_like_pattern dbg_token; mret (ELike l p true)
       else eats eat_kw "BETWEEN" then b ← parse_between_bounds f64_show dbg_token dbg_datum dbg_expr self; mret (EBetween l b.1 b.2 true)
       else fail_got dbg_token (str "expected IN, LIKE or BETWEEN after NOT"))
    else eats eat_kw "IN" then parse_in_tail f64_show dbg_token dbg_datum dbg_expr self l false
    else eats eat_kw "LIKE" then p ← parse_like_pattern dbg_token; mret (ELike l p false)
    else mret l) X r ts ->
  parses parse_cmp_tail (print_expr 3 l ++ X) r ts.
Proof.
  intros Hb Hl Hm HX Hk H. unfold Parser.parse_cmp_tail. eapply p_bind.
  { apply p_operand; [unfold is_operand; by rewrite Hb|done..|]. unfold follows. rewrite HX. apply bool_decide_eq_true_1 in Hk.
    repeat (apply elem_of_cons in Hk as [->|Hk]; [by apply member|]). by apply elem_of_nil in Hk. }
  apply (p_bind _ _ _ None X); [|exact H]. unfold parse_cmp_op. apply p_peek. rewrite HX. apply p_ret.
Qed.

Lemma p_predicate_base l X r ts : is_base l = true -> wf_expr l = true ->
  parses parse_cmp_tail (print_expr 3 l ++ X) r ts -> parses parse_predicate (print_expr 3 l ++ X) r ts.
Proof.
  intros Hb Hl H. destruct (base_head_of l X Hb Hl) as (t & tl & Ht & Hh). rewrite Ht in *. unfold Parser.parse_predicate. apply p_peek. cbn [hd].
  rewrite (base_head_kw t "EXISTS") by done. apply p_at_subquery_no; [cbn [hd]; by apply base_head_sym|].
  apply p_no; [cbn [hd]; by apply base_head_sym|]. exact H.
Qed.

Lemma p_exists_body q ts : wf_select q = true -> (length (print_select q) < m)%nat ->
  parses (parse_exists_body dbg_token self) (paren (print_select q) ++ ts) q ts.
Proof.
  intros Hq Hm. rewrite paren_app. unfold parse_exists_body. eapply p_bind; [apply p_expect_sym|]. apply p_peek.
  assert (is_kw "SELECT" (hd TEof (print_select q ++ TSym RP :: ts)) = true) as -> by by destruct (select_head q) as [tl ->].
  eapply p_bind; [apply Hself; [done..|by apply follows_here]|]. eapply p_bind; [apply p_expect_sym|]. apply p_ret.
Qed.

(** Everything but AND, OR, NOT and NOT EXISTS. *)
Definition is_atom (e : Expr) : bool := match e with EAnd _ _ | EOr _ _ | ENot _ | EExists _ true => false | _ => true end.

Lemma p_atom e ts : is_atom e = true -> wf_expr e = true -> (length (print_expr 3 e) <= m)%nat -> follows (expr_ends 3) ts ->
  parses parse_predicate (print_expr 3 e ++ ts) e ts.
Proof.
  intros Ha Hw Hm Hf. pose proof (expr_operand 3 ts ltac:(lia) Hf) as Hf'.
  destruct e as [n|d|l op r|a b|a b|e|l vs neg|l lo hi neg|l pat neg|l q neg|q|q neg]; try done; cbn [Print.wf_expr Print.print_expr] in Hw, Hm |- *.
  - change (name_toks n) with (print_expr 3 (EColumn n)). apply p_predicate_base; [done..|].
    unfold Parser.parse_cmp_tail. eapply p_bind; [by apply p_operand|]. eapply p_bind; [by apply (p_no_cmp_op (expr_ends 3))|]. repeat pstep.
  - change [lit_tok d] with (print_expr 3 (ELiteral d)). apply p_predicate_base; [done..|].
    unfold Parser.parse_cmp_tail. eapply p_bind; [by apply p_operand|]. eapply p_bind; [by apply (p_no_cmp_op (expr_ends 3))|]. repeat pstep.
  - apply andb_true_iff in Hw as [[Hs Hl]%andb_true_iff Hr]. rewrite length_app in Hm. cbn [length] in Hm. rewrite <- app_assoc. cbn [app].
    destruct (is_base l) eqn:Hb; [apply p_predicate_base; [done..|]; apply p_cmp_tail_op; (done || lia)|].
    destruct l; try done. cbn [Print.wf_expr Print.print_expr] in *. rewrite paren_length in Hm. rewrite paren_app. unfold Parser.parse_predicate. apply p_peek.
    cbn [hd]. change (is_kw "EXISTS" (TSym LP)) with false. cbv iota. apply p_at_subquery_yes. apply p_subquery; [done|lia|].
    eapply p_bind; [apply p_cmp_op|]. eapply p_bind; [apply p_operand; [by destruct r|done|lia|done]|].
    unfold parses, lift. by destruct r.
  - apply andb_true_iff in Hw as [[[Hb Hl]%andb_true_iff Hne]%andb_true_iff Hvs]. rewrite length_app in Hm. rewrite <- app_assoc.
    apply p_predicate_base; [done..|]. assert (Hn : vs <> []) by by destruct vs. unfold in_toks.
    destruct neg; (eapply p_cmp_tail_rest; [done|done|lia|reflexivity|reflexivity|]; cbn [opt_kw app]; repeat pstep; by apply p_in_tail_list).
  - apply andb_true_iff in Hw as [[[Hb Hl]%andb_true_iff Hlo]%andb_true_iff Hhi]. rewrite length_app in Hm. rewrite <- app_assoc.
    apply p_predicate_base; [done..|].
    destruct neg; (eapply p_cmp_tail_rest; [done|done|lia|reflexivity|reflexivity|]; cbn [opt_kw app]; repeat pstep;
      eapply p_bind; [by apply p_between_bounds|apply p_ret]).
  - apply andb_true_iff in Hw as [[Hb Hl]%andb_true_iff Hp]. rewrite length_app in Hm. rewrite <- app_assoc.
    apply p_predicate_base; [done..|].
    destruct neg; (eapply p_cmp_tail_rest; [done|done|lia|reflexivity|reflexivity|]; cbn [opt_kw app]; repeat pstep; reflexivity).
  - apply andb_true_iff in Hw as [[Hb Hl]%andb_true_iff Hq]. rewrite length_app in Hm. rewrite <- app_assoc.
    assert (Hms : (length (print_select q) < m)%nat) by (unfold in_toks in Hm; rewrite length_app in Hm; cbn [length] in Hm; rewrite paren_length in Hm; lia).
    apply p_predicate_base; [done..|]. unfold in_toks.
    destruct neg; (eapply p_cmp_tail_rest; [done|done|lia|reflexivity|reflexivity|]; cbn [opt_kw app]; repeat pstep; by apply p_in_tail_sub).
  - rewrite paren_length in Hm. rewrite paren_app. unfold Parser.parse_predicate. apply p_peek.
    cbn [hd]. change (is_kw "EXISTS" (TSym LP)) with false. cbv iota. apply p_at_subquery_yes. apply p_subquery; [done|lia|].
    eapply p_bind; [by apply (p_no_cmp_op (expr_ends 3))|]. apply p_ret.
  - destruct neg; [done|]. cbn [andb wrap opt_kw app length] in *. rewrite paren_length in Hm. unfold Parser.parse_predicate. repeat pstep.
    change (is_kw "EXISTS" (kwt "EXISTS")) with true. cbv iota. repeat pstep. eapply p_bind; [apply p_exists_body; [done|lia]|]. apply p_ret.
Qed.

(** * Precedence *)

(** The parser of the level [p]. *)
Definition parse_level (p : Z) : PM Expr :=
  if p =? 0 then parse_or else if p =? 1 then parse_and else if p =? 2 then parse_not else parse_predicate.

(** The loop body of [chain]. *)
Abbreviation more k join p := (fun left : Expr => eats eat_kw k then right ← p; mret (inl (join left right)) else mret (inr left)).

Lemma p_chain_once k join (p : PM Expr) ts e rest F : parses p ts e rest -> follows F rest -> forallb (fun t => negb (is_kw k t)) F = true ->
  parses (chain k join p) ts e rest.
Proof. intros Hp Hf HF. unfold chain. eapply p_bind; [exact Hp|]. apply loop_stop. apply p_no; [by eapply follows_false|apply p_ret]. Qed.

(** What a tighter level reads, the looser ones read. *)
Lemma p_loosen e ts rest p : 0 <= p <= 2 -> parses parse_not ts e rest -> follows (expr_ends p) rest -> parses (parse_level p) ts e rest.
Proof.
  intros Hp H Hf. assert (p = 0 \/ p = 1 \/ p = 2) as [->|[->| ->]] by lia; unfold parse_level; cbn [Z.eqb Pos.eqb].
  - apply (p_chain_once _ _ _ _ _ _ (expr_ends 0)); [|done..]. by apply (p_chain_once _ _ _ _ _ _ (expr_ends 0)).
  - by apply (p_chain_once _ _ _ _ _ _ (expr_ends 1)).
  - exact H.
Qed.

Lemma p_not_predicate ts e rest : is_kw "NOT" (hd TEof ts) = false -> parses parse_predicate ts e rest -> parses parse_not ts e rest.
Proof. intros Hn H. unfold Parser.parse_not. by apply p_no. Qed.

Lemma p_level_predicate ts e rest p : 0 <= p <= 3 -> is_kw "NOT" (hd TEof ts) = false -> parses parse_predicate ts e rest ->
  follows (expr_ends p) rest -> parses (parse_level p) ts e rest.
Proof.
  intros Hp Hn H Hf. destruct (Z.eq_dec p 3) as [->|]; [exact H|]. apply p_loosen; [lia| |done]. by apply p_not_predicate.
Qed.

(** An expression does not start with SELECT; an atom not with NOT either. *)
Lemma atom_not e ts : is_atom e = true -> wf_expr e = true -> is_kw "NOT" (hd TEof (print_expr 3 e ++ ts)) = false.
Proof.
  intros Ha Hw. destruct (is_base e) eqn:Hb.
  - destruct (base_head_of e ts Hb Hw) as (t & tl & -> & Hh). cbn [hd]. by apply base_head_kw.
  - assert (Hbase : forall l X, is_base l = true -> wf_expr l = true -> is_kw "NOT" (hd TEof (print_expr 3 l ++ X)) = false).
    { intros l X Hl Hwl. destruct (base_head_of l X Hl Hwl) as (t & tl & -> & Hh). cbn [hd]. by apply base_head_kw. }
    destruct e as [n|d|l op r|a b|a b|e|l vs neg|l lo hi neg|l pat neg|l q neg|q|q neg]; try done; cbn [Print.wf_expr Print.print_expr] in *.
    + apply andb_true_iff in Hw as [[Hs Hl]%andb_true_iff Hr]. rewrite <- app_assoc.
      destruct (is_base l) eqn:Hbl; [by apply Hbase|]. by destruct l.
    + apply andb_true_iff in Hw as [[[H1 H2]%andb_true_iff _]%andb_true_iff _]. rewrite <- app_assoc. by apply Hbase.
    + apply andb_true_iff in Hw as [[[H1 H2]%andb_true_iff _]%andb_true_iff _]. rewrite <- app_assoc. by apply Hbase.
    + apply andb_true_iff in Hw as [[H1 H2]%andb_true_iff _]. rewrite <- app_assoc. by apply Hbase.
    + apply andb_true_iff in Hw as [[H1 H2]%andb_true_iff _]. rewrite <- app_assoc. by apply Hbase.
    + by destruct neg.
Qed.

(** Whatever an expression starts with, it is there and is not SELECT. *)
Lemma expr_head e p ts : wf_expr e = true -> exists t tl, print_expr p e ++ ts = t :: tl /\ is_kw "SELECT" t = false.
Proof.
  revert p ts. induction e as [n|d|l IHl op r IHr|a IHa b IHb|a IHa b IHb|e IHe|l IHl vs neg|l IHl lo hi neg|l IHl pat neg|l IHl q neg|q|q neg]; intros p ts Hw;
    cbn [Print.wf_expr Print.print_expr] in *.
  - destruct (name_head n ts Hw) as (a & tl & -> & Ha). eexists _, _. split; [done|]. by apply word_kw.
  - eexists _, _. split; [done|]. by apply base_head_kw; [apply lit_head|..].
  - apply andb_true_iff in Hw as [[_ Hl]%andb_true_iff _]. rewrite <- app_assoc. by apply IHl.
  - apply andb_true_iff in Hw as [Ha _]. unfold wrap. destruct (1 <? p); [rewrite paren_app; by eexists _, _|]. rewrite <- app_assoc. by apply IHa.
  - apply andb_true_iff in Hw as [Ha _]. unfold wrap. destruct (0 <? p); [rewrite paren_app; by eexists _, _|]. rewrite <- app_assoc. by apply IHa.
  - unfold wrap. destruct (2 <? p); [rewrite paren_app|]; by eexists _, _.
  - apply andb_true_iff in Hw as [[[_ Hl]%andb_true_iff _]%andb_true_iff _]. rewrite <- app_assoc. by apply IHl.
  - apply andb_true_iff in Hw as [[[_ Hl]%andb_true_iff _]%andb_true_iff _]. rewrite <- app_assoc. by apply IHl.
  - apply andb_true_iff in Hw as [[_ Hl]%andb_true_iff _]. rewrite <- app_assoc. by apply IHl.
  - apply andb_true_iff in Hw as [[_ Hl]%andb_true_iff _]. rewrite <- app_assoc. by apply IHl.
  - rewrite paren_app. by eexists _, _.
  - unfold wrap. destruct neg; [destruct (2 <? p)|]; cbn; by eexists _, _.
Qed.

(** An expression in parentheses. *)
Lemma p_paren e ts : wf_expr e = true -> (length (print_expr 0 e) < m)%nat -> parses parse_predicate (paren (print_expr 0 e) ++ ts) e ts.
Proof.
  intros Hw Hm. rewrite paren_app. destruct (expr_head e 0 (TSym RP :: ts) Hw) as (t & tl & Ht & Hs).
  unfold Parser.parse_predicate. apply p_peek. cbn [hd]. change (is_kw "EXISTS" (TSym LP)) with false. cbv iota.
  rewrite Ht. apply p_at_subquery_lp; [done|]. rewrite <- Ht. apply p_yes; [done|].
  eapply p_bind; [apply Hself; [done..|by apply follows_here]|]. eapply p_bind; [apply p_expect_sym|]. apply p_ret.
Qed.

Lemma p_paren_level e ts p : 0 <= p <= 3 -> wf_expr e = true -> (length (print_expr 0 e) < m)%nat -> follows (expr_ends p) ts ->
  parses (parse_level p) (paren (print_expr 0 e) ++ ts) e ts.
Proof. intros Hp Hw Hm Hf. apply p_level_predicate; [done| |by apply p_paren|done]. rewrite paren_app. done. Qed.

(** A prefix [e] of a chain takes the loop to the state [e]. *)
Definition reads_level (e : Expr) : Prop := forall p ts, 0 <= p <= 3 -> (length (print_expr p e) <= m)%nat -> follows (expr_ends p) ts ->
  parses (parse_level p) (print_expr p e ++ ts) e ts.
Definition chains_and (e : Expr) : Prop := forall ts x, (length (print_expr 1 e) <= m)%nat -> follows (expr_ends 2) ts ->
  loop (more "AND" EAnd parse_not) e ts = Ret x -> parse_and (print_expr 1 e ++ ts) = Ret x.
Definition chains_or (e : Expr) : Prop := forall ts x, (length (print_expr 0 e) <= m)%nat -> follows (expr_ends 1) ts ->
  loop (more "OR" EOr parse_and) e ts = Ret x -> parse_or (print_expr 0 e ++ ts) = Ret x.

Lemma chain_start k join (p : PM Expr) ts e rest x : parses p ts e rest -> loop (more k join p) e rest = Ret x -> chain k join p ts = Ret x.
Proof. intros Hp Hl. unfold chain, mbind, sm_bind. by rewrite Hp. Qed.

Lemma chain_more k join (p : PM Expr) left right ts rest x : is_kw k (kwt k) = true -> parses p ts right rest -> (length rest <= length ts)%nat ->
  loop (more k join p) (join left right) rest = Ret x -> loop (more k join p) left (kwt k :: ts) = Ret x.
Proof.
  intros Hk Hp Hl H. eapply (loop_more _ _ (join left right)); [|cbn [length]; apply Nat.lt_succ_r, Hl|exact H].
  apply p_yes; [done|]. eapply p_bind; [exact Hp|apply p_ret].
Qed.

Lemma and_not_and e : match e with EAnd _ _ => False | _ => True end -> print_expr 1 e = print_expr 2 e.
Proof. by destruct e as [| | | | | | | | | | |q []]. Qed.

Lemma or_not_or e : match e with EOr _ _ => False | _ => True end -> print_expr 0 e = print_expr 1 e.
Proof. by destruct e as [| | | | | | | | | | |q []]. Qed.

Lemma chains_and_of e : match e with EAnd _ _ => False | _ => True end -> reads_level e -> chains_and e.
Proof.
  intros He H ts x Hm Hf Hl. rewrite and_not_and in * by done. eapply chain_start; [|exact Hl]. by apply (H 2).
Qed.

Lemma chains_or_of e : match e with EOr _ _ => False | _ => True end -> reads_level e -> chains_or e.
Proof.
  intros He H ts x Hm Hf Hl. rewrite or_not_or in * by done. eapply chain_start; [|exact Hl]. by apply (H 1).
Qed.

Lemma reads_atom e : is_atom e = true -> wf_expr e = true -> reads_level e.
Proof.
  intros Ha Hw p ts Hp Hm Hf. assert (E : print_expr p e = print_expr 3 e) by by destruct e as [| | | | | | | | | | |q []].
  rewrite E in *. apply p_level_predicate; [done|by apply atom_not| |done]. apply p_atom; [done..|].
  assert (p = 0 \/ p = 1 \/ p = 2 \/ p = 3) as [->|[->|[->| ->]]] by lia; by eapply follows_sub.
Qed.

Lemma p_not_exists q ts : wf_select q = true -> (length (print_select q) < m)%nat ->
  parses parse_not (kwt "NOT" :: kwt "EXISTS" :: paren (print_select q) ++ ts) (EExists q true) ts.
Proof.
  intros Hq Hm. unfold Parser.parse_not. repeat pstep. change (is_kw "EXISTS" (kwt "EXISTS")) with true. cbv iota. repeat pstep.
  eapply p_bind; [by apply p_exists_body|]. apply p_ret.
Qed.

Lemma reads_not_exists q : wf_select q = true -> reads_level (EExists q true).
Proof.
  intros Hq p ts Hp Hm Hf. change (print_expr p (EExists q true)) with (wrap (2 <? p) (print_expr 0 (EExists q true))) in *.
  destruct (Z.ltb_spec 2 p) as [H3|H3]; cbn [wrap] in *.
  - apply p_paren_level; [done..| |done]. rewrite paren_length in Hm. lia.
  - change (print_expr 0 (EExists q true)) with (kwt "NOT" :: kwt "EXISTS" :: paren (print_select q)) in *. cbn [app length] in *. rewrite paren_length in Hm. apply p_loosen; [lia| |done]. apply p_not_exists; [done|lia].
Qed.

(** Only EXISTS starts with EXISTS. *)
Lemma exists_head e ts : wf_expr e = true -> is_exists e = false -> forall p, 2 <= p -> is_kw "EXISTS" (hd TEof (print_expr p e ++ ts)) = false.
Proof.
  assert (Hbase : forall l X p, is_base l = true -> wf_expr l = true -> is_kw "EXISTS" (hd TEof (print_expr p l ++ X)) = false).
  { intros l X p Hl Hwl. destruct (base_head_of l X Hl Hwl) as (t & tl & Ht & Hh). replace (print_expr p l) with (print_expr 3 l) by by destruct l.
    rewrite Ht. cbn [hd]. by apply base_head_kw. }
  intros Hw He p Hp. destruct e as [n|d|l op r|a b|a b|e|l vs neg|l lo hi neg|l pat neg|l q neg|q|q neg];
    try (by apply Hbase); cbn [Print.wf_expr Print.print_expr] in *; repeat rewrite <- app_assoc.
  - apply andb_true_iff in Hw as [[Hs Hl]%andb_true_iff _]. destruct (is_base l) eqn:Hbl; [by apply Hbase|]. by destruct l.
  - unfold wrap. by rewrite (proj2 (Z.ltb_lt 1 p)) by lia.
  - unfold wrap. by rewrite (proj2 (Z.ltb_lt 0 p)) by lia.
  - unfold wrap. by destruct (2 <? p).
  - apply andb_true_iff in Hw as [[[H1 H2]%andb_true_iff _]%andb_true_iff _]. by apply Hbase.
  - apply andb_true_iff in Hw as [[[H1 H2]%andb_true_iff _]%andb_true_iff _]. by apply Hbase.
  - apply andb_true_iff in Hw as [[H1 H2]%andb_true_iff _]. by apply Hbase.
  - apply andb_true_iff in Hw as [[H1 H2]%andb_true_iff _]. by apply Hbase.
  - done.
  - destruct neg; [|done]. unfold wrap. by destruct (2 <? p).
Qed.

Lemma reads_not e : wf_expr e = true -> reads_level (ENot e).
Proof.
  intros Hw p ts Hp Hm Hf. change (print_expr p (ENot e)) with (wrap (2 <? p) (print_expr 0 (ENot e))) in *.
  destruct (Z.ltb_spec 2 p) as [H3|H3]; cbn [wrap] in *; [apply p_paren_level; [done..| |done]; rewrite paren_length in Hm; lia|].
  change (print_expr 0 (ENot e)) with (kwt "NOT" :: wrap (is_exists e) (print_expr 2 e)) in *. cbn [app length] in *. apply p_loosen; [lia| |done]. unfold Parser.parse_not. repeat pstep.
  assert (Hf2 : follows (expr_ends 2) ts) by (assert (p = 0 \/ p = 1 \/ p = 2) as [->|[->| ->]] by lia; by eapply follows_sub).
  destruct (is_exists e) eqn:He; cbn [wrap] in *.
  - rewrite paren_app. cbn [hd]. change (is_kw "EXISTS" (TSym LP)) with false. cbv iota. rewrite <- paren_app.
    destruct e as [| | | | | | | | | | |q []]; try done. change (print_expr 2 (EExists q false)) with (print_expr 0 (EExists q false)) in *.
    eapply p_bind; [apply Hself; [done|lia|done]|apply p_ret].
  - assert (Hh : is_kw "EXISTS" (hd TEof (print_expr 2 e ++ ts)) = false).
    { apply exists_head; [done..|lia]. }
    rewrite Hh. eapply p_bind; [apply Hself; [done|lia|done]|apply p_ret].
Qed.

Lemma ends_up p p' ts : 0 <= p <= p' -> p' <= 3 -> follows (expr_ends p) ts -> follows (expr_ends p') ts.
Proof.
  intros Hp Hp' H. assert (p = 0 \/ p = 1 \/ p = 2 \/ p = 3) as [->|[->|[->| ->]]] by lia;
    assert (p' = 0 \/ p' = 1 \/ p' = 2 \/ p' = 3) as [->|[->|[->| ->]]] by lia; try lia; by eapply follows_sub.
Qed.

Lemma chains_and_and a b : wf_expr a = true -> wf_expr b = true -> chains_and a -> reads_level b -> chains_and (EAnd a b).
Proof.
  intros Ha Hb IHa IHb ts x Hm Hf Hl. change (print_expr 1 (EAnd a b)) with (print_expr 1 a ++ kwt "AND" :: print_expr 2 b) in *.
  rewrite length_app in Hm. cbn [length] in Hm. rewrite <- app_assoc. cbn [app]. apply IHa; [lia|by apply follows_here|].
  eapply chain_more; [done|apply (IHb 2); [done|lia|done]| |exact Hl]. rewrite length_app. lia.
Qed.

Lemma chains_or_or a b : wf_expr a = true -> wf_expr b = true -> chains_or a -> reads_level b -> chains_or (EOr a b).
Proof.
  intros Ha Hb IHa IHb ts x Hm Hf Hl. change (print_expr 0 (EOr a b)) with (print_expr 0 a ++ kwt "OR" :: print_expr 1 b) in *.
  rewrite length_app in Hm. cbn [length] in Hm. rewrite <- app_assoc. cbn [app]. apply IHa; [lia|by apply follows_here|].
  eapply chain_more; [done|apply (IHb 1); [done|lia|done]| |exact Hl]. rewrite length_app. lia.
Qed.

Lemma reads_and a b : wf_expr (EAnd a b) = true -> chains_and (EAnd a b) -> reads_level (EAnd a b).
Proof.
  intros Hw H p ts Hp Hm Hf. change (print_expr p (EAnd a b)) with (wrap (1 <? p) (print_expr 0 (EAnd a b))) in *.
  destruct (Z.ltb_spec 1 p) as [H3|H3]; cbn [wrap] in *; [apply p_paren_level; [done..| |done]; rewrite paren_length in Hm; lia|].
  assert (H1 : parses parse_and (print_expr 1 (EAnd a b) ++ ts) (EAnd a b) ts).
  { apply H; [done|apply (ends_up p 2); [lia..|done]|]. apply loop_stop.
    apply p_no; [|apply p_ret]. eapply follows_false; [apply (ends_up p 1); [lia..|exact Hf]|reflexivity]. }
  assert (p = 0 \/ p = 1) as [->| ->] by lia; unfold parse_level; cbn [Z.eqb Pos.eqb]; [|exact H1].
  by apply (p_chain_once _ _ _ _ _ _ (expr_ends 0)).
Qed.

Lemma reads_or a b : wf_expr (EOr a b) = true -> chains_or (EOr a b) -> reads_level (EOr a b).
Proof.
  intros Hw H p ts Hp Hm Hf. change (print_expr p (EOr a b)) with (wrap (0 <? p) (print_expr 0 (EOr a b))) in *.
  destruct (Z.ltb_spec 0 p) as [H3|H3]; cbn [wrap] in *; [apply p_paren_level; [done..| |done]; rewrite paren_length in Hm; lia|].
  assert (p = 0) as -> by lia. unfold parse_level. cbn [Z.eqb]. apply H; [done|apply (ends_up 0 1); [lia..|done]|]. apply loop_stop.
  apply p_no; [|apply p_ret]. by eapply follows_false.
Qed.

Lemma reads_all e : wf_expr e = true -> reads_level e /\ chains_and e /\ chains_or e.
Proof.
  assert (Hplain : forall e, match e with EAnd _ _ | EOr _ _ => False | _ => True end -> reads_level e -> reads_level e /\ chains_and e /\ chains_or e).
  { intros e' He H. split_and!; [done|apply chains_and_of|apply chains_or_of]; try done; by destruct e'. }
  induction e as [n|d|l IHl op r IHr|a IHa b IHb|a IHa b IHb|e IHe|l IHl vs neg|l IHl lo hi neg|l IHl pat neg|l IHl q neg|q|q neg]; intros Hw;
    try (apply Hplain; [done|by apply reads_atom]).
  - pose proof Hw as Hw'. cbn in Hw. apply andb_true_iff in Hw as [Ha Hb]. destruct (IHa Ha) as (R1 & A1 & O1), (IHb Hb) as (R2 & _ & _).
    pose proof (chains_and_and a b Ha Hb A1 R2) as H. pose proof (reads_and a b Hw' H) as HR. split_and!; [done..|]. by apply chains_or_of.
  - pose proof Hw as Hw'. cbn in Hw. apply andb_true_iff in Hw as [Ha Hb]. destruct (IHa Ha) as (R1 & A1 & O1), (IHb Hb) as (R2 & _ & _).
    pose proof (chains_or_or a b Ha Hb O1 R2) as H. pose proof (reads_or a b Hw' H) as HR. split_and!; [done| |done]. by apply chains_and_of.
  - apply Hplain; [done|by apply reads_not].
  - destruct neg; (apply Hplain; [done|]); [by apply reads_not_exists|by apply reads_atom].
Qed.

Lemma p_expr e ts : wf_expr e = true -> (length (print_expr 0 e) <= m)%nat -> follows (expr_ends 0) ts ->
  parses (parse_expr f64_show dbg_token dbg_datum dbg_expr self) (print_expr 0 e ++ ts) e ts.
Proof. intros Hw Hm Hf. destruct (reads_all e Hw) as (H & _ & _). by apply (H 0). Qed.

(** * Joins *)

Abbreviation parse_join_cmp := (parse_join_cmp f64_show dbg_token dbg_datum dbg_expr self).

Lemma p_join_atom e ts : join_atom e = true -> wf_expr e = true -> (length (print_expr 2 e) <= m)%nat -> follows (expr_ends 2) ts ->
  parses parse_join_cmp (print_expr 2 e ++ ts) e ts.
Proof.
  intros Ha Hw Hm Hf. pose proof (expr_operand 2 ts ltac:(lia) Hf) as Hf'. unfold Parser.parse_join_cmp.
  assert (Hop : is_operand e = true -> parses parse_join_cmp (print_expr 2 e ++ ts) e ts).
  { intros Ho. replace (print_expr 2 e) with (print_expr 3 e) in * by by destruct e. unfold Parser.parse_join_cmp.
    eapply p_bind; [by apply p_operand|]. eapply p_bind; [by apply (p_no_cmp_op (expr_ends 2))|]. apply p_ret. }
  destruct e as [n|d|l op r| | | | | | | |q|]; try done; try (by apply Hop).
  cbn [Print.wf_expr Print.print_expr] in *. apply andb_true_iff in Hw as [[_ Hl]%andb_true_iff Hr]. rewrite length_app in Hm. cbn [length] in Hm.
  rewrite <- app_assoc. cbn [app]. destruct l as [n| | | | | | | | | | |]; try done.
  eapply p_bind; [apply p_operand; [done..|lia|destruct op; by apply follows_here]|]. eapply p_bind; [apply p_cmp_op|].
  eapply p_bind; [apply p_operand; [by destruct r|done|lia|done]|]. unfold parses, lift. by destruct r.
Qed.

Lemma p_join_cond e ts : join_shape e = true -> wf_expr e = true -> (length (print_expr 1 e) <= m)%nat -> follows (expr_ends 1) ts ->
  parses (parse_join_cond f64_show dbg_token dbg_datum dbg_expr self) (print_expr 1 e ++ ts) e ts.
Proof.
  intros Hs Hw Hm Hf.
  enough (Hc : forall ts x, follows (expr_ends 2) ts -> loop (more "AND" EAnd parse_join_cmp) e ts = Ret x ->
    parse_join_cond f64_show dbg_token dbg_datum dbg_expr self (print_expr 1 e ++ ts) = Ret x).
  { apply Hc; [apply (ends_up 1 2); [lia..|done]|]. apply loop_stop. apply p_no; [by eapply follows_false|apply p_ret]. }
  clear ts Hf. assert (Hat : forall e, join_atom e = true -> wf_expr e = true -> (length (print_expr 1 e) <= m)%nat -> forall ts x,
    follows (expr_ends 2) ts -> loop (more "AND" EAnd parse_join_cmp) e ts = Ret x ->
    parse_join_cond f64_show dbg_token dbg_datum dbg_expr self (print_expr 1 e ++ ts) = Ret x).
  { intros e' Ha' Hw' Hm' ts x Hf Hl. rewrite and_not_and in * by by destruct e'. eapply chain_start; [by apply p_join_atom|exact Hl]. }
  induction e as [n|d|l IHl op r IHr|a IHa b IHb|a IHa b IHb|e IHe|l IHl vs neg|l IHl lo hi neg|l IHl pat neg|l IHl q neg|q|q neg];
    intros ts x Hf Hl; try (by apply Hat).
  cbn in Hs, Hw. apply andb_true_iff in Hs as [Hs1 Hs2]. apply andb_true_iff in Hw as [Hw1 Hw2].
  change (print_expr 1 (EAnd a b)) with (print_expr 1 a ++ kwt "AND" :: print_expr 2 b) in *.
  rewrite length_app in Hm. cbn [length] in Hm. rewrite <- app_assoc. cbn [app]. apply IHa; [done..|lia|by apply follows_here|].
  eapply chain_more; [done|apply p_join_atom; [done..|lia|done]| |exact Hl]. rewrite length_app. lia.
Qed.

(** * SELECT *)

Abbreviation print_item := (print_item f64_lit).
Abbreviation print_table_ref := (print_table_ref f64_lit).
Abbreviation print_join := (print_join f64_lit).

(** The test in front of the goal is decided. *)
Ltac known := cbn beta iota;
  lazymatch goal with
  | |- parses (if ?b then _ else _) _ _ _ =>
    first [ let H := fresh in assert (H : b = true) by look; rewrite H; clear H
          | let H := fresh in assert (H : b = false) by look; rewrite H; clear H ]; cbv iota
  end.

Lemma p_alias a ts : opt_word a = true -> follows (TSym COMMA :: item_ends) ts ->
  parses (opt_alias dbg_token) (alias_toks a ++ ts) a ts.
Proof. intros Ha Hf. unfold opt_alias. destruct a as [a|]; cbn [alias_toks app]; repeat pstep. by eapply p_bind; [apply p_expect_ident|]. Qed.

Lemma word_agg a : is_word a = true -> parse_agg_func (upper (TIdent a)) = None.
Proof.
  intros Ha. unfold parse_agg_func.
  assert (H : forall k, bool_decide (k ∈ reserved) = true -> bool_decide (upper (TIdent a) = Some (str k)) = false) by (intros; by apply word_kw).
  by rewrite !H.
Qed.

Abbreviation parse_item := (parse_item f64_show dbg_token dbg_datum dbg_expr self).

Lemma p_item i ts : wf_item f64_lit i = true -> (length (print_item i) <= m)%nat -> follows (TSym COMMA :: item_ends) ts ->
  parses parse_item (print_item i ++ ts) i ts.
Proof.
  intros Hw Hm Hf. assert (Hop : follows operand_ends ts) by by eapply follows_sub.
  unfold Parser.parse_item. apply p_peek, p_peek1.
  destruct i as [|n| |fn c|q alias|d|n alias]; cbn [Print.wf_item Print.print_item app] in *.
  - repeat first [known|pstep].
  - destruct (name_cases n Hw) as (a & Ha & Hn). assert (Ht1 : is_sym LP (hd TEof (tail (name_toks n ++ ts))) = false).
    { destruct Hn as [[_ ->]|(b & _ & _ & ->)]; cbn [app tail]; look. }
    assert (Hhd : hd TEof (name_toks n ++ ts) = TIdent a) by by destruct Hn as [[_ ->]|(b & _ & _ & ->)].
    rewrite Hhd. do 2 known. known. rewrite word_agg by done. cbn [is_ident andb]. rewrite Ht1. cbv iota.
    cbn [is_number is_text orb andb]. known. eapply p_bind; [by apply p_col_ref|apply p_ret].
  - cbn [hd tail]. do 3 known. repeat pstep. do 2 (eapply p_bind; [apply p_expect_sym|]). eapply p_bind; [apply p_expect_sym|]. apply p_ret.
  - cbn [hd tail]. do 2 known. assert (is_kw "COUNT" (kwt (agg_name fn)) = false) as -> by by destruct fn.
    assert (parse_agg_func (upper (kwt (agg_name fn))) = Some fn) as -> by by destruct fn.
    cbv iota. repeat pstep. rewrite paren_app. eapply p_bind; [apply p_expect_sym|]. eapply p_bind; [apply p_col_ref; [done|by apply follows_here]|].
    eapply p_bind; [apply p_expect_sym|]. apply p_ret.
  - apply andb_true_iff in Hw as [Hq Ha]. rewrite length_app, paren_length in Hm. rewrite <- app_assoc, paren_app. cbn [hd tail].
    known. assert (is_kw "SELECT" (hd TEof (print_select q ++ TSym RP :: alias_toks alias ++ ts)) = true) as ->
      by by destruct (select_head q) as [tl ->].
    known. apply p_subquery; [done|lia|]. eapply p_bind; [by apply p_alias|]. apply p_ret.
  - assert (Hd : Print.wf_lit f64_lit d = true) by by destruct d.
    assert (Hlit : parses (literal_item f64_show dbg_token dbg_datum dbg_expr self) (lit_tok d :: ts) (ILiteral d) ts).
    { unfold literal_item, literal_operand_for. apply p_assoc. eapply p_bind; [by apply (p_operand (ELiteral d))|]. repeat pstep. }
    destruct d; try done; cbn [hd tail Print.lit_tok]; repeat known; exact Hlit.
  - apply andb_true_iff in Hw as [Hn Ha]. cbn [hd tail]. do 3 known. rewrite word_agg by done. known.
    repeat (eapply p_bind; [first [apply p_expect_ident|apply p_expect_sym]|]). eapply p_bind; [by apply p_alias|].
    eapply p_bind; [|apply p_ret]. apply loop_stop. apply p_no; [look|apply p_ret].
Qed.

Definition source_ends : list Token := sel_ends ++ clauses ++ [kwt "ON"].

Lemma p_table_ref r ts : match r with REmpty => false | _ => true end = true -> wf_table_ref f64_lit r = true ->
  (length (print_table_ref r) <= m)%nat -> follows source_ends ts ->
  parses (parse_table_ref dbg_token self) (print_table_ref r ++ ts) r ts.
Proof.
  intros Hne Hw Hm Hf. unfold parse_table_ref. apply p_peek. destruct r as [n|q alias|]; [| |done]; cbn [Print.wf_table_ref Print.print_table_ref] in *.
  - destruct (name_cases n Hw) as (a & Ha & [[-> ->]|(b & Hb & -> & ->)]); cbn [app hd]; known; (eapply p_bind; [apply p_expect_ident|]); repeat pstep.
    eapply p_bind; [apply p_expect_ident|]. repeat pstep.
  - apply andb_true_iff in Hw as [Hq Ha]. rewrite length_app, paren_length in Hm. rewrite <- app_assoc, paren_app. cbn [app hd]. known.
    unfold parse_derived. eapply p_bind; [apply p_expect_sym|]. apply p_peek.
    assert (is_kw "SELECT" (hd TEof (print_select q ++ TSym RP :: kwt "AS" :: TIdent alias :: ts)) = true) as ->
      by by destruct (select_head q) as [tl ->].
    eapply p_bind; [apply Hself; [done|lia|by apply follows_here]|]. eapply p_bind; [apply p_expect_sym|]. repeat pstep.
    eapply p_bind; [apply p_expect_ident|]. apply p_ret.
Qed.

Definition join_ends : list Token := sel_ends ++ (kwt <$> ["WHERE"; "GROUP"; "ORDER"; "LIMIT"]%string).

Lemma p_joins js ts : forallb (wf_join f64_lit) js = true -> (length (mjoin (print_join <$> js)) <= m)%nat -> follows join_ends ts ->
  parses (parse_joins f64_show dbg_token dbg_datum dbg_expr self) (mjoin (print_join <$> js) ++ ts) js ts.
Proof.
  intros Hw Hm Hf. unfold parse_joins.
  enough (H : forall acc, parses (loop (fun joins => kind ← join_kind dbg_token;
    match kind with
    | None => mret (inr joins)
    | Some kind => table ← parse_table_ref dbg_token self; _ ← expect_kw dbg_token "ON";
                   on ← parse_join_cond f64_show dbg_token dbg_datum dbg_expr self; mret (inl (joins ++ [mkJoinClause kind table on]))
    end) acc) (mjoin (print_join <$> js) ++ ts) (acc ++ js) ts) by apply (H []).
  induction js as [|[k r on] js IH]; intros acc.
  - rewrite app_nil_r. apply loop_stop. unfold join_kind. cbn [fmap list_fmap mjoin list_join app]. eapply (p_bind _ _ _ None); [repeat pstep|apply p_ret].
  - cbn [forallb Print.wf_join] in Hw. apply andb_true_iff in Hw as [[[[Hne Hr]%andb_true_iff Hs]%andb_true_iff Hon]%andb_true_iff Hw].
    change (mjoin (print_join <$> mkJoinClause k r on :: js)) with
      ((kind_toks k ++ print_table_ref r ++ kwt "ON" :: print_expr 1 on) ++ mjoin (print_join <$> js)) in *.
    set (tl := mjoin (print_join <$> js)) in *. rewrite !length_app in Hm. cbn [length] in Hm.
    assert (Htl : follows (sel_ends ++ clauses) (tl ++ ts)).
    { apply follows_app; [|by eapply follows_sub]. subst tl. destruct js as [|[k2 r2 on2] js]; [done|]. by destruct k2; apply member. }
    replace (acc ++ mkJoinClause k r on :: js) with ((acc ++ [mkJoinClause k r on]) ++ js) by by rewrite <- app_assoc.
    eapply loop_more with (a' := acc ++ [mkJoinClause k r on]) (ts' := tl ++ ts).
    + repeat rewrite <- app_assoc. cbn [app]. apply (p_bind _ _ _ (Some k) (print_table_ref r ++ kwt "ON" :: print_expr 1 on ++ tl ++ ts)).
      { unfold join_kind. destruct k; cbn [kind_toks app]; repeat pstep.
        eapply p_bind; [by apply p_expect_kw|]. apply p_ret. }
      eapply p_bind; [apply p_table_ref; [done..|lia|by apply follows_here]|]. eapply p_bind; [by apply p_expect_kw|].
      eapply p_bind; [apply p_join_cond; [done..|lia|by eapply follows_sub]|]. apply p_ret.
    + rewrite !length_app. cbn [length]. lia.
    + apply IH; [done|lia].
Qed.

Lemma p_where s ts : wf_where f64_lit s = true -> (length (where_toks f64_lit s) <= m)%nat ->
  follows (sel_ends ++ (kwt <$> ["GROUP"; "ORDER"; "LIMIT"]%string)) ts ->
  parses (parse_where f64_show dbg_token dbg_datum dbg_expr self) (where_toks f64_lit s ++ ts) s ts.
Proof.
  intros Hw Hm Hf. unfold parse_where. destruct s as [e|]; cbn [where_toks app wf_where length] in *; repeat pstep.
  eapply p_bind; [apply p_expr; [done|lia|by eapply follows_sub]|]. apply p_ret.
Qed.

Lemma p_order_key k ts : wf_name k.1 = true -> follows (TSym COMMA :: sel_ends ++ [kwt "LIMIT"]) ts ->
  parses (order_key dbg_token) (order_toks k ++ ts) k ts.
Proof.
  intros Hw Hf. unfold order_key, order_toks. destruct k as [n []]; cbn [fst snd opt_kw] in *; rewrite <- app_assoc; cbn [app].
  - eapply p_bind; [apply p_col_ref; [done|by apply follows_here]|]. repeat pstep.
  - eapply p_bind; [apply p_col_ref; [done|by eapply follows_sub]|]. repeat pstep.
Qed.

Lemma p_limit l ts : wf_limit l = true -> follows sel_ends ts -> parses (parse_limit dbg_token) (limit_toks l ++ ts) l ts.
Proof.
  intros Hw Hf. unfold parse_limit. destruct l as [v|]; cbn [limit_toks app wf_limit] in *; repeat pstep.
  apply andb_true_iff in Hw as [H1 H2]. bsimp. by rewrite parse_usize_show by lia.
Qed.

Lemma name_ne n : wf_name n = true -> name_toks n <> [].
Proof. by intros (a & _ & [[_ ->]|(b & _ & _ & ->)])%name_cases. Qed.

Lemma expr_ne e p : wf_expr e = true -> print_expr p e <> [].
Proof. intros H E. destruct (expr_head e p [] H) as (t & tl & Ht & _). rewrite E in Ht. done. Qed.

Lemma item_ne i : wf_item f64_lit i = true -> print_item i <> [].
Proof. destruct i; cbn; try done. by intros H%name_ne. Qed.

Lemma commas_le {A} (pr : A -> list Token) l x : x ∈ l -> (length (pr x) <= length (commas (pr <$> l)))%nat.
Proof.
  intros Hx. induction Hx as [x l|x y l Hx IH]; [destruct l; cbn; rewrite ?length_app; cbn; lia|].
  destruct l as [|z l]; [by apply elem_of_nil in Hx|]. change (commas (pr <$> y :: z :: l)) with (pr y ++ TSym COMMA :: commas (pr <$> z :: l)).
  rewrite length_app. cbn [length]. lia.
Qed.

(** A clause with a keyword pair and a list, or nothing. *)
Lemma p_clause {A} (k1 k2 : string) (p : PM A) (pr : A -> list Token) F l ts :
  is_kw k1 (kwt k1) = true -> is_kw k2 (kwt k2) = true ->
  (forall x rest, x ∈ l -> follows (TSym COMMA :: F) rest -> parses p (pr x ++ rest) x rest) ->
  (forall x, x ∈ l -> pr x <> []) -> bool_decide (TSym COMMA ∈ F) = false ->
  forallb (fun t => negb (is_kw k1 t)) F = true -> follows F ts ->
  parses (eats eat_kw k1 then (_ ← expect_kw dbg_token k2; comma_list p) else mret []) (clause [kwt k1; kwt k2] (pr <$> l) ++ ts) l ts.
Proof.
  intros Hk1 Hk2 Hp Hne Hc HF Hf. unfold clause. destruct l as [|x l].
  - cbn [fmap list_fmap app]. apply p_no; [by eapply follows_false|apply p_ret].
  - change (pr <$> x :: l) with (pr x :: (pr <$> l)). change (pr x :: (pr <$> l)) with (pr <$> x :: l). cbn [app].
    apply p_yes; [done|]. eapply p_bind; [by apply p_expect_kw|]. by apply (p_comma_list _ _ F).
Qed.

Lemma clause_head k l (F : list Token) : k ∈ F -> match clause [k; kwt "BY"] l with t :: _ => t ∈ F | [] => True end.
Proof. by destruct l. Qed.

Lemma p_select_stmt q ts : wf_select q = true -> (length (print_select q) <= m)%nat -> follows sel_ends ts ->
  parses (parse_select_stmt f64_show dbg_token dbg_datum dbg_expr self) (print_select q ++ ts) q ts.
Proof.
  destruct q as [items from joins sel ob lim gb]. intros Hw Hm Hf. cbn [Print.wf_select] in Hw.
  repeat match goal with H : _ && _ = true |- _ => apply andb_true_iff in H as [H ?] end.
  change (print_select (mkSelectStmt items from joins sel ob lim gb)) with (kwt "SELECT" :: commas (print_item <$> items) ++
    match from with REmpty => [] | _ => kwt "FROM" :: print_table_ref from end ++ mjoin (print_join <$> joins) ++ where_toks f64_lit sel ++
    clause [kwt "GROUP"; kwt "BY"] (name_toks <$> gb) ++ clause [kwt "ORDER"; kwt "BY"] (order_toks <$> ob) ++ limit_toks lim) in *.
  cbn [length] in Hm. rewrite !length_app in Hm. cbn [app]. repeat rewrite <- app_assoc.
  unfold Parser.parse_select_stmt. eapply p_bind; [by apply p_expect_kw|]. unfold parse_select_body.
  assert (F5 : follows (sel_ends ++ [kwt "LIMIT"]) (limit_toks lim ++ ts)) by (apply follows_app; [destruct lim; [by apply member|done]|by eapply follows_sub]).
  set (t5 := limit_toks lim ++ ts) in *.
  assert (F4 : follows (sel_ends ++ (kwt <$> ["ORDER"; "LIMIT"]%string)) (clause [kwt "ORDER"; kwt "BY"] (order_toks <$> ob) ++ t5))
    by (apply follows_app; [by apply clause_head, member|by eapply follows_sub]).
  set (t4 := clause _ _ ++ t5) in *.
  assert (F3 : follows (sel_ends ++ (kwt <$> ["GROUP"; "ORDER"; "LIMIT"]%string)) (clause [kwt "GROUP"; kwt "BY"] (name_toks <$> gb) ++ t4))
    by (apply follows_app; [by apply clause_head, member|by eapply follows_sub]).
  set (t3 := clause _ _ ++ t4) in *.
  assert (F2 : follows join_ends (where_toks f64_lit sel ++ t3)) by (apply follows_app; [destruct sel; [by apply member|done]|by eapply follows_sub]).
  set (t2 := where_toks _ _ ++ t3) in *.
  assert (F1 : follows (sel_ends ++ clauses) (mjoin (print_join <$> joins) ++ t2)).
  { apply follows_app; [|by eapply follows_sub]. destruct joins as [|[k2 r2 on2] js]; [done|]. by destruct k2; apply member. }
  set (t1 := mjoin _ ++ t2) in *.
  eapply p_bind; [apply (p_comma_list _ _ item_ends)|].
  - intros i rest Hi Hr. apply p_item; [|pose proof (commas_le print_item items i Hi); lia|done]. apply list_elem_of_In in Hi.
    match goal with H : forallb (Print.wf_item _) _ = true |- _ => by apply (proj1 (forallb_forall _ _) H) end.
  - intros i Hi. apply item_ne. apply list_elem_of_In in Hi.
    match goal with H : forallb (Print.wf_item _) _ = true |- _ => by apply (proj1 (forallb_forall _ _) H) end.
  - reflexivity.
  - by destruct items.
  - apply follows_app; [|by eapply follows_sub]. destruct from; [by apply member..|done].
  - apply (p_bind _ _ _ from t1).
    { destruct from as [n|q alias|]; cbn [app length] in Hm |- *; cycle 2; [repeat pstep|..].
      all: apply p_yes; [done|]; apply p_table_ref; [done..|lia|by eapply follows_sub]. }
    eapply p_bind; [apply p_joins; [done|lia|done]|]. eapply p_bind; [apply p_where; [done|lia|done]|].
    eapply p_bind; [apply (p_clause "GROUP" "BY" _ _ (sel_ends ++ (kwt <$> ["ORDER"; "LIMIT"]%string))); [done|done| | |done|done|done]|].
    + intros n rest Hn Hr. apply p_col_ref; [|by eapply follows_sub]. apply list_elem_of_In in Hn.
      match goal with H : forallb wf_name _ = true |- _ => by apply (proj1 (forallb_forall _ _) H) end.
    + intros n Hn. apply name_ne. apply list_elem_of_In in Hn.
      match goal with H : forallb wf_name _ = true |- _ => by apply (proj1 (forallb_forall _ _) H) end.
    + eapply p_bind; [apply (p_clause "ORDER" "BY" _ _ (sel_ends ++ [kwt "LIMIT"])); [done|done| | |done|done|done]|].
      * intros k rest Hk Hr. apply p_order_key; [|done]. apply list_elem_of_In in Hk.
        match goal with H : forallb (fun k => wf_name k.1) _ = true |- _ => by apply (proj1 (forallb_forall _ _) H k) end.
      * intros k Hk. unfold order_toks. assert (wf_name k.1 = true) as Hn%name_ne.
        { apply list_elem_of_In in Hk. match goal with H : forallb (fun k => wf_name k.1) _ = true |- _ => by apply (proj1 (forallb_forall _ _) H k) end. }
        destruct (name_toks k.1); done.
      * eapply p_bind; [by apply p_limit|]. apply p_ret.
Qed.

End recursive.

Lemma parsers_good f64_show f64_lit dbg_token dbg_datum dbg_expr m :
  good f64_lit m (parsers f64_show dbg_token dbg_datum dbg_expr m).
Proof.
  induction m as [|m IH]; [split; intros; lia|]. split; cbn [parsers r_expr r_not r_select].
  - intros e ts Hw Hm Hf. by apply (p_expr f64_show f64_lit _ _ _ _ m IH); [|lia|].
  - intros e ts Hw Hm Hf. destruct (reads_all f64_show f64_lit dbg_token dbg_datum dbg_expr _ m IH e Hw) as (H & _ & _).
    apply (H 2); [lia|lia|done].
  - intros e ts Hw Hm Hf. rewrite paren_length in Hm. apply (p_paren_level f64_show f64_lit dbg_token dbg_datum dbg_expr _ m IH e ts 2); (done || lia).
  - intros q ts Hw Hm Hf. by apply (p_select_stmt f64_show f64_lit _ _ _ _ m IH); [|lia|].
Qed.
