(* ===== verification/ParseStmtSpec.v ===== *)
(** Statements are read back as they are printed, and the round trip of whole
    texts. *)
From stdpp Require Import base list gmap strings.
From Stdlib Require Import ZArith Lia.
From S2P Require Import Prelude Machine Utf8 Types DateTime TableDef BTree Table Literal Lexer Expr Ast.
From S2P Require Import Parser ParseStmt Print PrintLex ParserSpec.

Section statements.
Context (f64_show f64_lit : Z -> bytes) (dbg_token : Token -> bytes) (dbg_datum : Datum -> bytes) (dbg_expr : Expr -> bytes).
Context (self : Rec) (m : nat) (Hself : good f64_lit m self).

Abbreviation parse_literal_operand := (parse_literal_operand f64_show dbg_token dbg_datum dbg_expr self).
Abbreviation wf_lit := (wf_lit f64_lit).
Abbreviation lit_tok := (lit_tok f64_lit).
Abbreviation print_expr := (print_expr f64_lit).

(** A step, or a token that is expected. *)
Ltac st := cbn beta iota;
  first
    [ progress pstep
    | lazymatch goal with
      | |- parses (mbind _ (expect_kw _ _)) (kwt _ :: _) _ _ => eapply p_bind; [apply p_expect_kw; reflexivity|]
      | |- parses (mbind _ (expect_sym _ _)) _ _ _ => eapply p_bind; [apply p_expect_sym|]
      | |- parses (mbind _ (expect_ident _)) _ _ _ => eapply p_bind; [apply p_expect_ident|]
      | |- parses (mbind _ (paren_ident _)) _ _ _ => unfold paren_ident
      | |- parses (mbind _ (skip_kw _)) _ _ _ => unfold skip_kw
      | |- parses (if ?b then _ else _) _ _ _ =>
        first [ let H := fresh in assert (H : b = true) by look; rewrite H; clear H
              | let H := fresh in assert (H : b = false) by look; rewrite H; clear H ]; cbv iota
      end
    | match goal with |- context [is_kw ?k (TIdent ?n)] => rewrite (word_kw n k) by (assumption || reflexivity); cbn [orb] end ].

Lemma p_text what s ts : utf8_valid s = true -> follows operand_ends ts ->
  parses (text_literal f64_show dbg_token dbg_datum dbg_expr self what) (TStr s :: ts) s ts.
Proof.
  intros Hs Hf. unfold text_literal. apply (p_bind _ _ _ (Text s) ts); [|apply p_ret].
  by apply (p_literal_operand f64_show f64_lit dbg_token dbg_datum dbg_expr self (Text s)).
Qed.

Lemma p_literal d ts : wf_lit d = true -> follows operand_ends ts -> parses parse_literal_operand (lit_tok d :: ts) d ts.
Proof. intros Hd Hf. by apply (p_literal_operand f64_show f64_lit dbg_token dbg_datum dbg_expr self). Qed.

Lemma p_if_not_exists b n ts : is_word n = true ->
  parses (if_not_exists dbg_token) (print_if b not_exists ++ TIdent n :: ts) b (TIdent n :: ts).
Proof. intros Hn. unfold if_not_exists. destruct b; cbn [print_if fmap list_fmap not_exists app]; repeat st. Qed.

Lemma p_if_exists b n ts : is_word n = true ->
  parses (if_exists dbg_token) (print_if b ["IF"; "EXISTS"]%string ++ TIdent n :: ts) b (TIdent n :: ts).
Proof. intros Hn. unfold if_exists. destruct b; cbn [print_if fmap list_fmap app]; repeat st. Qed.

Lemma p_if_not_exists_user b n ts : parses (if_not_exists dbg_token) (print_if b not_exists ++ TStr n :: ts) b (TStr n :: ts).
Proof. unfold if_not_exists. destruct b; cbn [print_if fmap list_fmap not_exists app]; repeat st. Qed.

Lemma p_if_exists_user b n ts : parses (if_exists dbg_token) (print_if b ["IF"; "EXISTS"]%string ++ TStr n :: ts) b (TStr n :: ts).
Proof. unfold if_exists. destruct b; cbn [print_if fmap list_fmap app]; repeat st. Qed.

(** The end of a statement. *)
Definition stmt_ends : list Token := [TEof; TSym (chr ";")].

Lemma p_user u ts : wf_user u = true -> follows (stmt_ends ++ [kwt "IDENTIFIED"]) ts -> parses (parse_user_name dbg_token) (TStr u :: ts) u ts.
Proof.
  intros [[_ H0%negb_true_iff]%andb_true_iff H1]%andb_true_iff Hf. unfold parse_user_name. repeat st.
  rewrite H0. cbn [orb]. bsimp. rewrite (proj2 (Z.ltb_ge 256 (Zlen u))) by lia. apply p_ret.
Qed.

Lemma p_level l ts : parses (parse_isolation_level dbg_token) (level_toks l ++ ts) l ts.
Proof. unfold parse_isolation_level. destruct l; cbn [level_toks fmap list_fmap app]; repeat st. Qed.

Lemma p_action a ts : parses (parse_fk_action dbg_token) (action_toks a ++ ts) a ts.
Proof. unfold parse_fk_action. destruct a; cbn [action_toks fmap list_fmap app]; repeat st. Qed.

Lemma p_priv p ts : follows [TSym COMMA; kwt "ON"] ts -> parses (parse_priv dbg_token) (priv_toks p ++ ts) p ts.
Proof.
  intros Hf. unfold parse_priv. destruct p; cbn [priv_toks fmap list_fmap app]; eapply p_bind; try apply p_expect_ident; try reflexivity.
Qed.

Lemma p_scope g ts : wf_scope g = true -> follows [kwt "TO"; kwt "FROM"] ts -> parses (parse_grant_scope dbg_token) (scope_toks g ++ ts) g ts.
Proof.
  intros Hw Hf. unfold parse_grant_scope. destruct g as [|db|[db|] tbl]; cbn [scope_toks app]; repeat st; eapply p_bind; repeat st; apply p_ret.
Qed.

Lemma p_where_end s ts : wf_where f64_lit s = true -> (length (where_toks f64_lit s) <= m)%nat -> follows stmt_ends ts ->
  parses (parse_where f64_show dbg_token dbg_datum dbg_expr self) (where_toks f64_lit s ++ ts) s ts.
Proof. intros Hw Hm Hf. eapply (p_where f64_show f64_lit); [done..|]. by eapply follows_sub. Qed.

Lemma p_closed_list {A} (p : PM A) (pr : A -> list Token) l ts :
  (forall x rest, x ∈ l -> follows [TSym COMMA; TSym RP] rest -> parses p (pr x ++ rest) x rest) ->
  (forall x, x ∈ l -> pr x <> []) -> l <> [] ->
  parses (closed_list dbg_token p) (commas (pr <$> l) ++ TSym RP :: ts) l ts.
Proof.
  intros Hp Hne Hl. unfold closed_list. eapply p_bind; [by apply (p_comma_list _ _ [TSym RP]); [..|apply follows_here]|]. repeat st.
Qed.

(** ** CREATE TABLE *)

Lemma p_flags c ts : wf_column f64_lit c = true -> follows [TSym COMMA; TSym RP] ts ->
  parses (column_flags f64_show dbg_token dbg_datum dbg_expr self)
    ((if cs_primary_key c then [kwt "PRIMARY"; kwt "KEY"] else if cs_not_null c then [kwt "NOT"; kwt "NULL"] else []) ++
     opt_kw (cs_auto_increment c) "AUTO_INCREMENT" ++
     match cs_default_value c with Some d => [kwt "DEFAULT"; lit_tok d] | None => [] end ++ ts)
    (mkColFlags (cs_not_null c) (cs_primary_key c) (cs_auto_increment c) (cs_default_value c)) ts.
Proof.
  intros Hw Hf. unfold wf_column in Hw. destruct c as [n ct nn pk ai dv]. cbn [cs_name cs_ctype cs_not_null cs_primary_key cs_auto_increment cs_default_value] in *.
  apply andb_true_iff in Hw as [[_ Hpk]%andb_true_iff Hd]. unfold column_flags.
  assert (Hdef : forall d, wf_lit d = true -> parses parse_literal_operand (lit_tok d :: ts) d ts).
  { intros d Hwd. apply p_literal; [done|by eapply follows_sub]. }
  destruct pk; [destruct nn; [|done]|destruct nn]; destruct ai; destruct dv as [d|]; cbn [app opt_kw].
  all: repeat first [ eapply loop_more; [solve [repeat st; first [by apply p_bind with (a := d) (mid := ts); [apply Hdef|repeat st] | repeat st]]|cbn [length]; lia|]
                    | apply loop_stop; repeat st ].
Qed.

Lemma p_column c ts : wf_column f64_lit c = true -> follows [TSym COMMA; TSym RP] ts ->
  parses (column_spec f64_show dbg_token dbg_datum dbg_expr self) (column_toks f64_lit c ++ ts) c ts.
Proof.
  intros Hw Hf. unfold column_spec, column_toks. cbn [app]. repeat st. rewrite <- !app_assoc.
  eapply p_bind; [|eapply p_bind; [by apply p_flags|]; destruct c; apply p_ret].
  unfold type_length. apply p_no; [|apply p_ret].
  destruct c as [n ct [] [] [] [d|]]; try reflexivity; cbn; by eapply (follows_false [TSym COMMA; TSym RP]).
Qed.

Lemma p_fk_actions a ts : follows [TSym COMMA; TSym RP] ts ->
  parses (fk_actions dbg_token) (kwt "ON" :: kwt "DELETE" :: action_toks a ++ ts) a ts.
Proof.
  intros Hf. unfold fk_actions. eapply loop_more; [repeat st; eapply p_bind; [apply p_action|apply p_ret]|cbn [length]; rewrite length_app; lia|].
  apply loop_stop. repeat st.
Qed.

Lemma p_foreign_key fk ts : wf_fk fk = true -> follows [TSym COMMA; TSym RP] ts ->
  parses (foreign_key dbg_token (fs_name fk))
    ([kwt "KEY"; TSym LP; TIdent (fs_column fk); TSym RP; kwt "REFERENCES"; TIdent (fs_ref_table fk);
      TSym LP; TIdent (fs_ref_column fk); TSym RP; kwt "ON"; kwt "DELETE"] ++ action_toks (fs_on_delete fk) ++ ts) fk ts.
Proof.
  intros Hw Hf. unfold foreign_key. cbn [app]. repeat st. eapply p_bind; [by apply p_fk_actions|]. by destruct fk.
Qed.

Abbreviation Entry := (ColumnSpec + ForeignKeySpec)%type.
Definition entry_toks (e : Entry) : list Token := match e with inl c => column_toks f64_lit c | inr f => fk_toks f end.
Definition wf_entry (e : Entry) : bool := match e with inl c => wf_column f64_lit c | inr f => wf_fk f end.
Definition add_entry (acc : list ColumnSpec * list ForeignKeySpec) (e : Entry) :=
  match e with inl c => (acc.1 ++ [c], acc.2) | inr f => (acc.1, acc.2 ++ [f]) end.

Abbreviation table_entry := (table_entry f64_show dbg_token dbg_datum dbg_expr self).

(** An entry, up to the separator. *)
Lemma p_entry acc e ts r rest : wf_entry e = true -> follows [TSym COMMA; TSym RP] ts ->
  parses (go_on (add_entry acc e)) ts r rest -> parses (table_entry acc) (entry_toks e ++ ts) r rest.
Proof.
  intros Hw Hf Hr. unfold ParseStmt.table_entry, constraint_name. destruct e as [c|fk]; cbn [entry_toks wf_entry add_entry] in *.
  - assert (Hn : is_word (cs_name c) = true) by (unfold wf_column in Hw; by do 3 apply andb_true_iff in Hw as [Hw _]).
    pose proof (p_column c ts Hw Hf) as Hc. unfold column_toks in *. cbn [app] in *. repeat st. eapply p_bind; [exact Hc|]. exact Hr.
  - unfold fk_toks. rewrite <- !app_assoc. assert (Hnm : opt_word (fs_name fk) = true) by (unfold wf_fk in Hw; by do 3 apply andb_true_iff in Hw as [Hw _]).
    pose proof (p_foreign_key fk ts Hw Hf) as Hk. destruct (fs_name fk) as [n|]; cbn [app opt_word] in *; repeat st; (eapply p_bind; [exact Hk|exact Hr]).
Qed.

Lemma p_entries es ts : es <> [] -> forallb wf_entry es = true ->
  parses (loop table_entry ([], [])) (commas (entry_toks <$> es) ++ TSym RP :: ts) (foldl add_entry ([], []) es) (TSym RP :: ts).
Proof.
  intros Hne Hw. generalize (@nil ColumnSpec, @nil ForeignKeySpec) as acc. revert Hne Hw.
  induction es as [|e es IH]; intros Hne Hw acc; [done|]. cbn [forallb] in Hw. apply andb_true_iff in Hw as [He Hw]. destruct es as [|e2 es].
  - cbn [fmap list_fmap commas foldl]. apply loop_stop. apply p_entry; [done|by apply follows_here|]. unfold go_on. repeat st.
  - change (commas (entry_toks <$> e :: e2 :: es)) with (entry_toks e ++ TSym COMMA :: commas (entry_toks <$> e2 :: es)).
    rewrite <- app_assoc. cbn [app]. eapply (loop_more _ _ (add_entry acc e)).
    + apply p_entry; [done|by apply follows_here|]. unfold go_on. repeat st.
    + rewrite !length_app. cbn [length]. rewrite ?length_app. cbn [length]. lia.
    + by apply IH.
Qed.

Lemma fold_entries cols fks : foldl add_entry ([], []) ((inl <$> cols) ++ (inr <$> fks)) = (cols, fks).
Proof.
  assert (H1 : forall cols a b, foldl add_entry (a, b) (inl <$> cols) = (a ++ cols, b)).
  { intros l. induction l as [|c l IH]; intros a b; cbn; [by rewrite app_nil_r|]. by rewrite IH, <- app_assoc. }
  assert (H2 : forall fks a b, foldl add_entry (a, b) (inr <$> fks) = (a, b ++ fks)).
  { intros l. induction l as [|c l IH]; intros a b; cbn; [by rewrite app_nil_r|]. by rewrite IH, <- app_assoc. }
  by rewrite foldl_app, H1, H2.
Qed.

(** ** Rows *)

Lemma p_row row ts : row <> [] -> forallb (wf_expr f64_lit) row = true -> (length (commas (print_expr 0 <$> row)) <= m)%nat ->
  parses (_ ← expect_sym dbg_token LP; closed_list dbg_token (parse_expr f64_show dbg_token dbg_datum dbg_expr self))
    (paren (commas (print_expr 0 <$> row)) ++ ts) row ts.
Proof.
  intros Hne Hw Hm. rewrite paren_app. repeat st. apply (p_closed_list _ (print_expr 0)); [| |done].
  - intros e rest He Hr. apply (p_expr f64_show f64_lit _ _ _ _ m Hself).
    + apply list_elem_of_In in He. by apply (proj1 (forallb_forall _ _) Hw).
    + pose proof (commas_le (print_expr 0) row e He). lia.
    + by eapply follows_sub.
  - intros e He. apply expr_ne. apply list_elem_of_In in He. by apply (proj1 (forallb_forall _ _) Hw).
Qed.

Definition asg_toks (a : bytes * Expr) : list Token := TIdent a.1 :: TSym EQUALS :: print_expr 0 a.2.

Lemma p_assignment a ts : is_word a.1 && wf_expr f64_lit a.2 = true -> (length (asg_toks a) <= m)%nat ->
  follows (TSym COMMA :: stmt_ends ++ [kwt "WHERE"]) ts ->
  parses (assignment f64_show dbg_token dbg_datum dbg_expr self) (asg_toks a ++ ts) a ts.
Proof.
  intros [Ha Hw]%andb_true_iff Hm Hf. unfold assignment, asg_toks in *. cbn [app length] in *. repeat st.
  eapply p_bind; [apply (p_expr f64_show f64_lit _ _ _ _ m Hself); [done|lia|by eapply follows_sub]|]. destruct a; apply p_ret.
Qed.

Lemma p_insert t cols rows ts : wf_stmt f64_lit (SInsert t cols rows) = true -> (length (print_stmt f64_lit (SInsert t cols rows)) <= m)%nat ->
  follows stmt_ends ts ->
  parses (parse_insert f64_show dbg_token dbg_datum dbg_expr self) (print_stmt f64_lit (SInsert t cols rows) ++ ts) (SInsert t cols rows) ts.
Proof.
  intros Hw Hm Hf. cbn [wf_stmt print_stmt] in *. apply andb_true_iff in Hw as [[[Ht Hc]%andb_true_iff Hr]%andb_true_iff Hrs].
  set (pr := fun row => paren (commas (print_expr 0 <$> row))) in *.
  rewrite !length_app in Hm. cbn [length] in Hm. unfold parse_insert. cbn [app]. do 3 st. rewrite <- app_assoc. cbn [app].
  apply (p_bind _ _ _ cols (kwt "VALUES" :: commas (pr <$> rows) ++ ts)).
  { destruct cols as [cs|]; [|cbn [app]; repeat st]. apply andb_true_iff in Hc as [Hcn Hcw]. rewrite paren_app. repeat st.
    eapply p_bind; [apply (p_closed_list _ (fun c => [TIdent c])); [by intros|done|by destruct cs]|]. apply p_ret. }
  repeat st. eapply p_bind; [apply (p_comma_list _ _ stmt_ends)|apply p_ret]; [| |done|by destruct rows|done].
  - intros row rest Hin Hrest. assert (Hrow : nonempty row && forallb (wf_expr f64_lit) row = true).
    { apply list_elem_of_In in Hin. by apply (proj1 (forallb_forall _ _) Hrs row). }
    apply andb_true_iff in Hrow as [Hn Hrow]. apply p_row; [by destruct row|done|].
    pose proof (commas_le pr rows row Hin) as Hle. unfold pr at 1 in Hle. rewrite paren_length in Hle. lia.
  - done.
Qed.

Lemma p_update t asg s ts : wf_stmt f64_lit (SUpdate t asg s) = true -> (length (print_stmt f64_lit (SUpdate t asg s)) <= m)%nat ->
  follows stmt_ends ts ->
  parses (parse_update f64_show dbg_token dbg_datum dbg_expr self) (print_stmt f64_lit (SUpdate t asg s) ++ ts) (SUpdate t asg s) ts.
Proof.
  intros Hw Hm Hf. cbn [wf_stmt print_stmt] in *. apply andb_true_iff in Hw as [[[Ht Hn]%andb_true_iff Ha]%andb_true_iff Hs].
  fold asg_toks in *. change (fun a : bytes * Expr => TIdent a.1 :: TSym EQUALS :: print_expr 0 a.2) with asg_toks in *.
  rewrite !length_app in Hm. cbn [length] in Hm. unfold parse_update. cbn [app]. rewrite <- app_assoc. repeat st.
  eapply p_bind; [apply (p_comma_list _ asg_toks (stmt_ends ++ [kwt "WHERE"]))|]; [| |done|by destruct asg| |].
  - intros a rest Hin Hrest. apply p_assignment; [|pose proof (commas_le asg_toks asg a Hin); lia|done].
    apply list_elem_of_In in Hin. by apply (proj1 (forallb_forall _ _) Ha a).
  - done.
  - apply follows_app; [destruct s; [by apply member|done]|by eapply follows_sub].
  - eapply p_bind; [apply p_where_end; [done|lia|done]|]. apply p_ret.
Qed.

(** ** Short statements *)

Lemma p_isolation l ts : parses (isolation_clause dbg_token) (kwt "LEVEL" :: level_toks l ++ ts) l ts.
Proof. unfold isolation_clause. st. apply p_level. Qed.

Lemma p_begin l ro ts : follows stmt_ends ts ->
  parses (parse_begin dbg_token) (print_stmt f64_lit (SBegin l ro) ++ ts) (SBegin l ro) ts.
Proof.
  intros Hf. unfold parse_begin. cbn [print_stmt app]. st. rewrite <- app_assoc.
  apply (p_bind _ _ _ () (opt_level l ++ print_if ro ["READ"; "ONLY"]%string ++ ts)).
  { unfold skip_kw. destruct l as [l|]; [|destruct ro]; cbn [opt_level print_if fmap list_fmap app]; repeat st. }
  apply (p_bind _ _ _ l (print_if ro ["READ"; "ONLY"]%string ++ ts)).
  { destruct l as [l|]; cbn [opt_level app]; [st; eapply p_bind; [apply p_isolation|apply p_ret]|].
    destruct ro; cbn [print_if fmap list_fmap app]; repeat st. }
  apply (p_bind _ _ _ ro ts); [|apply p_ret]. unfold read_only_clause. destruct ro; cbn [print_if fmap list_fmap app]; repeat st.
Qed.

Lemma p_start sn l ro ts : follows stmt_ends ts ->
  parses (parse_start dbg_token) (print_stmt f64_lit (SStartTransaction sn l ro) ++ ts) (SStartTransaction sn l ro) ts.
Proof.
  intros Hf. unfold parse_start. cbn [print_stmt app]. do 2 st. apply (p_bind _ _ _ (mkTxnOpts sn l ro) ts); [|apply p_ret].
  assert (Hro : forall sn l, parses (loop (txn_option dbg_token) (mkTxnOpts sn l false)) (print_if ro ["READ"; "ONLY"]%string ++ ts) (mkTxnOpts sn l ro) ts).
  { intros sn' l'. assert (Hstop : forall o, parses (loop (txn_option dbg_token) o) ts o ts).
    { intros o. apply loop_stop. unfold txn_option. st. destruct (bool_decide (hd TEof ts = TEof)); repeat st. }
    destruct ro; cbn [print_if fmap list_fmap app]; [|apply Hstop].
    eapply loop_more; [unfold txn_option, read_only_clause; repeat st|cbn [length]; lia|]. apply Hstop. }
  assert (Hl : forall sn, parses (loop (txn_option dbg_token) (mkTxnOpts sn None false)) (opt_level l ++ print_if ro ["READ"; "ONLY"]%string ++ ts) (mkTxnOpts sn l ro) ts).
  { intros sn'. destruct l as [l|]; [|apply Hro]. cbn [opt_level app].
    apply (loop_more _ _ (mkTxnOpts sn' (Some l) false) _ (print_if ro ["READ"; "ONLY"]%string ++ ts));
      [|cbn [length]; rewrite !length_app; cbn [length]; lia|apply Hro].
    unfold txn_option. repeat st. eapply p_bind; [apply p_isolation|apply p_ret]. }
  rewrite <- !app_assoc. destruct sn; cbn [print_if fmap list_fmap app]; [|apply Hl].
  eapply loop_more; [unfold txn_option; repeat st|cbn [length]; lia|]. apply Hl.
Qed.

Lemma p_create_table n cols fks b ts : wf_stmt f64_lit (SCreateTable n cols fks b) = true -> follows stmt_ends ts ->
  parses (parse_create f64_show dbg_token dbg_datum dbg_expr self) (print_stmt f64_lit (SCreateTable n cols fks b) ++ ts) (SCreateTable n cols fks b) ts.
Proof.
  intros Hw Hf. cbn [wf_stmt print_stmt] in *. apply andb_true_iff in Hw as [[[Hn Hne]%andb_true_iff Hc]%andb_true_iff Hk].
  unfold parse_create. cbn [app]. repeat st. rewrite <- app_assoc. cbn [app].
  eapply p_bind; [by apply p_if_not_exists|]. st. rewrite paren_app. st.
  set (es := (inl <$> cols) ++ (inr <$> fks) : list Entry).
  assert (E : (column_toks f64_lit <$> cols) ++ (fk_toks <$> fks) = entry_toks <$> es) by (subst es; by rewrite fmap_app, <- !list_fmap_compose).
  rewrite E. eapply p_bind; [apply p_entries|].
  - subst es. by destruct cols.
  - subst es. rewrite forallb_app. apply andb_true_iff.
    assert (Hfm : forall A (g : A -> Entry) (l : list A), forallb wf_entry (g <$> l) = forallb (fun x => wf_entry (g x)) l)
      by (intros A g l; induction l as [|x l IH]; cbn; [done|by rewrite IH]).
    by rewrite !Hfm.
  - repeat st. subst es. rewrite fold_entries. apply p_ret.
Qed.

(** CREATE of something else than a table. *)
Lemma p_create s ts : match s with SCreateDatabase _ _ | SCreateIndex _ _ _ _ | SCreateUser _ _ _ => True | _ => False end ->
  wf_stmt f64_lit s = true -> follows stmt_ends ts ->
  parses (parse_create f64_show dbg_token dbg_datum dbg_expr self) (print_stmt f64_lit s ++ ts) s ts.
Proof.
  intros Hs Hw Hf. unfold parse_create. destruct s as [n b| | | | | | | | | | | | | | | | | | | | | | |n t c b| | | | | |n b p| | | | | | |]; try done;
    cbn [wf_stmt print_stmt app] in *; repeat st; repeat (rewrite <- app_assoc; cbn [app]).
  - eapply p_bind; [by apply p_if_not_exists|]. repeat st.
  - apply andb_true_iff in Hw as [[Hn Ht]%andb_true_iff Hc]. eapply p_bind; [by apply p_if_not_exists|]. repeat st.
  - apply andb_true_iff in Hw as [Hn Hp]. eapply p_bind; [by apply p_if_not_exists_user|].
    eapply p_bind; [apply p_user; [done|by apply follows_here]|]. repeat st.
    eapply p_bind; [apply p_text; [done|by eapply follows_sub]|]. apply p_ret.
Qed.

Lemma p_drop s ts : match s with SDropDatabase _ _ | SDropTable _ _ | SDropIndex _ _ _ | SDropUser _ _ => True | _ => False end ->
  wf_stmt f64_lit s = true -> follows stmt_ends ts -> parses (parse_drop dbg_token) (print_stmt f64_lit s ++ ts) s ts.
Proof.
  intros Hs Hw Hf. unfold parse_drop. destruct s as [|n b| | | |n b| | | | | | | | | | | | | | | | | | |n t b| | | | | |n b| | | | | |]; try done;
    cbn [wf_stmt print_stmt app] in *; repeat st; repeat (rewrite <- app_assoc; cbn [app]).
  - eapply p_bind; [by apply p_if_exists|]. repeat st.
  - eapply p_bind; [by apply p_if_exists|]. repeat st.
  - apply andb_true_iff in Hw as [Hn Ht]. eapply p_bind; [by apply p_if_exists|]. repeat st.
  - eapply p_bind; [by apply p_if_exists_user|]. eapply p_bind; [apply p_user; [done|by eapply follows_sub]|]. apply p_ret.
Qed.

Lemma p_privs ps ts : nonempty ps = true -> follows [kwt "ON"] ts ->
  parses (parse_priv_list dbg_token) (commas (priv_toks <$> ps) ++ ts) ps ts.
Proof.
  intros Hn Hf. apply (p_comma_list _ priv_toks [kwt "ON"]); [|by intros []|done|by destruct ps|done].
  intros p rest _ Hr. by apply p_priv.
Qed.

Lemma p_grant b ps g u ts : nonempty ps && wf_scope g && wf_user u = true -> follows stmt_ends ts ->
  parses (parse_grant dbg_token b) ((if b then kwt "REVOKE" else kwt "GRANT") :: commas (priv_toks <$> ps) ++ kwt "ON" :: scope_toks g ++
    [kwt (if b then "FROM" else "TO"); TStr u] ++ ts) (if b then SRevoke ps g u else SGrant ps g u) ts.
Proof.
  intros [[Hp Hg]%andb_true_iff Hu]%andb_true_iff Hf. unfold parse_grant. st. eapply p_bind; [apply p_privs; [done|by apply follows_here]|].
  repeat st. eapply p_bind; [apply p_scope; [done|by destruct b; apply follows_here]|]. cbn [app].
  eapply p_bind; [by apply p_expect_kw; destruct b|]. eapply p_bind; [apply p_user; [done|by eapply follows_sub]|]. by destruct b.
Qed.

Lemma p_set_transaction l g ts : follows stmt_ends ts ->
  parses (parse_set f64_show dbg_token dbg_datum dbg_expr self) (print_stmt f64_lit (SSetTransaction l g) ++ ts) (SSetTransaction l g) ts.
Proof.
  intros Hf. unfold parse_set. cbn [print_stmt app]. destruct g; cbn [opt_kw app]; repeat st; (eapply p_bind; [apply p_isolation|apply p_ret]).
Qed.

Lemma p_set_value v ts : wf_lit v = true -> follows operand_ends ts ->
  parses (set_value f64_show dbg_token dbg_datum dbg_expr self) (lit_tok v :: ts) v ts.
Proof.
  intros Hv Hf. unfold set_value. apply p_peek. cbn [hd]. pose proof (p_literal v ts Hv Hf) as H.
  destruct v as [| | | |[]|]; exact H.
Qed.

Lemma p_set_variable n v ts : wf_name n = true -> wf_lit v = true -> follows stmt_ends ts ->
  parses (parse_set f64_show dbg_token dbg_datum dbg_expr self) (print_stmt f64_lit (SSetVariable n v) ++ ts) (SSetVariable n v) ts.
Proof.
  intros Hn Hv Hf. unfold parse_set, set_name. cbn [print_stmt app]. rewrite <- app_assoc. cbn [app].
  destruct (name_cases n Hn) as (a & Ha & [[-> ->]|(b & Hb & -> & ->)]); cbn [app]; repeat st.
  all: eapply p_bind; [apply p_set_value; [done|by eapply follows_sub]|]; apply p_ret.
Qed.

Lemma p_select s ts : is_select s = true -> wf_stmt f64_lit s = true -> (length (print_stmt f64_lit s) <= m)%nat -> follows stmt_ends ts ->
  parses (parse_select f64_show dbg_token dbg_datum dbg_expr self) (print_stmt f64_lit s ++ ts) s ts.
Proof.
  intros Hs Hw Hm Hf. destruct s; try done. cbn [wf_stmt print_stmt] in *. unfold parse_select.
  eapply p_bind; [apply (p_select_stmt f64_show f64_lit _ _ _ _ m Hself); [done|lia|by eapply follows_sub]|]. apply p_ret.
Qed.

Lemma select_starts s : is_select s = true -> exists tl, print_stmt f64_lit s = kwt "SELECT" :: tl.
Proof. destruct s; try done. cbn. eauto. Qed.

Lemma p_select_only what s ts : is_select s = true -> wf_stmt f64_lit s = true -> (length (print_stmt f64_lit s) <= m)%nat -> follows stmt_ends ts ->
  parses (select_only f64_show dbg_token dbg_datum dbg_expr self what) (print_stmt f64_lit s ++ ts) s ts.
Proof.
  intros Hs Hw Hm Hf. unfold select_only. apply p_peek. destruct (select_starts s Hs) as [tl E].
  assert (is_kw "SELECT" (hd TEof (print_stmt f64_lit s ++ ts)) = true) as -> by by rewrite E. by apply p_select.
Qed.

Lemma p_explain a memo s ts : is_select s = true -> wf_stmt f64_lit s = true -> (length (print_stmt f64_lit s) <= m)%nat -> follows stmt_ends ts ->
  (a && memo = false) ->
  parses (parse_explain f64_show dbg_token dbg_datum dbg_expr self)
    (kwt "EXPLAIN" :: opt_kw a "ANALYZE" ++ opt_kw memo "MEMO" ++ print_stmt f64_lit s ++ ts) (if memo then SExplainMemo s else SExplain a s) ts.
Proof.
  intros Hs Hw Hm Hf Ham. unfold parse_explain. destruct (select_starts s Hs) as [tl E].
  assert (Hk : forall k, is_kw k (kwt "SELECT") = false -> is_kw k (hd TEof (print_stmt f64_lit s ++ ts)) = false) by (intros; by rewrite E).
  destruct a, memo; try done; cbn [opt_kw app]; repeat st; try (apply p_no; [by apply Hk|]); try st; try (apply p_no; [by apply Hk|]); repeat st.
  all: eapply p_bind; [by apply p_select_only|]; apply p_ret.
Qed.

(** ** Every statement *)

Definition reads (s : Statement) : Prop := forall ts, wf_stmt f64_lit s = true -> (length (print_stmt f64_lit s) <= m)%nat -> follows stmt_ends ts ->
  parses (parse_statement f64_show dbg_token dbg_datum dbg_expr self) (print_stmt f64_lit s ++ ts) s ts.

(** The first word picks the function. *)
Ltac pick := unfold parse_statement; apply p_peek; unfold statement_table; cbn [print_stmt app hd dispatch]; repeat st.

Lemma reads_show s : match s with SShowDatabases | SShowTables | SShowStatus _ | SShowEngineStatus | SShowProcesslist | SShowGrants _ => True | _ => False end -> reads s.
Proof.
  intros Hs ts Hw Hm Hf. assert (Ho : follows operand_ends ts) by by eapply follows_sub.
  destruct s as [| | | | | | | | | | | | | | | |like| | | | | | | | | | | | | | | | | |u| |]; try contradiction; cbn [wf_stmt] in Hw; pick; unfold parse_show; repeat st.
  - destruct like as [p|]; cbn [app]; repeat st. eapply p_bind; [by apply p_text|]. repeat st.
  - destruct u as [u|]; cbn [app]; repeat st. eapply p_bind; [apply p_user; [done|by apply (follows_sub stmt_ends)]|]. repeat st.
Qed.

Lemma reads_word s : match s with SCommit | SRollback | SCheckpoint | SPromote => True | _ => False end -> reads s.
Proof. intros Hs ts Hw Hm Hf. destruct s; try contradiction; pick; unfold word; repeat st. Qed.

Lemma reads_short s : match s with
  | SUseDatabase _ | SBackup _ | SArchive _ | SAnalyzeTable _ | SAlterUser _ _ | SCheckTable _ | SCheckDatabase _ => True | _ => False end -> reads s.
Proof.
  intros Hs ts Hw Hm Hf. assert (Ho : follows operand_ends ts) by by eapply follows_sub.
  destruct s as [| |n| | | | | | | | | | | | | | | | | | |p|d| | | |t| | | | |n p| | | |t|d]; try contradiction; cbn [wf_stmt] in Hw; pick.
  - unfold parse_use. repeat st.
  - unfold parse_backup. repeat st. eapply p_bind; [by apply p_text|]. repeat st.
  - unfold parse_archive. destruct d as [p|]; cbn [app].
    + repeat st. eapply p_bind; [by apply p_text|]. repeat st.
    + repeat st. destruct (is_text (hd TEof ts)) eqn:E; [|repeat st].
      exfalso. assert (H : is_text (hd TEof ts) = false) by by apply (follows_false stmt_ends). congruence.
  - unfold parse_analyze. repeat st.
  - unfold parse_alter. apply andb_true_iff in Hw as [Hn Hp]. repeat st. eapply p_bind; [apply p_user; [done|by apply follows_here]|]. repeat st.
    eapply p_bind; [by apply p_text|]. repeat st.
  - unfold parse_check. repeat st.
  - unfold parse_check. destruct d as [d|]; cbn [app]; repeat st.
Qed.

Lemma reads_dml s : match s with SInsert _ _ _ | SUpdate _ _ _ | SDelete _ _ | SSelect _ _ _ _ _ _ _ => True | _ => False end -> reads s.
Proof.
  intros Hs ts Hw Hm Hf. destruct s as [| | | | | |t cols rows|items from joins sel ob lim gb|t asg sel|t sel| | | | | | | | | | | | | | | | | | | | | | | | | | |]; try contradiction.
  - pick. by apply p_insert.
  - pick. by apply (p_select (SSelect items from joins sel ob lim gb)).
  - pick. by apply p_update.
  - pick. cbn [wf_stmt print_stmt] in *. apply andb_true_iff in Hw as [Ht Hsel]. rewrite length_app in Hm. unfold parse_delete. repeat st.
    eapply p_bind; [apply p_where_end; [done|lia|done]|]. apply p_ret.
Qed.

Lemma reads_other s : match s with
  | SCreateDatabase _ _ | SDropDatabase _ _ | SCreateTable _ _ _ _ | SDropTable _ _ | SCreateIndex _ _ _ _ | SDropIndex _ _ _
  | SCreateUser _ _ _ | SDropUser _ _ | SBegin _ _ | SStartTransaction _ _ _ | SSetTransaction _ _ | SSetVariable _ _
  | SExplain _ _ | SExplainMemo _ | SGrant _ _ _ | SRevoke _ _ _ => True | _ => False end -> reads s.
Proof.
  intros Hs ts Hw Hm Hf. destruct s as [n i|n i| | |n cols fks i|n i| | | | |l ro| | |sn l ro|l g| | | | | | | | |n t c i|n t i|n v| |a s|s|n i p|n i| |ps g u|ps g u| | |]; try contradiction.
  - pick. by apply (p_create (SCreateDatabase n i)).
  - pick. by apply (p_drop (SDropDatabase n i)).
  - pick. by apply p_create_table.
  - pick. by apply (p_drop (SDropTable n i)).
  - pick. by apply p_begin.
  - pick. by apply p_start.
  - pick. by apply p_set_transaction.
  - pick. by apply (p_create (SCreateIndex n t c i)).
  - pick. by apply (p_drop (SDropIndex n t i)).
  - cbn [wf_stmt] in Hw. apply andb_true_iff in Hw as [Hn Hv]. pick. by apply p_set_variable.
  - cbn [wf_stmt print_stmt length] in *. apply andb_true_iff in Hw as [Hsel Hw]. rewrite length_app in Hm. pick. rewrite <- app_assoc.
    apply (p_explain a false); [done..|lia|done|by destruct a].
  - cbn [wf_stmt print_stmt length] in *. apply andb_true_iff in Hw as [Hsel Hw]. pick.
    apply (p_explain false true); [done..|lia|done|done].
  - pick. by apply (p_create (SCreateUser n i p)).
  - pick. by apply (p_drop (SDropUser n i)).
  - pick. repeat (rewrite <- app_assoc; cbn [app]). by apply (p_grant false).
  - pick. repeat (rewrite <- app_assoc; cbn [app]). by apply (p_grant true).
Qed.

Lemma reads_stmt s : reads s.
Proof.
  destruct s; first [by apply reads_show|by apply reads_word|by apply reads_short|by apply reads_dml|by apply reads_other].
Qed.

End statements.

(** * What is printed can be spelled *)

Section lexable.
Context (f64_lit : Z -> bytes).

Abbreviation lx ts := (forallb lexable ts = true).

Lemma lx_app a b : lx (a ++ b) <-> lx a /\ lx b.
Proof. rewrite forallb_app. apply andb_true_iff. Qed.

Lemma lx_cons t ts : lexable t = true -> lx ts -> lx (t :: ts).
Proof. cbn. by intros -> ->. Qed.

Lemma lx_word a : is_word a = true -> lexable (TIdent a) = true.
Proof. by intros [H _]%andb_true_iff. Qed.

Lemma lx_lit d : wf_lit f64_lit d = true -> lexable (lit_tok f64_lit d) = true.
Proof.
  destruct d as [|v|f|s|b|v]; cbn; try done; [intros _; apply number_ok_show| |by destruct b].
  by intros [[H _]%andb_true_iff _]%andb_true_iff.
Qed.

Lemma lx_name n : wf_name n = true -> lx (name_toks n).
Proof.
  intros (a & Ha & [[_ ->]|(b & Hb & _ & ->)])%name_cases; repeat (apply lx_cons; [by first [apply lx_word|reflexivity]|]); done.
Qed.

Lemma lx_paren a : lx a -> lx (paren a).
Proof. intros H. unfold paren. apply lx_cons; [done|]. apply lx_app. by split. Qed.

Lemma lx_wrap b a : lx a -> lx (wrap b a).
Proof. destruct b; [apply lx_paren|done]. Qed.

Lemma lx_commas {A} (pr : A -> list Token) l : (forall x, x ∈ l -> lx (pr x)) -> lx (commas (pr <$> l)).
Proof.
  induction l as [|x l IH]; intros H; [done|]. destruct l as [|y l]; [apply H; left|].
  change (commas (pr <$> x :: y :: l)) with (pr x ++ TSym COMMA :: commas (pr <$> y :: l)). apply lx_app.
  split; [apply H; left|]. apply lx_cons; [done|]. apply IH. intros z Hz. apply H. by right.
Qed.

Lemma lx_each {A} (f : A -> bool) (pr : A -> list Token) l : forallb f l = true -> (forall x, x ∈ l -> f x = true -> lx (pr x)) -> lx (commas (pr <$> l)).
Proof.
  intros Hf H. apply lx_commas. intros x Hx. apply H; [done|]. apply list_elem_of_In in Hx. by apply (proj1 (forallb_forall _ _) Hf).
Qed.

Lemma lx_clause {A} (k : string) (pr : A -> list Token) l : lexable (kwt k) = true -> lx (commas (pr <$> l)) -> lx (clause [kwt k; kwt "BY"] (pr <$> l)).
Proof. intros Hk H. unfold clause. destruct l; [done|]. cbn [fmap list_fmap app]. apply lx_cons; [done|]. by apply lx_cons. Qed.

Lemma lx_alias a : opt_word a = true -> lx (alias_toks a).
Proof. destruct a as [a|]; [|done]. intros H. apply lx_cons; [done|]. apply lx_cons; [by apply lx_word|done]. Qed.

(** The number of tokens a level adds does not matter: subqueries are shorter. *)
Context (n : nat) (Hsel : forall q, wf_select f64_lit q = true -> (length (print_select f64_lit q) < n)%nat -> lx (print_select f64_lit q)).

Ltac split_wf := repeat match goal with H : _ && _ = true |- _ => apply andb_true_iff in H as [H ?] end.

Lemma lx_expr e p : wf_expr f64_lit e = true -> (length (print_expr f64_lit p e) <= n)%nat -> lx (print_expr f64_lit p e).
Proof.
  revert p. induction e as [c|d|l IHl op r IHr|a IHa b IHb|a IHa b IHb|e IHe|l IHl vs neg|l IHl lo hi neg|l IHl pat neg|l IHl q neg|q|q neg];
    intros p Hw Hn; cbn [wf_expr print_expr] in *; split_wf.
  - by apply lx_name.
  - apply lx_cons; [by apply lx_lit|done].
  - rewrite length_app in Hn. cbn [length] in Hn. apply lx_app. split; [apply IHl; [done|lia]|]. apply lx_cons; [by destruct op|]. apply IHr; [done|lia].
  - assert (Hl : (length (print_expr f64_lit 1 a) + S (length (print_expr f64_lit 2 b)) <= n)%nat).
    { destruct (1 <? p); cbn [wrap] in Hn; rewrite ?paren_length, length_app in Hn; cbn [length] in Hn; lia. }
    apply lx_wrap, lx_app. split; [apply IHa; [done|lia]|]. apply lx_cons; [done|]. apply IHb; [done|lia].
  - assert (Hl : (length (print_expr f64_lit 0 a) + S (length (print_expr f64_lit 1 b)) <= n)%nat).
    { destruct (0 <? p); cbn [wrap] in Hn; rewrite ?paren_length, length_app in Hn; cbn [length] in Hn; lia. }
    apply lx_wrap, lx_app. split; [apply IHa; [done|lia]|]. apply lx_cons; [done|]. apply IHb; [done|lia].
  - assert (Hl : (length (print_expr f64_lit 2 e) <= n)%nat).
    { destruct (2 <? p), (is_exists e); cbn [wrap] in Hn; rewrite ?paren_length in Hn; cbn [length] in Hn; rewrite ?paren_length in Hn; lia. }
    apply lx_wrap, lx_cons; [done|]. apply lx_wrap, IHe; [done|lia].
  - rewrite length_app in Hn. apply lx_app. split; [apply IHl; [done|lia]|]. unfold in_toks. apply lx_app. split; [by destruct neg|].
    apply lx_cons; [done|]. apply lx_paren. apply (lx_each (wf_lit f64_lit)); [done|]. intros d _ Hd. apply lx_cons; [by apply lx_lit|done].
  - rewrite length_app in Hn. apply lx_app. split; [apply IHl; [done|lia]|]. apply lx_app. split; [by destruct neg|].
    apply lx_cons; [done|]. apply lx_cons; [by apply lx_lit|]. apply lx_cons; [done|]. apply lx_cons; [by apply lx_lit|done].
  - rewrite length_app in Hn. apply lx_app. split; [apply IHl; [done|lia]|]. apply lx_app. split; [by destruct neg|].
    apply lx_cons; [done|]. by apply lx_cons.
  - rewrite length_app in Hn. unfold in_toks in *. rewrite length_app in Hn. cbn [length] in Hn. rewrite paren_length in Hn.
    apply lx_app. split; [apply IHl; [done|lia]|]. apply lx_app. split; [by destruct neg|].
    apply lx_cons; [done|]. apply lx_paren, Hsel; [done|lia].
  - rewrite paren_length in Hn. apply lx_paren, Hsel; [done|lia].
  - assert (Hl : (length (print_select f64_lit q) < n)%nat).
    { destruct (neg && (2 <? p)), neg; cbn [wrap opt_kw app length] in Hn; rewrite ?paren_length in Hn; cbn [length] in Hn; rewrite ?paren_length in Hn; lia. }
    apply lx_wrap, lx_app. split; [by destruct neg|]. apply lx_cons; [done|]. by apply lx_paren, Hsel.
Qed.

Lemma lx_where s : wf_where f64_lit s = true -> (length (where_toks f64_lit s) <= n)%nat -> lx (where_toks f64_lit s).
Proof. destruct s as [e|]; [|done]. cbn [where_toks wf_where length]. intros Hw Hn. apply lx_cons; [done|]. apply lx_expr; [done|lia]. Qed.

Lemma lx_table_ref r : wf_table_ref f64_lit r = true -> (length (print_table_ref f64_lit r) <= n)%nat -> lx (print_table_ref f64_lit r).
Proof.
  destruct r as [t|q a|]; cbn [wf_table_ref print_table_ref]; [intros H _; by apply lx_name| |done]. intros H Hn. split_wf.
  rewrite length_app, paren_length in Hn. apply lx_app. split; [apply lx_paren, Hsel; [done|lia]|]. by apply (lx_alias (Some a)).
Qed.

Lemma lx_item i : wf_item f64_lit i = true -> (length (print_item f64_lit i) <= n)%nat -> lx (print_item f64_lit i).
Proof.
  destruct i as [|c| |fn c|q a|d|f a]; cbn [wf_item print_item]; try done; intros H Hn; split_wf.
  - by apply lx_name.
  - apply lx_cons; [by destruct fn|]. by apply lx_paren, lx_name.
  - rewrite length_app, paren_length in Hn. apply lx_app. split; [apply lx_paren, Hsel; [done|lia]|]. by apply lx_alias.
  - apply lx_cons; [apply lx_lit; by destruct d|done].
  - cbn [app]. apply lx_cons; [by apply lx_word|]. do 2 (apply lx_cons; [done|]). by apply lx_alias.
Qed.

Lemma lx_joins js : forallb (wf_join f64_lit) js = true -> (length (mjoin (print_join f64_lit <$> js)) <= n)%nat -> lx (mjoin (print_join f64_lit <$> js)).
Proof.
  induction js as [|[k r on] js IH]; [done|]. cbn [forallb wf_join]. intros H Hn. split_wf.
  change (mjoin (print_join f64_lit <$> mkJoinClause k r on :: js)) with
    ((kind_toks k ++ print_table_ref f64_lit r ++ kwt "ON" :: print_expr f64_lit 1 on) ++ mjoin (print_join f64_lit <$> js)) in *.
  rewrite !length_app in Hn. cbn [length] in Hn. rewrite !lx_app. split_and!; [by destruct k|apply lx_table_ref; [done|lia]| |apply IH; [done|lia]].
  apply lx_cons; [done|]. apply lx_expr; [done|lia].
Qed.

Lemma lx_limit l : lx (limit_toks l).
Proof. destruct l; [|done]. apply lx_cons; [done|]. apply lx_cons; [apply number_ok_show|done]. Qed.

Lemma lx_order k : wf_name k.1 = true -> lx (order_toks k).
Proof. intros H%lx_name. unfold order_toks. apply lx_app. split; [done|]. by destruct k.2. Qed.

Lemma lx_select_step q : wf_select f64_lit q = true -> (length (print_select f64_lit q) <= n)%nat -> lx (print_select f64_lit q).
Proof.
  destruct q as [items from joins sel ob lim gb]. intros Hw Hn. cbn [wf_select] in Hw. split_wf.
  change (print_select f64_lit (mkSelectStmt items from joins sel ob lim gb)) with (kwt "SELECT" :: commas (print_item f64_lit <$> items) ++
    match from with REmpty => [] | _ => kwt "FROM" :: print_table_ref f64_lit from end ++ mjoin (print_join f64_lit <$> joins) ++ where_toks f64_lit sel ++
    clause [kwt "GROUP"; kwt "BY"] (name_toks <$> gb) ++ clause [kwt "ORDER"; kwt "BY"] (order_toks <$> ob) ++ limit_toks lim) in *.
  cbn [length] in Hn. rewrite !length_app in Hn. apply lx_cons; [done|]. rewrite !lx_app. split_and!.
  - apply (lx_each (wf_item f64_lit)); [done|]. intros i Hi Hwi. apply lx_item; [done|]. pose proof (commas_le (print_item f64_lit) items i Hi). lia.
  - destruct from as [t|q a|]; [| |done]; cbn [length] in Hn; (apply lx_cons; [done|]); (apply lx_table_ref; [done|lia]).
  - apply lx_joins; [done|lia].
  - apply lx_where; [done|lia].
  - apply lx_clause; [done|]. apply (lx_each wf_name); [done|]. intros. by apply lx_name.
  - apply lx_clause; [done|]. apply (lx_each (fun k => wf_name k.1)); [done|]. intros. by apply lx_order.
  - apply lx_limit.
Qed.

End lexable.

Lemma lx_select f64_lit q : wf_select f64_lit q = true -> forallb lexable (print_select f64_lit q) = true.
Proof.
  intros Hw. enough (H : forall n q, wf_select f64_lit q = true -> (length (print_select f64_lit q) < n)%nat -> forallb lexable (print_select f64_lit q) = true)
    by apply (H (S (length (print_select f64_lit q))) q Hw (Nat.lt_succ_diag_r _)).
  clear q Hw. induction n as [|n IH]; intros q Hw Hn; [lia|]. by apply (lx_select_step f64_lit n IH); [|lia].
Qed.

Section lexable_stmt.
Context (f64_lit : Z -> bytes).

Abbreviation lx ts := (forallb lexable ts = true).

Lemma lx_expr_any e p : wf_expr f64_lit e = true -> lx (print_expr f64_lit p e).
Proof. intros Hw. apply (lx_expr f64_lit (length (print_expr f64_lit p e))); [intros q Hq _; by apply lx_select|done..]. Qed.

Lemma lx_where_any s : wf_where f64_lit s = true -> lx (where_toks f64_lit s).
Proof. intros Hw. apply (lx_where f64_lit (length (where_toks f64_lit s))); [intros q Hq _; by apply lx_select|done..]. Qed.

Lemma lx_user u : wf_user u = true -> lexable (TStr u) = true.
Proof. by intros [[H _]%andb_true_iff _]%andb_true_iff. Qed.

Lemma lx_column c : wf_column f64_lit c = true -> lx (column_toks f64_lit c).
Proof.
  intros [[[Hn Ht]%andb_true_iff _]%andb_true_iff Hd]%andb_true_iff. unfold column_toks.
  rewrite !lx_app. split_and!; [apply lx_cons; [by apply lx_word|]; apply lx_cons; [by apply lx_word|done]|by repeat case_match|by destruct (cs_auto_increment c)|].
  destruct (cs_default_value c) as [d|]; [|done]. apply lx_cons; [done|]. apply lx_cons; [by apply (lx_lit f64_lit)|done].
Qed.

Lemma lx_fk f : wf_fk f = true -> lx (fk_toks f).
Proof.
  intros [[[Hn Hc]%andb_true_iff Ht]%andb_true_iff Hr]%andb_true_iff. unfold fk_toks. rewrite !lx_app. split_and!.
  - destruct (fs_name f) as [n|]; [|done]. apply lx_cons; [done|]. apply lx_cons; [by apply lx_word|done].
  - repeat (apply lx_cons; [first [by apply lx_word|reflexivity]|]). done.
  - by destruct (fs_on_delete f).
Qed.

Lemma lx_priv ps : lx (commas (priv_toks <$> ps)).
Proof. apply (lx_commas priv_toks). by intros []. Qed.

Lemma lx_scope g : wf_scope g = true -> lx (scope_toks g).
Proof.
  destruct g as [|db|[db|] t]; cbn [wf_scope scope_toks opt_word]; intros H; try done.
  all: repeat match goal with H : _ && _ = true |- _ => apply andb_true_iff in H as [H ?] end.
  all: repeat (apply lx_cons; [first [by apply lx_word|reflexivity]|]); done.
Qed.

Ltac split_wf := repeat match goal with H : _ && _ = true |- _ => apply andb_true_iff in H as [H ?] end.

Ltac lxs := split_wf; cbn [app];
  repeat first
    [ done
    | apply lx_cons; [first [reflexivity | by apply lx_word | by apply lx_user | by apply (lx_lit f64_lit) | done]|]
    | by apply lx_where_any | by apply lx_name | apply lx_priv | by apply lx_scope
    | apply lx_app; split
    | match goal with
      | |- lx (print_if ?b _) => destruct b
      | |- lx (opt_kw ?b _) => destruct b
      | |- lx (level_toks ?l) => destruct l
      | |- lx (opt_level ?l) => destruct l as [[]|]
      | |- lx match ?o with Some _ => _ | None => _ end => destruct o
      end ].

Lemma lx_stmt s : wf_stmt f64_lit s = true -> lx (print_stmt f64_lit s).
Proof.
  destruct s as [| | | |n cols fks b| |t cols rows|items from joins sel ob lim gb|t asg s| | | | | | | | | | | | | | | | |n v| |a s|s| | | | | | | |];
    intros Hw; cbn [wf_stmt print_stmt] in *; try (solve [lxs]).
  - split_wf. do 2 (apply lx_cons; [done|]). apply lx_app. split; [by destruct b|]. apply lx_cons; [by apply lx_word|]. apply lx_paren.
    assert (E : (column_toks f64_lit <$> cols) ++ (fk_toks <$> fks) = entry_toks f64_lit <$> ((inl <$> cols) ++ (inr <$> fks)))
      by (by rewrite fmap_app, <- !list_fmap_compose).
    rewrite E. apply lx_commas. intros x [(c & -> & Hc)%list_elem_of_fmap|(c & -> & Hc)%list_elem_of_fmap]%elem_of_app.
    + apply lx_column. apply list_elem_of_In in Hc. by eapply (proj1 (forallb_forall _ _)).
    + apply lx_fk. apply list_elem_of_In in Hc. by eapply (proj1 (forallb_forall _ _)).
  - split_wf. do 3 (apply lx_cons; [first [done|by apply lx_word]|]). apply lx_app. split.
    + destruct cols as [cs|]; [|done]. split_wf. apply lx_paren. apply (lx_each is_word (fun c => [TIdent c])); [done|].
      intros c _ Hc. apply lx_cons; [by apply lx_word|done].
    + apply lx_cons; [done|]. eapply (lx_each _ (fun row => paren (commas (print_expr f64_lit 0 <$> row)))); [done|].
      intros row _ Hr. cbn beta in Hr. split_wf. apply lx_paren. apply (lx_each (wf_expr f64_lit)); [done|]. intros e _ He. by apply lx_expr_any.
  - by apply lx_select.
  - split_wf. do 3 (apply lx_cons; [first [done|by apply lx_word]|]). apply lx_app. split; [|by apply lx_where_any].
    eapply (lx_each _ (fun a : bytes * Expr => TIdent a.1 :: TSym EQUALS :: print_expr f64_lit 0 a.2)); [done|].
    intros e _ He. cbn beta in He. split_wf. apply lx_cons; [by apply lx_word|]. apply lx_cons; [done|]. by apply lx_expr_any.
  - split_wf. destruct s; try done. cbn [print_stmt wf_stmt] in *. apply lx_cons; [done|]. apply lx_app. split; [by destruct a|]. by apply lx_select.
  - split_wf. destruct s; try done. cbn [print_stmt wf_stmt] in *. do 2 (apply lx_cons; [done|]). by apply lx_select.
Qed.

End lexable_stmt.

(** C13: parsing inverts printing.  Every statement of the syntax, with words for
    names, numbers in range, valid strings and decimal texts that stand for its
    floats, is what its printed text parses to: precedence and associativity of
    OR, AND and NOT, parentheses, subqueries at every depth, joins, all clauses,
    constraints and quoting. *)
Theorem parse_print f64_show f64_lit dbg_token dbg_datum dbg_expr s :
  wf_stmt f64_lit s = true -> parse_sql f64_show dbg_token dbg_datum dbg_expr (spell (print_stmt f64_lit s)) = Ret (Ok s).
Proof.
  intros Hw. unfold parse_sql. rewrite tokenize_spell; cycle 1.
  { apply Forall_forall. intros t Ht. apply list_elem_of_In in Ht. by apply (proj1 (forallb_forall _ _) (lx_stmt f64_lit s Hw)). }
  set (ts := print_stmt f64_lit s ++ [TEof]). set (self := parsers f64_show dbg_token dbg_datum dbg_expr (S (length ts))).
  assert (H : parses (parse_all f64_show dbg_token dbg_datum dbg_expr self) ts s [TEof]).
  { unfold parse_all. apply (p_bind _ _ _ s [TEof]).
    - subst ts. apply (reads_stmt f64_show f64_lit _ _ _ self (S (length (print_stmt f64_lit s ++ [TEof])))); [apply parsers_good|done| |by apply follows_here].
      rewrite length_app. lia.
    - apply p_no; [reflexivity|]. apply p_peek. done. }
  unfold parses in H. cbn beta iota delta [mbind out_bind]. fold self. rewrite H. reflexivity.
Qed.

Section demo.
Let dbg {A} (_ : A) : bytes := str "?".

(** The float of the example, 1.5. *)
Definition demo_lit (f : Z) : bytes := if f =? 0x3FF8000000000000 then str "1.5" else str "0.0".

Definition demo_query : SelectStmt :=
  mkSelectStmt [IColumn (str "u.id"); IAggregate ASum (str "x"); ISubquery (mkSelectStmt [ICountStar] (RTable (str "w")) [] None [] None []) (Some (str "n"))]
    (RDerived (mkSelectStmt [IStar] (RTable (str "db.u")) [] (Some (EExists (mkSelectStmt [ILiteral (Int 1)] (RTable (str "v")) [] None [] None []) true)) [] None []) (str "u"))
    [mkJoinClause JLeft (RTable (str "v")) (EAnd (ECmp (EColumn (str "u.id")) OpEq (EColumn (str "v.id"))) (ECmp (EColumn (str "k")) OpGt (ELiteral (Int (-3)))))]
    (Some (EAnd (EOr (ENot (EAnd (EColumn (str "a")) (EColumn (str "b")))) (EBetween (EColumn (str "c")) (Int 1) (Float 0x3FF8000000000000) true))
                (EIn (EColumn (str "d")) [Text (str "it's"); Null] false)))
    [(str "u.id", true); (str "x", false)] (Some 10) [str "u.id"].

Definition demo_select : Statement :=
  match demo_query with mkSelectStmt i f j s o l g => SSelect i f j s o l g end.

End demo.

Lemma parse_print_witness :
  let dbg := fun A (_ : A) => str "?" in
  wf_stmt demo_lit demo_select = true /\
  parse_sql (dbg _) (dbg _) (dbg _) (dbg _) (spell (print_stmt demo_lit demo_select)) = Ret (Ok demo_select) /\
  firstn 58 (spell (print_stmt demo_lit demo_select)) = str "SELECT u . id , SUM ( x ) , ( SELECT COUNT ( * ) FROM w ) ".
Proof.
  intros dbg. assert (Hw : wf_stmt demo_lit demo_select = true) by (vm_compute; reflexivity).
  split; [exact Hw|]. split; [by apply parse_print|vm_compute; reflexivity].
Defined.
