(* ===== verification/Batch.v ===== *)
(** Columnar batch execution (db/batch.rs): morsels of rows decoded into
    primitive columns, filters as selection vectors of three outcomes, and
    aggregate folds.  [BatchSpec] shows the parity with row-at-a-time
    evaluation that the module promises. *)
From stdpp Require Import base list strings.
From Stdlib Require Import ZArith Lia SpecFloat.
From S2P Require Import Prelude Machine Utf8 Types DateTime TableDef Table Expr.

Definition MORSEL : Z := 1024.

(** * Columns *)

(** Parallel vectors; [null[i] != 0] marks NULL.  A text column packs its
    values into one buffer, [off] (one entry more than rows) delimiting them. *)
Inductive Column : Type :=
| ColI64 (vals null : list Z)
| ColF64 (vals null : list Z)
| ColBool (vals : list bool) (null : list Z)
| ColStr (data : bytes) (off null : list Z)
| ColDateTime (vals null : list Z).

Record ColumnBatch := mkBatch { cols : list Column; sel : list nat }.

Definition col_kind (t : ColumnType) : Z :=
  match t with
  | CInt | CBigInt => 0
  | CFloat | CDouble => 1
  | CBool => 2
  | CText | CVarChar => 3
  | CDateTime | CTimestamp => 4
  end.

Definition kind_of (c : Column) : Z :=
  match c with ColI64 _ _ => 0 | ColF64 _ _ => 1 | ColBool _ _ => 2 | ColStr _ _ _ => 3 | ColDateTime _ _ => 4 end.

Definition new_column (t : ColumnType) : Column :=
  match col_kind t with
  | 0 => ColI64 [] []
  | 1 => ColF64 [] []
  | 2 => ColBool [] []
  | 3 => ColStr [] [] []
  | _ => ColDateTime [] []
  end.

Definition col_clear (c : Column) : Column :=
  match c with
  | ColI64 _ _ => ColI64 [] []
  | ColF64 _ _ => ColF64 [] []
  | ColBool _ _ => ColBool [] []
  | ColStr _ _ _ => ColStr [] [] []
  | ColDateTime _ _ => ColDateTime [] []
  end.

Definition batch_new : ColumnBatch := mkBatch [] [].
Definition batch_clear (b : ColumnBatch) : ColumnBatch := mkBatch (col_clear <$> cols b) [].

Definition shaped (b : ColumnBatch) (s : Schema) : bool :=
  Nat.eqb (length (cols b)) (length (columns s)) &&
  forallb (fun '(col, c) => kind_of col =? col_kind (col_ctype c)) (zip (cols b) (columns s)).

(** Reserved capacity is not modelled. *)
Definition prepare_morsel (s : Schema) (b : ColumnBatch) : ColumnBatch :=
  batch_clear (if shaped b s then b else mkBatch (new_column ∘ col_ctype <$> columns s) (sel b)).

(** [if str_off.is_empty() { str_off.push(0) }] *)
Definition first_off (off : list Z) : list Z := match off with [] => [0] | _ => off end.

Definition push_null (c : Column) : Column :=
  match c with
  | ColI64 vals null => ColI64 (vals ++ [0]) (null ++ [1])
  | ColF64 vals null => ColF64 (vals ++ [0]) (null ++ [1])
  | ColBool vals null => ColBool (vals ++ [false]) (null ++ [1])
  | ColStr data off null => ColStr data (first_off off ++ [Zlen data]) (null ++ [1])
  | ColDateTime vals null => ColDateTime (vals ++ [0]) (null ++ [1])
  end.

Definition push_text (data : bytes) (off null : list Z) (s : bytes) : Column :=
  ColStr (data ++ s) (first_off off ++ [Zlen (data ++ s)]) (null ++ [0]).

(** [buf[off .. off + n]], [None] past the end. *)
Definition raw_slice (buf : bytes) (off n : Z) : option bytes :=
  if Zlen buf <? off + n then None else Some (take (Z.to_nat n) (drop (Z.to_nat off) buf)).

(** One cell of an encoded row into its column: the new column and offset. *)
Definition push_raw_cell (buf : bytes) (needed : bool) (off : Z) (c : Column) : option (Column * Z) :=
  tag ← buf !! Z.to_nat off;
  let off := off + 1 in
  let fixed (n : Z) (push : bytes -> Column -> option Column) :=
    b ← raw_slice buf off n;
    c ← (if needed then push b c else Some c);
    Some (c, off + n) in
  match tag with
  | 0 => Some (if needed then push_null c else c, off)
  | 1 => fixed 8 (fun b c => match c with ColI64 vals null => Some (ColI64 (vals ++ [i64_of_le b]) (null ++ [0])) | _ => None end)
  | 2 => fixed 8 (fun b c => match c with ColF64 vals null => Some (ColF64 (vals ++ [of_le b]) (null ++ [0])) | _ => None end)
  | 3 =>
    b ← raw_slice buf off 4;
    let len := of_le b in
    let off := off + 4 in
    s ← raw_slice buf off len;
    c ← (if needed then match c with ColStr data o null => Some (push_text data o null s) | _ => None end else Some c);
    Some (c, off + len)
  | 4 => fixed 1 (fun b c => match c with ColBool vals null => Some (ColBool (vals ++ [negb (hd 0 b =? 0)]) (null ++ [0])) | _ => None end)
  | 5 => fixed 8 (fun b c => match c with ColDateTime vals null => Some (ColDateTime (vals ++ [i64_of_le b]) (null ++ [0])) | _ => None end)
  | _ => None
  end.

(** [need.get(ci).copied().unwrap_or(false)] *)
Definition needs (need : list bool) (ci : nat) : bool := default false (need !! ci).

Fixpoint push_raw_cells (buf : bytes) (need : list bool) (ci : nat) (off : Z) (cs : list Column) : option (list Column * Z) :=
  match cs with
  | [] => Some ([], off)
  | c :: cs =>
    '(c, off) ← push_raw_cell buf (needs need ci) off c;
    '(cs, off) ← push_raw_cells buf need (S ci) off cs;
    Some (c :: cs, off)
  end.

(** [None] where the source returns [None]; every caller then drops the batch. *)
Definition push_raw_row (b : ColumnBatch) (buf : bytes) (need : list bool) : option ColumnBatch :=
  '(cs, off) ← push_raw_cells buf need 0 0 (cols b);
  if negb (off =? Zlen buf) then None else Some (mkBatch cs (sel b)).

Definition push_datum (c : Column) (d : Datum) : option Column :=
  match c, d with
  | ColI64 vals null, Int v => Some (ColI64 (vals ++ [v]) (null ++ [0]))
  | ColF64 vals null, Float v => Some (ColF64 (vals ++ [v]) (null ++ [0]))
  | ColBool vals null, Bool v => Some (ColBool (vals ++ [v]) (null ++ [0]))
  | ColStr data off null, Text s => Some (push_text data off null s)
  | ColDateTime vals null, DateTime v => Some (ColDateTime (vals ++ [v]) (null ++ [0]))
  | c, Null => Some (push_null c)
  | _, _ => None
  end.

Fixpoint push_datums (row : list Datum) (need : list bool) (ci : nat) (cs : list Column) : option (list Column) :=
  match cs with
  | [] => Some []
  | c :: cs =>
    c ← (if needs need ci then d ← row !! ci; push_datum c d else Some c);
    cs ← push_datums row need (S ci) cs;
    Some (c :: cs)
  end.

Definition push_datum_row (b : ColumnBatch) (row : list Datum) (need : list bool) : option ColumnBatch :=
  cs ← push_datums row need 0 (cols b); Some (mkBatch cs (sel b)).

(** [0..count as u16] *)
Definition finish_morsel (need : list bool) (count : Z) (b : ColumnBatch) : ColumnBatch :=
  mkBatch (imap (fun ci c => if needs need ci then match c with ColStr data off null => ColStr data (first_off off) null | _ => c end else c) (cols b))
    (seq 0 (Z.to_nat (wrap_u 16 count))).

Fixpoint push_rows (b : ColumnBatch) (rows : list (list Datum)) (need : list bool) : option ColumnBatch :=
  match rows with [] => Some b | r :: rows => b ← push_datum_row b r need; push_rows b rows need end.

Definition decode_morsel (b : ColumnBatch) (s : Schema) (rows : list (list Datum)) (need : list bool) : option ColumnBatch :=
  let n := Z.min (Zlen rows) MORSEL in
  b ← push_rows (prepare_morsel s b) (take (Z.to_nat n) rows) need;
  Some (finish_morsel need n b).

(** Columns a query touches. *)
Definition need_mask (s : Schema) (selection : option Expr) (extra : list Z) : list bool :=
  let touched := (match selection with Some e => omap (index_of s) (collect_columns e) | None => [] end) ++ extra in
  (fun ci => existsb (fun i => i =? Z.of_nat ci) touched) <$> seq 0 (length (columns s)).

(** * Values *)

(** [PVal] and [CVal]: a borrowed or owned operand. *)
Inductive PVal : Type := PI (v : Z) | PF (v : Z) | PB (v : bool) | PS (v : bytes) | PD (v : Z) | PNull.

Definition vec_at {A} (l : list A) (row : nat) : res A := match l !! row with Some x => Ok x | None => Panic end.

(** [std::str::from_utf8(&data[off[row]..off[row + 1]]).unwrap_or("")] *)
Definition text_at (data : bytes) (off : list Z) (row : nat) : res bytes :=
  a ← vec_at off row; b ← vec_at off (S row);
  if (b <? a) || (Zlen data <? b) then Panic
  else let s := take (Z.to_nat (b - a)) (drop (Z.to_nat a) data) in mret (if utf8_valid s then s else []).

Definition cell_with {A} (null : list Z) (row : nat) (v : res A) (f : A -> PVal) : res PVal :=
  n ← vec_at null row; if negb (n =? 0) then mret PNull else x ← v; mret (f x).

Definition cell (b : ColumnBatch) (ci : nat) (row : nat) : res PVal :=
  c ← vec_at (cols b) ci;
  match c with
  | ColI64 vals null => cell_with null row (vec_at vals row) PI
  | ColF64 vals null => cell_with null row (vec_at vals row) PF
  | ColBool vals null => cell_with null row (vec_at vals row) PB
  | ColStr data off null => cell_with null row (text_at data off row) PS
  | ColDateTime vals null => cell_with null row (vec_at vals row) PD
  end.

Definition lit_val (d : Datum) : PVal :=
  match d with Null => PNull | Int v => PI v | Float v => PF v | Bool v => PB v | Text s => PS s | DateTime v => PD v end.

(** [cell_datum]: the inverse of [lit_val]. *)
Definition cell_datum (b : ColumnBatch) (ci : nat) (row : nat) : res Datum :=
  v ← cell b ci row;
  mret match v with PNull => Null | PI v => Int v | PF v => Float v | PB v => Bool v | PS s => Text s | PD v => DateTime v end.

Definition rank_of (v : PVal) : Z :=
  match v with PB _ => 1 | PI _ | PF _ => 2 | PD _ => 3 | PS _ => 4 | PNull => 0 end.

Definition cmp_pvals (l r : PVal) : comparison :=
  match l, r with
  | PNull, _ | _, PNull => rank_of l ?= rank_of r
  | PI a, PI b => a ?= b
  | PF a, PF b => f64_cmp_or_eq a b
  | PI a, PF b => f64_cmp_or_eq (f64_of_i64 a) b
  | PF a, PI b => f64_cmp_or_eq a (f64_of_i64 b)
  | PB a, PB b => bool_cmp a b
  | PB a, PI b => int_of_bool a ?= b
  | PI a, PB b => a ?= int_of_bool b
  | PB a, PF b => f64_cmp_or_eq (f64_of_bool a) b
  | PF a, PB b => f64_cmp_or_eq a (f64_of_bool b)
  | PD a, PD b => a ?= b
  | PS a, PS b => lex a b
  | PD a, PS b => match parse_datetime_str b with Some m => a ?= m | None => 3 ?= 4 end
  | PS a, PD b => match parse_datetime_str a with Some m => m ?= b | None => 4 ?= 3 end
  | _, _ => rank_of l ?= rank_of r
  end.

Definition apply_cmp (op : CmpOp) (ord : comparison) : bool :=
  match op, ord with
  | OpEq, Eq | OpNe, (Lt | Gt) | OpLt, Lt | OpLe, (Lt | Eq) | OpGt, Gt | OpGe, (Gt | Eq) => true
  | _, _ => false
  end.

Definition in_match (t : PVal) (values : list Datum) : bool :=
  match t with
  | PNull => false
  | _ => existsb (fun v =>
      match t, v with
      | _, Null => false
      | PI a, Int b => a =? b
      | PF a, Float b => f64_eqb a b
      | PI a, Float b => f64_eqb (f64_of_i64 a) b
      | PF a, Int b => f64_eqb a (f64_of_i64 b)
      | PB a, Bool b => bool_decide (a = b)
      | PB a, Int b => int_of_bool a =? b
      | PI a, Bool b => a =? int_of_bool b
      | PB a, Float b => f64_eqb (f64_of_bool a) b
      | PF a, Bool b => f64_eqb a (f64_of_bool b)
      | PD a, DateTime b => a =? b
      | PS a, Text b => bool_decide (a = b)
      | PD a, Text b => match parse_datetime_str b with Some m => a =? m | None => false end
      | PS a, DateTime b => match parse_datetime_str a with Some m => m =? b | None => false end
      | _, _ => false
      end) values
  end.

Definition coerce_vals (t bound : PVal) : PVal * PVal :=
  match t, bound with
  | PB a, PI b => (PI (int_of_bool a), PI b)
  | PI a, PB b => (PI a, PI (int_of_bool b))
  | PB a, PF b => (PF (f64_of_bool a), PF b)
  | PF a, PB b => (PF a, PF (f64_of_bool b))
  | PI a, PF b => (PF (f64_of_i64 a), PF b)
  | PF a, PI b => (PF a, PF (f64_of_i64 b))
  | PD a, PS b => match parse_datetime_str b with Some m => (PD a, PD m) | None => (PD a, PS b) end
  | PS a, PD b => match parse_datetime_str a with Some m => (PD m, PD b) | None => (PS a, PD b) end
  | _, _ => (t, bound)
  end.

(** * Filters *)

(** Rows that pass and rows that failed on an unknown column, both ascending. *)
Record Tri := mkTri { tri_t : list nat; tri_e : list nat }.

(** The two merge loops. *)
Fixpoint subtract_sorted (a b : list nat) : list nat :=
  match a with
  | [] => []
  | x :: a' =>
    (fix inner (b : list nat) : list nat :=
       match b with
       | [] => x :: subtract_sorted a' []
       | y :: b' => if (y <? x)%nat then inner b' else if (y =? x)%nat then subtract_sorted a' b' else x :: subtract_sorted a' b
       end) b
  end.

Fixpoint union_sorted (a b : list nat) : list nat :=
  match a with
  | [] => b
  | x :: a' =>
    (fix inner (b : list nat) : list nat :=
       match b with
       | [] => a
       | y :: b' => if (x <? y)%nat then x :: union_sorted a' b else if (y <? x)%nat then y :: inner b' else x :: union_sorted a' b'
       end) b
  end.

(** Results that may panic, or be absent where the shape is unsupported. *)
Definition RO (A : Type) : Type := res (option A).
#[global] Instance ro_ret : MRet RO := fun A a => Ok (Some a).
#[global] Instance ro_bind : MBind RO := fun A B k m =>
  match m with Ok (Some a) => k a | Ok None => Ok None | Err e => Err e | Panic => Panic end.

(** [?] on a plain [Result]. *)
Definition ro_lift {A} (m : res A) : RO A := match m with Ok a => Ok (Some a) | Err e => Err e | Panic => Panic end.

Section filters.
Context (f64_show : Z -> bytes).

Definition pval_display (v : PVal) : bytes :=
  match v with
  | PI a => show_Z a
  | PF a => f64_show a
  | PB a => if a then str "true" else str "false"
  | PS a => a
  | PD a => format_datetime_micros a
  | PNull => str "NULL"
  end.

(** [Ok None] for an operand that is neither column nor literal,
    [Ok (Some None)] for an unknown column. *)
Definition operand (b : ColumnBatch) (col_of : bytes -> option Z) (e : Expr) (row : nat) : RO (option PVal) :=
  match e with
  | EColumn name =>
    match col_of name with
    | Some ci => v ← cell b (Z.to_nat ci) row; Ok (Some (Some v))
    | None => Ok (Some None)
    end
  | ELiteral d => Ok (Some (Some (lit_val d)))
  | _ => Ok None
  end.

(** The row loop of a leaf: a row passes ([Some true]), drops ([Some false]) or
    is an error ([None]). *)
Fixpoint leaf_loop (f : nat -> RO (option bool)) (input : list nat) : RO Tri :=
  match input with
  | [] => mret (mkTri [] [])
  | i :: input =>
    v ← f i; r ← leaf_loop f input;
    mret match v with
         | None => mkTri (tri_t r) (i :: tri_e r)
         | Some true => mkTri (i :: tri_t r) (tri_e r)
         | Some false => r
         end
  end.

(** One operand, NULL dropping the row. *)
Definition leaf (b : ColumnBatch) (col_of : bytes -> option Z) (e : Expr) (test : PVal -> bool) (i : nat) : RO (option bool) :=
  v ← operand b col_of e i;
  mret match v with None => None | Some PNull => Some false | Some v => Some (test v) end.

Definition leaf_cmp (b : ColumnBatch) (col_of : bytes -> option Z) (lhs : Expr) (op : CmpOp) (rhs : Expr) (i : nat) : RO (option bool) :=
  r ← operand b col_of lhs i; s ← operand b col_of rhs i;
  mret match r, s with
       | None, _ | _, None => None
       | Some PNull, _ | _, Some PNull => Some false
       | Some a, Some c => Some (apply_cmp op (cmp_pvals a c))
       end.

Definition between_vals (lo hi : Datum) (v : PVal) : bool :=
  let '(t1, l) := coerce_vals v (lit_val lo) in
  let '(t2, h) := coerce_vals t1 (lit_val hi) in
  apply_cmp OpGe (cmp_pvals t2 l) && apply_cmp OpLe (cmp_pvals t2 h).

Definition pval_truthy (v : PVal) : bool :=
  match v with PB b => b | PI n => negb (n =? 0) | PF f => negb (f64_eqb f 0) | _ => false end.

Fixpoint eval_node (b : ColumnBatch) (col_of : bytes -> option Z) (e : Expr) (input : list nat) : RO Tri :=
  match e with
  | EAnd x y =>
    ra ← eval_node b col_of x input;
    rb ← eval_node b col_of y (tri_t ra);
    mret (mkTri (tri_t rb) (union_sorted (tri_e ra) (tri_e rb)))
  | EOr x y =>
    ra ← eval_node b col_of x input;
    rb ← eval_node b col_of y (subtract_sorted (subtract_sorted input (tri_t ra)) (tri_e ra));
    mret (mkTri (union_sorted (tri_t ra) (tri_t rb)) (union_sorted (tri_e ra) (tri_e rb)))
  | ENot x =>
    r ← eval_node b col_of x input;
    mret (mkTri (subtract_sorted (subtract_sorted input (tri_t r)) (tri_e r)) (tri_e r))
  | ECmp lhs op rhs => leaf_loop (leaf_cmp b col_of lhs op rhs) input
  | EIn x values negated => leaf_loop (leaf b col_of x (fun v => negb (Bool.eqb (in_match v values) negated))) input
  | EBetween x lo hi negated => leaf_loop (leaf b col_of x (fun v => negb (Bool.eqb (between_vals lo hi v) negated))) input
  | ELike x pattern negated => leaf_loop (leaf b col_of x (fun v => negb (Bool.eqb (like_match (pval_display v) pattern) negated))) input
  | EColumn _ => leaf_loop (leaf b col_of e pval_truthy) input
  | ELiteral d => mret (mkTri (if truthy d then input else []) [])
  | _ => Ok None
  end.

Fixpoint shapes_supported (e : Expr) : bool :=
  match e with
  | EColumn _ | ELiteral _ => true
  | ECmp lhs _ rhs => shapes_supported lhs && shapes_supported rhs
  | EAnd x y | EOr x y => shapes_supported x && shapes_supported y
  | ENot x => shapes_supported x
  | EIn x _ _ | EBetween x _ _ _ | ELike x _ _ => shapes_supported x
  | _ => false
  end.

Definition filter_batch (b : ColumnBatch) (s : Schema) (selection : Expr) : RO ColumnBatch :=
  r ← eval_node b (index_of s) selection (sel b);
  mret (mkBatch (cols b) (tri_t r)).

End filters.

(** * Aggregates *)

(** [f64] addition and division (a NaN result is the quiet NaN). *)
Definition f64_add (a b : Z) : Z := f64_bits (SFadd 53 1024 (f64_value a) (f64_value b)).
Definition f64_div (a b : Z) : Z := f64_bits (SFdiv 53 1024 (f64_value a) (f64_value b)).

Inductive AggFold : Type :=
| FSum (ints floats : Z) (any_float : bool) (n : Z)
| FAvg (sum n : Z)
| FMin (best : option Datum)
| FMax (best : option Datum).

Definition fold_for (func : AggFunc) : AggFold :=
  match func with ASum => FSum 0 0 false 0 | AAvg => FAvg 0 0 | AMin => FMin None | AMax => FMax None end.

Definition type_mismatch {A} (got : bytes) : res A := Err (TypeMismatch (str "numeric") got).

(** [best.as_ref().map_or(true, |b| d < *b)], and [>]. *)
Definition take_min (best : option Datum) (d : Datum) : option Datum :=
  if match best with None => true | Some b => cmp_apply OpLt d b end then Some d else best.
Definition take_max (best : option Datum) (d : Datum) : option Datum :=
  if match best with None => true | Some b => cmp_apply OpGt d b end then Some d else best.

Definition add_int (v : Z) (f : AggFold) : res AggFold :=
  Ok match f with
     | FSum ints floats any_float n => FSum (wrap_i 128 (ints + v)) floats any_float (n + 1)
     | FAvg sum n => FAvg (f64_add sum (f64_of_i64 v)) (n + 1)
     | FMin best => FMin (take_min best (Int v))
     | FMax best => FMax (take_max best (Int v))
     end.

Definition add_float (v : Z) (f : AggFold) : res AggFold :=
  Ok match f with
     | FSum ints floats _ n => FSum ints (f64_add floats v) true (n + 1)
     | FAvg sum n => FAvg (f64_add sum v) (n + 1)
     | FMin best => FMin (take_min best (Float v))
     | FMax best => FMax (take_max best (Float v))
     end.

Definition add_other (name : bytes) (d : Datum) (f : AggFold) : res AggFold :=
  match f with
  | FSum _ _ _ _ | FAvg _ _ => type_mismatch name
  | FMin best => Ok (FMin (take_min best d))
  | FMax best => Ok (FMax (take_max best d))
  end.

(** [AggFold::finish], where the state and the function agree. *)
Definition finish (f : AggFold) : Datum :=
  match f with
  | FSum ints floats any_float n =>
    if n =? 0 then Null
    else if any_float then Float (f64_add floats (f64_of_i64 ints))
    else if (ints <=? i64_MAX) && (i64_MIN <=? ints) then Int ints
    else Float (f64_of_i64 ints)
  | FAvg sum n => if n =? 0 then Null else Float (f64_div sum (f64_of_i64 n))
  | FMin best | FMax best => default Null best
  end.

Definition fold_cell (b : ColumnBatch) (ci row : nat) (f : AggFold) : res AggFold :=
  c ← vec_at (cols b) ci;
  let live (null : list Z) (k : res AggFold) := n ← vec_at null row; if n =? 0 then k else mret f in
  match c with
  | ColI64 vals null => live null (v ← vec_at vals row; add_int v f)
  | ColF64 vals null => live null (v ← vec_at vals row; add_float v f)
  | ColBool vals null => live null (v ← vec_at vals row; add_other (str "BOOL") (Bool v) f)
  | ColStr data off null =>
    live null
      (s ← text_at data off row;
       match f with
       | FMin best => Ok (FMin (if match best with Some (Text b) => match lex s b with Lt => true | _ => false end | _ => true end
                                then Some (Text s) else best))
       | FMax best => Ok (FMax (if match best with Some (Text b) => match lex s b with Gt => true | _ => false end | _ => true end
                                then Some (Text s) else best))
       | _ => add_other (str "TEXT") (Text s) f
       end)
  | ColDateTime vals null => live null (v ← vec_at vals row; add_other (str "DATETIME") (DateTime v) f)
  end.

Fixpoint fold_rows (b : ColumnBatch) (ci : nat) (rows : list nat) (f : AggFold) : res AggFold :=
  match rows with [] => mret f | i :: rows => f ← fold_cell b ci i f; fold_rows b ci rows f end.

Definition fold_column (b : ColumnBatch) (ci : nat) (f : AggFold) : res AggFold := fold_rows b ci (sel b) f.

(** [compute_aggregate] of the scalar executor (db/query.rs). *)
Fixpoint sum_loop (idx : Z) (rows : list (list Datum)) (ints floats : Z) (any_float : bool) (n : Z) : res (Z * Z * bool * Z) :=
  match rows with
  | [] => mret (ints, floats, any_float, n)
  | r :: rows =>
    d ← row_at r idx;
    match d with
    | Null => sum_loop idx rows ints floats any_float n
    | Int v => sum_loop idx rows (wrap_i 128 (ints + v)) floats any_float (n + 1)
    | Float v => sum_loop idx rows ints (f64_add floats v) true (n + 1)
    | other => type_mismatch (type_name other)
    end
  end.

Fixpoint avg_loop (idx : Z) (rows : list (list Datum)) (sum n : Z) : res (Z * Z) :=
  match rows with
  | [] => mret (sum, n)
  | r :: rows =>
    d ← row_at r idx;
    match d with
    | Null => avg_loop idx rows sum n
    | Int v => avg_loop idx rows (f64_add sum (f64_of_i64 v)) (n + 1)
    | Float v => avg_loop idx rows (f64_add sum v) (n + 1)
    | other => type_mismatch (type_name other)
    end
  end.

Fixpoint best_loop (better : CmpOp) (idx : Z) (rows : list (list Datum)) (best : option Datum) : res (option Datum) :=
  match rows with
  | [] => mret best
  | r :: rows =>
    d ← row_at r idx;
    match d with
    | Null => best_loop better idx rows best
    | d => best_loop better idx rows (Some match best with None => d | Some b => if cmp_apply better d b then d else b end)
    end
  end.

Definition compute_aggregate (func : AggFunc) (idx : Z) (rows : list (list Datum)) : res Datum :=
  match func with
  | ASum =>
    (fun '(ints, floats, any_float, n) =>
       if n =? 0 then Null
       else if any_float : bool then Float (f64_add floats (f64_of_i64 ints))
       else if (ints <=? i64_MAX) && (i64_MIN <=? ints) then Int ints
       else Float (f64_of_i64 ints)) <$> sum_loop idx rows 0 0 false 0
  | AAvg => (fun '(sum, n) => if n =? 0 then Null else Float (f64_div sum (f64_of_i64 n))) <$> avg_loop idx rows 0 0
  | AMin => default Null <$> best_loop OpLt idx rows None
  | AMax => default Null <$> best_loop OpGt idx rows None
  end.

(** * The global aggregate runner *)

Inductive AggSpec : Type := SpCount | SpAgg (func : AggFunc) (idx : Z) | SpScalar (d : Datum).
Inductive Item : Type := ItCount (n : Z) | ItFold (col : Z) (fold : AggFold) | ItConst.

Definition item_for (spec : AggSpec) : Item :=
  match spec with SpCount => ItCount 0 | SpAgg func idx => ItFold idx (fold_for func) | SpScalar _ => ItConst end.

Definition item_step (b : ColumnBatch) (i : Item) : res Item :=
  match i with
  | ItCount n => Ok (ItCount (n + Zlen (sel b)))
  | ItFold col fold => ItFold col <$> fold_column b (Z.to_nat col) fold
  | ItConst => Ok ItConst
  end.

(** [for item in items.iter_mut()] *)
Fixpoint items_step (b : ColumnBatch) (items : list Item) : res (list Item) :=
  match items with [] => mret [] | i :: items => i ← item_step b i; items ← items_step b items; mret (i :: items) end.

Definition item_out (spec : AggSpec) (i : Item) : res Datum :=
  match spec, i with
  | SpCount, ItCount n => Ok (Int n)
  | SpAgg _ _, ItFold _ fold => Ok (finish fold)
  | SpScalar d, ItConst => Ok d
  | _, _ => Panic
  end.

Fixpoint items_out (specs : list AggSpec) (items : list Item) : res (list Datum) :=
  match specs, items with
  | spec :: specs, i :: items => d ← item_out spec i; l ← items_out specs items; mret (d :: l)
  | _, _ => mret []
  end.

Section runner.
Context (f64_show : Z -> bytes).

Section scan.
(** What the caller does with the rows a morsel selects. *)
Context {A : Type} (step : ColumnBatch -> A -> res A).

(** Filter the finished batch and hand it to the caller. *)
Definition on_morsel (s : Schema) (selection : option Expr) (b : ColumnBatch) (items : A) : RO A :=
  b ← match selection with Some e => filter_batch f64_show b s e | None => mret b end : RO ColumnBatch;
  ro_lift (step b items).

(** [scan_batch_morsels] over rows already resolved (snapshot or staged
    writes): morsels of [MORSEL] rows, one list of rows each. *)
Fixpoint morsels {B} (fuel : nat) (rows : list B) : list (list B) :=
  match fuel, rows with
  | S fuel, _ :: _ => take (Z.to_nat MORSEL) rows :: morsels fuel (drop (Z.to_nat MORSEL) rows)
  | _, _ => []
  end.

Fixpoint scan_rows (s : Schema) (selection : option Expr) (need : list bool) (b : ColumnBatch)
    (chunks : list (list (list Datum))) (items : A) : RO A :=
  match chunks with
  | [] => mret items
  | chunk :: chunks =>
    match push_rows (prepare_morsel s b) chunk need with
    | None => Ok None
    | Some b =>
      let b := finish_morsel need (Zlen chunk) b in
      items ← on_morsel s selection b items; scan_rows s selection need b chunks items
    end
  end.

(** The raw leaf scan: rows are pushed as they are read, and a full morsel is
    handed over on the way ([row_count == MORSEL]). *)
Fixpoint scan_raw (s : Schema) (selection : option Expr) (need : list bool) (b : ColumnBatch) (row_count : Z)
    (raws : list bytes) (items : A) : RO A :=
  match raws with
  | [] => if 0 <? row_count then on_morsel s selection (finish_morsel need row_count b) items else mret items
  | raw :: raws =>
    match push_raw_row b raw need with
    | None => Ok None
    | Some b =>
      let row_count := row_count + 1 in
      if row_count =? MORSEL then
        items ← on_morsel s selection (finish_morsel need row_count b) items;
        scan_raw s selection need (prepare_morsel s b) 0 raws items
      else scan_raw s selection need b row_count raws items
    end
  end.

End scan.

Definition agg_columns (aggs : list AggSpec) : list Z :=
  omap (fun spec => match spec with SpAgg _ idx => Some idx | _ => None end) aggs.

(** [try_global_agg] on the two sources of rows; [Ok None] declines. *)
Definition agg_over_rows (s : Schema) (selection : option Expr) (aggs : list AggSpec) (rows : list (list Datum)) : RO (list Datum) :=
  items ← scan_rows items_step s selection (need_mask s selection (agg_columns aggs)) batch_new (morsels (length rows) rows) (item_for <$> aggs) : RO (list Item);
  ro_lift (items_out aggs items).

Definition agg_over_raw (s : Schema) (selection : option Expr) (aggs : list AggSpec) (raws : list bytes) : RO (list Datum) :=
  items ← scan_raw items_step s selection (need_mask s selection (agg_columns aggs)) (prepare_morsel s batch_new) 0 raws (item_for <$> aggs) : RO (list Item);
  ro_lift (items_out aggs items).

(** ** The scalar executor *)

(** The final loop of [visible_rows] (db/mod.rs): a row with an unknown column
    is dropped, any other error ends the query. *)
Fixpoint filter_rows (debug : Expr -> bytes) (s : Schema) (e : Expr) (rows : list (list Datum)) : res (list (list Datum)) :=
  match rows with
  | [] => mret []
  | r :: rows =>
    match eval_expr f64_show debug s r e with
    | Ok true => out ← filter_rows debug s e rows; mret (r :: out)
    | Ok false | Err (ColumnNotFound _) => filter_rows debug s e rows
    | Err e => Err e
    | Panic => Panic
    end
  end.

Definition select_rows (debug : Expr -> bytes) (s : Schema) (selection : option Expr) (rows : list (list Datum)) : res (list (list Datum)) :=
  match selection with Some e => filter_rows debug s e rows | None => mret rows end.

(** [exec_aggregate_rows] (db/query.rs), without the column names. *)
Fixpoint exec_aggregate_rows (aggs : list AggSpec) (rows : list (list Datum)) : res (list Datum) :=
  match aggs with
  | [] => mret []
  | spec :: aggs =>
    d ← match spec with
        | SpCount => Ok (Int (Zlen rows))
        | SpAgg func idx => compute_aggregate func idx rows
        | SpScalar d => Ok d
        end;
    l ← exec_aggregate_rows aggs rows; mret (d :: l)
  end.

End runner.
