(* ===== verification/BatchSpec.v ===== *)
(** Parity of batch and row-at-a-time execution: what db/batch.rs promises. *)
From stdpp Require Import base list strings sorting.
From Stdlib Require Import ZArith Lia SpecFloat.
From S2P Require Import Prelude Machine Utf8 Float Types DateTime TableDef Table TableSpec Expr Batch.

(** * Selection vectors *)

Abbreviation ascending := (StronglySorted lt).

Lemma ascending_ext a b : ascending a -> ascending b -> (forall x, x ∈ a <-> x ∈ b) -> a = b.
Proof.
  intros Ha Hb H. apply (StronglySorted_unique_strong lt); [|done|done|].
  - intros x y _ _ Hxy Hyx. lia.
  - apply NoDup_Permutation; [by apply (sorted_nodup lt)..|done].
Qed.

Lemma subtract_sorted_spec a b : ascending a -> ascending b ->
  ascending (subtract_sorted a b) /\ forall x, x ∈ subtract_sorted a b <-> x ∈ a /\ x ∉ b.
Proof.
  intros Ha. revert b. induction Ha as [|x a Ha IH Hx]; intros b Hb; cbn [subtract_sorted].
  { split; [constructor|]. intros x. rewrite elem_of_nil. tauto. }
  rewrite Forall_forall in Hx. induction Hb as [|y b Hb IHb Hy].
  - destruct (IH [] ltac:(constructor)) as [H1 H2]. split.
    + constructor; [done|]. apply Forall_forall. intros z [Hz _]%H2. by apply Hx.
    + intros z. rewrite !elem_of_cons, H2, elem_of_nil. tauto.
  - rewrite Forall_forall in Hy. destruct (Nat.ltb_spec y x) as [Hyx|Hyx].
    + destruct IHb as [H1 H2]. split; [done|]. intros z. rewrite H2, !elem_of_cons. split; [|tauto].
      intros [[->|Hz] Hn]; (split; [tauto|]); intros [->|?]; try tauto; [lia|]. specialize (Hx _ Hz). lia.
    + destruct (Nat.eqb_spec y x) as [->|Hne].
      * destruct (IH b Hb) as [H1 H2]. split; [done|]. intros z. rewrite H2, !elem_of_cons. split.
        -- intros [Hz Hn]. split; [by right|]. intros [->|?]; [|done]. specialize (Hx _ Hz). lia.
        -- intros [[->|Hz] Hn]; [tauto|]. tauto.
      * destruct (IH (y :: b)) as [H1 H2]; [by constructor; [|apply Forall_forall]|]. split.
        -- constructor; [done|]. apply Forall_forall. intros z [Hz _]%H2. by apply Hx.
        -- intros z. rewrite !elem_of_cons, H2, elem_of_cons. split; [|tauto]. intros [->|?]; [|tauto].
           split; [by left|]. intros [->|Hz]; [done|]. specialize (Hy _ Hz). lia.
Qed.

Lemma union_sorted_spec a b : ascending a -> ascending b ->
  ascending (union_sorted a b) /\ forall x, x ∈ union_sorted a b <-> x ∈ a \/ x ∈ b.
Proof.
  intros Ha. revert b. induction Ha as [|x a Ha IH Hx]; intros b Hb; cbn [union_sorted].
  { split; [done|]. intros x. rewrite elem_of_nil. tauto. }
  rewrite Forall_forall in Hx. induction Hb as [|y b Hb IHb Hy].
  - split; [by constructor; [|apply Forall_forall]|]. intros z. rewrite elem_of_nil. tauto.
  - rewrite Forall_forall in Hy. destruct (Nat.ltb_spec x y) as [Hxy|Hxy]; [|destruct (Nat.ltb_spec y x) as [Hyx|Hyx]].
    + destruct (IH (y :: b)) as [H1 H2]; [by constructor; [|apply Forall_forall]|]. split.
      * constructor; [done|]. apply Forall_forall. intros z [?|[->|Hz]%elem_of_cons]%H2; [by apply Hx|done|].
        specialize (Hy _ Hz). lia.
      * intros z. rewrite !elem_of_cons, H2, elem_of_cons. tauto.
    + destruct IHb as [H1 H2]. split.
      * constructor; [done|]. apply Forall_forall. intros z [[->|Hz]%elem_of_cons|?]%H2; [done| |by apply Hy].
        specialize (Hx _ Hz). lia.
      * intros z. rewrite elem_of_cons, H2, !elem_of_cons. tauto.
    + assert (x = y) as <- by lia. destruct (IH b Hb) as [H1 H2]. split.
      * constructor; [done|]. apply Forall_forall. intros z [?|?]%H2; [by apply Hx|by apply Hy].
      * intros z. rewrite !elem_of_cons, H2. tauto.
Qed.

Lemma ascending_filter f l : ascending l -> ascending (List.filter f l).
Proof. apply sorted_filter. Qed.

Lemma elem_of_filter_b {A} (f : A -> bool) l x : x ∈ List.filter f l <-> f x = true /\ x ∈ l.
Proof. rewrite !list_elem_of_In, filter_In. tauto. Qed.

Lemma subtract_filter f g l : ascending l ->
  subtract_sorted (List.filter f l) (List.filter g l) = List.filter (fun x => f x && negb (g x)) l.
Proof.
  intros Hl. destruct (subtract_sorted_spec (List.filter f l) (List.filter g l)) as [H1 H2]; [by apply ascending_filter..|].
  apply ascending_ext; [done|by apply ascending_filter|]. intros x. rewrite H2, !elem_of_filter_b, andb_true_iff, negb_true_iff.
  destruct (g x); intuition congruence.
Qed.

Lemma union_filter f g l : ascending l ->
  union_sorted (List.filter f l) (List.filter g l) = List.filter (fun x => f x || g x) l.
Proof.
  intros Hl. destruct (union_sorted_spec (List.filter f l) (List.filter g l)) as [H1 H2]; [by apply ascending_filter..|].
  apply ascending_ext; [done|by apply ascending_filter|]. intros x. rewrite H2, !elem_of_filter_b, orb_true_iff. tauto.
Qed.

Lemma filter_filter_b {A} (f g : A -> bool) l : List.filter g (List.filter f l) = List.filter (fun x => f x && g x) l.
Proof. induction l as [|x l IH]; [done|]. cbn. destruct (f x) eqn:E; cbn; [destruct (g x); by rewrite IH|done]. Qed.

Lemma filter_ext_b {A} (f g : A -> bool) l : (forall x, x ∈ l -> f x = g x) -> List.filter f l = List.filter g l.
Proof. intros H. apply filter_ext_in. intros x Hx. apply H. by apply list_elem_of_In. Qed.

(** * Operands and comparisons *)

Definition nan_free (d : Datum) : Prop := match d with Float f => f64_is_nan f = false | _ => True end.

Definition of_pval (v : PVal) : Datum :=
  match v with PNull => Null | PI v => Int v | PF v => Float v | PB v => Bool v | PS s => Text s | PD v => DateTime v end.

Lemma lit_of_pval v : lit_val (of_pval v) = v.
Proof. by destruct v. Qed.

Lemma coerce_vals_spec a b : coerce_vals (lit_val a) (lit_val b) = (lit_val (coerce_pair a b).1, lit_val (coerce_pair a b).2).
Proof. destruct a, b; cbn; try done; by destruct (parse_datetime_str _). Qed.

(** [cmp_pvals] compares as [Ord] does after the coercions. *)
Lemma cmp_pvals_spec a b : cmp_pvals (lit_val a) (lit_val b) = cmp (coerce_pair a b).1 (coerce_pair a b).2.
Proof. destruct a, b; cbn; try done; by destruct (parse_datetime_str _). Qed.

Lemma cmp_eqb_float a b : f64_is_nan a = false -> f64_is_nan b = false ->
  f64_eqb a b = match f64_cmp_or_eq a b with Eq => true | _ => false end.
Proof.
  intros Ha Hb. destruct (f64_cmp_some a b Ha Hb) as [c Hc]. unfold f64_eqb, f64_cmp_or_eq. by rewrite Hc.
Qed.

(** Without NaN, equality is what comparing as equal is. *)
Lemma datum_eqb_cmp a b : nan_free a -> nan_free b -> (a <> Null \/ b <> Null) ->
  let '(x, y) := coerce_pair a b in datum_eqb x y = match cmp x y with Eq => true | _ => false end.
Proof.
  assert (Hi : forall x, f64_is_nan (f64_of_i64 x) = false) by apply f64_of_i64_not_nan.
  assert (Hb : forall x : bool, f64_is_nan (f64_of_bool x) = false) by by intros [].
  assert (Hz : forall x y, (x =? y) = match x ?= y with Eq => true | _ => false end) by (intros; by rewrite Z.eqb_compare; destruct (x ?= y)).
  assert (Hl : forall x y : bytes, bool_decide (x = y) = match lex x y with Eq => true | _ => false end).
  { intros x y. case_bool_decide as H; [subst; by rewrite lex_refl|]. destruct (lex x y) eqn:E; [by apply lex_eq in E|done..]. }
  destruct a, b; cbn -[f64_of_i64 f64_cmp_or_eq f64_eqb]; intros Ha Hb' Hn; try done; try tauto;
    try (destruct (parse_datetime_str _)); cbn -[f64_of_i64 f64_cmp_or_eq f64_eqb]; auto using cmp_eqb_float.
  repeat match goal with b : bool |- _ => destruct b end; done.
Qed.

Lemma apply_cmp_spec op a b : nan_free a -> nan_free b -> (a <> Null \/ b <> Null) ->
  apply_cmp op (cmp_pvals (lit_val a) (lit_val b)) = cmp_apply op (coerce_pair a b).1 (coerce_pair a b).2.
Proof.
  intros Ha Hb Hn. rewrite cmp_pvals_spec. pose proof (datum_eqb_cmp a b Ha Hb Hn) as He.
  destruct (coerce_pair a b) as [x y]. cbn [fst snd]. destruct op; cbn [cmp_apply]; rewrite ?He; by destruct (cmp x y).
Qed.

Lemma existsb_ext_b {A} (f g : A -> bool) l : (forall x, f x = g x) -> existsb f l = existsb g l.
Proof. intros H. induction l as [|x l IH]; [done|]. cbn. by rewrite H, IH. Qed.

Lemma in_match_spec d values : in_match (lit_val d) values = negb (is_null d) && in_hit d values.
Proof.
  destruct d; [done|..]; cbn [lit_val in_match is_null negb andb]; unfold in_hit; apply existsb_ext_b; intros w.
  all: destruct w; try done; cbn; try (destruct (parse_datetime_str _)); done.
Qed.

#[local] Opaque f64_of_i64 f64_cmp_or_eq f64_eqb parse_datetime_str.

(** The bounds are of one type class, or NULL. *)
Definition bounds_alike (lo hi : Datum) : Prop := type_rank lo = type_rank hi \/ lo = Null \/ hi = Null.

(** Values that a further coercion leaves alone, up to the order. *)
Definition settled (x y : Datum) : Prop :=
  match x, y with
  | Bool _, (Int _ | Float _) | (Int _ | Float _), Bool _ => False
  | DateTime _, Text s | Text s, DateTime _ => parse_datetime_str s = None
  | _, _ => True
  end.

Lemma settled_cmp x y : settled x y -> cmp_pvals (lit_val x) (lit_val y) = cmp x y.
Proof.
  intros H. rewrite cmp_pvals_spec. unfold coerce_pair, settled in *.
  destruct x as [| | |s| |], y as [| | |r| |]; try reflexivity; try (by destruct H); by rewrite H.
Qed.

(** Both comparisons of BETWEEN see settled values. *)
Lemma coerced_settled d lo hi :
  bounds_alike lo hi ->
  let '(t1, l) := coerce_pair d lo in let '(t2, h) := coerce_pair t1 hi in settled t2 l /\ settled t2 h.
Proof.
  unfold bounds_alike. intros Hb. destruct d as [| | |s| |], lo as [| | |r| |], hi as [| | |q| |];
    try (exfalso; destruct Hb as [Hb|[Hb|Hb]]; discriminate Hb); clear Hb; unfold coerce_pair.
  all: cbn beta iota; repeat (match goal with |- context [parse_datetime_str ?x] => destruct (parse_datetime_str x) eqn:? end; cbn beta iota).
  all: split; cbn [settled]; first [exact I|assumption].
Qed.

Lemma between_vals_spec lo hi d : bounds_alike lo hi -> d <> Null -> between_vals lo hi (lit_val d) = between_hit d lo hi.
Proof.
  intros Hb Hd. pose proof (coerced_settled d lo hi Hb) as H. unfold between_vals, between_hit. rewrite coerce_vals_spec.
  destruct (coerce_pair d lo) as [t1 l]. cbn [fst snd]. rewrite coerce_vals_spec. destruct (coerce_pair t1 hi) as [t2 h].
  cbn [fst snd]. destruct H as [H1 H2]. rewrite !settled_cmp by done. cbn [cmp_apply]. by destruct (cmp t2 l), (cmp t2 h).
Qed.

Lemma pval_truthy_spec d : pval_truthy (lit_val d) = truthy d.
Proof. by destruct d. Qed.

Lemma pval_display_spec f64_show d : pval_display f64_show (lit_val d) = datum_to_string f64_show d.
Proof. by destruct d. Qed.

(** * Columns hold rows *)

Definition nulls (ds : list Datum) : list Z := (fun d => match d with Null => 1 | _ => 0 end) <$> ds.
Definition text_of (d : Datum) : bytes := match d with Text s => s | _ => [] end.
Definition texts (ds : list Datum) : list bytes := text_of <$> ds.

(** The delimiters of a packed text column. *)
Definition offsets (ts : list bytes) : list Z := (fun i => Zlen (mjoin (take i ts))) <$> seq 0 (S (length ts)).

Definition col_holds (c : Column) (ds : list Datum) : Prop :=
  match c with
  | ColI64 vals null => vals = (fun d => match d with Int v => v | _ => 0 end) <$> ds /\ null = nulls ds /\
      Forall (fun d => match d with Null | Int _ => True | _ => False end) ds
  | ColF64 vals null => vals = (fun d => match d with Float v => v | _ => 0 end) <$> ds /\ null = nulls ds /\
      Forall (fun d => match d with Null | Float _ => True | _ => False end) ds
  | ColBool vals null => vals = (fun d => match d with Bool v => v | _ => false end) <$> ds /\ null = nulls ds /\
      Forall (fun d => match d with Null | Bool _ => True | _ => False end) ds
  | ColStr data off null => data = mjoin (texts ds) /\ (off = offsets (texts ds) \/ (off = [] /\ ds = [])) /\ null = nulls ds /\
      Forall (fun d => match d with Null => True | Text s => utf8_valid s = true | _ => False end) ds
  | ColDateTime vals null => vals = (fun d => match d with DateTime v => v | _ => 0 end) <$> ds /\ null = nulls ds /\
      Forall (fun d => match d with Null | DateTime _ => True | _ => False end) ds
  end.

Lemma offsets_snoc ts s : offsets (ts ++ [s]) = offsets ts ++ [Zlen (mjoin ts ++ s)].
Proof.
  unfold offsets. rewrite length_app. cbn [length]. rewrite Nat.add_1_r, (seq_S (S (length ts))), fmap_app. f_equal.
  - apply list_fmap_ext. intros i x [-> Hx]%lookup_seq. rewrite Nat.add_0_l, take_app_le by lia. done.
  - cbn. rewrite take_ge by (rewrite length_app; cbn; lia). by rewrite join_app; cbn; rewrite app_nil_r.
Qed.

Lemma first_offsets off ds : off = offsets (texts ds) \/ (off = [] /\ ds = []) -> first_off off = offsets (texts ds).
Proof. intros [->|[-> ->]]; [|done]. unfold offsets. by destruct (texts ds). Qed.

Lemma nulls_app a b : nulls (a ++ b) = nulls a ++ nulls b.
Proof. apply fmap_app. Qed.

Lemma texts_app a b : texts (a ++ b) = texts a ++ texts b.
Proof. apply fmap_app. Qed.

Ltac split_holds := rewrite ?fmap_app, ?nulls_app, ?Forall_app, ?Forall_singleton; split_and!; try done.

Lemma push_null_holds c ds : col_holds c ds -> col_holds (push_null c) (ds ++ [Null]).
Proof.
  destruct c as [v n|v n|v n|data off n|v n]; cbn [push_null col_holds].
  1,2,3,5: intros (-> & -> & H); split_holds.
  intros (-> & Ho & -> & H). rewrite texts_app, join_app. cbn [texts fmap list_fmap text_of mjoin list_join].
  rewrite !app_nil_r. split_holds. left. rewrite offsets_snoc, (first_offsets _ ds), app_nil_r by done. done.
Qed.

Lemma push_datum_holds c ds d c' : datum_wf d -> col_holds c ds -> push_datum c d = Some c' -> col_holds c' (ds ++ [d]).
Proof.
  intros Hd H. destruct d as [|v|v|s|v|v].
  { intros Hp. assert (c' = push_null c) as -> by (destruct c; by injection Hp as <-). by apply push_null_holds. }
  all: destruct c as [w n|w n|w n|data off n|w n]; cbn [push_datum]; intros [= <-]; unfold push_text; cbn [col_holds] in *.
  1,2,4,5: destruct H as (-> & -> & H); split_holds.
  destruct H as (-> & Ho & -> & H). rewrite texts_app, join_app. cbn [texts fmap list_fmap text_of mjoin list_join].
  rewrite !app_nil_r. split_holds; [|apply Hd]. left. rewrite offsets_snoc, (first_offsets _ ds) by done. done.
Qed.

Lemma vec_at_some {A} (l : list A) i x : l !! i = Some x -> vec_at l i = Ok x.
Proof. unfold vec_at. by intros ->. Qed.

Lemma offsets_lookup ts i : (i <= length ts)%nat -> offsets ts !! i = Some (Zlen (mjoin (take i ts))).
Proof. intros Hi. unfold offsets. rewrite list_lookup_fmap. rewrite lookup_seq_lt; [done|lia]. Qed.

Lemma join_take_S (ts : list bytes) i s : ts !! i = Some s ->
  mjoin (take (S i) ts) = mjoin (take i ts) ++ s /\ drop (length (mjoin (take i ts))) (mjoin ts) = s ++ mjoin (drop (S i) ts).
Proof.
  intros Hi. split.
  - erewrite take_S_r by done. by rewrite join_app; cbn; rewrite app_nil_r.
  - rewrite <- (take_drop i ts) at 2. rewrite join_app, drop_app_length. erewrite drop_S by done. done.
Qed.

Lemma text_at_ok ts i s : ts !! i = Some s -> utf8_valid s = true -> text_at (mjoin ts) (offsets ts) i = Ok s.
Proof.
  intros Hi Hs. pose proof (lookup_lt_Some _ _ _ Hi) as Hlt. destruct (join_take_S ts i s Hi) as [H1 H2]. unfold text_at.
  rewrite (vec_at_some _ _ _ (offsets_lookup ts i ltac:(lia))), (vec_at_some _ _ _ (offsets_lookup ts (S i) ltac:(lia))). cbn [mbind res_bind]. rewrite H1, length_app.
  assert (length (mjoin ts) = (length (mjoin (take i ts)) + length s + length (mjoin (drop (S i) ts)))%nat) as Hlen.
  { rewrite <- (take_drop (S i) ts) at 1. rewrite join_app, length_app, H1, length_app. done. }
  rewrite (proj2 (Z.ltb_ge _ _)), (proj2 (Z.ltb_ge _ _)) by lia. cbn [orb].
  rewrite Nat2Z.id, H2. replace (Z.to_nat _) with (length s) by lia. by rewrite take_app_length, Hs.
Qed.

Lemma nulls_at ds i d : ds !! i = Some d -> vec_at (nulls ds) i = Ok (match d with Null => 1 | _ => 0 end).
Proof. intros H. apply vec_at_some. unfold nulls. by rewrite list_lookup_fmap, H. Qed.

Lemma fmap_at {A} (f : Datum -> A) ds i d : ds !! i = Some d -> vec_at (f <$> ds) i = Ok (f d).
Proof. intros H. apply vec_at_some. by rewrite list_lookup_fmap, H. Qed.

(** Reading a cell gives the value the column holds. *)
Definition cell_of (c : Column) (row : nat) : res PVal :=
  match c with
  | ColI64 vals null => cell_with null row (vec_at vals row) PI
  | ColF64 vals null => cell_with null row (vec_at vals row) PF
  | ColBool vals null => cell_with null row (vec_at vals row) PB
  | ColStr data off null => cell_with null row (text_at data off row) PS
  | ColDateTime vals null => cell_with null row (vec_at vals row) PD
  end.

Lemma cell_of_ok c ds i d : col_holds c ds -> ds !! i = Some d -> cell_of c i = Ok (lit_val d).
Proof.
  intros Hc Hd. destruct c as [w n|w n|w n|data off n|w n]; cbn [cell_of col_holds] in *.
  1,2,3,5: destruct Hc as (-> & -> & Hc); unfold cell_with; rewrite (nulls_at _ _ _ Hd), (fmap_at _ _ _ _ Hd);
    pose proof (Forall_lookup_1 _ _ _ _ Hc Hd); by destruct d.
  destruct Hc as (-> & Ho & -> & Hc). unfold cell_with. rewrite (nulls_at _ _ _ Hd).
  pose proof (Forall_lookup_1 _ _ _ _ Hc Hd) as Hx. destruct d as [| | |s| |]; try done. cbn [mbind res_bind Z.eqb negb].
  destruct Ho as [->|[_ ->]]; [|done]. rewrite (text_at_ok (texts ds) i s); [done| |done].
  unfold texts. by rewrite list_lookup_fmap, Hd.
Qed.

Abbreviation Row := (list Datum).

Definition column (ci : nat) (rows : list Row) : list Datum := (fun r => default Null (r !! ci)) <$> rows.

Definition cols_hold (cs : list Column) (need : list bool) (rows : list Row) (from : nat) : Prop :=
  forall ci c, cs !! ci = Some c -> needs need (from + ci) = true -> col_holds c (column (from + ci) rows).

Definition row_ok (s : Schema) (r : Row) : Prop := length r = length (columns s) /\ Forall datum_wf r.

Definition batch_holds (s : Schema) (need : list bool) (b : ColumnBatch) (rows : list Row) : Prop :=
  kind_of <$> cols b = col_kind ∘ col_ctype <$> columns s /\ cols_hold (cols b) need rows 0.

Lemma holds_length s need b rows : batch_holds s need b rows -> length (cols b) = length (columns s).
Proof. intros [H _]. apply (f_equal length) in H. by rewrite !length_fmap in H. Qed.

Lemma push_null_kind c : kind_of (push_null c) = kind_of c.
Proof. by destruct c. Qed.

Lemma push_datum_kind c d c' : push_datum c d = Some c' -> kind_of c' = kind_of c.
Proof. destruct c, d; cbn; intros [= <-]; done. Qed.

Lemma push_datums_kind r need cs : forall from cs', push_datums r need from cs = Some cs' -> kind_of <$> cs' = kind_of <$> cs.
Proof.
  induction cs as [|c cs IH]; intros from cs'; cbn [push_datums]; [by intros [= <-]|].
  destruct (if needs need from then _ else _) as [c1|] eqn:Ec; cbn; [|done].
  destruct (push_datums r need (S from) cs) as [cs1|] eqn:Es; cbn; [|done]. intros [= <-]. cbn. f_equal; [|by eapply IH].
  destruct (needs need from); [|congruence]. destruct (r !! from); cbn in Ec; [|done]. by eapply push_datum_kind.
Qed.

Lemma column_snoc ci rows r : column ci (rows ++ [r]) = column ci rows ++ [default Null (r !! ci)].
Proof. unfold column. by rewrite fmap_app. Qed.

Lemma push_datums_holds r need cs : forall from rows cs',
  Forall datum_wf r -> (from + length cs <= length r)%nat -> cols_hold cs need rows from ->
  push_datums r need from cs = Some cs' -> length cs' = length cs /\ cols_hold cs' need (rows ++ [r]) from.
Proof.
  induction cs as [|c cs IH]; intros from rows cs' Hr Hl Hh; cbn [push_datums]; [by intros [= <-]|].
  cbn [length] in Hl. assert (Hh' : cols_hold cs need rows (S from)).
  { intros ci c' Hc Hn. rewrite Nat.add_succ_comm in *. by apply (Hh (S ci)). }
  destruct (needs need from) eqn:En.
  - destruct (r !! from) as [d|] eqn:Ed; cbn; [|done]. destruct (push_datum c d) as [c1|] eqn:Ep; cbn; [|done].
    destruct (push_datums r need (S from) cs) as [cs1|] eqn:Es; cbn; [|done]. intros [= <-].
    destruct (IH (S from) rows cs1) as [H1 H2]; [done|lia|done|done|]. split; [cbn; by rewrite H1|].
    intros [|ci] c' Hc Hn; cbn in Hc.
    + injection Hc as <-. rewrite Nat.add_0_r in *. rewrite column_snoc, Ed. cbn. apply (push_datum_holds c _ d); [|by specialize (Hh 0%nat c eq_refl); rewrite Nat.add_0_r in Hh; apply Hh|done].
      by eapply Forall_lookup_1.
    + rewrite <- Nat.add_succ_comm in *. by apply H2.
  - cbn. destruct (push_datums r need (S from) cs) as [cs1|] eqn:Es; cbn; [|done]. intros [= <-].
    destruct (IH (S from) rows cs1) as [H1 H2]; [done|lia|done|done|]. split; [cbn; by rewrite H1|].
    intros [|ci] c' Hc Hn; cbn in Hc; [rewrite Nat.add_0_r in Hn; congruence|].
    rewrite <- Nat.add_succ_comm in *. by apply H2.
Qed.

Lemma push_datum_row_holds s need b rows r b' :
  row_ok s r -> batch_holds s need b rows -> push_datum_row b r need = Some b' -> batch_holds s need b' (rows ++ [r]).
Proof.
  intros [Hl Hr] Hbh. pose proof (holds_length _ _ _ _ Hbh) as Hlb. destruct Hbh as [Hb Hh].
  unfold push_datum_row. destruct (push_datums r need 0 (cols b)) as [cs|] eqn:E; cbn; [|done].
  intros [= <-]. destruct (push_datums_holds r need (cols b) 0 rows cs) as [H1 H2]; [done|lia|done|done|].
  split; [|done]. cbn. by rewrite (push_datums_kind _ _ _ _ _ E).
Qed.

Lemma push_rows_holds s need rows' : forall b rows b',
  Forall (row_ok s) rows' -> batch_holds s need b rows -> push_rows b rows' need = Some b' -> batch_holds s need b' (rows ++ rows').
Proof.
  induction rows' as [|r rows' IH]; intros b rows b' Hr Hb; cbn [push_rows].
  - intros [= <-]. by rewrite app_nil_r.
  - apply Forall_cons in Hr as [Hr Hrs]. destruct (push_datum_row b r need) as [b1|] eqn:E; cbn; [|done]. intros Hp.
    replace (rows ++ r :: rows') with ((rows ++ [r]) ++ rows') by by rewrite <- app_assoc. eapply (IH b1); [done| |done].
    by eapply push_datum_row_holds.
Qed.

Lemma prepare_holds s need b : batch_holds s need (prepare_morsel s b) [].
Proof.
  unfold prepare_morsel, batch_clear. split.
  - cbn. rewrite <- list_fmap_compose. rewrite (list_fmap_ext (kind_of ∘ col_clear) kind_of) by (by intros ? [] ?). destruct (shaped b s) eqn:E; cbn.
    + unfold shaped in E. apply andb_true_iff in E as [E1%Nat.eqb_eq E2]. revert E1 E2. generalize (cols b). induction (columns s) as [|c cs IH];
        intros [|x l]; cbn; try done. intros [= E1] [E2%Z.eqb_eq E3]%andb_true_iff. rewrite E2. f_equal. by apply IH.
    + rewrite <- list_fmap_compose. apply list_fmap_ext. intros ? c ?. unfold new_column. cbn. by destruct (col_ctype c).
  - intros ci c Hc _. cbn in Hc. rewrite list_lookup_fmap in Hc. destruct (cols _ !! ci) as [c'|]; [|done].
    injection Hc as <-. destruct c'; cbn; split_and!; auto.
Qed.

Lemma finish_holds s need n b rows : batch_holds s need b rows -> batch_holds s need (finish_morsel need n b) rows.
Proof.
  intros [Hl Hh]. split.
  { cbn. rewrite <- Hl. apply list_eq. intros ci. rewrite !list_lookup_fmap, list_lookup_imap. destruct (cols b !! ci) as [c|]; [|done]. cbn.
    destruct (needs need ci); [|done]. by destruct c. }
  intros ci c Hc Hn. cbn in Hc. rewrite list_lookup_imap in Hc.
  destruct (cols b !! ci) as [c'|] eqn:E; [|done]. cbn in Hc, Hn. rewrite Hn in Hc. injection Hc as <-.
  specialize (Hh ci c' E Hn). destruct c'; try done. destruct Hh as (H1 & H2 & H3 & H4). split_and!; try done.
  left. by apply first_offsets.
Qed.

Lemma finish_sel need n b : 0 <= n < 2 ^ 16 -> sel (finish_morsel need n b) = seq 0 (Z.to_nat n).
Proof. intros H. cbn. by rewrite wrap_u_id. Qed.

(** * Filters *)

Section filter_parity.
Context (f64_show : Z -> bytes) (debug : Expr -> bytes).

(** Literals without NaN, and BETWEEN bounds of one class. *)
Fixpoint expr_ok (e : Expr) : Prop :=
  match e with
  | ELiteral d => nan_free d
  | ECmp lhs _ rhs => expr_ok lhs /\ expr_ok rhs
  | EAnd a b | EOr a b => expr_ok a /\ expr_ok b
  | ENot e | EIn e _ _ | ELike e _ _ => expr_ok e
  | EBetween e lo hi _ => expr_ok e /\ bounds_alike lo hi
  | _ => True
  end.

Context (s : Schema) (need : list bool) (b : ColumnBatch) (rows : list Row).
Context (Hb : batch_holds s need b rows) (Hrows : Forall (row_ok s) rows) (Hnan : Forall (Forall nan_free) rows).

Definition row_i (i : nat) : Row := default [] (rows !! i).
Abbreviation ev e i := (eval_expr f64_show debug s (row_i i) e).
Definition passes (e : Expr) (i : nat) : bool := match ev e i with Ok true => true | _ => false end.
Definition unknown (e : Expr) (i : nat) : bool := match ev e i with Err (ColumnNotFound _) => true | _ => false end.
Definition fine (e : Expr) (i : nat) : bool := match ev e i with Ok _ | Err (ColumnNotFound _) => true | _ => false end.

(** The columns of [e] were decoded. *)
Definition decoded (e : Expr) : Prop :=
  Forall (fun name => match index_of s name with Some ci => needs need (Z.to_nat ci) = true | None => True end) (collect_columns e).

Lemma position_bound {A} (f : A -> bool) l i j : position f l i = Some j -> i <= j < i + Zlen l.
Proof.
  revert i. induction l as [|x l IH]; intros i; cbn; [done|]. destruct (f x); [intros [= ->]; lia|]. intros Hj%IH. lia.
Qed.

Lemma index_of_bound name ci : index_of s name = Some ci -> (Z.to_nat ci < length (columns s))%nat.
Proof. unfold index_of. intros H%position_bound. lia. Qed.

Lemma row_value i ci : (i < length rows)%nat -> (ci < length (columns s))%nat ->
  exists d, row_i i !! ci = Some d /\ datum_wf d /\ nan_free d /\ column ci rows !! i = Some d.
Proof.
  intros Hi Hc. destruct (lookup_lt_is_Some_2 rows i Hi) as [r Hr]. unfold row_i. rewrite Hr. cbn.
  destruct (Forall_lookup_1 _ _ _ _ Hrows Hr) as [Hl Hw]. pose proof (Forall_lookup_1 _ _ _ _ Hnan Hr) as Hn.
  destruct (lookup_lt_is_Some_2 r ci ltac:(lia)) as [d Hd]. exists d. split_and!; [done| | |].
  - by eapply Forall_lookup_1.
  - by eapply (Forall_lookup_1 nan_free).
  - unfold column. rewrite list_lookup_fmap, Hr. cbn. by rewrite Hd.
Qed.

Lemma cell_ok i ci : (i < length rows)%nat -> (ci < length (columns s))%nat -> needs need ci = true ->
  exists d, row_i i !! ci = Some d /\ datum_wf d /\ nan_free d /\ cell b ci i = Ok (lit_val d).
Proof.
  intros Hi Hc Hn. destruct (row_value i ci Hi Hc) as (d & Hd & Hw & Hf & Hcol). exists d. split_and!; try done.
  pose proof (holds_length _ _ _ _ Hb) as Hl. destruct Hb as [_ Hh]. destruct (lookup_lt_is_Some_2 (cols b) ci ltac:(lia)) as [c Ec].
  unfold cell. rewrite (vec_at_some _ _ _ Ec). cbn [mbind res_bind]. by apply (cell_of_ok c (column ci rows)); [apply Hh|].
Qed.

Lemma operand_ok e i : (i < length rows)%nat -> decoded e -> expr_ok e ->
  match operand b (index_of s) e i with
  | Ok None => True
  | Ok (Some None) => exists name, eval_operand debug (column_of s (row_i i)) e = Err (ColumnNotFound name)
  | Ok (Some (Some v)) => exists d, eval_operand debug (column_of s (row_i i)) e = Ok d /\ v = lit_val d /\ nan_free d
  | _ => False
  end.
Proof.
  intros Hi Hd He. destruct e; cbn [operand eval_operand]; try done; [|by exists d].
  unfold decoded in Hd. cbn [collect_columns] in Hd. rewrite Forall_singleton in Hd. unfold column_of.
  destruct (index_of s name) as [ci|] eqn:Ei; [|by eexists].
  destruct (cell_ok i (Z.to_nat ci) Hi (index_of_bound _ _ Ei) Hd) as (d & Hrow & _ & Hf & ->). cbn.
  exists d. unfold row_at. by rewrite Hrow.
Qed.

(** How a leaf's answer relates to evaluating the row. *)
Definition leaf_rel (o : option bool) (r : res bool) : Prop :=
  match o with Some x => r = Ok x | None => exists name, r = Err (ColumnNotFound name) end.

Lemma leaf_loop_ok f e input :
  (forall i, i ∈ input -> match f i with Ok (Some o) => leaf_rel o (ev e i) | Ok None => True | _ => False end) ->
  match leaf_loop f input with
  | Ok (Some r) => r = mkTri (List.filter (passes e) input) (List.filter (unknown e) input) /\ forallb (fine e) input = true
  | Ok None => True
  | _ => False
  end.
Proof.
  induction input as [|i input IH]; intros Hf; cbn [leaf_loop]; [done|].
  pose proof (Hf i ltac:(left)) as Hi. specialize (IH (fun j Hj => Hf j ltac:(by right))).
  destruct (f i) as [[o|]| |]; cbn [mbind ro_bind]; try done. destruct (leaf_loop f input) as [[r|]| |]; cbn [mbind ro_bind]; try done.
  destruct IH as [-> IH]. assert (passes e i = default false o /\ unknown e i = bool_decide (o = None) /\ fine e i = true) as (Hp & Hu & Hx).
  { unfold passes, unknown, fine. destruct o as [x|]; cbn [leaf_rel] in Hi; [rewrite Hi; by destruct x|]. by destruct Hi as [name ->]. }
  cbn [mret ro_ret List.filter forallb]. rewrite Hp, Hu, Hx, IH. by destruct o as [[]|].
Qed.

Lemma leaf_ok e x test i :
  (i < length rows)%nat -> decoded x -> expr_ok x ->
  (forall d, nan_free d -> d <> Null -> eval_operand debug (column_of s (row_i i)) x = Ok d -> ev e i = Ok (test (lit_val d))) ->
  (eval_operand debug (column_of s (row_i i)) x = Ok Null -> ev e i = Ok false) ->
  (forall err, eval_operand debug (column_of s (row_i i)) x = Err err -> ev e i = Err err) ->
  match leaf b (index_of s) x test i with Ok (Some o) => leaf_rel o (ev e i) | Ok None => True | _ => False end.
Proof.
  intros Hi Hd He H1 H2 H3. unfold leaf. pose proof (operand_ok x i Hi Hd He) as Ho.
  destruct (operand b (index_of s) x i) as [[[v|]|]| |]; cbn [mbind ro_bind mret ro_ret]; try done.
  - destruct Ho as (d & Ho & -> & Hf). destruct (decide (d = Null)) as [->|Hn]; [by apply H2|].
    specialize (H1 d Hf Hn Ho). destruct d; [done|..]; exact H1.
  - destruct Ho as [name Ho]. exists name. by apply H3.
Qed.

Lemma leaf_cmp_ok lhs op rhs i :
  (i < length rows)%nat -> decoded (ECmp lhs op rhs) -> expr_ok (ECmp lhs op rhs) ->
  match leaf_cmp b (index_of s) lhs op rhs i with Ok (Some o) => leaf_rel o (ev (ECmp lhs op rhs) i) | Ok None => True | _ => False end.
Proof.
  intros Hi Hd [He1 He2]. unfold decoded in Hd. cbn [collect_columns] in Hd. rewrite Forall_app in Hd. destruct Hd as [Hd1 Hd2].
  pose proof (operand_ok lhs i Hi Hd1 He1) as H1. pose proof (operand_ok rhs i Hi Hd2 He2) as H2.
  unfold leaf_cmp, eval_expr. cbn [eval_with].
  destruct (operand b (index_of s) lhs i) as [[[v|]|]| |]; cbn [mbind ro_bind mret ro_ret]; try done.
  - destruct H1 as (d1 & -> & -> & Hf1). cbn [mbind res_bind].
    destruct (operand b (index_of s) rhs i) as [[[w|]|]| |]; cbn [mbind ro_bind mret ro_ret]; try done.
    + destruct H2 as (d2 & -> & -> & Hf2). cbn [mbind res_bind].
      destruct (decide (d1 = Null)) as [->|Hn1]; [by destruct d2|]. destruct (decide (d2 = Null)) as [->|Hn2]; [by destruct d1|].
      pose proof (apply_cmp_spec op d1 d2 Hf1 Hf2 ltac:(tauto)) as Ha. destruct (coerce_pair d1 d2) as [x y]. cbn [fst snd] in Ha.
      rewrite <- Ha. by destruct d1, d2.
    + destruct H2 as [name ->]. assert (leaf_rel None (Err (ColumnNotFound name))) by by eexists. by destruct d1.
  - destruct H1 as [name ->]. assert (leaf_rel None (Err (ColumnNotFound name))) by by eexists.
    destruct (operand b (index_of s) rhs i) as [[[w|]|]| |]; done.
Qed.

Ltac leaf_goal := intros; unfold eval_expr; cbn [eval_with]; match goal with H : eval_operand _ _ _ = _ |- _ => rewrite H end; cbn [mbind res_bind].

Lemma xorb_eqb x y : negb (Bool.eqb x y) = xorb x y.
Proof. by destruct x, y. Qed.

Lemma not_null d : d <> Null -> is_null d = false.
Proof. by destruct d. Qed.

Lemma filter_bounded (f : nat -> bool) input :
  Forall (fun i => (i < length rows)%nat) input -> Forall (fun i => (i < length rows)%nat) (List.filter f input).
Proof. rewrite !Forall_forall. intros H i [_ Hi]%elem_of_filter_b. by apply H. Qed.

Lemma subtract_input (f : nat -> bool) input : ascending input ->
  subtract_sorted input (List.filter f input) = List.filter (fun i => negb (f i)) input.
Proof.
  intros Ha. destruct (subtract_sorted_spec input (List.filter f input) Ha (ascending_filter _ _ Ha)) as [H1 H2].
  apply ascending_ext; [done|by apply ascending_filter|]. intros i. rewrite H2, !elem_of_filter_b, negb_true_iff.
  destruct (f i); intuition congruence.
Qed.

Ltac facts := unfold passes, unknown, fine, eval_expr; cbn [eval_with].

Lemma and_facts x y i :
  passes (EAnd x y) i = passes x i && passes y i /\
  unknown (EAnd x y) i = unknown x i || (passes x i && unknown y i) /\
  fine (EAnd x y) i = fine x i && (negb (passes x i) || fine y i).
Proof. facts. by destruct (eval_with f64_show debug (column_of s (row_i i)) x) as [[]|[]|]; cbn; destruct (eval_with f64_show debug (column_of s (row_i i)) y) as [[]|[]|]. Qed.

Lemma or_facts x y i : fine x i = true ->
  passes (EOr x y) i = passes x i || (negb (passes x i) && negb (unknown x i) && passes y i) /\
  unknown (EOr x y) i = unknown x i || (negb (passes x i) && negb (unknown x i) && unknown y i) /\
  fine (EOr x y) i = negb (negb (passes x i) && negb (unknown x i)) || fine y i.
Proof. facts. by destruct (eval_with f64_show debug (column_of s (row_i i)) x) as [[]|[]|]; cbn; destruct (eval_with f64_show debug (column_of s (row_i i)) y) as [[]|[]|]. Qed.

Lemma not_facts x i : fine x i = true ->
  passes (ENot x) i = negb (passes x i) && negb (unknown x i) /\ unknown (ENot x) i = unknown x i /\ fine (ENot x) i = true.
Proof. facts. by destruct (eval_with f64_show debug (column_of s (row_i i)) x) as [[]|[]|]. Qed.

(** A node over an ascending selection returns the rows that pass and the rows
    with an unknown column; the others evaluate without error. *)
Lemma eval_node_ok e : forall input,
  ascending input -> Forall (fun i => (i < length rows)%nat) input -> decoded e -> expr_ok e ->
  match eval_node f64_show b (index_of s) e input with
  | Ok (Some r) => r = mkTri (List.filter (passes e) input) (List.filter (unknown e) input) /\ forallb (fine e) input = true
  | Ok None => True
  | _ => False
  end.
Proof.
  induction e as [name|d|lhs _ op rhs _|x IHx y IHy|x IHx y IHy|x IHx|x IHx vs n|x IHx lo hi n|x IHx pat n|x IHx q n|q|q n];
    intros input Ha Hi Hd He; cbn [eval_node]; try done.
  - apply leaf_loop_ok. intros i Hin. rewrite Forall_forall in Hi. apply leaf_ok; auto; intros; unfold eval_expr; cbn [eval_with eval_operand] in *.
    + by rewrite H1, pval_truthy_spec.
    + by rewrite H.
    + by rewrite H.
  - cbn [mret ro_ret]. clear Ha Hi. induction input as [|i input [IH1 IH2]]; [by destruct (truthy d)|].
    cbn [List.filter forallb]. unfold passes at 1, unknown at 1, fine at 1, eval_expr. cbn [eval_with mret res_ret].
    rewrite IH2. injection IH1 as E1 E2. rewrite <- E1, <- E2. by destruct (truthy d).
  - apply leaf_loop_ok. intros i Hin. rewrite Forall_forall in Hi. apply leaf_cmp_ok; auto.
  - unfold decoded in Hd. cbn [collect_columns] in Hd. rewrite Forall_app in Hd. destruct Hd as [Hd1 Hd2], He as [He1 He2].
    specialize (IHx input Ha Hi Hd1 He1). destruct (eval_node f64_show b (index_of s) x input) as [[ra|]| |]; cbn [mbind ro_bind]; try done.
    destruct IHx as [-> Hfx]. cbn [tri_t tri_e].
    specialize (IHy (List.filter (passes x) input) (ascending_filter _ _ Ha) (filter_bounded _ _ Hi) Hd2 He2).
    destruct (eval_node f64_show b (index_of s) y _) as [[rb|]| |]; cbn [mbind ro_bind mret ro_ret tri_t tri_e]; try done.
    destruct IHy as [-> Hfy]. cbn [tri_t tri_e]. rewrite !filter_filter_b, union_filter by done. split.
    + f_equal; apply filter_ext_b; intros i _; destruct (and_facts x y i) as (E1 & E2 & _); rewrite ?E1, ?E2; done.
    + rewrite forallb_forall in Hfx, Hfy |- *. intros i Hin. destruct (and_facts x y i) as (_ & _ & ->). rewrite Hfx by done. cbn.
      destruct (passes x i) eqn:Ep; [|done]. cbn. apply Hfy. by apply filter_In.
  - unfold decoded in Hd. cbn [collect_columns] in Hd. rewrite Forall_app in Hd. destruct Hd as [Hd1 Hd2], He as [He1 He2].
    specialize (IHx input Ha Hi Hd1 He1). destruct (eval_node f64_show b (index_of s) x input) as [[ra|]| |]; cbn [mbind ro_bind]; try done.
    destruct IHx as [-> Hfx]. cbn [tri_t tri_e]. rewrite (subtract_input (passes x) input Ha), subtract_filter by done.
    set (rest := fun i => negb (passes x i) && negb (unknown x i)).
    specialize (IHy (List.filter rest input) (ascending_filter _ _ Ha) (filter_bounded _ _ Hi) Hd2 He2).
    destruct (eval_node f64_show b (index_of s) y _) as [[rb|]| |]; cbn [mbind ro_bind mret ro_ret tri_t tri_e]; try done.
    destruct IHy as [-> Hfy]. cbn [tri_t tri_e]. rewrite !filter_filter_b, !union_filter by done. rewrite forallb_forall in Hfx, Hfy. split.
    + f_equal; apply filter_ext_b; intros i Hin; apply list_elem_of_In in Hin;
        destruct (or_facts x y i (Hfx i Hin)) as (E1 & E2 & _); rewrite ?E1, ?E2; unfold rest; by destruct (passes x i), (unknown x i), (passes y i), (unknown y i).
    + rewrite forallb_forall. intros i Hin. destruct (or_facts x y i (Hfx i Hin)) as (_ & _ & ->).
      destruct (rest i) eqn:Er; [rewrite Hfy; [by rewrite orb_true_r|by apply filter_In]|]. unfold rest in Er. by rewrite Er.
  - specialize (IHx input Ha Hi Hd He). destruct (eval_node f64_show b (index_of s) x input) as [[r|]| |]; cbn [mbind ro_bind mret ro_ret]; try done.
    destruct IHx as [-> Hfx]. cbn [tri_t tri_e]. rewrite (subtract_input (passes x) input Ha), subtract_filter by done. rewrite forallb_forall in Hfx. split.
    + f_equal; apply filter_ext_b; intros i Hin; apply list_elem_of_In in Hin; destruct (not_facts x i (Hfx i Hin)) as (E1 & E2 & _); by rewrite ?E1, ?E2.
    + rewrite forallb_forall. intros i Hin. by destruct (not_facts x i (Hfx i Hin)) as (_ & _ & ->).
  - apply leaf_loop_ok. intros i Hin. rewrite Forall_forall in Hi. apply leaf_ok; auto; leaf_goal; try done.
    rewrite not_null, in_match_spec, not_null, xorb_eqb by done. done.
  - destruct He as [He Hbd]. apply leaf_loop_ok. intros i Hin. rewrite Forall_forall in Hi. apply leaf_ok; auto; leaf_goal; try done.
    rewrite not_null, between_vals_spec, xorb_eqb by done. done.
  - apply leaf_loop_ok. intros i Hin. rewrite Forall_forall in Hi. apply leaf_ok; auto; leaf_goal; try done.
    rewrite not_null, pval_display_spec, xorb_eqb by done. done.
Qed.

End filter_parity.
