(* ===== verification/BatchAgg.v ===== *)
(** Parity of the aggregate runner: folding over morsels, decoded from rows or
    from their stored bytes, computes what the scalar executor computes. *)
From stdpp Require Import base list strings sorting.
From Stdlib Require Import ZArith Lia SpecFloat.
From S2P Require Import Prelude Machine Utf8 Float Types DateTime TableDef Table TableSpec Expr Batch BatchSpec.

#[local] Opaque f64_of_i64 f64_cmp_or_eq f64_eqb f64_add f64_div parse_datetime_str.

(** * Folds *)

Definition fold_datum (d : Datum) (f : AggFold) : res AggFold :=
  match d with
  | Null => Ok f
  | Int v => add_int v f
  | Float v => add_float v f
  | d => add_other (type_name d) d f
  end.

Fixpoint fold_list (ds : list Datum) (f : AggFold) : res AggFold :=
  match ds with [] => Ok f | d :: ds => f ← fold_datum d f; fold_list ds f end.

Lemma fold_list_app a b f : fold_list (a ++ b) f = (f ← fold_list a f; fold_list b f).
Proof. revert f. induction a as [|d a IH]; intros f; cbn; [done|]. destruct (fold_datum d f); cbn; [apply IH|done..]. Qed.

Lemma fold_datum_no_panic d f : fold_datum d f <> Panic.
Proof. by destruct d, f. Qed.

Lemma fold_list_no_panic ds f : fold_list ds f <> Panic.
Proof.
  revert f. induction ds as [|d ds IH]; intros f; cbn; [done|]. pose proof (fold_datum_no_panic d f).
  destruct (fold_datum d f); cbn; [apply IH|done..].
Qed.

(** The state of a fold over a text column. *)
Definition text_best (f : AggFold) : Prop :=
  match f with FMin (Some d) | FMax (Some d) => exists s, d = Text s | _ => True end.

Lemma text_best_for func : text_best (fold_for func).
Proof. by destruct func. Qed.

Lemma fold_text_best s f f' : text_best f -> fold_datum (Text s) f = Ok f' -> text_best f'.
Proof.
  destruct f as [| |best|best]; cbn; try done; intros Hf [= <-]; unfold take_min, take_max; cbn;
    repeat case_match; try done; try (by eexists); simplify_eq; try done; eauto.
Qed.

(** One cell of a decoded column. *)
Lemma fold_cell_ok s need b rows ci i d f :
  batch_holds s need b rows -> (ci < length (columns s))%nat -> needs need ci = true -> column ci rows !! i = Some d ->
  (forall c, columns s !! ci = Some c -> col_kind (col_ctype c) = 3 -> text_best f) ->
  fold_cell b ci i f = fold_datum d f /\
  (forall c f', columns s !! ci = Some c -> col_kind (col_ctype c) = 3 -> fold_datum d f = Ok f' -> text_best f').
Proof.
  intros Hb Hci Hn Hd Ht. pose proof (holds_length _ _ _ _ Hb) as Hl. destruct Hb as [Hk Hh].
  destruct (lookup_lt_is_Some_2 (cols b) ci ltac:(lia)) as [x Ex]. destruct (lookup_lt_is_Some_2 (columns s) ci Hci) as [c Ec].
  specialize (Hh ci x Ex Hn). rewrite Nat.add_0_l in Hh. unfold fold_cell. rewrite (vec_at_some _ _ _ Ex). cbn [mbind res_bind].
  assert (Hkind : kind_of x = col_kind (col_ctype c)).
  { apply (f_equal (.!! ci)) in Hk. rewrite !list_lookup_fmap, Ex, Ec in Hk. by injection Hk. }
  destruct x as [w n|w n|w n|data off n|w n]; cbn [col_holds] in Hh.
  1,2,3,5: destruct Hh as (-> & -> & Hh); rewrite (nulls_at _ _ _ Hd), (fmap_at _ _ _ _ Hd);
    pose proof (Forall_lookup_1 _ _ _ _ Hh Hd) as Hx; split; [by destruct d|]; intros c' f' Hc' Hk3; cbn in Hkind; congruence.
  destruct Hh as (-> & Ho & -> & Hh). rewrite (nulls_at _ _ _ Hd). pose proof (Forall_lookup_1 _ _ _ _ Hh Hd) as Hx.
  assert (Htb : text_best f) by by eapply Ht. destruct d as [| | |r| |]; try done; cbn [mbind res_bind Z.eqb].
  - split; [done|]. by intros c' f' _ _ [= <-].
  - destruct Ho as [->|[_ Hnil]]; [|by rewrite Hnil in Hd]. rewrite (text_at_ok _ _ r); [| |done].
    2:{ unfold texts. by rewrite list_lookup_fmap, Hd. }
    split; [|intros c' f' _ _; by apply fold_text_best]. destruct f as [| |best|best]; try done; cbn.
    + destruct best as [[]|]; cbn in Htb; try (by destruct Htb); done.
    + destruct best as [[]|]; cbn in Htb; try (by destruct Htb); done.
Qed.

Definition rows_at (rows : list Row) (idxs : list nat) : list Row := (fun i => row_i rows i) <$> idxs.

Lemma fold_rows_ok s need b rows ci idxs f :
  batch_holds s need b rows -> (ci < length (columns s))%nat -> needs need ci = true ->
  Forall (fun i => (i < length rows)%nat) idxs ->
  (forall c, columns s !! ci = Some c -> col_kind (col_ctype c) = 3 -> text_best f) ->
  fold_rows b ci idxs f = fold_list (column ci (rows_at rows idxs)) f /\
  (forall c f', columns s !! ci = Some c -> col_kind (col_ctype c) = 3 ->
     fold_list (column ci (rows_at rows idxs)) f = Ok f' -> text_best f').
Proof.
  intros Hb Hci Hn. revert f. induction idxs as [|i idxs IH]; intros f Hi Ht; cbn [fold_rows].
  - split; [done|]. intros c f' Hc Hk [= <-]. by eapply Ht.
  - apply Forall_cons in Hi as [Hi His]. destruct (lookup_lt_is_Some_2 rows i Hi) as [r Hr].
    assert (Hd : column ci rows !! i = Some (default Null (r !! ci))) by by unfold column; rewrite list_lookup_fmap, Hr.
    destruct (fold_cell_ok s need b rows ci i _ f Hb Hci Hn Hd Ht) as [-> Ht'].
    assert (Hcol : column ci (rows_at rows (i :: idxs)) = default Null (r !! ci) :: column ci (rows_at rows idxs)).
    { unfold column, rows_at. cbn. unfold row_i at 1. by rewrite Hr. }
    rewrite Hcol. cbn [fold_list]. destruct (fold_datum (default Null (r !! ci)) f) as [f1| |] eqn:Ef; cbn [mbind res_bind].
    + apply IH; [done|]. intros c Hc Hk. by eapply Ht'.
    + split; [done|]. done.
    + by apply fold_datum_no_panic in Ef.
Qed.

(** * The scalar aggregate is the fold *)

Lemma column_of_rows idx rows : 0 <= idx -> Forall (fun r : Row => (Z.to_nat idx < length r)%nat) rows ->
  Forall2 (fun r d => row_at r idx = Ok d) rows (column (Z.to_nat idx) rows).
Proof.
  intros H0 H. unfold column. apply Forall2_fmap_r. induction H as [|r rows Hr _ IH]; constructor; [|exact IH].
  unfold row_at, compose. destruct (lookup_lt_is_Some_2 r (Z.to_nat idx) Hr) as [d Hd]. by rewrite !Hd.
Qed.

Lemma sum_loop_fold idx rows ds : Forall2 (fun r d => row_at r idx = Ok d) rows ds -> forall ints floats af n,
  fold_list ds (FSum ints floats af n) = (fun '(i, f, a, n) => FSum i f a n) <$> sum_loop idx rows ints floats af n.
Proof.
  induction 1 as [|r d rows ds Hr _ IH]; intros; cbn [fold_list sum_loop]; [done|]. rewrite Hr. cbn [mbind res_bind].
  destruct d; cbn [fold_datum add_int add_float add_other mbind res_bind]; try done; apply IH.
Qed.

Lemma avg_loop_fold idx rows ds : Forall2 (fun r d => row_at r idx = Ok d) rows ds -> forall sum n,
  fold_list ds (FAvg sum n) = (fun '(s, n) => FAvg s n) <$> avg_loop idx rows sum n.
Proof.
  induction 1 as [|r d rows ds Hr _ IH]; intros; cbn [fold_list avg_loop]; [done|]. rewrite Hr. cbn [mbind res_bind].
  destruct d; cbn [fold_datum add_int add_float add_other mbind res_bind]; try done; apply IH.
Qed.

Lemma min_loop_fold idx rows ds : Forall2 (fun r d => row_at r idx = Ok d) rows ds -> forall best,
  fold_list ds (FMin best) = FMin <$> best_loop OpLt idx rows best.
Proof.
  induction 1 as [|r d rows ds Hr _ IH]; intros; cbn [fold_list best_loop]; [done|]. rewrite Hr. cbn [mbind res_bind].
  destruct d; cbn [fold_datum add_int add_float add_other mbind res_bind]; try apply IH;
    unfold take_min; destruct best as [x|]; try apply IH; rewrite <- IH; by destruct (cmp_apply OpLt _ x).
Qed.

Lemma max_loop_fold idx rows ds : Forall2 (fun r d => row_at r idx = Ok d) rows ds -> forall best,
  fold_list ds (FMax best) = FMax <$> best_loop OpGt idx rows best.
Proof.
  induction 1 as [|r d rows ds Hr _ IH]; intros; cbn [fold_list best_loop]; [done|]. rewrite Hr. cbn [mbind res_bind].
  destruct d; cbn [fold_datum add_int add_float add_other mbind res_bind]; try apply IH;
    unfold take_max; destruct best as [x|]; try apply IH; rewrite <- IH; by destruct (cmp_apply OpGt _ x).
Qed.

Lemma compute_aggregate_fold func idx rows : 0 <= idx -> Forall (fun r : Row => (Z.to_nat idx < length r)%nat) rows ->
  compute_aggregate func idx rows = finish <$> fold_list (column (Z.to_nat idx) rows) (fold_for func).
Proof.
  intros H0 Hr. pose proof (column_of_rows idx rows H0 Hr) as Hc. destruct func; cbn [compute_aggregate fold_for].
  - rewrite (sum_loop_fold _ _ _ Hc). by destruct (sum_loop _ _ _ _ _ _) as [[[[? ?] ?] ?]| |].
  - rewrite (avg_loop_fold _ _ _ Hc). by destruct (avg_loop _ _ _ _) as [[? ?]| |].
  - rewrite (min_loop_fold _ _ _ Hc). by destruct (best_loop _ _ _ _).
  - rewrite (max_loop_fold _ _ _ Hc). by destruct (best_loop _ _ _ _).
Qed.

(** * The runner *)

Section runner_parity.
Context (f64_show : Z -> bytes) (debug : Expr -> bytes) (s : Schema) (selection : option Expr) (aggs : list AggSpec).

Definition aggs_ok : Prop :=
  Forall (fun spec => match spec with SpAgg _ idx => 0 <= idx < Zlen (columns s) | _ => True end) aggs.
Definition selection_ok : Prop := match selection with Some e => expr_ok e | None => True end.
Definition rows_ok (rows : list Row) : Prop := Forall (row_ok s) rows /\ Forall (Forall nan_free) rows.

Abbreviation need := (need_mask s selection (agg_columns aggs)).

Lemma needs_mask extra ci : (ci < length (columns s))%nat ->
  (exists i, Z.to_nat i = ci /\ 0 <= i /\ (i ∈ extra \/ exists e name, selection = Some e /\ name ∈ collect_columns e /\ index_of s name = Some i)) ->
  needs (need_mask s selection extra) ci = true.
Proof.
  intros Hci (i & <- & Hi & H). unfold needs, need_mask. rewrite list_lookup_fmap. rewrite lookup_seq_lt by done.
  cbn. apply existsb_exists. exists i. split; [|apply Z.eqb_eq; lia]. apply list_elem_of_In, elem_of_app.
  destruct H as [H|(e & name & -> & Hn & Hx)]; [by right|left]. apply list_elem_of_omap. by exists name.
Qed.

Lemma index_of_nonneg name ci : index_of s name = Some ci -> 0 <= ci.
Proof. unfold index_of. intros H%position_bound. lia. Qed.

Lemma selection_decoded e : selection = Some e -> decoded s need e.
Proof.
  intros He. unfold decoded. apply Forall_forall. intros name Hn. destruct (index_of s name) as [ci|] eqn:Ei; [|done].
  apply needs_mask; [by eapply index_of_bound|]. exists ci. split_and!; [done|by eapply index_of_nonneg|]. right. by exists e, name.
Qed.

Lemma agg_needed func idx : aggs_ok -> SpAgg func idx ∈ aggs -> (Z.to_nat idx < length (columns s))%nat /\ needs need (Z.to_nat idx) = true.
Proof.
  intros Ha Hin. unfold aggs_ok in Ha. rewrite Forall_forall in Ha. specialize (Ha _ Hin). cbn in Ha. split; [lia|].
  apply needs_mask; [lia|]. exists idx. split_and!; [done|lia|]. left. unfold agg_columns. apply list_elem_of_omap. by exists (SpAgg func idx).
Qed.

(** ** Filtering a morsel *)

Lemma filter_rows_at e rows idxs :
  forallb (fine f64_show debug s rows e) idxs = true ->
  filter_rows f64_show debug s e (rows_at rows idxs) = Ok (rows_at rows (List.filter (passes f64_show debug s rows e) idxs)).
Proof.
  induction idxs as [|i idxs IH]; [done|]. cbn [forallb rows_at fmap list_fmap filter_rows List.filter].
  intros [Hf Hfs]%andb_true_iff. specialize (IH Hfs). unfold fine in Hf. unfold passes at 1.
  destruct (eval_expr f64_show debug s (row_i rows i) e) as [[]|[]|]; try done; unfold rows_at in IH; rewrite IH; done.
Qed.

Lemma rows_at_all rows : rows_at rows (seq 0 (length rows)) = rows.
Proof.
  unfold rows_at. apply list_eq. intros i. rewrite list_lookup_fmap. destruct (decide (i < length rows)%nat) as [Hi|Hi].
  - rewrite lookup_seq_lt by done. cbn. unfold row_i. destruct (lookup_lt_is_Some_2 rows i Hi) as [r Hr]. by rewrite Hr.
  - rewrite lookup_seq_ge by lia. symmetry. apply lookup_ge_None. lia.
Qed.

Lemma seq_ascending n m : ascending (seq n m).
Proof.
  revert n. induction m as [|m IH]; intros n; cbn; [constructor|]. constructor; [apply IH|].
  apply Forall_forall. intros i Hi%elem_of_seq. lia.
Qed.

(** The selection of a filtered morsel is the rows the scalar filter keeps. *)
Lemma filter_morsel_ok b rows :
  rows_ok rows -> selection_ok -> batch_holds s need b rows -> sel b = seq 0 (length rows) ->
  match (match selection with Some e => filter_batch f64_show b s e | None => mret b end : RO ColumnBatch) with
  | Ok (Some b') => cols b' = cols b /\ Forall (fun i => (i < length rows)%nat) (sel b') /\
      select_rows f64_show debug s selection rows = Ok (rows_at rows (sel b'))
  | Ok None => True
  | _ => False
  end.
Proof.
  intros [Hr Hn] Hs Hb Hsel. unfold selection_ok in Hs. pose proof selection_decoded as Hdec. revert Hb Hdec. generalize need.
  intros nd Hb Hdec. destruct selection as [e|].
  - unfold filter_batch. rewrite Hsel.
    pose proof (eval_node_ok f64_show debug s nd b rows Hb Hr Hn e (seq 0 (length rows)) (seq_ascending _ _)) as H.
    assert (Hlt : Forall (fun i => (i < length rows)%nat) (seq 0 (length rows))) by (apply Forall_forall; intros i Hi%elem_of_seq; lia).
    specialize (H Hlt (Hdec e eq_refl) Hs).
    destruct (eval_node f64_show b (index_of s) e _) as [[r|]| |]; cbn; try done. destruct H as [-> Hf]. cbn. split_and!; [done| |].
    + by apply filter_bounded.
    + rewrite <- (rows_at_all rows) at 1. by apply filter_rows_at.
  - cbn. rewrite Hsel, rows_at_all. split_and!; [done| |done]. apply Forall_forall. intros i Hi%elem_of_seq. lia.
Qed.

(** ** The state of the items after some rows *)

Definition item_rel (rows : list Row) (spec : AggSpec) (i : Item) : Prop :=
  match spec, i with
  | SpCount, ItCount n => n = Zlen rows
  | SpAgg func idx, ItFold col f => col = idx /\ fold_list (column (Z.to_nat idx) rows) (fold_for func) = Ok f /\
      (forall c, columns s !! Z.to_nat idx = Some c -> col_kind (col_ctype c) = 3 -> text_best f)
  | SpScalar _, ItConst => True
  | _, _ => False
  end.

Definition items_rel (rows : list Row) (items : list Item) : Prop := Forall2 (item_rel rows) aggs items.

(** Some aggregate fails on the rows. *)
Definition agg_fails (rows : list Row) : Prop :=
  exists func idx e, SpAgg func idx ∈ aggs /\ fold_list (column (Z.to_nat idx) rows) (fold_for func) = Err e.

Lemma items_start : items_rel [] (item_for <$> aggs).
Proof.
  unfold items_rel. apply Forall2_fmap_r. apply Forall_Forall2_diag, Forall_forall. intros [| |] _; cbn; [done| |done].
  split_and!; [done|done|]. intros _ _ _. apply text_best_for.
Qed.

Lemma column_app ci a b : column ci (a ++ b) = column ci a ++ column ci b.
Proof. unfold column. by rewrite fmap_app. Qed.

Lemma item_step_ok b chunk rows spec i :
  aggs_ok -> batch_holds s need b chunk -> Forall (fun i => (i < length chunk)%nat) (sel b) -> spec ∈ aggs -> item_rel rows spec i ->
  match item_step b i with
  | Ok i' => item_rel (rows ++ rows_at chunk (sel b)) spec i'
  | Err _ => agg_fails (rows ++ rows_at chunk (sel b))
  | Panic => False
  end.
Proof.
  intros Ha Hb Hs Hin. destruct spec as [|func idx|d], i as [n|col f|]; cbn [item_rel item_step]; try done.
  - intros ->. unfold rows_at. rewrite length_app, length_fmap. lia.
  - intros (-> & Hf & Ht). destruct (agg_needed func idx Ha Hin) as [Hlt Hn]. unfold fold_column.
    destruct (fold_rows_ok s need b chunk (Z.to_nat idx) (sel b) f Hb Hlt Hn Hs Ht) as [-> Ht'].
    destruct (fold_list (column (Z.to_nat idx) (rows_at chunk (sel b))) f) as [f'|e|] eqn:Ef; cbn.
    + split; [done|]. rewrite column_app, fold_list_app, Hf. cbn. split; [done|]. intros c Hc Hk. by eapply Ht'.
    + exists func, idx, e. split; [done|]. rewrite column_app, fold_list_app, Hf. done.
    + by apply fold_list_no_panic in Ef.
Qed.

Lemma items_step_ok b chunk rows items :
  aggs_ok -> batch_holds s need b chunk -> Forall (fun i => (i < length chunk)%nat) (sel b) -> items_rel rows items ->
  match items_step b items with
  | Ok items' => items_rel (rows ++ rows_at chunk (sel b)) items'
  | Err _ => agg_fails (rows ++ rows_at chunk (sel b))
  | Panic => False
  end.
Proof.
  intros Ha Hb Hs. unfold items_rel. assert (Hsub : forall spec, spec ∈ aggs -> spec ∈ aggs) by done. revert Hsub.
  generalize aggs at 1 3 4. intros specs Hsub Hi. induction Hi as [|spec i specs items Hi _ IH]; cbn [items_step]; [constructor|].
  pose proof (item_step_ok b chunk rows spec i Ha Hb Hs (Hsub spec ltac:(left)) Hi) as Hstep.
  destruct (item_step b i) as [i'| |]; cbn; try done. specialize (IH (fun x Hx => Hsub x ltac:(by right))).
  destruct (items_step b items) as [items'| |]; cbn; try done. by constructor.
Qed.

(** One morsel, filtered and folded. *)
Lemma on_morsel_ok b chunk rows items :
  aggs_ok -> selection_ok -> rows_ok chunk -> batch_holds s need b chunk -> sel b = seq 0 (length chunk) -> items_rel rows items ->
  match on_morsel f64_show items_step s selection b items with
  | Ok (Some items') => exists kept, select_rows f64_show debug s selection chunk = Ok kept /\ items_rel (rows ++ kept) items'
  | Ok None => True
  | Err _ => exists kept, select_rows f64_show debug s selection chunk = Ok kept /\ agg_fails (rows ++ kept)
  | Panic => False
  end.
Proof.
  intros Ha Hs Hr Hb Hsel Hi. unfold on_morsel. pose proof (filter_morsel_ok b chunk Hr Hs Hb Hsel) as Hf.
  match type of Hf with match ?x with _ => _ end => destruct x as [[b'|]| |] end; cbn [mbind ro_bind]; try done.
  destruct Hf as (Hc & Hlt & Hk). assert (Hb' : batch_holds s need b' chunk) by (unfold batch_holds in *; by rewrite Hc).
  pose proof (items_step_ok b' chunk rows items Ha Hb' Hlt Hi) as Hstep.
  destruct (items_step b' items) as [items'| |]; cbn; try done; by eexists.
Qed.

(** ** Whole scans *)

Lemma select_rows_app a b :
  select_rows f64_show debug s selection (a ++ b) =
    (x ← select_rows f64_show debug s selection a; y ← select_rows f64_show debug s selection b; mret (x ++ y)).
Proof.
  unfold select_rows. destruct selection as [e|]; [|done].
  induction a as [|r a IH]; cbn [app filter_rows].
  - cbn. by destruct (filter_rows f64_show debug s e b).
  - destruct (eval_expr f64_show debug s r e) as [[]|[]|]; try done; rewrite IH; destruct (filter_rows f64_show debug s e a); cbn; try done.
    by destruct (filter_rows f64_show debug s e b).
Qed.

(** What the scalar executor answers. *)
Definition scalar_agg (rows : list Row) : res (list Datum) :=
  kept ← select_rows f64_show debug s selection rows; exec_aggregate_rows aggs kept.

(** A scan agrees with the scalar executor, [before] it having kept [kept]. *)
Definition scan_ok (before : list Row) (rest : list Row) (r : RO (list Item)) : Prop :=
  match r with
  | Ok (Some items) => exists more, select_rows f64_show debug s selection rest = Ok more /\ items_rel (before ++ more) items
  | Ok None => True
  | Err _ => forall more, select_rows f64_show debug s selection rest = Ok more -> agg_fails (before ++ more)
  | Panic => False
  end.

Lemma agg_fails_app a b : agg_fails a -> agg_fails (a ++ b).
Proof.
  intros (func & idx & e & Hin & Hf). exists func, idx, e. split; [done|]. rewrite column_app, fold_list_app, Hf. done.
Qed.

(** A morsel, then the rest of the scan. *)
Lemma scan_ok_step before chunk rest b items k :
  aggs_ok -> selection_ok -> rows_ok chunk -> batch_holds s need b chunk -> sel b = seq 0 (length chunk) -> items_rel before items ->
  (forall kept items', items_rel (before ++ kept) items' -> scan_ok (before ++ kept) rest (k items')) ->
  scan_ok before (chunk ++ rest) (items ← on_morsel f64_show items_step s selection b items; k items : RO (list Item)).
Proof.
  intros Ha Hs Hr Hb Hsel Hi Hk. pose proof (on_morsel_ok b chunk before items Ha Hs Hr Hb Hsel Hi) as Hm.
  destruct (on_morsel f64_show items_step s selection b items) as [[items'|]| |]; cbn [mbind ro_bind]; try done.
  - destruct Hm as (kept & Hkept & Hi'). specialize (Hk kept items' Hi'). unfold scan_ok in *. rewrite select_rows_app, Hkept. cbn.
    destruct (k items') as [[items2|]| |]; try done.
    + destruct Hk as (more & -> & Hi2). exists (kept ++ more). split; [done|]. by rewrite app_assoc.
    + intros more. destruct (select_rows f64_show debug s selection rest) as [more'| |]; cbn; try done. intros [= <-].
      rewrite app_assoc. by apply Hk.
  - destruct Hm as (kept & Hkept & Hf). intros more. rewrite select_rows_app, Hkept. cbn.
    destruct (select_rows f64_show debug s selection rest) as [more'| |]; cbn; try done. intros [= <-].
    rewrite app_assoc. by apply agg_fails_app.
Qed.

Lemma scan_ok_nil before items : items_rel before items -> scan_ok before [] (mret items).
Proof. intros Hi. exists []. split; [by unfold select_rows; destruct selection|]. by rewrite app_nil_r. Qed.

Lemma scan_rows_ok chunks : forall b before items,
  aggs_ok -> selection_ok -> Forall (fun c => rows_ok c /\ Zlen c <= MORSEL) chunks -> items_rel before items ->
  scan_ok before (mjoin chunks) (scan_rows f64_show items_step s selection need b chunks items).
Proof.
  induction chunks as [|chunk chunks IH]; intros b before items Ha Hs Hc Hi; cbn [scan_rows].
  - by apply scan_ok_nil.
  - apply Forall_cons in Hc as [[Hr Hl] Hc]. change (mjoin (chunk :: chunks)) with (chunk ++ mjoin chunks).
    destruct (push_rows (prepare_morsel s b) chunk need) as [b1|] eqn:Ep; [|done].
    apply (push_rows_holds s need chunk _ []) in Ep; [|apply Hr|apply prepare_holds]. unfold MORSEL in Hl.
    apply scan_ok_step; try done; [by apply finish_holds|rewrite finish_sel by lia; by rewrite Nat2Z.id|].
    intros kept items' Hi'. by apply IH.
Qed.

Lemma morsels_spec {A} fuel (l : list A) : (length l <= fuel)%nat -> mjoin (morsels fuel l) = l /\ Forall (fun c => Zlen c <= MORSEL /\ (forall x, x ∈ c -> x ∈ l)) (morsels fuel l).
Proof.
  revert l. induction fuel as [|fuel IH]; intros [|x l] Hl; cbn [morsels]; try (cbn in Hl; lia); try (split; [done|constructor]).
  destruct (IH (drop (Z.to_nat MORSEL) (x :: l))) as [H1 H2]; [rewrite length_drop; cbn in *; unfold MORSEL; lia|]. split.
  - change (mjoin (?a :: ?b)) with (a ++ mjoin b). rewrite H1. apply take_drop.
  - constructor.
    + split; [rewrite length_take; unfold MORSEL; lia|]. intros y Hy. by apply elem_of_take in Hy as (i & Hy & _); apply list_elem_of_lookup_2 in Hy.
    + eapply Forall_impl; [exact H2|]. intros c [Hc Hy]. split; [done|]. intros y ?%Hy.
      apply list_elem_of_lookup_1 in H as [i H]. rewrite lookup_drop in H. by apply list_elem_of_lookup_2 in H.
Qed.

(** ** The raw leaf scan *)

Lemma raw_slice_ok pre bs post : raw_slice (pre ++ bs ++ post) (Zlen pre) (Zlen bs) = Some bs.
Proof.
  unfold raw_slice. rewrite (proj2 (Z.ltb_ge _ _)) by (rewrite !length_app; lia).
  rewrite !Nat2Z.id, drop_app_length, take_app_length. done.
Qed.

(** [raw_slice] right after a tag. *)
Lemma raw_slice_tag pre t bs post n : n = Zlen bs -> raw_slice (pre ++ (t :: bs) ++ post) (Zlen pre + 1) n = Some bs.
Proof.
  intros ->. replace (pre ++ (t :: bs) ++ post) with ((pre ++ [t]) ++ bs ++ post) by by rewrite <- app_assoc.
  replace (Zlen pre + 1) with (Zlen (pre ++ [t])) by (rewrite length_app; cbn; lia). apply raw_slice_ok.
Qed.

Lemma tag_at (pre bs post : bytes) t : (pre ++ (t :: bs) ++ post) !! Z.to_nat (Zlen pre) = Some t.
Proof. rewrite Nat2Z.id, lookup_app_r by lia. by rewrite Nat.sub_diag. Qed.

(** Reading a stored cell pushes the value it encodes. *)
Lemma push_raw_cell_ok pre d post nd c :
  datum_wf d ->
  push_raw_cell (pre ++ encode d ++ post) nd (Zlen pre) c =
    (c ← (if nd then push_datum c d else Some c); Some (c, Zlen pre + Zlen (encode d))).
Proof.
  intros Hd. unfold push_raw_cell. destruct d as [|v|v|v|v|v]; cbn [encode]; rewrite tag_at; cbn [mbind option_bind].
  - destruct nd; cbn; [by destruct c|done].
  - rewrite (raw_slice_tag _ _ (to_le 8 v) _ 8) by by rewrite length_to_le. cbn [mbind option_bind]. rewrite i64_of_le_to_le by apply Hd.
    destruct nd; [destruct c|]; cbn; try done; rewrite ?length_to_le; do 2 f_equal; lia.
  - rewrite (raw_slice_tag _ _ (to_le 8 v) _ 8) by by rewrite length_to_le. cbn [mbind option_bind]. rewrite of_le_to_le_u by apply Hd.
    destruct nd; [destruct c|]; cbn; try done; rewrite ?length_to_le; do 2 f_equal; lia.
  - cbn [app]. rewrite <- app_assoc. change (3 :: to_le 4 (Zlen v) ++ v ++ post) with ((3 :: to_le 4 (Zlen v)) ++ v ++ post).
    rewrite (raw_slice_tag _ _ (to_le 4 (Zlen v)) _ 4) by by rewrite length_to_le. cbn [mbind option_bind].
    destruct Hd as [_ Hl]. rewrite of_le_to_le_u by (unfold in_u; lia).
    replace (pre ++ (3 :: to_le 4 (Zlen v)) ++ v ++ post) with ((pre ++ 3 :: to_le 4 (Zlen v)) ++ v ++ post) by by rewrite <- app_assoc.
    replace (Zlen pre + 1 + 4) with (Zlen (pre ++ 3 :: to_le 4 (Zlen v))) by (rewrite length_app; cbn; rewrite length_to_le; lia).
    rewrite raw_slice_ok. cbn [mbind option_bind]. rewrite !length_app. cbn [length]. rewrite !length_to_le.
    destruct nd; [destruct c|]; cbn; try done; do 2 f_equal; rewrite ?length_app, ?length_to_le; lia.
  - rewrite (raw_slice_tag _ _ [if v then 1 else 0] _ 1) by done. cbn [mbind option_bind hd].
    replace (negb ((if v then 1 else 0) =? 0)) with v by by destruct v.
    destruct nd; [destruct c|]; cbn; try done; do 2 f_equal; lia.
  - rewrite (raw_slice_tag _ _ (to_le 8 v) _ 8) by by rewrite length_to_le. cbn [mbind option_bind]. rewrite i64_of_le_to_le by apply Hd.
    destruct nd; [destruct c|]; cbn; try done; rewrite ?length_to_le; do 2 f_equal; lia.
Qed.

Lemma push_raw_cells_ok nd cs : forall from done row post,
  Forall datum_wf row -> length row = length cs -> length done = from ->
  push_raw_cells (encode_row done ++ encode_row row ++ post) nd from (Zlen (encode_row done)) cs =
    (cs ← push_datums (done ++ row) nd from cs; Some (cs, Zlen (encode_row (done ++ row)))).
Proof.
  induction cs as [|c cs IH]; intros from dn [|d row] post Hw Hl Hd; try done; cbn [push_raw_cells push_datums].
  - cbn. by rewrite app_nil_r.
  - apply Forall_cons in Hw as [Hw Hws]. change (encode_row (d :: row)) with (encode d ++ encode_row row).
    rewrite <- app_assoc, push_raw_cell_ok by done. rewrite (list_lookup_middle dn row d from) by done. cbn [mbind option_bind].
    destruct (if needs nd from then push_datum c d else Some c) as [c1|]; cbn [mbind option_bind]; [|done].
    assert (Henc : encode_row (dn ++ [d]) = encode_row dn ++ encode d).
    { unfold encode_row. rewrite fmap_app, join_app. cbn. by rewrite app_nil_r. }
    specialize (IH (S from) (dn ++ [d]) row post Hws ltac:(by injection Hl) ltac:(rewrite length_app; cbn; lia)).
    rewrite Henc, length_app, <- !app_assoc in IH. cbn [app] in IH. rewrite Nat2Z.inj_add in IH. rewrite IH.
    by destruct (push_datums (dn ++ d :: row) nd (S from) cs).
Qed.

Lemma push_raw_row_ok b row nd : Forall datum_wf row -> length row = length (cols b) ->
  push_raw_row b (encode_row row) nd = push_datum_row b row nd.
Proof.
  intros Hw Hl. unfold push_raw_row, push_datum_row. pose proof (push_raw_cells_ok nd (cols b) 0 [] row [] Hw Hl eq_refl) as H.
  change (encode_row [] ++ encode_row row ++ []) with (encode_row row ++ []) in H. change (Zlen (encode_row [])) with 0 in H.
  cbn [app] in H. rewrite app_nil_r in H. rewrite H. destruct (push_datums row nd 0 (cols b)); cbn; [|done]. by rewrite Z.eqb_refl.
Qed.

(** The scan holds the rows pushed since the last full morsel. *)
Lemma scan_raw_ok rows : forall b pending before items,
  aggs_ok -> selection_ok -> rows_ok pending -> rows_ok rows -> Zlen pending < MORSEL -> batch_holds s need b pending ->
  items_rel before items ->
  scan_ok before (pending ++ rows) (scan_raw f64_show items_step s selection need b (Zlen pending) (encode_row <$> rows) items).
Proof.
  induction rows as [|r rows IH]; intros b pending before items Ha Hs [Hp1 Hp2] [Hr1 Hr2] Hlt Hb Hi; cbn [fmap list_fmap scan_raw].
  - destruct (Z.ltb_spec 0 (Zlen pending)) as [Hpos|Hz].
    + pose proof (scan_ok_step before pending [] (finish_morsel need (Zlen pending) b) items mret Ha Hs (conj Hp1 Hp2)) as H.
      unfold MORSEL in Hlt. destruct (on_morsel f64_show items_step s selection (finish_morsel need (Zlen pending) b) items) as [[items'|]| |] eqn:Em;
        cbn [mbind ro_bind] in H; rewrite <- ?Em; (rewrite Em; apply H);
        try (apply finish_holds; done); try (rewrite finish_sel by lia; by rewrite Nat2Z.id); try done; intros; by apply scan_ok_nil.
    + destruct pending; [by apply scan_ok_nil|cbn in Hz; lia].
  - apply Forall_cons in Hr1 as [Hr Hr1]. apply Forall_cons in Hr2 as [Hn Hr2].
    rewrite push_raw_row_ok by (first [apply Hr|rewrite (holds_length _ _ _ _ Hb); apply Hr]).
    destruct (push_datum_row b r need) as [b1|] eqn:Ep; [|done]. apply (push_datum_row_holds s need b pending) in Ep; [|done|done].
    assert (Hok : rows_ok (pending ++ [r])) by (split; apply Forall_app; split; try done; by constructor).
    replace (Zlen pending + 1) with (Zlen (pending ++ [r])) by (rewrite length_app; cbn; lia).
    replace (pending ++ r :: rows) with ((pending ++ [r]) ++ rows) by by rewrite <- app_assoc.
    destruct (Z.eqb_spec (Zlen (pending ++ [r])) MORSEL) as [He|He].
    + unfold MORSEL in He. apply scan_ok_step; try done; [by apply finish_holds|rewrite finish_sel by lia; by rewrite Nat2Z.id|].
      intros kept items' Hi'. apply (IH (prepare_morsel s b1) [] (before ++ kept) items'); try done; first [by split|apply prepare_holds].
    + apply IH; try done. rewrite length_app in He |- *. cbn in *. lia.
Qed.

(** ** Answers *)

Lemma items_out_ok kept items : aggs_ok -> Forall (row_ok s) kept -> items_rel kept items -> items_out aggs items = exec_aggregate_rows aggs kept.
Proof.
  intros Ha Hk. unfold items_rel, aggs_ok in *. intros Hi. induction Hi as [|spec i specs items Hrel _ IH]; [done|].
  apply Forall_cons in Ha as [Hspec Ha]. cbn [items_out exec_aggregate_rows]. rewrite (IH Ha).
  destruct spec as [|func idx|d], i as [n|col f|]; cbn [item_rel] in Hrel; try done; cbn [item_out].
  - by rewrite Hrel.
  - destruct Hrel as (-> & Hf & _). rewrite compute_aggregate_fold; [by rewrite Hf|lia|].
    eapply Forall_impl; [exact Hk|]. cbn. intros r [Hl _]. lia.
Qed.

Lemma items_out_total kept items : items_rel kept items -> exists out, items_out aggs items = Ok out.
Proof.
  unfold items_rel. induction 1 as [|spec i specs items Hrel _ [out IH]]; [by eexists|]. cbn [items_out]. rewrite IH.
  destruct spec, i; try done; by eexists.
Qed.

Lemma agg_fails_scalar kept : aggs_ok -> Forall (row_ok s) kept -> agg_fails kept -> exists e, exec_aggregate_rows aggs kept = Err e.
Proof.
  intros Ha Hk (func & idx & e & Hin & Hf). unfold aggs_ok in Ha.
  assert (Hfold : forall func idx, 0 <= idx < Zlen (columns s) ->
            compute_aggregate func idx kept = finish <$> fold_list (column (Z.to_nat idx) kept) (fold_for func)).
  { intros fn ix Hix. apply compute_aggregate_fold; [lia|]. eapply Forall_impl; [exact Hk|]. cbn. intros r [Hl _]. lia. }
  revert Ha Hin. generalize aggs. intros l Ha Hin.
  induction l as [|spec l IH]; [by apply elem_of_nil in Hin|]. apply Forall_cons in Ha as [Hs Ha]. cbn [exec_aggregate_rows].
  destruct (match spec with SpCount => _ | SpAgg _ _ => _ | SpScalar _ => _ end) as [d|e'|] eqn:Ed; cbn; [| by eexists|].
  - apply elem_of_cons in Hin as [<-|Hin].
    + rewrite (Hfold func idx Hs), Hf in Ed. done.
    + destruct (IH Ha Hin) as [e' ->]. by eexists.
  - destruct spec as [|fn ix|]; try done. rewrite (Hfold fn ix Hs) in Ed.
    destruct (fold_list (column (Z.to_nat ix) kept) (fold_for fn)) eqn:Ef; try done. by apply fold_list_no_panic in Ef.
Qed.

Lemma select_rows_keeps rows kept : Forall (row_ok s) rows -> select_rows f64_show debug s selection rows = Ok kept -> Forall (row_ok s) kept.
Proof.
  unfold select_rows. destruct selection as [e|]; [|by intros ? [= <-]]. intros Hr. revert kept.
  induction Hr as [|r rows Hr _ IH]; intros kept; cbn [filter_rows]; [by intros [= <-]|].
  destruct (eval_expr f64_show debug s r e) as [[]|[]|]; try done; try apply IH.
  destruct (filter_rows f64_show debug s e rows) as [out| |]; cbn; try done. intros [= <-]. constructor; [done|by apply IH].
Qed.

(** An answer of the batch path is the scalar answer, an error of the batch
    path is an error of the scalar path, and the rest falls back. *)
Definition agrees (rows : list Row) (r : RO (list Datum)) : Prop :=
  match r with
  | Ok (Some out) => scalar_agg rows = Ok out
  | Ok None => True
  | Err _ => forall out, scalar_agg rows <> Ok out
  | Panic => False
  end.

Lemma scan_agrees rows r :
  aggs_ok -> Forall (row_ok s) rows -> scan_ok [] rows r -> agrees rows (items ← r; ro_lift (items_out aggs items) : RO (list Datum)).
Proof.
  intros Ha Hr. unfold scan_ok, agrees, scalar_agg. destruct r as [[items|]| |]; cbn [mbind ro_bind]; try done.
  - intros (kept & Hk & Hi). pose proof (select_rows_keeps rows kept Hr Hk) as Hkept.
    cbn [app] in Hi. destruct (items_out_total kept items Hi) as [out Hout]. rewrite Hout. cbn [ro_lift].
    rewrite Hk. cbn [mbind res_bind]. by rewrite <- (items_out_ok kept items Ha Hkept Hi).
  - intros Hf out Hout. destruct (select_rows f64_show debug s selection rows) as [kept| |] eqn:Hk; try done.
    destruct (agg_fails_scalar kept Ha (select_rows_keeps rows kept Hr Hk) (Hf kept eq_refl)) as [err He]. cbn in Hout. congruence.
Qed.

(** Both sources of rows. *)
Lemma agg_over_rows_agrees rows :
  aggs_ok -> selection_ok -> rows_ok rows -> agrees rows (agg_over_rows f64_show s selection aggs rows).
Proof.
  intros Ha Hs [Hr Hn]. apply scan_agrees; [done|done|]. destruct (morsels_spec (length rows) rows ltac:(lia)) as [Hj Hm].
  pose proof (scan_rows_ok (morsels (length rows) rows) batch_new [] (item_for <$> aggs) Ha Hs) as H. rewrite Hj in H.
  apply H; [|apply items_start]. eapply Forall_impl; [exact Hm|]. intros c [Hc Hin]. split; [|done]. rewrite Forall_forall in Hr, Hn.
  split; apply Forall_forall; intros r Hc'; auto.
Qed.

Lemma agg_over_raw_agrees rows :
  aggs_ok -> selection_ok -> rows_ok rows -> agrees rows (agg_over_raw f64_show s selection aggs (encode_row <$> rows)).
Proof.
  intros Ha Hs Hr. apply scan_agrees; [done|apply Hr|].
  apply (scan_raw_ok rows (prepare_morsel s batch_new) [] [] (item_for <$> aggs)); try done; first [apply prepare_holds|apply items_start|by split].
Qed.

(** ** When the batch path declines *)

(** A value a column of type [t] is decoded from. *)
Definition kind_matches (t : ColumnType) (d : Datum) : Prop :=
  match d with
  | Null => True
  | Int _ => col_kind t = 0
  | Float _ => col_kind t = 1
  | Bool _ => col_kind t = 2
  | Text _ => col_kind t = 3
  | DateTime _ => col_kind t = 4
  end.

Definition leaf_shape (e : Expr) : Prop := match e with EColumn _ | ELiteral _ => True | _ => False end.

(** Columns and literals under AND, OR and NOT. *)
Fixpoint leaves_only (e : Expr) : Prop :=
  match e with
  | EAnd a b | EOr a b => leaves_only a /\ leaves_only b
  | ENot e => leaves_only e
  | ECmp lhs _ rhs => leaf_shape lhs /\ leaf_shape rhs
  | EIn e _ _ | EBetween e _ _ _ | ELike e _ _ => leaf_shape e
  | EColumn _ | ELiteral _ => True
  | _ => False
  end.

Lemma operand_some b col_of e i : leaf_shape e -> operand b col_of e i <> Ok None.
Proof. destruct e; cbn; try done. destruct (col_of name); [|done]. by destruct (cell b _ i). Qed.

Lemma leaf_loop_some f input : (forall i, f i <> Ok None) -> leaf_loop f input <> Ok None.
Proof.
  intros Hf. induction input as [|i input IH]; [done|]. cbn. specialize (Hf i). destruct (f i) as [[o|]| |]; cbn; try done.
  destruct (leaf_loop f input) as [[r|]| |]; done.
Qed.

Lemma leaf_some b col_of e test i : leaf_shape e -> leaf b col_of e test i <> Ok None.
Proof. intros He. unfold leaf. pose proof (operand_some b col_of e i He). by destruct (operand b col_of e i) as [[[]|]| |]. Qed.

Lemma eval_node_some b col_of e : leaves_only e -> forall input, eval_node f64_show b col_of e input <> Ok None.
Proof.
  induction e; cbn [leaves_only eval_node]; intros He input; try done.
  - apply leaf_loop_some. intros i. by apply leaf_some.
  - apply leaf_loop_some. intros i. unfold leaf_cmp. destruct He as [H1 H2].
    pose proof (operand_some b col_of e1 i H1). pose proof (operand_some b col_of e2 i H2).
    destruct (operand b col_of e1 i) as [[]| |]; cbn; try done. by destruct (operand b col_of e2 i) as [[]| |].
  - destruct He as [H1 H2]. specialize (IHe1 H1 input). destruct (eval_node f64_show b col_of e1 input) as [[ra|]| |]; cbn; try done.
    specialize (IHe2 H2 (tri_t ra)). by destruct (eval_node f64_show b col_of e2 (tri_t ra)) as [[]| |].
  - destruct He as [H1 H2]. specialize (IHe1 H1 input). destruct (eval_node f64_show b col_of e1 input) as [[ra|]| |]; cbn; try done.
    specialize (IHe2 H2 (subtract_sorted (subtract_sorted input (tri_t ra)) (tri_e ra))).
    by destruct (eval_node f64_show b col_of e2 _) as [[]| |].
  - specialize (IHe He input). by destruct (eval_node f64_show b col_of e input) as [[]| |].
  - apply leaf_loop_some. intros i. by apply leaf_some.
  - apply leaf_loop_some. intros i. by apply leaf_some.
  - apply leaf_loop_some. intros i. by apply leaf_some.
Qed.

Definition row_matches (r : Row) : Prop := Forall2 (fun c d => kind_matches (col_ctype c) d) (columns s) r.

Lemma push_datums_some r nd cs cts from :
  kind_of <$> cs = col_kind ∘ col_ctype <$> cts -> Forall2 (fun c d => kind_matches (col_ctype c) d) cts (drop from r) ->
  push_datums r nd from cs <> None.
Proof.
  revert cs from. induction cts as [|ct cts IH]; intros [|c cs] from Hk Hr; try done. cbn in Hk. injection Hk as Hk Hks.
  cbn [push_datums]. apply Forall2_cons_inv_l in Hr as (d & r' & Hd & Hr & Ed).
  assert (Hl : r !! from = Some d) by (rewrite <- (Nat.add_0_r from), <- lookup_drop, Ed; done).
  assert (Hdr : drop (S from) r = r') by (rewrite <- Nat.add_1_r, <- drop_drop, Ed; done).
  assert (push_datum c d <> None) as Hp by (destruct c, d; cbn in *; congruence).
  destruct (if needs nd from then _ else _) as [c1|] eqn:E; cbn.
  - specialize (IH cs (S from) Hks). rewrite Hdr in IH. specialize (IH Hr). by destruct (push_datums r nd (S from) cs).
  - destruct (needs nd from); [|done]. rewrite Hl in E. by cbn in E.
Qed.

Lemma push_row_some b pending r : batch_holds s need b pending -> row_matches r -> push_datum_row b r need <> None.
Proof.
  intros [Hk _] Hr. unfold push_datum_row. pose proof (push_datums_some r need (cols b) (columns s) 0 Hk Hr).
  by destruct (push_datums r need 0 (cols b)).
Qed.

Lemma on_morsel_some b items : match selection with Some e => leaves_only e | None => True end ->
  on_morsel f64_show items_step s selection b items <> Ok None.
Proof.
  intros Hl. unfold on_morsel. destruct selection as [e|].
  - unfold filter_batch. pose proof (eval_node_some b (index_of s) e Hl (sel b)).
    destruct (eval_node f64_show b (index_of s) e (sel b)) as [[r|]| |]; cbn; try done. by destruct (items_step _ items).
  - cbn. by destruct (items_step _ items).
Qed.

(** Rows of the columns' kinds and supported shapes are never declined. *)
Lemma scan_raw_some rows : match selection with Some e => leaves_only e | None => True end -> forall b pending items,
  Forall (row_ok s) rows -> Forall row_matches rows -> batch_holds s need b pending ->
  scan_raw f64_show items_step s selection need b (Zlen pending) (encode_row <$> rows) items <> Ok None.
Proof.
  intros Hl. induction rows as [|r rows IH]; intros b pending items Hr Hm Hb; cbn [fmap list_fmap scan_raw].
  - destruct (0 <? Zlen pending); [|done]. by apply on_morsel_some.
  - apply Forall_cons in Hr as [Hr Hrs]. apply Forall_cons in Hm as [Hm Hms].
    rewrite push_raw_row_ok by (first [apply Hr|rewrite (holds_length _ _ _ _ Hb); apply Hr]).
    pose proof (push_row_some b pending r Hb Hm) as Hp. destruct (push_datum_row b r need) as [b1|] eqn:Ep; [|done].
    apply (push_datum_row_holds s need b pending) in Ep; [|done|done].
    replace (Zlen pending + 1) with (Zlen (pending ++ [r])) by (rewrite length_app; cbn; lia).
    destruct (Zlen (pending ++ [r]) =? MORSEL); [|by apply IH].
    pose proof (on_morsel_some (finish_morsel need (Zlen (pending ++ [r])) b1) items Hl) as Hon.
    destruct (on_morsel _ _ _ _ _ _) as [[items'|]| |]; cbn; try done. apply (IH _ []); [done|done|apply prepare_holds].
Qed.

End runner_parity.

(** * Properties *)

(** A table of two columns, a filter and three aggregates. *)
Definition sales_schema : Schema :=
  mkSchema [mkColumnDef (str "id") CInt false false None; mkColumnDef (str "qty") CInt true false None] 0.
Definition sales : list Row := [[Int 1; Int 30]; [Int 2; Null]; [Int 3; Int 12]; [Int 4; Int 45]].
Definition sales_filter : Expr := EOr (ECmp (EColumn (str "qty")) OpGt (ELiteral (Int 20))) (ECmp (EColumn (str "nope")) OpEq (ELiteral (Int 1))).
Definition sales_aggs : list AggSpec := [SpCount; SpAgg ASum 1; SpAgg AMin 1].

Lemma sales_ok : rows_ok sales_schema sales.
Proof. split; repeat constructor; unfold in_i; done. Qed.

(** C28: The vectorized filter keeps exactly the rows the row-at-a-time filter
    keeps, on rows and literals without NaN and when the two bounds of every
    BETWEEN are of one type class or NULL ([expr_ok]; with other bounds the two
    differ, [batch_between_divergence]): on a decoded morsel the selection
    vector is the ascending list of the rows that pass, with the short circuits
    of AND and OR, the rows with unknown columns dropped, NULL operands failing,
    and every coercion of comparison, IN, BETWEEN and LIKE replayed; it never
    panics and never errors. *)
Theorem batch_filter_agrees (f64_show : Z -> bytes) (debug : Expr -> bytes) (s : Schema) (e : Expr) (rows : list Row) b0 b :
  expr_ok e -> rows_ok s rows -> Zlen rows <= MORSEL -> decode_morsel b0 s rows (need_mask s (Some e) []) = Some b ->
  match filter_batch f64_show b s e with
  | Ok (Some b') => filter_rows f64_show debug s e rows = Ok (rows_at rows (sel b'))
  | Ok None => True
  | _ => False
  end.
Proof.
  intros He Hr Hl Hd. unfold decode_morsel in Hd. rewrite Z.min_l in Hd by done. rewrite take_ge in Hd by lia.
  destruct (push_rows (prepare_morsel s b0) rows _) as [b1|] eqn:Ep; cbn in Hd; [|done]. injection Hd as <-.
  apply (push_rows_holds s _ rows _ []) in Ep; [|apply Hr|apply prepare_holds]. unfold MORSEL in Hl.
  pose proof (filter_morsel_ok f64_show debug s (Some e) [] (finish_morsel (need_mask s (Some e) []) (Zlen rows) b1) rows Hr He) as H.
  cbn beta iota in H. destruct (filter_batch f64_show _ s e) as [[b2|]| |]; try apply H.
  all: try (apply finish_holds; exact Ep); try (rewrite finish_sel by lia; by rewrite Nat2Z.id).
Qed.

Lemma batch_filter_agrees_witness :
  match decode_morsel batch_new sales_schema sales (need_mask sales_schema (Some sales_filter) []) with
  | Some b => match filter_batch show_Z b sales_schema sales_filter with
              | Ok (Some b') => filter_rows show_Z (fun _ => []) sales_schema sales_filter sales = Ok (rows_at sales (sel b'))
              | Ok None => True
              | _ => False
              end
  | None => False
  end.
Proof.
  destruct (decode_morsel batch_new sales_schema sales (need_mask sales_schema (Some sales_filter) [])) as [b|] eqn:E; [|discriminate E].
  apply (batch_filter_agrees show_Z (fun _ => []) sales_schema sales_filter sales batch_new b).
  - repeat split.
  - exact sales_ok.
  - discriminate.
  - exact E.
Defined.

(** C18: Batch aggregation computes the scalar answer: whether morsels are
    filled from rows or straight from the stored bytes of the leaves, an
    answer of the batch path is the answer [exec_aggregate_rows] gives on the
    filtered rows (integer sums past 64 bits, widening to FLOAT, empty sets,
    NULL skipping and the order of float additions included), an error is an
    error of the scalar path, nothing panics, and rows of the columns' kinds
    under a supported filter are never declined.  Rows and literals hold no NaN,
    and the two bounds of every BETWEEN in the filter are of one type class or
    NULL ([expr_ok]): with other bounds the two paths differ
    ([batch_between_divergence]). *)
Theorem batch_aggregates_agree (f64_show : Z -> bytes) (debug : Expr -> bytes) (s : Schema) (selection : option Expr) (aggs : list AggSpec) (rows : list Row) :
  aggs_ok s aggs -> selection_ok selection -> rows_ok s rows ->
  agrees f64_show debug s selection aggs rows (agg_over_rows f64_show s selection aggs rows) /\
  agrees f64_show debug s selection aggs rows (agg_over_raw f64_show s selection aggs (encode_row <$> rows)) /\
  (match selection with Some e => leaves_only e | None => True end -> Forall (row_matches s) rows ->
   agg_over_raw f64_show s selection aggs (encode_row <$> rows) <> Ok None).
Proof.
  intros Ha Hs Hr. split; [by apply agg_over_rows_agrees|]. split; [by apply agg_over_raw_agrees|]. intros Hl Hm.
  unfold agg_over_raw. pose proof (scan_raw_some f64_show s selection aggs rows Hl (prepare_morsel s batch_new) [] (item_for <$> aggs)
    (proj1 Hr) Hm (prepare_holds _ _ _)) as H. cbn [length] in H. change (Z.of_nat 0) with 0 in H.
  destruct (scan_raw _ _ _ _ _ _ _ _ _) as [[items|]| |]; cbn; try done. by destruct (items_out aggs items).
Qed.

Lemma batch_aggregates_agree_witness :
  agrees show_Z (fun _ => []) sales_schema (Some sales_filter) sales_aggs sales (agg_over_rows show_Z sales_schema (Some sales_filter) sales_aggs sales) /\
  agrees show_Z (fun _ => []) sales_schema (Some sales_filter) sales_aggs sales
    (agg_over_raw show_Z sales_schema (Some sales_filter) sales_aggs (encode_row <$> sales)) /\
  (leaves_only sales_filter -> Forall (row_matches sales_schema) sales ->
   agg_over_raw show_Z sales_schema (Some sales_filter) sales_aggs (encode_row <$> sales) <> Ok None).
Proof.
  apply (batch_aggregates_agree show_Z (fun _ => []) sales_schema (Some sales_filter) sales_aggs sales).
  - repeat constructor; discriminate.
  - repeat split.
  - exact sales_ok.
Defined.

(** The batch answer on the example: two rows, sum 75, minimum 30. *)
Example sales_answer :
  agg_over_raw show_Z sales_schema (Some sales_filter) sales_aggs (encode_row <$> sales) = Ok (Some [Int 2; Int 75; Int 30]).
Proof. vm_compute. reflexivity. Qed.

(** Bounds of different classes: the row filter compares the coerced value with
    the first bound by type rank, the vectorized filter coerces it again. *)
Lemma batch_between_divergence :
  let s := mkSchema [mkColumnDef (str "b") CBool true false None] 0 in
  let e := EBetween (EColumn (str "b")) (Bool true) (Int 3) false in
  let rows := [[Bool false]] in
  filter_rows show_Z (fun _ => []) s e rows = Ok rows /\
  exists b b', decode_morsel batch_new s rows (need_mask s (Some e) []) = Some b /\
    filter_batch show_Z b s e = Ok (Some b') /\ sel b' = [].
Proof. split; [vm_compute; reflexivity|]. eexists _, _. split; [vm_compute; reflexivity|]. split; vm_compute; reflexivity. Qed.
