(* ===== verification/Plan.v ===== *)
(** Access-path selection (db/plan.rs): which rows a WHERE clause lets the
    engine skip by seeking keys or index entries. *)
From stdpp Require Import base list gmap strings.
From Stdlib Require Import ZArith Lia.
From S2P Require Import Prelude Machine Utf8 Float Types DateTime TableDef BTree Kv Page Table Expr.

Abbreviation Bound := (option (Datum * bool)).

Inductive AccessPath : Type :=
| Point (d : Datum)
| PkIn (vs : list Datum)
| Range (lo hi : Bound)
| SecondaryPath (col_idx : Z) (lo hi : Bound)
| SecIn (col_idx : Z) (values : list Datum)
| FullScan.

Definition coerce_for_col (t : ColumnType) (lit : Datum) : option Datum :=
  match t, lit with
  | (CInt | CBigInt), Int v => Some (Int v)
  | (CFloat | CDouble), Int v => Some (Float (f64_of_i64 v))
  | (CFloat | CDouble), Float v => Some (Float v)
  | (CText | CVarChar), Text v => Some (Text v)
  | CBool, Bool v => Some (Bool v)
  | CBool, Int v => Some (Bool (negb (v =? 0)))
  | (CInt | CBigInt), Bool v => Some (Int (int_of_bool v))
  | (CInt | CBigInt), Float v => if f64_integral v then Some (Int (f64_to_i64 v)) else None
  | _, _ => None
  end.

(** The six variables [collect_col_bounds] fills in. *)
Record Bounds := mkBounds {
  b_eq : option Datum;
  b_lo : Bound;
  b_hi : Bound;
  b_in : list Datum;
  b_saw_in : bool;
  b_has_pred : bool;
}.

Definition no_bounds : Bounds := mkBounds None None None [] false false.

Definition update_bound (slot : Bound) (lit : Datum) (inclusive is_lower : bool) : Bound :=
  let better :=
    match slot with
    | None => true
    | Some (cur, cur_inc) =>
      if is_lower then cmp_apply OpGt lit cur || (datum_eqb lit cur && inclusive && negb cur_inc)
      else cmp_apply OpLt lit cur || (datum_eqb lit cur && inclusive && negb cur_inc)
    end in
  if better then Some (lit, inclusive) else slot.

Definition set_eq (v : Datum) (b : Bounds) : Bounds := mkBounds (Some v) (b_lo b) (b_hi b) (b_in b) (b_saw_in b) true.
Definition set_lo (v : Datum) (inclusive : bool) (b : Bounds) : Bounds :=
  mkBounds (b_eq b) (update_bound (b_lo b) v inclusive true) (b_hi b) (b_in b) (b_saw_in b) true.
Definition set_hi (v : Datum) (inclusive : bool) (b : Bounds) : Bounds :=
  mkBounds (b_eq b) (b_lo b) (update_bound (b_hi b) v inclusive false) (b_in b) (b_saw_in b) true.
Definition add_in (vs : list Datum) (b : Bounds) : Bounds := mkBounds (b_eq b) (b_lo b) (b_hi b) (b_in b ++ vs) true true.
Definition set_pred (b : Bounds) : Bounds := mkBounds (b_eq b) (b_lo b) (b_hi b) (b_in b) (b_saw_in b) true.

Definition is_none {A} (o : option A) : bool := match o with None => true | Some _ => false end.

(** [a = 1 OR a = 2 OR ...] on one column. *)
Fixpoint or_eq_list (e : Expr) (target : bytes) (coerce : Datum -> option Datum) : option (list Datum) :=
  match e with
  | EOr a b => l ← or_eq_list a target coerce; r ← or_eq_list b target coerce; Some (l ++ r)
  | ECmp (EColumn col) op (ELiteral lit) =>
    if negb (bool_decide (col = target)) || negb (bool_decide (op = OpEq)) || is_null lit then None
    else v ← coerce lit; Some [v]
  | _ => None
  end.

(** [while let Some(&c) = chars.last()]: increment the last character, after
    dropping the trailing ones that have no successor in [char]. *)
Fixpoint bump_last (rev_chars : list Z) : option (list Z) :=
  match rev_chars with
  | [] => None
  | c :: cs => if c =? CHAR_MAX then bump_last cs else d ← char_from_u32 (c + 1); Some (d :: cs)
  end.

Definition prefix_upper (prefix : bytes) : option bytes :=
  cs ← bump_last (rev (chars prefix)); Some (of_chars (rev cs)).

Fixpoint take_while (f : Z -> bool) (l : list Z) : list Z :=
  match l with x :: l => if f x then x :: take_while f l else [] | [] => [] end.

(** The literal prefix of a LIKE pattern. *)
Definition like_prefix (pattern : bytes) : bytes :=
  of_chars (take_while (fun c => negb (c =? PERCENT) && negb (c =? UNDERSCORE)) (chars pattern)).

Definition is_text (t : ColumnType) : bool := match t with CText | CVarChar => true | _ => false end.

Fixpoint collect_col_bounds (e : Expr) (target : bytes) (ctype : ColumnType) (b : Bounds) : bool * Bounds :=
  let coerce := coerce_for_col ctype in
  match e with
  | EAnd x y =>
    let '(ok_a, b) := collect_col_bounds x target ctype b in
    let '(ok_b, b) := collect_col_bounds y target ctype b in
    (ok_a && ok_b, b)
  | EOr _ _ =>
    match or_eq_list e target coerce with
    | Some vals => (true, if is_none (b_eq b) then add_in vals b else b)
    | None => (true, b)
    end
  | ECmp (EColumn col) op (ELiteral lit) =>
    if negb (bool_decide (col = target)) || is_null lit then (true, b)
    else match coerce lit with
         | None => (false, b)
         | Some v =>
           (true, match op with
                  | OpEq => set_eq v b
                  | OpGe => set_lo v true b
                  | OpGt => set_lo v false b
                  | OpLe => set_hi v true b
                  | OpLt => set_hi v false b
                  | OpNe => set_pred b
                  end)
         end
  | EIn (EColumn col) values false =>
    if negb (bool_decide (col = target)) || negb (is_none (b_eq b)) then (true, b)
    else (true, add_in (omap (fun v => if is_null v then None else coerce v) values) b)
  | EBetween (EColumn col) blo bhi false =>
    if negb (bool_decide (col = target)) then (true, b)
    else match coerce blo, coerce bhi with
         | Some l, Some h => (true, set_hi h true (set_lo l true b))
         | _, _ => (false, b)
         end
  | ELike (EColumn col) pattern false =>
    if negb (bool_decide (col = target)) || negb (is_text ctype) then (true, b)
    else
      let prefix := like_prefix pattern in
      if Zlen prefix =? Zlen pattern then
        (true, match coerce (Text prefix) with Some c => set_eq c b | None => b end)
      else match prefix with
           | [] => (true, b)
           | _ =>
             let b := set_lo (Text prefix) true b in
             (true, match prefix_upper prefix with Some upper => set_hi (Text upper) false b | None => b end)
           end
  | _ => (true, b)
  end.

Section access.
Context {T P : Type}.

(** The first secondary index whose column the predicate bounds. *)
Fixpoint secondary_path (s : Schema) (sel : Expr) (indexes : list IndexDef) : AccessPath :=
  match indexes with
  | [] => FullScan
  | i :: indexes =>
    match index_of s (idx_column i) with
    | None => secondary_path s sel indexes
    | Some col_idx =>
      match columns s !! Z.to_nat col_idx with
      | None => FullScan
      | Some col =>
        let '(ok, b) := collect_col_bounds sel (idx_column i) (col_ctype col) no_bounds in
        if ok then
          match b_eq b with
          | Some v => SecondaryPath col_idx (Some (v, true)) (Some (v, true))
          | None =>
            if b_saw_in b then SecIn col_idx (b_in b)
            else if b_has_pred b then SecondaryPath col_idx (b_lo b) (b_hi b)
            else secondary_path s sel indexes
          end
        else secondary_path s sel indexes
      end
    end
  end.

(** [Panic] when the schema's key index is out of range. *)
Definition access_path (t : @Table T P) (selection : option Expr) : res AccessPath :=
  if t_ephemeral t then Ok FullScan
  else match selection with
  | None => Ok FullScan
  | Some sel =>
    let s := td_schema (t_def t) in
    match columns s !! Z.to_nat (pk_idx s) with
    | None => Panic
    | Some pk_col =>
      let '(ok, b) := collect_col_bounds sel (col_name pk_col) (col_ctype pk_col) no_bounds in
      let next := Ok (secondary_path s sel (secondary_indexes t)) in
      if ok then
        match b_eq b with
        | Some v => Ok (Point v)
        | None => if b_saw_in b then Ok (PkIn (b_in b)) else if b_has_pred b then Ok (Range (b_lo b) (b_hi b)) else next
        end
      else next
    end
  end.

End access.

(** * Joins: hashable keys and equi-join detection *)

Inductive JoinKey : Type := KInt (v : Z) | KFloat (bits : Z) | KText (s : bytes) | KBool (b : bool) | KDateTime (m : Z).

#[global] Instance JoinKey_eq_dec : EqDecision JoinKey.
Proof. solve_decision. Defined.

Definition f64_le (a b : Z) : bool := match f64_partial_cmp a b with Some (Lt | Eq) => true | _ => false end.

Definition join_key (d : Datum) : option JoinKey :=
  match d with
  | Null => None
  | Int v => Some (KInt v)
  | Float v =>
    if f64_is_nan v then None
    else if f64_integral v && f64_le (f64_of_i64 i64_MIN) v && f64_le v (f64_of_i64 i64_MAX) then Some (KInt (f64_to_i64 v))
    else Some (KFloat v)
  | Text s => Some (match parse_datetime_str s with Some m => KDateTime m | None => KText s end)
  | Bool b => Some (KBool b)
  | DateTime m => Some (KDateTime m)
  end.

Fixpoint equi_join (on : Expr) (left_width : Z) (resolve : bytes -> res Z) : option (Z * Z) :=
  match on with
  | EAnd a b => match equi_join a left_width resolve with Some p => Some p | None => equi_join b left_width resolve end
  | ECmp (EColumn x) OpEq (EColumn y) =>
    match resolve x, resolve y with
    | Ok i, Ok k =>
      match i <? left_width, k <? left_width with
      | true, false => Some (i, k)
      | false, true => Some (k, i)
      | _, _ => None
      end
    | _, _ => None
    end
  | _ => None
  end.
