(* ===== verification/PlanSpec.v ===== *)
(** Why a seek may replace a scan: a row on which the WHERE clause is true is
    one the chosen access path delivers.  The conditions under which this
    holds are stated on the literals of the clause; outside of them rows are
    lost. *)
From stdpp Require Import base list gmap strings.
From Stdlib Require Import ZArith Lia.
From S2P Require Import Prelude Machine Utf8 Float Types DateTime TableDef BTree BTreeScan Kv Page Table TableSpec TableScan Expr BatchSpec Plan.

(** * Literals a column can be compared with *)

(** Values of a column's own kind; NULL is not one. *)
Definition exact (t : ColumnType) (d : Datum) : bool :=
  match t, d with
  | (CInt | CBigInt), Int _ | (CFloat | CDouble), Float _ | (CText | CVarChar), Text _ | CBool, Bool _
  | (CDateTime | CTimestamp), DateTime _ => true
  | _, _ => false
  end.

(** What a column of the type stores. *)
Definition stored_value (t : ColumnType) (d : Datum) : Prop := sec_wf d /\ (d = Null \/ exact t d = true).

(** Literals whose conversion to the column type keeps every comparison. *)
Definition lit_fits (t : ColumnType) (lit : Datum) : bool :=
  match t, lit with
  | (CInt | CBigInt), (Int _ | Bool _) | (CFloat | CDouble), (Int _ | Float _) | (CText | CVarChar), Text _ | CBool, Bool _ => true
  | CBool, Int v => (v =? 0) || (v =? 1)
  | _, _ => false
  end.

(** Literals that equal no value of the column. *)
Definition never_equal (t : ColumnType) (lit : Datum) : bool :=
  match t, lit with
  | (CText | CVarChar | CDateTime | CTimestamp), (Int _ | Float _ | Bool _) => true
  | (CInt | CBigInt | CFloat | CDouble | CBool), (Text _ | DateTime _) => true
  | _, _ => false
  end.

Definition lit_wf (t : ColumnType) (lit : Datum) : Prop := forall v, coerce_for_col t lit = Some v -> sec_wf v.

Definition lit_ok (t : ColumnType) (lit : Datum) : Prop :=
  lit_wf t lit /\ (coerce_for_col t lit = None \/ lit_fits t lit = true).

Definition member_ok (t : ColumnType) (lit : Datum) : Prop :=
  lit_wf t lit /\ (lit = Null \/ lit_fits t lit = true \/ (coerce_for_col t lit = None /\ never_equal t lit = true)).

(** The clauses on column [target] that the planner turns into bounds. *)
Fixpoint plan_ok (target : bytes) (t : ColumnType) (e : Expr) : Prop :=
  match e with
  | EAnd a b | EOr a b => plan_ok target t a /\ plan_ok target t b
  | ECmp (EColumn col) _ (ELiteral lit) => col = target -> lit_ok t lit
  | EIn (EColumn col) values false => col = target -> Forall (member_ok t) values
  | EBetween (EColumn col) lo hi false => col = target -> lit_ok t lo /\ lit_ok t hi /\ bounds_alike lo hi
  | ELike (EColumn col) pattern false => col = target -> utf8_valid pattern = true /\ Zlen pattern < 2 ^ 29
  | _ => True
  end.

Lemma coerce_exact t lit v : coerce_for_col t lit = Some v -> exact t v = true.
Proof. destruct t, lit; cbn; try case_match; intros [= <-]; done. Qed.

Lemma exact_same t a b : exact t a = true -> exact t b = true -> same_kind a b = true.
Proof. by destruct t, a, b. Qed.

Lemma exact_not_null t d : exact t d = true -> d <> Null.
Proof. by destruct t, d. Qed.

(** The comparison of the evaluator is the comparison with the converted
    literal, in every operator. *)
Lemma coerced_cmp t x lit v op :
  exact t x = true -> lit_fits t lit = true -> coerce_for_col t lit = Some v ->
  cmp_apply op (coerce_pair x lit).1 (coerce_pair x lit).2 = cmp_apply op x v.
Proof.
  intros Hx Hl Hv. destruct t, x as [|i|f|s|b|m]; try done; destruct lit as [|i'|f'|s'|b'|m']; try done; cbn in Hv; injection Hv as <-; try done.
  all: try by destruct b'.
  cbn in Hl. apply orb_true_iff in Hl as [->%Z.eqb_eq| ->%Z.eqb_eq]; by destruct b, op.
Qed.

Lemma sec_wf_nan_free d : sec_wf d -> nan_free d.
Proof. intros [_ H]. by destruct d; [..|apply H| | |]. Qed.

Lemma cmp_eq_datum t x v : exact t x = true -> exact t v = true -> sec_wf x -> sec_wf v -> datum_eqb x v = true -> cmp x v = Eq.
Proof.
  intros Hx Hv Wx Wv. pose proof (datum_eqb_cmp x v (sec_wf_nan_free _ Wx) (sec_wf_nan_free _ Wv)) as H.
  assert (coerce_pair x v = (x, v)) as E by by destruct t, x, v. rewrite E in H. rewrite H by (left; by eapply exact_not_null).
  by destruct (cmp x v).
Qed.

Lemma never_equal_member t x lit : exact t x = true -> never_equal t lit = true -> datum_eqb (coerce_pair x lit).1 (coerce_pair x lit).2 = false.
Proof. by destruct t, x, lit. Qed.

(** * The prefix of a LIKE pattern *)

Abbreviation plain c := (negb (c =? PERCENT) && negb (c =? UNDERSCORE)) (only parsing).

Lemma take_while_prefix f l : exists r, l = take_while f l ++ r /\ Forall (fun c => f c = true) (take_while f l).
Proof.
  induction l as [|c l (r & IH & Hf)]; [by exists []|]. cbn. destruct (f c) eqn:E; [|by exists (c :: l)].
  exists r. split; [cbn; by f_equal|by constructor].
Qed.

(** What matches a pattern starts with the plain characters it starts with. *)
Lemma like_plain_prefix p : forall q t, Forall (fun c => plain c = true) p -> Expr.like t (p ++ q) -> exists t', t = p ++ t' /\ Expr.like t' q.
Proof.
  induction p as [|c p IH]; intros q t Hp H; [by exists t|]. apply Forall_cons in Hp as [Hc Hp].
  apply andb_true_iff in Hc as [Hc%negb_true_iff%Z.eqb_neq Hu%negb_true_iff%Z.eqb_neq]. cbn [app] in H.
  rewrite (like_char_inv c t (p ++ q) Hc) in H. destruct H as (tc & t1 & -> & [|<-] & H); [done|].
  destruct (IH _ _ Hp H) as (t' & -> & H'). by exists t'.
Qed.

Lemma like_nil_inv t : Expr.like t [] -> t = [].
Proof. by inversion 1. Qed.

Lemma lex_prefix_le (a b : bytes) : lex (a ++ b) a <> Lt.
Proof. rewrite <- (app_nil_r a) at 2. rewrite lex_app_same. by destruct b. Qed.

(** A bumped prefix is above everything that starts with the prefix. *)
Lemma bump_last_above rcs : forall r, Forall scalar rcs -> bump_last rcs = Some r ->
  Forall scalar r /\ (length r <= length rcs)%nat /\ forall t, lex (rev rcs ++ t) (rev r) = Lt.
Proof.
  induction rcs as [|c cs IH]; intros r Hs; [done|]. apply Forall_cons in Hs as [Hc Hs]. cbn [bump_last].
  destruct (Z.eqb_spec c CHAR_MAX) as [->|Hne].
  - intros H. destruct (IH _ Hs H) as (Hr & Hl & Ha). split_and!; [done|cbn; lia|]. intros t. cbn [rev]. rewrite <- app_assoc. apply Ha.
  - unfold char_from_u32. destruct (_ || _)%bool eqn:E; [|done]. intros [= <-]. split_and!; [|done|].
    + constructor; [|done]. unfold scalar, between in *.
      apply orb_true_iff in E as [[?%Z.leb_le ?%Z.leb_le]%andb_true_iff|[?%Z.leb_le ?%Z.leb_le]%andb_true_iff]; lia.
    + intros t. cbn [rev]. rewrite <- app_assoc, lex_app_same. cbn. destruct (Z.compare_spec c (c + 1)); [lia|done|lia].
Qed.

Lemma of_char_len c : Zlen (of_char c) <= 4.
Proof. unfold of_char. by repeat case_match. Qed.

Lemma of_chars_len cs : Zlen (of_chars cs) <= 4 * Z.of_nat (length cs).
Proof.
  induction cs as [|c cs IH]; [done|]. rewrite of_chars_cons, Zlen_app. pose proof (of_char_len c). cbn [length]. lia.
Qed.

Lemma chars_len s : utf8_valid s = true -> (length (chars s) <= length s)%nat.
Proof.
  intros [E _]%chars_valid. apply (f_equal length) in E. rewrite <- E. clear E. induction (chars s) as [|c cs IH]; [cbn; lia|].
  rewrite of_chars_cons, length_app. destruct (of_char_ne c) as (b & l & ->). cbn [length] in *. lia.
Qed.

Section prefix.
Context (pattern : bytes) (Hu : utf8_valid pattern = true) (Hlen : Zlen pattern < 2 ^ 29).
Let cs := take_while (fun c => plain c) (chars pattern).

Lemma prefix_chars : exists r, chars pattern = cs ++ r /\ Forall (fun c => plain c = true) cs /\ Forall scalar cs /\
  chars (like_prefix pattern) = cs /\ utf8_valid (like_prefix pattern) = true.
Proof.
  destruct (take_while_prefix (fun c => plain c) (chars pattern)) as (r & Hr & Hf). exists r.
  pose proof (proj2 (chars_valid _ Hu)) as Hs. rewrite Hr in Hs. apply Forall_app in Hs as [Hs _].
  destruct (of_chars_valid _ Hs) as [V C]. split_and!; done.
Qed.

Lemma prefix_wf : sec_wf (Text (like_prefix pattern)).
Proof.
  destruct prefix_chars as (r & Hr & _ & _ & _ & V). split; [|done]. split; [done|].
  pose proof (chars_len _ Hu) as Hc. pose proof (of_chars_len cs) as Hp. rewrite Hr, length_app in Hc. change (like_prefix pattern) with (of_chars cs). lia.
Qed.

Lemma prefix_upper_wf u : prefix_upper (like_prefix pattern) = Some u -> sec_wf (Text u).
Proof.
  destruct prefix_chars as (r & Hr & _ & Hs & C & V). unfold prefix_upper. rewrite C.
  destruct (bump_last (rev cs)) as [l|] eqn:E; [|done]. intros [= <-].
  destruct (bump_last_above (rev cs) l) as (Hl & Hn & _); [by apply Forall_rev|done|].
  split; [|done]. split; [by apply of_chars_valid, Forall_rev|].
  pose proof (of_chars_len (rev l)) as Hp. pose proof (chars_len _ Hu) as Hc. rewrite Hr, length_app in Hc. rewrite length_rev in Hn, Hp. lia.
Qed.

Context (s : bytes) (Hs : utf8_valid s = true) (Hm : like_match s pattern = true).

Lemma prefix_of_match : exists t, chars s = cs ++ t.
Proof.
  destruct prefix_chars as (r & Hr & Hf & _). apply like_match_spec in Hm. rewrite Hr in Hm.
  destruct (like_plain_prefix _ _ _ Hf Hm) as (t & -> & _). by exists t.
Qed.

Lemma prefix_below : lex s (like_prefix pattern) <> Lt.
Proof.
  destruct prefix_of_match as [t Ht]. destruct prefix_chars as (r & _ & _ & _ & C & V).
  rewrite chars_order, C, Ht by done. apply lex_prefix_le.
Qed.

Lemma prefix_upper_above u : prefix_upper (like_prefix pattern) = Some u -> lex s u = Lt.
Proof.
  intros H. destruct prefix_of_match as [t Ht]. destruct prefix_chars as (r & _ & _ & Hsc & C & V). unfold prefix_upper in H. rewrite C in H.
  destruct (bump_last (rev cs)) as [l|] eqn:E; [|done]. injection H as <-.
  destruct (bump_last_above (rev cs) l) as (Hl & _ & Ha); [by apply Forall_rev|done|].
  destruct (of_chars_valid (rev l)) as [V' C']; [by apply Forall_rev|].
  rewrite chars_order, C', Ht by done. specialize (Ha t). by rewrite rev_involutive in Ha.
Qed.

(** Without a wildcard the pattern is the only match. *)
Lemma whole_pattern : (Zlen (like_prefix pattern) =? Zlen pattern) = true -> s = like_prefix pattern.
Proof.
  intros H%Z.eqb_eq. destruct prefix_chars as (r & Hr & Hf & Hsc & C & V).
  assert (r = []) as ->.
  { pose proof (proj1 (chars_valid _ Hu)) as E. rewrite Hr, of_chars_app in E. unfold like_prefix in H. fold cs in H.
    rewrite <- E, Zlen_app in H. destruct r as [|c r]; [done|]. rewrite of_chars_cons, Zlen_app in H.
    destruct (of_char_ne c) as (b & l & Eb). rewrite Eb, Zlen_cons in H. lia. }
  apply like_match_spec in Hm. rewrite Hr in Hm. destruct (like_plain_prefix _ _ _ Hf Hm) as (t & Ht & ->%like_nil_inv).
  rewrite app_nil_r in Ht. apply chars_inj; [done..|]. by rewrite Ht, C.
Qed.

End prefix.

(** * Bounds *)

Definition bound_at (t : ColumnType) (v : Datum) : Prop := exact t v = true /\ sec_wf v.

(** Every bound is a value of the column. *)
Record bounds_at (t : ColumnType) (b : Bounds) : Prop := {
  ba_eq : forall v, b_eq b = Some v -> bound_at t v;
  ba_lo : forall v i, b_lo b = Some (v, i) -> bound_at t v;
  ba_hi : forall v i, b_hi b = Some (v, i) -> bound_at t v;
  ba_in : Forall (bound_at t) (b_in b);
}.

(** The value is within the bounds. *)
Record holds (b : Bounds) (x : Datum) : Prop := {
  h_eq : forall v, b_eq b = Some v -> cmp x v = Eq;
  h_lo : below_lo (b_lo b) x = false;
  h_hi : above_hi (b_hi b) x = false;
  h_in : b_saw_in b = true -> Exists (fun v => cmp x v = Eq) (b_in b);
  h_some : b_has_pred b = true -> x <> Null;
}.

Lemma no_bounds_at t : bounds_at t no_bounds.
Proof. by split. Qed.

Lemma no_bounds_holds x : holds no_bounds x.
Proof. by split. Qed.

Lemma update_bound_cases slot v i is_lower : update_bound slot v i is_lower = Some (v, i) \/ update_bound slot v i is_lower = slot.
Proof. unfold update_bound. destruct slot as [[cur inc]|]; [|by left]. destruct is_lower, (_ || _); auto. Qed.

Section setters.
Context (t : ColumnType) (b : Bounds) (Hb : bounds_at t b).

Lemma set_eq_at v : bound_at t v -> bounds_at t (set_eq v b).
Proof. intros H. destruct Hb. split; cbn; [by intros ? [= <-]|done..]. Qed.

Lemma set_lo_at v i : bound_at t v -> bounds_at t (set_lo v i b).
Proof. intros H. destruct Hb. split; cbn; [done| |done..]. by destruct (update_bound_cases (b_lo b) v i true) as [-> | ->]; [intros ? ? [= <- <-]|]. Qed.

Lemma set_hi_at v i : bound_at t v -> bounds_at t (set_hi v i b).
Proof. intros H. destruct Hb. split; cbn; [done..| |done]. by destruct (update_bound_cases (b_hi b) v i false) as [-> | ->]; [intros ? ? [= <- <-]|]. Qed.

Lemma add_in_at vs : Forall (bound_at t) vs -> bounds_at t (add_in vs b).
Proof. intros H. destruct Hb. split; cbn; [done..|by apply Forall_app]. Qed.

Lemma set_pred_at : bounds_at t (set_pred b).
Proof. by destruct Hb. Qed.

Context (x : Datum) (Hx : x <> Null) (Hh : holds b x).

Lemma set_eq_holds v : cmp x v = Eq -> holds (set_eq v b) x.
Proof. intros H. destruct Hh. split; cbn; [by intros ? [= <-]|done..]. Qed.

Lemma set_lo_holds v i : below_lo (Some (v, i)) x = false -> holds (set_lo v i b) x.
Proof. intros H. destruct Hh. split; cbn [set_lo b_eq b_lo b_hi b_in b_saw_in]; [done| |done..]. by destruct (update_bound_cases (b_lo b) v i true) as [-> | ->]. Qed.

Lemma set_hi_holds v i : above_hi (Some (v, i)) x = false -> holds (set_hi v i b) x.
Proof. intros H. destruct Hh. split; cbn [set_hi b_eq b_lo b_hi b_in b_saw_in]; [done..| |done|done]. by destruct (update_bound_cases (b_hi b) v i false) as [-> | ->]. Qed.

Lemma add_in_holds vs : Exists (fun v => cmp x v = Eq) vs -> holds (add_in vs b) x.
Proof. intros H. destruct Hh. split; cbn; [done..| |done]. intros _. apply Exists_app. by right. Qed.

Lemma set_pred_holds : holds (set_pred b) x.
Proof. by destruct Hh. Qed.

End setters.

(** ** What the walk over the clause collects *)

Lemma lit_bound t lit v : lit_wf t lit -> coerce_for_col t lit = Some v -> bound_at t v.
Proof. intros Hw Hv. split; [by eapply coerce_exact|by apply Hw]. Qed.

Lemma or_eq_list_at target t e : forall vs, plan_ok target t e -> or_eq_list e target (coerce_for_col t) = Some vs -> Forall (bound_at t) vs.
Proof.
  induction e as [| |l _ op r _| |a IHa b IHb|e0 _|e0 _ vs0 n0|e0 _ lo0 hi0 n0|e0 _ p0 n0|e0 _ q0 n0|q0|q0 n0]; intros vs Hp; cbn [or_eq_list]; try done.
  - destruct l as [col| | | | | | | | | | |]; try done. destruct r as [|lit| | | | | | | | | |]; try done. cbn [plan_ok] in Hp.
    case_bool_decide as Hc; [|done]. destruct (negb (bool_decide (op = OpEq))), (is_null lit); try done. cbn.
    destruct (coerce_for_col t lit) as [v|] eqn:Ev; [|done]. intros [= <-]. constructor; [|done].
    eapply lit_bound; [apply (Hp Hc)|done].
  - destruct Hp as [Ha Hb]. destruct (or_eq_list a _ _) as [l|] eqn:El; [|done]. cbn.
    destruct (or_eq_list b _ _) as [r|] eqn:Er; [|done]. intros [= <-]. apply Forall_app. eauto.
Qed.

Lemma collect_at target t e : forall b, plan_ok target t e -> bounds_at t b -> bounds_at t (collect_col_bounds e target t b).2.
Proof.
  induction e as [| |l _ op r _|a IHa c IHc|a IHa c IHc|e0 _|e0 _ vs n|e0 _ lo hi n|e0 _ pat n|e0 _ q0 n0|q0|q0 n0]; intros b Hp Hb; try done.
  - destruct l as [col| | | | | | | | | | |]; try done. destruct r as [|lit| | | | | | | | | |]; try done. cbn [plan_ok collect_col_bounds] in *.
    case_bool_decide as Hc; [|done]. destruct (is_null lit); [done|]. cbn [negb orb]. destruct (coerce_for_col t lit) as [v|] eqn:Ev; [|done].
    assert (bound_at t v) as Hv by (eapply lit_bound; [apply (Hp Hc)|done]).
    destruct op; cbn [snd]; auto using set_eq_at, set_pred_at, set_lo_at, set_hi_at.
  - destruct Hp as [Ha Hc]. cbn [collect_col_bounds]. specialize (IHa b Ha Hb). destruct (collect_col_bounds a _ _ _) as [oka b1].
    specialize (IHc b1 Hc IHa). by destruct (collect_col_bounds c _ _ _).
  - change (collect_col_bounds (EOr a c) target t b) with
      match or_eq_list (EOr a c) target (coerce_for_col t) with
      | Some vals => (true, if is_none (b_eq b) then add_in vals b else b) | None => (true, b) end.
    destruct (or_eq_list (EOr a c) _ _) as [vs|] eqn:E; [|done]. cbn [snd]. destruct (is_none _); [|done].
    apply add_in_at; [done|]. by eapply or_eq_list_at.
  - destruct e0 as [col| | | | | | | | | | |]; try done. destruct n; [done|]. cbn [plan_ok collect_col_bounds] in *. case_bool_decide as Hc; [|done].
    destruct (is_none _); [|done]. cbn [negb orb snd]. apply add_in_at; [done|]. specialize (Hp Hc). apply Forall_forall.
    intros v (lit & Hl & Hv)%list_elem_of_omap. destruct (is_null lit); [done|]. rewrite Forall_forall in Hp.
    eapply lit_bound; [by apply Hp|done].
  - destruct e0 as [col| | | | | | | | | | |]; try done. destruct n; [done|]. cbn [plan_ok collect_col_bounds] in *. case_bool_decide as Hc; [|done]. cbn [negb].
    destruct (Hp Hc) as ([Hl _] & [Hh _] & _). destruct (coerce_for_col t lo) as [l|] eqn:El; [|done]. destruct (coerce_for_col t hi) as [h|] eqn:Eh; [|done].
    cbn [snd]. apply set_hi_at; [apply set_lo_at; [done|by apply (lit_bound t lo)]|by apply (lit_bound t hi)].
  - destruct e0 as [col| | | | | | | | | | |]; try done. destruct n; [done|]. cbn [plan_ok collect_col_bounds] in *. case_bool_decide as Hc; [|done]. cbn [negb].
    destruct (is_text t) eqn:Et; [|done]. cbn [negb orb]. destruct (Hp Hc) as [Hu Hl].
    assert (Hbt : forall s, sec_wf (Text s) -> bound_at t (Text s)) by (intros s Hs; split; [by destruct t|done]).
    destruct (_ =? _); [destruct (coerce_for_col t (Text _)) as [c|] eqn:Ec; [|done]; cbn [snd]; apply set_eq_at; [done|];
      assert (c = Text (like_prefix pat)) as -> by (destruct t; cbn in Et, Ec; congruence); by apply Hbt, prefix_wf|].
    destruct (like_prefix pat) as [|c0 pre] eqn:Epre; [done|]. rewrite <- Epre.
    assert (bounds_at t (set_lo (Text (like_prefix pat)) true b)) as Hlo by by apply set_lo_at, Hbt, prefix_wf.
    destruct (prefix_upper _) as [u|] eqn:Eu; [|done]. cbn [snd]. apply set_hi_at; [done|]. by eapply Hbt, prefix_upper_wf.
Qed.

Section rows.
Context (f64_show : Z -> bytes) (debug : Expr -> bytes) (resolve : bytes -> res Datum).
Context (target : bytes) (t : ColumnType) (x : Datum) (Hres : resolve target = Ok x) (Hx : stored_value t x).

Abbreviation ev := (eval_with f64_show debug resolve).
Abbreviation leaf_op e := (eval_operand debug resolve e).

Lemma value_exact : x <> Null -> exact t x = true.
Proof. by destruct Hx as [_ [|]]. Qed.

Lemma operand_true e (f : Datum -> bool) :
  (d ← leaf_op e; if is_null d then mret false else mret (f d)) = Ok true -> e = EColumn target -> x <> Null /\ f x = true.
Proof. intros H ->. cbn in H. rewrite Hres in H. cbn in H. destruct x; cbn in H; [done|..]; injection H as H; done. Qed.

Lemma cmp_true op lit :
  ev (ECmp (EColumn target) op (ELiteral lit)) = Ok true ->
  x <> Null /\ is_null lit = false /\ cmp_apply op (coerce_pair x lit).1 (coerce_pair x lit).2 = true.
Proof.
  cbn. rewrite Hres. cbn. destruct (is_null x) eqn:En; [done|]. destruct (is_null lit); [done|]. cbn.
  destruct (coerce_pair x lit) as [l r]. intros [= H]. split_and!; [by destruct x|done|done].
Qed.

Lemma cmp_converted op lit v :
  lit_ok t lit -> coerce_for_col t lit = Some v -> ev (ECmp (EColumn target) op (ELiteral lit)) = Ok true ->
  x <> Null /\ bound_at t v /\ cmp_apply op x v = true.
Proof.
  intros [Hw [Hn|Hf]] Hv H; [congruence|]. apply cmp_true in H as (Hn & _ & H). split_and!; [done|by eapply lit_bound|].
  by rewrite <- (coerced_cmp t x lit v) by auto using value_exact.
Qed.

Lemma eq_converted v : x <> Null -> bound_at t v -> datum_eqb x v = true -> cmp x v = Eq.
Proof. intros Hn [He Hw]. destruct Hx as [Hxw _]. apply (cmp_eq_datum t); auto using value_exact. Qed.

Lemma or_eq_list_holds e : forall vs, plan_ok target t e -> or_eq_list e target (coerce_for_col t) = Some vs -> ev e = Ok true ->
  x <> Null /\ Exists (fun v => cmp x v = Eq) vs.
Proof.
  induction e as [| |l _ op r _| |a IHa b IHb|e0 _|e0 _ vs0 n0|e0 _ lo0 hi0 n0|e0 _ p0 n0|e0 _ q0 n0|q0|q0 n0]; intros vs Hp; cbn [or_eq_list]; try done.
  - destruct l as [col| | | | | | | | | | |]; try done. destruct r as [|lit| | | | | | | | | |]; try done. cbn [plan_ok] in Hp.
    case_bool_decide as Hc; [|done]. subst col. destruct (bool_decide_reflect (op = OpEq)) as [->|]; [|done]. destruct (is_null lit); [done|]. cbn [negb orb].
    destruct (coerce_for_col t lit) as [v|] eqn:Ev; [|done]. intros [= <-] H.
    destruct (cmp_converted OpEq lit v) as (Hn & Hv & He); [by apply Hp|done..|]. split; [done|]. apply Exists_cons_hd. by apply eq_converted.
  - destruct Hp as [Ha Hb]. destruct (or_eq_list a _ _) as [l|] eqn:El; [|done]. cbn [mbind option_bind].
    destruct (or_eq_list b _ _) as [r|] eqn:Er; [|done]. intros [= <-] H. cbn [eval_with] in H. rewrite Exists_app.
    destruct (ev a) as [[]|?|] eqn:Ea; cbn in H; try done.
    + destruct (IHa l Ha eq_refl eq_refl) as [? ?]. auto.
    + destruct (IHb r Hb eq_refl H) as [? ?]. auto.
Qed.

(** A member of the list that the value equals is in the seek list. *)
Lemma in_holds values :
  Forall (member_ok t) values -> x <> Null -> in_hit x values = true ->
  Exists (fun v => cmp x v = Eq) (omap (fun v => if is_null v then None else coerce_for_col t v) values).
Proof.
  intros Hm Hn H. apply existsb_exists in H as (lit & Hin & H). apply list_elem_of_In in Hin. rewrite Forall_forall in Hm.
  destruct (Hm lit Hin) as [Hw Ho]. apply andb_true_iff in H as [Hnull%negb_true_iff H].
  assert (datum_eqb (coerce_pair x lit).1 (coerce_pair x lit).2 = true) as Heq by by destruct (coerce_pair x lit).
  destruct Ho as [->|[Hf|[_ He]]]; [done| |].
  2: rewrite (never_equal_member t) in Heq; auto using value_exact; done.
  assert (exists v, coerce_for_col t lit = Some v) as [v Hv] by (destruct t, lit; try done; eauto).
  apply Exists_exists. exists v. split; [apply list_elem_of_omap; exists lit; by rewrite Hnull|].
  apply eq_converted; [done|by eapply lit_bound|]. change (cmp_apply OpEq x v = true). rewrite <- (coerced_cmp t x lit v); auto using value_exact.
Qed.

(** BETWEEN is its two comparisons when both bounds convert. *)
Lemma between_converted lo hi l h :
  bounds_alike lo hi -> exact t x = true -> lit_fits t lo = true -> lit_fits t hi = true -> coerce_for_col t lo = Some l -> coerce_for_col t hi = Some h ->
  between_hit x lo hi = cmp_apply OpGe x l && cmp_apply OpLe x h.
Proof.
  intros Ha He Hl Hh Cl Ch. pose proof (coerced_cmp t x lo l OpGe He Hl Cl) as Hlo. pose proof (coerced_cmp t x hi h OpLe He Hh Ch) as Hhi.
  rewrite <- Hlo, <- Hhi. unfold between_hit. clear -Ha He Hl Hh.
  destruct t, x as [|i|f|s|b|m]; try done; destruct lo as [|i1|f1|s1|b1|m1]; try done; destruct hi as [|i2|f2|s2|b2|m2]; try done;
    cbn [coerce_pair fst snd]; try done; by destruct Ha as [?|[?|?]].
Qed.

Lemma ge_below v : cmp_apply OpGe x v = true -> below_lo (Some (v, true)) x = false.
Proof. cbn. by destruct (cmp x v). Qed.
Lemma gt_below v : cmp_apply OpGt x v = true -> below_lo (Some (v, false)) x = false.
Proof. cbn. by destruct (cmp x v). Qed.
Lemma le_above v : cmp_apply OpLe x v = true -> above_hi (Some (v, true)) x = false.
Proof. cbn. by destruct (cmp x v). Qed.
Lemma lt_above v : cmp_apply OpLt x v = true -> above_hi (Some (v, false)) x = false.
Proof. cbn. by destruct (cmp x v). Qed.

#[local] Hint Resolve set_eq_holds set_lo_holds set_hi_holds set_pred_holds add_in_holds ge_below gt_below le_above lt_above : core.

Lemma cmp_holds op lit b :
  lit_ok t lit -> holds b x -> ev (ECmp (EColumn target) op (ELiteral lit)) = Ok true ->
  holds (collect_col_bounds (ECmp (EColumn target) op (ELiteral lit)) target t b).2 x.
Proof.
  intros Hl Hb H. cbn [collect_col_bounds]. rewrite bool_decide_eq_true_2 by done. destruct (is_null lit); [done|]. cbn [negb orb].
  destruct (coerce_for_col t lit) as [v|] eqn:Ev; [|done]. destruct (cmp_converted op lit v Hl Ev H) as (Hn & Hv & Ho).
  destruct op; cbn [snd]; auto. apply set_eq_holds; auto using eq_converted.
Qed.

Lemma in_list_holds values b :
  Forall (member_ok t) values -> holds b x -> ev (EIn (EColumn target) values false) = Ok true ->
  holds (collect_col_bounds (EIn (EColumn target) values false) target t b).2 x.
Proof.
  intros Hm Hb H. cbn [collect_col_bounds]. rewrite bool_decide_eq_true_2 by done. cbn [negb orb]. destruct (is_none _); [|done]. cbn [negb snd].
  cbn [eval_with] in H. destruct (operand_true _ _ H eq_refl) as [Hn Hi]. rewrite xorb_false_r in Hi. auto using in_holds.
Qed.

Lemma between_holds lo hi b :
  lit_ok t lo -> lit_ok t hi -> bounds_alike lo hi -> holds b x -> ev (EBetween (EColumn target) lo hi false) = Ok true ->
  holds (collect_col_bounds (EBetween (EColumn target) lo hi false) target t b).2 x.
Proof.
  intros Hl Hh Ha Hb H. cbn [collect_col_bounds]. rewrite bool_decide_eq_true_2 by done. cbn [negb].
  destruct (coerce_for_col t lo) as [l|] eqn:El; [|done]. destruct (coerce_for_col t hi) as [h|] eqn:Eh; [|done]. cbn [snd].
  cbn [eval_with] in H. destruct (operand_true _ _ H eq_refl) as [Hn Hi]. rewrite xorb_false_r in Hi.
  destruct Hl as [_ [|Hl]]; [congruence|]. destruct Hh as [_ [|Hh]]; [congruence|].
  rewrite (between_converted lo hi l h) in Hi by auto using value_exact. apply andb_true_iff in Hi as [? ?]. auto.
Qed.

Lemma like_holds pat b :
  utf8_valid pat = true -> Zlen pat < 2 ^ 29 -> holds b x -> ev (ELike (EColumn target) pat false) = Ok true ->
  holds (collect_col_bounds (ELike (EColumn target) pat false) target t b).2 x.
Proof.
  intros Hu Hl Hb H. cbn [collect_col_bounds]. rewrite bool_decide_eq_true_2 by done. cbn [negb]. destruct (is_text t) eqn:Et; [|done]. cbn [negb orb].
  cbn [eval_with] in H. destruct (operand_true _ _ H eq_refl) as [Hn Hm]. rewrite xorb_false_r in Hm.
  pose proof (value_exact Hn) as He. destruct Hx as [Hw _]. assert (exists s, x = Text s) as [s Es] by (destruct t, x; try done; eauto).
  rewrite Es in Hm. cbn [datum_to_string] in Hm. assert (utf8_valid s = true) as Hs by (rewrite Es in Hw; apply Hw).
  destruct (_ =? _) eqn:Ew.
  - destruct (coerce_for_col t (Text _)) as [c|] eqn:Ec; [|done]. cbn [snd]. assert (c = Text (like_prefix pat)) as -> by (destruct t; cbn in Et, Ec; congruence).
    apply set_eq_holds; [done..|]. rewrite Es, (whole_pattern pat Hu s Hs Hm Ew). cbn. apply lex_refl.
  - destruct (like_prefix pat) as [|c0 pre] eqn:Epre; [done|]. rewrite <- Epre.
    assert (holds (set_lo (Text (like_prefix pat)) true b) x) as Hlo.
    { apply set_lo_holds; [done..|]. rewrite Es. pose proof (prefix_below pat Hu s Hs Hm). cbn. by destruct (lex s _). }
    destruct (prefix_upper _) as [u|] eqn:Eu; [|done]. cbn [snd]. apply set_hi_holds; [done..|]. rewrite Es. cbn.
    by rewrite (prefix_upper_above pat Hu s Hs Hm u Eu).
Qed.

Lemma collect_holds e : forall b, plan_ok target t e -> holds b x -> ev e = Ok true -> holds (collect_col_bounds e target t b).2 x.
Proof.
  induction e as [| |l _ op r _|a IHa c IHc|a IHa c IHc|e0 _|e0 _ vs n|e0 _ lo hi n|e0 _ pat n|e0 _ q0 n0|q0|q0 n0]; intros b Hp Hb H; try done.
  - destruct l as [col| | | | | | | | | | |]; try done. destruct r as [|lit| | | | | | | | | |]; try done.
    destruct (decide (col = target)) as [->|Hne]; [by apply cmp_holds; auto|]. cbn [collect_col_bounds]. by rewrite bool_decide_eq_false_2.
  - destruct Hp as [Ha Hc]. cbn [collect_col_bounds eval_with] in *. destruct (ev a) as [[]|?|] eqn:Ea; try done. cbn in H.
    specialize (IHa b Ha Hb eq_refl). destruct (collect_col_bounds a _ _ _) as [oka b1].
    specialize (IHc b1 Hc IHa H). by destruct (collect_col_bounds c _ _ _).
  - change (collect_col_bounds (EOr a c) target t b) with
      match or_eq_list (EOr a c) target (coerce_for_col t) with
      | Some vals => (true, if is_none (b_eq b) then add_in vals b else b) | None => (true, b) end.
    destruct (or_eq_list (EOr a c) _ _) as [vs|] eqn:E; [|done]. cbn [snd]. destruct (is_none _); [|done].
    destruct (or_eq_list_holds _ _ Hp E H) as [Hn He]. auto.
  - destruct e0 as [col| | | | | | | | | | |]; try done. destruct n; [done|].
    destruct (decide (col = target)) as [->|Hne]; [by apply in_list_holds; auto|]. cbn [collect_col_bounds]. by rewrite bool_decide_eq_false_2.
  - destruct e0 as [col| | | | | | | | | | |]; try done. destruct n; [done|].
    destruct (decide (col = target)) as [->|Hne]; [by destruct (Hp eq_refl) as (? & ? & ?); apply between_holds|]. cbn [collect_col_bounds]. by rewrite bool_decide_eq_false_2.
  - destruct e0 as [col| | | | | | | | | | |]; try done. destruct n; [done|].
    destruct (decide (col = target)) as [->|Hne]; [by destruct (Hp eq_refl); apply like_holds|]. cbn [collect_col_bounds]. by rewrite bool_decide_eq_false_2.
Qed.

End rows.

(** * Access paths *)

(** Distinct column names, one of which is the key. *)
Record schema_ok (s : Schema) : Prop := {
  so_names : NoDup (col_name <$> columns s);
  so_pk : 0 <= pk_idx s < Zlen (columns s);
}.

Definition row_stored (s : Schema) (row : list Datum) : Prop :=
  Forall2 (fun c d => stored_value (col_ctype c) d) (columns s) row.

Definition clause_ok (s : Schema) (sel : Expr) : Prop :=
  Forall (fun c => plan_ok (col_name c) (col_ctype c) sel) (columns s).

Definition within (lo hi : Bound) (x : Datum) : Prop := below_lo lo x = false /\ above_hi hi x = false.

Definition bound_typed (t : ColumnType) (b : Bound) : Prop := match b with Some (v, _) => bound_at t v | None => True end.

(** The path can be followed: its bounds are values of the column it seeks. *)
Definition path_typed (s : Schema) (p : AccessPath) : Prop :=
  match p with
  | Point d => exists c, columns s !! Z.to_nat (pk_idx s) = Some c /\ bound_at (col_ctype c) d
  | PkIn vs => exists c, columns s !! Z.to_nat (pk_idx s) = Some c /\ Forall (bound_at (col_ctype c)) vs
  | Range lo hi => exists c, columns s !! Z.to_nat (pk_idx s) = Some c /\ bound_typed (col_ctype c) lo /\ bound_typed (col_ctype c) hi
  | SecondaryPath i lo hi => exists c, 0 <= i /\ columns s !! Z.to_nat i = Some c /\ bound_typed (col_ctype c) lo /\ bound_typed (col_ctype c) hi
  | SecIn i vs => exists c, 0 <= i /\ columns s !! Z.to_nat i = Some c /\ Forall (bound_at (col_ctype c)) vs
  | FullScan => True
  end.

(** The rows the path delivers, by the value it seeks. *)
Definition covers (s : Schema) (p : AccessPath) (row : list Datum) : Prop :=
  let at_col (i : Z) (P : Datum -> Prop) := exists x, row !! Z.to_nat i = Some x /\ P x in
  match p with
  | Point d => at_col (pk_idx s) (fun x => cmp x d = Eq)
  | PkIn vs => at_col (pk_idx s) (fun x => Exists (fun v => cmp x v = Eq) vs)
  | Range lo hi => at_col (pk_idx s) (within lo hi)
  | SecondaryPath i lo hi => at_col i (within lo hi)
  | SecIn i vs => at_col i (fun x => Exists (fun v => cmp x v = Eq) vs)
  | FullScan => True
  end.

Lemma position_some {A} (f : A -> bool) l : forall i j, position f l i = Some j -> exists x, i <= j /\ l !! Z.to_nat (j - i) = Some x /\ f x = true.
Proof.
  induction l as [|y l IH]; intros i j; cbn; [done|]. destruct (f y) eqn:E.
  - intros [= <-]. exists y. by rewrite Z.sub_diag.
  - intros (x & Hle & Hl & Hf)%IH. exists x. split_and!; [lia| |done]. replace (Z.to_nat (j - i)) with (S (Z.to_nat (j - (i + 1)))) by lia. done.
Qed.

Lemma position_first {A} (f : A -> bool) l : forall i n x, l !! n = Some x -> f x = true -> (forall m y, (m < n)%nat -> l !! m = Some y -> f y = false) ->
  position f l i = Some (i + Z.of_nat n).
Proof.
  induction l as [|y l IH]; intros i n x Hn Hf Hb; [done|]. cbn. destruct n as [|n].
  - injection Hn as ->. rewrite Hf. f_equal. lia.
  - rewrite (Hb 0%nat y) by (done || lia). rewrite (IH (i + 1) n x Hn Hf); [f_equal; lia|]. intros m z Hm. apply (Hb (S m)). lia.
Qed.

Lemma index_of_some s name i : index_of s name = Some i -> exists c, 0 <= i /\ columns s !! Z.to_nat i = Some c /\ col_name c = name.
Proof. intros (c & H0 & Hl & Hn%bool_decide_eq_true)%position_some. exists c. by rewrite Z.sub_0_r in Hl. Qed.

Lemma index_of_name s i c : schema_ok s -> columns s !! i = Some c -> index_of s (col_name c) = Some (Z.of_nat i).
Proof.
  intros Hs Hi. unfold index_of. rewrite (position_first _ _ 0 i c); [done..|by apply bool_decide_eq_true|].
  intros m y Hm Hy. apply bool_decide_eq_false. intros E.
  assert (m = i); [|lia]. apply (NoDup_lookup (col_name <$> columns s) m i (col_name c)); [apply Hs|..]; rewrite list_lookup_fmap.
  - rewrite Hy. cbn. by f_equal.
  - by rewrite Hi.
Qed.

Section covering.
Context (f64_show : Z -> bytes) (debug : Expr -> bytes) (s : Schema) (sel : Expr).
Context (Hs : schema_ok s) (Hsel : clause_ok s sel).

Lemma pk_column : exists c, columns s !! Z.to_nat (pk_idx s) = Some c.
Proof. apply lookup_lt_is_Some. destruct (so_pk s Hs). lia. Qed.

Lemma column_bounds i c : columns s !! i = Some c ->
  bounds_at (col_ctype c) (collect_col_bounds sel (col_name c) (col_ctype c) no_bounds).2 /\
  forall row, row_stored s row -> eval_expr f64_show debug s row sel = Ok true ->
    exists x, row !! i = Some x /\ holds (collect_col_bounds sel (col_name c) (col_ctype c) no_bounds).2 x.
Proof.
  intros Hi. assert (plan_ok (col_name c) (col_ctype c) sel) as Hp by (unfold clause_ok in Hsel; rewrite Forall_lookup in Hsel; eauto).
  split; [by apply collect_at; [|apply no_bounds_at]|]. intros row Hr He.
  destruct (Forall2_lookup_l _ _ _ _ _ Hr Hi) as (x & Hx & Hst). exists x. split; [done|].
  apply (collect_holds f64_show debug (column_of s row)); [|done|done|apply no_bounds_holds|done].
  unfold column_of. rewrite (index_of_name s i c) by done. unfold row_at. by rewrite Nat2Z.id, Hx.
Qed.

(** What one column's bounds give, whichever of the three forms is taken. *)
Lemma bounds_path i c b : columns s !! i = Some c -> b = (collect_col_bounds sel (col_name c) (col_ctype c) no_bounds).2 ->
  match b_eq b with Some v => bound_at (col_ctype c) v | None => True end /\ Forall (bound_at (col_ctype c)) (b_in b) /\
  bound_typed (col_ctype c) (b_lo b) /\ bound_typed (col_ctype c) (b_hi b) /\
  forall row, row_stored s row -> eval_expr f64_show debug s row sel = Ok true -> exists x, row !! i = Some x /\
    match b_eq b with Some v => cmp x v = Eq | None => True end /\ within (b_lo b) (b_hi b) x /\
    (b_saw_in b = true -> Exists (fun v => cmp x v = Eq) (b_in b)).
Proof.
  intros Hi ->. destruct (column_bounds i c Hi) as [Ha Hh]. set (b := (collect_col_bounds _ _ _ _).2) in *. destruct Ha as [He Hl Hu Hn].
  split_and!; [destruct (b_eq b); eauto|done|destruct (b_lo b) as [[]|]; cbn; eauto|destruct (b_hi b) as [[]|]; cbn; eauto|].
  intros row Hr Ev. destruct (Hh row Hr Ev) as (x & Hx & [H1 H2 H3 H4 H5]). exists x. split; [done|].
  split; [destruct (b_eq b); auto|split; [by split|done]].
Qed.

Lemma secondary_path_covers idxs : path_typed s (secondary_path s sel idxs) /\
  forall row, row_stored s row -> eval_expr f64_show debug s row sel = Ok true -> covers s (secondary_path s sel idxs) row.
Proof.
  induction idxs as [|ix idxs IH]; [done|]. cbn [secondary_path]. destruct (index_of s (idx_column ix)) as [i|] eqn:Ei; [|done].
  destruct (index_of_some _ _ _ Ei) as (c & H0 & Hc & <-). rewrite Hc.
  destruct (collect_col_bounds sel (col_name c) (col_ctype c) no_bounds) as [ok b] eqn:Eb. destruct ok; [|done].
  destruct (bounds_path _ c b Hc) as (Ht1 & Ht2 & Ht3 & Ht4 & Hcov); [by rewrite Eb|]. destruct (b_eq b) as [v|] eqn:Ee.
  { split; [by exists c|]. intros row Hr Ev. destruct (Hcov row Hr Ev) as (x & Hx & He & _). exists x. split; [done|].
    split; cbn [below_lo above_hi]; by rewrite He. }
  destruct (b_saw_in b) eqn:Es.
  { split; [by exists c|]. intros row Hr Ev. destruct (Hcov row Hr Ev) as (x & Hx & _ & _ & Hin). exists x. auto. }
  destruct (b_has_pred b); [|done].
  split; [by exists c|]. intros row Hr Ev. destruct (Hcov row Hr Ev) as (x & Hx & _ & Hw & _). by exists x.
Qed.

Lemma access_path_ok {T P : Type} (t : @Table T P) : td_schema (t_def t) = s ->
  exists p, access_path t (Some sel) = Ok p /\ path_typed s p /\
    forall row, row_stored s row -> eval_expr f64_show debug s row sel = Ok true -> covers s p row.
Proof.
  intros Et. unfold access_path. rewrite Et. destruct (t_ephemeral t); [by exists FullScan|]. destruct pk_column as [c Hc]. rewrite Hc.
  destruct (collect_col_bounds sel (col_name c) (col_ctype c) no_bounds) as [ok b] eqn:Eb.
  destruct ok; [|eexists; split; [done|apply secondary_path_covers]].
  destruct (bounds_path _ c b Hc) as (Ht1 & Ht2 & Ht3 & Ht4 & Hcov); [by rewrite Eb|]. destruct (b_eq b) as [v|] eqn:Ee.
  { exists (Point v). split_and!; [done|by exists c|]. intros row Hr Ev. destruct (Hcov row Hr Ev) as (x & Hx & He & _). by exists x. }
  destruct (b_saw_in b) eqn:Es.
  { exists (PkIn (b_in b)). split_and!; [done|by exists c|]. intros row Hr Ev. destruct (Hcov row Hr Ev) as (x & Hx & _ & _ & Hin). exists x. auto. }
  destruct (b_has_pred b); [|eexists; split; [done|apply secondary_path_covers]].
  eexists. split_and!; [done|by exists c|]. intros row Hr Ev. destruct (Hcov row Hr Ev) as (x & Hx & _ & Hw & _). by exists x.
Qed.

End covering.

(** * Properties *)

(** C20: Access-path selection is sound: planning never fails on a table with a
    valid schema ([schema_ok]: distinct column names, a key among them), the
    bounds of the path it picks are values of the column it seeks, and every
    stored row on which the WHERE clause is true lies on the path.  It holds for
    clauses whose literals convert to the type of the column they are compared
    with without changing comparisons and whose IN members either do so or equal
    no value of the column ([clause_ok]), and for rows that hold values of their
    columns' types ([row_stored]).  Left out are BETWEEN bounds of two
    classes and the known losses: BOOL columns against integers other than 0 and
    1, IN members that do not convert but compare equal (any on a DATETIME
    column), and integers stored in FLOAT columns. *)
Theorem access_path_covers {T P : Type} (f64_show : Z -> bytes) (debug : Expr -> bytes) (t : @Table T P) sel :
  schema_ok (td_schema (t_def t)) -> clause_ok (td_schema (t_def t)) sel ->
  exists p, access_path t (Some sel) = Ok p /\ path_typed (td_schema (t_def t)) p /\
    forall row, row_stored (td_schema (t_def t)) row -> eval_expr f64_show debug (td_schema (t_def t)) row sel = Ok true ->
      covers (td_schema (t_def t)) p row.
Proof. intros Hs Hc. by apply access_path_ok. Qed.

Definition plan_schema : Schema :=
  mkSchema [mkColumnDef (str "id") CInt false false None; mkColumnDef (str "name") CText true false None] 0.
Definition plan_table : @Table BTree RefPool := table_new (mkTableDef (str "db.people") plan_schema [mkIndexDef (str "by_name") (str "name")] [] None).
(** name LIKE 'jo%' AND id BETWEEN 3 AND 9 OR ... is planned on the key; a
    clause on the name alone on the index. *)
Definition plan_clause : Expr :=
  EAnd (ELike (EColumn (str "name")) (str "jo%") false) (EIn (EColumn (str "name")) [Text (str "john"); Null; Int 3] false).

Lemma plan_schema_ok : schema_ok plan_schema.
Proof.
  split; [|split; [discriminate|reflexivity]]. cbn. apply NoDup_cons. split; [|apply NoDup_singleton].
  intros H%list_elem_of_singleton. discriminate H.
Qed.

Lemma access_path_covers_witness :
  access_path plan_table (Some plan_clause) = Ok (SecIn 1 [Text (str "john")]) /\
  exists p, access_path plan_table (Some plan_clause) = Ok p /\ path_typed plan_schema p /\
    forall row, row_stored plan_schema row -> eval_expr (fun _ => []) (fun _ => []) plan_schema row plan_clause = Ok true ->
      covers plan_schema p row.
Proof.
  split; [vm_compute; reflexivity|].
  apply (access_path_covers (fun _ => []) (fun _ => []) plan_table plan_clause plan_schema_ok).
  apply Forall_cons. split; [split; intros H; discriminate H|]. apply Forall_cons. split; [|constructor].
  split; intros _; [split; reflexivity|]. apply Forall_cons. split; [|apply Forall_cons; split; [|apply Forall_cons; split; [|constructor]]].
  - split; [intros w [= <-]; repeat split; reflexivity|right; left; reflexivity].
  - split; [discriminate|left; reflexivity].
  - split; [discriminate|right; right; split; reflexivity].
Defined.
