(* ===== verification/Cost.v ===== *)
(** The cost model (db/cost.rs): selectivity estimates in binary64, the choice
    between a seek and a scan, and the part of a WHERE clause that belongs to
    one table of a join. *)
From stdpp Require Import base list gmap strings.
From Stdlib Require Import ZArith Lia SpecFloat.
From S2P Require Import Prelude Machine Types DateTime TableDef Table Expr Batch Plan.

(** * Binary64 arithmetic on bit patterns *)

Definition f64_mul (a b : Z) : Z := f64_bits (SFmul 53 1024 (f64_value a) (f64_value b)).
Definition f64_sub (a b : Z) : Z := f64_bits (SFsub 53 1024 (f64_value a) (f64_value b)).
Definition f64_lt (a b : Z) : bool := match f64_partial_cmp a b with Some Lt => true | _ => false end.

(** [f64::clamp] and [f64::min]: [clamp] keeps a NaN, [min] drops it. *)
Definition f64_clamp (v lo hi : Z) : Z := if f64_lt v lo then lo else if f64_lt hi v then hi else v.
Definition f64_min (a b : Z) : Z := if f64_is_nan a then b else if f64_is_nan b then a else if f64_lt b a then b else a.

(** The decimal literals of the source. *)
Definition F_0_01 : Z := 0x3F847AE147AE147B.
Definition F_0_05 : Z := 0x3FA999999999999A.
Definition F_0_1 : Z := 0x3FB999999999999A.
Definition F_0_33 : Z := 0x3FD51EB851EB851F.
Definition F_0_5 : Z := 0x3FE0000000000000.
Definition F_0_99 : Z := 0x3FEFAE147AE147AE.
Definition F_4 : Z := 0x4010000000000000.
Definition F_100 : Z := 0x4059000000000000.

Definition CPU_TUPLE_COST : Z := F_0_01.
Definition INDEX_PAGE_COST : Z := f64_one.
Definition RANDOM_PAGE_COST : Z := F_4.
Definition SEQ_PAGE_COST : Z := f64_one.
Definition ROWS_PER_PAGE : Z := F_100.
Definition DEFAULT_EQ_SEL : Z := F_0_05.
Definition DEFAULT_RANGE_SEL : Z := F_0_33.
Definition DEFAULT_LIKE_SEL : Z := F_0_1.

(** * Names *)

Definition DOT : Z := 46.

(** [s.split_once('.')] *)
Fixpoint split_once (s : bytes) : option (bytes * bytes) :=
  match s with
  | [] => None
  | b :: s => if b =? DOT then Some ([], s) else '(l, r) ← split_once s; Some (b :: l, r)
  end.

(** [s.split('.').last()] *)
Fixpoint last_part (s : bytes) : bytes :=
  match s with
  | [] => []
  | b :: rest => if existsb (fun c => c =? DOT) s then (if b =? DOT then (if existsb (fun c => c =? DOT) rest then last_part rest else rest) else last_part rest) else s
  end.

(** * Selectivity *)

Section cost.
Context {T P : Type} (entry_count : T -> Z).

Abbreviation Tbl := (@Table T P).

Definition estimate_count (t : Tbl) : Z :=
  match t_stats t with Some s => f64_of_i64 (row_count s) | None => f64_of_i64 (entry_count (t_tree t)) end.

Definition num_value (d : Datum) : option Z :=
  match d with
  | Int v | DateTime v => Some (f64_of_i64 v)
  | Float v => if f64_is_nan v then None else Some v
  | _ => None
  end.

Fixpoint mcv_hit (lit : Datum) (total : Z) (l : list (Datum * Z)) : option Z :=
  match l with
  | [] => None
  | (d, count) :: l =>
    if datum_eqb d lit then Some (f64_clamp (f64_div (f64_of_i64 count) (f64_of_i64 total)) 0 f64_one) else mcv_hit lit total l
  end.

Definition eq_selectivity (stats : option ColumnStats) (lit : Datum) : Z :=
  if is_null lit then 0
  else match stats with
  | None => DEFAULT_EQ_SEL
  | Some cs =>
    if total cs =? 0 then f64_one
    else match mcv_hit lit (total cs) (mcv cs) with
    | Some v => v
    | None =>
      if 0 <? distinct_count cs then f64_clamp (f64_div f64_one (f64_of_i64 (distinct_count cs))) 0 f64_one else DEFAULT_EQ_SEL
    end
  end.

Definition range_fraction (stats : option ColumnStats) (lit : Datum) (below : bool) : Z :=
  match num_value lit, c ← stats; d ← st_min c; num_value d, c ← stats; d ← st_max c; num_value d with
  | Some lit_v, Some min, Some max =>
    if negb (f64_lt min max) then DEFAULT_RANGE_SEL
    else
      let frac := if below then f64_div (f64_sub lit_v min) (f64_sub max min) else f64_div (f64_sub max lit_v) (f64_sub max min) in
      f64_clamp frac F_0_01 F_0_99
  | _, _, _ => DEFAULT_RANGE_SEL
  end.

Definition col_stats (t : Tbl) (stats : option TableStats) (name : bytes) : option (option ColumnStats) :=
  let def := td_name (t_def t) in
  let bare :=
    match split_once name with
    | Some (q, c) => if negb (bool_decide (q = def)) && negb (bool_decide (q = last_part def)) then None else Some c
    | None => Some name
    end in
  bare ← bare;
  if is_none (index_of (td_schema (t_def t)) bare) then None else Some (s ← stats; st_columns s !! bare).

Definition cmp_selectivity (t : Tbl) (stats : option TableStats) (col : bytes) (op : CmpOp) (lit : Datum) (flip : bool) : Z :=
  match col_stats t stats col with
  | None => DEFAULT_EQ_SEL
  | Some cs =>
    match if flip then flipped op else op with
    | OpEq => eq_selectivity cs lit
    | OpNe => f64_sub f64_one (eq_selectivity cs lit)
    | OpLt | OpLe => range_fraction cs lit true
    | OpGt | OpGe => range_fraction cs lit false
    end
  end.

Definition negate_sel (negated : bool) (sel : Z) : Z := if negated then f64_sub f64_one sel else sel.

Fixpoint selectivity (t : Tbl) (stats : option TableStats) (e : Expr) : Z :=
  match e with
  | EAnd a b => f64_mul (selectivity t stats a) (selectivity t stats b)
  | EOr a b =>
    let x := selectivity t stats a in
    let y := selectivity t stats b in
    f64_sub (f64_add x y) (f64_mul x y)
  | ENot e => f64_sub f64_one (selectivity t stats e)
  | ECmp (EColumn c) op (ELiteral l) => cmp_selectivity t stats c op l false
  | ECmp (ELiteral l) op (EColumn c) => cmp_selectivity t stats c op l true
  | ECmp _ _ _ => DEFAULT_EQ_SEL
  | EIn (EColumn c) values negated =>
    let per := fold_left (fun acc v => if is_null v then acc else f64_add acc (cmp_selectivity t stats c OpEq v false)) values 0 in
    negate_sel negated (f64_min per f64_one)
  | EIn _ _ _ => DEFAULT_EQ_SEL
  | EBetween (EColumn c) lo hi negated =>
    let cs := mjoin (col_stats t stats c) in
    let sel :=
      match num_value lo, num_value hi, c ← cs; d ← st_min c; num_value d, c ← cs; d ← st_max c; num_value d with
      | Some l, Some h, Some min, Some max =>
        if f64_lt min max && f64_le l h then f64_clamp (f64_div (f64_sub h l) (f64_sub max min)) 0 f64_one else DEFAULT_RANGE_SEL
      | _, _, _, _ => DEFAULT_RANGE_SEL
      end in
    negate_sel negated sel
  | EBetween _ _ _ _ => DEFAULT_RANGE_SEL
  | ELike _ _ negated => negate_sel negated DEFAULT_LIKE_SEL
  | EColumn _ => F_0_5
  | ELiteral l =>
    match l with
    | Null | Bool false | Int 0 => 0
    | Float v => if f64_eqb v 0 then 0 else f64_one
    | _ => f64_one
    end
  | EInSubquery _ _ _ => F_0_1
  | EExists _ _ | EScalarSubquery _ => F_0_5
  end.

(** * The choice of a path *)

Record Choice := mkChoice { ch_path : AccessPath; ch_est_rows : Z; ch_cost : Z }.

Definition full_scan_cost (total_rows : Z) : Z :=
  f64_mul total_rows (f64_add (f64_div SEQ_PAGE_COST ROWS_PER_PAGE) CPU_TUPLE_COST).

(** One index entry and the row behind it. *)
Definition seek_cost : Z := f64_add (f64_add (f64_div INDEX_PAGE_COST ROWS_PER_PAGE) CPU_TUPLE_COST) RANDOM_PAGE_COST.

Definition choose_access_path (t : Tbl) (selection : option Expr) : res Choice :=
  let stats := t_stats t in
  let total := estimate_count t in
  let sel := match selection with Some e => selectivity t stats e | None => f64_one end in
  let est_rows := f64_mul total sel in
  let full := full_scan_cost total in
  path ← access_path t selection;
  let downgrade c := if f64_le full c then (FullScan, full) else (path, c) in
  let '(path, cost) :=
    match path with
    | Point _ => (path, f64_add INDEX_PAGE_COST CPU_TUPLE_COST)
    | PkIn vals => (path, f64_mul (f64_of_i64 (Zlen vals)) (f64_add INDEX_PAGE_COST CPU_TUPLE_COST))
    | Range _ _ => (path, f64_add INDEX_PAGE_COST (f64_mul est_rows (f64_add (f64_div SEQ_PAGE_COST ROWS_PER_PAGE) CPU_TUPLE_COST)))
    | SecondaryPath _ _ _ => downgrade (f64_add INDEX_PAGE_COST (f64_mul est_rows seek_cost))
    | SecIn _ values => downgrade (f64_add INDEX_PAGE_COST (f64_mul (f64_of_i64 (Zlen values)) seek_cost))
    | FullScan => (path, full)
    end in
  mret (mkChoice path est_rows cost).

(** ** EXPLAIN *)

Definition path_name (p : AccessPath) : bytes :=
  match p with
  | Point _ => str "PK POINT"
  | PkIn _ => str "PK IN"
  | Range _ _ => str "PK RANGE"
  | SecondaryPath _ _ _ => str "SEC SEEK"
  | SecIn _ _ => str "SEC IN"
  | FullScan => str "FULL SCAN"
  end.

Definition path_type (p : AccessPath) : bytes :=
  match p with
  | Point _ => str "const"
  | PkIn _ | SecIn _ _ | Range _ _ => str "range"
  | SecondaryPath _ _ _ => str "ref"
  | FullScan => str "ALL"
  end.

Definition column_name (s : Schema) (i : Z) : res bytes :=
  match columns s !! Z.to_nat i with Some c => Ok (col_name c) | None => Panic end.

Definition path_key (t : Tbl) (p : AccessPath) : res (option bytes) :=
  let s := td_schema (t_def t) in
  match p with
  | Point _ | PkIn _ | Range _ _ => Some <$> column_name s (pk_idx s)
  | SecondaryPath i _ _ | SecIn i _ => Some <$> column_name s i
  | FullScan => Ok None
  end.

End cost.

(** * Predicates of one table *)

Definition expr_local_to (e : Expr) (ord : Z) (resolve : bytes -> option Z) : bool :=
  let cols := collect_columns e in
  negb (Nat.eqb (length cols) 0) && forallb (fun c => bool_decide (resolve c = Some ord)) cols.

(** The stack of the source takes the right side of an AND first. *)
Fixpoint conjuncts (e : Expr) : list Expr :=
  match e with EAnd a b => conjuncts b ++ conjuncts a | other => [other] end.

(** [out = kept.pop()], then [out = And(kept.pop(), out)] until it is empty. *)
Definition rebuild (kept : list Expr) : option Expr :=
  match rev kept with
  | [] => None
  | out :: rest => Some (fold_left (fun out e => EAnd e out) rest out)
  end.

Definition local_predicate (selection : option Expr) (ord : Z) (resolve : bytes -> option Z) : option Expr :=
  sel ← selection; rebuild (List.filter (fun e => expr_local_to e ord resolve) (conjuncts sel)).

(** * Lemmas *)

(** Costing changes a secondary path to a full scan at most. *)
Lemma choose_path {T P} (entry_count : T -> Z) (t : @Table T P) selection p :
  access_path t selection = Ok p ->
  exists c, choose_access_path entry_count t selection = Ok c /\ (ch_path c = p \/ ch_path c = FullScan).
Proof.
  intros H. unfold choose_access_path. rewrite H. cbn [mbind res_bind].
  destruct p; cbv beta zeta iota; try destruct (f64_le _ _); cbv beta iota; eexists; (split; [reflexivity|]); cbn [ch_path]; auto.
Qed.

Section pushdown.
Context (f64_show : Z -> bytes) (debug : Expr -> bytes) (resolve : bytes -> res Datum).
Abbreviation ev := (eval_with f64_show debug resolve).

Lemma conjuncts_true e : ev e = Ok true -> Forall (fun c => ev c = Ok true) (conjuncts e).
Proof.
  induction e as [| | |a IHa b IHb| | | | | | | |]; intros H; try (by constructor).
  cbn [eval_with] in H. destruct (ev a) as [[]|?|] eqn:Ea; try done. cbn in H. cbn [conjuncts]. apply Forall_app. auto.
Qed.

Lemma fold_and_true l : forall out, ev out = Ok true -> Forall (fun c => ev c = Ok true) l -> ev (fold_left (fun out e => EAnd e out) l out) = Ok true.
Proof.
  induction l as [|e l IH]; intros out Ho Hl; [done|]. apply Forall_cons in Hl as [He Hl]. cbn. apply IH; [|done]. cbn [eval_with]. by rewrite He.
Qed.

Lemma fold_and_columns l : forall out, (forall c, c ∈ collect_columns (fold_left (fun out e => EAnd e out) l out) ->
  c ∈ collect_columns out \/ exists e, e ∈ l /\ c ∈ collect_columns e).
Proof.
  induction l as [|e l IH]; intros out c Hc; [by left|]. cbn in Hc. apply IH in Hc as [Hc|(e' & He & Hc)].
  - cbn in Hc. apply elem_of_app in Hc as [Hc|Hc]; [right; exists e; split; [by left|done]|by left].
  - right. exists e'. split; [by right|done].
Qed.

End pushdown.

(** * Properties *)

(** The predicate a join pushes down to one of its tables mentions columns of
    that table only, and every row on which the whole WHERE clause is true
    passes it. *)
Theorem local_predicate_sound (f64_show : Z -> bytes) (debug : Expr -> bytes) (row : bytes -> res Datum) sel ord resolve p :
  local_predicate (Some sel) ord resolve = Some p ->
  (forall c, c ∈ collect_columns p -> resolve c = Some ord) /\
  (eval_with f64_show debug row sel = Ok true -> eval_with f64_show debug row p = Ok true).
Proof.
  unfold local_predicate, rebuild. cbn [mbind option_bind]. set (kept := List.filter _ _). intros H.
  assert (forall e, e ∈ rev kept -> e ∈ conjuncts sel /\ expr_local_to e ord resolve = true) as Hk.
  { intros e He. rewrite list_elem_of_In, <- in_rev in He. apply filter_In in He as [? ?]. by rewrite list_elem_of_In. }
  destruct (rev kept) as [|out rest]; [done|]. injection H as <-. split.
  - intros c Hc. assert (exists e, e ∈ out :: rest /\ c ∈ collect_columns e) as (e & He & Hce).
    { apply fold_and_columns in Hc as [Hc|(e & He & Hc)]; [exists out|exists e]; (split; [set_solver|done]). }
    destruct (Hk e He) as [_ Hl]. apply andb_true_iff in Hl as [_ Hl]. rewrite forallb_forall in Hl.
    specialize (Hl c). rewrite <- list_elem_of_In in Hl. by apply bool_decide_eq_true in Hl.
  - intros Hv. apply conjuncts_true in Hv. rewrite Forall_forall in Hv. apply fold_and_true; [by apply Hv, Hk; left|].
    apply Forall_forall. intros e He. by apply Hv, Hk; right.
Qed.

Definition demo_join_clause : Expr :=
  EAnd (ECmp (EColumn (str "u.age")) OpGe (ELiteral (Int 18)))
    (EAnd (ECmp (EColumn (str "u.id")) OpEq (EColumn (str "o.user"))) (ECmp (EColumn (str "u.id")) OpLt (ELiteral (Int 100)))).
Definition demo_owner (name : bytes) : option Z := match split_once name with Some (q, _) => if bool_decide (q = str "u") then Some 0 else Some 1 | None => None end.
Definition demo_pushed : Expr :=
  EAnd (ECmp (EColumn (str "u.id")) OpLt (ELiteral (Int 100))) (ECmp (EColumn (str "u.age")) OpGe (ELiteral (Int 18))).

Lemma local_predicate_sound_witness :
  local_predicate (Some demo_join_clause) 0 demo_owner = Some demo_pushed /\
  eval_with (fun _ => []) (fun _ => []) (fun _ => Ok (Int 20)) demo_pushed = Ok true.
Proof.
  assert (local_predicate (Some demo_join_clause) 0 demo_owner = Some demo_pushed) as H by reflexivity.
  split; [exact H|]. apply (proj2 (local_predicate_sound (fun _ => []) (fun _ => []) (fun _ => Ok (Int 20)) _ _ _ _ H)). reflexivity.
Defined.
