(* ===== verification/Join.v ===== *)
(** Scopes of joined tables, the join algorithms and the join order
    (db/join.rs, and the join planning of db/plan.rs).

    A scope is the list of the tables whose columns a joined row holds, one
    after the other; only their names and schemas matter here. *)
From stdpp Require Import base list gmap strings.
From Stdlib Require Import ZArith Lia.
From S2P Require Import Prelude Machine Types TableDef Table Expr Plan Cost.

Abbreviation Row := (list Datum).
Abbreviation Scope := (list TableDef).

Definition columns_of (t : TableDef) : list ColumnDef := columns (td_schema t).
Definition width (t : TableDef) : Z := Zlen (columns_of t).

(** [tables.iter().map(|t| t.schema().columns.len()).sum()] *)
Definition widths (ts : Scope) : Z := fold_right (fun t n => width t + n) 0 ts.

Definition simple_name (t : TableDef) : bytes := last_part (td_name t).

(** * Names *)

Fixpoint owner_from (base : Z) (ts : Scope) (idx : Z) : option (TableDef * Z) :=
  match ts with
  | [] => None
  | t :: ts => if idx <? base + width t then Some (t, idx - base) else owner_from (base + width t) ts idx
  end.

(** The fallback is [(&tables[0], 0)]. *)
Definition scope_owner (ts : Scope) (idx : Z) : res (TableDef * Z) :=
  match owner_from 0 ts idx, ts with
  | Some o, _ => Ok o
  | None, t :: _ => Ok (t, 0)
  | None, [] => Panic
  end.

(** The entry of [use_count] for a column name. *)
Definition use_count (ts : Scope) (name : bytes) : Z :=
  Zlen (List.filter (fun c => bool_decide (col_name c = name)) (mjoin (columns_of <$> ts))).

Fixpoint star_from (scope : Scope) (base : Z) (ts : Scope) : list (bytes * Z) :=
  match ts with
  | [] => []
  | t :: ts =>
    imap (fun i c => (if 1 <? use_count scope (col_name c) then simple_name t ++ str "." ++ col_name c else col_name c,
                      base + Z.of_nat i)) (columns_of t)
      ++ star_from scope (base + width t) ts
  end.

Definition star_columns (ts : Scope) : list (bytes * Z) := star_from ts 0 ts.

Definition answers_to (q : bytes) (t : TableDef) : bool := bool_decide (td_name t = q) || bool_decide (simple_name t = q).

(** [t.c]: the first table that answers to [t]. *)
Fixpoint resolve_qualified (ts : Scope) (base : Z) (name q c : bytes) : res Z :=
  match ts with
  | [] => Err (TableNotFound q)
  | t :: ts =>
    if answers_to q t then match index_of (td_schema t) c with Some i => Ok (base + i) | None => Err (ColumnNotFound name) end
    else resolve_qualified ts (base + width t) name q c
  end.

(** A bare name must match exactly one table. *)
Fixpoint resolve_bare (ts : Scope) (base : Z) (name : bytes) (hit : option Z) : res Z :=
  match ts with
  | [] => match hit with Some i => Ok i | None => Err (ColumnNotFound name) end
  | t :: ts =>
    match index_of (td_schema t) name with
    | Some i =>
      if bool_decide (is_Some hit) then Err (NotSupported (str "ambiguous column '" ++ name ++ str "'"))
      else resolve_bare ts (base + width t) name (Some (base + i))
    | None => resolve_bare ts (base + width t) name hit
    end
  end.

Definition resolve_scope (ts : Scope) (name : bytes) : res Z :=
  match split_once name with
  | Some (q, c) => resolve_qualified ts 0 name q c
  | None => resolve_bare ts 0 name None
  end.

(** The same with the ordinal of the table instead of the position. *)
Fixpoint qualified_ord (ts : Scope) (ord : Z) (name q c : bytes) : res Z :=
  match ts with
  | [] => Err (TableNotFound q)
  | t :: ts =>
    if answers_to q t then match index_of (td_schema t) c with Some _ => Ok ord | None => Err (ColumnNotFound name) end
    else qualified_ord ts (ord + 1) name q c
  end.

Fixpoint bare_ord (ts : Scope) (ord : Z) (name : bytes) (hit : option Z) : res Z :=
  match ts with
  | [] => match hit with Some i => Ok i | None => Err (ColumnNotFound name) end
  | t :: ts =>
    match index_of (td_schema t) name with
    | Some _ =>
      if bool_decide (is_Some hit) then Err (NotSupported (str "ambiguous column '" ++ name ++ str "'"))
      else bare_ord ts (ord + 1) name (Some ord)
    | None => bare_ord ts (ord + 1) name hit
    end
  end.

Definition scope_table_idx (ts : Scope) (name : bytes) : res Z :=
  match split_once name with
  | Some (q, c) => qualified_ord ts 0 name q c
  | None => bare_ord ts 0 name None
  end.

Definition is_not_found (e : Error) : bool := match e with ColumnNotFound _ | TableNotFound _ => true | _ => false end.

(** [for name in cols { f(name)?; }] *)
Fixpoint check_all {A} (f : A -> res ()) (l : list A) : res () :=
  match l with [] => mret () | x :: l => _ ← f x; check_all f l end.

Definition validate_scoped (e : Expr) (ts : Scope) : res () :=
  check_all (fun name => _ ← resolve_scope ts name; mret ()) (collect_columns e).

(** * Join order *)

(** [out.sort(); out.dedup()] leaves the set of the tables. *)
Fixpoint on_tables_of (cols : list bytes) (resolve : bytes -> res Z) : option (list Z) :=
  match cols with
  | [] => Some []
  | c :: cols => match resolve c with Ok t => cons t <$> on_tables_of cols resolve | _ => None end
  end.

Definition on_tables (on : Expr) (resolve : bytes -> res Z) : option (list Z) := on_tables_of (collect_columns on) resolve.

Section order.
Context (joins : list JoinClause) (sizes : list Z) (resolve : bytes -> res Z).

Definition clause_kind (j : JoinClause) : JoinKind := match j with mkJoinClause k _ _ => k end.
Definition clause_table (j : JoinClause) : TableRef := match j with mkJoinClause _ t _ => t end.
Definition clause_on (j : JoinClause) : Expr := match j with mkJoinClause _ _ on => on end.

(** [joins[ti - 1]] *)
Definition clause_of (ti : Z) : option JoinClause := joins !! Z.to_nat (ti - 1).
Definition is_left (ti : Z) : bool := match clause_of ti with Some (mkJoinClause JLeft _ _) => true | _ => false end.

(** [sizes.get(ti).copied().unwrap_or(usize::MAX)] *)
Definition size_of (ti : Z) : Z := default u64_MAX (sizes !! Z.to_nat ti).

(** ON touches only placed tables and the table itself. *)
Definition ready (placed : list Z) (ti : Z) : bool :=
  negb (is_left ti) &&
  match j ← clause_of ti; on_tables (clause_on j) resolve with
  | Some deps => forallb (fun d => existsb (Z.eqb d) placed || (d =? ti)) deps
  | None => false
  end.

(** The first ready table of the smallest size. *)
Fixpoint best_ready (placed : list Z) (remaining : list Z) (best : option Z) : option Z :=
  match remaining with
  | [] => best
  | ti :: remaining =>
    best_ready placed remaining
      (if ready placed ti && match best with None => true | Some b => size_of ti <? size_of b end then Some ti else best)
  end.

Fixpoint order_loop (fuel : nat) (remaining order : list Z) : list Z :=
  match fuel, remaining with
  | S fuel, first :: rest =>
    if is_left first then order_loop fuel rest (order ++ [first])
    else match best_ready order remaining None with
         | Some ti => order_loop fuel (List.filter (fun t => negb (t =? ti)) remaining) (order ++ [ti])
         | None => order ++ remaining
         end
  | _, _ => order
  end.

(** The tables [1 .. joins.len()] remain after the first; every round places
    one of them. *)
Definition order_joins : list Z := order_loop (length joins) (Z.of_nat <$> seq 1 (length joins)) [0].

End order.

(** * Join steps *)

Definition nulls (n : Z) : Row := replicate (Z.to_nat n) Null.

Section steps.
(** [tick]: a look at the clock, which ends the query past its deadline. *)
Context {S : Type} (tick : SM S ()).
Context (f64_show : Z -> bytes) (debug : Expr -> bytes).

(** [eval_scoped] *)
Definition scoped_column (ts : Scope) (row : Row) (name : bytes) : res Datum :=
  i ← resolve_scope ts name; row_at row i.
Definition eval_scoped (e : Expr) (ts : Scope) (row : Row) : res bool := eval_with f64_show debug (scoped_column ts row) e.

(** One left row against the right rows: what is pushed. *)
Fixpoint matches (on : Expr) (ts : Scope) (combine : Row -> Row) (rs : list Row) : res (list Row) :=
  match rs with
  | [] => mret []
  | r :: rs =>
    hit ← eval_scoped on ts (combine r);
    rest ← matches on ts combine rs;
    mret (if hit : bool then combine r :: rest else rest)
  end.

(** LEFT JOIN keeps a row without a match. *)
Definition padded (kind : JoinKind) (arity : Z) (l : Row) (out : list Row) : list Row :=
  match kind, out with JLeft, [] => [l ++ nulls arity] | _, _ => out end.

Definition last_width (ts : Scope) : Z := match last ts with Some t => width t | None => 0 end.

Fixpoint nested_loop_step (ts : Scope) (on : Expr) (kind : JoinKind) (ls rs : list Row) : SM S (list Row) :=
  match ls with
  | [] => mret []
  | l :: ls =>
    _ ← tick;
    out ← lift (matches on ts (fun r => l ++ r) rs);
    rest ← nested_loop_step ts on kind ls rs;
    mret (padded kind (last_width ts) l out ++ rest)
  end.

(** The hash table: for every key the positions of the build rows with it, in
    order.  The keys of the source's hash map are compared by equality only. *)
Abbreviation HashTable := (list (JoinKey * list nat)).

Fixpoint table_push (k : JoinKey) (i : nat) (h : HashTable) : HashTable :=
  match h with
  | [] => [(k, [i])]
  | (k', ps) :: h => if decide (k = k') then (k', ps ++ [i]) :: h else (k', ps) :: table_push k i h
  end.

Fixpoint table_get (k : JoinKey) (h : HashTable) : option (list nat) :=
  match h with [] => None | (k', ps) :: h => if decide (k = k') then Some ps else table_get k h end.

Fixpoint build_table (key : Z) (rows : list Row) (i : nat) (h : HashTable) : SM S HashTable :=
  match rows with
  | [] => mret h
  | b :: rows =>
    _ ← tick;
    d ← lift (row_at b key);
    build_table key rows (Datatypes.S i) (match join_key d with Some k => table_push k i h | None => h end)
  end.

(** [rows[bi]] for the candidates of a probe row. *)
Fixpoint rows_at (rows : list Row) (ps : list nat) : res (list Row) :=
  match ps with
  | [] => mret []
  | i :: ps => match rows !! i with Some r => rest ← rows_at rows ps; mret (r :: rest) | None => Panic end
  end.

(** The build rows a probe row meets. *)
Definition candidates (h : HashTable) (build : list Row) (d : Datum) : res (list Row) :=
  match join_key d with
  | Some k => match table_get k h with Some ps => rows_at build ps | None => mret [] end
  | None => mret []
  end.

Fixpoint probe (ts : Scope) (on : Expr) (combine : Row -> Row -> Row) (pad : Row -> list Row -> list Row)
    (h : HashTable) (build : list Row) (key : Z) (rows : list Row) : SM S (list Row) :=
  match rows with
  | [] => mret []
  | p :: rows =>
    _ ← tick;
    d ← lift (row_at p key);
    cands ← lift (candidates h build d);
    out ← lift (matches on ts (combine p) cands);
    rest ← probe ts on combine pad h build key rows;
    mret (pad p out ++ rest)
  end.

(** INNER builds the smaller side; LEFT builds the right side. *)
Definition hash_join_step (ts : Scope) (on : Expr) (kind : JoinKind) (lk rrk : Z) (ls rs : list Row) : SM S (list Row) :=
  let build_left := match kind with JInner => Zlen ls <? Zlen rs | JLeft => false end in
  if build_left then
    h ← build_table lk ls 0 [];
    probe ts on (fun p b => b ++ p) (fun _ out => out) h ls rrk rs
  else
    h ← build_table rrk rs 0 [];
    probe ts on (fun p b => p ++ b) (padded kind (last_width ts)) h rs lk ls.

Definition join_step (ts : Scope) (on : Expr) (kind : JoinKind) (ls rs : list Row) : SM S (list Row) :=
  let left_width := widths (removelast ts) in
  match equi_join on left_width (resolve_scope ts) with
  | Some (lk, rk) => hash_join_step ts on kind lk (rk - left_width) ls rs
  | None => nested_loop_step ts on kind ls rs
  end.

End steps.
