(* ===== verification/JoinSpec.v ===== *)
(** What a join step promises: the rows of the nested loop, whatever side the
    hash table is built from, for keys on which hashing agrees with the
    comparison of the evaluator. *)
From stdpp Require Import base list gmap strings.
From Stdlib Require Import ZArith Lia SpecFloat.
From S2P Require Import Prelude Machine Float Types DateTime TableDef BTree Table Expr Batch BatchSpec Plan Cost Join.

(** * Keys *)

(** Values whose comparison agrees with the equality of their keys: a boolean
    is not compared with a number, and no integer beyond 53 bits with a float. *)
Definition hashable (a b : Datum) : Prop :=
  match a, b with
  | Bool _, (Int _ | Float _) | (Int _ | Float _), Bool _ => False
  | Int i, Float _ | Float _, Int i => Z.abs i < 2 ^ 53
  | _, _ => True
  end.

(** [a = b] in a clause. *)
Definition sql_eq (a b : Datum) : bool :=
  negb (is_null a || is_null b) && (let '(x, y) := coerce_pair a b in cmp_apply OpEq x y).

Lemma small_bits z : Z.abs z < 2 ^ 53 -> u64 (f64_of_i64 z).
Proof.
  intros Hz. destruct (Z.eq_dec z 0) as [->|H0]; [by vm_compute|]. unfold f64_of_i64, binary_normalize, f64_bits.
  destruct z as [|p|p]; [done|..]; [destruct (round_small false p) as (m & e & -> & Hm & He & _)|destruct (round_small true p) as (m & e & -> & Hm & He & _)]; try lia;
    (destruct (Z.ltb_spec (Zpos m) (2 ^ 52)); [lia|]; widths; lia).
Qed.

Lemma key_of_zero a s : f64_value a = S754_zero s -> join_key (Float a) = Some (KInt 0).
Proof.
  intros Ha. cbn [join_key]. unfold f64_is_nan, f64_integral, f64_le, f64_partial_cmp, f64_to_i64. rewrite Ha. reflexivity.
Qed.

Lemma key_of_small z : Z.abs z < 2 ^ 53 -> join_key (Float (f64_of_i64 z)) = Some (KInt z).
Proof.
  intros Hz. destruct (Z.eq_dec z 0) as [->|H0]; [by vm_compute|]. cbn [join_key]. destruct (small_roundtrip z Hz) as [-> ->]. rewrite f64_of_i64_not_nan.
  destruct (value_of_small z Hz H0) as (m & e & Hv & Hm & He & _). unfold f64_le, f64_partial_cmp. rewrite Hv.
  assert (f64_value (f64_of_i64 i64_MIN) = S754_finite true 4503599627370496 11) as -> by by vm_compute.
  assert (f64_value (f64_of_i64 i64_MAX) = S754_finite false 4503599627370496 11) as -> by by vm_compute.
  cbn [SFcompare]. assert ((11 ?= e) = Gt) as -> by (apply Z.compare_gt_iff; lia). assert ((e ?= 11) = Lt) as -> by (apply Z.compare_lt_iff; lia). by destruct (z <? 0).
Qed.

Lemma key_of_equal_floats a b : u64 a -> u64 b -> f64_eqb a b = true -> join_key (Float a) = join_key (Float b) /\ join_key (Float a) <> None.
Proof.
  intros Ha Hb He. destruct (eqb_cases a b Ha Hb He) as [->|(s & t & Hs & Ht)].
  - split; [done|]. cbn [join_key]. destruct (f64_is_nan b) eqn:En; [|by destruct (_ && _)].
    unfold f64_eqb, f64_partial_cmp in He. unfold f64_is_nan in En. by destruct (f64_value b).
  - by rewrite (key_of_zero a s), (key_of_zero b t).
Qed.

Lemma eqb_sym a b : f64_eqb a b = f64_eqb b a.
Proof. unfold f64_eqb. rewrite (f64_partial_cmp_antisym a b). by destruct (f64_partial_cmp a b) as [[]|]. Qed.

(** Equal values meet in the hash table. *)
Lemma equal_keys a b : datum_wf a -> datum_wf b -> hashable a b -> sql_eq a b = true -> join_key a = join_key b /\ join_key a <> None.
Proof.
  unfold sql_eq. intros Ha Hb Hh. destruct a as [|i|f|s|b1|m], b as [|j|g|t|b2|n]; cbn [is_null orb negb andb coerce_pair cmp_apply datum_eqb]; try done.
  - intros ->%Z.eqb_eq. done.
  - intros He. change (join_key (Int i)) with (Some (KInt i)). rewrite <- (key_of_small i Hh). apply key_of_equal_floats; [by apply small_bits|done|done].
  - intros He. rewrite eqb_sym in He. change (join_key (Int j)) with (Some (KInt j)). rewrite <- (key_of_small j Hh). destruct (key_of_equal_floats (f64_of_i64 j) f) as [<- H]; [by apply small_bits|done|done|done].
  - by apply key_of_equal_floats.
  - intros ->%bool_decide_eq_true_1. done.
  - cbn [join_key]. destruct (parse_datetime_str s) as [x|] eqn:Es; cbn [cmp_apply datum_eqb]; [|done]. intros ->%Z.eqb_eq. done.
  - intros ->%bool_decide_eq_true_1. done.
  - cbn [join_key]. destruct (parse_datetime_str t) as [x|] eqn:Es; cbn [cmp_apply datum_eqb]; [|done]. intros ->%Z.eqb_eq. done.
  - intros ->%Z.eqb_eq. done.
Qed.

(** * Positions *)

Lemma width_nonneg t : 0 <= width t.
Proof. unfold width. lia. Qed.

Lemma widths_nonneg ts : 0 <= widths ts.
Proof. induction ts as [|t ts IH]; cbn [widths fold_right]; [done|]. pose proof (width_nonneg t). fold (widths ts). lia. Qed.

Lemma resolve_qualified_bound ts : forall base name q c i, resolve_qualified ts base name q c = Ok i -> base <= i < base + widths ts.
Proof.
  induction ts as [|t ts IH]; intros base name q c i; cbn [resolve_qualified widths fold_right]; [done|].
  destruct (answers_to q t).
  - destruct (index_of (td_schema t) c) as [j|] eqn:Ej; [|done]. intros [= <-]. unfold index_of in Ej. apply position_bound in Ej. fold (widths ts).
    pose proof (widths_nonneg ts). unfold width, columns_of. lia.
  - intros H%IH. fold (widths ts). unfold width in *. lia.
Qed.

Lemma resolve_bare_bound ts : forall base name hit i, resolve_bare ts base name hit = Ok i -> hit = Some i \/ base <= i < base + widths ts.
Proof.
  induction ts as [|t ts IH]; intros base name hit i; cbn [resolve_bare widths fold_right]; [destruct hit; intros [= ->]; auto|].
  fold (widths ts). pose proof (widths_nonneg ts).
  destruct (index_of (td_schema t) name) as [j|] eqn:Ej.
  - unfold index_of in Ej. apply position_bound in Ej. case_bool_decide; [done|].
    intros [[= <-]|?]%IH; right; unfold width, columns_of in *; lia.
  - intros [?|?]%IH; [by left|right]. unfold width in *. lia.
Qed.

Lemma resolve_scope_bound ts name i : resolve_scope ts name = Ok i -> 0 <= i < widths ts.
Proof.
  unfold resolve_scope. destruct (split_once name) as [[q c]|]; [apply resolve_qualified_bound|].
  intros [?|?]%resolve_bare_bound; [done|lia].
Qed.

Lemma widths_app a b : widths (a ++ b) = widths a + widths b.
Proof. induction a as [|x a IH]; [done|]. cbn [app widths fold_right]. fold (widths (a ++ b)) (widths a). lia. Qed.

Lemma widths_last ts : ts <> [] -> widths ts = widths (removelast ts) + last_width ts.
Proof.
  intros Hts. destruct (exists_last Hts) as (pre & t & ->). rewrite removelast_last, widths_app. unfold last_width. rewrite last_snoc. cbn. lia.
Qed.

(** * Reference join *)

Section joins.
Context (f64_show : Z -> bytes) (debug : Expr -> bytes).
Abbreviation ev := (eval_scoped f64_show debug).

(** The clause is true on the joined row. *)
Definition meets (on : Expr) (ts : Scope) (row : Row) : bool := match ev on ts row with Ok b => b | _ => false end.

(** Every left row with every right row the clause holds for; LEFT keeps a row
    that meets none. *)
Definition join_of (ts : Scope) (on : Expr) (kind : JoinKind) (ls rs : list Row) : list Row :=
  mjoin ((fun l => padded kind (last_width ts) l (List.filter (meets on ts) ((fun r => l ++ r) <$> rs))) <$> ls).

Definition decided (on : Expr) (ts : Scope) (ls rs : list Row) : Prop :=
  forall l r, l ∈ ls -> r ∈ rs -> exists b, ev on ts (l ++ r) = Ok b.

Lemma matches_ok on ts f rs : (forall r, r ∈ rs -> exists b, ev on ts (f r) = Ok b) ->
  matches f64_show debug on ts f rs = Ok (List.filter (meets on ts) (f <$> rs)).
Proof.
  intros H. induction rs as [|r rs IH]; [done|]. cbn [matches fmap list_fmap List.filter]. unfold meets at 1.
  destruct (H r ltac:(left)) as [b ->]. cbn [mbind res_bind]. rewrite IH by (intros r' Hr; apply H; by right). by destruct b.
Qed.

(** ** The nested loop *)

Section clock.
Context {S : Type} (tick : SM S ()) (Htick : forall s, tick s = Ret (s, Ok ())).

Lemma nested_loop_ok ts on kind ls rs s : decided on ts ls rs ->
  nested_loop_step tick f64_show debug ts on kind ls rs s = Ret (s, Ok (join_of ts on kind ls rs)).
Proof.
  intros Hd. induction ls as [|l ls IH]; [done|]. cbn [nested_loop_step]. unfold mbind, sm_bind. rewrite Htick. unfold lift.
  rewrite matches_ok by (intros r Hr; apply Hd; [left|done]). rewrite IH by (intros l' r Hl Hr; apply Hd; [by right|done]). done.
Qed.

(** ** The hash table *)

Definition key_at (key : Z) (row : Row) : option JoinKey := match row_at row key with Ok d => join_key d | _ => None end.
Definition has_key (key : Z) (k : JoinKey) (row : Row) : bool := bool_decide (key_at key row = Some k).

(** What the table holds for a key: the positions of the rows with it. *)
Fixpoint positions (key : Z) (k : JoinKey) (rows : list Row) (i : nat) : list nat :=
  match rows with [] => [] | r :: rows => (if has_key key k r then [i] else []) ++ positions key k rows (Datatypes.S i) end.

Lemma table_get_push k k' i h : table_get k (table_push k' i h) = if decide (k = k') then Some (default [] (table_get k h) ++ [i]) else table_get k h.
Proof.
  induction h as [|[k1 ps] h IH]; cbn [table_push table_get]; [by destruct (decide (k = k'))|].
  destruct (decide (k' = k1)) as [->|Hn]; cbn [table_get]; destruct (decide (k = k1)) as [->|Hk]; try done.
  rewrite decide_False by congruence. done.
Qed.

Lemma build_table_ok key rows : forall i h s, (forall r, r ∈ rows -> exists d, row_at r key = Ok d) ->
  exists h', build_table tick key rows i h s = Ret (s, Ok h') /\ forall k, default [] (table_get k h') = default [] (table_get k h) ++ positions key k rows i.
Proof.
  induction rows as [|r rows IH]; intros i h s Hr; cbn [build_table positions].
  - exists h. split; [done|]. intros k. by rewrite app_nil_r.
  - unfold mbind, sm_bind. rewrite Htick. destruct (Hr r ltac:(left)) as [d Hd]. unfold lift. rewrite Hd.
    destruct (IH (Datatypes.S i) (match join_key d with Some k => table_push k i h | None => h end) s) as (h' & E & Hh); [intros r' Hr'; apply Hr; by right|].
    exists h'. split; [exact E|]. intros k. rewrite Hh. unfold has_key, key_at. rewrite Hd. destruct (join_key d) as [k1|]; [|by rewrite bool_decide_eq_false_2].
    rewrite table_get_push. destruct (decide (k = k1)) as [->|Hn]; [|by rewrite bool_decide_eq_false_2 by congruence].
    rewrite bool_decide_eq_true_2 by done. cbn. by rewrite <- app_assoc.
Qed.

Lemma rows_at_positions key k rows : forall pre, rows_at (pre ++ rows) (positions key k rows (length pre)) = Ok (List.filter (has_key key k) rows).
Proof.
  induction rows as [|r rows IH]; intros pre; [done|]. cbn [positions List.filter].
  assert (rows_at (pre ++ r :: rows) (positions key k rows (Datatypes.S (length pre))) = Ok (List.filter (has_key key k) rows)) as H.
  { specialize (IH (pre ++ [r])). rewrite length_app, <- app_assoc in IH. cbn in IH. by rewrite Nat.add_1_r in IH. }
  destruct (has_key key k r); cbn [app rows_at]; [|done]. rewrite list_lookup_middle by done. by rewrite H.
Qed.

Lemma candidates_ok h key build d : (forall k, default [] (table_get k h) = positions key k build 0) ->
  candidates h build d = Ok (match join_key d with Some k => List.filter (has_key key k) build | None => [] end).
Proof.
  intros Hh. unfold candidates. destruct (join_key d) as [k|]; [|done]. specialize (Hh k). pose proof (rows_at_positions key k build []) as Hp. cbn in Hp.
  destruct (table_get k h) as [ps|]; cbn in Hh; subst; [done|]. by rewrite <- Hh in Hp.
Qed.

Lemma probe_ok ts on combine pad h build bkey key rows s :
  (forall k, default [] (table_get k h) = positions bkey k build 0) ->
  (forall p, p ∈ rows -> exists d, row_at p key = Ok d) ->
  (forall p b, p ∈ rows -> b ∈ build -> exists x, ev on ts (combine p b) = Ok x) ->
  (forall p b, p ∈ rows -> b ∈ build -> meets on ts (combine p b) = true -> exists k, key_at key p = Some k /\ key_at bkey b = Some k) ->
  probe tick f64_show debug ts on combine pad h build key rows s =
    Ret (s, Ok (mjoin ((fun p => pad p (List.filter (meets on ts) (combine p <$> build))) <$> rows))).
Proof.
  intros Hh Hr Hd Hk. induction rows as [|p rows IH]; [done|]. cbn [probe]. unfold mbind, sm_bind. rewrite Htick.
  destruct (Hr p ltac:(left)) as [d Ed]. unfold lift. rewrite Ed, (candidates_ok h bkey build d Hh).
  set (cands := match join_key d with Some k => _ | None => [] end).
  assert (forall b, b ∈ cands -> b ∈ build) as Hsub.
  { intros b. subst cands. destruct (join_key d); [|by intros ?%elem_of_nil]. rewrite !list_elem_of_In, filter_In. tauto. }
  rewrite matches_ok by (intros b Hb; apply Hd; [left|by apply Hsub]). rewrite IH by (intros; first [apply Hr|apply Hd|eapply Hk]; by (done || right)).
  assert (List.filter (meets on ts) (combine p <$> cands) = List.filter (meets on ts) (combine p <$> build)) as ->; [|done].
  assert (forall l, (forall b, b ∈ l -> b ∈ build) -> List.filter (meets on ts) (combine p <$> match join_key d with Some k => List.filter (has_key bkey k) l | None => [] end) =
    List.filter (meets on ts) (combine p <$> l)) as Hf; [|by apply Hf].
  intros l Hl. induction l as [|b l IHl]; [by destruct (join_key d)|]. assert (forall b', b' ∈ l -> b' ∈ build) as Hl' by (intros; apply Hl; by right). specialize (IHl Hl').
  cbn [fmap list_fmap List.filter]. destruct (meets on ts (combine p b)) eqn:Em.
  - destruct (Hk p b ltac:(left) (Hl b ltac:(left)) Em) as (k & Hk1 & Hk2). unfold key_at in Hk1. rewrite Ed in Hk1. rewrite Hk1 in IHl |- *.
    cbn [List.filter]. unfold has_key at 1. rewrite bool_decide_eq_true_2 by done. cbn [fmap list_fmap List.filter]. by rewrite Em, IHl.
  - destruct (join_key d) as [k|]; [|done]. cbn [List.filter]. destruct (has_key bkey k b); cbn [fmap list_fmap List.filter]; [by rewrite Em|done].
Qed.

(** ** The equality of the clause *)

Lemma sql_eq_sym a b : sql_eq a b = sql_eq b a.
Proof.
  unfold sql_eq. rewrite (orb_comm (is_null a)). f_equal.
  destruct a, b; cbn [coerce_pair]; repeat case_match; simplify_eq/=; try done; try apply eqb_sym; try apply Z.eqb_sym; apply bool_decide_ext; naive_solver.
Qed.

(** What a true clause says of the columns the hash join uses. *)
Lemma equi_true on ts row lw lk rk : ev on ts row = Ok true -> equi_join on lw (resolve_scope ts) = Some (lk, rk) ->
  0 <= lk < lw /\ lw <= rk < widths ts /\ exists a b, row_at row lk = Ok a /\ row_at row rk = Ok b /\ sql_eq a b = true.
Proof.
  unfold eval_scoped. revert lk rk. induction on as [| |l IHl op r IHr|a IHa b IHb| | | | | | | |]; intros lk rk; cbn [equi_join eval_with]; try done.
  - destruct l as [x| | | | | | | | | | |]; try done. destruct op; try done. destruct r as [y| | | | | | | | | | |]; try done.
    cbn [eval_operand]. unfold scoped_column. destruct (resolve_scope ts x) as [i| |] eqn:Ei; try done. destruct (resolve_scope ts y) as [k| |] eqn:Ek; try done.
    apply resolve_scope_bound in Ei. apply resolve_scope_bound in Ek. cbn [mbind res_bind].
    destruct (row_at row i) as [a| |] eqn:Ea; try done. destruct (row_at row k) as [b| |] eqn:Eb; try done. cbn [mbind res_bind].
    intros H. assert (sql_eq a b = true) as Hs.
    { unfold sql_eq. destruct (is_null a || is_null b); [done|]. destruct (coerce_pair a b) as [u v]. cbn. by injection H. }
    destruct (Z.ltb_spec i lw), (Z.ltb_spec k lw); intros [= <- <-]; (split; [lia|]; split; [lia|]); [by exists a, b|exists b, a]. by rewrite sql_eq_sym.
  - destruct (eval_with f64_show debug (scoped_column ts row) a) as [[]| |] eqn:Ea; try done. intros Eb. change (eval_with f64_show debug (scoped_column ts row) b = Ok true) in Eb.
    destruct (equi_join a lw (resolve_scope ts)) as [p|]; [|intros Hq; by apply (IHb lk rk)]. intros [= ->]. by apply (IHa lk rk).
Qed.

(** ** Joins through the hash table *)

Lemma mjoin_app_perm {A B} (g h : A -> list B) l : mjoin ((fun x => g x ++ h x) <$> l) ≡ₚ mjoin (g <$> l) ++ mjoin (h <$> l).
Proof.
  induction l as [|x l IH]; [done|]. cbn. rewrite IH. rewrite <- !app_assoc. apply Permutation_app_head. rewrite !app_assoc. apply Permutation_app_tail, Permutation_app_comm.
Qed.

(** Swapping the two loops of an inner join keeps the rows. *)
Lemma mjoin_swap {A B C} (P : C -> bool) (f : A -> B -> C) ls rs :
  mjoin ((fun r => List.filter P ((fun l => f l r) <$> ls)) <$> rs) ≡ₚ mjoin ((fun l => List.filter P (f l <$> rs)) <$> ls).
Proof.
  induction ls as [|l ls IH]; cbn [fmap list_fmap mjoin list_join]; [by induction rs|]. rewrite <- IH.
  assert (List.filter P (f l <$> rs) = mjoin ((fun r => if P (f l r) then [f l r] else []) <$> rs)) as ->.
  { clear. induction rs as [|r rs IH]; [done|]. cbn. rewrite IH. by destruct (P (f l r)). }
  rewrite <- mjoin_app_perm. apply reflexive_eq. f_equal. apply list_fmap_ext. intros _ r _. cbn. by destruct (P (f l r)).
Qed.

Section step.
Context (ts : Scope) (on : Expr) (kind : JoinKind) (ls rs : list Row) (lk rk : Z).
Let lw := widths (removelast ts).
Context (Hts : ts <> []) (Hls : Forall (fun l => Zlen l = lw) ls) (Hrs : Forall (fun r => Zlen r = last_width ts) rs).
Context (Hdec : decided on ts ls rs) (Heq : equi_join on lw (resolve_scope ts) = Some (lk, rk)).
Context (Hhash : forall l r a b, l ∈ ls -> r ∈ rs -> row_at l lk = Ok a -> row_at r (rk - lw) = Ok b -> datum_wf a /\ datum_wf b /\ hashable a b).

Lemma meeting_keys l r : l ∈ ls -> r ∈ rs -> meets on ts (l ++ r) = true -> exists k, key_at lk l = Some k /\ key_at (rk - lw) r = Some k.
Proof.
  intros Hl Hr. unfold meets. destruct (ev on ts (l ++ r)) as [[]| |] eqn:Ee; try done. intros _.
  destruct (equi_true on ts _ lw lk rk Ee Heq) as (Hlk & Hrk & a & b & Ha & Hb & Hs). rewrite Forall_forall in Hls, Hrs.
  specialize (Hls l Hl). specialize (Hrs r Hr). rewrite (widths_last ts Hts) in Hrk. fold lw in Hrk.
  assert (row_at l lk = Ok a) as Hal by (rewrite <- Ha; unfold row_at; rewrite lookup_app_l by lia; done).
  assert (row_at r (rk - lw) = Ok b) as Hbr.
  { rewrite <- Hb. unfold row_at. rewrite lookup_app_r by lia. do 2 f_equal. by replace (Z.to_nat rk - length l)%nat with (Z.to_nat (rk - lw)) by lia. }
  destruct (Hhash l r a b Hl Hr Hal Hbr) as (Hwa & Hwb & Hh). destruct (equal_keys a b Hwa Hwb Hh Hs) as [Hk Hn].
  unfold key_at. rewrite Hal, Hbr. destruct (join_key a) as [k|]; [|done]. by exists k.
Qed.

Lemma equi_bound : 0 <= lk < lw /\ lw <= rk < widths ts.
Proof.
  clear -Heq. revert lk rk Heq. induction on as [| |l IHl op r IHr|a IHa b IHb| | | | | | | |]; intros lk rk; cbn [equi_join]; try done.
  - destruct l as [x| | | | | | | | | | |]; try done. destruct op; try done. destruct r as [y| | | | | | | | | | |]; try done.
    destruct (resolve_scope ts x) as [i| |] eqn:Ei; try done. destruct (resolve_scope ts y) as [k| |] eqn:Ek; try done.
    apply resolve_scope_bound in Ei. apply resolve_scope_bound in Ek. destruct (Z.ltb_spec i lw), (Z.ltb_spec k lw); intros [= <- <-]; lia.
  - destruct (equi_join a lw (resolve_scope ts)) as [p|]; [|apply IHb]. intros [= ->]. by apply IHa.
Qed.

Lemma row_in rows n key : Forall (fun r : Row => Zlen r = n) rows -> 0 <= key < n -> forall r, r ∈ rows -> exists d, row_at r key = Ok d.
Proof.
  intros Hn Hk r Hr. rewrite Forall_forall in Hn. specialize (Hn r Hr). unfold row_at.
  destruct (lookup_lt_is_Some_2 r (Z.to_nat key)) as [d ->]; [lia|by exists d].
Qed.

Lemma hash_join_ok s : exists out, hash_join_step tick f64_show debug ts on kind lk (rk - lw) ls rs s = Ret (s, Ok out) /\ out ≡ₚ join_of ts on kind ls rs.
Proof.
  destruct equi_bound as [Hl Hr]. pose proof (row_in ls lw lk Hls Hl) as Hll.
  assert (forall r, r ∈ rs -> exists d, row_at r (rk - lw) = Ok d) as Hrr by (apply (row_in rs (last_width ts)); [done|rewrite (widths_last ts Hts) in Hr; fold lw in Hr; lia]).
  unfold hash_join_step. destruct (match kind with JInner => _ | JLeft => false end) eqn:Eb.
  - destruct (build_table_ok lk ls 0 [] s Hll) as (h & Eh & Hh). unfold mbind, sm_bind at 1. rewrite Eh.
    rewrite (probe_ok ts on (fun p b => b ++ p) (fun _ out => out) h ls lk (rk - lw) rs s).
    + eexists. split; [done|]. destruct kind; [|done]. apply (mjoin_swap (meets on ts) (fun l r => l ++ r)).
    + intros k. by rewrite Hh.
    + done.
    + intros p b Hp Hb. by apply Hdec.
    + intros p b Hp Hb Hm. destruct (meeting_keys b p Hb Hp Hm) as (k & H1 & H2). by exists k.
  - destruct (build_table_ok (rk - lw) rs 0 [] s Hrr) as (h & Eh & Hh). unfold mbind, sm_bind at 1. rewrite Eh.
    rewrite (probe_ok ts on (fun p b => p ++ b) (padded kind (last_width ts)) h rs (rk - lw) lk ls s).
    + eexists. split; [done|]. done.
    + intros k. by rewrite Hh.
    + done.
    + intros p b Hp Hb. by apply Hdec.
    + apply meeting_keys.
Qed.

End step.
End clock.

(** C17: A join step returns the rows of the nested loop over all pairs (LEFT
    pads a left row that meets nothing), in some order, whether the ON clause
    has an equality to hash on or not and whichever side the hash table is
    built from.  It holds when the deadline does not pass, the rows have the
    widths of their tables, the ON clause evaluates without an error on every
    pair ([decided]), and the hashed columns hold values whose hash keys agree
    with the evaluator's comparison ([hashable]): a BOOL column is not joined
    with a numeric one, and no integer of 2^53 or more with a FLOAT.  On such
    pairs the hash join loses rows the nested loop has. *)
Theorem join_step_is_nested_loop {S} (tick : SM S ()) (ts : Scope) (on : Expr) (kind : JoinKind) (ls rs : list Row) (s : S) :
  (forall s, tick s = Ret (s, Ok ())) -> ts <> [] ->
  Forall (fun l => Zlen l = widths (removelast ts)) ls -> Forall (fun r => Zlen r = last_width ts) rs ->
  decided on ts ls rs ->
  (forall lk rk, equi_join on (widths (removelast ts)) (resolve_scope ts) = Some (lk, rk) -> forall l r a b, l ∈ ls -> r ∈ rs ->
    row_at l lk = Ok a -> row_at r (rk - widths (removelast ts)) = Ok b -> datum_wf a /\ datum_wf b /\ hashable a b) ->
  exists out, join_step tick f64_show debug ts on kind ls rs s = Ret (s, Ok out) /\ out ≡ₚ join_of ts on kind ls rs.
Proof.
  intros Htick Hts Hls Hrs Hd Hk. unfold join_step. destruct (equi_join _ _ _) as [[lk rk]|] eqn:Ee.
  - by apply hash_join_ok; [..|apply Hk].
  - eexists. split; [by apply nested_loop_ok|done].
Qed.

End joins.

(** * Instances *)

Definition demo_col (n : bytes) : ColumnDef := mkColumnDef n CInt true false None.
Definition demo_users : TableDef := mkTableDef (str "db.users") (mkSchema [demo_col (str "id"); demo_col (str "age")] 0) [] [] None.
Definition demo_orders : TableDef := mkTableDef (str "db.orders") (mkSchema [demo_col (str "oid"); demo_col (str "uid")] 0) [] [] None.
Definition demo_on : Expr := EAnd (ECmp (EColumn (str "users.id")) OpEq (EColumn (str "uid"))) (ECmp (EColumn (str "oid")) OpGt (ELiteral (Int 1))).
Definition demo_ls : list Row := [[Int 1; Int 30]; [Int 2; Int 40]; [Int 3; Int 50]].
Definition demo_rs : list Row := [[Int 1; Int 1]; [Int 2; Int 1]; [Int 3; Int 2]; [Int 4; Null]; [Int 5; Int 1]].

(** Users [LEFT JOIN] orders, hashed on [users.id = orders.uid]. *)
Example join_step_is_nested_loop_witness :
  exists out, join_step (fun s : () => Ret (s, Ok ())) (fun _ => []) (fun _ => []) [demo_users; demo_orders] demo_on JLeft demo_ls demo_rs () = Ret ((), Ok out) /\
    out ≡ₚ join_of (fun _ => []) (fun _ => []) [demo_users; demo_orders] demo_on JLeft demo_ls demo_rs /\ length out = 4%nat.
Proof.
  destruct (join_step_is_nested_loop (fun _ => []) (fun _ => []) (fun s : () => Ret (s, Ok ())) [demo_users; demo_orders] demo_on JLeft demo_ls demo_rs ()) as (out & H & Hp).
  - done.
  - done.
  - by repeat constructor.
  - by repeat constructor.
  - intros l r Hl Hr. unfold demo_ls, demo_rs in *. repeat (apply elem_of_cons in Hl as [->|Hl]); [| | |by apply elem_of_nil in Hl];
      repeat (apply elem_of_cons in Hr as [->|Hr]); try (by apply elem_of_nil in Hr); (eexists; vm_compute; reflexivity).
  - intros lk rk [= <- <-] l r a b Hl Hr. unfold demo_ls, demo_rs in *. repeat (apply elem_of_cons in Hl as [->|Hl]); [| | |by apply elem_of_nil in Hl];
      repeat (apply elem_of_cons in Hr as [->|Hr]); try (by apply elem_of_nil in Hr); (intros [= <-] [= <-]; repeat split; vm_compute; congruence).
  - exists out. split; [exact H|]. split; [exact Hp|]. apply Permutation_length in Hp. rewrite Hp. by vm_compute.
Defined.
