(* ===== verification/Visible.v ===== *)
(** Which rows a statement sees (visible_row and visible_rows of db/mod.rs):
    the access path, the snapshot, the writes staged by the transaction, and
    the WHERE clause, one after the other. *)
From stdpp Require Import base list gmap strings sorting.
From Stdlib Require Import ZArith Lia.
From S2P Require Import Prelude Machine Types DateTime TableDef BTree Kv Mvcc Page Table Expr Batch Plan Cost.

(** [rows.sort_by(|a, b| a.0.cmp(&b.0))]: stable. *)
Fixpoint insert_by {A} (e : bytes * A) (l : list (bytes * A)) : list (bytes * A) :=
  match l with [] => [e] | x :: l' => if blt e.1 x.1 then e :: l else x :: insert_by e l' end.
Definition sort_by_key {A} (l : list (bytes * A)) : list (bytes * A) := fold_left (fun acc e => insert_by e acc) l [].

Record StagedWrite := mkStaged { sw_row : option (list Datum); sw_insert : bool }.

(** The staged writes of a transaction, in the iteration order of their map,
    and the snapshot of the session. *)
Record Session := mkSession { x_staged : option (list ((bytes * bytes) * StagedWrite)); x_snapshot : option SnapshotPin }.

(** The version buffer as a statement reads it at one instant. *)
Record VersionView := mkView { v_state : VersionState (Row := list Datum); v_max_age : option Z; v_now : Z }.

(** [txn.staged.get(&(table, key))] *)
Definition staged_at (x : Session) (name key : bytes) : option StagedWrite :=
  l ← x_staged x; snd <$> List.find (fun e => bool_decide (e.1 = (name, key))) l.

(** The staged writes of one table. *)
Definition overlay_of (x : Session) (name : bytes) : list (bytes * StagedWrite) :=
  omap (fun e => if bool_decide (e.1.1 = name) then Some (e.1.2, e.2) else None) (default [] (x_staged x)).

(** The loop that lays one staged write over the rows. *)
Fixpoint replace_first {A} (key : bytes) (v : A) (rows : list (bytes * A)) : list (bytes * A) :=
  match rows with [] => [] | (k, r) :: rows => if bool_decide (k = key) then (k, v) :: rows else (k, r) :: replace_first key v rows end.

Definition overlay_write (rows : list (bytes * list Datum)) (e : bytes * StagedWrite) : list (bytes * list Datum) :=
  match sw_row (e.2) with
  | Some row =>
    if existsb (fun r => bool_decide (r.1 = e.1)) rows then replace_first (e.1) row rows
    else sort_by_key (rows ++ [(e.1, row)])
  | None => List.filter (fun r => negb (bool_decide (r.1 = e.1))) rows
  end.

Section visible.
Context {T P : Type} `{KvTree T, Pool P}.
Context (f64_show : Z -> bytes) (debug : Expr -> bytes) (entry_count : T -> Z).

Abbreviation Tbl := (@Table T P).
Abbreviation TM := (SM Tbl).
Abbreviation Row := (list Datum).

Definition table_name : TM bytes := gets (fun t => td_name (t_def t)).

Section session.
Context (v : VersionView) (x : Session).

Definition lookup_version (name key : bytes) (current : option Row) : res (option Row) :=
  snapshot_lookup (v_state v) (v_max_age v) (v_now v) (x_snapshot x) (name, key) current.

Definition visible_row (key : bytes) : TM (option Row) :=
  name ← table_name;
  match staged_at x name key with
  | Some w => mret (sw_row w)
  | None => raw ← tree_get key; current ← Table.decode_opt raw; lift (lookup_version name key current)
  end.

(** One [visible_row] per primary key, in the given order. *)
Fixpoint seek (pks : list Datum) : TM (list (bytes * Row)) :=
  match pks with
  | [] => mret []
  | d :: pks =>
    key ← lift (encode_key d);
    r ← visible_row key;
    rest ← seek pks;
    mret (match r with Some r => (key, r) :: rest | None => rest end)
  end.

(** The same with the [seen] set, for one value of an IN list. *)
Fixpoint seek_new (pks : list Datum) (seen : list bytes) : TM (list (bytes * Row) * list bytes) :=
  match pks with
  | [] => mret ([], seen)
  | d :: pks =>
    key ← lift (encode_key d);
    if bool_decide (key ∈ seen) then seek_new pks seen
    else
      r ← visible_row key;
      '(rest, seen) ← seek_new pks (key :: seen);
      mret (match r with Some r => (key, r) :: rest | None => rest end, seen)
  end.

Fixpoint sec_in (col_idx : Z) (values : list Datum) (seen : list bytes) : TM (list (bytes * Row)) :=
  match values with
  | [] => mret []
  | d :: values =>
    pks ← scan_secondary col_idx (Some (d, true)) (Some (d, true));
    '(rows, seen) ← match pks with Some pks => seek_new pks seen | None => mret ([], seen) end;
    rest ← sec_in col_idx values seen;
    mret (rows ++ rest)
  end.

Fixpoint key_all (s : Schema) (scanned : list (Datum * Row)) : res (list (bytes * Row)) :=
  match scanned with
  | [] => mret []
  | (_, r) :: scanned => d ← row_at r (pk_idx s); key ← encode_key d; rest ← key_all s scanned; mret ((key, r) :: rest)
  end.

Fixpoint decode_all (kvs : list (bytes * bytes)) : TM (list (bytes * Row)) :=
  match kvs with
  | [] => mret []
  | (k, raw) :: kvs => r ← decode_stored raw; rest ← decode_all kvs; mret ((k, r) :: rest)
  end.

(** The rows the access path delivers. *)
Definition source (path : AccessPath) : TM (list (bytes * Row)) :=
  match path with
  | Point d => seek [d]
  | PkIn ds => seek ds
  | Range lo hi => scanned ← scan_range lo hi; s ← gets (fun t => td_schema (t_def t)); lift (key_all s scanned)
  | SecondaryPath col_idx lo hi => pks ← scan_secondary col_idx lo hi; seek (default [] pks)
  | SecIn col_idx values => sec_in col_idx values []
  | FullScan => kvs ← tree_range None true None true; decode_all kvs
  end.

Definition is_scan_path (path : AccessPath) : bool := match path with Range _ _ | FullScan => true | _ => false end.

(** Rows created after the pin vanish. *)
Fixpoint substitute (name : bytes) (rows : list (bytes * Row)) : res (list (bytes * Row)) :=
  match rows with
  | [] => mret []
  | (k, r) :: rows =>
    h ← lookup_version name k (Some r); rest ← substitute name rows;
    mret (match h with Some hist => (k, hist) :: rest | None => rest end)
  end.

Definition with_history (name : bytes) (rows : list (bytes * Row)) : res (list (bytes * Row)) :=
  kept ← substitute name rows;
  extra ← snapshot_scan_extra (v_state v) (v_max_age v) (v_now v) (x_snapshot x) name (list_to_set kept.*1);
  mret (match extra with [] => kept | _ => sort_by_key (kept ++ extra) end).

(** The rows ahead of the final filter, from the access path the clause leads
    to. *)
Definition sourced_rows (selection : option Expr) : TM (list Row) :=
  t ← gets id;
  choice ← lift (choose_access_path entry_count t selection);
  let path := ch_path choice in
  rows ← source path;
  let name := td_name (t_def t) in
  rows ← (if is_scan_path path && bool_decide (is_Some (x_snapshot x)) then lift (with_history name rows) else mret rows);
  let rows := match x_staged x with Some _ => fold_left overlay_write (overlay_of x name) rows | None => rows end in
  mret rows.*2.

Definition visible_rows (selection : option Expr) : TM (list Row) :=
  s ← gets (fun t => td_schema (t_def t)); rows ← sourced_rows selection; lift (select_rows f64_show debug s selection rows).

End session.
End visible.
