(* ===== verification/VisibleSpec.v ===== *)
(** The rows a statement sees are the rows of its view that satisfy the WHERE
    clause, each once: whatever access path is chosen, and with the snapshot
    and the staged writes of its transaction laid over the table. *)
From stdpp Require Import base list gmap strings sorting.
From Stdlib Require Import ZArith Lia.
From S2P Require Import Prelude Machine Utf8 Types DateTime TableDef BTree BTreeRep BTreeScan BTreeSpec Kv Mvcc Page Table TableSpec TableScan Expr Batch BatchSpec Plan PlanSpec Cost Visible.

(** * Lists of rows by key *)

Lemma insert_by_perm {A} (e : bytes * A) l : insert_by e l ≡ₚ e :: l.
Proof. induction l as [|x l IH]; [done|]. cbn. destruct (blt _ _); [done|]. rewrite IH. apply Permutation_swap. Qed.

Lemma sort_by_key_perm {A} (l : list (bytes * A)) : sort_by_key l ≡ₚ l.
Proof.
  unfold sort_by_key. rewrite <- (app_nil_r l) at 2. generalize (@nil (bytes * A)). induction l as [|e l IH]; intros acc; [done|].
  cbn. rewrite IH, insert_by_perm. symmetry. apply Permutation_middle.
Qed.

(** Rows under distinct keys. *)
Definition keyed_rows (l : list (bytes * list Datum)) : Prop := NoDup l.*1.

Lemma keyed_perm l l' : l ≡ₚ l' -> keyed_rows l -> keyed_rows l'.
Proof. unfold keyed_rows. by intros ->. Qed.

Lemma keyed_fun l k a b : keyed_rows l -> (k, a) ∈ l -> (k, b) ∈ l -> a = b.
Proof.
  intros Hn Ha%list_elem_of_lookup Hb%list_elem_of_lookup. destruct Ha as [i Hi], Hb as [j Hj].
  assert (i = j) as <-; [|congruence]. apply (NoDup_lookup l.*1 i j k); [done|..]; rewrite list_lookup_fmap; by rewrite ?Hi, ?Hj.
Qed.

Lemma replace_first_keys {A} key (v : A) l : (replace_first key v l).*1 = l.*1.
Proof. induction l as [|[k r] l IH]; [done|]. cbn. case_bool_decide; cbn; by f_equal. Qed.

Lemma replace_first_elem key v (l : list (bytes * list Datum)) : keyed_rows l -> key ∈ l.*1 -> forall k r,
  (k, r) ∈ replace_first key v l <-> (if bool_decide (k = key) then r = v else (k, r) ∈ l).
Proof.
  intros Hn Hin k r. induction l as [|[k' r'] l IH]; [by apply elem_of_nil in Hin|]. cbn. unfold keyed_rows in Hn. cbn in Hn.
  apply NoDup_cons in Hn as [Hk' Hn]. destruct (bool_decide_reflect (k' = key)) as [Hd|Hd].
  - subst k'. rewrite elem_of_cons. case_bool_decide as Hk.
    + subst. split; [intros [[= ->]|Hr]; [done|]|intros ->; by left]. destruct Hk'. apply list_elem_of_fmap. by exists (key, r).
    + rewrite elem_of_cons. split; intros [[= ]|]; auto; by destruct Hk.
  - cbn in Hin. apply elem_of_cons in Hin as [->|Hin]; [done|]. rewrite elem_of_cons, (IH Hn Hin). case_bool_decide as Hk.
    + subst. split; [intros [[= ]|]; [by destruct Hd|done]|intros ->; by right].
    + by rewrite elem_of_cons.
Qed.

Lemma filter_keys {A} (f : bytes -> bool) (l : list (bytes * A)) : (List.filter (fun e => f e.1) l).*1 = List.filter f l.*1.
Proof. induction l as [|[k r] l IH]; [done|]. cbn. destruct (f k); cbn; by f_equal. Qed.

Lemma nodup_filter_b {A} (f : A -> bool) l : NoDup l -> NoDup (List.filter f l).
Proof.
  induction 1 as [|x l Hx _ IH]; [constructor|]. cbn. destruct (f x); [|done]. constructor; [|done].
  rewrite list_elem_of_In, filter_In, <- list_elem_of_In. tauto.
Qed.

(** One staged write decides its key and leaves the others. *)
Lemma overlay_write_elem l e : keyed_rows l -> keyed_rows (overlay_write l e) /\ forall k r,
  (k, r) ∈ overlay_write l e <-> (if bool_decide (k = e.1) then sw_row e.2 = Some r else (k, r) ∈ l).
Proof.
  intros Hn. unfold overlay_write. destruct e as [key w]. cbn [fst snd]. destruct (sw_row w) as [row|].
  - destruct (existsb _ l) eqn:Ee.
    + assert (key ∈ l.*1) as Hin.
      { apply existsb_exists in Ee as ([k r] & Hr & Hk%bool_decide_eq_true). cbn in Hk. subst k. apply list_elem_of_fmap. exists (key, r).
        split; [done|by apply list_elem_of_In]. }
      split; [unfold keyed_rows; by rewrite replace_first_keys|]. intros k r. rewrite (replace_first_elem key row l Hn Hin).
      case_bool_decide; [split; congruence|done].
    + assert (key ∉ l.*1) as Hin.
      { intros ([k r] & Hk & Hr)%list_elem_of_fmap. cbn in Hk. subst k. apply not_true_iff_false in Ee. destruct Ee. apply existsb_exists.
        exists (key, r). split; [by apply list_elem_of_In|by apply bool_decide_eq_true]. }
      split.
      * apply (keyed_perm (l ++ [(key, row)])); [by rewrite sort_by_key_perm|]. unfold keyed_rows. rewrite fmap_app. apply NoDup_app.
        split_and!; [done|set_solver|apply NoDup_singleton].
      * intros k r. rewrite sort_by_key_perm, elem_of_app, list_elem_of_singleton. case_bool_decide as Hk.
        -- subst k. split; [intros [Hr|[= ->]]; [|done]|intros [= ->]; by right]. destruct Hin. apply list_elem_of_fmap. by exists (key, r).
        -- split; [intros [?|[= ]]; [done|by destruct Hk]|by left].
  - split.
    + pose proof (filter_keys (fun k => negb (bool_decide (k = key))) l) as Hf. cbn beta in Hf. unfold keyed_rows. rewrite Hf. by apply nodup_filter_b.
    + intros k r. rewrite list_elem_of_In, filter_In, <- list_elem_of_In. cbn. case_bool_decide; cbn; naive_solver.
Qed.

(** And so do all of them. *)
Lemma overlay_elem ov : forall l, NoDup ov.*1 -> keyed_rows l -> keyed_rows (fold_left overlay_write ov l) /\ forall k r,
  (k, r) ∈ fold_left overlay_write ov l <->
  ((exists w, (k, w) ∈ ov /\ sw_row w = Some r) \/ (k ∉ ov.*1 /\ (k, r) ∈ l)).
Proof.
  induction ov as [|[key w] ov IH]; intros l Ho Hn.
  - cbn. split; [done|]. intros k r. split; [right; split; [apply not_elem_of_nil|done]|]. intros [(w & Hw%elem_of_nil & _)|[_ ?]]; done.
  - cbn [fmap list_fmap fst] in Ho. apply NoDup_cons in Ho as [Hk Ho]. destruct (overlay_write_elem l (key, w) Hn) as [Hn' He].
    destruct (IH _ Ho Hn') as [Hk' Hi]. split; [exact Hk'|]. intros k r. cbn [fold_left]. rewrite Hi, He. cbn [fst snd fmap list_fmap].
    setoid_rewrite elem_of_cons. case_bool_decide as Hd.
    + subst k. split.
      * intros [(w' & Hw & Hr)|[_ Hr]]; left; [|by exists w; auto]. exists w'. auto.
      * intros [(w' & [[= ->]|Hw] & Hr)|[Hne _]]; [by right|left; by exists w'|]. destruct Hne. by left.
    + split.
      * intros [(w' & Hw & Hr)|[Hx Hr]]; [left; exists w'; auto|right]. split; [|done]. intros [?|?]; done.
      * intros [(w' & [[= ->]|Hw] & Hr)|[Hx Hr]]; [by destruct Hd|left; by exists w'|right]. split; [|done]. intros ?. apply Hx. by right.
Qed.

Lemma overlay_of_elem x name k w : (k, w) ∈ overlay_of x name <-> ((name, k), w) ∈ default [] (x_staged x).
Proof.
  unfold overlay_of. rewrite list_elem_of_omap. split.
  - intros ([[n k'] w'] & Hin & H). cbn in H. case_bool_decide; [|done]. by injection H as -> ->; subst.
  - intros H. exists ((name, k), w). split; [done|]. cbn. by rewrite bool_decide_eq_true_2.
Qed.

Lemma overlay_of_keys x name : NoDup (default [] (x_staged x)).*1 -> NoDup (overlay_of x name).*1.
Proof.
  unfold overlay_of. induction (default [] (x_staged x)) as [|[[n k] w] l IH]; [constructor|]. cbn [fmap list_fmap fst].
  intros [Hk Hn]%NoDup_cons. cbn. case_bool_decide as Hd; [|by apply IH]. subst n. cbn. constructor; [|by apply IH].
  intros ([k' w'] & Hkk & ([[n k2] w2] & Hin & H)%list_elem_of_omap)%list_elem_of_fmap. cbn in Hkk, H. subst k'.
  case_bool_decide; [|done]. injection H as -> ->. subst n. destruct Hk. apply list_elem_of_fmap. by exists ((name, k), w').
Qed.

Lemma staged_at_elem x name k w : NoDup (default [] (x_staged x)).*1 ->
  staged_at x name k = Some w <-> (k, w) ∈ overlay_of x name.
Proof.
  rewrite overlay_of_elem. unfold staged_at. destruct (x_staged x) as [l|]; cbn; [|split; [done|by intros ?%elem_of_nil]].
  intros Hn. destruct (List.find _ l) as [[nk w']|] eqn:Ef; cbn.
  - apply find_some in Ef as [Hin%list_elem_of_In Hk%bool_decide_eq_true]. cbn in Hk. subst nk. split; [by intros [= ->]|]. intros Hw.
    apply list_elem_of_lookup in Hin as [i Hi], Hw as [j Hj]. assert (i = j) as <-; [|congruence].
    apply (NoDup_lookup l.*1 i j (name, k)); [done|..]; rewrite list_lookup_fmap; by rewrite ?Hi, ?Hj.
  - split; [done|]. intros Hw%list_elem_of_In. apply (List.find_none _ _ Ef) in Hw. cbn in Hw. by rewrite bool_decide_eq_true_2 in Hw.
Qed.

(** * Reading a table *)

Section reading.
Context {T P : Type} {KT : KvTree T} {HT : KvTreeOk T} {KP : Pool P} {HP : PoolOk P}.

Abbreviation Tbl := (@Table T P).
Abbreviation TM := (SM Tbl).
Abbreviation Row := (list Datum).

Context (t0 : Tbl) (rows : Rows).
Abbreviation st q := (set_pool q t0).
Abbreviation s := (td_schema (t_def t0)).

(** The operation returns, changes nothing but the state of the page pool, and
    its result satisfies [Q]. *)
Definition reads {A} (c : TM A) (Q : A -> Prop) : Prop := forall q, table_rep (st q) rows ->
  exists q' a, c (st q) = Ret (st q', Ok a) /\ table_rep (st q') rows /\ Q a.

Lemma reads_bind {A B} (c : TM A) (k : A -> TM B) R Q : reads c R -> (forall a, R a -> reads (k a) Q) -> reads (c ≫= k) Q.
Proof.
  intros Hc Hk q Hq. destruct (Hc q Hq) as (q1 & a & E & H1 & Ha). destruct (Hk a Ha q1 H1) as (q2 & b & E2 & H2 & Hb).
  exists q2, b. unfold mbind, sm_bind. by rewrite E, E2.
Qed.

Lemma reads_mono {A} (c : TM A) (R Q : A -> Prop) : reads c R -> (forall a, R a -> Q a) -> reads c Q.
Proof. intros Hc HQ q Hq. destruct (Hc q Hq) as (q' & a & E & H1 & Ha). exists q', a. auto. Qed.

Lemma reads_lift {A} (r : res A) a (Q : A -> Prop) : r = Ok a -> Q a -> reads (lift r) Q.
Proof. intros -> HQ q Hq. by exists q, a. Qed.

Lemma reads_ret {A} (a : A) (Q : A -> Prop) : Q a -> reads (mret a) Q.
Proof. by apply reads_lift. Qed.

Lemma reads_gets {A} (f : Tbl -> A) (Q : A -> Prop) : (forall q, Q (f (st q))) -> reads (gets f) Q.
Proof. intros HQ q Hq. by exists q, (f (st q)). Qed.

Lemma decode_stored_returns raw (t : Tbl) : exists x, decode_stored raw t = Ret x.
Proof.
  unfold decode_stored, gets, mbind, sm_bind, lift. destruct (is_locator raw) eqn:E; cbn [negb]; [|by eexists].
  unfold resolve_value. rewrite E. cbn [negb]. destruct (t_pool t) as [p|]; [|by eexists]. destruct (loc_decode raw) as [l|?|]; [|by eexists..].
  destruct (pool_load p l) as [p' [?|?|]]; by eexists.
Qed.

(** Decoding what the tree holds under a key of a row. *)
Lemma decode_row_at q m pm raw row : rep (st q) m pm rows -> row_wf s row -> stored_as pm raw row ->
  exists q', decode_stored raw (st q) = Ret (st q', Ok row) /\ rep (st q') m pm rows.
Proof.
  intros H Hr Hs. pose proof (wp_decode_stored (st q) pm raw row (fun t' r => exists q', t' = st q' /\ r = Ok row /\ pool_rep q' pm) Hr (r_pool _ _ _ _ H) Hs) as Hw.
  destruct (decode_stored_returns raw (st q)) as [[t' r] E]. unfold wp in Hw. rewrite E in Hw.
  destruct Hw as (q' & -> & -> & Hq); [intros p Hp; by exists p|]. exists q'. split; [done|]. apply (rep_pool (st q) m pm rows q' H Hq).
Qed.

Lemma decode_all_ok m pm kvs : forall q, rep (st q) m pm rows -> (forall k raw, (k, raw) ∈ kvs -> m !! k = Some raw) ->
  exists q' l, decode_all kvs (st q) = Ret (st q', Ok l) /\ rep (st q') m pm rows /\ l.*1 = kvs.*1 /\
    forall k row, (k, row) ∈ l -> rows !! k = Some row.
Proof.
  induction kvs as [|[k raw] kvs IH]; intros q H Hin; [exists q, []; split_and!; [done..|by intros ? ? ?%elem_of_nil]|].
  assert (Hk : m !! k = Some raw) by (apply Hin; left). destruct (rows !! k) as [row|] eqn:Er; [|by rewrite (r_none _ _ _ _ H k Er) in Hk].
  destruct (r_some _ _ _ _ H _ _ Er) as (raw' & Hm & Hs). rewrite Hk in Hm. injection Hm as <-.
  destruct (decode_row_at q m pm raw row H) as (q1 & E1 & H1); [by apply (r_rows _ _ _ _ H k)|done|].
  destruct (IH q1 H1) as (q2 & l & E2 & H2 & Hl & Hr); [intros; apply Hin; by right|].
  exists q2, ((k, row) :: l). cbn [decode_all]. unfold mbind, sm_bind. rewrite E1, E2. split_and!; [done|done|cbn; by f_equal|].
  intros k' row' [[= -> ->]|?]%elem_of_cons; auto.
Qed.

Lemma decode_pairs_ok m pm kvs : forall q, rep (st q) m pm rows -> (forall k raw, (k, raw) ∈ kvs -> m !! k = Some raw) ->
  exists q' l, decode_pairs kvs (st q) = Ret (st q', Ok ((fun e => (key_value e.1, e.2)) <$> l)) /\ rep (st q') m pm rows /\ l.*1 = kvs.*1 /\
    forall k row, (k, row) ∈ l -> rows !! k = Some row.
Proof.
  induction kvs as [|[k raw] kvs IH]; intros q H Hin; [exists q, []; split_and!; [done..|by intros ? ? ?%elem_of_nil]|].
  assert (Hk : m !! k = Some raw) by (apply Hin; left). destruct (rows !! k) as [row|] eqn:Er; [|by rewrite (r_none _ _ _ _ H k Er) in Hk].
  destruct (r_some _ _ _ _ H _ _ Er) as (raw' & Hm & Hs). rewrite Hk in Hm. injection Hm as <-.
  destruct (r_rows _ _ _ _ H k row Er) as [Hwf Hrk]. destruct (row_pk (st q) row k Hwf Hrk) as (_ & pk & _ & Hd & _).
  destruct (decode_row_at q m pm raw row H) as (q1 & E1 & H1); [done..|].
  destruct (IH q1 H1) as (q2 & l & E2 & H2 & Hl & Hr); [intros; apply Hin; by right|].
  exists q2, ((k, row) :: l). cbn [decode_pairs]. unfold mbind, sm_bind, lift. rewrite Hd, E1, E2. split_and!; [|done|cbn; by f_equal|].
  - assert (key_value k = pk) as <- by (unfold key_value; by rewrite Hd). done.
  - intros k' row' [[= -> ->]|?]%elem_of_cons; auto.
Qed.

(** The row under a key, decoded. *)
Lemma read_row key : Forall u8 key -> reads (raw ← tree_get key; Table.decode_opt raw) (fun r => r = rows !! key).
Proof.
  intros Hu q (m & pm & H). pose proof (wp_get key m (st q) (fun t' r => t' = st q /\ r = Ok (m !! key)) (r_tree _ _ _ _ H) Hu (conj eq_refl eq_refl)) as Hg.
  assert (tree_get key (st q) = Ret (st q, Ok (m !! key))) as E.
  { unfold tree_get, on_tree. rewrite (tget_ok _ _ _ (r_tree _ _ _ _ H) Hu). done. }
  unfold mbind, sm_bind. rewrite E. destruct (rows !! key) as [row|] eqn:Er.
  - destruct (r_some _ _ _ _ H _ _ Er) as (raw & Hm & Hs). rewrite Hm. cbn [Table.decode_opt]. unfold mbind, sm_bind.
    destruct (decode_row_at q m pm raw row H) as (q1 & E1 & H1); [by apply (r_rows _ _ _ _ H key)|done|].
    exists q1, (Some row). rewrite E1. split_and!; [done|by exists m, pm|done].
  - rewrite (r_none _ _ _ _ H key Er). exists q, None. split_and!; [done|by exists m, pm|done].
Qed.

Lemma tree_range_ok q m lo li hi hi_incl : stored (t_tree t0) m -> match lo with Some k => Forall u8 k | None => True end ->
  exists l, tree_range lo li hi hi_incl (st q) = Ret (st q, Ok (List.filter (fun e => in_range lo li hi hi_incl e.1) l)) /\
    StronglySorted klt l.*1 /\ to_map l = m.
Proof.
  intros Hs Hlo. destruct (trange_ok (t_tree t0) m lo li hi hi_incl Hs Hlo) as (l & E & Hl & Hm). exists l. split; [|done].
  unfold tree_range, on_tree. change (t_tree (st q)) with (t_tree t0). by rewrite E.
Qed.

Definition rows_of (l : list (bytes * Row)) (keep : bytes -> Prop) : Prop :=
  keyed_rows l /\ forall k row, (k, row) ∈ l <-> rows !! k = Some row /\ keep k.

(** What a range of the tree decodes to. *)
Lemma rows_of_range m pm q (kvs : list (bytes * bytes)) (f : bytes -> bool) (l : list (bytes * Row)) :
  rep (st q) m pm rows -> StronglySorted klt kvs.*1 -> to_map kvs = m ->
  l.*1 = (List.filter (fun e => f e.1) kvs).*1 -> (forall k row, (k, row) ∈ l -> rows !! k = Some row) ->
  rows_of l (fun k => f k = true).
Proof.
  intros H Hs Hm Hl Hr. rewrite (filter_keys f) in Hl. split.
  - unfold keyed_rows. rewrite Hl. apply nodup_filter_b. by apply (sorted_nodup klt).
  - intros k row. split.
    + intros Hin. split; [by apply Hr|]. assert (k ∈ l.*1) as Hk by (apply list_elem_of_fmap; by exists (k, row)).
      rewrite Hl, list_elem_of_In in Hk. apply filter_In in Hk. tauto.
    + intros [Er Hf]. destruct (r_some _ _ _ _ H _ _ Er) as (raw & Hk & _). rewrite <- Hm in Hk. apply to_map_elem in Hk; [|done].
      assert (k ∈ l.*1) as Hkl.
      { rewrite Hl, list_elem_of_In. apply filter_In. split; [|done]. apply list_elem_of_In, list_elem_of_fmap. by exists (k, raw). }
      apply list_elem_of_fmap in Hkl as ([k' row'] & Ek & Hin). cbn in Ek. subst k'. pose proof (Hr _ _ Hin) as Hr'. congruence.
Qed.

Lemma read_all : reads (kvs ← tree_range None true None true; decode_all kvs) (fun l => rows_of l (fun _ => True)).
Proof.
  intros q (m & pm & H). destruct (tree_range_ok q m None true None true (r_tree _ _ _ _ H) I) as (kvs & E & Hs & Hm).
  destruct (decode_all_ok m pm (List.filter (fun e => in_range None true None true e.1) kvs) q H) as (q' & l & E2 & H2 & Hl & Hr).
  { intros k raw Hin. rewrite list_elem_of_In in Hin. apply filter_In in Hin as [Hin _]. rewrite <- Hm. apply to_map_elem; [done|by apply list_elem_of_In]. }
  exists q', l. unfold mbind, sm_bind. rewrite E, E2. split_and!; [done|by exists m, pm|].
  destruct (rows_of_range m pm q kvs (in_range None true None true) l H Hs Hm Hl Hr) as [H3 H4]. split; [done|].
  intros k row. rewrite H4. split; [by intros [? _]|by intros [? _]].
Qed.

Lemma key_all_ok (l : list (bytes * Row)) : rows_wf s rows -> (forall k row, (k, row) ∈ l -> rows !! k = Some row) ->
  key_all s ((fun e => (key_value e.1, e.2)) <$> l) = Ok l.
Proof.
  intros Hw. induction l as [|[k row] l IH]; intros Hr; [done|]. cbn [fmap list_fmap key_all fst snd].
  destruct (Hw k row) as [Hwf Hrk]; [apply Hr; left|]. destruct (row_pk t0 row k Hwf Hrk) as (_ & pk & Hpk & _ & He).
  rewrite Hpk. cbn. rewrite He. cbn. rewrite IH; [done|]. intros; apply Hr; by right.
Qed.

Lemma read_range lo hi lk hk : opt_key encode_key lo = Ok lk -> opt_key encode_key hi = Ok hk ->
  match lk with Some k => Forall u8 k | None => True end ->
  reads (scanned ← scan_range lo hi; s ← gets (fun t => td_schema (t_def t)); lift (key_all s scanned))
    (fun l => rows_of l (fun k => in_range lk (incl lo) hk (incl hi) k = true)).
Proof.
  intros Hlo Hhi Hu q (m & pm & H). destruct (tree_range_ok q m lk (incl lo) hk (incl hi) (r_tree _ _ _ _ H) Hu) as (kvs & E & Hs & Hm).
  destruct (decode_pairs_ok m pm (List.filter (fun e => in_range lk (incl lo) hk (incl hi) e.1) kvs) q H) as (q' & l & E2 & H2 & Hl & Hr).
  { intros k raw Hin. rewrite list_elem_of_In in Hin. apply filter_In in Hin as [Hin _]. rewrite <- Hm. apply to_map_elem; [done|by apply list_elem_of_In]. }
  exists q', l. unfold scan_range, mbind, sm_bind, lift. rewrite Hlo, Hhi, E, E2. cbn [gets]. rewrite key_all_ok by (done || apply (r_rows _ _ _ _ H)).
  split_and!; [done|by exists m, pm|]. by apply (rows_of_range m pm q kvs).
Qed.

End reading.

(** * What a session reads *)

#[local] Instance index_lt_irrefl : Irreflexive index_lt.
Proof. intros e [H|[_ H]]; [pose proof (cmp_antisym e.1 e.1) as Ha; by rewrite H in Ha|unfold klt in H; by rewrite lex_refl in H]. Qed.

Section session.
Context {T P : Type} {KT : KvTree T} {HT : KvTreeOk T} {KP : Pool P} {HP : PoolOk P}.

Abbreviation Tbl := (@Table T P).
Abbreviation Row := (list Datum).

Context (t0 : Tbl) (rows : Rows) (v : VersionView) (x : Session) (base view : Rows).
Abbreviation s := (td_schema (t_def t0)).
Abbreviation name := (td_name (t_def t0)).
Abbreviation rd := (reads t0 rows).

(** [base] is what the snapshot shows, [view] what the transaction sees. *)
Context (Hbase : forall k, lookup_version v x name k (rows !! k) = Ok (base !! k)).
Context (Hview : forall k, view !! k = match staged_at x name k with Some w => sw_row w | None => base !! k end).

Lemma reads_assoc {A B C} (c : SM Tbl A) (f : A -> SM Tbl B) (g : B -> SM Tbl C) Q :
  rd ((c ≫= f) ≫= g) Q -> rd (c ≫= fun a => f a ≫= g) Q.
Proof.
  intros H q Hq. destruct (H q Hq) as (q' & a & E & Ha). exists q', a. split; [|done]. revert E. unfold mbind, sm_bind.
  destruct (c _) as [[t1 [?|?|]]| |]; done.
Qed.

Lemma read_visible key : Forall u8 key -> rd (visible_row v x key) (fun r => r = view !! key).
Proof.
  intros Hu. unfold visible_row. apply (reads_bind _ _ _ _ (fun n => n = name)); [by apply reads_gets|]. intros n ->.
  rewrite Hview. destruct (staged_at x name key) as [w|]; [by apply reads_ret|].
  apply reads_assoc. eapply reads_bind; [by apply read_row|]. intros r ->. by eapply reads_lift.
Qed.

Lemma pkb_Ok d : key_wf d -> encode_key d = Ok (pkb d) /\ Forall u8 (pkb d).
Proof.
  intros H. destruct (encode_key_Ok d H) as [k Hk]. unfold pkb. rewrite Hk. split; [done|]. eapply encode_key_u8; [apply H|done].
Qed.

Lemma seek_ok pks : Forall key_wf pks -> rd (seek v x pks) (fun l => l = omap (fun d => pair (pkb d) <$> view !! pkb d) pks).
Proof.
  induction 1 as [|d pks Hd _ IH]; [by apply reads_ret|]. destruct (pkb_Ok d Hd) as [He Hu]. cbn [seek].
  eapply reads_bind; [by apply (reads_lift _ _ _ (pkb d) (fun k => k = pkb d))|]. intros ? ->.
  eapply reads_bind; [by apply read_visible|]. intros ? ->. eapply reads_bind; [exact IH|]. intros ? ->. apply reads_ret. cbn.
  by destruct (view !! pkb d).
Qed.

Lemma seek_rows pks : Forall key_wf pks -> NoDup (pkb <$> pks) ->
  rd (seek v x pks) (fun l => keyed_rows l /\ forall k r, (k, r) ∈ l <-> view !! k = Some r /\ k ∈ pkb <$> pks).
Proof.
  intros Hp Hn. eapply reads_mono; [by apply seek_ok|]. intros ? ->. clear Hp. induction pks as [|d pks IH].
  - split; [constructor|]. intros k r. cbn. set_solver.
  - cbn [fmap list_fmap] in *. apply NoDup_cons in Hn as [Hd Hn]. destruct (IH Hn) as [IH1 IH2]. cbn [omap list_omap].
    destruct (view !! pkb d) as [row|] eqn:Ev; cbn [fmap option_fmap option_map].
    + split.
      * unfold keyed_rows. cbn. constructor; [|exact IH1]. intros ([k r] & Hk & Hin)%list_elem_of_fmap. cbn in Hk. subst k. by apply IH2 in Hin as [_ ?].
      * intros k r. rewrite !elem_of_cons, IH2. split; [intros [[= -> ->]|[? ?]]; auto|]. intros [Hv [->|?]]; [left; congruence|auto].
    + split; [exact IH1|]. intros k r. rewrite elem_of_cons, IH2. split; [intros [? ?]; auto|]. intros [Hv [->|?]]; [congruence|auto].
Qed.

Lemma seek_new_rows pks : Forall key_wf pks -> forall seen,
  rd (seek_new v x pks seen) (fun '(l, seen') => keyed_rows l /\ (forall k, k ∈ seen' <-> k ∈ seen \/ k ∈ pkb <$> pks) /\
    forall k r, (k, r) ∈ l <-> view !! k = Some r /\ k ∉ seen /\ k ∈ pkb <$> pks).
Proof.
  induction 1 as [|d pks Hd _ IH]; intros seen.
  - apply reads_ret. split_and!; [constructor|set_solver|]. intros k r. cbn. set_solver.
  - destruct (pkb_Ok d Hd) as [He Hu]. cbn [seek_new].
    eapply reads_bind; [by apply (reads_lift _ _ _ (pkb d) (fun k => k = pkb d))|]. intros ? ->. case_bool_decide as Hs.
    + eapply reads_mono; [apply IH|]. intros [l seen'] (H1 & H2 & H3). cbn [fmap list_fmap]. split_and!; [done|..].
      * intros k. rewrite H2, elem_of_cons. split; [tauto|]. intros [?|[->|?]]; auto.
      * intros k r. rewrite H3, elem_of_cons. split; [tauto|]. intros (? & ? & [->|?]); [done|auto].
    + eapply reads_bind; [by apply read_visible|]. intros ? ->. eapply reads_bind; [apply IH|]. intros [l seen'] (H1 & H2 & H3).
      apply reads_ret. cbn [fmap list_fmap]. split_and!.
      * destruct (view !! pkb d) as [row|]; [|done]. unfold keyed_rows. cbn. constructor; [|done].
        intros ([k r] & Hk & Hin)%list_elem_of_fmap. cbn in Hk. subst k. apply H3 in Hin as (_ & Hx & _). set_solver.
      * intros k. rewrite H2, !elem_of_cons. tauto.
      * intros k r. destruct (view !! pkb d) as [row|] eqn:Ev; rewrite ?elem_of_cons, H3, elem_of_cons.
        -- split; [intros [[= -> ->]|(? & Hx & ?)]; [auto|set_solver]|]. intros (Hv & Hx & [->|?]); [left; congruence|].
           destruct (decide (k = pkb d)) as [->|]; [left; congruence|right; set_solver].
        -- split; [intros (? & Hx & ?); set_solver|]. intros (Hv & Hx & [->|?]); [congruence|]. split_and!; [done| |done].
           rewrite ?elem_of_cons. intros [->|?]; [congruence|done].
Qed.

(** ** Secondary indexes *)

(** An index stands for the column its definition names. *)
Definition indexes_named : Prop := Forall (fun i => index_of s (idx_column (si_def i)) = Some (si_col_idx i)) (t_indexes t0).

Definition typed_rows (m : Rows) : Prop := forall k r, m !! k = Some r -> row_wf s r /\ row_key s r = Some k /\ row_stored s r.

Context (Hrows : typed_rows rows).

Definition indexed (col : Z) (lo hi : Bound) (k : bytes) : Prop :=
  exists row y, rows !! k = Some row /\ row !! Z.to_nat col = Some y /\ within lo hi y.

Lemma column_stored c i k row y : columns s !! i = Some c -> rows !! k = Some row -> row !! i = Some y -> stored_value (col_ctype c) y.
Proof. intros Hc Hk Hy. destruct (Hrows k row Hk) as (_ & _ & Hr). by apply (Forall2_lookup_lr _ _ _ _ _ _ Hr Hc Hy). Qed.

Lemma bound_column c col b : columns s !! Z.to_nat col = Some c -> bound_typed (col_ctype c) b -> bound_ok (column_value s col rows) b.
Proof.
  intros Hc. destruct b as [[d i]|]; [|done]. intros [He Hw]. split; [done|]. intros y (k & row & Hk & Hy).
  destruct (column_stored c _ k row y Hc Hk Hy) as [_ [->|Hx]]; unfold TableScan.like; [by rewrite (bool_decide_eq_true_2 (Null = Null)), orb_true_r|].
  by rewrite (exact_same _ _ _ Hx He).
Qed.

Lemma column_alike c col y z : columns s !! Z.to_nat col = Some c -> column_value s col rows y -> column_value s col rows z -> TableScan.like y z = true.
Proof.
  intros Hc (k & row & Hk & Hy) (k' & row' & Hk' & Hz). unfold TableScan.like.
  destruct (column_stored c _ k row y Hc Hk Hy) as [_ [->|H1]]; [by rewrite (bool_decide_eq_true_2 (Null = Null)), orb_true_r|].
  destruct (column_stored c _ k' row' z Hc Hk' Hz) as [_ [->|H2]]; [by rewrite (bool_decide_eq_true_2 (Null = Null)), orb_true_r|].
  by rewrite (exact_same _ _ _ H1 H2).
Qed.

Lemma row_key_pkb row k d : row_wf s row -> row_key s row = Some k -> row !! Z.to_nat (pk_idx s) = Some d -> k = pkb d /\ key_wf d.
Proof.
  intros Hw Hk Hd. destruct (rw_pk s row Hw) as (d' & Hd' & Hkw). rewrite Hd in Hd'. injection Hd' as <-. split; [|done].
  unfold row_key in Hk. rewrite Hd in Hk. unfold pkb. destruct (encode_key d); congruence.
Qed.

Lemma read_secondary col c i lo hi :
  In i (t_indexes t0) -> si_col_idx i = col -> columns s !! Z.to_nat col = Some c -> bound_typed (col_ctype c) lo -> bound_typed (col_ctype c) hi ->
  rd (scan_secondary col lo hi) (fun o => exists pks, o = Some pks /\ Forall key_wf pks /\ NoDup (pkb <$> pks) /\
    forall k, k ∈ pkb <$> pks <-> indexed col lo hi k).
Proof.
  intros Hin Hcol Hc Hlo Hhi q Hq. destruct (List.find (fun i => si_col_idx i =? col) (t_indexes t0)) as [j|] eqn:Ef.
  2:{ apply (List.find_none _ _ Ef) in Hin. apply Z.eqb_neq in Hin. done. }
  destruct (scan_secondary_ok (set_pool q t0) rows col lo hi j Hq Ef) as (es & E & Hs & He);
    [by eapply bound_column|by eapply bound_column|intros ? ?; by eapply column_alike|].
  exists q, (Some es.*2). split_and!; [done|done|]. exists es.*2. split; [done|].
  assert (forall e, e ∈ es -> exists k row, rows !! k = Some row /\ row !! Z.to_nat col = Some e.1 /\ k = pkb e.2 /\ key_wf e.2) as Hk.
  { intros e Hin'. apply He in Hin' as (_ & k & row & Hk & Hp1 & Hp2). exists k, row. destruct (Hrows k row Hk) as (Hw & Hrk & _).
    destruct (row_key_pkb row k e.2 Hw Hrk Hp2). done. }
  split_and!.
  - apply Forall_forall. intros d (e & -> & Hin')%list_elem_of_fmap. by destruct (Hk e Hin') as (? & ? & _ & _ & _ & ?).
  - rewrite <- list_fmap_compose. apply NoDup_fmap_2_strong.
    + intros e e' He1 He2 Heq. cbn in Heq. pose proof (proj1 (He e) He1) as (_ & k & row & Hkr & Hp1 & Hp2).
      pose proof (proj1 (He e') He2) as (_ & k' & row' & Hkr' & Hp1' & Hp2').
      destruct (Hrows k row Hkr) as (Hw & Hrk & _), (Hrows k' row' Hkr') as (Hw' & Hrk' & _).
      destruct (row_key_pkb row k e.2 Hw Hrk Hp2) as [-> _], (row_key_pkb row' k' e'.2 Hw' Hrk' Hp2') as [-> _].
      rewrite Heq, Hkr' in Hkr. injection Hkr as <-. destruct e, e'. cbn in *. congruence.
    + by apply (sorted_nodup index_lt).
  - intros k. rewrite list_elem_of_fmap. split.
    + intros (d & -> & (e & -> & Hin')%list_elem_of_fmap). pose proof (proj1 (He e) Hin') as (Hw & _). destruct (Hk e Hin') as (k & row & Hkr & Hv & -> & _).
      exists row, e.1. split_and!; [done|done|]. apply andb_true_iff in Hw as [?%negb_true_iff ?%negb_true_iff]. by split.
    + intros (row & y & Hkr & Hy & Hl & Hh). destruct (Hrows k row Hkr) as (Hw & Hrk & _). destruct (rw_pk s row Hw) as (d & Hd & _).
      destruct (row_key_pkb row k d Hw Hrk Hd) as [-> _]. exists d. split; [done|]. apply list_elem_of_fmap. exists (y, d). split; [done|].
      apply He. split; [unfold wanted; cbn [fst]; by rewrite Hl, Hh|]. by exists (pkb d), row.
Qed.

Lemma sec_in_rows col c i values :
  In i (t_indexes t0) -> si_col_idx i = col -> columns s !! Z.to_nat col = Some c -> Forall (bound_at (col_ctype c)) values -> forall seen,
  rd (sec_in v x col values seen) (fun l => keyed_rows l /\
    forall k r, (k, r) ∈ l <-> view !! k = Some r /\ k ∉ seen /\ Exists (fun d => indexed col (Some (d, true)) (Some (d, true)) k) values).
Proof.
  intros Hin Hcol Hc. induction 1 as [|d values Hd _ IH]; intros seen.
  - apply reads_ret. split; [constructor|]. intros k r. rewrite Exists_nil, elem_of_nil. tauto.
  - cbn [sec_in]. eapply reads_bind; [by eapply read_secondary|]. intros ? (pks & -> & Hw & _ & Hk).
    eapply reads_bind; [by apply seek_new_rows|]. intros [l seen'] (H1 & H2 & H3).
    eapply reads_bind; [apply IH|]. intros l2 [H4 H5]. apply reads_ret. split.
    + unfold keyed_rows. rewrite fmap_app. apply NoDup_app. split_and!; [done| |done].
      intros k ([k1 r1] & -> & Hi1)%list_elem_of_fmap ([k2 r2] & Hk2 & Hi2)%list_elem_of_fmap. cbn in Hk2. subst k2. cbn in *.
      apply H3 in Hi1 as (_ & _ & Hi1). apply H5 in Hi2 as (_ & Hi2 & _). apply Hi2, H2. by right.
    + intros k r. rewrite elem_of_app, H3, H5, Exists_cons, Hk. setoid_rewrite H2. rewrite Hk. destruct (decide (k ∈ pkb <$> pks)) as [Hy|Hy]; rewrite Hk in Hy; tauto.
Qed.

(** ** Access paths *)

Definition path_indexed (p : AccessPath) : Prop :=
  match p with SecondaryPath col _ _ | SecIn col _ => exists i, In i (t_indexes t0) /\ si_col_idx i = col | _ => True end.

Lemma secondary_path_indexed sel l : Forall (fun i => index_of s (idx_column (si_def i)) = Some (si_col_idx i)) l -> List.incl l (t_indexes t0) ->
  path_indexed (secondary_path s sel (si_def <$> l)).
Proof.
  induction 1 as [|i l Hi _ IH]; intros Hin; [done|]. apply incl_cons_inv in Hin as [Hii Hin]. specialize (IH Hin).
  cbn [fmap list_fmap secondary_path]. rewrite Hi. destruct (columns s !! _) as [c|]; [|done].
  destruct (collect_col_bounds _ _ _ _) as [[] b]; [|done]. destruct (b_eq b); [by exists i|]. destruct (b_saw_in b); [by exists i|].
  destruct (b_has_pred b); [by exists i|done].
Qed.

Lemma access_path_indexed sel p : indexes_named -> access_path t0 sel = Ok p -> path_indexed p.
Proof.
  intros Hn. unfold access_path. destruct (t_ephemeral t0); [by intros [= <-]|]. destruct sel as [sel|]; [|by intros [= <-]].
  destruct (columns s !! _) as [c|]; [|done]. pose proof (secondary_path_indexed sel _ Hn (incl_refl _)) as Hs.
  destruct (collect_col_bounds _ _ _ _) as [[] b]; [|by intros [= <-]]. destruct (b_eq b); [by intros [= <-]|].
  destruct (b_saw_in b); [by intros [= <-]|]. destruct (b_has_pred b); by intros [= <-].
Qed.

Lemma bound_key_wf c d : bound_at c d -> key_wf d.
Proof. intros [He [Hd Hw]]. split; [done|]. by destruct c, d. Qed.

(** A key that compares equal to a bound is its encoding; one within the bounds
    is within their encodings. *)
Lemma pk_value c k r : columns s !! Z.to_nat (pk_idx s) = Some c -> row_wf s r -> row_key s r = Some k -> row_stored s r ->
  exists y, r !! Z.to_nat (pk_idx s) = Some y /\ k = pkb y /\ key_wf y /\ exact (col_ctype c) y = true.
Proof.
  intros Hc Hw Hk Hr. destruct (rw_pk s r Hw) as (y & Hy & _). exists y. destruct (row_key_pkb r k y Hw Hk Hy) as [-> Hkw]. split_and!; [done..|].
  destruct (Forall2_lookup_lr _ _ _ _ _ _ Hr Hc Hy) as [_ [->|]]; [by destruct Hkw|done].
Qed.

Lemma pkb_order c y d : exact c y = true -> key_wf y -> bound_at c d -> lex (pkb y) (pkb d) = cmp y d.
Proof.
  intros Hy Hw Hd. pose proof (bound_key_wf c d Hd) as Hdw. destruct Hd as [Hd _].
  by apply encode_key_order; [..|apply (exact_same c)|apply pkb_Ok|apply pkb_Ok].
Qed.

Lemma within_range c y lo hi : exact c y = true -> key_wf y -> bound_typed c lo -> bound_typed c hi -> within lo hi y ->
  exists lk hk, opt_key encode_key lo = Ok lk /\ opt_key encode_key hi = Ok hk /\ match lk with Some k => Forall u8 k | None => True end /\
    in_range lk (Table.incl lo) hk (Table.incl hi) (pkb y) = true.
Proof.
  intros Hy Hw Hlo Hhi [Hl Hh].
  assert (forall b, bound_typed c b -> opt_key encode_key b = Ok ((fun b => pkb b.1) <$> b) /\ match (fun b => pkb b.1) <$> b with Some k => Forall u8 k | None => True end) as Hk.
  { intros [[d i]|] Hb; [|done]. destruct (pkb_Ok d (bound_key_wf c d Hb)) as [He Hu]. cbn. by rewrite He. }
  destruct (Hk lo Hlo) as [El Hu], (Hk hi Hhi) as [Eh _]. eexists _, _. split_and!; [exact El|exact Eh|exact Hu|].
  unfold in_range. apply andb_true_iff. split; apply negb_true_iff.
  - destruct lo as [[d i]|]; [|done]. cbn [fmap option_fmap option_map fst snd Table.incl]. unfold blt. rewrite (pkb_order c y d) by done.
    cbn in Hl. destruct (cmp y d) eqn:E, i; try done.
    1: by rewrite andb_false_r.
    all: rewrite bool_decide_eq_false_2; [done|intros Eq; pose proof (pkb_order c y d Hy Hw Hlo) as Ho; rewrite Eq, lex_refl in Ho; congruence].
  - destruct hi as [[d i]|]; [|done]. cbn [fmap option_fmap option_map fst snd Table.incl]. unfold blt. rewrite lex_antisym, (pkb_order c y d) by done.
    cbn in Hh. destruct (cmp y d) eqn:E, i; try done.
    1: by rewrite andb_false_r.
    all: rewrite bool_decide_eq_false_2; [done|intros Eq; pose proof (pkb_order c y d Hy Hw Hhi) as Ho; rewrite Eq, lex_refl in Ho; congruence].
Qed.

Context (Hviews : typed_rows view).

Definition secondary (p : AccessPath) : bool := match p with SecondaryPath _ _ _ | SecIn _ _ => true | _ => false end.

(** The keys a point path seeks are distinct. *)
Definition distinct_keys (p : AccessPath) : Prop := match p with PkIn ds => NoDup (pkb <$> ds) | _ => True end.

Lemma equal_key c k r d : columns s !! Z.to_nat (pk_idx s) = Some c -> bound_at (col_ctype c) d -> view !! k = Some r ->
  (exists y, r !! Z.to_nat (pk_idx s) = Some y /\ cmp y d = Eq) -> k = pkb d.
Proof.
  intros Hc Hd Hv (y & Hy & He). destruct (Hviews k r Hv) as (Hw & Hk & Hr). destruct (pk_value c k r Hc Hw Hk Hr) as (y' & Hy' & -> & Hkw & Hx).
  rewrite Hy in Hy'. injection Hy' as <-. apply lex_eq. by rewrite (pkb_order (col_ctype c)).
Qed.

(** What a path that is not a scan delivers. *)
Lemma source_points p : path_typed s p -> path_indexed p -> distinct_keys p -> is_scan_path p = false ->
  (secondary p = true -> forall k, base !! k = rows !! k) ->
  rd (source v x p) (fun l => keyed_rows l /\ (forall k r, (k, r) ∈ l -> view !! k = Some r) /\
    forall k r, view !! k = Some r -> staged_at x name k = None -> covers s p r -> (k, r) ∈ l).
Proof.
  intros Ht Hi Hd Hs Hcur. destruct p as [d|ds|lo hi|col lo hi|col ds|]; try done; cbn [source path_typed path_indexed] in *.
  - destruct Ht as (c & Hc & Hb). eapply reads_mono; [apply seek_rows; [constructor; [by eapply bound_key_wf|constructor]|apply NoDup_singleton]|].
    intros l [Hk Hl]. split_and!; [done|by intros k r [? _]%Hl|]. intros k r Hv _ Hcov. apply Hl. split; [done|]. cbn.
    rewrite (equal_key c k r d Hc Hb Hv Hcov). by left.
  - destruct Ht as (c & Hc & Hb). eapply reads_mono; [apply seek_rows; [|done]|].
    { eapply Forall_impl; [exact Hb|]. intros d. apply bound_key_wf. }
    intros l [Hk Hl]. split_and!; [done|by intros k r [? _]%Hl|]. intros k r Hv _ (y & Hy & (d & Hin & He)%Exists_exists). apply Hl. split; [done|].
    rewrite Forall_forall in Hb. rewrite (equal_key c k r d Hc (Hb d Hin) Hv); [|by exists y]. by apply list_elem_of_fmap_2.
  - destruct Ht as (c & H0 & Hc & Hlo & Hhi), Hi as (i & Hin & Hcol).
    eapply reads_bind; [by eapply read_secondary|]. intros ? (pks & -> & Hw & Hn & Hk). cbn [default].
    eapply reads_mono; [by apply seek_rows|]. intros l [H1 H2]. split_and!; [done|by intros k r [? _]%H2|].
    intros k r Hv Hst (y & Hy & Hwi). apply H2. split; [done|]. apply Hk. exists r, y. split_and!; [|done|done].
    rewrite <- Hcur by done. rewrite Hview, Hst in Hv. done.
  - destruct Ht as (c & H0 & Hc & Hb), Hi as (i & Hin & Hcol).
    eapply reads_mono; [by eapply sec_in_rows|]. intros l [H1 H2]. split_and!; [done|by intros k r [? _]%H2|].
    intros k r Hv Hst (y & Hy & (d & Hd' & He)%Exists_exists). apply H2. split_and!; [done|by apply not_elem_of_nil|].
    apply Exists_exists. exists d. split; [done|]. exists r, y. split_and!; [|done|].
    + rewrite <- Hcur by done. rewrite Hview, Hst in Hv. done.
    + split; cbn [below_lo above_hi]; by rewrite He.
Qed.

(** What a scan delivers: current rows, all of those whose key the path wants. *)
Lemma source_scan p : path_typed s p -> is_scan_path p = true ->
  rd (source v x p) (fun l => exists keep, rows_of rows l keep /\
    forall k r, row_wf s r -> row_key s r = Some k -> row_stored s r -> covers s p r -> keep k).
Proof.
  intros Ht Hs. destruct p as [d|ds|lo hi|col lo hi|col ds|]; try done; cbn [source path_typed] in *.
  - destruct Ht as (c & Hc & Hlo & Hhi).
    assert (forall b, bound_typed (col_ctype c) b -> exists k, opt_key encode_key b = Ok k /\ match k with Some k => Forall u8 k | None => True end) as Hk.
    { intros [[d i]|] Hb; [|by exists None]. destruct (pkb_Ok d (bound_key_wf _ d Hb)) as [He Hu]. exists (Some (pkb d)). cbn. by rewrite He. }
    destruct (Hk lo Hlo) as (lk & El & Hu), (Hk hi Hhi) as (hk & Eh & _).
    eapply reads_mono; [by apply (read_range t0 rows lo hi lk hk)|]. intros l Hl. eexists. split; [exact Hl|].
    intros k r Hw Hrk Hr (y & Hy & Hwi). destruct (pk_value c k r Hc Hw Hrk Hr) as (y' & Hy' & -> & Hkw & Hx). rewrite Hy in Hy'. injection Hy' as <-.
    destruct (within_range _ y lo hi Hx Hkw Hlo Hhi Hwi) as (lk' & hk' & El' & Eh' & _ & Hin). rewrite El in El'. rewrite Eh in Eh'. congruence.
  - eapply reads_mono; [apply read_all|]. intros l Hl. by exists (fun _ => True).
Qed.

(** ** Snapshots *)

Context (Hchains : chains_ok (v_state v)).

(** A chain entry above the read epoch is what the snapshot shows. *)
Lemma lookup_walk p k cur c r : x_snapshot x = Some p -> lookup_version v x name k cur = Ok r ->
  chains (v_state v) !! (name, k) = Some c -> walk (read_epoch p) c None = Some r \/ (walk (read_epoch p) c None = None /\ r = cur).
Proof.
  intros Hp. unfold lookup_version, snapshot_lookup. rewrite Hp. destruct (too_old _ _ _); [done|]. intros H Hc. rewrite Hc in H.
  pose proof (Hchains (name, k)) as Hk. rewrite Hc in Hk. cbn [from_option id] in H, Hk.
  destruct (Z.leb_spec (default 0 (committed (v_state v) !! (name, k))) (read_epoch p)) as [Hle|Hgt].
  - right. injection H as <-. split; [|done]. apply walk_stop. apply (chain_ok_le (committed (v_state v) !! (name, k))); [exact Hk|exact Hle].
  - destruct (walk _ c None) as [ans|]; [|done]. left. by injection H as <-.
Qed.

Lemma lookup_absent p k r : x_snapshot x = Some p -> lookup_version v x name k None = Ok (Some r) ->
  exists c, chains (v_state v) !! (name, k) = Some c /\ walk (read_epoch p) c None = Some (Some r).
Proof.
  intros Hp. unfold lookup_version, snapshot_lookup. rewrite Hp. destruct (too_old _ _ _); [done|]. destruct (_ <=? _); [done|].
  destruct (chains (v_state v) !! (name, k)) as [c|]; [|done]. cbn [from_option id]. destruct (walk _ c None) as [ans|] eqn:E; [|done].
  intros [= ->]. by exists c.
Qed.

Lemma substitute_ok l : (forall k r, (k, r) ∈ l -> rows !! k = Some r) -> exists l', substitute v x name l = Ok l' /\
  sublist l'.*1 l.*1 /\ forall k r, (k, r) ∈ l' <-> k ∈ l.*1 /\ base !! k = Some r.
Proof.
  induction l as [|[k r] l IH]; intros Hl; [exists []; split_and!; [done|constructor|cbn; set_solver]|].
  destruct IH as (l' & E & Hs & He); [intros; apply Hl; by right|]. cbn [substitute].
  rewrite <- (Hl k r) by left. rewrite Hbase, E. cbn [mbind res_bind mret res_ret]. eexists. split; [done|].
  cbn [fmap list_fmap fst]. destruct (base !! k) as [h|] eqn:Eb; (split; [cbn; by constructor|]); intros k' r'; rewrite ?elem_of_cons, He.
  - split; [intros [[= -> ->]|[? ?]]; auto|]. intros [[->|?] Hb]; [left; congruence|auto].
  - split; [intros [? ?]; auto|]. intros [[->|?] Hb]; [congruence|auto].
Qed.

Lemma omap_keys {A B} (f : (bytes * bytes) * A -> option (bytes * B)) (l : list ((bytes * bytes) * A)) :
  NoDup l.*1 -> (forall e k b, f e = Some (k, b) -> e.1 = (name, k)) -> NoDup (omap f l).*1.
Proof.
  intros Hn Hf. induction l as [|e l IH]; [constructor|]. cbn in Hn. apply NoDup_cons in Hn as [He Hn]. cbn.
  destruct (f e) as [[k b]|] eqn:Ef; [|by apply IH]. cbn. constructor; [|by apply IH].
  intros ([k' b'] & Hk & (e' & Hin & Ef')%list_elem_of_omap)%list_elem_of_fmap. cbn in Hk. subst k'.
  apply Hf in Ef, Ef'. destruct He. apply list_elem_of_fmap. exists e'. by rewrite Ef, Ef'.
Qed.

Lemma extra_keys p max_age now present l : snapshot_scan_extra (v_state v) max_age now (Some p) name present = Ok l -> keyed_rows l.
Proof.
  unfold snapshot_scan_extra. destruct (too_old _ _ _); [done|]. intros [= <-]. apply omap_keys.
  - apply NoDup_fst_map_to_list.
  - intros [[n k] c] k' b. cbn. destruct (bool_decide_reflect (n <> name)) as [|Hn]; [done|]. cbn. case_bool_decide; [done|].
    destruct (walk _ c None) as [[]|]; [|done..]. intros [= <- _]. by destruct (decide (n = name)) as [->|].
Qed.

(** A scan, rewritten to what the snapshot shows. *)
Lemma history_ok l keep p : x_snapshot x = Some p -> rows_of rows l keep ->
  exists l', with_history v x name l = Ok l' /\ keyed_rows l' /\ (forall k r, (k, r) ∈ l' -> base !! k = Some r) /\
    forall k r, base !! k = Some r -> keep k -> (k, r) ∈ l'.
Proof.
  intros Hp [Hn Hl]. destruct (substitute_ok l) as (kept & E & Hs & He); [by intros k r [? _]%Hl|].
  unfold with_history. rewrite E. cbn [mbind res_bind].
  assert (exists extra, snapshot_scan_extra (v_state v) (v_max_age v) (v_now v) (x_snapshot x) name (list_to_set kept.*1) = Ok extra) as [extra Hx].
  { pose proof (Hbase []) as Hb. unfold lookup_version, snapshot_lookup in Hb. rewrite Hp in *. unfold snapshot_scan_extra.
    destruct (too_old _ _ _); [done|]. by eexists. }
  rewrite Hx. cbn [mbind res_bind]. rewrite Hp in Hx. pose proof (extra_keys p _ _ _ _ Hx) as Hxn.
  assert (forall k r, (k, r) ∈ extra <-> k ∉ kept.*1 /\ exists c, chains (v_state v) !! (name, k) = Some c /\ walk (read_epoch p) c None = Some (Some r)) as Hxe.
  { intros k r. rewrite (scan_extra_elem _ _ _ _ _ _ _ _ _ Hx), elem_of_list_to_set. done. }
  assert (keyed_rows (kept ++ extra)) as Hkx.
  { unfold keyed_rows. rewrite fmap_app. apply NoDup_app. split_and!; [by apply (sublist_NoDup _ l.*1)|..|done].
    intros k Hk ([k' r] & -> & Hin)%list_elem_of_fmap. by apply Hxe in Hin as [? _]. }
  assert (match extra with [] => kept | _ => sort_by_key (kept ++ extra) end ≡ₚ kept ++ extra) as Hperm.
  { destruct extra; [by rewrite app_nil_r|apply sort_by_key_perm]. }
  eexists. split; [done|]. split; [eapply keyed_perm; [symmetry; exact Hperm|done]|]. split.
  - intros k r. rewrite Hperm, elem_of_app. intros [[_ ?]%He|(Hk & c & Hc & Hw)%Hxe]; [done|].
    destruct (lookup_walk p k (rows !! k) c (base !! k) Hp (Hbase k) Hc) as [Hb|[Hb _]]; congruence.
  - intros k r Hb Hk. rewrite Hperm, elem_of_app. destruct (decide (k ∈ kept.*1)) as [Hin|Hin].
    + left. apply list_elem_of_fmap in Hin as ([k' r'] & Ek & Hin). cbn in Ek. subst k'. apply He in Hin as Hin'. destruct Hin' as [_ Hb']. congruence.
    + right. apply Hxe. split; [done|]. apply (lookup_absent p k r Hp). rewrite <- Hb, <- (Hbase k). f_equal.
      destruct (rows !! k) as [r0|] eqn:Er; [|done]. destruct Hin. apply list_elem_of_fmap. exists (k, r). split; [done|]. apply He.
      split; [|done]. apply list_elem_of_fmap. exists (k, r0). split; [done|]. by apply Hl.
Qed.

(** ** The WHERE clause *)

Context (f64_show : Z -> bytes) (debug : Expr -> bytes) (entry_count : T -> Z).

(** The clause is true on the row, and evaluating it ends no query: an unknown
    column only drops the row. *)
Definition row_passes (sel : option Expr) (r : Row) : bool :=
  match sel with None => true | Some e => match eval_expr f64_show debug s r e with Ok true => true | _ => false end end.
Definition row_decides (sel : option Expr) (r : Row) : Prop :=
  match sel with None => True | Some e => match eval_expr f64_show debug s r e with Ok _ | Err (ColumnNotFound _) => True | _ => False end end.

Lemma select_rows_ok sel l : Forall (row_decides sel) l -> select_rows f64_show debug s sel l = Ok (List.filter (row_passes sel) l).
Proof.
  destruct sel as [e|]; cbn [select_rows].
  - induction 1 as [|r l Hr _ IH]; [done|]. cbn [filter_rows List.filter]. cbn [row_decides row_passes] in *.
    destruct (eval_expr f64_show debug s r e) as [[]|[]|]; try done. by rewrite IH.
  - intros _. cbn [row_passes]. rewrite filter_id; [done|]. by apply Forall_forall.
Qed.

Definition laid (l : list (bytes * Row)) : list (bytes * Row) :=
  match x_staged x with Some _ => fold_left overlay_write (overlay_of x name) l | None => l end.

(** With the staged writes laid over, what was sourced is part of the view and
    misses nothing the clause is true on. *)
Lemma laid_ok l (wanted : Row -> Prop) : NoDup (default [] (x_staged x)).*1 -> keyed_rows l ->
  (forall k r, (k, r) ∈ l -> staged_at x name k = None -> view !! k = Some r) ->
  (forall k r, view !! k = Some r -> staged_at x name k = None -> wanted r -> (k, r) ∈ l) ->
  keyed_rows (laid l) /\ (forall k r, (k, r) ∈ laid l -> view !! k = Some r) /\ forall k r, view !! k = Some r -> wanted r -> (k, r) ∈ laid l.
Proof.
  intros Hnd Hl Hsound Hcomp. assert (laid l = fold_left overlay_write (overlay_of x name) l) as ->.
  { unfold laid, overlay_of. by destruct (x_staged x). }
  destruct (overlay_elem (overlay_of x name) l (overlay_of_keys x name Hnd) Hl) as [Hk He].
  assert (forall k, staged_at x name k = None <-> k ∉ (overlay_of x name).*1) as Hnone.
  { intros k. split.
    - intros Hs ([k' w] & Ek & Hin)%list_elem_of_fmap. cbn in Ek. subst k'. apply staged_at_elem in Hin; [congruence|done].
    - intros Hx. destruct (staged_at x name k) as [w|] eqn:Es; [|done]. apply staged_at_elem in Es; [|done]. destruct Hx. apply list_elem_of_fmap. by exists (k, w). }
  split_and!; [done|..].
  - intros k r [(w & Hw & Hr)|[Hx Hr]]%He; [|by apply Hsound; [|apply Hnone]]. apply staged_at_elem in Hw; [|done]. by rewrite Hview, Hw.
  - intros k r Hv Hw. apply He. destruct (staged_at x name k) as [w|] eqn:Es.
    + left. exists w. split; [by apply staged_at_elem|]. by rewrite Hview, Es in Hv.
    + right. split; [by apply Hnone|]. by apply Hcomp.
Qed.

Lemma view_perm sel l : keyed_rows l -> (forall k r, (k, r) ∈ l -> view !! k = Some r) ->
  (forall k r, view !! k = Some r -> row_passes sel r = true -> (k, r) ∈ l) ->
  List.filter (row_passes sel) l.*2 ≡ₚ List.filter (row_passes sel) (map_to_list view).*2.
Proof.
  intros Hn Hs Hc. rewrite !filter_fmap. apply fmap_Permutation, NoDup_Permutation.
  - apply nodup_filter_b. by eapply NoDup_fmap_1.
  - apply nodup_filter_b, NoDup_map_to_list.
  - intros [k r]. rewrite !list_elem_of_In, !filter_In, <- !list_elem_of_In, elem_of_map_to_list. cbn. naive_solver.
Qed.

Lemma selectivity_pool q stats e : selectivity (set_pool q t0) stats e = selectivity t0 stats e.
Proof. induction e as [| | |a IHa b IHb|a IHa b IHb|a IHa| | | | | |]; try done; cbn [selectivity]; by rewrite ?IHa, ?IHb. Qed.

Lemma choose_pool q sel : choose_access_path entry_count (set_pool q t0) sel = choose_access_path entry_count t0 sel.
Proof. unfold choose_access_path. destruct sel as [e|]; [|done]. by rewrite (selectivity_pool q (t_stats (set_pool q t0)) e). Qed.

(** What the rows ahead of the final filter are. *)
Definition sourced (sel : option Expr) (rs : list Row) : Prop := exists l, rs = (laid l).*2 /\ keyed_rows l /\
  (forall k r, (k, r) ∈ l -> staged_at x name k = None -> view !! k = Some r) /\
  (forall k r, view !! k = Some r -> staged_at x name k = None -> row_passes sel r = true -> (k, r) ∈ l).

Lemma sourced_ok sel c : schema_ok s -> indexes_named -> (forall e, sel = Some e -> clause_ok s e) -> NoDup (default [] (x_staged x)).*1 ->
  choose_access_path entry_count t0 sel = Ok c -> (secondary (ch_path c) = true -> x_snapshot x = None) -> distinct_keys (ch_path c) ->
  rd (sourced_rows entry_count v x sel) (sourced sel).
Proof.
  intros Hsch Hidx Hcl Hnd Hch Hsec Hdist. set (p := ch_path c) in *.
  assert (path_typed s p /\ path_indexed p /\ forall r, row_stored s r -> row_passes sel r = true -> covers s p r) as (Htyped & Hpi & Hcov).
  { assert (exists p0, access_path t0 sel = Ok p0 /\ path_typed s p0 /\ forall r, row_stored s r -> row_passes sel r = true -> covers s p0 r) as (p0 & Ha & Ht & Hc).
    { destruct sel as [e|].
      - destruct (access_path_ok f64_show debug s e Hsch (Hcl e eq_refl) t0 eq_refl) as (p0 & Ha & Ht & Hc). exists p0. split_and!; [done..|].
        intros r Hr Hp. apply Hc; [done|]. cbn in Hp. by destruct (eval_expr _ _ _ _ _) as [[]|?|].
      - exists FullScan. unfold access_path. by destruct (t_ephemeral t0). }
    destruct (choose_path entry_count t0 sel p0 Ha) as (c' & Hc' & Hor). rewrite Hch in Hc'. injection Hc' as <-.
    destruct Hor as [Hp|Hp]; subst p; rewrite Hp; [|done]. split_and!; [done|by eapply access_path_indexed|done]. }
  unfold sourced_rows. eapply (reads_bind _ _ _ _ (fun t => exists q, t = set_pool q t0)); [apply reads_gets; by eexists|]. intros ? [q ->].
  rewrite choose_pool.
  eapply (reads_bind _ _ _ _ (fun c' => c' = c)); [by eapply reads_lift|]. intros ? ->. fold p. change (td_name (t_def (set_pool q t0))) with name.
  assert (forall l, keyed_rows l -> (forall k r, (k, r) ∈ l -> staged_at x name k = None -> view !! k = Some r) ->
    (forall k r, view !! k = Some r -> staged_at x name k = None -> row_passes sel r = true -> (k, r) ∈ l) ->
    rd (mret (laid l).*2) (sourced sel)) as Hend by (intros l H1 H2 H3; apply reads_ret; by exists l).
  destruct (is_scan_path p) eqn:Escan.
  - eapply reads_bind; [by apply source_scan|]. intros l (keep & Hl & Hkeep). cbn [andb]. destruct (bool_decide_reflect (is_Some (x_snapshot x))) as [[sp Hsp]|Hno].
    + destruct (history_ok l keep sp Hsp Hl) as (l' & E & H1 & H2 & H3). eapply (reads_bind _ _ _ _ (fun l2 => l2 = l')); [by eapply reads_lift|].
      intros ? ->. apply Hend; [done|intros k r Hin Hst; rewrite Hview, Hst; by apply H2|]. intros k r Hv Hst Hp. destruct (Hviews k r Hv) as (Hw & Hk & Hr).
      apply H3; [by rewrite Hview, Hst in Hv|]. by apply (Hkeep k r); auto.
    + eapply (reads_bind _ _ _ _ (fun l2 => l2 = l)); [by apply reads_ret|]. intros ? ->. destruct Hl as [Hn Hl].
      assert (forall k, base !! k = rows !! k) as Hbr.
      { intros k. pose proof (Hbase k) as Hb. unfold lookup_version, snapshot_lookup in Hb. destruct (x_snapshot x); [by destruct Hno|]. by injection Hb as ->. }
      apply Hend; [done|intros k r [Hk _]%Hl Hst; by rewrite Hview, Hst, Hbr|]. intros k r Hv Hst Hp. destruct (Hviews k r Hv) as (Hw & Hk & Hr).
      apply Hl. rewrite Hview, Hst, Hbr in Hv. split; [done|]. by apply (Hkeep k r); auto.
  - eapply reads_bind.
    + apply source_points; [done..|]. intros Hs k. pose proof (Hbase k) as Hb. unfold lookup_version, snapshot_lookup in Hb. rewrite (Hsec Hs) in Hb. by injection Hb as ->.
    + intros l (H1 & H2 & H3). cbn [andb]. eapply (reads_bind _ _ _ _ (fun l2 => l2 = l)); [by apply reads_ret|]. intros ? ->.
      apply Hend; [done|by auto|]. intros k r Hv Hst Hp. apply H3; [done..|]. apply Hcov; [by apply (Hviews k r Hv)|done].
Qed.

(** The filter then leaves exactly the rows of the view that pass. *)
Lemma sourced_filter sel rs : NoDup (default [] (x_staged x)).*1 -> sourced sel rs ->
  Forall (fun r => r ∈ (map_to_list view).*2) rs /\ List.filter (row_passes sel) rs ≡ₚ List.filter (row_passes sel) (map_to_list view).*2.
Proof.
  intros Hnd (l & -> & H1 & H2 & H3). destruct (laid_ok l (fun r => row_passes sel r = true) Hnd H1 H2 H3) as (H4 & H5 & H6). split.
  - apply Forall_forall. intros r ([k r'] & -> & Hin)%list_elem_of_fmap. apply list_elem_of_fmap. exists (k, r'). split; [done|].
    by apply elem_of_map_to_list, H5.
  - by apply view_perm.
Qed.

Lemma query_rows sel c : schema_ok s -> indexes_named -> (forall e, sel = Some e -> clause_ok s e) -> NoDup (default [] (x_staged x)).*1 ->
  choose_access_path entry_count t0 sel = Ok c -> (secondary (ch_path c) = true -> x_snapshot x = None) -> distinct_keys (ch_path c) ->
  Forall (row_decides sel) (map_to_list view).*2 ->
  rd (visible_rows f64_show debug entry_count v x sel) (fun out => out ≡ₚ List.filter (row_passes sel) (map_to_list view).*2).
Proof.
  intros Hsch Hidx Hcl Hnd Hch Hsec Hdist Hdec. unfold visible_rows.
  eapply (reads_bind _ _ _ _ (fun s' => s' = s)); [by apply reads_gets|]. intros ? ->.
  eapply reads_bind; [by eapply sourced_ok|]. intros rs Hrs. destruct (sourced_filter sel rs Hnd Hrs) as [Hin Hp].
  eapply reads_lift; [apply select_rows_ok|exact Hp]. rewrite Forall_forall in Hin, Hdec. apply Forall_forall. auto.
Qed.

End session.

(** * Properties *)

(** What a session needs of the table, the snapshot and its transaction: typed
    rows, a version for every key ([base]), and the staged writes over it. *)
Record reader_ok {T P} (t : @Table T P) (rows : Rows) (v : VersionView) (x : Session) (base view : Rows) : Prop := {
  ro_rows : typed_rows t rows;
  ro_view : typed_rows t view;
  ro_base : forall k, lookup_version v x (td_name (t_def t)) k (rows !! k) = Ok (base !! k);
  ro_laid : forall k, view !! k = match staged_at x (td_name (t_def t)) k with Some w => sw_row w | None => base !! k end;
  ro_staged : NoDup (default [] (x_staged x)).*1;
  ro_chains : chains_ok (v_state v);
}.

(** C9: A query answers with exactly the rows of the session's view (the snapshot
    of the table with the staged writes of the transaction over it) that satisfy
    the WHERE clause, each once, whichever access path the cost model picks, and
    only the state of the page pool changes.  The conditions, outside which known
    defects lose, repeat or refuse rows: no
    snapshot is read through a secondary index; the members of a list of primary
    keys differ ([distinct_keys]); the literals of indexable conjuncts convert
    to their column's type without changing comparisons, and the bounds of a
    BETWEEN are of one class ([clause_ok]); rows hold values of their columns'
    types and no NaN or -0.0 ([reader_ok]); and the clause evaluates on every row
    to a truth value or an unknown column, which drops the row
    ([row_decides]). *)
Theorem visible_rows_spec {T P : Type} {KT : KvTree T} {HT : KvTreeOk T} {KP : Pool P} {HP : PoolOk P}
    (f64_show : Z -> bytes) (debug : Expr -> bytes) (entry_count : T -> Z) (t : @Table T P) rows v x base view sel c :
  table_rep t rows -> reader_ok t rows v x base view -> schema_ok (td_schema (t_def t)) -> indexes_named t ->
  (forall e, sel = Some e -> clause_ok (td_schema (t_def t)) e) ->
  choose_access_path entry_count t sel = Ok c -> (secondary (ch_path c) = true -> x_snapshot x = None) -> distinct_keys (ch_path c) ->
  Forall (row_decides t f64_show debug sel) (map_to_list view).*2 ->
  exists t' out, visible_rows f64_show debug entry_count v x sel t = Ret (t', Ok out) /\ keeps t rows t' /\
    out ≡ₚ List.filter (row_passes t f64_show debug sel) (map_to_list view).*2.
Proof.
  intros Ht [H1 H2 H3 H4 H5 H6] Hs Hi Hc Hch Hsec Hd Hdec.
  destruct (query_rows t rows v x base view H3 H4 H1 H2 H6 f64_show debug entry_count sel c Hs Hi Hc H5 Hch Hsec Hd Hdec (t_pool t)) as (q & out & E & Hr & Hp).
  - by destruct t.
  - exists (set_pool q t), out. split; [|done]. rewrite <- E. by destruct t.
Qed.

(** One stored row, one staged one, and a clause on the indexed column. *)
Definition demo_stored : @Table BTree RefPool :=
  match insert_row encode (demo_row 1 30) demo_table with Ret (t, _) => t | _ => demo_table end.
Definition demo_key (id : Z) : bytes := pkb (Int id).
Definition demo_rows : Rows := {[ demo_key 1 := demo_row 1 30 ]}.
Definition demo_session : Session :=
  mkSession (Some [((str "db.users", demo_key 2), mkStaged (Some (demo_row 2 17)) true); ((str "db.users", demo_key 3), mkStaged (Some (demo_row 3 40)) true)]) None.
Definition demo_view : Rows := <[demo_key 2 := demo_row 2 17]> (<[demo_key 3 := demo_row 3 40]> demo_rows).
Definition demo_where : Expr := ECmp (EColumn (str "age")) OpGe (ELiteral (Int 18)).
Definition demo_versions : VersionView := mkView vs_new None 0.

Lemma demo_stored_rep : table_rep demo_stored demo_rows.
Proof.
  assert (row_wf (td_schema (t_def demo_table)) (demo_row 1 30)) as Hw by (apply demo_row_wf; split; discriminate || reflexivity).
  pose proof (insert_row_ok encode demo_table ∅ (demo_row 1 30) (demo_key 1) demo_table_rep Hw eq_refl) as H.
  assert (insert_row encode (demo_row 1 30) demo_table = Ret (demo_stored, Ok ())) as E by (vm_compute; reflexivity).
  unfold wp in H. rewrite E in H. rewrite lookup_empty in H. unfold demo_rows. rewrite <- insert_empty. clear E. generalize dependent demo_stored.
  intros t H. by destruct H as [[[_ H] _]|(_ & _ & e & He)].
Qed.

Lemma demo_row_typed id age : i64 id -> i64 age -> row_wf demo_schema (demo_row id age) /\ row_key demo_schema (demo_row id age) = Some (demo_key id) /\
  row_stored demo_schema (demo_row id age).
Proof.
  intros Hi Ha. split; [by apply demo_row_wf|]. split; [reflexivity|].
  constructor; [split; [by split|by right]|]. constructor; [split; [by split|by right]|constructor].
Qed.

Lemma demo_typed : typed_rows demo_stored demo_rows /\ typed_rows demo_stored demo_view.
Proof.
  change (td_schema (t_def demo_stored)) with demo_schema. assert (typed_rows demo_stored demo_rows) as H.
  { unfold demo_rows. intros k r [<- <-]%lookup_singleton_Some. apply demo_row_typed; split; discriminate || reflexivity. }
  split; [done|]. unfold demo_view. intros k r [[<- <-]|[_ [[<- <-]|[_ Hk]]%lookup_insert_Some]]%lookup_insert_Some;
    [apply demo_row_typed; split; discriminate || reflexivity..|by apply H].
Qed.

Lemma demo_reader : reader_ok demo_stored demo_rows demo_versions demo_session demo_rows demo_view.
Proof.
  split; [apply demo_typed..|done| |apply NoDup_cons; split; [|apply NoDup_singleton]|].
  - intros k. unfold staged_at, demo_view, demo_session. cbn [x_staged mbind option_bind List.find fst snd].
    destruct (decide (k = demo_key 2)) as [->|H2]; [by rewrite lookup_insert_eq, (bool_decide_eq_true_2 ((_, _) = _))|].
    rewrite lookup_insert_ne by done. rewrite (bool_decide_eq_false_2 ((_, demo_key 2) = _)) by congruence.
    destruct (decide (k = demo_key 3)) as [->|H3]; [by rewrite lookup_insert_eq, (bool_decide_eq_true_2 ((_, _) = _))|].
    rewrite lookup_insert_ne by done. by rewrite (bool_decide_eq_false_2 ((_, demo_key 3) = _)) by congruence.
  - intros H%list_elem_of_singleton. discriminate H.
  - intros k. cbn. rewrite !lookup_empty. split; [done|constructor].
Qed.

Lemma demo_decides : Forall (row_decides demo_stored (fun _ => []) (fun _ => []) (Some demo_where)) (map_to_list demo_view).*2.
Proof.
  apply Forall_forall. intros r ([k r'] & -> & Hk%elem_of_map_to_list)%list_elem_of_fmap. cbn [snd]. rename r' into r. unfold demo_view, demo_rows in Hk.
  assert (exists id age, r = demo_row id age) as (id & age & ->).
  { apply lookup_insert_Some in Hk as [[_ <-]|[_ [[_ <-]|[_ [_ <-]%lookup_singleton_Some]]%lookup_insert_Some]]; by eexists _, _. }
  cbn. by destruct (age ?= 18).
Qed.

Definition demo_choice : Choice :=
  match choose_access_path (fun _ => 1) demo_stored (Some demo_where) with Ok c => c | _ => mkChoice FullScan 0 0 end.

Lemma visible_rows_spec_witness :
  exists t' out, visible_rows (fun _ => []) (fun _ => []) (fun _ => 1) demo_versions demo_session (Some demo_where) demo_stored = Ret (t', Ok out) /\
    keeps demo_stored demo_rows t' /\
    out ≡ₚ List.filter (row_passes demo_stored (fun _ => []) (fun _ => []) (Some demo_where)) (map_to_list demo_view).*2.
Proof.
  apply (visible_rows_spec (fun _ => []) (fun _ => []) (fun _ => 1) demo_stored demo_rows demo_versions demo_session demo_rows demo_view (Some demo_where)
    demo_choice demo_stored_rep demo_reader).
  - split; [|split; [discriminate|reflexivity]]. apply NoDup_cons. split; [intros H%list_elem_of_singleton; discriminate H|apply NoDup_singleton].
  - apply Forall_cons. split; [reflexivity|constructor].
  - intros e [= <-]. apply Forall_cons. split; [intros H; discriminate H|]. apply Forall_cons. split; [|constructor].
    intros _. split; [intros w [= <-]; repeat split; discriminate || reflexivity|right; reflexivity].
  - vm_compute. reflexivity.
  - intros _. reflexivity.
  - vm_compute. exact I.
  - apply demo_decides.
Defined.
