(* ===== verification/Catalog.v ===== *)
(** The snapshot file of a checkpoint (catalog.rs): the databases, and every
    table with its definition and its stored rows.

    Recovery loads the snapshot first.  Its decoder accepts all four versions
    of the format, bounds every length it reads, and refuses any file that was
    cut short. *)
From stdpp Require Import base list gmap strings.
From Stdlib Require Import ZArith Lia.
From S2P Require Import Prelude Machine Utf8 Types TableDef.

Definition SNAPSHOT_MAGIC : bytes := str "HDBS".
Definition SNAPSHOT_FORMAT_VERSION : Z := 4.

(** One row: its key, absent in version 1, and the stored value. *)
Record SnapRow := mkSnapRow { sr_key : option bytes; sr_value : bytes }.

(** * Writing *)

Definition encode_snap_row (kv : bytes * bytes) : res bytes :=
  if 1024 * 1024 <? Zlen kv.1 then Err (Corrupted (str "snapshot key too large"))
  else Ok (put_bytes kv.1 ++ put_bytes kv.2).

(** [for x in xs { w.write_all(f(x)?)?; }] *)
Fixpoint write_list {A} (f : A -> res bytes) (xs : list A) : res bytes :=
  match xs with
  | [] => mret []
  | x :: xs => b ← f x; bs ← write_list f xs; mret (b ++ bs)
  end.

Definition encode_snap_table (t : TableDef * list (bytes * bytes)) : res bytes :=
  rows ← write_list encode_snap_row t.2;
  mret (put_bytes (encode_table_def t.1) ++ to_le 8 (Zlen t.2) ++ rows).

Definition encode_snapshot (databases : list bytes) (tables : list (TableDef * list (bytes * bytes))) : res bytes :=
  ts ← write_list encode_snap_table tables;
  mret (SNAPSHOT_MAGIC ++ to_le 4 SNAPSHOT_FORMAT_VERSION ++
        to_le 4 (Zlen databases) ++ mjoin (put_str <$> databases) ++ to_le 4 (Zlen tables) ++ ts).

(** * Reading *)

(** [r.read_exact(&mut buf)?] on [n] bytes. *)
Definition read_n (n : Z) : Dec bytes := get_slice (Io (str "failed to fill whole buffer")) n.

Definition read_le (n : Z) : Dec Z := b ← read_n n; mret (of_le b).

(** A length-prefixed field with its cap. *)
Definition read_capped (cap : Z) (msg : string) : Dec bytes :=
  len ← read_le 4; check_le len cap msg;; read_n len.

Definition take_db : Dec bytes :=
  b ← read_capped 1024 "db name too long"; dec_lift (from_utf8 (Corrupted (str "utf8 db name")) b).

Definition read_dbs (version : Z) : Dec (list bytes) :=
  if 4 <=? version then
    ndbs ← read_le 4;
    check_le ndbs 10000 "snapshot db count too large";;
    dec_list (Z.to_nat ndbs) take_db
  else mret [str "default"].

Definition read_row (version : Z) : Dec SnapRow :=
  if version =? 1 then
    row ← read_capped (64 * 1024 * 1024) "snapshot row too large"; mret (mkSnapRow None row)
  else
    key ← read_capped (1024 * 1024) "snapshot key too large";
    val ← read_capped (64 * 1024 * 1024) "snapshot row too large";
    mret (mkSnapRow (Some key) val).

(** The definition is decoded from its own buffer, which it need not fill. *)
Definition read_def (version : Z) : Dec TableDef :=
  def_buf ← read_capped (16 * 1024 * 1024) "snapshot table def too large";
  dec_lift (fst <$> decode_table_def (version <=? 2) def_buf 0).

Definition read_table (version : Z) : Dec (TableDef * list SnapRow) :=
  def ← read_def version;
  nrows ← read_le 8;
  rows ← dec_list (Z.to_nat nrows) (read_row version);
  mret (def, rows).

Definition decode_snapshot : Dec (list bytes * list (TableDef * list SnapRow)) :=
  magic ← read_n 4;
  if negb (bool_decide (magic = SNAPSHOT_MAGIC)) then dec_fail (Corrupted (str "bad snapshot magic"))
  else
    version ← read_le 4;
    if negb (version =? 1) && negb (version =? 2) && negb (version =? 3) && negb (version =? SNAPSHOT_FORMAT_VERSION)
    then dec_fail (Corrupted (str "snapshot version"))
    else
      databases ← read_dbs version;
      ntables ← read_le 4;
      check_le ntables 100000 "snapshot table count too large";;
      out ← dec_list (Z.to_nat ntables) (read_table version);
      mret (databases, out).

(** * What a snapshot can hold *)

Definition snap_row_wf (kv : bytes * bytes) : Prop := Zlen kv.1 <= 1024 * 1024 /\ Zlen kv.2 <= 64 * 1024 * 1024.

Definition snap_table_wf (t : TableDef * list (bytes * bytes)) : Prop :=
  table_def_wf t.1 /\ Zlen (encode_table_def t.1) <= 16 * 1024 * 1024 /\ u64 (Zlen t.2) /\ Forall snap_row_wf t.2.

Definition snapshot_wf (databases : list bytes) (tables : list (TableDef * list (bytes * bytes))) : Prop :=
  Zlen databases <= 10000 /\ Forall (fun d => utf8_valid d = true /\ Zlen d <= 1024) databases /\
  Zlen tables <= 100000 /\ Forall snap_table_wf tables.

Definition snap_rows (rows : list (bytes * bytes)) : list SnapRow := (fun kv => mkSnapRow (Some kv.1) kv.2) <$> rows.

(** What comes back for a table: its definition through the type tag. *)
Definition reread_table (t : TableDef * list (bytes * bytes)) : TableDef * list SnapRow :=
  (reread_def t.1, snap_rows t.2).

(** * Round trip *)

Lemma Ok_eq {A} (a b : A) : Ok a = Ok b -> a = b.
Proof. by intros [=]. Qed.

Lemma decodes_read_le w z : in_u (8 * Z.of_nat w) z -> decodes (read_le (Z.of_nat w)) (to_le w z) z.
Proof. apply decodes_le. Qed.

Lemma decodes_capped cap msg b : Zlen b <= cap -> cap < 2 ^ 32 -> decodes (read_capped cap msg) (put_bytes b) b.
Proof.
  intros Hb Hc. eapply decodes_bind; [apply (decodes_read_le 4); widths; lia|]. apply decodes_check; [done|].
  by apply decodes_get_slice.
Qed.

Lemma decodes_take_db s : utf8_valid s = true /\ Zlen s <= 1024 -> decodes take_db (put_str s) s.
Proof.
  intros [Hu Hl]. rewrite <- (app_nil_r (put_str s)).
  eapply decodes_bind; [by apply decodes_capped|by apply decodes_from_utf8].
Qed.

Lemma decodes_snap_row kv : snap_row_wf kv ->
  decodes (read_row 4) (put_bytes kv.1 ++ put_bytes kv.2) (mkSnapRow (Some kv.1) kv.2).
Proof.
  intros [Hk Hv]. unfold read_row. cbn [Z.eqb Pos.eqb]. eapply decodes_bind; [by apply decodes_capped|].
  apply (decodes_bind_ret _ (mkSnapRow (Some kv.1))). by apply decodes_capped.
Qed.

(** A list written element by element. *)
Lemma decodes_written {A B} (enc : A -> res bytes) (f : A -> B) (d : Dec B) xs bs :
  Forall (fun x => forall b, enc x = Ok b -> decodes d b (f x)) xs -> write_list enc xs = Ok bs ->
  decodes (dec_list (length xs) d) bs (f <$> xs).
Proof.
  intros Hx. revert bs. induction Hx as [|x xs Hx _ IH]; intros bs Hw; cbn in *; [injection Hw as <-; apply decodes_ret|].
  destruct (enc x) as [b| |] eqn:E; try done. cbn in Hw. destruct (write_list enc xs) as [bs'| |]; try done.
  injection Hw as <-. eapply decodes_bind; [by apply Hx|]. apply (decodes_bind_ret _ (fun l => f x :: l)). by apply IH.
Qed.

Lemma decode_def_whole d : table_def_wf d -> fst <$> decode_table_def false (encode_table_def d) 0 = Ok (reread_def d).
Proof.
  intros Hd. pose proof (decodes_table_def d Hd [] []) as Ht. rewrite app_nil_r, app_nil_l in Ht.
  change (Zlen []) with 0 in Ht. by rewrite Ht.
Qed.

Lemma decodes_def d : table_def_wf d -> Zlen (encode_table_def d) <= 16 * 1024 * 1024 ->
  decodes (read_def 4) (put_bytes (encode_table_def d)) (reread_def d).
Proof.
  intros Hd Hl. rewrite <- (app_nil_r (put_bytes _)). unfold read_def. eapply decodes_bind; [by apply decodes_capped|].
  cbv beta. change (4 <=? 2) with false. rewrite (decode_def_whole d Hd). apply decodes_lift.
Qed.

Lemma decodes_snap_table t b : snap_table_wf t -> encode_snap_table t = Ok b -> decodes (read_table 4) b (reread_table t).
Proof.
  intros (Hd & Hl & Hn & Hr) He. unfold encode_snap_table in He. destruct (write_list _ _) as [rs| |] eqn:Er; try done.
  apply Ok_eq in He as <-. unfold read_table. eapply decodes_bind.
  - by apply decodes_def.
  - cbn beta. eapply decodes_bind; [by apply (decodes_read_le 8)|]. rewrite Nat2Z.id.
    apply (decodes_bind_ret _ (fun rows => (reread_def t.1, rows))). eapply decodes_written; [|exact Er].
    eapply Forall_impl; [exact Hr|]. intros kv Hkv bs Hbs. unfold encode_snap_row in Hbs.
    destruct (_ <? _); [done|]. injection Hbs as <-. by apply decodes_snap_row.
Qed.

Lemma write_list_Ok {A} (f : A -> res bytes) xs : Forall (fun x => exists b, f x = Ok b) xs -> exists bs, write_list f xs = Ok bs.
Proof. induction 1 as [|x xs [b Hb] _ [bs IH]]; cbn; [eauto|]. rewrite Hb, IH. cbn. eauto. Qed.

Lemma encode_snapshot_Ok databases tables : snapshot_wf databases tables -> exists bs, encode_snapshot databases tables = Ok bs.
Proof.
  intros (_ & _ & _ & Ht). unfold encode_snapshot. destruct (write_list_Ok encode_snap_table tables) as [bs ->]; [|cbn; eauto].
  eapply Forall_impl; [exact Ht|]. intros t (_ & _ & _ & Hr). unfold encode_snap_table.
  destruct (write_list_Ok encode_snap_row t.2) as [rs ->]; [|cbn; eauto]. eapply Forall_impl; [exact Hr|].
  intros kv [Hk _]. unfold encode_snap_row. zb. eauto.
Qed.

Lemma decodes_snapshot databases tables bs : snapshot_wf databases tables -> encode_snapshot databases tables = Ok bs ->
  decodes decode_snapshot bs (databases, reread_table <$> tables).
Proof.
  intros (Hnd & Hd & Hnt & Ht) He. unfold encode_snapshot in He. destruct (write_list _ _) as [ts| |] eqn:Ew; try done.
  apply Ok_eq in He as <-. unfold decode_snapshot. eapply decodes_bind; [by apply decodes_get_slice|].
  rewrite bool_decide_eq_true_2 by done. cbn [negb]. eapply decodes_bind; [apply (decodes_read_le 4); by cbn|].
  cbn [Z.eqb Pos.eqb negb andb SNAPSHOT_FORMAT_VERSION]. rewrite (app_assoc (to_le 4 (Zlen databases))). eapply decodes_bind.
  - unfold read_dbs. cbn [Z.leb Z.compare Pos.compare Pos.compare_cont SNAPSHOT_FORMAT_VERSION].
    eapply decodes_bind; [apply (decodes_read_le 4); widths; lia|]. apply decodes_check; [done|]. rewrite Nat2Z.id.
    pose proof (decodes_list put_str id take_db databases) as Hl. rewrite list_fmap_id in Hl. apply Hl.
    intros s Hs. rewrite Forall_forall in Hd. by apply decodes_take_db, Hd.
  - eapply decodes_bind; [apply (decodes_read_le 4); widths; lia|]. apply decodes_check; [done|]. rewrite Nat2Z.id.
    apply (decodes_bind_ret _ (fun out => (databases, out))). eapply decodes_written; [|exact Ew].
    eapply Forall_impl; [exact Ht|]. intros t Hwt b Hb. by apply decodes_snap_table.
Qed.

(** * Damaged files *)

(** No constraint on a result. *)
Abbreviation whatever := (fun _ => True).

(** A decoder that never panics, and looks only at the bytes it consumes: on a
    longer buffer it reads the same, and where the buffer ends too early it
    fails.  What it returns satisfies [P]. *)
Record strict {A} (P : A -> Prop) (d : Dec A) : Prop := {
  st_total : forall b off, Forall u8 b -> 0 <= off -> d b off <> Panic;
  st_read : forall b off a off', Forall u8 b -> 0 <= off -> d b off = Ok (a, off') -> off <= off' /\ P a;
  st_cut : forall b1 b2 off a off', Forall u8 (b1 ++ b2) -> 0 <= off <= Zlen b1 -> d (b1 ++ b2) off = Ok (a, off') ->
    if off' <=? Zlen b1 then d b1 off = Ok (a, off') else exists e, d b1 off = Err e;
}.

Lemma strict_ret {A} (P : A -> Prop) a : P a -> strict P (mret a).
Proof. intros Ha. split; [done|by intros b off a' off' _ _ [= <- <-]|]. intros b1 b2 off a' off' _ H [= <- <-]. by zb. Qed.

Lemma strict_fail {A} (P : A -> Prop) e : strict P (dec_fail e).
Proof. by split. Qed.

Lemma strict_bind {A B} P Q (d : Dec A) (k : A -> Dec B) :
  strict P d -> (forall a, P a -> strict Q (k a)) -> strict Q (d ≫= k).
Proof.
  intros [Ht Hr Hc] Hk. unfold mbind, dec_bind. split.
  - intros b off Hb Ho. specialize (Ht b off Hb Ho). destruct (d b off) as [[a o]| |] eqn:E; [|done|done].
    destruct (Hr _ _ _ _ Hb Ho E) as [H1 Pa]. apply (st_total _ _ (Hk a Pa)); [done|lia].
  - intros b off a off' Hb Ho E. destruct (d b off) as [[a1 o1]| |] eqn:E1; try done.
    destruct (Hr _ _ _ _ Hb Ho E1) as [H1 Pa]. destruct (st_read _ _ (Hk a1 Pa) _ o1 _ _ Hb ltac:(lia) E). split; [lia|done].
  - intros b1 b2 off a off' Hb Ho E. destruct (d (b1 ++ b2) off) as [[a1 o1]| |] eqn:E1; try done.
    destruct (Hr _ _ _ _ Hb (proj1 Ho) E1) as [H1 Pa]. specialize (Hc _ _ _ _ _ Hb Ho E1).
    destruct (st_read _ _ (Hk a1 Pa) _ o1 _ _ Hb ltac:(lia) E) as [H2 _].
    destruct (Z.leb_spec o1 (Zlen b1)) as [Hle|Hgt].
    + rewrite Hc. apply (st_cut _ _ (Hk a1 Pa) b1 b2); [done|lia|done].
    + destruct Hc as [e ->]. zb. eauto.
Qed.

Lemma strict_weaken {A} (P Q : A -> Prop) d : strict P d -> (forall a, P a -> Q a) -> strict Q d.
Proof. intros [Ht Hr Hc] H. split; [done| |done]. intros b off a off' Hb Ho E. destruct (Hr _ _ _ _ Hb Ho E). auto. Qed.

Lemma strict_slice e n : 0 <= n -> strict (Forall u8) (get_slice e n).
Proof.
  intros Hn. unfold get_slice. split.
  - intros b off. by destruct (_ <? _).
  - intros b off a off' Hb Ho. destruct (_ <? _); [done|]. intros [= <- <-]. split; [lia|]. by apply Forall_take, Forall_drop.
  - intros b1 b2 off a off' _ Ho. rewrite Zlen_app. destruct (Z.ltb_spec (Zlen b1 + Zlen b2) (off + n)); [done|]. intros [= <- <-].
    destruct (Z.leb_spec (off + n) (Zlen b1)); zb; [|eauto]. f_equal. f_equal.
    rewrite drop_app_le, take_app_le by (rewrite ?length_drop; lia). done.
Qed.

Lemma strict_lift {A} (r : res A) : r <> Panic -> strict (fun _ => True) (dec_lift r).
Proof.
  intros Hr. unfold dec_lift. destruct r as [a|e|]; [|by split|done]. cbn. split; [done|by intros b off a' off' _ _ [= <- <-]|].
  intros b1 b2 off a' off' _ H [= <- <-]. by zb.
Qed.

Lemma strict_check n cap msg : strict (fun _ => True) (check_le n cap msg).
Proof. unfold check_le. destruct (_ <? _); [apply strict_fail|by apply strict_ret]. Qed.

Lemma strict_list {A} (d : Dec A) n : strict (fun _ => True) d -> strict (fun _ => True) (dec_list n d).
Proof.
  intros Hd. induction n as [|n IH]; cbn [dec_list]; [by apply strict_ret|].
  assert (Hs : forall x, strict (fun _ => True) (xs ← dec_list n d; mret (x :: xs))).
  { intros x. eapply strict_bind; [exact IH|intros; by apply strict_ret]. }
  eapply strict_bind; [exact Hd|intros; apply Hs].
Qed.

Lemma strict_any {A} (P : A -> Prop) d : strict P d -> strict (fun _ => True) d.
Proof. intros H. by eapply strict_weaken. Qed.

Lemma of_le_nonneg b : Forall u8 b -> 0 <= of_le b.
Proof. intros H. by apply of_le_bound. Qed.

Lemma strict_read_le n : 0 <= n -> strict (fun z => 0 <= z) (read_le n).
Proof. intros H. eapply strict_bind; [by apply strict_slice|]. intros a Ha. by apply strict_ret, of_le_nonneg. Qed.

Lemma strict_capped cap msg : strict (Forall u8) (read_capped cap msg).
Proof.
  eapply strict_bind; [by apply strict_read_le|]. intros len Hl. cbv beta in Hl. eapply strict_bind; [apply strict_check|].
  intros _ _. by apply strict_slice.
Qed.

Lemma from_utf8_total e b : from_utf8 e b <> Panic.
Proof. unfold from_utf8. by destruct (utf8_valid b). Qed.

(** ** Table definitions *)

(** The decoders of a table definition read bytes that need not be strict (a
    missing section is tolerated), but they never panic. *)
Definition safe {A} (d : Dec A) : Prop := forall b off, d b off <> Panic.

Lemma safe_bind {A B} (d : Dec A) (k : A -> Dec B) : safe d -> (forall a, safe (k a)) -> safe (d ≫= k).
Proof.
  intros Hd Hk b off. unfold mbind, dec_bind. specialize (Hd b off). destruct (d b off) as [[a o]| |]; [apply Hk|done|done].
Qed.

Lemma safe_ret {A} (a : A) : safe (mret a).
Proof. done. Qed.

Lemma safe_fail {A} e : safe (dec_fail (A := A) e).
Proof. done. Qed.

Lemma safe_byte e : safe (get_byte e).
Proof. intros b off. unfold get_byte. by destruct (b !! _). Qed.

Lemma safe_slice e n : safe (get_slice e n).
Proof. intros b off. unfold get_slice. by destruct (_ <? _). Qed.

Lemma safe_more : safe more_bytes.
Proof. done. Qed.

Lemma safe_check n cap msg : safe (check_le n cap msg).
Proof. intros b off. unfold check_le. by destruct (_ <? _). Qed.

Lemma safe_utf8 e s : safe (dec_lift (from_utf8 e s)).
Proof. intros b off. unfold dec_lift. pose proof (from_utf8_total e s). by destruct (from_utf8 e s). Qed.

Lemma safe_ctype t : safe (dec_lift (ctype_of_byte t)).
Proof. intros b off. unfold dec_lift, ctype_of_byte. by repeat destruct (_ =? _); cbn. Qed.

Lemma safe_list {A} (d : Dec A) n : safe d -> safe (dec_list n d).
Proof.
  intros Hd. induction n as [|n IH]; cbn [dec_list]; [apply safe_ret|].
  apply safe_bind; [done|]. intros x. apply safe_bind; [done|]. intros xs. apply safe_ret.
Qed.

Create HintDb safe.
#[local] Hint Resolve safe_ret safe_fail safe_byte safe_slice safe_more safe_check safe_utf8 safe_ctype : safe.

Ltac safe_seq :=
  repeat first
    [ solve [auto 2 with safe nocore] | apply safe_list | apply safe_bind; [|intros ?]
    | match goal with |- safe (match ?x with _ => _ end) => destruct x end ].

Lemma safe_datum : safe decode.
Proof. unfold decode, take_datum. safe_seq. Qed.

#[local] Hint Resolve safe_datum : safe.

Lemma safe_str : safe take_str.
Proof. unfold take_str, take_bytes. safe_seq. Qed.

#[local] Hint Resolve safe_str : safe.

Lemma safe_stats : safe decode_stats.
Proof.
  unfold decode_stats, decode_col_stats, decode_mcv, st_take_str, st_take_opt, st_take_u32, st_take_u64.
  safe_seq.
Qed.

Lemma safe_col legacy : safe (decode_col legacy).
Proof. unfold decode_col, decode_default. safe_seq. Qed.

#[local] Hint Resolve safe_stats safe_col : safe.

Lemma safe_table_def legacy : safe (decode_table_def legacy).
Proof.
  unfold decode_table_def, tolerant, counted, take_u32, decode_opt_stats, decode_fk, take_fk_action, decode_index.
  safe_seq.
Qed.

(** ** The snapshot *)

Lemma strict_db : strict (fun _ => True) take_db.
Proof. eapply strict_bind; [apply strict_capped|]. intros b _. apply strict_lift, from_utf8_total. Qed.

Lemma strict_dbs version : strict (fun _ => True) (read_dbs version).
Proof.
  unfold read_dbs. destruct (_ <=? _); [|by apply strict_ret]. eapply strict_bind; [by apply strict_read_le|]. intros n _.
  eapply strict_bind; [apply strict_check|]. intros _ _. apply strict_list, strict_db.
Qed.

Lemma strict_row version : strict (fun _ => True) (read_row version).
Proof.
  unfold read_row. destruct (_ =? _).
  - eapply strict_bind; [apply strict_capped|]. intros row _. by apply strict_ret.
  - eapply strict_bind; [apply strict_capped|]. intros key _. eapply strict_bind; [apply strict_capped|]. intros val _.
    by apply strict_ret.
Qed.

Lemma strict_table version : strict (fun _ => True) (read_table version).
Proof.
  unfold read_table. eapply strict_bind.
  - unfold read_def. eapply strict_bind; [apply strict_capped|]. intros b _. apply strict_lift.
    pose proof (safe_table_def (version <=? 2) b 0). by destruct (decode_table_def _ _ _).
  - intros def _. eapply strict_bind; [by apply strict_read_le|]. intros n _.
    eapply strict_bind; [apply strict_list, strict_row|]. intros rows _. by apply strict_ret.
Qed.

Lemma strict_snapshot : strict (fun _ => True) decode_snapshot.
Proof.
  unfold decode_snapshot. eapply strict_bind; [by apply strict_slice|]. intros magic _.
  destruct (negb _); [apply strict_fail|]. eapply strict_bind; [by apply strict_read_le|]. intros version _.
  destruct (_ && _); [apply strict_fail|]. eapply strict_bind; [apply strict_dbs|]. intros dbs _.
  eapply strict_bind; [by apply strict_read_le|]. intros n _. eapply strict_bind; [apply strict_check|]. intros _ _.
  eapply strict_bind; [apply strict_list, strict_table|]. intros out _. by apply strict_ret.
Qed.

(** * Theorems *)

Definition demo_def : TableDef :=
  mkTableDef (str "t") (mkSchema [mkColumnDef (str "id") CInt false true None; mkColumnDef (str "v") CText true false None] 0)
    [mkIndexDef (str "iv") (str "v")] [] None.

Definition demo_snapshot : list (TableDef * list (bytes * bytes)) := [(demo_def, [([9], encode (Int 1) ++ encode Null)])].

Lemma demo_snapshot_wf : snapshot_wf [str "default"] demo_snapshot.
Proof.
  repeat first [split | constructor]; cbn; widths; try lia; try done.
Qed.

(** The snapshot a checkpoint writes decodes to the databases and rows it
    was given, and to the table definitions as the type tag keeps them. *)
Theorem snapshot_roundtrip databases tables :
  snapshot_wf databases tables ->
  exists file, encode_snapshot databases tables = Ok file /\
    decode_snapshot file 0 = Ok ((databases, reread_table <$> tables), Zlen file).
Proof.
  intros Hwf. destruct (encode_snapshot_Ok _ _ Hwf) as [file He]. exists file. split; [done|].
  pose proof (decodes_snapshot _ _ _ Hwf He [] []) as Hd. rewrite app_nil_r, app_nil_l in Hd. exact Hd.
Qed.

Lemma snapshot_roundtrip_witness :
  exists file, encode_snapshot [str "default"] demo_snapshot = Ok file /\
    decode_snapshot file 0 = Ok (([str "default"], reread_table <$> demo_snapshot), Zlen file).
Proof. exact (snapshot_roundtrip _ _ demo_snapshot_wf). Defined.

(** Reading a snapshot is robust: no input makes it panic, and a file from
    which a snapshot was read is refused with an error when it is cut anywhere
    before the end of that snapshot. *)
Theorem decode_snapshot_robust file :
  Forall u8 file ->
  decode_snapshot file 0 <> Panic /\
  forall s off n, decode_snapshot file 0 = Ok (s, off) -> (Z.of_nat n < off) -> exists e, decode_snapshot (take n file) 0 = Err e.
Proof.
  intros Hu. split; [by apply (st_total _ _ strict_snapshot)|]. intros s off n Hd Hn.
  destruct (Nat.le_gt_cases (length file) n) as [Hle|Hlt].
  - (* a file shorter than what was read from it *)
    pose proof (st_cut _ _ strict_snapshot file [] 0) as Hc. rewrite app_nil_r in Hc. specialize (Hc _ _ Hu ltac:(lia) Hd).
    rewrite take_ge by done. destruct (Z.leb_spec off (Zlen file)); [lia|done].
  - pose proof (st_cut _ _ strict_snapshot (take n file) (drop n file) 0) as Hc. rewrite take_drop in Hc.
    specialize (Hc _ _ Hu ltac:(lia) Hd). rewrite length_take in Hc.
    destruct (Z.leb_spec off (Z.of_nat (n `min` length file))); [lia|done].
Qed.

Definition demo_file : bytes := match encode_snapshot [str "default"] demo_snapshot with Ok f => f | _ => [] end.

Lemma decode_snapshot_robust_witness :
  decode_snapshot demo_file 0 <> Panic /\ exists e, decode_snapshot (take 60 demo_file) 0 = Err e.
Proof.
  assert (Hu : Forall u8 demo_file) by (apply (bool_decide_unpack _); vm_compute; exact I).
  destruct (decode_snapshot_robust demo_file Hu) as [H1 H2]. split; [exact H1|].
  eapply (H2 _ (Zlen demo_file)); [vm_compute; reflexivity|by vm_compute].
Defined.
