(* ===== verification/Recovery.v ===== *)
(** Opening a database (db/mod.rs): the snapshot is loaded, the transactions
    the log holds a commit record for are redone, the counters and foreign-key
    indexes are rebuilt; and the checkpoint that writes the snapshot.

    All tables share one buffer pool.  A table owns the pool field only while
    one of its operations runs: [on_table] lends it the shared one. *)
From stdpp Require Import base list gmap strings sorting.
From Stdlib Require Import ZArith Lia.
From S2P Require Import Prelude Machine Types TableDef WalCodec BTree BTreeRep BTreeScan BTreeSpec Page Kv Table Catalog.
From S2P Require Cost.

(** * Log records *)

Definition txn_of (rec : Record_) : Z :=
  match rec with
  | RPut txn _ _ _ | RDelete txn _ _ | RCommit txn _ | RCreateTable txn _ | RDropTable txn _
  | RCreateIndex txn _ _ _ | RDropIndex txn _ _ | RCreateDatabase txn _ | RDropDatabase txn _ => txn
  end.

(** * Databases *)

(** [for x in xs { f(x)?; }] *)
Fixpoint each {S A} (f : A -> SM S ()) (l : list A) : SM S () :=
  match l with [] => mret () | x :: l => _ ← f x; each f l end.

(** [let _ = f();] *)
Definition quietly {S A} (c : SM S A) : SM S () := fun s =>
  match c s with
  | Ret (s, Ok _) | Ret (s, Err _) => Ret (s, Ok ())
  | Ret (s, Panic) => Ret (s, Panic)
  | Panics => Panics
  | Fuel => Fuel
  end.

Definition starts_with (p s : bytes) : bool := bool_decide (take (length p) s = p).

(** The tables DROP DATABASE leaves: names without the prefix [name.] *)
Definition retained (name : bytes) (k : bytes) : bool := negb (starts_with (name ++ str ".") k).

Section data.
Context {T P : Type} `{KvTree T, Pool P}.

Abbreviation Tbl := (@Table T P).
Abbreviation TM := (SM Tbl).

(** The order in which a hash map of tables is iterated. *)
Context (hash_order : gmap bytes Tbl -> list bytes).

Record Data := mkData { d_databases : gset bytes; d_tables : gmap bytes Tbl; d_pool : P }.

Abbreviation RM := (SM Data).

Definition add_database (name : bytes) (d : Data) : Data := mkData ({[name]} ∪ d_databases d) (d_tables d) (d_pool d).

(** A call on a table lent the shared pool; [absent] if there is no such table. *)
Definition lend {A} (op : TM A) (t : Tbl) (p : P) : out (Tbl * P * res A) :=
  '(t, r) ← op (set_pool (Some p) t); mret (set_pool None t, default p (t_pool t), r).

Definition on_table (name : bytes) (op : TM ()) : RM () := fun d =>
  match d_tables d !! name with
  | None => Ret (d, Ok ())
  | Some t => '(t, p, r) ← lend op t (d_pool d); mret (mkData (d_databases d) (<[name := t]> (d_tables d)) p, r)
  end.

(** ** Redo *)

Definition create_table (def : TableDef) (d : Data) : Data :=
  match d_tables d !! td_name def with
  | Some _ => d
  | None => mkData (d_databases d) (<[td_name def := table_new def]> (d_tables d)) (d_pool d)
  end.

Definition drop_table (name : bytes) (d : Data) : Data :=
  mkData (d_databases d) (delete name (d_tables d)) (d_pool d).

Definition drop_database (name : bytes) (d : Data) : Data :=
  mkData (d_databases d ∖ {[name]}) (filter (fun e => retained name e.1 = true) (d_tables d)) (d_pool d).

Definition apply_record (rec : Record_) : RM () :=
  match rec with
  | RCreateDatabase _ name => modify (add_database name)
  | RDropDatabase _ name => modify (drop_database name)
  | RCreateTable _ def => modify (create_table def)
  | RDropTable _ name => modify (drop_table name)
  | RPut _ table key row => on_table table (apply_raw key row)
  | RDelete _ table key => on_table table (remove_raw key)
  | RCreateIndex _ table name column => on_table table (quietly (add_index name column))
  | RDropIndex _ table name => on_table table (quietly (drop_index name))
  | RCommit _ _ => mret ()
  end.

Definition apply_records (batch : list Record_) : RM () := each apply_record batch.

(** Records are buffered by transaction and applied at its commit record. *)
Fixpoint redo (pending : gmap Z (list Record_)) (recs : list Record_) : RM () :=
  match recs with
  | [] => mret ()
  | RCommit txn _ :: recs =>
    _ ← match pending !! txn with Some batch => apply_records batch | None => mret () end;
    redo (delete txn pending) recs
  | other :: recs => redo (<[txn_of other := default [] (pending !! txn_of other) ++ [other]]> pending) recs
  end.

(** ** Foreign-key indexes (db/fk.rs) *)

Definition named (name : bytes) (l : list IndexDef) : bool := existsb (fun i => bool_decide (idx_name i = name)) l.
Definition covered (column : bytes) (l : list IndexDef) : bool := existsb (fun i => bool_decide (idx_column i = column)) l.

(** [fk_<column>], [fk_<column>_2], ... until the name is free; one round more
    than there are indexes is enough. *)
Fixpoint free_name (fuel : nat) (column : bytes) (l : list IndexDef) (auto : bytes) (n : Z) : option bytes :=
  if named auto l then
    match fuel with
    | O => None
    | S fuel => free_name fuel column l (str "fk_" ++ column ++ str "_" ++ show_Z n) (n + 1)
    end
  else Some auto.

Definition auto_name (column : bytes) (l : list IndexDef) : option bytes :=
  free_name (length l) column l (str "fk_" ++ column) 2.

Definition fk_ensure (fk : ForeignKeyDef) : TM () :=
  t ← gets id;
  if bool_decide (index_of (td_schema (t_def t)) (fk_column fk) = Some (pk_idx (td_schema (t_def t)))) then mret ()
  else if covered (fk_column fk) (secondary_indexes t) then mret ()
  else match auto_name (fk_column fk) (secondary_indexes t) with
       | Some auto => add_index auto (fk_column fk)
       | None => fun _ => Fuel
       end.

Definition fk_ensure_auto_indexes : TM () :=
  t ← gets id; each fk_ensure (td_foreign_keys (t_def t)).

(** ** Opening *)

Definition load_row (r : SnapRow) : TM () :=
  match sr_key r with Some key => restore_kv key (sr_value r) | None => restore_raw (sr_value r) end.

Definition load_table (e : TableDef * list SnapRow) : RM () := fun d =>
  let d := match Cost.split_once (td_name e.1) with Some (db_prefix, _) => add_database db_prefix d | None => d end in
  '(t, p, r) ← lend (each load_row e.2) (table_new e.1) (d_pool d);
  mret (mkData (d_databases d) (match r with Ok _ => <[td_name e.1 := t]> (d_tables d) | _ => d_tables d end) p, r).

Definition load_snapshot (file : bytes) : RM () :=
  s ← lift (decode_snapshot file 0);
  _ ← each (fun db => modify (add_database db)) s.1.1;
  each load_table s.1.2.

(** [for table in tables.values() { f(table)?; }] *)
Definition each_table (op : TM ()) : RM () :=
  names ← gets (fun d => hash_order (d_tables d)); each (fun n => on_table n op) names.

Definition open_data (snapshot : option bytes) (wal : bytes) : RM () :=
  _ ← match snapshot with Some file => load_snapshot file | None => mret () end;
  recs ← lift (read_all wal);
  _ ← redo ∅ recs;
  _ ← each_table refresh_auto_inc;
  each_table fk_ensure_auto_indexes.

(** [Database::open] on a directory with this snapshot and log, and the pool of
    its page file. *)
Definition open_database (snapshot : option bytes) (wal : bytes) (pool : P) : out (Data * res ()) :=
  open_data snapshot wal (mkData {[str "default"]} ∅ pool).

(** ** Checkpoints *)

Definition lex_leb (a b : bytes) : Prop := lex a b <> Gt.
#[global] Instance lex_leb_dec a b : Decision (lex_leb a b).
Proof. unfold lex_leb. destruct (lex a b); [left|left|right]; congruence. Defined.

(** [table.tree().scan_all()] of every table. *)
Fixpoint scan_tables (ts : list Tbl) : out (list (TableDef * list (bytes * bytes))) :=
  match ts with
  | [] => mret []
  | t :: ts => rows ← trange (t_tree t) None true None true; rest ← scan_tables ts; mret ((table_def t, rows) :: rest)
  end.

(** What [checkpoint] hands to the encoder: the database names sorted, and all
    tables. *)
Definition checkpoint_data (d : Data) : out (list bytes * list (TableDef * list (bytes * bytes))) :=
  data ← scan_tables (omap (fun n => d_tables d !! n) (hash_order (d_tables d)));
  mret (merge_sort lex_leb (elements (d_databases d)), data).

(** The snapshot file [checkpoint] writes before it resets the log to its header. *)
Definition checkpoint (d : Data) : out (res bytes) := '(databases, data) ← checkpoint_data d; mret (encode_snapshot databases data).

End data.
