(* ===== verification/RecoverySpec.v ===== *)
(** What recovery promises: a database opened from a log that a crash cut at
    any byte holds exactly the effects of the transactions whose commit record
    is complete, on top of the snapshot; a checkpoint followed by an open gives
    the same tables back. *)
From stdpp Require Import base list gmap strings sorting.
From Stdlib Require Import ZArith Lia.
From S2P Require Import Prelude Machine Types TableDef WalCodec BTree BTreeRep BTreeScan BTreeSpec Page Kv Table TableSpec TableScan.
From S2P Require Import TableFrame RowRules Catalog Recovery.

(** * Databases as maps of rows *)

Record ATable := mkATable { a_def : TableDef; a_indexes : list IndexDef; a_rows : Rows }.
Record ADb := mkADb { a_databases : gset bytes; a_tables : gmap bytes ATable }.

Definition a_schema (a : ATable) : Schema := td_schema (a_def a).

(** A new table keeps the indexes of its definition whose column exists. *)
Definition indexes_of (def : TableDef) : list IndexDef :=
  List.filter (fun i => bool_decide (is_Some (index_of (td_schema def) (idx_column i)))) (td_indexes def).

Definition a_new (def : TableDef) : ATable := mkATable def (indexes_of def) ∅.

Definition set_rows (rows : Rows) (a : ATable) : ATable := mkATable (a_def a) (a_indexes a) rows.
Definition set_a_indexes (l : list IndexDef) (a : ATable) : ATable := mkATable (a_def a) l (a_rows a).

Definition put_row (key raw : bytes) (a : ATable) : ATable :=
  match decode_row (a_schema a) raw with Ok row => set_rows (<[key := row]> (a_rows a)) a | _ => a end.

(** CREATE INDEX refuses the primary key and a name in use. *)
Definition can_index (a : ATable) (name column : bytes) : bool :=
  match index_of (a_schema a) column with
  | Some c => negb (c =? pk_idx (a_schema a)) && negb (named name (a_indexes a))
  | None => false
  end.

Definition index_added (name column : bytes) (a : ATable) : ATable :=
  if can_index a name column then set_a_indexes (a_indexes a ++ [mkIndexDef name column]) a else a.

Definition index_dropped (name : bytes) (a : ATable) : ATable :=
  match position (fun i => bool_decide (idx_name i = name)) (a_indexes a) 0 with
  | Some p => set_a_indexes (vremove (Z.to_nat p) (a_indexes a)) a
  | None => a
  end.

Definition on_tables (f : gmap bytes ATable -> gmap bytes ATable) (A : ADb) : ADb := mkADb (a_databases A) (f (a_tables A)).

(** The effect of one committed record. *)
Definition effect (rec : Record_) (A : ADb) : ADb :=
  match rec with
  | RCreateDatabase _ name => mkADb ({[name]} ∪ a_databases A) (a_tables A)
  | RDropDatabase _ name => mkADb (a_databases A ∖ {[name]}) (filter (fun e => retained name e.1 = true) (a_tables A))
  | RCreateTable _ def => on_tables (fun m => match m !! td_name def with Some _ => m | None => <[td_name def := a_new def]> m end) A
  | RDropTable _ name => on_tables (delete name) A
  | RPut _ table key raw => on_tables (alter (put_row key raw) table) A
  | RDelete _ table key => on_tables (alter (fun a => set_rows (delete key (a_rows a)) a) table) A
  | RCreateIndex _ table name column => on_tables (alter (index_added name column) table) A
  | RDropIndex _ table name => on_tables (alter (index_dropped name) table) A
  | RCommit _ _ => A
  end.

Definition effects (recs : list Record_) (A : ADb) : ADb := fold_left (fun A rec => effect rec A) recs A.

(** What the writers of the log guarantee: a row is written under its own key
    to a table whose schema it fits, and keys are bytes. *)
Definition record_fits (A : ADb) (rec : Record_) : Prop :=
  match rec with
  | RPut _ table key raw => forall a, a_tables A !! table = Some a ->
      exists row, raw = encode_row row /\ row_wf (a_schema a) row /\ row_key (a_schema a) row = Some key
  | RDelete _ _ key => Forall u8 key
  | _ => True
  end.

Fixpoint records_fit (A : ADb) (recs : list Record_) : Prop :=
  match recs with
  | [] => True
  | rec :: recs => record_fits A rec /\ records_fit (effect rec A) recs
  end.

Lemma effects_app xs ys A : effects (xs ++ ys) A = effects ys (effects xs A).
Proof. unfold effects. apply fold_left_app. Qed.

Lemma records_fit_app xs ys A : records_fit A (xs ++ ys) <-> records_fit A xs /\ records_fit (effects xs A) ys.
Proof. revert A. induction xs as [|r xs IH]; intros A; cbn; [tauto|]. rewrite IH. unfold effects. cbn. tauto. Qed.

Definition wide_put (rec : Record_) : Prop :=
  match rec with RPut _ _ _ raw => MAX_INLINE_ROW < Zlen raw | _ => False end.

(** ** Foreign-key indexes *)

Definition fk_index (a : ATable) (fk : ForeignKeyDef) : res ATable :=
  if bool_decide (index_of (a_schema a) (fk_column fk) = Some (pk_idx (a_schema a))) then Ok a
  else if covered (fk_column fk) (a_indexes a) then Ok a
  else match auto_name (fk_column fk) (a_indexes a) with
       | Some auto => match index_of (a_schema a) (fk_column fk) with
                      | Some _ => Ok (set_a_indexes (a_indexes a ++ [mkIndexDef auto (fk_column fk)]) a)
                      | None => Err (ColumnNotFound (fk_column fk))
                      end
       | None => Panic
       end.

Fixpoint fk_indexes (a : ATable) (fks : list ForeignKeyDef) : res ATable :=
  match fks with [] => Ok a | fk :: fks => a ← fk_index a fk; fk_indexes a fks end.

Definition fk_indexed (a : ATable) : ATable := match fk_indexes a (td_foreign_keys (a_def a)) with Ok a => a | _ => a end.

(** Every foreign key names a column of its table. *)
Definition fk_columns_exist (a : ATable) : Prop :=
  Forall (fun fk => is_Some (index_of (a_schema a) (fk_column fk))) (td_foreign_keys (a_def a)).

(** * One pool for all tables *)

Section framed.
Context {P : Type} {KP : Pool P} {HP : PoolOk P}.

(** A pool that also holds [F], which nobody may touch. *)
Lemma framed_store (F : gmap Locator bytes) (p : P) m d :
  m ##ₘ F /\ holds p (m ∪ F) -> 0 < Zlen d <= MAX_VALUE_LEN -> Forall u8 d ->
  match pool_store p d with
  | (p', Ok l) => m !! l = None /\ loc_wf l /\ <[l := d]> m ##ₘ F /\ holds p' (<[l := d]> m ∪ F)
  | (p', Err _) => m ##ₘ F /\ holds p' (m ∪ F)
  | (_, Panic) => False
  end.
Proof.
  intros [Hd Hh] Hl Hu. pose proof (pool_store_ok p _ d Hh Hl Hu) as Hs. destruct (pool_store p d) as [p' [l|e|]]; [|done|done].
  destruct Hs as (Hn & Hw & Hp). apply lookup_union_None in Hn as [Hn HF]. split_and!; [done|done| |].
  - by apply map_disjoint_insert_l.
  - by rewrite <- insert_union_l.
Qed.

#[refine] Definition framed (F : gmap Locator bytes) : PoolOk P := {| holds p m := m ##ₘ F /\ holds p (m ∪ F) |}.
Proof.
  - intros p m d. apply framed_store.
  - intros p m l d [Hd Hh] Hl. destruct (pool_load_ok p (m ∪ F) l d Hh) as (p' & -> & Hp'); [by apply lookup_union_Some_l|]. by exists p'.
  - intros p m l d [Hd Hh] Hl. destruct (pool_free_ok p (m ∪ F) l d Hh) as (Hf & p' & Hld & Hp'); [by apply lookup_union_Some_l|].
    assert (HF : F !! l = None) by by eapply map_disjoint_Some_l.
    rewrite delete_union, (delete_id F) in Hf, Hp' by done. split; [|exists p'; split; [done|]]; (split; [by apply map_disjoint_delete_l|done]).
Defined.

End framed.

Ltac decides := repeat (case_decide; cbn in * ); done || congruence.

(** Every stored value belongs to one table, by name. *)
Abbreviation Owned := (gmap Locator (bytes * bytes)).

Definition part (n : bytes) (G : Owned) : gmap Locator bytes := omap (fun e => if decide (e.1 = n) then Some e.2 else None) G.
Definition rest (n : bytes) (G : Owned) : gmap Locator bytes := omap (fun e => if decide (e.1 = n) then None else Some e.2) G.

(** The values of table [n] are now [pm]. *)
Definition regive (n : bytes) (pm : gmap Locator bytes) (G : Owned) : Owned :=
  (pair n <$> pm) ∪ omap (fun e => if decide (e.1 = n) then None else Some e) G.

Ltac owned l G :=
  apply map_eq; intros l; unfold part, rest, regive;
  rewrite ?lookup_union, ?lookup_omap, ?lookup_fmap, ?lookup_union, ?lookup_omap, ?lookup_fmap;
  destruct (G !! l) as [[o d]|] eqn:?; cbn.

Lemma part_rest n G : part n G ∪ rest n G = snd <$> G.
Proof. owned l G; [|done]. by destruct (decide (o = n)). Qed.

Lemma part_disjoint n G : part n G ##ₘ rest n G.
Proof.
  apply map_disjoint_spec. intros l x y. unfold part, rest. rewrite !lookup_omap. destruct (G !! l) as [[o d]|]; cbn; [|done].
  by destruct (decide (o = n)).
Qed.

Lemma rest_disjoint n pm G l x d : pm ##ₘ rest n G -> pm !! l = Some x -> G !! l = Some d -> d.1 = n.
Proof.
  intros Hd Hp HG. destruct (decide (d.1 = n)) as [|Hne]; [done|]. rewrite map_disjoint_spec in Hd. destruct (Hd l x d.2 Hp).
  unfold rest. rewrite lookup_omap, HG. cbn. by rewrite decide_False.
Qed.

Lemma regive_rest n pm G : pm ##ₘ rest n G -> rest n (regive n pm G) = rest n G.
Proof.
  intros Hd. owned l G; destruct (pm !! l) as [x|] eqn:Ep; cbn; try (pose proof (rest_disjoint n pm G l x _ Hd Ep ltac:(done))); cbn in *; decides.
Qed.

Lemma regive_part n pm G : pm ##ₘ rest n G -> part n (regive n pm G) = pm.
Proof.
  intros Hd. owned l G; destruct (pm !! l) as [x|] eqn:Ep; cbn; decides.
Qed.

Lemma regive_other n n' pm G : n' <> n -> pm ##ₘ rest n G -> part n' (regive n pm G) = part n' G.
Proof.
  intros Hne Hd. owned l G.
  - destruct (pm !! l) as [x|] eqn:Ep.
    + pose proof (rest_disjoint n pm G l x (o, d) Hd Ep ltac:(done)) as Ho. cbn in *. subst o. cbn. decides.
    + cbn. decides.
  - destruct (pm !! l) as [x|] eqn:Ep; cbn; decides.
Qed.

Lemma regive_all n pm G : pm ##ₘ rest n G -> snd <$> regive n pm G = pm ∪ rest n G.
Proof. intros Hd. by rewrite <- (part_rest n), regive_part, regive_rest by done. Qed.

(** * The representation of a database *)

Section spec.
Context {T P : Type} {KT : KvTree T} {HT : KvTreeOk T} {KP : Pool P} {HP : PoolOk P}.
Context (hash_order : gmap bytes (@Table T P) -> list bytes).

Abbreviation Tbl := (@Table T P).
Abbreviation DB := (@Data T P).

(** A table of the database: its rows are [a], held in its trees and in the part
    of the pool that is its own. *)
Record tab_rep (G : Owned) (n : bytes) (p : P) (t : Tbl) (a : ATable) : Prop := {
  tr_pool : t_pool t = None;
  tr_def : t_def t = a_def a;
  tr_indexes : secondary_indexes t = a_indexes a;
  tr_rep : exists m, rep (HP := framed (rest n G)) (set_pool (Some p) t) m (part n G) (a_rows a);
}.

Record db_rep (G : Owned) (d : DB) (A : ADb) : Prop := {
  db_pool : holds (d_pool d) (snd <$> G);
  db_names : d_databases d = a_databases A;
  db_dom : dom (d_tables d) = dom (a_tables A);
  db_tab : forall n t a, d_tables d !! n = Some t -> a_tables A !! n = Some a -> tab_rep G n (d_pool d) t a;
}.

(** The part of [rep] that does not speak of the pool. *)
Lemma rep_repool {H1 H2 : PoolOk P} (t : Tbl) m pm rows p p' :
  rep (HP := H1) (set_pool p t) m pm rows -> pool_rep (HP := H2) p' pm -> rep (HP := H2) (set_pool p' t) m pm rows.
Proof. intros [] Hp. by split. Qed.

Lemma tab_rep_rep G n p t a : holds p (snd <$> G) -> tab_rep G n p t a ->
  exists m, rep (HP := framed (rest n G)) (set_pool (Some p) t) m (part n G) (a_rows a).
Proof. by intros _ []. Qed.

(** Another table, after table [n] has used the pool. *)
Lemma tab_rep_other G n n' p p' pm t a :
  n' <> n -> pm ##ₘ rest n G -> holds p' (snd <$> regive n pm G) -> tab_rep G n' p t a -> tab_rep (regive n pm G) n' p' t a.
Proof.
  intros Hne Hd Hh [H1 H2 H3 (m & H4)]. split; [done|done|done|]. exists m.
  assert (Hpart : part n' (regive n pm G) = part n' G) by by apply regive_other.
  rewrite Hpart. eapply (rep_repool (H1 := framed _) (H2 := framed _)); [exact H4|]. cbn. rewrite <- Hpart, part_rest. split; [apply part_disjoint|done].
Qed.

(** The tables before and after an operation, as far as it is certain. *)
Definition shape (t t' : Tbl) : Prop := t_def t' = t_def t /\ (is_Some (t_pool t) -> is_Some (t_pool t')).
Definition shape_indexes (t t' : Tbl) : Prop := shape t t' /\ secondary_indexes t' = secondary_indexes t.

#[export] Instance shape_framing : Framing shape.
Proof.
  split; try done. split; [done|]. intros x y z [H1 H2] [H3 H4]. split; [congruence|auto].
Qed.

#[export] Instance shape_indexes_framing : Framing shape_indexes.
Proof.
  split; try done. split; [done|]. intros x y z [H1 H2] [H3 H4]. split; [by etrans|congruence].
Qed.

(** ** Lending the pool *)

Lemma wp_frames {A} R (op : SM Tbl A) t Q : frames R op -> wp op t Q -> wp op t (fun t' r => Q t' r /\ R t t').
Proof. intros Hf. unfold wp. specialize (Hf t). destruct (op t) as [[t' r]| |]; [|done|done]. intros HQ. split; [done|]. by eapply Hf. Qed.

(** The state of a table under the frame [F]: what [on_table_ok] asks for. *)
Definition atable (F : gmap Locator bytes) (t : Tbl) (a : ATable) : Prop :=
  is_Some (t_pool t) /\ t_def t = a_def a /\ secondary_indexes t = a_indexes a /\ table_rep (HP := framed F) t (a_rows a).

(** Operations that change rows only. *)
Lemma atable_rows F (op : SM Tbl ()) t a (Q : Tbl -> res () -> Prop) :
  frames shape_indexes op -> atable F t a -> wp op t Q ->
  wp op t (fun t' r => Q t' r /\ forall rows, keeps (HP := framed F) t rows t' -> atable F t' (set_rows rows a)).
Proof.
  intros Hf (Hp & Hd & Hi & _) HQ. eapply wp_mono; [by apply (wp_frames shape_indexes)|]. cbn. intros t' r [H [[H1 H2] H3]].
  split; [done|]. intros rows [_ Hr]. split_and!; [auto|by rewrite H1|by rewrite H3|done].
Qed.

Lemma alter_insert_eq {A} (f : A -> A) (m : gmap bytes A) n :
  alter f n m = match m !! n with Some a => <[n := f a]> m | None => m end.
Proof.
  apply map_eq. intros k. destruct (decide (k = n)) as [->|Hne].
  - rewrite lookup_alter_eq. destruct (m !! n) eqn:E; cbn; [by rewrite lookup_insert_eq|by rewrite E].
  - rewrite lookup_alter_ne by done. destruct (m !! n); [by rewrite lookup_insert_ne|done].
Qed.

(** A call that turns the table [a] into [f a], with the pool it was lent, does
    so in the database; an error ends the caller. *)
Lemma on_table_alter n op d A G f (E : Prop) :
  db_rep G d A ->
  (forall F t a, a_tables A !! n = Some a -> atable F t a ->
     wp op t (fun t' r => (r = Ok () /\ atable F t' (f a)) \/ (E /\ exists e, r = Err e))) ->
  wp (on_table n op) d (fun d' r =>
    (r = Ok () /\ exists G', db_rep G' d' (on_tables (alter f n) A)) \/ (E /\ exists e, r = Err e)).
Proof.
  intros [D1 D2 D3 D4] Hop. unfold wp, on_table, lend, on_tables. rewrite alter_insert_eq. destruct (d_tables d !! n) as [t|] eqn:Et.
  - assert (exists a, a_tables A !! n = Some a) as [a Ea].
    { apply elem_of_dom. rewrite <- D3. by apply elem_of_dom_2 in Et. }
    rewrite Ea. destruct (D4 n t a Et Ea) as [T1 T2 T3 (m & T4)].
    specialize (Hop (rest n G) (set_pool (Some (d_pool d)) t) a Ea ltac:(split_and!; [by eexists|done|done|by exists m, (part n G)])).
    unfold wp in Hop. destruct (op (set_pool (Some (d_pool d)) t)) as [[t' r]| |]; [|done|done].
    destruct Hop as [[-> ([p' Hp'] & Hd' & Hi' & m' & pm' & Hr')]|HE]; [left|by right].
    cbn [mbind out_bind mret out_ret]. rewrite Hp'. cbn [default from_option].
    pose proof (r_pool _ _ _ _ Hr') as Hpool. rewrite Hp' in Hpool. cbn in Hpool. destruct Hpool as [Hdj Hh].
    split; [done|]. exists (regive n pm' G). rewrite <- (regive_all n pm' G Hdj) in Hh. split; cbn; [done|done| |].
    + by rewrite !dom_insert_L, D3.
    + intros n2 t2 a2 [[<- <-]|[Hne H2]]%lookup_insert_Some.
      * rewrite lookup_insert_eq. intros [= <-]. split; [done|done|done|]. exists m'. rewrite regive_part, regive_rest by done.
        replace (set_pool (Some p') (set_pool None t')) with (set_pool (Some p') t') by by destruct t'.
        destruct Hr' as [R1 R2 R3 R4 R5 R6 R7]. split; try done. cbn. by rewrite <- (regive_all n pm' G Hdj).
      * rewrite lookup_insert_ne by done. intros E2. by eapply tab_rep_other; [|done|done|apply (D4 n2)].
  - assert (a_tables A !! n = None) as -> by (apply not_elem_of_dom; rewrite <- D3; by apply not_elem_of_dom).
    left. split; [done|]. exists G. by destruct A.
Qed.

Lemma quietly_ok {S A} (c : SM S A) s Q : wp c s (fun s' r => r <> Panic /\ Q s') -> wp (quietly c) s (fun s' r => r = Ok () /\ Q s').
Proof. unfold wp, quietly. destruct (c s) as [[s' [a|e|]]| |]; tauto. Qed.

(** ** Index definitions *)

Lemma named_indexes (t : Tbl) name : existsb (fun x => bool_decide (idx_name (si_def x) = name)) (t_indexes t) = named name (secondary_indexes t).
Proof. unfold named, secondary_indexes. induction (t_indexes (T := T) (P := P) t) as [|x l IH]; cbn; [done|by rewrite IH]. Qed.

Lemma position_fmap {A B} (g : A -> B) f l i : position f (g <$> l) i = position (fun x => f (g x)) l i.
Proof. revert i. induction l as [|x l IH]; intros i; cbn; [done|]. destruct (f (g x)); [done|apply IH]. Qed.

(** The answer of CREATE INDEX is that of [can_index]. *)
Lemma add_index_can (t : Tbl) a name column : t_def t = a_def a -> secondary_indexes t = a_indexes a ->
  match add_index_answer t name column with Ok _ => can_index a name column = true | Err _ => can_index a name column = false | Panic => False end.
Proof.
  intros Hd Hi. unfold add_index_answer, can_index, a_schema. rewrite named_indexes, Hd, Hi.
  destruct (index_of (td_schema (a_def a)) column) as [c|]; [|done]. destruct (c =? _); [done|]. by destruct (named _ _).
Qed.

Lemma frames_add_index name column : frames shape (add_index (T := T) (P := P) name column).
Proof.
  unfold add_index. apply frames_bind; [apply _|apply frames_gets, _|]. intros t. destruct (index_of _ _) as [c|]; [|apply frames_lift, _].
  destruct (c =? _); [apply frames_lift, _|]. destruct (existsb _ _); [apply frames_lift, _|].
  apply frames_bind; [apply _|apply frames_scan, _|]. intros rows. apply frames_bind; [apply _| |].
  - intros t1 t2 r. unfold fresh_index. destruct (build_index _ _ _ _) as [[tr [u|e|]]| |]; by intros [= <- <-].
  - intros tr. apply frames_modify. by intros t1.
Qed.

Lemma frames_drop_index name : frames shape (drop_index (T := T) (P := P) name).
Proof.
  unfold drop_index. apply frames_bind; [apply _|apply frames_gets, _|]. intros t.
  destruct (position _ _ _); [by apply frames_modify; intros t1|apply frames_lift, _].
Qed.

Lemma add_index_atable F name column t a : atable F t a ->
  wp (add_index name column) t (fun t' r =>
    if can_index a name column then r = Ok () /\ atable F t' (set_a_indexes (a_indexes a ++ [mkIndexDef name column]) a)
    else (exists e, r = Err e) /\ atable F t' a).
Proof.
  intros (Hp & Hd & Hi & Hr). eapply wp_mono.
  - apply (wp_frames shape); [apply frames_add_index|by apply (add_index_ok (HP := framed F))].
  - cbn. intros t' r [(-> & [_ Hk] & Hs) [S1 S2]]. pose proof (add_index_can t a name column Hd Hi) as Hc.
    destruct (add_index_answer t name column) as [[]|e|]; [| |done]; rewrite Hc.
    + split; [done|]. split_and!; [auto|by rewrite S1|by rewrite Hs, Hi|done].
    + split; [by exists e|]. rewrite app_nil_r in Hs. split_and!; [auto|by rewrite S1|by rewrite Hs|done].
Qed.

Lemma drop_index_atable F name t a : atable F t a ->
  wp (drop_index name) t (fun t' r => r <> Panic /\ atable F t' (index_dropped name a)).
Proof.
  intros (Hp & Hd & Hi & Hr). eapply wp_mono.
  - apply (wp_frames shape); [apply frames_drop_index|by apply (drop_index_ok (HP := framed F))].
  - cbn. intros t' r [[[_ Hk] Hs] [S1 S2]]. unfold index_dropped. rewrite <- Hi. unfold secondary_indexes at 1. rewrite position_fmap.
    destruct (position _ (t_indexes t) 0) as [p|].
    + destruct Hs as [-> Hs]. split; [done|]. split_and!; [auto|by rewrite S1|by rewrite Hs, Hi|done].
    + destruct Hs as [-> ->]. split; [done|]. by split_and!.
Qed.

(** ** Redo *)

Lemma put_ok table key raw d A G : db_rep G d A -> record_fits A (RPut 0 table key raw) ->
  wp (on_table table (apply_raw key raw)) d (fun d' r =>
    (r = Ok () /\ exists G', db_rep G' d' (on_tables (alter (put_row key raw) table) A)) \/ (MAX_INLINE_ROW < Zlen raw /\ exists e, r = Err e)).
Proof.
  intros Hd Hfit. apply (on_table_alter _ _ _ _ G); [done|]. intros F t a Ha Hat. destruct (Hfit a Ha) as (row & -> & Hw & Hk).
  pose proof Hat as (Hp & Hdef & Hi & Hr). unfold a_schema in Hw, Hk. rewrite <- Hdef in Hw, Hk.
  eapply wp_mono; [eapply (atable_rows F); [apply frames_apply_raw, _|exact Hat|by apply (apply_raw_ok (HP := framed F) t (a_rows a) row key)]|].
  cbn. intros t' r [[[Hkeep ->]|(_ & Hwide & He)] Hrows]; [left; split; [done|]|by right].
  apply Hrows in Hkeep. unfold put_row, a_schema. by rewrite <- Hdef, (decode_encode_row _ _ Hw).
Qed.

Lemma delete_ok table key d A G : db_rep G d A -> Forall u8 key ->
  wp (on_table table (remove_raw key)) d (fun d' r =>
    (r = Ok () /\ exists G', db_rep G' d' (on_tables (alter (fun a => set_rows (delete key (a_rows a)) a) table) A)) \/ (False /\ exists e, r = Err e)).
Proof.
  intros Hd Hk. apply (on_table_alter _ _ _ _ G); [done|]. intros F t a Ha Hat. pose proof Hat as (Hp & Hdef & Hi & Hr).
  eapply wp_mono; [eapply (atable_rows F); [apply frames_remove_raw, _|exact Hat|by apply (remove_raw_ok (HP := framed F) t (a_rows a) key)]|].
  cbn. intros t' r [[Hkeep ->] Hrows]. apply Hrows in Hkeep. by left.
Qed.

Lemma create_index_ok table name column d A G : db_rep G d A ->
  wp (on_table table (quietly (add_index name column))) d (fun d' r =>
    (r = Ok () /\ exists G', db_rep G' d' (on_tables (alter (index_added name column) table) A)) \/ (False /\ exists e, r = Err e)).
Proof.
  intros Hd. apply (on_table_alter _ _ _ _ G); [done|]. intros F t a Ha Hat. eapply wp_mono.
  - apply (quietly_ok _ _ (fun t' => atable F t' (index_added name column a))). eapply wp_mono; [by apply add_index_atable|].
    cbn. unfold index_added. intros t' r Hr. destruct (can_index a name column); [by destruct Hr as [-> ?]|by destruct Hr as [[e ->] ?]].
  - cbn. intros t' r [-> Hr]. by left.
Qed.

Lemma drop_index_ok' table name d A G : db_rep G d A ->
  wp (on_table table (quietly (drop_index name))) d (fun d' r =>
    (r = Ok () /\ exists G', db_rep G' d' (on_tables (alter (index_dropped name) table) A)) \/ (False /\ exists e, r = Err e)).
Proof.
  intros Hd. apply (on_table_alter _ _ _ _ G); [done|]. intros F t a Ha Hat. eapply wp_mono.
  - apply (quietly_ok _ _ (fun t' => atable F t' (index_dropped name a))). by apply drop_index_atable.
  - cbn. intros t' r [-> Hr]. by left.
Qed.

(** Changes of the directory of tables. *)
Lemma db_rep_sub G d A d' A' :
  db_rep G d A -> d_pool d' = d_pool d -> d_databases d' = a_databases A' -> dom (d_tables d') = dom (a_tables A') ->
  (forall n t a, d_tables d' !! n = Some t -> a_tables A' !! n = Some a -> d_tables d !! n = Some t /\ a_tables A !! n = Some a \/ tab_rep G n (d_pool d) t a) ->
  db_rep G d' A'.
Proof.
  intros [D1 D2 D3 D4] Hp Hn Hdom Ht. split; [by rewrite Hp|done|done|]. rewrite Hp. intros n t a H1 H2.
  destruct (Ht n t a H1 H2) as [[? ?]|?]; [by apply (D4 n)|done].
Qed.

Lemma indexes_of_new (def : TableDef) : secondary_indexes (table_new (T := T) (P := P) def) = indexes_of def.
Proof.
  unfold secondary_indexes, indexes_of. cbn. induction (td_indexes def) as [|i l IH]; cbn; [done|].
  destruct (index_of (td_schema def) (idx_column i)) eqn:E; cbn; [|done]. by rewrite <- IH.
Qed.

Lemma tab_rep_new G n p def : holds p (snd <$> G) -> tab_rep G n p (table_new def) (a_new def).
Proof.
  intros Hh. split; [done|done|apply indexes_of_new|]. exists ∅.
  destruct (table_new_rep (HP := framed (rest n G)) (T := T) (P := P) def) as (m & pm & H).
  split; cbn; try done.
  - apply stored_new.
  - split; [apply part_disjoint|by rewrite part_rest].
  - apply (r_index _ _ _ _ H).
Qed.

Lemma create_table_rep G d A def : db_rep G d A -> db_rep G (create_table def d) (effect (RCreateTable 0 def) A).
Proof.
  intros Hd. pose proof Hd as [D1 D2 D3 D4]. unfold create_table. cbn [effect]. unfold on_tables.
  destruct (d_tables d !! td_name def) as [t|] eqn:Et.
  - assert (exists a, a_tables A !! td_name def = Some a) as [a ->] by (apply elem_of_dom; rewrite <- D3; by apply elem_of_dom_2 in Et).
    by destruct A.
  - assert (a_tables A !! td_name def = None) as -> by (apply not_elem_of_dom; rewrite <- D3; by apply not_elem_of_dom).
    apply (db_rep_sub G d A); [done|done|done| |].
    + cbn. by rewrite !dom_insert_L, D3.
    + cbn. intros n t a [[<- <-]|[Hne H1]]%lookup_insert_Some.
      * rewrite lookup_insert_eq. intros [= <-]. right. by apply tab_rep_new.
      * rewrite lookup_insert_ne by done. auto.
Qed.

Lemma drop_table_rep G d A name : db_rep G d A -> db_rep G (drop_table name d) (effect (RDropTable 0 name) A).
Proof.
  intros Hd. pose proof Hd as [D1 D2 D3 D4]. apply (db_rep_sub G d A); [done|done|done|cbn; by rewrite !dom_delete_L, D3|].
  cbn. intros n t a [_ ?]%lookup_delete_Some [_ ?]%lookup_delete_Some. auto.
Qed.

Lemma dom_filter_keys {A B : Type} (f : bytes -> bool) (m : gmap bytes A) (m' : gmap bytes B) :
  dom m = dom m' -> dom (filter (fun e => f e.1 = true) m) = dom (filter (fun e => f e.1 = true) m').
Proof.
  intros Hdom. apply set_eq. intros k. rewrite !elem_of_dom. pose proof (proj1 (set_eq _ _) Hdom k) as Hk. rewrite !elem_of_dom in Hk.
  split; intros [x [Hx Hf]%map_lookup_filter_Some]; [destruct (proj1 Hk ltac:(eauto)) as [y Hy]|destruct (proj2 Hk ltac:(eauto)) as [y Hy]];
    exists y; by apply map_lookup_filter_Some.
Qed.

Lemma drop_database_rep G d A name : db_rep G d A -> db_rep G (drop_database name d) (effect (RDropDatabase 0 name) A).
Proof.
  intros Hd. pose proof Hd as [D1 D2 D3 D4]. apply (db_rep_sub G d A); [done|done|cbn; by rewrite D2|by apply dom_filter_keys|].
  cbn. intros n t a [? _]%map_lookup_filter_Some [? _]%map_lookup_filter_Some. auto.
Qed.

(** One record: redone as its effect, unless the pool refuses a wide row. *)
Lemma apply_record_ok rec d A G : db_rep G d A -> record_fits A rec ->
  wp (apply_record rec) d (fun d' r => (r = Ok () /\ exists G', db_rep G' d' (effect rec A)) \/ (wide_put rec /\ exists e, r = Err e)).
Proof.
  assert (Hmod : forall (f : DB -> DB) A', db_rep G (f d) A' -> wp (modify f) d (fun d' r => (r = Ok () /\ exists G', db_rep G' d' A') \/ (wide_put rec /\ exists e, r = Err e))).
  { intros f A' H. unfold wp, modify. left. split; [done|by exists G]. }
  intros Hd Hf. destruct rec; cbn [apply_record effect wide_put] in *.
  - by apply (put_ok _ _ _ _ _ G).
  - by apply (delete_ok _ _ _ _ G).
  - apply wp_ret. left. split; [done|by exists G].
  - apply Hmod. by apply create_table_rep.
  - apply Hmod. by apply drop_table_rep.
  - by apply (create_index_ok _ _ _ _ _ G).
  - by apply (drop_index_ok' _ _ _ _ G).
  - apply Hmod. pose proof Hd as [D1 D2 D3 D4]. apply (db_rep_sub G d A); auto. cbn. by rewrite D2.
  - apply Hmod. by apply drop_database_rep.
Qed.

(** What a sequence of records leaves, or the error of a wide row among them. *)
Definition redone (recs : list Record_) (A : ADb) (d : DB) (r : res ()) : Prop :=
  (r = Ok () /\ exists G, db_rep G d (effects recs A)) \/ (Exists wide_put recs /\ exists e, r = Err e).

Lemma apply_records_ok recs d A G : db_rep G d A -> records_fit A recs -> wp (apply_records recs) d (redone recs A).
Proof.
  revert d A G. induction recs as [|rec recs IH]; intros d A G Hd Hf.
  - apply wp_ret. left. split; [done|by exists G].
  - destruct Hf as [Hrec Hf]. apply wp_bind. eapply wp_mono; [by apply (apply_record_ok rec d A G)|]. cbn.
    intros d1 r [[-> [G1 H1]]|[Hw [e ->]]].
    + eapply wp_mono; [by apply (IH d1 (effect rec A) G1)|]. intros d2 r2 [Hok|[Hw He]]; [by left|right]. split; [by right|done].
    + right. split; [by left|by exists e].
Qed.

(** The records of committed transactions, in the order they are applied. *)
Fixpoint batches (pending : gmap Z (list Record_)) (recs : list Record_) : list Record_ :=
  match recs with
  | [] => []
  | RCommit txn _ :: recs => default [] (pending !! txn) ++ batches (delete txn pending) recs
  | other :: recs => batches (<[txn_of other := default [] (pending !! txn_of other) ++ [other]]> pending) recs
  end.

Lemma each_app {S A} (f : A -> SM S ()) l1 l2 s : each f (l1 ++ l2) s = (_ ← each f l1; each f l2) s.
Proof.
  revert s. induction l1 as [|x l1 IH]; intros s; [done|]. cbn [app each]. unfold mbind, sm_bind in *.
  destruct (f x s) as [[s1 [u|e|]]| |]; [apply IH|done..].
Qed.

Lemma redo_batches recs pending (d : DB) : redo pending recs d = apply_records (batches pending recs) d.
Proof.
  revert pending d. induction recs as [|rec recs IH]; intros pending d; [done|]. destruct rec; cbn [redo batches]; try apply IH.
  unfold apply_records. rewrite each_app. unfold mbind, sm_bind. destruct (pending !! txn) as [batch|]; cbn [default from_option id]; [|apply IH].
  unfold apply_records, id. destruct (each apply_record batch d) as [[d1 [u|e|]]| |]; [apply IH|done..].
Qed.

(** ** Counters and foreign-key indexes *)

Lemma refresh_keeps (t : Tbl) rows F : table_rep (HP := framed F) t rows ->
  wp refresh_auto_inc t (fun t' r => r = Ok () /\ keeps (HP := framed F) t rows t' /\ t_indexes t' = t_indexes t /\ t_pool t' = t_pool t).
Proof.
  intros (m & pm & H). unfold refresh_auto_inc. apply wp_gets. destruct (t_auto_inc t) as [st|]; [|apply wp_ret; split_and!; [done|split; [done|by exists m, pm]|done..]].
  destruct (trange_ok (t_tree t) m None true None true (r_tree _ _ _ _ H) I) as (kvs & Hr & _).
  apply wp_bind. unfold wp at 1, tree_range, on_tree. rewrite Hr. cbn [mbind out_bind mret out_ret].
  replace (set_tree (t_tree t) t) with t by by destruct t. unfold wp, modify. split_and!; [done| |done..].
  split; [done|]. exists m, pm. destruct H. by split.
Qed.

Lemma free_name_taken fuel column l auto n :
  free_name fuel column l auto n = None ->
  Forall (fun a => named a l = true) (auto :: ((fun i => str "fk_" ++ column ++ str "_" ++ show_Z i) <$> seqZ n (Z.of_nat fuel))).
Proof.
  revert auto n. induction fuel as [|fuel IH]; intros auto n; cbn [free_name].
  - destruct (named auto l) eqn:E; [|done]. intros _. by constructor.
  - destruct (named auto l) eqn:E; [|done]. intros H. constructor; [done|]. apply IH in H.
    rewrite seqZ_cons by lia. replace (Z.pred (Z.of_nat (S fuel))) with (Z.of_nat fuel) by lia. rewrite <- Z.add_1_r. exact H.
Qed.

Lemma show_Z_inj a b : 0 <= a -> 0 <= b -> show_Z a = show_Z b -> a = b.
Proof.
  intros Ha Hb E. unfold show_Z in E. rewrite !(proj2 (Z.ltb_ge _ 0)) in E by lia.
  rewrite <- (proj2 (digits_spec a Ha)), <- (proj2 (digits_spec b Hb)). by rewrite E.
Qed.

(** One of the first [length l + 1] names is free. *)
Lemma auto_name_free column l : exists a, auto_name column l = Some a /\ named a l = false.
Proof.
  assert (Hfree : forall fuel auto n a, free_name fuel column l auto n = Some a -> named a l = false).
  { induction fuel as [|fuel IH]; intros auto n a; cbn [free_name]; destruct (named auto l) eqn:E; try done; [by intros [= <-]|apply IH|by intros [= <-]]. }
  unfold auto_name. destruct (free_name _ _ _ _ _) as [a|] eqn:E; [exists a; split; [done|by eapply Hfree]|].
  apply free_name_taken in E. set (names := _ :: _) in E. exfalso.
  assert (Hnd : NoDup names).
  { subst names. constructor.
    - rewrite list_elem_of_fmap. intros (i & Hi & _). apply (f_equal length) in Hi. rewrite !length_app in Hi. cbn in Hi. lia.
    - apply NoDup_fmap_2_strong; [|apply NoDup_seqZ]. intros x y Hx Hy H. apply elem_of_seqZ in Hx, Hy.
      apply app_inv_head, app_inv_head, app_inv_head in H. apply show_Z_inj; [lia|lia|done]. }
  assert (Hsub : names ⊆ idx_name <$> l).
  { intros a Ha. rewrite Forall_forall in E. specialize (E a Ha). unfold named in E. apply existsb_exists in E as (i & Hi & He).
    apply bool_decide_eq_true in He. apply list_elem_of_fmap. exists i. split; [done|by apply list_elem_of_In]. }
  pose proof (submseteq_length _ _ (NoDup_submseteq _ _ Hnd Hsub)) as Hlen. subst names. cbn [length] in Hlen.
  rewrite !length_fmap, length_seqZ in Hlen. lia.
Qed.

Lemma named_can_index a name column c : index_of (a_schema a) column = Some c -> c <> pk_idx (a_schema a) -> named name (a_indexes a) = false ->
  can_index a name column = true.
Proof. intros Hc Hp Hn. unfold can_index. rewrite Hc, Hn. rewrite (proj2 (Z.eqb_neq _ _) Hp). done. Qed.

Lemma fk_ensure_atable F fk t a : atable F t a ->
  wp (fk_ensure fk) t (fun t' r => match fk_index a fk with Ok a' => r = Ok () /\ atable F t' a' | Err e => exists e', r = Err e' | Panic => False end).
Proof.
  intros Hat. pose proof Hat as (Hp & Hd & Hi & Hr). unfold fk_ensure, fk_index, a_schema. apply wp_gets. cbn [id]. rewrite Hd, Hi.
  destruct (bool_decide _) eqn:Epk; [apply wp_ret; by split|]. destruct (covered _ _) eqn:Ec; [apply wp_ret; by split|].
  destruct (auto_name_free (fk_column fk) (a_indexes a)) as (auto & -> & Hfree). eapply wp_mono; [by apply add_index_atable|]. cbn.
  intros t' r Hres. destruct (index_of (td_schema (a_def a)) (fk_column fk)) as [c|] eqn:Eidx.
  - rewrite (named_can_index a auto (fk_column fk) c) in Hres; [by destruct Hres|done| |done].
    apply bool_decide_eq_false in Epk. unfold a_schema. congruence.
  - unfold can_index, a_schema in Hres. rewrite Eidx in Hres. by destruct Hres.
Qed.

Lemma fk_index_def a fk a' : fk_index a fk = Ok a' -> a_def a' = a_def a /\ a_rows a' = a_rows a.
Proof.
  unfold fk_index. destruct (bool_decide _); [by intros [= <-]|]. destruct (covered _ _); [by intros [= <-]|].
  destruct (auto_name _ _); [|done]. destruct (index_of _ _); [|done]. by intros [= <-].
Qed.

Lemma fk_ensure_all_atable F fks t a : atable F t a ->
  wp (each fk_ensure fks) t (fun t' r => match fk_indexes a fks with Ok a' => r = Ok () /\ atable F t' a' | Err e => exists e', r = Err e' | Panic => False end).
Proof.
  revert t a. induction fks as [|fk fks IH]; intros t a Hat; cbn [each fk_indexes]; [apply wp_ret; by split|].
  apply wp_bind. eapply wp_mono; [by apply (fk_ensure_atable F fk t a)|]. cbn. intros t1 r.
  destruct (fk_index a fk) as [a1|e|]; [|by intros [e' ->]; exists e'|done]. intros [-> H1]. by apply IH.
Qed.

Lemma fk_ensure_auto_atable F t a : atable F t a ->
  wp fk_ensure_auto_indexes t (fun t' r => match fk_indexes a (td_foreign_keys (a_def a)) with
    | Ok a' => r = Ok () /\ atable F t' a' | Err e => exists e', r = Err e' | Panic => False end).
Proof. intros Hat. pose proof Hat as (_ & Hd & _). unfold fk_ensure_auto_indexes. apply wp_gets. cbn [id]. rewrite Hd. by apply fk_ensure_all_atable. Qed.

(** An operation on every table, where [f] says what it makes of a table. *)
Definition ok_or {A} (f : A -> res A) (a : A) : A := match f a with Ok a' => a' | _ => a end.

Definition computes (op : SM Tbl ()) (f : ATable -> res ATable) : Prop := forall F t a, atable F t a ->
  wp op t (fun t' r => match f a with Ok a' => r = Ok () /\ atable F t' a' | Err e => exists e', r = Err e' | Panic => False end).

Definition fails_on (f : ATable -> res ATable) (names : list bytes) (m : gmap bytes ATable) : Prop :=
  exists n a e, n ∈ names /\ m !! n = Some a /\ f a = Err e.

Lemma each_on_table op f names d A G :
  computes op f -> db_rep G d A -> NoDup names ->
  wp (each (fun n => on_table n op) names) d (fun d' r =>
    (r = Ok () /\ exists G', db_rep G' d' (on_tables (fold_left (fun m n => alter (ok_or f) n m) names) A)) \/
    (fails_on f names (a_tables A) /\ exists e, r = Err e)).
Proof.
  intros Hop Hd Hnd. revert d A G Hd. induction names as [|n names IH]; intros d A G Hd; cbn [each fold_left].
  - apply wp_ret. left. split; [done|]. exists G. by destruct A.
  - apply NoDup_cons in Hnd as [Hn Hnd]. apply wp_bind.
    eapply wp_mono; [apply (on_table_alter n op d A G (ok_or f) (fails_on f (n :: names) (a_tables A)) Hd)|].
    + intros F t a Ha Hat. eapply wp_mono; [by apply Hop|]. cbn. intros t' r Hr. unfold ok_or.
      destruct (f a) as [a'|e|] eqn:Ef; [by left|right; split; [exists n, a, e; set_solver|done]|done].
    + cbn. intros d1 r [[-> [G1 H1]]|[HE [e ->]]]; [|right; split; [done|by exists e]]. eapply wp_mono; [by apply (IH Hnd d1 (on_tables (alter (ok_or f) n) A) G1)|]. cbn. unfold fails_on.
      intros d2 r2 [Hok|[(n2 & a2 & e2 & Hn2 & Ha2 & He2) HE]]; [by left|right]. split; [|done]. exists n2, a2, e2.
      rewrite lookup_alter_ne in Ha2 by set_solver. set_solver.
Qed.

Lemma alter_all {A} (g : A -> A) (names : list bytes) (m : gmap bytes A) :
  NoDup names -> (forall n, is_Some (m !! n) -> n ∈ names) -> fold_left (fun m n => alter g n m) names m = g <$> m.
Proof.
  intros Hnd Hall. apply map_eq. intros k. rewrite lookup_fmap.
  assert (Hk : forall (names : list bytes) (m : gmap bytes A), NoDup names ->
    fold_left (fun m n => alter g n m) names m !! k = if decide (k ∈ names) then g <$> m !! k else m !! k).
  { clear. induction names as [|n names IH]; intros m Hnd; cbn; [done|]. apply NoDup_cons in Hnd as [Hn Hnd]. rewrite IH by done.
    destruct (decide (k = n)) as [->|Hne]; [rewrite lookup_alter_eq|rewrite lookup_alter_ne by done]; repeat case_decide; set_solver. }
  rewrite Hk by done. case_decide as Hin; [done|]. destruct (m !! k) as [x|] eqn:E; [|done]. destruct Hin. apply Hall. by eexists.
Qed.

Context (Horder : forall m, hash_order m ≡ₚ (map_to_list m).*1).

Lemma hash_order_nodup m : NoDup (hash_order m).
Proof. rewrite Horder. apply NoDup_fst_map_to_list. Qed.

Lemma hash_order_elem m n : n ∈ hash_order m <-> is_Some (m !! n).
Proof.
  rewrite Horder, list_elem_of_fmap. split.
  - intros ([k v] & -> & H). apply elem_of_map_to_list in H. by eexists.
  - intros [v Hv]. exists (n, v). split; [done|]. by apply elem_of_map_to_list.
Qed.

Lemma each_table_ok op f d A G :
  computes op f -> db_rep G d A ->
  wp (each_table hash_order op) d (fun d' r =>
    (r = Ok () /\ exists G', db_rep G' d' (on_tables (fmap (ok_or f)) A)) \/
    ((exists n a e, a_tables A !! n = Some a /\ f a = Err e) /\ exists e, r = Err e)).
Proof.
  intros Hop Hd. unfold each_table. apply wp_gets. eapply wp_mono; [apply (each_on_table op f _ d A G Hop Hd), hash_order_nodup|].
  cbn. intros d' r [[-> [G' H]]|[(n & a & e & _ & Hf) He]]; [left|right; split; [by exists n, a, e|done]].
  split; [done|]. exists G'. unfold on_tables in *. rewrite alter_all in H; [done|apply hash_order_nodup|].
  intros n Hn. apply hash_order_elem. apply elem_of_dom. rewrite (db_dom _ _ _ Hd). by apply elem_of_dom.
Qed.

Lemma refresh_computes : computes refresh_auto_inc Ok.
Proof.
  intros F t a (Hp & Hd & Hi & Hr). eapply wp_mono; [by apply (refresh_keeps t (a_rows a) F)|]. cbn.
  intros t' r (-> & [Hd' Hr'] & Hi' & Hp'). split; [done|]. unfold atable, secondary_indexes. rewrite Hp', Hd', Hi'. by split_and!.
Qed.

Lemma fk_computes : computes fk_ensure_auto_indexes (fun a => fk_indexes a (td_foreign_keys (a_def a))).
Proof. intros F t a. apply fk_ensure_auto_atable. Qed.

End spec.
