(* ===== verification/RecoveryLoad.v ===== *)
(** Loading a snapshot, and the checkpoint that wrote it: the rows a snapshot
    stores, inline or behind locators the pool still holds, are the rows of the
    database after it is loaded. *)
From stdpp Require Import base list gmap strings sorting.
From Stdlib Require Import ZArith Lia.
From S2P Require Import Prelude Machine Types TableDef WalCodec BTree BTreeRep BTreeScan BTreeSpec Page Kv Table TableSpec TableScan.
From S2P Require Import TableFrame RowRules Catalog Recovery RecoverySpec.
From S2P Require Cost.

(** * What a snapshot stores *)

(** The stored entries [kvs] of table [n] are the rows [rows]. *)
Record stores_rows (G : Owned) (n : bytes) (s : Schema) (kvs : list (bytes * bytes)) (rows : Rows) : Prop := {
  sr_nodup : NoDup kvs.*1;
  sr_row : forall k v, (k, v) ∈ kvs -> exists row, rows !! k = Some row /\ row_wf s row /\ row_key s row = Some k /\ stored_as (part n G) v row;
  sr_all : forall k, is_Some (rows !! k) -> k ∈ kvs.*1;
  sr_uniq : forall k1 k2 l, (k1, loc_encode l) ∈ kvs -> (k2, loc_encode l) ∈ kvs -> loc_wf l -> k1 = k2;
}.

Definition load_effect (A : ADb) (e : TableDef * Rows) : ADb :=
  mkADb (match Cost.split_once (td_name e.1) with Some (db, _) => {[db]} | None => ∅ end ∪ a_databases A)
    (<[td_name e.1 := mkATable e.1 (indexes_of e.1) e.2]> (a_tables A)).

Definition empty_db : ADb := mkADb {[str "default"]} ∅.

Definition snapshot_db (databases : list bytes) (tables : list (TableDef * Rows)) : ADb :=
  fold_left load_effect tables (mkADb (list_to_set databases ∪ {[str "default"]}) ∅).

(** The file holds the database [A], with wide rows in the pool contents [G]. *)
Definition snapshot_holds (G : Owned) (file : bytes) (A : ADb) : Prop := exists databases ts off,
  decode_snapshot file 0 = Ok ((databases, (fun e => (e.1.1, snap_rows e.1.2)) <$> ts), off) /\
  Forall (fun e : TableDef * list (bytes * bytes) * Rows => stores_rows G (td_name e.1.1) (td_schema e.1.1) e.1.2 e.2) ts /\
  A = snapshot_db databases ((fun e => (e.1.1, e.2)) <$> ts).

Section load.
Context {T P : Type} {KT : KvTree T} {HT : KvTreeOk T} {KP : Pool P} {HP : PoolOk P}.

Abbreviation Tbl := (@Table T P).
Abbreviation DB := (@Data T P).

(** ** One row *)

(** A stored entry is taken over as it is: a locator in it was live before. *)
Lemma rep_restore {H0 : PoolOk P} (t : Tbl) m pm rows key row val x p l :
  let s := td_schema (t_def t) in
  rep (HP := H0) t m pm rows -> row_wf s row -> row_key s row = Some key -> rows !! key = None -> stored_as pm val row ->
  (forall k lo, val = loc_encode lo -> loc_wf lo -> m !! k = Some val -> False) ->
  stored x (<[key := val]> m) -> pool_rep (HP := H0) p pm -> Forall (index_rep s (<[key := row]> rows)) l ->
  rep (HP := H0) (set_indexes l (set_pool p (set_tree x t))) (<[key := val]> m) pm (<[key := row]> rows).
Proof.
  intros s H Hr Hk Hn Hs Hu Hx Hp Hl. split; cbn -[loc_encode]; try done.
  - by apply rows_wf_insert; [apply H|..].
  - intros k' row' [[<- <-]|[Hne Hr']]%lookup_insert_Some; [exists val; by rewrite lookup_insert_eq|].
    rewrite lookup_insert_ne by done. by apply H.
  - intros k' [Hn' Hne]%lookup_insert_None. rewrite lookup_insert_ne by done. by apply H.
  - intros k1 k2 la [[<- H1]|[N1 H1]]%lookup_insert_Some [[<- H2]|[N2 H2]]%lookup_insert_Some Hla; [done|..].
    + subst val. by destruct (Hu k2 la).
    + subst val. by destruct (Hu k1 la).
    + by eapply (r_uniq _ _ _ _ H).
Qed.

Lemma restore_kv_ok {H0 : PoolOk P} (t : Tbl) m pm rows key row val :
  rep (HP := H0) t m pm rows -> row_wf (td_schema (t_def t)) row -> row_key (td_schema (t_def t)) row = Some key -> rows !! key = None ->
  stored_as pm val row -> (forall k lo, val = loc_encode lo -> loc_wf lo -> m !! k = Some val -> False) ->
  wp (restore_kv key val) t (fun t' r => r = Ok () /\ rep (HP := H0) t' (<[key := val]> m) pm (<[key := row]> rows)).
Proof.
  intros H Hr Hk Hn Hs Hu. destruct (row_pk t row key Hr Hk) as (Hu8 & pk & Hpk & Hdk & _).
  unfold restore_kv. apply wp_bind. apply (wp_decode_stored (HP := H0) t pm val row); [done|apply H|done|]. intros p Hp.
  apply (wp_key_of (set_pool p t) row key); [done|done|]. rewrite bool_decide_eq_true_2 by done. cbn [negb].
  apply wp_bind. eapply (wp_tree _ (set_pool p t)); [apply (tupsert_ok _ m); [apply H|done]|]. intros x Hx. cbn beta.
  apply wp_gets. cbn [t_indexes set_tree set_pool]. destruct (t_indexes t) as [|y l0] eqn:Ei.
  - apply wp_ret. split; [done|].
    pose proof (rep_restore t m pm rows key row val x p [] H Hr Hk Hn Hs Hu Hx Hp ltac:(constructor)) as Hrep.
    unfold set_indexes in Hrep. rewrite <- Ei in Hrep. exact Hrep.
  - apply (wp_lift _ pk); [done|]. apply (wp_indexes rows (<[key := row]> rows)); [apply H| |].
    + intros z Hz. eapply index_put_ok; (done || apply H).
    + intros l Hl. split; [done|]. by apply rep_restore.
Qed.

(** ** One table *)

Lemma load_rows_ok {H0 : PoolOk P} (kvs : list (bytes * bytes)) (rows : Rows) pm : forall (t : Tbl) m (rows0 : Rows),
  rep (HP := H0) t m pm rows0 -> NoDup kvs.*1 ->
  (forall k v, (k, v) ∈ kvs -> rows0 !! k = None /\ exists row, rows !! k = Some row /\ row_wf (td_schema (t_def t)) row /\
     row_key (td_schema (t_def t)) row = Some k /\ stored_as pm v row) ->
  (forall k1 k2 l, (k1, loc_encode l) ∈ kvs -> (k2, loc_encode l) ∈ kvs -> loc_wf l -> k1 = k2) ->
  (forall k k' l, (k, loc_encode l) ∈ kvs -> loc_wf l -> m !! k' = Some (loc_encode l) -> False) ->
  wp (each load_row (snap_rows kvs)) t (fun t' r => r = Ok () /\ exists m' rows', rep (HP := H0) t' m' pm rows' /\
    forall k, rows' !! k = if decide (k ∈ kvs.*1) then rows !! k else rows0 !! k).
Proof.
  induction kvs as [|[k v] kvs IH]; intros t m rows0 H Hnd Hrow Hu Hm; cbn [snap_rows fmap list_fmap each].
  - apply wp_ret. split; [done|]. exists m, rows0. split; [done|]. intros k. by rewrite decide_False by set_solver.
  - apply NoDup_cons in Hnd as [Hk Hnd]. destruct (Hrow k v ltac:(left)) as (Hn & row & Hrs & Hw & Hkey & Hst).
    apply wp_bind. unfold load_row at 1. cbn [sr_key sr_value].
    assert (Hone : wp (restore_kv k v) t (fun t' r => r = Ok () /\ rep (HP := H0) t' (<[k := v]> m) pm (<[k := row]> rows0))).
    { apply restore_kv_ok; try done. intros k' lo -> Hlo Hmk. by eapply (Hm k k' lo); [left|done|]. }
    eapply wp_mono; [apply (wp_frames shape_indexes _ t); [apply frames_restore_kv, _|exact Hone]|]. cbn. intros t1 r [[-> H1] [[Hd _] _]]. eapply wp_mono; [apply (IH t1 (<[k := v]> m) (<[k := row]> rows0) H1 Hnd)|].
    + intros k' v' Hin. rewrite Hd. destruct (Hrow k' v' ltac:(by right)) as (Hn' & Hex). split; [|done].
      rewrite lookup_insert_ne; [done|]. intros <-. destruct Hk. apply list_elem_of_fmap. by exists (k, v').
    + intros k1 k2 l H1' H2'. apply Hu; by right.
    + intros k1 k2 l Hin Hl. destruct (decide (k2 = k)) as [->|Hne].
      * rewrite lookup_insert_eq. intros [= ->]. destruct Hk. apply list_elem_of_fmap.
        rewrite (Hu k k1 l ltac:(left) ltac:(by right) Hl). by exists (k1, loc_encode l).
      * rewrite lookup_insert_ne by done. apply (Hm k1 k2 l); [by right|done].
    + cbn. intros t2 r (-> & m' & rows' & Hrep & Hrows). split; [done|]. exists m', rows'. split; [done|]. intros k'.
      rewrite Hrows. destruct (decide (k' = k)) as [->|Hne].
      * rewrite (decide_True (P := k ∈ k :: kvs.*1)) by left. rewrite decide_False by done. by rewrite lookup_insert_eq.
      * rewrite lookup_insert_ne by done. repeat case_decide; set_solver.
Qed.

Lemma frames_load_rows (l : list SnapRow) : frames shape_indexes (each (load_row (T := T) (P := P)) l).
Proof.
  induction l as [|x l IH]; cbn [each]; [apply frames_ret, _|]. apply frames_bind; [apply _| |done].
  unfold load_row. destruct (sr_key x); [apply frames_restore_kv, _|apply frames_restore_raw, _].
Qed.

(** A table of the database when only the state of the pool has changed. *)
Lemma tab_rep_repool G n p p' t a : holds p' (snd <$> G) -> tab_rep G n p t a -> tab_rep G n p' t a.
Proof.
  intros Hh [H1 H2 H3 (m & H4)]. split; [done|done|done|]. exists m.
  eapply (rep_repool (H1 := framed _) (H2 := framed _)); [exact H4|]. split; [apply part_disjoint|by rewrite part_rest].
Qed.

Lemma stores_load G n s kvs rows (t : Tbl) p :
  stores_rows G n s kvs rows -> td_schema (t_def t) = s -> rep (HP := framed (rest n G)) (set_pool (Some p) t) ∅ (part n G) ∅ ->
  wp (each load_row (snap_rows kvs)) (set_pool (Some p) t) (fun t' r =>
    r = Ok () /\ exists m, rep (HP := framed (rest n G)) t' m (part n G) rows).
Proof.
  intros [S1 S2 S3 S4] Hs H. eapply wp_mono; [apply (load_rows_ok kvs rows (part n G) _ ∅ ∅ H S1)|].
  - intros k v Hin. split; [done|]. cbn. rewrite Hs. by apply S2.
  - done.
  - intros k k' l _ _ Hl. by rewrite lookup_empty in Hl.
  - cbn. intros t' r (-> & m' & rows' & Hrep & Hrows). split; [done|]. exists m'. replace rows with rows'; [done|].
    apply map_eq. intros k. rewrite Hrows, lookup_empty. case_decide as Hin; [done|].
    destruct (rows !! k) eqn:E; [|done]. destruct Hin. apply S3. by eexists.
Qed.

Lemma load_table_ok (G : Owned) def kvs rows d A :
  db_rep G d A -> stores_rows G (td_name def) (td_schema def) kvs rows ->
  wp (load_table (def, snap_rows kvs)) d (fun d' r => r = Ok () /\ db_rep G d' (load_effect A (def, rows))).
Proof.
  intros [D1 D2 D3 D4] Hs. pose proof (tab_rep_new (T := T) G (td_name def) (d_pool d) def D1) as [_ _ _ (m0 & H0)].
  unfold wp, load_table, load_effect. cbn [fst snd].
  set (d1 := match Cost.split_once (td_name def) with Some (db, _) => add_database db d | None => d end).
  assert (Hd1 : d_pool d1 = d_pool d /\ d_tables d1 = d_tables d /\ d_databases d1 =
     match Cost.split_once (td_name def) with Some (db, _) => {[db]} | None => ∅ end ∪ a_databases A).
  { subst d1. destruct (Cost.split_once _) as [[db ?]|]; cbn; (split_and!; [done|done|]); rewrite D2; [done|by rewrite (left_id_L ∅ (∪))]. }
  destruct Hd1 as (Hp1 & Ht1 & Hn1). cbv zeta. rewrite Hp1.
  assert (Hrep0 : rep (HP := framed (rest (td_name def) G)) (set_pool (Some (d_pool d)) (table_new def)) ∅ (part (td_name def) G) ∅).
  { destruct H0 as [R1 R2 R3 R4 R5 R6 R7]. split; try done. apply stored_new. }
  pose proof (wp_frames shape_indexes _ _ _ (frames_load_rows (snap_rows kvs)) (stores_load G (td_name def) _ kvs rows (table_new def) _ Hs eq_refl Hrep0)) as Hw.
  unfold lend, wp in Hw |- *. destruct (each load_row (snap_rows kvs) _) as [[t' r]| |]; [|done|done].
  destruct Hw as [[-> (m & Hrep)] [[S1 S2] S3]]. destruct (S2 ltac:(by eexists)) as [p' Hp']. cbn [mbind out_bind mret out_ret]. rewrite Hp'.
  cbn [default from_option]. split; [done|]. pose proof (r_pool _ _ _ _ Hrep) as Hpool. rewrite Hp' in Hpool. destruct Hpool as [_ Hh].
  rewrite part_rest in Hh. split; cbn; [done|done|by rewrite Ht1, !dom_insert_L, D3|].
  intros n2 t2 a2 [[<- <-]|[Hne H2]]%lookup_insert_Some.
  - rewrite lookup_insert_eq. intros [= <-]. split; [done|done|by rewrite <- (indexes_of_new (T := T) (P := P))|]. exists m.
    replace (set_pool (Some p') (set_pool None t')) with t'; [done|]. destruct t'. cbn in *. by subst.
  - rewrite lookup_insert_ne by done. rewrite Ht1 in H2. intros E2. eapply tab_rep_repool; [done|by apply (D4 n2)].
Qed.

(** ** The whole file *)

Lemma load_tables_ok (G : Owned) (ts : list (TableDef * list (bytes * bytes) * Rows)) : forall (d : DB) A,
  db_rep G d A -> Forall (fun e => stores_rows G (td_name e.1.1) (td_schema e.1.1) e.1.2 e.2) ts ->
  wp (each load_table ((fun e => (e.1.1, snap_rows e.1.2)) <$> ts)) d (fun d' r =>
    r = Ok () /\ db_rep G d' (fold_left load_effect ((fun e => (e.1.1, e.2)) <$> ts) A)).
Proof.
  induction ts as [|[[def kvs] rows] ts IH]; intros d A Hd Hs; cbn [fmap list_fmap each fold_left fst snd]; [by apply wp_ret|].
  apply Forall_cons in Hs as [Hx Hs]. apply wp_bind. eapply wp_mono; [by apply (load_table_ok G def kvs rows d A)|]. cbn.
  intros d1 r [-> H1]. by apply IH.
Qed.

Lemma add_databases_ok (G : Owned) (dbs : list bytes) : forall (d : DB) A, db_rep G d A ->
  wp (each (fun db => modify (add_database db)) dbs) d (fun d' r => r = Ok () /\ db_rep G d' (mkADb (list_to_set dbs ∪ a_databases A) (a_tables A))).
Proof.
  induction dbs as [|db dbs IH]; intros d A Hd; cbn [each].
  - apply wp_ret. split; [done|]. cbn. rewrite (left_id_L ∅ (∪)). by destruct A.
  - apply wp_bind. unfold wp at 1, modify. eapply wp_mono; [apply (IH _ (mkADb ({[db]} ∪ a_databases A) (a_tables A)))|].
    + destruct Hd as [D1 D2 D3 D4]. split; cbn; [done|by rewrite D2|done|done].
    + cbn. intros d' r [-> H]. split; [done|]. replace ({[db]} ∪ list_to_set dbs ∪ a_databases A) with (list_to_set dbs ∪ ({[db]} ∪ a_databases A)) by set_solver.
      done.
Qed.

Lemma load_snapshot_ok (G : Owned) file (d : DB) A :
  db_rep G d empty_db -> snapshot_holds G file A -> wp (load_snapshot file) d (fun d' r => r = Ok () /\ db_rep G d' A).
Proof.
  intros Hd (dbs & ts & off & Hdec & Hs & ->). unfold load_snapshot. apply (wp_lift _ _ _ _ _ Hdec). cbn [fst snd].
  apply wp_bind. eapply wp_mono; [by apply (add_databases_ok G dbs)|]. cbn [empty_db a_databases a_tables].
  intros d1 r [-> H1]. by apply load_tables_ok.
Qed.

(** * Checkpoints *)

(** What the checkpoint writes of a table holds its rows. *)
Lemma scan_stores G n p (t : Tbl) a : tab_rep G n p t a ->
  exists kvs, trange (t_tree t) None true None true = Ret kvs /\ stores_rows G n (a_schema a) kvs (a_rows a).
Proof.
  intros [H1 H2 H3 (m & H4)]. destruct (trange_ok (t_tree t) m None true None true (r_tree _ _ _ _ H4) I) as (kvs & Hr & Hs & Hm).
  rewrite filter_id in Hr by (apply Forall_forall; done). exists kvs. split; [done|].
  assert (Hin : forall k v, (k, v) ∈ kvs <-> m !! k = Some v) by (intros k v; rewrite <- Hm; by apply to_map_elem).
  split.
  - by apply (sorted_nodup klt).
  - intros k v Hkv%Hin. destruct (a_rows a !! k) as [row|] eqn:E; [|by rewrite (r_none _ _ _ _ H4 k E) in Hkv].
    exists row. destruct (r_some _ _ _ _ H4 k row E) as (raw & Hraw & Hst). rewrite Hkv in Hraw. injection Hraw as <-.
    destruct (r_rows _ _ _ _ H4 k row E) as [Hw Hk]. cbn in Hw, Hk. rewrite H2 in Hw, Hk. by split_and!.
  - intros k [row E]. destruct (r_some _ _ _ _ H4 k row E) as (raw & Hraw & _). apply Hin in Hraw. apply list_elem_of_fmap. by exists (k, raw).
  - intros k1 k2 l Hk1%Hin Hk2%Hin Hl. by eapply (r_uniq _ _ _ _ H4).
Qed.

End load.
