(* ===== verification/RecoveryLog.v ===== *)
(** Crash recovery and checkpoints end to end: a log is a sequence of committed
    transactions cut anywhere; what an open makes of it, and of a checkpoint;
    and two histories across a restart that lose the promise. *)
From stdpp Require Import base list gmap strings sorting.
From Stdlib Require Import ZArith Lia.
From S2P Require Import Prelude Machine Types TableDef WalCodec BTree BTreeRep BTreeScan BTreeSpec Page Kv Table TableSpec TableScan.
From S2P Require Import TableFrame RowRules Catalog Recovery RecoverySpec RecoveryLoad.

(** * Transactions in the log *)

(** One commit appends the records of the transaction and its commit record in
    one batch (append_records). *)
Record Txn := mkTxn { x_id : Z; x_body : list Record_; x_ts : option Z }.

Definition txn_records (x : Txn) : list Record_ := x_body x ++ [RCommit (x_id x) (x_ts x)].

Definition is_commit (rec : Record_) : bool := match rec with RCommit _ _ => true | _ => false end.

Definition body_of (id : Z) (rec : Record_) : Prop := txn_of rec = id /\ is_commit rec = false.

Definition txn_wf (x : Txn) : Prop := Forall record_wf (txn_records x) /\ Forall (body_of (x_id x)) (x_body x).

Definition log_of (txns : list Txn) : list Record_ := mjoin (txn_records <$> txns).

(** The transactions whose records lie entirely inside the first [n] bytes. *)
Fixpoint committed (n : Z) (txns : list Txn) : list Txn :=
  match txns with
  | [] => []
  | x :: txns =>
    let len := Zlen (log_bytes (txn_records x)) in
    if len <=? n then x :: committed (n - len) txns else []
  end.

(** The records they redo, as they are read back. *)
Definition redo_list (txns : list Txn) : list Record_ := reread_record <$> mjoin (x_body <$> txns).

Lemma log_bytes_app a b : log_bytes (a ++ b) = log_bytes a ++ log_bytes b.
Proof. unfold log_bytes. rewrite fmap_app. apply join_app. Qed.

Lemma complete_app n a b : complete n (a ++ b) =
  if Zlen (log_bytes a) <=? n then a ++ complete (n - Zlen (log_bytes a)) b else complete n a.
Proof.
  revert n. induction a as [|r a IH]; intros n; cbn [app complete].
  - change (Zlen (log_bytes [])) with 0. destruct (Z.leb_spec 0 n); [by rewrite Z.sub_0_r|].
    destruct b as [|r b]; cbn [complete]; [done|]. destruct (Z.leb_spec (Zlen (encode_record r)) n); [lia|done].
  - rewrite log_bytes_cons, Zlen_app, IH. destruct (Z.leb_spec (Zlen (encode_record r)) n) as [Hr|Hr]; zb.
    + destruct (Z.leb_spec (Zlen (log_bytes a)) (n - Zlen (encode_record r))); zb; [|done].
      by rewrite Z.sub_add_distr.
    + by destruct (Z.leb_spec (Zlen (encode_record r) + Zlen (log_bytes a)) n); [lia|].
Qed.

Lemma complete_all l : complete (Zlen (log_bytes l)) l = l.
Proof.
  induction l as [|r l IH]; [done|]. cbn [complete]. rewrite log_bytes_cons, Zlen_app. zb. f_equal. by rewrite Z.add_simpl_l.
Qed.

(** A cut inside a transaction leaves records of its body only. *)
Lemma complete_partial n x : n < Zlen (log_bytes (txn_records x)) -> exists l, complete n (txn_records x) = l /\ l `prefix_of` x_body x.
Proof.
  intros Hn. unfold txn_records in *. rewrite complete_app. rewrite log_bytes_app, Zlen_app in Hn.
  destruct (Z.leb_spec (Zlen (log_bytes (x_body x))) n) as [Hle|Hgt].
  - cbn [complete]. assert (Zlen (log_bytes [RCommit (x_id x) (x_ts x)]) = Zlen (encode_record (RCommit (x_id x) (x_ts x)))) as E.
    { unfold log_bytes. cbn [fmap list_fmap mjoin list_join]. by rewrite app_nil_r. }
    rewrite E in Hn. zb. rewrite app_nil_r. by eexists.
  - eexists. split; [done|]. clear Hn. revert n Hgt. induction (x_body x) as [|r l IH]; intros n Hgt; cbn [complete]; [done|].
    rewrite log_bytes_cons, Zlen_app in Hgt. destruct (_ <=? _); [|apply prefix_nil]. apply prefix_cons, IH. lia.
Qed.

Lemma reread_body id rec : body_of id rec -> body_of id (reread_record rec).
Proof. by destruct rec. Qed.

Lemma batches_body tx pending body recs : Forall (body_of tx) body ->
  batches pending (body ++ recs) =
  batches (match body with [] => pending | _ => <[tx := default [] (pending !! tx) ++ body]> pending end) recs.
Proof.
  intros Hb. revert pending. induction Hb as [|rec body [Ht Hc] Hb IH]; intros pending; [done|]. cbn [app].
  assert (batches pending (rec :: body ++ recs) = batches (<[tx := default [] (pending !! tx) ++ [rec]]> pending) (body ++ recs)) as ->.
  { rewrite <- Ht. by destruct rec. }
  rewrite IH. destruct body as [|rec' body]; [done|]. rewrite lookup_insert_eq, insert_insert_eq. cbn [default from_option id]. by rewrite <- app_assoc.
Qed.

Lemma batches_body_ne tx pending body recs : Forall (body_of tx) body -> body <> [] ->
  batches pending (body ++ recs) = batches (<[tx := default [] (pending !! tx) ++ body]> pending) recs.
Proof. intros Hb Hne. rewrite (batches_body tx) by done. by destruct body. Qed.

Lemma batches_txn pending x recs : Forall (body_of (x_id x)) (x_body x) -> pending !! x_id x = None ->
  batches pending ((reread_record <$> txn_records x) ++ recs) = (reread_record <$> x_body x) ++ batches pending recs.
Proof.
  intros Hb Hn. unfold txn_records. rewrite fmap_app, <- app_assoc.
  rewrite (batches_body (x_id x)) by (apply Forall_fmap; eapply Forall_impl; [exact Hb|apply reread_body]).
  change (reread_record <$> [RCommit (x_id x) (x_ts x)]) with [RCommit (x_id x) (x_ts x)].
  destruct (x_body x) as [|r body]; cbn -[reread_record].
  - by rewrite Hn, delete_id.
  - rewrite lookup_insert_eq. cbn -[reread_record]. by rewrite delete_insert_eq, delete_id, Hn.
Qed.

Lemma batches_txns pending txns recs : Forall txn_wf txns -> Forall (fun x => pending !! x_id x = None) txns ->
  batches pending ((reread_record <$> log_of txns) ++ recs) = redo_list txns ++ batches pending recs.
Proof.
  intros Hwf Hp. induction Hwf as [|x txns [_ Hb] _ IH]; [done|]. apply Forall_cons in Hp as [Hx Hp].
  unfold log_of, redo_list. cbn [fmap list_fmap mjoin list_join]. rewrite !fmap_app, <- !app_assoc, batches_txn by done.
  f_equal. by apply IH.
Qed.

Lemma batches_partial id body : Forall (body_of id) body -> batches ∅ body = [].
Proof. intros Hb. rewrite <- (app_nil_r body), (batches_body id) by done. by destruct body. Qed.

(** Redo applies exactly the transactions that are complete. *)
Lemma batches_committed txns n : Forall txn_wf txns ->
  batches ∅ (reread_record <$> complete n (log_of txns)) = redo_list (committed n txns).
Proof.
  intros Hwf. revert n. induction Hwf as [|x txns [_ Hb] _ IH]; intros n; [done|].
  unfold log_of. cbn [fmap list_fmap mjoin list_join]. rewrite complete_app. cbn [committed].
  destruct (Z.leb_spec (Zlen (log_bytes (txn_records x))) n) as [Hle|Hgt].
  - rewrite fmap_app, batches_txn by done || apply lookup_empty. fold (log_of txns). rewrite IH. unfold redo_list. cbn [fmap list_fmap mjoin list_join]. by rewrite fmap_app.
  - destruct (complete_partial n x Hgt) as (l & -> & k & Hk). apply (batches_partial (x_id x)). apply Forall_fmap.
    rewrite Hk in Hb. apply Forall_app in Hb as [Hb _]. eapply Forall_impl; [exact Hb|apply reread_body].
Qed.

Lemma log_of_wf txns : Forall txn_wf txns -> Forall record_wf (log_of txns).
Proof. induction 1 as [|x txns [Hx _] _ IH]; [constructor|]. unfold log_of. cbn. apply Forall_app. by split. Qed.

(** The log file of these transactions, of which a crash left [n] bytes after the
    header. *)
Definition crashed_log (txns : list Txn) (n : nat) : bytes := wal_header ++ take n (log_bytes (log_of txns)).

Lemma read_crashed txns n : Forall txn_wf txns -> (n <= length (log_bytes (log_of txns)))%nat ->
  read_all (crashed_log txns n) = Ok (reread_record <$> complete (Z.of_nat n) (log_of txns)).
Proof.
  intros Hwf Hn. unfold crashed_log. rewrite read_all_header. unfold decode_wal_range.
  rewrite complete_prefix; [done|by apply log_of_wf|rewrite length_take; lia|done].
Qed.

(** * Opening *)

Lemma fk_indexes_err a fks e : fk_indexes a fks = Err e -> Forall (fun fk => is_Some (index_of (a_schema a) (fk_column fk))) fks -> False.
Proof.
  revert a. induction fks as [|fk fks IH]; intros a He Hf; [done|]. apply Forall_cons in Hf as [[c Hc] Hf]. cbn in He.
  destruct (fk_index a fk) as [a1|e1|] eqn:E1; cbn in He; try done.
  - apply fk_index_def in E1 as [Hd _]. apply (IH a1 He). unfold a_schema in *. by rewrite Hd.
  - unfold fk_index in E1. destruct (bool_decide _); [done|]. destruct (covered _ _); [done|]. destruct (auto_name _ _); [|done].
    by rewrite Hc in E1.
Qed.

Section opening.
Context {T P : Type} {KT : KvTree T} {HT : KvTreeOk T} {KP : Pool P} {HP : PoolOk P}.
Context (hash_order : gmap bytes (@Table T P) -> list bytes) (Horder : forall m, hash_order m ≡ₚ (map_to_list m).*1).

Abbreviation DB := (@Data T P).

Definition initial (pool : P) : DB := mkData {[str "default"]} ∅ pool.

Lemma initial_rep G pool : holds pool (snd <$> G) -> db_rep G (initial pool) empty_db.
Proof. intros H. split; cbn; [done|done|by rewrite !dom_empty_L|]. intros n t a Ht. by rewrite lookup_empty in Ht. Qed.

(** What an open that has read [recs] makes of the database [A]. *)
Definition opened (A : ADb) (recs : list Record_) (d : DB) (r : res ()) : Prop :=
  (r = Ok () /\ exists G, db_rep G d (on_tables (fmap fk_indexed) (effects recs A))) \/
  ((exists e, r = Err e) /\ (Exists wide_put recs \/ ~ map_Forall (fun _ a => fk_columns_exist a) (a_tables (effects recs A)))).

Definition snapshot_is (G : Owned) (snapshot : option bytes) (A : ADb) : Prop :=
  match snapshot with Some file => snapshot_holds G file A | None => A = empty_db end.

Lemma open_ok snapshot wal recs pool G A :
  snapshot_is G snapshot A -> holds pool (snd <$> G) -> read_all wal = Ok recs -> records_fit A (batches ∅ recs) ->
  wp (open_data hash_order snapshot wal) (initial pool) (opened A (batches ∅ recs)).
Proof.
  intros Hsnap Hpool Hread Hfit. unfold open_data. apply (wp_then _ _ _ (fun d _ => db_rep G d A)).
  - destruct snapshot as [file|]; cbn in Hsnap.
    + eapply wp_mono; [by apply (load_snapshot_ok G file _ A); [apply initial_rep|]|]. cbn. intros d r [-> H]. by exists ().
    + subst A. apply wp_ret. exists (). split; [done|]. by apply initial_rep.
  - intros d1 _ H1. apply (wp_lift _ _ _ _ _ Hread). apply wp_bind. unfold wp at 1. rewrite redo_batches.
    eapply wp_mono; [by apply (apply_records_ok _ d1 A G)|]. cbn. intros d2 r [[-> [G2 H2]]|[Hw [e ->]]]; [|right; eauto].
    apply wp_bind. eapply wp_mono; [apply (each_table_ok hash_order Horder _ Ok d2 _ G2 refresh_computes H2)|]. cbn.
    intros d3 r [[-> [G3 H3]]|[(n & a & e & _ & He) _]]; [|done].
    assert (Hid : on_tables (fmap (ok_or Ok)) (effects (batches ∅ recs) A) = effects (batches ∅ recs) A).
    { destruct (effects _ A) as [dbs m]. unfold on_tables. cbn. f_equal. rewrite <- (map_fmap_id m) at 2. by apply map_fmap_ext. }
    rewrite Hid in H3. eapply wp_mono; [apply (each_table_ok hash_order Horder _ _ d3 _ G3 fk_computes H3)|]. cbn.
    intros d4 r [[-> H4]|[(n & a & e & Ha & He) Hr]]; [by left|right]. split; [done|]. right. intros Hall.
    eapply fk_indexes_err; [exact He|]. by apply (Hall n a).
Qed.

End opening.

(** C2: crash recovery.  Let the log hold transactions, each appended with its
    commit record, and let a crash leave any prefix of it.  Opening the database
    then yields exactly the snapshot (or the empty database) followed by the
    effects of the transactions whose commit record is complete, in commit
    order: rows, tables, indexes and databases, wide rows and the pool they live
    in included.  A transaction that is cut leaves no trace.  The open fails only
    when the pool refuses a wide row, or a foreign key names a missing column;
    it does not return only if a call on the trees does not. *)
Theorem recovery_keeps_committed {T P : Type} {KT : KvTree T} {HT : KvTreeOk T} {KP : Pool P} {HP : PoolOk P}
    (hash_order : gmap bytes (@Table T P) -> list bytes) (Horder : forall m, hash_order m ≡ₚ (map_to_list m).*1)
    snapshot (pool : P) G A txns n :
  snapshot_is G snapshot A -> holds pool (snd <$> G) ->
  Forall txn_wf txns -> (n <= length (log_bytes (log_of txns)))%nat ->
  records_fit A (redo_list (committed (Z.of_nat n) txns)) ->
  match open_database hash_order snapshot (crashed_log txns n) pool with
  | Ret (d, r) => opened A (redo_list (committed (Z.of_nat n) txns)) d r
  | Panics => False
  | Fuel => may_hang
  end.
Proof.
  intros Hs Hp Hwf Hn Hfit. rewrite <- (batches_committed txns (Z.of_nat n) Hwf) in Hfit |- *.
  by apply (open_ok hash_order Horder snapshot _ _ pool G A Hs Hp (read_crashed txns n Hwf Hn)).
Qed.

(** * A checkpoint, then an open *)

(** Tables are stored under their own name, indexes are on existing columns. *)
Definition table_keyed (n : bytes) (a : ATable) : Prop :=
  td_name (a_def a) = n /\ Forall (fun i => is_Some (index_of (a_schema a) (idx_column i))) (a_indexes a).

Definition keyed (A : ADb) : Prop := map_Forall table_keyed (a_tables A).

Lemma new_keyed def : table_keyed (td_name def) (a_new def).
Proof.
  split; [done|]. apply Forall_forall. intros i Hi. cbn in Hi. unfold indexes_of in Hi. apply list_elem_of_In, filter_In in Hi as [_ Hi].
  by apply bool_decide_eq_true in Hi.
Qed.

Lemma alter_keyed f n A : (forall a, table_keyed n a -> table_keyed n (f a)) -> keyed A -> keyed (on_tables (alter f n) A).
Proof.
  intros Hf HA k a Hk. cbn in Hk. apply lookup_alter_Some in Hk as [(-> & a0 & Ha & ->)|[_ Ha]]; [by apply Hf, HA|by apply HA].
Qed.

(** Redo keeps that. *)
Lemma effect_keyed rec A : keyed A -> keyed (effect rec A).
Proof.
  intros HA. destruct rec; cbn [effect]; try done; try (apply alter_keyed; [|done]; intros a [Hn Hi]).
  - unfold put_row. by destruct (decode_row _ _).
  - done.
  - intros n a Hn. cbn in Hn. destruct (a_tables A !! td_name def) eqn:E; [by apply HA|].
    apply lookup_insert_Some in Hn as [[<- <-]|[_ Hn]]; [apply new_keyed|by apply HA].
  - intros n a Hn. cbn in Hn. apply lookup_delete_Some in Hn as [_ Hn]. by apply HA.
  - unfold index_added. destruct (can_index a name column) eqn:Ec; [|done]. split; [done|]. apply Forall_app. split; [done|].
    constructor; [|constructor]. unfold can_index in Ec. destruct (index_of (a_schema a) column) eqn:E; [|done]. cbn. change (a_schema (set_a_indexes _ a)) with (a_schema a). by rewrite E.
  - unfold index_dropped. destruct (position _ _ _) as [p|]; [|done]. split; [done|]. unfold vremove. cbn.
    apply Forall_app. split; [by apply Forall_take|by apply Forall_drop].
  - intros n a Hn. cbn in Hn. apply map_lookup_filter_Some in Hn as [Hn _]. by apply HA.
Qed.

Lemma effects_keyed recs A : keyed A -> keyed (effects recs A).
Proof. revert A. induction recs as [|r recs IH]; intros A HA; [done|]. by apply IH, effect_keyed. Qed.

(** A table before the checkpoint and after the open: a column may come back
    with another type ([reread_type]). *)
Record reopened (a a' : ATable) : Prop := {
  ro_name : td_name (a_def a') = td_name (a_def a);
  ro_schema : a_schema a' = reread_schema (a_schema a);
  ro_fks : td_foreign_keys (a_def a') = td_foreign_keys (a_def a);
  ro_indexes : a_indexes a' = a_indexes (fk_indexed a);
  ro_rows : a_rows a' = a_rows a;
}.

Lemma load_effects_other ts : forall A n, n ∉ (fun e : TableDef * Rows => td_name e.1) <$> ts ->
  a_tables (fold_left load_effect ts A) !! n = a_tables A !! n.
Proof.
  induction ts as [|e ts IH]; intros A n Hn; [done|]. cbn in *. apply not_elem_of_cons in Hn as [Hne Hn]. rewrite IH by done.
  cbn. by rewrite lookup_insert_ne.
Qed.

Lemma load_effects_in ts : forall A e, NoDup ((fun e : TableDef * Rows => td_name e.1) <$> ts) -> e ∈ ts ->
  a_tables (fold_left load_effect ts A) !! td_name e.1 = Some (mkATable e.1 (indexes_of e.1) e.2).
Proof.
  induction ts as [|x ts IH]; intros A e Hnd Hin; [by apply elem_of_nil in Hin|]. cbn in Hnd. apply NoDup_cons in Hnd as [Hx Hnd].
  cbn [fold_left]. apply elem_of_cons in Hin as [->|Hin]; [|by apply IH]. rewrite load_effects_other by done. cbn. by rewrite lookup_insert_eq.
Qed.

Lemma load_effects_databases ts : forall A, a_databases A ⊆ a_databases (fold_left load_effect ts A).
Proof. induction ts as [|x ts IH]; intros A; [done|]. cbn [fold_left]. etrans; [|apply IH]. cbn. set_solver. Qed.

(** Columns keep their names and places. *)
Lemma reread_index_of s name : index_of (reread_schema s) name = index_of s name.
Proof.
  unfold index_of, reread_schema. cbn [columns]. generalize 0. induction (columns s) as [|c cols IH]; intros n; [done|].
  cbn [fmap list_fmap position]. change (col_name (reread_col c)) with (col_name c). by rewrite IH.
Qed.

(** The indexes FOREIGN KEY adds depend on the names of the columns, the keys and
    the indexes. *)
Definition same_names (s s' : Schema) : Prop := (forall name, index_of s' name = index_of s name) /\ pk_idx s' = pk_idx s.

Lemma fk_index_same a a' fk : same_names (a_schema a) (a_schema a') -> a_indexes a' = a_indexes a ->
  match fk_index a fk, fk_index a' fk with
  | Ok b, Ok b' => a_indexes b' = a_indexes b /\ a_schema b = a_schema a /\ a_schema b' = a_schema a'
  | Err e, Err e' => True
  | Panic, Panic => True
  | _, _ => False
  end.
Proof.
  intros [Hs Hp] Hi. unfold fk_index. rewrite Hs, Hp, Hi. destruct (bool_decide _); [done|]. destruct (covered _ _); [done|].
  destruct (auto_name _ _); [|done]. destruct (index_of _ _); [|done]. done.
Qed.

Lemma fk_indexes_same fks : forall a a', same_names (a_schema a) (a_schema a') -> a_indexes a' = a_indexes a ->
  match fk_indexes a fks, fk_indexes a' fks with
  | Ok b, Ok b' => a_indexes b' = a_indexes b
  | Ok _, _ | _, Ok _ => False
  | _, _ => True
  end.
Proof.
  induction fks as [|fk fks IH]; intros a a' Hs Hi; cbn [fk_indexes]; [done|]. pose proof (fk_index_same a a' fk Hs Hi) as Hfk.
  destruct (fk_index a fk) as [b|e|], (fk_index a' fk) as [b'|e'|]; try done. destruct Hfk as (Hi' & H1 & H2). cbn. apply IH; congruence.
Qed.

Lemma fk_indexed_keeps a : a_def (fk_indexed a) = a_def a /\ a_rows (fk_indexed a) = a_rows a.
Proof.
  assert (forall fks a b, fk_indexes a fks = Ok b -> a_def b = a_def a /\ a_rows b = a_rows a) as H.
  { induction fks as [|fk fks IH]; intros x b; cbn; [by intros [= <-]|]. destruct (fk_index x fk) as [y|e|] eqn:E; cbn; try done.
    intros Hb%IH. apply fk_index_def in E. destruct E, Hb. split; congruence. }
  unfold fk_indexed. destruct (fk_indexes a _) eqn:E; [by eapply H|done..].
Qed.

Lemma reopened_fk a a' :
  td_name (a_def a') = td_name (a_def a) -> a_schema a' = reread_schema (a_schema a) -> td_foreign_keys (a_def a') = td_foreign_keys (a_def a) ->
  a_indexes a' = a_indexes a -> a_rows a' = a_rows a -> reopened a (fk_indexed a').
Proof.
  intros Hn Hs Hf Hi Hr. destruct (fk_indexed_keeps a') as [Hd' Hr']. split; unfold a_schema in *; rewrite ?Hd', ?Hr'; try done.
  unfold fk_indexed. rewrite Hf. assert (same_names (a_schema a) (a_schema a')) as Hn' by (unfold a_schema; rewrite Hs; split; [apply reread_index_of|done]).
  pose proof (fk_indexes_same (td_foreign_keys (a_def a)) a a' Hn' Hi) as H.
  destruct (fk_indexes a _), (fk_indexes a' _); done.
Qed.

Section checkpoints.
Context {T P : Type} {KT : KvTree T} {HT : KvTreeOk T} {KP : Pool P} {HP : PoolOk P}.
Context (hash_order : gmap bytes (@Table T P) -> list bytes) (Horder : forall m, hash_order m ≡ₚ (map_to_list m).*1).

Abbreviation DB := (@Data T P).

(** An entry the checkpoint writes for table [n], with its rows. *)
Definition entry_of (G : Owned) (d : DB) (A : ADb) (n : bytes) (e : TableDef * list (bytes * bytes) * Rows) : Prop :=
  exists t a, d_tables d !! n = Some t /\ a_tables A !! n = Some a /\ e.1.1 = table_def t /\ tab_rep G n (d_pool d) t a /\
    e.2 = a_rows a /\ stores_rows G n (a_schema a) e.1.2 (a_rows a).

Lemma scan_tables_ok G d A names : db_rep G d A -> (forall n, n ∈ names -> is_Some (d_tables d !! n)) ->
  exists ts, scan_tables (omap (fun n => d_tables d !! n) names) = Ret (fst <$> ts) /\ Forall2 (entry_of G d A) names ts.
Proof.
  intros Hd. induction names as [|n names IH]; intros Hall; cbn [omap list_omap]; [by exists []|].
  destruct (Hall n ltac:(left)) as [t Ht]. rewrite Ht. destruct IH as (ts & Hts & Hf). { intros k Hk. apply Hall. by right. }
  assert (exists a, a_tables A !! n = Some a) as [a Ha].
  { apply elem_of_dom. rewrite <- (db_dom _ _ _ Hd). by apply elem_of_dom_2 in Ht. }
  pose proof (db_tab _ _ _ Hd n t a Ht Ha) as Hrep. destruct (scan_stores G n _ t a Hrep) as (kvs & Hk & Hst).
  exists ((table_def t, kvs, a_rows a) :: ts). cbn [scan_tables]. rewrite Hk. cbn [mbind out_bind]. rewrite Hts. split; [done|].
  constructor; [|done]. by exists t, a.
Qed.

Lemma entry_name G d A n e : keyed A -> entry_of G d A n e -> td_name e.1.1 = n /\
  exists a, a_tables A !! n = Some a /\ td_name (a_def a) = n /\ td_schema e.1.1 = a_schema a /\
    td_foreign_keys e.1.1 = td_foreign_keys (a_def a) /\ indexes_of e.1.1 = a_indexes a /\ e.2 = a_rows a /\
    stores_rows G (td_name e.1.1) (td_schema e.1.1) e.1.2 e.2.
Proof.
  intros HA (t & a & Ht & Ha & He & [T1 T2 T3 T4] & Hr & Hs). destruct (HA n a Ha) as [Hn Hi]. unfold a_schema in *.
  assert (td_name e.1.1 = n /\ td_schema e.1.1 = td_schema (a_def a) /\ td_foreign_keys e.1.1 = td_foreign_keys (a_def a) /\ td_indexes e.1.1 = a_indexes a)
    as (E1 & E2 & E3 & E4) by (rewrite He; unfold table_def; cbn; rewrite T2, T3; done).
  split; [done|]. exists a. split_and!; try done.
  - unfold indexes_of. rewrite E2, E4. apply filter_id. rewrite Forall_forall in Hi |- *. intros i Hin. by apply bool_decide_eq_true, Hi.
  - by rewrite E1, E2, Hr.
Qed.

Lemma entry_names G d A names ts : keyed A -> Forall2 (entry_of G d A) names ts -> (fun e : TableDef * Rows => td_name e.1) <$> ((fun e => (e.1.1, e.2)) <$> ts) = names.
Proof.
  intros HA. induction 1 as [|n e names ts He _ IH]; [done|]. cbn. rewrite IH. f_equal. by apply (entry_name G d A).
Qed.

(** Rows do not depend on the types of the columns. *)
Lemma stores_rows_reread G n s kvs rows : stores_rows G n s kvs rows -> stores_rows G n (reread_schema s) kvs rows.
Proof.
  intros [H1 H2 H3 H4]. split; [done| |done|done]. intros k v Hin. destruct (H2 k v Hin) as (row & Hr & [W1 W2 W3 W4] & Hk & Hs).
  exists row. split_and!; [done|split; [by cbn [columns reread_schema]; rewrite length_fmap|done..]|done|done].
Qed.

Lemma reread_indexes def : indexes_of (reread_def def) = indexes_of def.
Proof. unfold indexes_of. cbn [td_schema td_indexes reread_def]. apply filter_ext. intros i. by rewrite reread_index_of. Qed.

(** The file a checkpoint writes holds the database, with the column types its
    tags stand for. *)
Lemma checkpoint_holds G d A dbs data :
  db_rep G d A -> keyed A -> checkpoint_data hash_order d = Ret (dbs, data) -> snapshot_wf dbs data ->
  exists file A1, checkpoint hash_order d = Ret (Ok file) /\ snapshot_holds G file A1 /\ a_databases A ⊆ a_databases A1 /\
    forall n, match a_tables A !! n, a_tables A1 !! n with
              | Some a, Some a1 => reopened a (fk_indexed a1)
              | None, None => True
              | _, _ => False
              end.
Proof.
  intros Hd HA Hdata Hwf. assert (Hcd := Hdata). unfold checkpoint_data in Hdata.
  destruct (scan_tables_ok G d A (hash_order (d_tables d)) Hd) as (ts & Hts & Hf).
  { intros n Hn. by apply (hash_order_elem hash_order Horder). }
  rewrite Hts in Hdata. cbn [mbind out_bind] in Hdata. injection Hdata as <- <-.
  destruct (encode_snapshot_Ok _ _ Hwf) as [file Hfile]. pose proof (entry_names G d A _ _ HA Hf) as Hnames.
  set (re := (fun e => (reread_def e.1.1, e.1.2, e.2)) <$> ts). set (es := (fun e => (e.1.1, e.2)) <$> re).
  set (dbs := merge_sort lex_leb (elements (d_databases d))) in *.
  assert (Hnames' : (fun e : TableDef * Rows => td_name e.1) <$> es = hash_order (d_tables d)).
  { rewrite <- Hnames. subst es re. rewrite <- !list_fmap_compose. done. }
  exists file, (snapshot_db dbs es). split_and!.
  - unfold checkpoint. rewrite Hcd. cbn [mbind out_bind mret out_ret]. by rewrite Hfile.
  - exists dbs, re, (Zlen file). split_and!; [| |done].
    + pose proof (decodes_snapshot _ _ _ Hwf Hfile [] []) as Hdec. rewrite app_nil_r, app_nil_l in Hdec.
      change (Zlen []) with 0 in Hdec. rewrite Z.add_0_l in Hdec. rewrite Hdec. do 3 f_equal.
      subst re. rewrite <- !list_fmap_compose. done.
    + subst re. apply Forall_fmap, Forall_forall. intros e [i Hi]%list_elem_of_lookup_1. destruct (Forall2_lookup_r _ _ _ _ _ Hf Hi) as (n & _ & He).
      apply (entry_name G d A n e HA) in He as (_ & a & He). cbn [fst snd]. apply stores_rows_reread. apply He.
  - unfold snapshot_db. etrans; [|apply load_effects_databases]. cbn. rewrite <- (db_names _ _ _ Hd). intros x Hx.
    apply elem_of_union_l, elem_of_list_to_set. subst dbs. rewrite merge_sort_Permutation. by apply elem_of_elements.
  - intros n. assert (Hn : is_Some (a_tables A !! n) <-> n ∈ hash_order (d_tables d)).
    { rewrite (hash_order_elem hash_order Horder), <- !elem_of_dom. by rewrite (db_dom _ _ _ Hd). }
    destruct (a_tables A !! n) as [a|] eqn:Ea.
    + pose proof (proj1 Hn ltac:(by eexists)) as [i Hi]%list_elem_of_lookup_1. destruct (Forall2_lookup_l _ _ _ _ _ Hf Hi) as (e & He & Hent).
      apply (entry_name G d A n e HA) in Hent as (Hname & a' & Ha' & H1 & H2 & H3 & H4 & H5 & _). rewrite Ea in Ha'. injection Ha' as <-.
      assert (Hin : (reread_def e.1.1, e.2) ∈ es).
      { subst es re. rewrite <- list_fmap_compose. apply list_elem_of_fmap. exists e. split; [done|by eapply list_elem_of_lookup_2]. }
      pose proof (load_effects_in es (mkADb (list_to_set dbs ∪ {[str "default"]}) ∅) _ ltac:(rewrite Hnames'; by apply (hash_order_nodup hash_order Horder)) Hin) as Hl.
      cbn [fst snd] in Hl. change (td_name (reread_def e.1.1)) with (td_name e.1.1) in Hl. rewrite Hname in Hl. unfold snapshot_db. rewrite Hl.
      apply reopened_fk; cbn [a_def a_indexes a_rows].
      * change (td_name (reread_def e.1.1)) with (td_name e.1.1). by rewrite Hname.
      * unfold a_schema at 1. cbn [a_def td_schema reread_def]. by rewrite H2.
      * exact H3.
      * rewrite <- H4. apply reread_indexes.
      * exact H5.
    + unfold snapshot_db. rewrite load_effects_other; [cbn [a_tables]; by rewrite lookup_empty|]. rewrite Hnames'. intros H%Hn. by destruct H.
Qed.

End checkpoints.

(** C12: a checkpoint loses no row, table or key.  Encode a database as CHECKPOINT
    does (within the caps of the format), reset the log, and open the directory
    again on a pool that still holds the same values: every table comes back
    under its name with its columns in place, its foreign keys, indexes (and
    those foreign keys add) and exactly its rows, and no database is missing.
    What may change is the type of a column: BOOL, DATETIME and TIMESTAMP come
    back as the type their first letter stands for. *)
Theorem checkpoint_then_open {T P : Type} {KT : KvTree T} {HT : KvTreeOk T} {KP : Pool P} {HP : PoolOk P}
    (hash_order : gmap bytes (@Table T P) -> list bytes) (Horder : forall m, hash_order m ≡ₚ (map_to_list m).*1)
    G (d : @Data T P) A dbs data (pool : P) :
  db_rep G d A -> keyed A -> map_Forall (fun _ a => fk_columns_exist a) (a_tables A) ->
  checkpoint_data hash_order d = Ret (dbs, data) -> snapshot_wf dbs data ->
  holds pool (snd <$> G) ->
  exists file, checkpoint hash_order d = Ret (Ok file) /\
    match open_database hash_order (Some file) wal_header pool with
    | Ret (d', r) => r = Ok () /\ exists G' A', db_rep G' d' A' /\ a_databases A ⊆ a_databases A' /\
        forall n, match a_tables A !! n, a_tables A' !! n with
                  | Some a, Some a' => reopened a a'
                  | None, None => True
                  | _, _ => False
                  end
    | Panics => False
    | Fuel => may_hang
    end.
Proof.
  intros Hd HA Hfk Hdata Hwf Hp. destruct (checkpoint_holds hash_order Horder G d A dbs data Hd HA Hdata Hwf) as (file & A1 & Hc & Hs & Hdbs & Ht).
  exists file. split; [done|]. assert (Hread : read_all wal_header = Ok []) by (rewrite <- (app_nil_r wal_header); apply read_all_header).
  pose proof (open_ok hash_order Horder (Some file) wal_header [] pool G A1 Hs Hp Hread I) as Hopen. unfold wp in Hopen.
  unfold open_database, initial in *. destruct (open_data _ _ _ _) as [[d' r]| |]; [|done|done].
  destruct Hopen as [[-> [G' H]]|[_ [Hw|Hx]]]; [|by apply Exists_nil in Hw|].
  - split; [done|]. exists G', (on_tables (fmap fk_indexed) A1). split; [done|]. split; [done|]. intros n. specialize (Ht n). cbn.
    rewrite lookup_fmap. destruct (a_tables A !! n), (a_tables A1 !! n); done.
  - destruct Hx. intros n a1 Ha1. cbn in Ha1. specialize (Ht n). rewrite Ha1 in Ht. destruct (a_tables A !! n) as [a|] eqn:Ea; [|done].
    specialize (Hfk n a Ea). destruct Ht as [R1 R2 R3 R4 R5], (fk_indexed_keeps a1) as [D _]. unfold fk_columns_exist, a_schema in *.
    rewrite D in R2, R3. rewrite R3. eapply Forall_impl; [exact Hfk|]. cbn. intros fk. by rewrite R2, reread_index_of.
Qed.

(** * Restarts on a log with an unfinished tail *)

(** Records that were written whole but whose commit record was not, are still in
    the log when a later transaction of the same id commits: both are redone. *)
Lemma batches_stale txns x ys1 y ys2 :
  Forall txn_wf txns -> Forall txn_wf ys1 -> Forall txn_wf (y :: ys2) -> Forall (body_of (x_id x)) (x_body x) -> x_body x <> [] ->
  Forall (fun z => x_id z <> x_id x) ys1 -> x_id y = x_id x ->
  batches ∅ (reread_record <$> (log_of txns ++ x_body x ++ log_of ys1 ++ log_of (y :: ys2)))
  = redo_list txns ++ redo_list ys1 ++ (reread_record <$> x_body x ++ x_body y) ++ redo_list ys2.
Proof.
  intros H1 H2 H3 Hx Hne Hids Hid. apply Forall_cons in H3 as [[_ Hy] H3]. rewrite Hid in Hy.
  rewrite fmap_app, batches_txns by (try done; apply Forall_forall; intros; apply lookup_empty). f_equal.
  rewrite fmap_app, (batches_body_ne (x_id x)); [|apply Forall_fmap; eapply Forall_impl; [exact Hx|apply reread_body]|by destruct (x_body x)].
  rewrite lookup_empty. cbn [default from_option app]. rewrite fmap_app, batches_txns; [f_equal|done|].
  2:{ eapply Forall_impl; [exact Hids|]. cbn. intros z Hz. rewrite lookup_insert_ne by done. apply lookup_empty. }
  unfold log_of. cbn [fmap list_fmap mjoin list_join]. rewrite fmap_app. unfold txn_records. rewrite fmap_app, <- app_assoc.
  rewrite (batches_body (x_id x)) by (apply Forall_fmap; eapply Forall_impl; [exact Hy|apply reread_body]).
  change (reread_record <$> [RCommit (x_id y) (x_ts y)]) with [RCommit (x_id y) (x_ts y)]. cbn [app]. rewrite Hid.
  assert (Hrest : batches (delete (x_id x) (<[x_id x:=reread_record <$> x_body x]> (∅ : gmap Z (list Record_)))) (reread_record <$> mjoin (txn_records <$> ys2)) = redo_list ys2).
  { rewrite delete_insert_eq, delete_empty, <- (app_nil_r (reread_record <$> _)). fold (log_of ys2).
    rewrite batches_txns by (try done; apply Forall_forall; intros; apply lookup_empty). by rewrite app_nil_r. }
  destruct (x_body y) as [|ry by_]; cbn -[reread_record delete].
  - rewrite lookup_insert_eq, app_nil_r. cbn -[reread_record delete]. by rewrite <- Hrest.
  - rewrite !lookup_insert_eq. cbn -[reread_record delete]. rewrite fmap_app. f_equal. rewrite <- Hrest. f_equal.
    rewrite !delete_insert_eq. done.
Qed.

(** Reading past whole records. *)
Lemma range_loop_whole recs : forall fuel rest off out, Forall record_wf recs -> (length recs <= fuel)%nat ->
  range_loop fuel false (log_bytes recs ++ rest) off out =
  range_loop (fuel - length recs) false rest (off + Zlen (log_bytes recs)) (out ++ (reread_record <$> recs)).
Proof.
  induction recs as [|r recs IH]; intros fuel rest off out Hwf Hf.
  - cbn [app fmap list_fmap length]. change (log_bytes []) with (@nil Z). cbn [app length]. by rewrite Nat.sub_0_r, Z.add_0_r, app_nil_r.
  - apply Forall_cons in Hwf as [Hr Hwf]. destruct fuel as [|fuel]; [cbn in Hf; lia|]. rewrite log_bytes_cons, <- app_assoc, range_loop_step by done.
    rewrite IH by (done || (cbn in Hf; lia)). rewrite Zlen_app, Z.add_assoc, <- app_assoc. done.
Qed.

(** A record torn behind its header swallows what is appended after it, as long
    as that is shorter than the missing part. *)
Lemma read_torn recs r k more :
  Forall record_wf recs -> Zlen (encode_payload r) <= MAX_RECORD -> (8 <= k)%nat -> Z.of_nat k + Zlen more < Zlen (encode_record r) ->
  read_all (wal_header ++ log_bytes recs ++ take k (encode_record r) ++ more) = Ok (reread_record <$> recs).
Proof.
  intros Hwf Hl Hk Hm. rewrite read_all_header. unfold decode_wal_range.
  assert (Hlen : forall l, Forall record_wf l -> (length l <= length (log_bytes l))%nat).
  { induction 1 as [|x l _ _ IH]; [done|]. rewrite log_bytes_cons, length_app. unfold encode_record, frame.
    rewrite !length_app, !length_to_le. cbn [length]. lia. }
  rewrite range_loop_whole by (done || (rewrite length_app; specialize (Hlen recs Hwf); lia)). cbn [app].
  rewrite length_app. specialize (Hlen recs Hwf). set (fuel := (S _ - length recs)%nat).
  assert (Hfuel : exists f, fuel = S f) by (exists (length (log_bytes recs) + length (take k (encode_record r) ++ more) - length recs)%nat; lia).
  destruct Hfuel as [f ->]. unfold encode_record in *. set (p := encode_payload r) in *. rewrite Zlen_frame in Hm.
  assert (Hf : length (frame p) = (8 + length p)%nat) by (pose proof (Zlen_frame p); lia).
  assert (Hkl : length (take k (frame p)) = k) by (rewrite length_take; lia).
  cbn [range_loop]. rewrite length_app, Hkl. zb.
  assert (take 4 (take k (frame p) ++ more) = to_le 4 (Zlen p)) as ->.
  { rewrite take_app_le by lia. rewrite take_take, Nat.min_l by lia. rewrite <- (app_nil_r (frame p)). apply take_4_frame. }
  unfold MAX_RECORD in *. rewrite (of_le_to_le_u 4) by (widths; lia). zb. done.
Qed.

(** C39: transactions that were never committed come back: [next_txn] restarts at
    1 after an open, and the records of a transaction [x] whose commit record did
    not reach the disk stay in the log.  If a transaction [y] of the same id
    commits after the restart, the next open redoes [x] as well. *)
Theorem uncommitted_tail_resurrected {T P : Type} {KT : KvTree T} {HT : KvTreeOk T} {KP : Pool P} {HP : PoolOk P}
    (hash_order : gmap bytes (@Table T P) -> list bytes) (Horder : forall m, hash_order m ≡ₚ (map_to_list m).*1)
    (pool : P) (G : Owned) txns x ys1 y ys2 :
  let log := log_of txns ++ x_body x ++ log_of ys1 ++ log_of (y :: ys2) in
  let both := redo_list txns ++ redo_list ys1 ++ (reread_record <$> x_body x ++ x_body y) ++ redo_list ys2 in
  holds pool (snd <$> G) ->
  Forall txn_wf txns -> Forall txn_wf ys1 -> Forall txn_wf (y :: ys2) -> txn_wf x -> x_body x <> [] ->
  Forall (fun z => x_id z <> x_id x) ys1 -> x_id y = x_id x -> records_fit empty_db both ->
  match open_database hash_order None (wal_header ++ log_bytes log) pool with
  | Ret (d, r) => opened empty_db both d r
  | Panics => False
  | Fuel => may_hang
  end.
Proof.
  intros log both Hp H1 H2 H3 [Hx1 Hx2] Hne Hids Hid Hfit.
  assert (Hlog : Forall record_wf log).
  { apply Forall_app in Hx1 as [Hx1 _]. subst log. rewrite !Forall_app. split_and!; [by apply log_of_wf|done|by apply log_of_wf..]. }
  assert (Hread : read_all (wal_header ++ log_bytes log) = Ok (reread_record <$> log)).
  { rewrite read_all_header. unfold decode_wal_range. pose proof (complete_prefix (length (log_bytes log)) log (S (length (log_bytes log))) 0 [] Hlog ltac:(lia) ltac:(lia)) as Hc.
    rewrite firstn_all in Hc. rewrite Hc. cbn [fmap res_fmap fst app mbind res_bind]. f_equal. by rewrite complete_all. }
  pose proof (batches_stale txns x ys1 y ys2 H1 H2 H3 Hx2 Hne Hids Hid) as Hb. fold log both in Hb.
  rewrite <- Hb in Hfit |- *. by apply (open_ok hash_order Horder None _ _ pool G empty_db).
Qed.

(** C38: commits that follow a torn record are lost: the log is not cut when it is
    opened again, so a record [r] that a crash tore behind its header swallows
    the transactions [ys] appended after it, as long as together they are
    shorter than its missing part.  They were reported as durable; the next open
    knows nothing of them. *)
Theorem torn_tail_hides_commits {T P : Type} {KT : KvTree T} {HT : KvTreeOk T} {KP : Pool P} {HP : PoolOk P}
    (hash_order : gmap bytes (@Table T P) -> list bytes) (Horder : forall m, hash_order m ≡ₚ (map_to_list m).*1)
    (pool : P) (G : Owned) txns r k ys :
  holds pool (snd <$> G) -> Forall txn_wf txns -> record_wf r -> (8 <= k)%nat ->
  Z.of_nat k + Zlen (log_bytes (log_of ys)) < Zlen (encode_record r) -> records_fit empty_db (redo_list txns) ->
  match open_database hash_order None (wal_header ++ log_bytes (log_of txns) ++ take k (encode_record r) ++ log_bytes (log_of ys)) pool with
  | Ret (d, r) => opened empty_db (redo_list txns) d r
  | Panics => False
  | Fuel => may_hang
  end.
Proof.
  intros Hp Hwf [_ Hr] Hk Hlen Hfit. pose proof (read_torn (log_of txns) r k (log_bytes (log_of ys)) (log_of_wf _ Hwf) Hr Hk Hlen) as Hread.
  assert (Hb : batches ∅ (reread_record <$> log_of txns) = redo_list txns).
  { rewrite <- (app_nil_r (reread_record <$> _)), batches_txns by (try done; apply Forall_forall; intros; apply lookup_empty). by rewrite app_nil_r. }
  rewrite <- Hb in Hfit |- *. by apply (open_ok hash_order Horder None _ _ pool G empty_db).
Qed.

(** When they are longer, the open fails: the checksum of the torn record does not
    match the bytes that now follow its header. *)
Example torn_tail_refused :
  read_all (wal_header ++ take 20 (encode_record (RPut 1 (str "t") [1] [2])) ++ log_bytes [RPut 1 (str "t") [3] [4]; RCommit 1 None])
  = Err (Corrupted (str "WAL crc mismatch")).
Proof. vm_compute. reflexivity. Qed.

(** * Witnesses *)

Section demo.

Definition demo_order (m : gmap bytes (@Table (gmap bytes bytes) RefPool)) : list bytes := (map_to_list m).*1.

Definition demo_create : Record_ := RCreateTable 1 TableScan.demo_def.
Definition demo_put (txn id age : Z) : Record_ :=
  RPut txn (str "db.users") (match encode_key (Int id) with Ok k => k | _ => [] end) (encode_row (demo_row id age)).

Definition demo_txns : list Txn := [mkTxn 1 [demo_create; demo_put 1 7 40] (Some 5); mkTxn 2 [demo_put 2 8 50] None].

Lemma demo_txns_wf : Forall txn_wf demo_txns.
Proof.
  unfold demo_txns, txn_wf, txn_records, record_wf, fields_wf, table_def_wf, str_wf, bytes_wf, MAX_RECORD, body_of. widths. cbn.
  repeat (split || constructor || reflexivity || discriminate).
Qed.

Lemma demo_order_perm m : demo_order m ≡ₚ (map_to_list m).*1.
Proof. done. Qed.

Lemma demo_pool_holds : holds ref_pool (snd <$> (∅ : Owned)).
Proof. cbn. split; [by rewrite fmap_empty|]. split; [done|]. intros l [x Hx]. by rewrite fmap_empty, lookup_empty in Hx. Qed.

Lemma demo_created_fits txn id age : i64 id -> i64 age -> record_fits (effect demo_create empty_db) (demo_put txn id age).
Proof.
  intros Hi Ha a Hl. cbn [effect demo_create empty_db on_tables a_tables] in Hl. rewrite lookup_empty in Hl.
  apply lookup_insert_Some in Hl as [[_ <-]|[Hne _]]; [|by destruct Hne].
  exists (demo_row id age). split; [done|]. split; [by apply demo_row_wf|]. done.
Qed.

Lemma demo_first_fits : records_fit empty_db (redo_list [mkTxn 1 [demo_create; demo_put 1 7 40] (Some 5)]).
Proof. split; [exact I|]. split; [|exact I]. by apply (demo_created_fits 1 7 40). Qed.

End demo.

(** The crash cut the second transaction three bytes before its end. *)
Lemma recovery_keeps_committed_witness :
  match open_database demo_order None (crashed_log demo_txns (length (log_bytes (log_of demo_txns)) - 3)) ref_pool with
  | Ret (d, r) => opened empty_db (redo_list [mkTxn 1 [demo_create; demo_put 1 7 40] (Some 5)]) d r
  | Panics => False
  | Fuel => False
  end.
Proof.
  assert (Hc : committed (Z.of_nat (length (log_bytes (log_of demo_txns)) - 3)) demo_txns = [mkTxn 1 [demo_create; demo_put 1 7 40] (Some 5)])
    by (vm_compute; reflexivity).
  rewrite <- Hc. apply (recovery_keeps_committed (HT := gmap_kv_ok) (HP := ref_pool_ok) demo_order demo_order_perm None ref_pool ∅ empty_db demo_txns (length (log_bytes (log_of demo_txns)) - 3)).
  - reflexivity.
  - exact demo_pool_holds.
  - exact demo_txns_wf.
  - lia.
  - rewrite Hc. exact demo_first_fits.
Defined.

Section demo_checkpoint.

Definition demo_recs : list Record_ := [demo_create; demo_put 1 7 40; demo_put 1 8 50].

Definition demo_db : @Data (gmap bytes bytes) RefPool :=
  match apply_records demo_recs (initial ref_pool) with Ret (d, _) => d | _ => initial ref_pool end.

Definition demo_data : list bytes * list (TableDef * list (bytes * bytes)) :=
  match checkpoint_data demo_order demo_db with Ret x => x | _ => ([], []) end.

Lemma demo_data_eq : checkpoint_data demo_order demo_db = Ret demo_data.
Proof. vm_compute. reflexivity. Qed.

Lemma demo_data_wf : snapshot_wf demo_data.1 demo_data.2.
Proof.
  assert (demo_data = ([str "default"], [(TableScan.demo_def, [([1; 128; 0; 0; 0; 0; 0; 0; 7], encode_row (demo_row 7 40)); ([1; 128; 0; 0; 0; 0; 0; 0; 8], encode_row (demo_row 8 50))])])) as -> by (vm_compute; reflexivity).
  repeat first [split | constructor]; cbn; widths; try lia; try done.
Qed.

Lemma demo_recs_fit : records_fit empty_db demo_recs.
Proof.
  split; [exact I|]. split; [by apply (demo_created_fits 1 7 40)|]. split; [|exact I]. intros a Hl.
  cbn [effect demo_put on_tables a_tables] in Hl. apply lookup_alter_Some in Hl as [(_ & a0 & Ha & ->)|[Hne _]]; [|by destruct Hne].
  destruct (demo_created_fits 1 8 50 ltac:(done) ltac:(done) a0 Ha) as (row & Hr & Hw). exists row. split; [exact Hr|].
  unfold put_row. by destruct (decode_row _ _).
Qed.

Lemma demo_db_rep : exists G, db_rep G demo_db (effects demo_recs empty_db).
Proof.
  pose proof (apply_records_ok (HT := gmap_kv_ok) (HP := ref_pool_ok) demo_recs (initial ref_pool) empty_db ∅ (initial_rep ∅ ref_pool demo_pool_holds) demo_recs_fit) as Hw.
  unfold wp in Hw. unfold demo_db. destruct (apply_records demo_recs (initial ref_pool)) as [[d r]| |] eqn:E; [|done|done].
  destruct Hw as [[_ HG]|[Hwide _]]; [exact HG|]. exfalso. apply Exists_exists in Hwide as (rec & Hin & Hwide).
  unfold demo_recs in Hin. rewrite !elem_of_cons, elem_of_nil in Hin. by destruct Hin as [->|[->|[->|[]]]]; vm_compute in Hwide.
Qed.

End demo_checkpoint.

Lemma checkpoint_then_open_witness : exists G file,
  checkpoint demo_order demo_db = Ret (Ok file) /\
  match open_database demo_order (Some file) wal_header (d_pool demo_db) with
  | Ret (d', r) => r = Ok () /\ exists G' A', db_rep G' d' A' /\ a_databases (effects demo_recs empty_db) ⊆ a_databases A' /\
      forall n, match a_tables (effects demo_recs empty_db) !! n, a_tables A' !! n with
                | Some a, Some a' => reopened a a'
                | None, None => True
                | _, _ => False
                end
  | Panics => False
  | Fuel => False
  end /\ db_rep G demo_db (effects demo_recs empty_db).
Proof.
  destruct demo_db_rep as [G HG].
  destruct (checkpoint_then_open (HT := gmap_kv_ok) (HP := ref_pool_ok) demo_order demo_order_perm G demo_db (effects demo_recs empty_db)
              demo_data.1 demo_data.2 (d_pool demo_db)) as (file & H1 & H2).
  - exact HG.
  - apply effects_keyed. intros n a Ha. cbn in Ha. by rewrite lookup_empty in Ha.
  - intros n a Ha. assert (a_def a = TableScan.demo_def) as Hd.
    { cbn [effects fold_left demo_recs demo_put demo_create effect on_tables a_tables empty_db] in Ha. rewrite lookup_empty in Ha.
      apply lookup_alter_Some in Ha as [(_ & a1 & Ha & ->)|[_ Ha]]; apply lookup_alter_Some in Ha as [(_ & a0 & Ha & ->)|[_ Ha]];
        apply lookup_insert_Some in Ha as [[_ <-]|[_ Ha]]; try (by rewrite lookup_empty in Ha); vm_compute; reflexivity. }
    unfold fk_columns_exist. rewrite Hd. constructor.
  - rewrite demo_data_eq. by destruct demo_data.
  - exact demo_data_wf.
  - exact (db_pool _ _ _ HG).
  - exists G, file. split; [exact H1|]. split; [exact H2|exact HG].
Defined.

(** Two runs: the first creates the table and crashes inside transaction 2, the
    second starts again from transaction 1. *)
Definition demo_lost : Txn := mkTxn 2 [demo_put 2 8 50] None.
Definition demo_run1 : list Txn := [mkTxn 1 [demo_create] None].
Definition demo_again : Txn := mkTxn 1 [demo_put 1 9 60] None.
Definition demo_same_id : Txn := mkTxn 2 [demo_put 2 10 70] None.

Ltac demo_wf :=
  unfold demo_run1, demo_lost, demo_again, demo_same_id, txn_wf, txn_records, record_wf, fields_wf, table_def_wf, str_wf, bytes_wf,
    MAX_RECORD, body_of; widths; cbn; repeat (split || constructor || reflexivity || discriminate).

Lemma demo_more_fit recs tx id age : i64 id -> i64 age ->
  (forall a, a_tables (effects recs empty_db) !! str "db.users" = Some a -> a_schema a = demo_schema) ->
  record_fits (effects recs empty_db) (demo_put tx id age).
Proof. intros Hi Ha Hs a Hl. exists (demo_row id age). rewrite (Hs a Hl). split; [done|]. split; [by apply demo_row_wf|done]. Qed.

(** Tables of the demo log keep their schema. *)
Lemma demo_schema_kept recs : Forall (fun r => r = demo_create \/ exists tx id age, r = demo_put tx id age) recs ->
  forall a, a_tables (effects recs empty_db) !! str "db.users" = Some a -> a_schema a = demo_schema.
Proof.
  unfold effects. rewrite <- fold_left_rev_right. intros Hr%Forall_rev. induction Hr as [|r l Hr Hl IH]; intros a Ha; cbn [foldr] in Ha.
  - cbn in Ha. by rewrite lookup_empty in Ha.
  - destruct Hr as [->|(tx & id & age & ->)]; cbn [effect demo_create demo_put on_tables a_tables] in Ha.
    + destruct (a_tables _ !! td_name TableScan.demo_def) eqn:E; [by apply IH|].
      apply lookup_insert_Some in Ha as [[_ <-]|[Hne _]]; [done|by destruct Hne].
    + apply lookup_alter_Some in Ha as [(_ & a0 & Ha & ->)|[Hne _]]; [|by destruct Hne].
      unfold put_row. specialize (IH a0 Ha). by destruct (decode_row _ _).
Qed.

Ltac demo_kept := apply demo_schema_kept; repeat (apply Forall_cons; split; [first [by left|right; by eexists _, _, _]|]); constructor.

Lemma uncommitted_tail_resurrected_witness :
  match open_database demo_order None
          (wal_header ++ log_bytes (log_of demo_run1 ++ x_body demo_lost ++ log_of [demo_again] ++ log_of [demo_same_id])) ref_pool with
  | Ret (d, r) => opened empty_db ([demo_create; demo_put 1 9 60] ++ [demo_put 2 8 50; demo_put 2 10 70]) d r
  | Panics => False
  | Fuel => False
  end.
Proof.
  apply (uncommitted_tail_resurrected (HT := gmap_kv_ok) (HP := ref_pool_ok) demo_order demo_order_perm ref_pool ∅ demo_run1 demo_lost [demo_again] demo_same_id []).
  - exact demo_pool_holds.
  - demo_wf.
  - demo_wf.
  - demo_wf.
  - demo_wf.
  - discriminate.
  - repeat constructor. discriminate.
  - reflexivity.
  - split; [exact I|]. split; [|split; [|split; [|exact I]]].
    + apply (demo_more_fit [demo_create] 1 9 60); [done|done|]. demo_kept.
    + apply (demo_more_fit [demo_create; demo_put 1 9 60] 2 8 50); [done|done|]. demo_kept.
    + apply (demo_more_fit [demo_create; demo_put 1 9 60; demo_put 2 8 50] 2 10 70); [done|done|]. demo_kept.
Defined.

Lemma torn_tail_hides_commits_witness :
  match open_database demo_order None
          (wal_header ++ log_bytes (log_of demo_run1) ++ take 20 (encode_record (RPut 2 (str "db.users") [1] (replicate 200 0))) ++
           log_bytes (log_of [demo_again])) ref_pool with
  | Ret (d, r) => opened empty_db [demo_create] d r
  | Panics => False
  | Fuel => False
  end.
Proof.
  apply (torn_tail_hides_commits (HT := gmap_kv_ok) (HP := ref_pool_ok) demo_order demo_order_perm ref_pool ∅ demo_run1
           (RPut 2 (str "db.users") [1] (replicate 200 0)) 20 [demo_again]).
  - exact demo_pool_holds.
  - demo_wf.
  - demo_wf.
  - lia.
  - vm_compute. reflexivity.
  - split; exact I.
Defined.
