(* ===== verification/Session.v ===== *)
(** The state of a client session (db/mod.rs), the answer of a statement, and
    the order in which hash maps are iterated. *)
From stdpp Require Import base list gmap strings.
From Stdlib Require Import ZArith Lia.
From S2P Require Import Prelude Machine Types Ast Mvcc Visible.

(** A hash map is walked in an order the program does not choose: some function
    of the map, about which the proofs know only that it lists every entry
    once. *)
Class HashOrder : Type := entries : forall {K V : Type} `{Countable K}, gmap K V -> list (K * V).

Class HashOrderOk `{HashOrder} : Prop :=
  entries_perm : forall (K V : Type) `{Countable K} (m : gmap K V), entries m ≡ₚ map_to_list m.

#[export] Instance map_order : HashOrder := fun K V _ _ m => map_to_list m.
#[export] Instance map_order_ok : HashOrderOk.
Proof. intros K V ? ? m. reflexivity. Qed.

Record Output := mkOutput { o_columns : list bytes; o_rows : list (list Datum); o_message : bytes }.

Definition Output_ok (msg : bytes) : Output := mkOutput [] [] msg.

Abbreviation Staged := (gmap (bytes * bytes) StagedWrite).

Record ActiveTxn := mkActive { at_id : Z; at_staged : Staged }.

Record Sess := mkSess {
  s_txn : option ActiveTxn;
  s_current_db : bytes;
  s_user : bytes;
  s_max_execution_time : option Z;
  s_max_result_rows : option Z;
  s_max_result_bytes : option Z;
  s_max_intermediate_rows : option Z;
  s_max_intermediate_bytes : option Z;
  s_isolation : IsolationLevel;
  s_snapshot : option SnapshotPin;
  s_autocommit : bool;
}.

(** [Session::default] *)
Definition session_default : Sess :=
  mkSess None (str "default") (str "root") None None None None None RepeatableRead None true.

Definition set_txn (t : option ActiveTxn) (x : Sess) : Sess :=
  mkSess t (s_current_db x) (s_user x) (s_max_execution_time x) (s_max_result_rows x) (s_max_result_bytes x)
    (s_max_intermediate_rows x) (s_max_intermediate_bytes x) (s_isolation x) (s_snapshot x) (s_autocommit x).
Definition set_current_db (db : bytes) (x : Sess) : Sess :=
  mkSess (s_txn x) db (s_user x) (s_max_execution_time x) (s_max_result_rows x) (s_max_result_bytes x)
    (s_max_intermediate_rows x) (s_max_intermediate_bytes x) (s_isolation x) (s_snapshot x) (s_autocommit x).
Definition set_isolation (l : IsolationLevel) (x : Sess) : Sess :=
  mkSess (s_txn x) (s_current_db x) (s_user x) (s_max_execution_time x) (s_max_result_rows x) (s_max_result_bytes x)
    (s_max_intermediate_rows x) (s_max_intermediate_bytes x) l (s_snapshot x) (s_autocommit x).
Definition set_snapshot (p : option SnapshotPin) (x : Sess) : Sess :=
  mkSess (s_txn x) (s_current_db x) (s_user x) (s_max_execution_time x) (s_max_result_rows x) (s_max_result_bytes x)
    (s_max_intermediate_rows x) (s_max_intermediate_bytes x) (s_isolation x) p (s_autocommit x).
Definition set_autocommit (b : bool) (x : Sess) : Sess :=
  mkSess (s_txn x) (s_current_db x) (s_user x) (s_max_execution_time x) (s_max_result_rows x) (s_max_result_bytes x)
    (s_max_intermediate_rows x) (s_max_intermediate_bytes x) (s_isolation x) (s_snapshot x) b.
Definition set_limits (time rows rbytes irows ibytes : option Z) (x : Sess) : Sess :=
  mkSess (s_txn x) (s_current_db x) (s_user x) time rows rbytes irows ibytes (s_isolation x) (s_snapshot x) (s_autocommit x).
