(* ===== verification/Privilege.v ===== *)
(** Accounts and grants (db/privilege.rs): the store of rules, the gate every
    statement passes, and the six user-management statements. *)
From stdpp Require Import base list gmap strings.
From Stdlib Require Import ZArith Lia.
From S2P Require Import Prelude Machine Types TableDef Expr Literal Ast Cost Visible Session.

Definition SUPERUSER : bytes := str "root".
Definition STAR : bytes := str "*".

Record GrantRule := mkRule { gr_priv : Privilege; gr_db : bytes; gr_tbl : bytes }.

#[global] Instance GrantRule_eq_dec : EqDecision GrantRule.
Proof. solve_decision. Defined.

(** [ps_pending]: staged passwords; [ps_tombstones]: dropped users awaiting the
    file prune; [ps_version]: bumped by every change. *)
Record PrivilegeStore := mkStore {
  ps_users : gset bytes;
  ps_grants : gmap bytes (list GrantRule);
  ps_pending : gmap bytes bytes;
  ps_tombstones : gset bytes;
  ps_version : Z;
}.

Definition store_new : PrivilegeStore := mkStore ∅ ∅ ∅ ∅ 0.

(** [version.fetch_add(1)] *)
Definition bump (v : Z) : Z := wrap_u 64 (v + 1).

(** * Import and export (the server's accounts file) *)

Definition import_privileges (users : list (bytes * list GrantRule)) (s : PrivilegeStore) : PrivilegeStore :=
  mkStore (list_to_set users.*1) (fold_left (fun m u => <[u.1 := u.2]> m) users ∅) ∅ ∅ (bump (ps_version s)).

Definition import_missing_users (names : list bytes) (s : PrivilegeStore) : PrivilegeStore :=
  mkStore (list_to_set names ∪ ps_users s) (ps_grants s) (ps_pending s) (ps_tombstones s) (ps_version s).

(** [users.sort_by(name)], the tombstones and the staged passwords, which are
    drained. *)
Definition export_privileges `{HashOrder} (s : PrivilegeStore) :
    (list (bytes * list GrantRule) * list bytes * list (bytes * bytes)) * PrivilegeStore :=
  let users := sort_by_key ((fun u => (u, default [] (ps_grants s !! u))) <$> (entries (K := bytes) (V := ()) (gset_to_gmap () (ps_users s))).*1) in
  ((users, (entries (K := bytes) (V := ()) (gset_to_gmap () (ps_tombstones s))).*1, entries (ps_pending s)),
   mkStore (ps_users s) (ps_grants s) ∅ ∅ (ps_version s)).

(** * Checks *)

Definition rule_covers (p : Privilege) (db tbl : bytes) (r : GrantRule) : bool :=
  (bool_decide (gr_priv r = p) || bool_decide (gr_priv r = PAll)) &&
  (bool_decide (gr_db r = STAR) || bool_decide (gr_db r = db)) &&
  (bool_decide (gr_tbl r = STAR) || bool_decide (gr_tbl r = tbl)).

Definition has_priv (s : PrivilegeStore) (user : bytes) (p : Privilege) (db tbl : bytes) : bool :=
  match ps_grants s !! user with
  | None => false
  | Some rules => existsb (rule_covers p db tbl) rules
  end.

Definition is_admin (s : PrivilegeStore) (user : bytes) : bool :=
  bool_decide (user = SUPERUSER) || has_priv s user PAll STAR STAR.

Definition denied {A} (user command object : bytes) : res A := Err (AccessDenied user command object).

Definition is_system_schema (table : bytes) : bool :=
  let l := to_ascii_lowercase (match split_once table with Some (q, _) => q | None => table end) in
  bool_decide (l = str "pg_catalog") || bool_decide (l = str "information_schema").

(** ** The tables a SELECT names *)

Definition named_table (n : bytes) : list bytes := if is_system_schema n then [] else [n].

Fixpoint expr_tables (e : Expr) : list bytes :=
  match e with
  | EColumn _ | ELiteral _ => []
  | ECmp l _ r => expr_tables l ++ expr_tables r
  | EAnd a b | EOr a b => expr_tables a ++ expr_tables b
  | ENot e => expr_tables e
  | EIn e _ _ | EBetween e _ _ _ | ELike e _ _ => expr_tables e
  | EInSubquery e q _ => expr_tables e ++ stmt_tables q
  | EScalarSubquery q => stmt_tables q
  | EExists q _ => stmt_tables q
  end
with stmt_tables (q : SelectStmt) : list bytes :=
  match q with
  | mkSelectStmt items from joins selection _ _ _ =>
    ref_tables from ++ flat_map join_tables joins ++
    match selection with Some e => expr_tables e | None => [] end ++ flat_map item_tables items
  end
with ref_tables (r : TableRef) : list bytes :=
  match r with RTable n => named_table n | RDerived q _ => stmt_tables q | REmpty => [] end
with join_tables (j : JoinClause) : list bytes :=
  match j with mkJoinClause _ t on => ref_tables t ++ expr_tables on end
with item_tables (i : SelectItem) : list bytes :=
  match i with ISubquery q _ => stmt_tables q | _ => [] end.

Definition select_tables (from : TableRef) (joins : list JoinClause) (selection : option Expr) (items : list SelectItem) : list bytes :=
  ref_tables from ++ flat_map join_tables joins ++
  match selection with Some e => expr_tables e | None => [] end ++ flat_map item_tables items.

Definition stmt_admin_command (stmt : Statement) : bytes :=
  match stmt with
  | SCreateUser _ _ _ => str "CREATE USER"
  | SDropUser _ _ => str "DROP USER"
  | SAlterUser _ _ => str "ALTER USER"
  | SGrant _ _ _ => str "GRANT"
  | SRevoke _ _ _ => str "REVOKE"
  | SPromote => str "PROMOTE"
  | SBackup _ => str "BACKUP"
  | SArchive _ => str "ARCHIVE"
  | SCheckpoint => str "CHECKPOINT"
  | _ => str "ADMIN"
  end.

Section gate.
(** The session, and the routing of its table names. *)
Context (resolve_table_key : Sess -> bytes -> bytes) (s : PrivilegeStore) (x : Sess).

Definition resolve_priv_scope (table : bytes) : bytes * bytes :=
  let key := resolve_table_key x table in
  match split_once key with Some (d, t) => (d, t) | None => ([], key) end.

Definition is_root : bool := bool_decide (s_user x = SUPERUSER).

Definition check_table (table : bytes) (p : Privilege) : res () :=
  if is_root then mret ()
  else
    let '(d, t) := resolve_priv_scope table in
    if has_priv s (s_user x) p d t then mret () else denied (s_user x) (Privilege_name p) (d ++ str "." ++ t).

Fixpoint check_tables (tables : list bytes) : res () :=
  match tables with [] => mret () | t :: tables => _ ← check_table t PSelect; check_tables tables end.

Definition require_db_or_table (table : bytes) (p : Privilege) : res () :=
  if is_root then mret ()
  else
    let '(d, t) := resolve_priv_scope table in
    if has_priv s (s_user x) p d STAR || has_priv s (s_user x) p d t then mret ()
    else denied (s_user x) (Privilege_name p) (d ++ str "." ++ t).

Definition require_global (p : Privilege) (command : bytes) : res () :=
  if is_root then mret ()
  else if has_priv s (s_user x) p STAR STAR then mret () else denied (s_user x) command (str "*.*").

Definition require_admin (command : bytes) : res () :=
  if is_root then mret ()
  else if is_admin s (s_user x) then mret () else denied (s_user x) command (str "*.*").

Definition selection_tables (selection : option Expr) : list bytes := match selection with Some e => expr_tables e | None => [] end.

Fixpoint enforce (stmt : Statement) : res () :=
  match stmt with
  | SSelect items from joins selection _ _ _ => check_tables (select_tables from joins selection items)
  | SInsert table _ _ => check_table table PInsert
  | SUpdate table assignments selection =>
    _ ← check_table table PUpdate;
    check_tables (selection_tables selection ++ flat_map (fun a => expr_tables a.2) assignments)
  | SDelete table selection => _ ← check_table table PDelete; check_tables (selection_tables selection)
  | SCreateTable name _ _ _ => require_db_or_table name PCreate
  | SDropTable name _ => require_db_or_table name PDrop
  | SCreateIndex _ table _ _ => require_db_or_table table PCreate
  | SDropIndex _ table _ => require_db_or_table table PDrop
  | SCreateDatabase _ _ => require_global PCreate (str "CREATE DATABASE")
  | SDropDatabase _ _ => require_global PDrop (str "DROP DATABASE")
  | SCreateUser _ _ _ | SDropUser _ _ | SAlterUser _ _ | SGrant _ _ _ | SRevoke _ _ _
  | SPromote | SBackup _ | SArchive _ | SCheckpoint => require_admin (stmt_admin_command stmt)
  | SShowGrants for_user =>
    if is_root then mret ()
    else match for_user with
         | None => mret ()
         | Some u =>
           if bool_decide (u = s_user x) || is_admin s (s_user x) then mret () else denied (s_user x) (str "SHOW GRANTS") u
         end
  | SAnalyzeTable table | SCheckTable table => check_table table PSelect
  | SCheckDatabase database =>
    if is_root then mret ()
    else
      let db_name := default (s_current_db x) database in
      if has_priv s (s_user x) PSelect STAR STAR || has_priv s (s_user x) PSelect db_name STAR then mret ()
      else denied (s_user x) (str "SELECT") (db_name ++ str ".*")
  | SExplain _ statement | SExplainMemo statement => enforce statement
  | _ => mret ()
  end.

End gate.

(** * User management *)

Definition concrete_scope (x : Sess) (scope : GrantScope) : bytes * bytes :=
  match scope with
  | GGlobal => (STAR, STAR)
  | GDatabase db => (db, STAR)
  | GTable (Some db) tbl => (db, tbl)
  | GTable None tbl => (s_current_db x, tbl)
  end.

(** Push the rules that are not there yet; whether there was one. *)
Fixpoint add_rules (d t : bytes) (privs : list Privilege) (rules : list GrantRule) (changed : bool) : list GrantRule * bool :=
  match privs with
  | [] => (rules, changed)
  | p :: privs =>
    let rule := mkRule p d t in
    if bool_decide (rule ∈ rules) then add_rules d t privs rules changed else add_rules d t privs (rules ++ [rule]) true
  end.

Definition revokes (privs : list Privilege) (d t : bytes) (r : GrantRule) : bool :=
  bool_decide (gr_priv r ∈ privs) && (bool_decide (gr_db r = d) || bool_decide (d = STAR)) &&
  (bool_decide (gr_tbl r = t) || bool_decide (t = STAR)).

Definition no_such_user {A} (user : bytes) : res A := Err (InvalidQuery (str "no such user '" ++ user ++ str "'")).

Definition grant_line (target : bytes) (priv scope : bytes) : list Datum :=
  [Text (str "GRANT " ++ priv ++ str " ON " ++ scope ++ str " TO '" ++ target ++ str "'@'%'")].

Definition rule_scope (r : GrantRule) : bytes :=
  if bool_decide (gr_db r = STAR) && bool_decide (gr_tbl r = STAR) then str "*.*" else gr_db r ++ str "." ++ gr_tbl r.

Definition grant_rows (s : PrivilegeStore) (target : bytes) : list (list Datum) :=
  let rows := (sort_by_key ((fun r => (rule_scope r, grant_line target (Privilege_name (gr_priv r)) (rule_scope r))) <$> default [] (ps_grants s !! target))).*2 in
  if bool_decide (target = SUPERUSER) then grant_line target (str "ALL PRIVILEGES") (str "*.*") :: rows else rows.

Definition exec_user_mgmt (x : Sess) (stmt : Statement) (s : PrivilegeStore) : PrivilegeStore * res Output :=
  match stmt with
  | SCreateUser name if_not_exists password =>
    if bool_decide (name = SUPERUSER) then (s, Err (InvalidQuery (str "user 'root' already exists")))
    else if bool_decide (name ∈ ps_users s) then
      (s, if if_not_exists : bool then Ok (Output_ok (str "user exists, skipped"))
          else Err (InvalidQuery (str "user '" ++ name ++ str "' already exists")))
    else
      (mkStore ({[name]} ∪ ps_users s) (ps_grants s) (<[name := password]> (ps_pending s)) (ps_tombstones s ∖ {[name]}) (bump (ps_version s)),
       Ok (Output_ok (str "user '" ++ name ++ str "' created")))
  | SDropUser name if_exists =>
    if bool_decide (name = SUPERUSER) then (s, Err (InvalidQuery (str "cannot drop user 'root'")))
    else if bool_decide (name ∉ ps_users s) then
      (s, if if_exists : bool then Ok (Output_ok (str "no such user, skipped")) else no_such_user name)
    else
      (mkStore (ps_users s ∖ {[name]}) (delete name (ps_grants s)) (delete name (ps_pending s)) ({[name]} ∪ ps_tombstones s) (bump (ps_version s)),
       Ok (Output_ok (str "user '" ++ name ++ str "' dropped")))
  | SAlterUser name password =>
    if bool_decide (name ∉ ps_users s) then (s, no_such_user name)
    else
      (mkStore (ps_users s) (ps_grants s) (<[name := password]> (ps_pending s)) (ps_tombstones s) (bump (ps_version s)),
       Ok (Output_ok (str "user '" ++ name ++ str "' altered")))
  | SGrant privs scope user =>
    let '(d, t) := concrete_scope x scope in
    if bool_decide (user ∉ ps_users s) then (s, no_such_user user)
    else if bool_decide (user = SUPERUSER) then (s, Err (InvalidQuery (str "cannot grant to 'root'")))
    else
      let '(rules, changed) := add_rules d t privs (default [] (ps_grants s !! user)) false in
      (mkStore (ps_users s) (<[user := rules]> (ps_grants s)) (ps_pending s) (ps_tombstones s)
         (if changed : bool then bump (ps_version s) else ps_version s),
       Ok (Output_ok (str "grants updated for '" ++ user ++ str "'")))
  | SRevoke privs scope user =>
    let '(d, t) := concrete_scope x scope in
    if bool_decide (user ∉ ps_users s) then (s, no_such_user user)
    else if bool_decide (user = SUPERUSER) then (s, Err (InvalidQuery (str "cannot revoke from 'root'")))
    else
      match ps_grants s !! user with
      | Some rules =>
        let kept := List.filter (fun r => negb (revokes privs d t r)) rules in
        if Nat.eqb (length kept) (length rules) then (s, Err (InvalidQuery (str "no such grant for '" ++ user ++ str "'")))
        else
          (mkStore (ps_users s) (<[user := kept]> (ps_grants s)) (ps_pending s) (ps_tombstones s) (bump (ps_version s)),
           Ok (Output_ok (str "grants updated for '" ++ user ++ str "'")))
      | None => (s, Err (InvalidQuery (str "no such grant for '" ++ user ++ str "'")))
      end
  | SShowGrants for_user =>
    let target := default (s_user x) for_user in
    if bool_decide (target ∉ ps_users s) && bool_decide (target <> SUPERUSER) then (s, no_such_user target)
    else (s, Ok (mkOutput [str "Grants"] (grant_rows s target) (str "OK")))
  | _ => (s, Err (NotSupported (str "not a user-management statement")))
  end.
