(* ===== verification/PrivilegeSpec.v ===== *)
(** Where privileges come from: along any run of user-management statements a
    user holds only what the store started with or what an administrator
    granted while holding that office. *)
From stdpp Require Import base list gmap strings.
From Stdlib Require Import ZArith Lia.
From S2P Require Import Prelude Machine Types Expr Ast Session Privilege.

Section spec.
Context (resolve : Sess -> bytes -> bytes).

(** A statement of a session, behind the gate. *)
Definition user_step (s : PrivilegeStore) (a : Sess * Statement) : PrivilegeStore :=
  match enforce resolve s a.1 a.2 with Ok _ => (exec_user_mgmt a.1 a.2 s).1 | _ => s end.

Definition user_run (s : PrivilegeStore) (acts : list (Sess * Statement)) : PrivilegeStore := fold_left user_step acts s.

(** [GRANT privs ON scope] gives [p] on [d.t]. *)
Definition gives (x : Sess) (privs : list Privilege) (scope : GrantScope) (p : Privilege) (d t : bytes) : bool :=
  existsb (fun q => rule_covers p d t (mkRule q (concrete_scope x scope).1 (concrete_scope x scope).2)) privs.

Lemma existsb_app_rule {A} (f : A -> bool) l x : existsb f (l ++ [x]) = existsb f l || f x.
Proof. rewrite existsb_app. cbn. by rewrite orb_false_r. Qed.

Lemma add_rules_gives p d t d' t' privs : forall rules changed,
  existsb (rule_covers p d t) (add_rules d' t' privs rules changed).1 = true ->
  existsb (rule_covers p d t) rules = true \/ existsb (fun q => rule_covers p d t (mkRule q d' t')) privs = true.
Proof.
  induction privs as [|q privs IH]; intros rules changed; cbn [add_rules existsb]; [by left|].
  case_bool_decide.
  - intros [?|?]%IH; [by left|right]. apply orb_true_iff. by right.
  - intros [H1|?]%IH; [|right; apply orb_true_iff; by right]. rewrite existsb_app_rule in H1.
    apply orb_true_iff in H1 as [?|?]; [by left|right]. apply orb_true_iff. by left.
Qed.

Lemma has_priv_insert s users pend tomb v u rules u' p d t :
  has_priv (mkStore users (<[u := rules]> (ps_grants s)) pend tomb v) u' p d t =
  if decide (u' = u) then existsb (rule_covers p d t) rules else has_priv s u' p d t.
Proof. unfold has_priv. cbn. destruct (decide (u' = u)) as [->|]; [by rewrite lookup_insert_eq|by rewrite lookup_insert_ne]. Qed.

Lemma existsb_filter {A} (f g : A -> bool) l : existsb f (List.filter g l) = true -> existsb f l = true.
Proof. rewrite !existsb_exists. intros (x & [Hi _]%filter_In & Hf). by exists x. Qed.

(** Only an administrator gets a statement that changes the store past the gate. *)
Lemma changing_needs_admin s x stmt : enforce resolve s x stmt = Ok () ->
  is_admin s (s_user x) = true \/ (exec_user_mgmt x stmt s).1 = s.
Proof.
  assert (forall cmd, require_admin s x cmd = Ok () -> is_admin s (s_user x) = true) as Hadm.
  { intros cmd. unfold require_admin, is_root, is_admin. case_bool_decide; [done|]. cbn. by destruct (has_priv _ _ _ _ _). }
  destruct stmt; cbn [enforce stmt_admin_command exec_user_mgmt]; try (intros _; by right); try (intros H; left; by eapply Hadm).
  intros _. right. by destruct (_ && _).
Qed.

(** The five statements that change accounts or rules. *)
Definition manages_users (stmt : Statement) : bool :=
  match stmt with
  | SCreateUser _ _ _ | SDropUser _ _ | SAlterUser _ _ | SGrant _ _ _ | SRevoke _ _ _ => true
  | _ => false
  end.

(** A session that is no administrator is refused and changes nothing. *)
Lemma outsider_step s x stmt : is_admin s (s_user x) = false ->
  user_step s (x, stmt) = s /\
  (manages_users stmt = true -> enforce resolve s x stmt = denied (s_user x) (stmt_admin_command stmt) (str "*.*")).
Proof.
  intros Hx. split.
  - unfold user_step. cbn [fst snd]. destruct (enforce resolve s x stmt) as [[]| |] eqn:Ee; [|done|done].
    destruct (changing_needs_admin s x stmt Ee) as [Hadm|Hsame]; [congruence|done].
  - assert (Hreq : forall cmd, require_admin s x cmd = denied (s_user x) cmd (str "*.*")).
    { intros cmd. unfold require_admin, is_root. rewrite Hx. unfold is_admin in Hx. by destruct (bool_decide _). }
    destruct stmt; try done; intros _; apply Hreq.
Qed.

(** One statement. *)
Lemma step_gives s x stmt u p d t : has_priv (user_step s (x, stmt)) u p d t = true ->
  has_priv s u p d t = true \/
  exists privs scope, stmt = SGrant privs scope u /\ is_admin s (s_user x) = true /\ u ∈ ps_users s /\ gives x privs scope p d t = true.
Proof.
  unfold user_step. cbn [fst snd]. destruct (enforce resolve s x stmt) as [[]| |] eqn:Ee; [|by left|by left].
  destruct (changing_needs_admin s x stmt Ee) as [Hadm| ->]; [|by left].
  destruct stmt; cbn [exec_user_mgmt fst]; try (by left).
  - case_bool_decide; [by left|]. case_bool_decide; [by left|]. cbn. by left.
  - case_bool_decide; [by left|]. case_bool_decide; [by left|]. unfold has_priv. cbn. rewrite lookup_delete. case_decide; [done|by left].
  - case_bool_decide; by left.
  - destruct (concrete_scope x scope) as [d' t'] eqn:Es. case_bool_decide as Hu; [by left|]. case_bool_decide; [by left|].
    destruct (add_rules d' t' privs _ false) as [rules changed] eqn:Ea. cbn [fst]. rewrite has_priv_insert.
    case_decide as Hw; [|by left]. subst. intros H1. pose proof (add_rules_gives p d t d' t' privs (default [] (ps_grants s !! user)) false) as Hg.
    rewrite Ea in Hg. destruct (Hg H1) as [H2|H2].
    + left. unfold has_priv. by destruct (ps_grants s !! user).
    + right. exists privs, scope. split; [done|]. split; [done|]. split; [done|]. unfold gives. by rewrite Es.
  - destruct (concrete_scope x scope) as [d' t']. case_bool_decide; [by left|]. case_bool_decide; [by left|].
    destruct (ps_grants s !! user) as [rules|] eqn:Eg; [|by left]. destruct (Nat.eqb _ _); [by left|]. cbn [fst]. rewrite has_priv_insert.
    case_decide as Hw; [|by left]. subst. intros H1%existsb_filter. left. unfold has_priv. by rewrite Eg.
  - destruct (_ && _); by left.
Qed.

(** Grants exist for existing users only; dropped users are not users. *)
Record store_ok (s : PrivilegeStore) : Prop := {
  so_grants : forall u, is_Some (ps_grants s !! u) -> u ∈ ps_users s;
  so_pending : forall u, is_Some (ps_pending s !! u) -> u ∈ ps_users s;
  so_dropped : ps_users s ## ps_tombstones s;
}.

Lemma step_ok s a : store_ok s -> store_ok (user_step s a).
Proof.
  destruct a as [x stmt]. unfold user_step. cbn [fst snd]. intros Hs. destruct (enforce resolve s x stmt); [|done|done]. pose proof Hs as [H1 H2 H3].
  destruct stmt; cbn [exec_user_mgmt fst]; try done.
  - case_bool_decide; [done|]. case_bool_decide; [done|]. split; cbn.
    + intros u Hu. set_solver.
    + intros u [y [[-> _]|[_ Hy]]%lookup_insert_Some]; [set_solver|]. specialize (H2 u ltac:(eauto)). set_solver.
    + set_solver.
  - case_bool_decide; [done|]. case_bool_decide; [done|]. split; cbn.
    + intros u [y [Hn Hy]%lookup_delete_Some]. specialize (H1 u ltac:(eauto)). set_solver.
    + intros u [y [Hn Hy]%lookup_delete_Some]. specialize (H2 u ltac:(eauto)). set_solver.
    + set_solver.
  - case_bool_decide as Hu; [done|]. split; cbn; [done| |done].
    intros u [y [[-> _]|[_ Hy]]%lookup_insert_Some]; [done|]. apply H2. eauto.
  - destruct (concrete_scope x scope) as [d' t']. case_bool_decide as Hu; [done|]. case_bool_decide; [done|].
    destruct (add_rules _ _ _ _ _) as [rules changed]. split; cbn; [|done|done].
    intros u [y [[-> _]|[_ Hy]]%lookup_insert_Some]; [done|]. apply H1. eauto.
  - destruct (concrete_scope x scope) as [d' t']. case_bool_decide as Hu; [done|]. case_bool_decide; [done|].
    destruct (ps_grants s !! user) as [rules|] eqn:Eg; [|done]. destruct (Nat.eqb _ _); [done|]. split; cbn; [|done|done].
    intros u [y [[-> _]|[_ Hy]]%lookup_insert_Some]; [done|]. apply H1. eauto.
  - by destruct (_ && _).
Qed.

Lemma run_snoc s acts a : user_run s (acts ++ [a]) = user_step (user_run s acts) a.
Proof. unfold user_run. by rewrite fold_left_app. Qed.

Lemma run_ok s acts : store_ok s -> store_ok (user_run s acts).
Proof. intros Hs. induction acts as [|a acts IH] using rev_ind; [done|]. rewrite run_snoc. by apply step_ok. Qed.

End spec.

(** C22: After any sequence of statements of any sessions, each passed through
    the gate: (1) a session that is not an administrator at that point leaves
    accounts, rules, staged passwords and tombstones as they are whatever it
    runs, and CREATE, DROP and ALTER USER, GRANT and REVOKE by it are refused
    with AccessDenied; (2) a user who holds a privilege either held it at the
    start or got it from a GRANT of that privilege on that scope, which a
    session ran that was an administrator at that very point; and he is an
    account that has not been dropped since.  So nobody raises his own rights,
    and dropping an account ends its rights for good. *)
Theorem privileges_come_from_admins (resolve : Sess -> bytes -> bytes) (s : PrivilegeStore) (acts : list (Sess * Statement)) u p d t :
  let s' := user_run resolve s acts in
  store_ok s ->
  (forall x stmt, is_admin s' (s_user x) = false ->
     user_step resolve s' (x, stmt) = s' /\
     (manages_users stmt = true -> enforce resolve s' x stmt = denied (s_user x) (stmt_admin_command stmt) (str "*.*"))) /\
  (has_priv s' u p d t = true ->
   u ∈ ps_users s' /\ u ∉ ps_tombstones s' /\
   (has_priv s u p d t = true \/
    exists pre x privs scope post, acts = pre ++ (x, SGrant privs scope u) :: post /\
      is_admin (user_run resolve s pre) (s_user x) = true /\ u ∈ ps_users (user_run resolve s pre) /\ gives x privs scope p d t = true)).
Proof.
  intros s' Hs. split; [intros x stmt; apply outsider_step|]. unfold s'. intros Hp.
  pose proof (run_ok resolve s acts Hs) as [H1 _ H3].
  assert (u ∈ ps_users (user_run resolve s acts)) as Hu by (apply H1; unfold has_priv in Hp; by destruct (ps_grants _ !! u)).
  split; [done|]. split; [set_solver|]. clear H1 H3 Hu s'. induction acts as [|[x stmt] acts IH] using rev_ind; [by left|].
  rewrite run_snoc in Hp. apply step_gives in Hp as [Hp|(privs & scope & -> & Ha & Hu & Hg)].
  - destruct (IH Hp) as [?|(pre & y & privs & scope & post & -> & ?)]; [by left|right].
    exists pre, y, privs, scope, (post ++ [(x, stmt)]). split; [by rewrite <- app_assoc|done].
  - right. by exists acts, x, privs, scope, [].
Qed.

(** Root makes ann an administrator, who lets bob read. *)
Definition demo_root : Sess := session_default.
Definition demo_ann : Sess := mkSess None (str "shop") (str "ann") None None None None None RepeatableRead None true.
Definition demo_acts : list (Sess * Statement) :=
  [(demo_root, SCreateUser (str "ann") false (str "x")); (demo_root, SCreateUser (str "bob") false (str "y"));
   (demo_ann, SGrant [PSelect] (GTable None (str "t")) (str "bob"));
   (demo_root, SGrant [PAll] GGlobal (str "ann")); (demo_ann, SGrant [PSelect] (GTable None (str "t")) (str "bob"))].

(** Bob, who may read one table and nothing else. *)
Definition demo_bob : Sess := mkSess None (str "shop") (str "bob") None None None None None RepeatableRead None true.

Lemma privileges_come_from_admins_witness :
  let s := user_run (fun _ n => n) store_new demo_acts in
  (user_step (fun _ n => n) s (demo_bob, SDropUser (str "ann") false) = s /\
   enforce (fun _ n => n) s demo_bob (SRevoke [PAll] GGlobal (str "ann")) = denied (str "bob") (str "REVOKE") (str "*.*")) /\
  (str "bob") ∈ ps_users s /\ (str "bob") ∉ ps_tombstones s /\
  (has_priv store_new (str "bob") PSelect (str "shop") (str "t") = true \/
   exists pre x privs scope post, demo_acts = pre ++ (x, SGrant privs scope (str "bob")) :: post /\
     is_admin (user_run (fun _ n => n) store_new pre) (s_user x) = true /\ str "bob" ∈ ps_users (user_run (fun _ n => n) store_new pre) /\
     gives x privs scope PSelect (str "shop") (str "t") = true).
Proof.
  destruct (privileges_come_from_admins (fun _ n => n) store_new demo_acts (str "bob") PSelect (str "shop") (str "t")) as [Hout Hin].
  - split; cbn; [intros u [? H]; by rewrite lookup_empty in H|intros u [? H]; by rewrite lookup_empty in H|set_solver].
  - split; [split|].
    + apply (Hout demo_bob (SDropUser (str "ann") false)). vm_compute. reflexivity.
    + apply (Hout demo_bob (SRevoke [PAll] GGlobal (str "ann"))); vm_compute; reflexivity.
    + apply Hin. vm_compute. reflexivity.
Defined.

(** The rejected first attempt of ann left no rule. *)
Example demo_denied : ps_grants (user_run (fun _ n => n) store_new (take 3 demo_acts)) = ∅.
Proof. vm_compute. reflexivity. Qed.
