(* ===== verification/Engine.v ===== *)
(** The engine as a statement finds it (db/mod.rs): tables, log, commit
    pipeline and version buffer, the visible rows of the session, and the
    commit of a set of staged writes.

    One statement runs at a time; what interleaves inside a commit is modelled
    by [Mvcc].  The log is the list of its records: [log_end] is the offset of
    its end.  A wait for durability or for the install frontier that nobody
    ends is [Fuel]. *)
From stdpp Require Import base list gmap strings.
From Stdlib Require Import ZArith Lia.
From S2P Require Import Prelude Machine Types TableDef WalCodec BTree Kv Mvcc Page Table Expr Ast Cost Catalog Recovery Visible Session Privilege.

Section engine.
Context {T P : Type} `{KvTree T, Pool P} `{HashOrder}.
Context (f64_show : Z -> bytes) (debug : Expr -> bytes) (entry_count : T -> Z).
(** The syncer gets the log onto the disk up to this offset. *)
Context (synced : Z -> bool).

Abbreviation Tbl := (@Table T P).
Abbreviation DB := (@Data T P).
Abbreviation TM := (SM Tbl).
Abbreviation Row := (list Datum).

(** [e_log]: what the log holds after its header; [e_frontier]: the install
    frontier; [e_now], [e_unix]: the clocks as the statement reads them. *)
Record Engine := mkEngine {
  e_data : DB;
  e_log : list Record_;
  e_frontier : Z;
  e_in_flight : gset (bytes * bytes);
  e_next_txn : Z;
  e_commit_epoch : Z;
  e_visible_epoch : Z;
  e_versions : VersionState (Row := Row);
  e_max_age : option Z;
  e_privs : PrivilegeStore;
  e_now : Z;
  e_unix : Z;
  e_read_only : bool;
}.

Definition set_data (d : DB) (e : Engine) : Engine :=
  mkEngine d (e_log e) (e_frontier e) (e_in_flight e) (e_next_txn e) (e_commit_epoch e) (e_visible_epoch e) (e_versions e) (e_max_age e) (e_privs e) (e_now e) (e_unix e) (e_read_only e).
Definition set_log (l : list Record_) (e : Engine) : Engine :=
  mkEngine (e_data e) l (e_frontier e) (e_in_flight e) (e_next_txn e) (e_commit_epoch e) (e_visible_epoch e) (e_versions e) (e_max_age e) (e_privs e) (e_now e) (e_unix e) (e_read_only e).
Definition set_frontier (f : Z) (e : Engine) : Engine :=
  mkEngine (e_data e) (e_log e) f (e_in_flight e) (e_next_txn e) (e_commit_epoch e) (e_visible_epoch e) (e_versions e) (e_max_age e) (e_privs e) (e_now e) (e_unix e) (e_read_only e).
Definition set_in_flight (f : gset (bytes * bytes)) (e : Engine) : Engine :=
  mkEngine (e_data e) (e_log e) (e_frontier e) f (e_next_txn e) (e_commit_epoch e) (e_visible_epoch e) (e_versions e) (e_max_age e) (e_privs e) (e_now e) (e_unix e) (e_read_only e).
Definition set_next_txn (n : Z) (e : Engine) : Engine :=
  mkEngine (e_data e) (e_log e) (e_frontier e) (e_in_flight e) n (e_commit_epoch e) (e_visible_epoch e) (e_versions e) (e_max_age e) (e_privs e) (e_now e) (e_unix e) (e_read_only e).
Definition set_epochs (c v : Z) (e : Engine) : Engine :=
  mkEngine (e_data e) (e_log e) (e_frontier e) (e_in_flight e) (e_next_txn e) c v (e_versions e) (e_max_age e) (e_privs e) (e_now e) (e_unix e) (e_read_only e).
Definition set_versions (vs : VersionState (Row := Row)) (e : Engine) : Engine :=
  mkEngine (e_data e) (e_log e) (e_frontier e) (e_in_flight e) (e_next_txn e) (e_commit_epoch e) (e_visible_epoch e) vs (e_max_age e) (e_privs e) (e_now e) (e_unix e) (e_read_only e).
Definition set_max_age (a : option Z) (e : Engine) : Engine :=
  mkEngine (e_data e) (e_log e) (e_frontier e) (e_in_flight e) (e_next_txn e) (e_commit_epoch e) (e_visible_epoch e) (e_versions e) a (e_privs e) (e_now e) (e_unix e) (e_read_only e).
Definition set_privs (s : PrivilegeStore) (e : Engine) : Engine :=
  mkEngine (e_data e) (e_log e) (e_frontier e) (e_in_flight e) (e_next_txn e) (e_commit_epoch e) (e_visible_epoch e) (e_versions e) (e_max_age e) s (e_now e) (e_unix e) (e_read_only e).

Definition set_read_only (b : bool) (e : Engine) : Engine :=
  mkEngine (e_data e) (e_log e) (e_frontier e) (e_in_flight e) (e_next_txn e) (e_commit_epoch e) (e_visible_epoch e) (e_versions e) (e_max_age e) (e_privs e) (e_now e) (e_unix e) b.

(** The engine and the session of the statement. *)
Record Conn := mkConn { c_db : Engine; c_ses : Sess }.

Abbreviation EM := (SM Conn).

Definition db (f : Engine -> Engine) : EM () := modify (fun c => mkConn (f (c_db c)) (c_ses c)).
Definition session (f : Sess -> Sess) : EM () := modify (fun c => mkConn (c_db c) (f (c_ses c))).
Definition the_db {A} (f : Engine -> A) : EM A := gets (fun c => f (c_db c)).
Definition the_session {A} (f : Sess -> A) : EM A := gets (fun c => f (c_ses c)).

Definition log_end (e : Engine) : Z := Zlen wal_header + Zlen (log_bytes (e_log e)).

(** * Tables *)

Definition has_dot (name : bytes) : bool := existsb (Z.eqb DOT) name.

Definition resolve_table_key (e : Engine) (x : Sess) (name : bytes) : bytes :=
  if has_dot name then name
  else
    let qual := s_current_db x ++ str "." ++ name in
    let tables := d_tables (e_data e) in
    if bool_decide (is_Some (tables !! qual)) then qual else if bool_decide (is_Some (tables !! name)) then name else qual.

Definition table_key (name : bytes) : EM bytes := gets (fun c => resolve_table_key (c_db c) (c_ses c) name).

(** A call on the table behind a key. *)
Definition at_table {A} (key : bytes) (op : TM A) : EM A := fun c =>
  let d := e_data (c_db c) in
  match d_tables d !! key with
  | None => Ret (c, Err (TableNotFound key))
  | Some t =>
    '(t, p, r) ← lend op t (d_pool d);
    mret (mkConn (set_data (mkData (d_databases d) (<[key := t]> (d_tables d)) p) (c_db c)) (c_ses c), r)
  end.

(** [self.table(session, name)?]: the table, by its key. *)
Definition open_table (name : bytes) : EM (bytes * Tbl) :=
  key ← table_key name;
  t ← the_db (fun e => d_tables (e_data e) !! key);
  match t with Some t => mret (key, t) | None => fail (TableNotFound name) end.

(** * Visible rows *)

(** The session as [Visible] reads it: the staged writes in the order their map
    is walked. *)
Definition view_session (x : Sess) : Visible.Session :=
  Visible.mkSession ((fun t => entries (at_staged t)) <$> s_txn x) (s_snapshot x).

Definition version_view (e : Engine) : VersionView := mkView (e_versions e) (e_max_age e) (e_now e).

Definition visible_row (table key : bytes) : EM (option Row) :=
  v ← the_db version_view; x ← the_session view_session; at_table table (Visible.visible_row v x key).

Definition visible_rows (table : bytes) (selection : option Expr) : EM (list Row) :=
  v ← the_db version_view; x ← the_session view_session;
  at_table table (Visible.visible_rows f64_show debug entry_count v x selection).

(** * Snapshots *)

(** The part of the engine the operations of [Mvcc] work on. *)
Definition mvcc_of (e : Engine) : Mvcc.Db (Row := Row) :=
  Mvcc.mkDb ∅ (e_versions e) (e_commit_epoch e) (e_visible_epoch e) [] None (e_next_txn e) ∅.
Definition from_mvcc (s : Mvcc.Db (Row := Row)) (e : Engine) : Engine :=
  set_versions (Mvcc.versions s) (set_next_txn (Mvcc.next_txn s) e).
Definition mvcc_session (x : Sess) : Mvcc.Session := Mvcc.mkSession (at_id <$> s_txn x) (s_snapshot x).

Definition on_snapshot (f : Mvcc.Db (Row := Row) -> Mvcc.Session -> Z -> Mvcc.Db * Mvcc.Session) : EM () := modify (fun c =>
  let '(s, y) := f (mvcc_of (c_db c)) (mvcc_session (c_ses c)) (e_now (c_db c)) in
  mkConn (from_mvcc s (c_db c)) (set_snapshot (Mvcc.snapshot y) (c_ses c))).

Definition snapshot_end : EM () := on_snapshot (fun s y _ => Mvcc.snapshot_end s y).
Definition snapshot_end_statement : EM () := on_snapshot (fun s y _ => Mvcc.snapshot_end_statement s y).
Definition snapshot_pin_active : EM () := on_snapshot Mvcc.snapshot_pin_active.
Definition snapshot_pin_statement : EM () := on_snapshot Mvcc.snapshot_pin_statement.

(** [START TRANSACTION WITH CONSISTENT SNAPSHOT] *)
Definition snapshot_begin : EM Output := fun c =>
  match Mvcc.snapshot_begin (mvcc_of (c_db c)) (mvcc_session (c_ses c)) (e_now (c_db c)) with
  | Ok (s, y) =>
    Ret (mkConn (from_mvcc s (c_db c)) (set_txn ((fun i => mkActive i ∅) <$> Mvcc.txn y) (set_snapshot (Mvcc.snapshot y) (c_ses c))),
         Ok (Output_ok (str "BEGIN")))
  | Err err => Ret (c, Err err)
  | Panic => Ret (c, Panic)
  end.

(** * Commit *)

Definition alloc_txn : EM Z := n ← the_db e_next_txn; _ ← db (set_next_txn (n + 1)); mret n.

Definition alloc_commit_epoch : EM Z := fun c =>
  let e := c_db c in Ret (mkConn (set_epochs (e_commit_epoch e + 1) (e_visible_epoch e) e) (c_ses c), Ok (e_commit_epoch e)).

(** The offsets of the appended records. *)
Definition append_records (recs : list Record_) : EM (Z * Z) := fun c =>
  let e := c_db c in let e' := set_log (e_log e ++ recs) e in
  Ret (mkConn e' (c_ses c), Ok (log_end e, log_end e')).

(** The waiter sleeps until the syncer has written past [end]; when the syncer
    died nobody wakes it. *)
Definition wait_durable (upto : Z) : EM () := fun c => if synced upto then Ret (c, Ok ()) else Fuel.

(** [while *frontier != start { wait }] *)
Definition wait_frontier (start : Z) : EM () := fun c => if e_frontier (c_db c) =? start then Ret (c, Ok ()) else Fuel.

(** A transaction of its own, whose effect is there already (DDL). *)
Definition stamped (now : Z) (rec : Record_) : Record_ := match rec with RCommit txn None => RCommit txn (Some now) | other => other end.

Definition wal_commit (recs : list Record_) : EM () :=
  now ← the_db e_unix;
  '(start, upto) ← append_records (stamped now <$> recs);
  _ ← wait_durable upto;
  _ ← wait_frontier start;
  db (set_frontier upto).

(** The version a write replaces. *)
Definition record_install (table key : bytes) (new_enc : option bytes) (epoch : Z) : EM () :=
  prev_raw ← at_table table (tree_get key);
  if bool_decide (prev_raw = new_enc) then mret ()
  else
    prev ← at_table table (Table.decode_opt prev_raw);
    db (fun e => let vs := e_versions e in
      set_versions (mkVersions (<[(table, key) := epoch]> (committed vs)) (<[(table, key) := (epoch, prev) :: default [] (chains vs !! (table, key))]> (chains vs))
                      (snapshots vs) (next_snapshot_id vs)) e).

Fixpoint record_commit_batch (writes : list ((bytes * bytes) * option bytes)) (epoch : Z) : EM () :=
  match writes with
  | [] => mret ()
  | ((table, key), enc) :: writes => _ ← record_install table key enc epoch; record_commit_batch writes epoch
  end.

Definition gc_versions : EM () := db (fun e => set_versions (gc_locked (e_versions e)) e).

(** The tables of the staged writes exist. *)
Fixpoint find_tables (staged : list ((bytes * bytes) * StagedWrite)) : EM () :=
  match staged with
  | [] => mret ()
  | ((t, _), _) :: staged =>
    found ← the_db (fun e => bool_decide (is_Some (d_tables (e_data e) !! t)));
    if found : bool then find_tables staged else fail (TableNotFound t)
  end.

(** The stored form of every write. *)
Fixpoint encode_writes (staged : list ((bytes * bytes) * StagedWrite)) : res (list ((bytes * bytes) * option bytes)) :=
  match staged with
  | [] => mret []
  | (tk, w) :: staged =>
    enc ← match sw_row w with
          | Some row => if MAX_VALUE_LEN <? Zlen (encode_row row) then Err (NotSupported (str "row too large")) else mret (Some (encode_row row))
          | None => mret None
          end;
    rest ← encode_writes staged; mret ((tk, enc) :: rest)
  end.

Definition write_record (txn : Z) (w : (bytes * bytes) * option bytes) : Record_ :=
  match w with ((t, k), Some enc) => RPut txn t k enc | ((t, k), None) => RDelete txn t k end.

Definition has_inserts (staged : Staged) : bool := existsb (fun e => sw_insert e.2) (map_to_list staged).

(** A key to be inserted must be neither stored nor in flight. *)
Fixpoint check_inserts (staged : list ((bytes * bytes) * StagedWrite)) : EM () :=
  match staged with
  | [] => mret ()
  | ((t, k), w) :: staged =>
    if sw_insert w then
      stored ← at_table t (tree_get k);
      flying ← the_db (fun e => bool_decide ((t, k) ∈ e_in_flight e));
      if bool_decide (is_Some stored) || flying then pk ← lift (decode_key k); fail (DuplicateKey (datum_to_string f64_show pk))
      else check_inserts staged
    else check_inserts staged
  end.

Definition insert_keys (staged : list ((bytes * bytes) * StagedWrite)) : gset (bytes * bytes) :=
  list_to_set (List.filter (fun e => sw_insert e.2) staged).*1.

Fixpoint apply_writes (writes : list ((bytes * bytes) * option bytes)) : EM () :=
  match writes with
  | [] => mret ()
  | ((t, k), enc) :: writes =>
    _ ← at_table t (match enc with Some enc => apply_raw k enc | None => remove_raw k end);
    apply_writes writes
  end.

(** [self.visible_epoch.store(commit_epoch); vs.gc_locked(); *frontier = end] *)
Definition publish (epoch upto : Z) : EM () :=
  _ ← db (fun e => set_epochs (e_commit_epoch e) epoch e);
  _ ← gc_versions;
  db (set_frontier upto).

Definition commit_txn (txn : Z) (staged : Staged) : EM () :=
  let l := entries staged in
  if bool_decide (staged = ∅) then mret ()
  else
    _ ← find_tables l;
    writes ← lift (encode_writes l);
    now ← the_db e_unix;
    let recs := (write_record txn <$> writes) ++ [RCommit txn (Some now)] in
    _ ← (if has_inserts staged then check_inserts l else mret ());
    epoch ← alloc_commit_epoch;
    '(start, upto) ← append_records recs;
    _ ← (if has_inserts staged then db (fun e => set_in_flight (e_in_flight e ∪ insert_keys l) e) else mret ());
    _ ← wait_durable upto;
    _ ← wait_frontier start;
    _ ← record_commit_batch writes epoch;
    _ ← apply_writes writes;
    _ ← publish epoch upto;
    if has_inserts staged then db (fun e => set_in_flight (e_in_flight e ∖ list_to_set l.*1) e) else mret ().

(** One row, outside any transaction. *)
Definition commit_single_update (table key enc : bytes) : EM () :=
  if MAX_VALUE_LEN <? Zlen enc then fail (NotSupported (str "row too large"))
  else
    txn ← alloc_txn;
    now ← the_db e_unix;
    epoch ← alloc_commit_epoch;
    '(start, upto) ← append_records [RPut txn table key enc; RCommit txn (Some now)];
    _ ← wait_durable upto;
    _ ← wait_frontier start;
    _ ← record_install table key (Some enc) epoch;
    _ ← at_table table (apply_raw key enc);
    publish epoch upto.

(** Commit the writes of a statement, or add them to the transaction; without
    autocommit a write begins one. *)
Definition commit_staged_or_stage (staged : Staged) : EM () :=
  x ← the_session id;
  match s_txn x with
  | Some txn => session (set_txn (Some (mkActive (at_id txn) (staged ∪ at_staged txn))))
  | None =>
    id ← alloc_txn;
    if s_autocommit x then commit_txn id staged else session (set_txn (Some (mkActive id staged)))
  end.

End engine.
