(* ===== verification/Fk.v ===== *)
(** Foreign keys (db/fk.rs): the existence check of a child row, the actions of
    a parent deletion, and what they add to the writes of a statement.

    A table is passed by its key in the catalog.  A cascade recurses through
    the rows it deletes; it is given [cascade_fuel] levels, one more than there
    are rows a level could visit for the first time. *)
From stdpp Require Import base list gmap strings.
From Stdlib Require Import ZArith Lia.
From S2P Require Import Prelude Machine Types DateTime TableDef WalCodec BTree Kv Mvcc Page Float Table Expr Ast Plan Cost Recovery Visible Session Engine.

(** [x == y] after the coercions of the evaluator; NULL never matches. *)
Definition coerce_eq (a b : Datum) : bool :=
  if is_null a || is_null b then false else let '(x, y) := coerce_pair a b in datum_eqb x y.

(** The value and its mirrors under those coercions. *)
Definition fk_candidates (val : Datum) : list Datum :=
  val ::
  match val with
  | Int v => [Float (f64_of_i64 v)]
  | Float v =>
    if f64_integral v && f64_le (f64_of_i64 i64_MIN) v && f64_le v (f64_of_i64 i64_MAX) then [Int (f64_to_i64 v)] else []
  | DateTime m => [Text (format_datetime_micros m)]
  | Text s => match parse_datetime_str s with Some m => [DateTime m] | None => [] end
  | _ => []
  end.

Definition violation {A} (m : bytes) : res A := Err (ForeignKeyViolation m).

Section fk.
Context {T P : Type} `{KvTree T, Pool P} `{HashOrder}.
Context (f64_show : Z -> bytes) (debug : Expr -> bytes) (entry_count : T -> Z).

Abbreviation Tbl := (@Table T P).
Abbreviation Row := (list Datum).
Abbreviation EM := (SM (@Conn T P)).
Abbreviation visible_row := (Engine.visible_row (T := T) (P := P)).
Abbreviation visible_rows := (Engine.visible_rows f64_show debug entry_count).

Definition show (d : Datum) : bytes := datum_to_string f64_show d.

Definition all_tables : EM (list (bytes * Tbl)) := the_db (fun e => entries (d_tables (e_data e))).

Definition get_table (key : bytes) : EM Tbl :=
  t ← the_db (fun e => d_tables (e_data e) !! key);
  match t with Some t => mret t | None => fail (TableNotFound key) end.

(** [schema.index_of(c).ok_or(ColumnNotFound(c))?] *)
Definition column_or_fail (s : Schema) (c : bytes) : EM Z :=
  match index_of s c with Some i => mret i | None => fail (ColumnNotFound c) end.

Definition fk_children_of (parent_key : bytes) : EM (list (bytes * ForeignKeyDef)) :=
  ts ← all_tables;
  mret (flat_map (fun e => (fun fk => (e.1, fk)) <$> List.filter (fun fk => bool_decide (fk_ref_table fk = parent_key)) (td_foreign_keys (t_def e.2))) ts).

Definition references (key : bytes) (t : Tbl) : bool := existsb (fun fk => bool_decide (fk_ref_table fk = key)) (td_foreign_keys (t_def t)).

Definition fk_is_referenced (table_key : bytes) : EM bool := ts ← all_tables; mret (existsb (fun e => references table_key e.2) ts).

(** ** Rows as the checks see them *)

Definition fk_row (table : bytes) (key : bytes) (staged pending : Staged) : EM (option Row) :=
  t ← get_table table;
  let tkey := (td_name (t_def t), key) in
  match pending !! tkey with
  | Some w => mret (sw_row w)
  | None => match staged !! tkey with Some w => mret (sw_row w) | None => visible_row table key end
  end.

(** [.any(|row| coerce_eq(&row[col], val))] *)
Fixpoint any_equal (col : Z) (val : Datum) (rows : list Row) : res bool :=
  match rows with
  | [] => mret false
  | r :: rows => d ← row_at r col; if coerce_eq d val then mret true else any_equal col val rows
  end.

(** The rows put into a table. *)
Definition puts_of (name : bytes) (m : Staged) : list Row := omap (fun e => if bool_decide (e.1.1 = name) then sw_row e.2 else None) (entries m).

Definition fk_staged_hit (name : bytes) (col : Z) (val : Datum) (staged pending : Staged) : res bool :=
  any_equal col val (puts_of name staged ++ puts_of name pending).

Fixpoint exists_by_key (table : bytes) (cands : list Datum) (staged pending : Staged) : EM bool :=
  match cands with
  | [] => mret false
  | c :: cands =>
    key ← lift (encode_key c);
    r ← fk_row table key staged pending;
    match r with Some _ => mret true | None => exists_by_key table cands staged pending end
  end.

Fixpoint any_pk (table : bytes) (col : Z) (val : Datum) (pks : list Datum) (staged pending : Staged) : EM bool :=
  match pks with
  | [] => mret false
  | pk :: pks =>
    key ← lift (encode_key pk);
    r ← fk_row table key staged pending;
    hit ← (match r with Some row => d ← lift (row_at row col); mret (coerce_eq d val) | None => mret false end);
    if hit : bool then mret true else any_pk table col val pks staged pending
  end.

Fixpoint exists_by_index (table : bytes) (col : Z) (val : Datum) (cands : list Datum) (staged pending : Staged) : EM bool :=
  match cands with
  | [] => mret false
  | c :: cands =>
    pks ← at_table table (scan_secondary col (Some (c, true)) (Some (c, true)));
    hit ← any_pk table col val (default [] pks) staged pending;
    if hit : bool then mret true else exists_by_index table col val cands staged pending
  end.

Definition is_indexed (t : Tbl) (col : Z) : bool :=
  existsb (fun d => bool_decide (index_of (td_schema (t_def t)) (idx_column d) = Some col)) (secondary_indexes t).

Definition fk_parent_exists (parent : bytes) (parent_col : Z) (val : Datum) (staged pending : Staged) : EM bool :=
  t ← get_table parent;
  hit ← lift (fk_staged_hit (td_name (t_def t)) parent_col val staged pending);
  if hit : bool then mret true
  else if parent_col =? pk_idx (td_schema (t_def t)) then exists_by_key parent (fk_candidates val) staged pending
  else if is_indexed t parent_col then exists_by_index parent parent_col val (fk_candidates val) staged pending
  else rows ← visible_rows parent None; lift (any_equal parent_col val rows).

(** ** The child side *)

Fixpoint check_fks (child : TableDef) (fks : list ForeignKeyDef) (row : Row) (staged pending : Staged) : EM () :=
  match fks with
  | [] => mret ()
  | fk :: fks =>
    col ← column_or_fail (td_schema child) (fk_column fk);
    val ← lift (row_at row col);
    _ ← (if is_null val then mret ()
         else
           parent ← get_table (fk_ref_table fk);
           pcol ← column_or_fail (td_schema (t_def parent)) (fk_ref_column fk);
           found ← fk_parent_exists (fk_ref_table fk) pcol val staged pending;
           if found : bool then mret ()
           else lift (violation (str "value " ++ show val ++ str " in '" ++ td_name child ++ str "." ++ fk_column fk ++
                                 str "' has no match in '" ++ td_name (t_def parent) ++ str "." ++ fk_ref_column fk ++ str "'")));
    check_fks child fks row staged pending
  end.

Definition fk_check_child_row (child : bytes) (row : Row) (staged pending : Staged) : EM () :=
  t ← get_table child; check_fks (t_def t) (td_foreign_keys (t_def t)) row staged pending.

(** ** The parent side *)

Definition overlay_map (name : bytes) (m : Staged) : gmap bytes (option Row) :=
  list_to_map (omap (fun e => if bool_decide (e.1.1 = name) then Some (e.1.2, sw_row e.2) else None) (map_to_list m)).

(** The overlay rows that carry the value. *)
Fixpoint overlay_refs (col : Z) (val : Datum) (l : list (bytes * option Row)) : res (list (bytes * Row)) :=
  match l with
  | [] => mret []
  | (k, Some row) :: l =>
    d ← row_at row col; rest ← overlay_refs col val l;
    mret (if coerce_eq d val then (k, row) :: rest else rest)
  | (_, None) :: l => overlay_refs col val l
  end.

Fixpoint refs_of_pks (child : bytes) (col : Z) (val : Datum) (overlay : gmap bytes (option Row)) (pks : list Datum) (staged pending : Staged) : EM (list (bytes * Row)) :=
  match pks with
  | [] => mret []
  | pk :: pks =>
    key ← lift (encode_key pk);
    out ← (if bool_decide (is_Some (overlay !! key)) then mret []
           else
             r ← fk_row child key staged pending;
             match r with
             | Some row => d ← lift (row_at row col); mret (if coerce_eq d val then [(key, row)] else [])
             | None => mret []
             end);
    rest ← refs_of_pks child col val overlay pks staged pending;
    mret (out ++ rest)
  end.

Fixpoint refs_by_index (child : bytes) (col : Z) (val : Datum) (overlay : gmap bytes (option Row)) (cands : list Datum) (staged pending : Staged) : EM (list (bytes * Row)) :=
  match cands with
  | [] => mret []
  | c :: cands =>
    pks ← at_table child (scan_secondary col (Some (c, true)) (Some (c, true)));
    out ← refs_of_pks child col val overlay (default [] pks) staged pending;
    rest ← refs_by_index child col val overlay cands staged pending;
    mret (out ++ rest)
  end.

Fixpoint refs_of_rows (s : Schema) (col : Z) (val : Datum) (overlay : gmap bytes (option Row)) (rows : list Row) : res (list (bytes * Row)) :=
  match rows with
  | [] => mret []
  | row :: rows =>
    pk ← row_at row (pk_idx s); key ← encode_key pk;
    out ← (if bool_decide (is_Some (overlay !! key)) then mret []
           else d ← row_at row col; mret (if coerce_eq d val then [(key, row)] else []));
    rest ← refs_of_rows s col val overlay rows;
    mret (out ++ rest)
  end.

Definition fk_find_child_refs (child : bytes) (col : Z) (val : Datum) (staged pending : Staged) : EM (list (bytes * Row)) :=
  t ← get_table child;
  let name := td_name (t_def t) in
  let overlay := overlay_map name pending ∪ overlay_map name staged in
  out ← lift (overlay_refs col val (entries overlay));
  rest ← (if is_indexed t col then refs_by_index child col val overlay (fk_candidates val) staged pending
          else rows ← visible_rows child None; lift (refs_of_rows (td_schema (t_def t)) col val overlay rows));
  mret (out ++ rest).

(** The accumulated actions and the rows they have visited. *)
Abbreviation Actions := (Staged * gset (bytes * bytes))%type.

Section actions.
(** [fk_on_parent_delete] of the next level. *)
Context (on_delete : bytes -> Datum -> Actions -> EM Actions).

Fixpoint cascade_rows (child_key : bytes) (pk_idx : Z) (refs : list (bytes * Row)) (a : Actions) : EM Actions :=
  match refs with
  | [] => mret a
  | (k, row) :: refs =>
    if bool_decide ((child_key, k) ∈ a.2) then cascade_rows child_key pk_idx refs a
    else
      child_pk ← lift (row_at row pk_idx);
      a ← on_delete child_key child_pk (<[(child_key, k) := mkStaged None false]> a.1, {[(child_key, k)]} ∪ a.2);
      cascade_rows child_key pk_idx refs a
  end.

Fixpoint null_rows (s : Schema) (child_key : bytes) (col : Z) (refs : list (bytes * Row)) (a : Actions) : res Actions :=
  match refs with
  | [] => mret a
  | (k, row) :: refs =>
    if bool_decide ((child_key, k) ∈ a.2) then null_rows s child_key col refs a
    else
      _ ← row_at row col;
      new_row ← validate_row s (<[Z.to_nat col := Null]> row);
      null_rows s child_key col refs (<[(child_key, k) := mkStaged (Some new_row) false]> a.1, {[(child_key, k)]} ∪ a.2)
  end.

Definition child_action (parent_key : bytes) (parent_pk : Datum) (staged : Staged) (child_key : bytes) (fk : ForeignKeyDef) (a : Actions) : EM Actions :=
  t ← get_table child_key;
  let s := td_schema (t_def t) in
  col ← column_or_fail s (fk_column fk);
  refs ← fk_find_child_refs child_key col parent_pk staged a.1;
  match refs with
  | [] => mret a
  | _ =>
    match fk_on_delete fk with
    | Restrict =>
      lift (violation (str "cannot delete from '" ++ parent_key ++ str "': " ++ show_Z (Zlen refs) ++ str " row(s) in '" ++ child_key ++
                       str "' reference it (constraint '" ++ fk_name fk ++ str "')"))
    | Cascade => cascade_rows child_key (pk_idx s) refs a
    | SetNull =>
      nullable ← lift (match columns s !! Z.to_nat col with Some c => Ok (col_nullable c) | None => Panic end);
      if negb (nullable : bool) then
        lift (violation (str "cannot SET NULL on '" ++ child_key ++ str "." ++ fk_column fk ++ str "': column is NOT NULL (constraint '" ++ fk_name fk ++ str "')"))
      else lift (null_rows s child_key col refs a)
    end
  end.

Fixpoint child_actions (parent_key : bytes) (parent_pk : Datum) (staged : Staged) (children : list (bytes * ForeignKeyDef)) (a : Actions) : EM Actions :=
  match children with
  | [] => mret a
  | (child_key, fk) :: children => a ← child_action parent_key parent_pk staged child_key fk a; child_actions parent_key parent_pk staged children a
  end.

End actions.

Fixpoint fk_on_parent_delete (fuel : nat) (staged : Staged) (parent_key : bytes) (parent_pk : Datum) (a : Actions) : EM Actions :=
  match fuel with
  | O => fun _ => Fuel
  | S fuel =>
    children ← fk_children_of parent_key;
    child_actions (fk_on_parent_delete fuel staged) parent_key parent_pk staged children a
  end.

(** The rows a cascade can reach: stored, staged, or kept for a snapshot. *)
Fixpoint stored_keys (ts : list Tbl) : out nat :=
  match ts with
  | [] => mret 0%nat
  | t :: ts => rows ← trange (t_tree t) None true None true; n ← stored_keys ts; mret (length rows + n)%nat
  end.

Definition cascade_fuel (staged : Staged) : EM nat := fun c =>
  let e := c_db c in
  n ← stored_keys (map_to_list (d_tables (e_data e))).*2;
  Ret (c, Ok (S (n + size staged + match s_txn (c_ses c) with Some t => size (at_staged t) | None => 0 end + size (chains (e_versions e))))%nat).

(** ** Wiring *)

(** The parent of every specification exists and has the column. *)
Fixpoint fk_build_defs (x : Sess) (key name : bytes) (s : Schema) (specs : list ForeignKeySpec) : EM (list ForeignKeyDef) :=
  match specs with
  | [] => mret []
  | fk :: specs =>
    _ ← column_or_fail s (fs_column fk);
    let ref_key := if has_dot (fs_ref_table fk) then fs_ref_table fk else s_current_db x ++ str "." ++ fs_ref_table fk in
    let self_ref := bool_decide (ref_key = key) || bool_decide (fs_ref_table fk = name) in
    _ ← (if negb self_ref then
           parent ← the_db (fun e => d_tables (e_data e) !! ref_key);
           match parent with
           | None => fail (TableNotFound (fs_ref_table fk))
           | Some t => column_or_fail (td_schema (t_def t)) (fs_ref_column fk)
           end
         else column_or_fail s (fs_ref_column fk));
    rest ← fk_build_defs x key name s specs;
    mret (mkForeignKeyDef (default (str "fk_" ++ name ++ str "_" ++ fs_column fk ++ str "_" ++ fs_ref_table fk) (fs_name fk)) (fs_column fk)
            (if self_ref then key else ref_key) (fs_ref_column fk) (fs_on_delete fk) :: rest)
  end.

Definition blockers (key : bytes) (ts : list (bytes * Tbl)) : list bytes :=
  flat_map (fun e => (fun fk => str "'" ++ e.1 ++ str "' (constraint '" ++ fk_name fk ++ str "')") <$>
                     List.filter (fun fk => bool_decide (fk_ref_table fk = key)) (td_foreign_keys (t_def e.2))) ts.

Fixpoint join_with (sep : bytes) (l : list bytes) : bytes :=
  match l with [] => [] | [x] => x | x :: l => x ++ sep ++ join_with sep l end.

Definition fk_check_drop (key name : bytes) : EM () :=
  ts ← all_tables;
  match blockers key ts with
  | [] => mret ()
  | bs => lift (violation (str "cannot drop table '" ++ name ++ str "': referenced by " ++ join_with (str ", ") bs))
  end.

Definition fk_check_drop_index (t : Tbl) (index_name : bytes) : res () :=
  let idxs := secondary_indexes t in
  match List.find (fun d => bool_decide (idx_name d = index_name)) idxs with
  | None => mret ()
  | Some def =>
    match List.find (fun fk => bool_decide (fk_column fk = idx_column def) &&
                       negb (existsb (fun d => negb (bool_decide (idx_name d = index_name)) && bool_decide (idx_column d = fk_column fk)) idxs))
            (td_foreign_keys (t_def t)) with
    | Some fk => violation (str "cannot drop index '" ++ index_name ++ str "': foreign key '" ++ fk_name fk ++ str "' needs an index on '" ++
                            td_name (t_def t) ++ str "." ++ fk_column fk ++ str "'")
    | None => mret ()
    end
  end.

Fixpoint check_inserted (l : list ((bytes * bytes) * StagedWrite)) (staged : Staged) : EM () :=
  match l with
  | [] => mret ()
  | ((t, _), w) :: l =>
    _ ← (match sw_row w with
         | Some row =>
           tbl ← get_table t;
           match td_foreign_keys (t_def tbl) with [] => mret () | _ => fk_check_child_row t row staged ∅ end
         | None => mret ()
         end);
    check_inserted l staged
  end.

Definition fk_check_insert_rows (staged : Staged) : EM () := check_inserted (entries staged) staged.

(** [old_row[i] != new_row[i]] for a column of some foreign key. *)
Fixpoint fk_changed (s : Schema) (fks : list ForeignKeyDef) (old_row new_row : Row) : res bool :=
  match fks with
  | [] => mret false
  | fk :: fks =>
    match index_of s (fk_column fk) with
    | Some i => a ← row_at old_row i; b ← row_at new_row i; if negb (datum_eqb a b) then mret true else fk_changed s fks old_row new_row
    | None => fk_changed s fks old_row new_row
    end
  end.

Fixpoint check_pairs (fuel : nat) (table_key : bytes) (t : TableDef) (pairs : list (bytes * Row)) (staged : Staged) (a : Actions) : EM Actions :=
  match pairs with
  | [] => mret a
  | (new_key, old_row) :: pairs =>
    new_row ← lift (match staged !! (table_key, new_key) with Some w => match sw_row w with Some r => Ok r | None => Panic end | None => Panic end);
    changed ← lift (fk_changed (td_schema t) (td_foreign_keys t) old_row new_row);
    _ ← (if changed : bool then fk_check_child_row table_key new_row staged a.1 else mret ());
    old_pk ← lift (row_at old_row (pk_idx (td_schema t)));
    new_pk ← lift (row_at new_row (pk_idx (td_schema t)));
    a ← (if negb (datum_eqb old_pk new_pk) then fk_on_parent_delete fuel staged table_key old_pk a else mret a);
    check_pairs fuel table_key t pairs staged a
  end.

Definition fk_check_updated (table_key : bytes) (pairs : list (bytes * Row)) (staged : Staged) : EM Staged :=
  t ← get_table table_key;
  fuel ← cascade_fuel staged;
  a ← check_pairs fuel table_key (t_def t) pairs staged (∅, ∅);
  mret (a.1 ∪ staged).

(** Rows by key, the last of a key. *)
Fixpoint rows_by_key (pk_idx : Z) (rows : list Row) (m : gmap bytes Row) : res (gmap bytes Row) :=
  match rows with
  | [] => mret m
  | r :: rows => pk ← row_at r pk_idx; match encode_key pk with Ok k => rows_by_key pk_idx rows (<[k := r]> m) | _ => Panic end
  end.

Fixpoint check_deletes (fuel : nat) (pk_idx : Z) (old : gmap bytes Row) (l : list ((bytes * bytes) * StagedWrite)) (staged : Staged) (a : Actions) : EM Actions :=
  match l with
  | [] => mret a
  | ((t, k), w) :: l =>
    a ← (match sw_row w, old !! k with
         | None, Some old_row => pk ← lift (row_at old_row pk_idx); fk_on_parent_delete fuel staged t pk a
         | _, _ => mret a
         end);
    check_deletes fuel pk_idx old l staged a
  end.

(** The writes with the actions added, and the number of rows that matched. *)
Definition fk_check_deleted (table : bytes) (rows : list Row) (staged : Staged) : EM (Staged * nat) :=
  t ← get_table table;
  referenced ← fk_is_referenced (td_name (t_def t));
  if referenced : bool then
    let pk := pk_idx (td_schema (t_def t)) in
    old ← lift (rows_by_key pk rows ∅);
    fuel ← cascade_fuel staged;
    a ← check_deletes fuel pk old (entries staged) staged (∅, ∅);
    mret (a.1 ∪ staged, size staged)
  else mret (staged, size staged).

End fk.
