(* ===== verification/Subquery.v ===== *)
(** Subqueries inside expressions (db/subquery.rs): which nodes are there, how
    a clause splits into a part without and a part with them, and the columns
    they mention. *)
From stdpp Require Import base list gmap strings.
From Stdlib Require Import ZArith Lia.
From S2P Require Import Prelude Machine Types TableDef Expr.

Fixpoint has_subquery (e : Expr) : bool :=
  match e with
  | EInSubquery _ _ _ | EScalarSubquery _ | EExists _ _ => true
  | ECmp l _ r => has_subquery l || has_subquery r
  | EAnd a b | EOr a b => has_subquery a || has_subquery b
  | ENot e => has_subquery e
  | EIn e _ _ | EBetween e _ _ _ | ELike e _ _ => has_subquery e
  | EColumn _ | ELiteral _ => false
  end.

(** The conjuncts in the order the stack of the source yields them: the last
    one first. *)
Fixpoint stack_conjuncts (e : Expr) : list Expr :=
  match e with EAnd a b => stack_conjuncts b ++ stack_conjuncts a | _ => [e] end.

(** [join_and]: the last part becomes the innermost right operand. *)
Definition join_and (parts : list Expr) : option Expr :=
  match rev parts with
  | [] => None
  | e :: rest => Some (fold_left (fun out e => EAnd e out) rest e)
  end.

Definition split_subquery_parts (e : Expr) : option Expr * option Expr :=
  let cs := stack_conjuncts e in
  (join_and (List.filter (fun c => negb (has_subquery c)) cs), join_and (List.filter has_subquery cs)).

(** A folded boolean as an expression. *)
Definition folded_bool (b : bool) : Expr := ECmp (ELiteral (Bool b)) OpEq (ELiteral (Bool true)).

(** * Columns, including those of the bodies *)

Fixpoint deep_columns (e : Expr) : list bytes :=
  match e with
  | EColumn n => [n]
  | ELiteral _ => []
  | ECmp l _ r => deep_columns l ++ deep_columns r
  | EAnd a b | EOr a b => deep_columns a ++ deep_columns b
  | ENot e => deep_columns e
  | EIn e _ _ | EBetween e _ _ _ | ELike e _ _ => deep_columns e
  | EInSubquery e q _ => deep_columns e ++ deep_stmt q
  | EScalarSubquery q => deep_stmt q
  | EExists q _ => deep_stmt q
  end
with deep_stmt (q : SelectStmt) : list bytes :=
  match q with
  | mkSelectStmt items from joins selection order_by _ group_by =>
    flat_map deep_item items ++ deep_ref from ++ flat_map (fun j => match j with mkJoinClause _ t _ => deep_ref t end) joins ++
    match selection with Some e => deep_columns e | None => [] end ++
    flat_map (fun j => match j with mkJoinClause _ _ on => deep_columns on end) joins ++ order_by.*1 ++ group_by
  end
with deep_item (i : SelectItem) : list bytes :=
  match i with ISubquery q _ => deep_stmt q | _ => [] end
with deep_ref (r : TableRef) : list bytes :=
  match r with RDerived q _ => deep_stmt q | _ => [] end.

(** All subquery bodies under an expression. *)
Fixpoint collect_subqueries (e : Expr) : list SelectStmt :=
  match e with
  | EInSubquery e q _ => collect_subqueries e ++ collect_substmt q
  | EScalarSubquery q => collect_substmt q
  | EExists q _ => collect_substmt q
  | ECmp l _ r => collect_subqueries l ++ collect_subqueries r
  | EAnd a b | EOr a b => collect_subqueries a ++ collect_subqueries b
  | ENot e => collect_subqueries e
  | EIn e _ _ | EBetween e _ _ _ | ELike e _ _ => collect_subqueries e
  | EColumn _ | ELiteral _ => []
  end
with collect_substmt (q : SelectStmt) : list SelectStmt :=
  q ::
  match q with
  | mkSelectStmt _ from joins selection _ _ _ =>
    match selection with Some e => collect_subqueries e | None => [] end ++
    flat_map (fun j => match j with mkJoinClause _ _ on => collect_subqueries on end) joins ++
    collect_ref from ++ flat_map (fun j => match j with mkJoinClause _ t _ => collect_ref t end) joins
  end
with collect_ref (r : TableRef) : list SelectStmt :=
  match r with RDerived q _ => collect_substmt q | _ => [] end.
