(* ===== verification/Dml.v ===== *)
(** INSERT, UPDATE and DELETE (db/dml.rs), and the fast path that recognises a
    point UPDATE in its text.

    [sub_filter] is [filter_with_subqueries] of the query executor for one
    table: the rows that satisfy a clause with subqueries. *)
From stdpp Require Import base list gmap strings.
From Stdlib Require Import ZArith Lia.
From S2P Require Import Prelude Machine Utf8 Types DateTime TableDef WalCodec BTree Kv Mvcc Page Float Table Expr Literal Ast Plan Cost Recovery Visible Session Privilege Engine Fk Subquery.

(** * Text *)

(** [s.split_at(n)]: a panic inside a character. *)
Definition is_char_boundary (s : bytes) (n : nat) : bool :=
  match s !! n with Some b => (b <? 128) || (192 <=? b) | None => Nat.eqb n (length s) end.
Definition split_at (s : bytes) (n : nat) : res (bytes * bytes) :=
  if is_char_boundary s n then Ok (take n s, drop n s) else Panic.

(** [s.trim_start()] *)
Definition trim_start_str (s : bytes) : bytes := of_chars (trim_start (chars s)).

(** The first white space: the text before and from there on. *)
Definition split_space (s : bytes) : option (bytes * bytes) :=
  match span (fun c => negb (is_whitespace c)) (chars s) with
  | (_, []) => None
  | (a, b) => Some (of_chars a, of_chars b)
  end.

Definition has_ws (s : bytes) : bool := existsb is_whitespace (chars s).

(** [s.find(pat)] *)
Fixpoint find_sub (pat s : bytes) (i : nat) : option nat :=
  if starts_with pat s then Some i else match s with [] => None | _ :: s => find_sub pat s (S i) end.

(** [s.split_once(c)] *)
Fixpoint split_at_byte (c : Z) (s : bytes) : option (bytes * bytes) :=
  match s with
  | [] => None
  | b :: s => if b =? c then Some ([], s) else '(l, r) ← split_at_byte c s; Some (b :: l, r)
  end.

Definition strip_semicolon (s : bytes) : bytes := match rev s with 59 :: r => rev r | _ => s end.

Definition ends_with (p s : bytes) : bool := starts_with (rev p) (rev s).

Definition quoted (q s : bytes) : bool := starts_with q s && ends_with q s && (2 <=? Zlen s).

Definition parse_simple_literal (s : bytes) : option Datum :=
  if eq_ignore_ascii_case s (str "null") then Some Null
  else if eq_ignore_ascii_case s (str "true") then Some (Bool true)
  else if eq_ignore_ascii_case s (str "false") then Some (Bool false)
  else match parse_i64 s with
       | Some n => Some (Int n)
       | None =>
         match parse_f64 s with
         | Some f => Some (Float f)
         | None =>
           if quoted (str "'") s || quoted [34] s then Some (Text (take (length s - 2) (drop 1 s))) else None
         end
       end.

(** The shape [UPDATE t SET c = v WHERE k = w]; [None] sends the text to the
    parser. *)
Record PointUpdate := mkPoint { pu_table : bytes; pu_col : bytes; pu_val : Datum; pu_pk_col : bytes; pu_pk : Datum }.

Definition keyword_prefix (n : nat) (kw : string) (s : bytes) : res (option bytes) :=
  '(pre, rest) ← split_at s n;
  mret (if eq_ignore_ascii_case pre (str kw) then Some rest else None).

Definition scan_assignment (s : bytes) : option (bytes * bytes * bytes * bytes) :=
  i ← find_sub (str " where ") (to_ascii_lowercase s) 0;
  '(c, v) ← split_at_byte 61 (trim (take i s));
  '(k, w) ← (if existsb (Z.eqb 44) (trim v) then None else split_at_byte 61 (trim (drop (i + 7) s)));
  if has_ws (trim w) then None else Some (trim c, trim v, trim k, trim w).

Definition scan_point_update (sql : bytes) : res (option PointUpdate) :=
  let s := trim (strip_semicolon sql) in
  if Zlen s <? 10 then mret None
  else
    rest ← keyword_prefix 7 "UPDATE " s;
    match rest ≫= (fun r => split_space (trim_start_str r)) with
    | None => mret None
    | Some (table, rest) =>
      let rest := trim_start_str rest in
      if Zlen rest <? 4 then mret None
      else
        rest ← keyword_prefix 4 "SET " rest;
        mret ('(c, v, k, w) ← (rest ≫= (fun r => scan_assignment (trim_start_str r)));
              val ← parse_simple_literal v; pk ← parse_simple_literal w;
              Some (mkPoint table c val k pk))
    end.

(** * Statements *)

Section dml.
Context {T P : Type} `{KvTree T, Pool P} `{HashOrder}.
Context (f64_show : Z -> bytes) (debug : Expr -> bytes) (entry_count : T -> Z) (synced : Z -> bool).

Abbreviation Tbl := (@Table T P).
Abbreviation Row := (list Datum).
Abbreviation EM := (SM (@Conn T P)).

Context (sub_filter : bytes -> list Row -> Expr -> EM (list Row)).

Abbreviation visible_row := (Engine.visible_row (T := T) (P := P)).
Abbreviation visible_rows := (Engine.visible_rows f64_show debug entry_count).
Abbreviation commit_staged_or_stage := (Engine.commit_staged_or_stage f64_show synced).
Abbreviation commit_single_update := (Engine.commit_single_update synced).

Definition literal_of (what : string) (e : Expr) : res Datum :=
  match e with ELiteral d => Ok d | other => Err (NotSupported (str what ++ str " values must be literals, got " ++ debug other)) end.

(** ** INSERT *)

Fixpoint column_indices (s : Schema) (table : bytes) (cols seen : list bytes) : res (list Z) :=
  match cols with
  | [] => mret []
  | c :: cols =>
    if bool_decide (c ∈ seen) then Err (ExecutionError (str "duplicate column '" ++ c ++ str "' in INSERT"))
    else match index_of s c with
         | Some idx => rest ← column_indices s table cols (c :: seen); mret (idx :: rest)
         | None => Err (ExecutionError (str "unknown column '" ++ c ++ str "' in table '" ++ table ++ str "'"))
         end
  end.

Fixpoint fill_columns (indices : list Z) (es : list Expr) (row : Row) : res Row :=
  match indices, es with
  | idx :: indices, e :: es => d ← literal_of "INSERT" e; fill_columns indices es (<[Z.to_nat idx := d]> row)
  | _, _ => mret row
  end.

Fixpoint literals (es : list Expr) : res Row :=
  match es with [] => mret [] | e :: es => d ← literal_of "INSERT" e; rest ← literals es; mret (d :: rest) end.

Definition insert_values (s : Schema) (indices : option (list Z)) (es : list Expr) : res Row :=
  match indices with
  | Some indices =>
    if negb (Zlen es =? Zlen indices) then Err (ColumnCountMismatch (Zlen indices) (Zlen es))
    else fill_columns indices es ((fun c => default Null (col_default_value c)) <$> columns s)
  | None => literals es
  end.

(** One row: AUTO_INCREMENT, validation, the duplicate check, staging. *)
Definition stage_insert (table key_name : bytes) (s : Schema) (indices : option (list Z)) (es : list Expr) (staged : Staged) : EM Staged :=
  row ← lift (insert_values s indices es);
  row ← at_table key_name (assign_auto_inc row);
  row ← lift (validate_row s row);
  key ← lift (d ← row_at row (pk_idx s); encode_key d);
  dup ← (if bool_decide (is_Some (staged !! (table, key))) then mret true
         else r ← visible_row key_name key; mret (bool_decide (is_Some r)));
  if dup : bool then pk ← lift (decode_key key); fail (DuplicateKey (datum_to_string f64_show pk))
  else mret (<[(key_name, key) := mkStaged (Some row) true]> staged).

Fixpoint stage_inserts (table key_name : bytes) (s : Schema) (indices : option (list Z)) (rows : list (list Expr)) (staged : Staged) : EM Staged :=
  match rows with
  | [] => mret staged
  | es :: rows => staged ← stage_insert table key_name s indices es staged; stage_inserts table key_name s indices rows staged
  end.

Definition counted_msg (n : nat) (what : string) : Output := Output_ok (show_Z (Z.of_nat n) ++ str what).

Definition exec_insert (table : bytes) (columns : option (list bytes)) (rows : list (list Expr)) : EM Output :=
  '(key_name, t) ← open_table table;
  let s := td_schema (t_def t) in
  indices ← lift (match columns with Some cols => Some <$> column_indices s table cols [] | None => mret None end);
  staged ← stage_inserts table key_name s indices rows ∅;
  _ ← (match td_foreign_keys (t_def t) with [] => mret () | _ => fk_check_insert_rows f64_show debug entry_count staged end);
  _ ← commit_staged_or_stage staged;
  mret (counted_msg (size staged) " row(s) inserted").

(** ** UPDATE *)

Fixpoint set_columns (s : Schema) (assignments : list (bytes * Expr)) : res (list (Z * Datum)) :=
  match assignments with
  | [] => mret []
  | (c, e) :: assignments =>
    match index_of s c with
    | None => Err (ColumnNotFound c)
    | Some idx => d ← literal_of "SET" e; rest ← set_columns s assignments; mret ((idx, d) :: rest)
    end
  end.

(** The row with the assignments, and whether one changed it. *)
Fixpoint assign (set_idx : list (Z * Datum)) (row : Row) (changed : bool) : res (Row * bool) :=
  match set_idx with
  | [] => mret (row, changed)
  | (idx, d) :: set_idx =>
    old ← row_at row idx;
    if datum_eqb old d then assign set_idx row changed else assign set_idx (<[Z.to_nat idx := d]> row) true
  end.

Definition zero_updated : Output := Output_ok (str "0 row(s) updated").
Definition one_updated : Output := Output_ok (str "1 row(s) updated").

(** The row behind one primary key. *)
Definition update_point (key_name : bytes) (s : Schema) (lit : Datum) (set_idx : list (Z * Datum)) : EM Output :=
  key ← lift (encode_key lit);
  raw ← at_table key_name (tree_get key);
  match raw with
  | None => mret zero_updated
  | Some raw =>
    row ← at_table key_name (decode_stored raw);
    '(row, changed) ← lift (assign set_idx row false);
    if negb changed then mret zero_updated
    else
      row ← lift (validate_row s row);
      _ ← commit_single_update key_name key (encode_row row);
      mret one_updated
  end.

(** The new rows, and the new key with the old row of each. *)
Fixpoint stage_updates (key_name : bytes) (s : Schema) (set_idx : list (Z * Datum)) (rows : list Row) (staged : Staged) (pairs : list (bytes * Row)) : res (Staged * list (bytes * Row)) :=
  match rows with
  | [] => mret (staged, pairs)
  | row :: rows =>
    '(new_row, changed) ← assign set_idx row false;
    if negb changed then stage_updates key_name s set_idx rows staged pairs
    else
      new_row ← validate_row s new_row;
      d ← row_at new_row (pk_idx s); key ← encode_key d;
      stage_updates key_name s set_idx rows (<[(key_name, key) := mkStaged (Some new_row) false]> staged) (pairs ++ [(key, row)])
  end.

(** The rows of a table that satisfy the clause. *)
Definition selected_rows (key_name : bytes) (selection : option Expr) : EM (list Row) :=
  let '(plain, sub) := match selection with
                       | Some s => if has_subquery s then split_subquery_parts s else (selection, None)
                       | None => (None, None)
                       end in
  rows ← visible_rows key_name plain;
  match sub with Some q => sub_filter key_name rows q | None => mret rows end.

Definition point_of (t : Tbl) (selection : option Expr) : option Datum :=
  match access_path t selection with Ok (Point lit) => Some lit | _ => None end.

Definition exec_update (table : bytes) (assignments : list (bytes * Expr)) (selection : option Expr) : EM Output :=
  '(key_name, t) ← open_table table;
  let s := td_schema (t_def t) in
  set_idx ← lift (set_columns s assignments);
  referenced ← fk_is_referenced key_name;
  x ← the_session id;
  let fk_involved := match td_foreign_keys (t_def t) with [] => referenced | _ => true end in
  let has_sub := match selection with Some s => has_subquery s | None => false end in
  match (if s_autocommit x && bool_decide (s_txn x = None) && negb fk_involved && negb has_sub then point_of t selection else None) with
  | Some lit => update_point key_name s lit set_idx
  | None =>
    rows ← selected_rows key_name selection;
    '(staged, pairs) ← lift (stage_updates key_name s set_idx rows ∅ []);
    staged ← (match pairs with
              | [] => mret staged
              | _ => if fk_involved then fk_check_updated f64_show debug entry_count key_name pairs staged else mret staged
              end);
    _ ← commit_staged_or_stage staged;
    mret (counted_msg (size staged) " row(s) updated")
  end.

(** ** DELETE *)

Fixpoint stage_deletes (key_name : bytes) (s : Schema) (rows : list Row) (staged : Staged) : res Staged :=
  match rows with
  | [] => mret staged
  | row :: rows => d ← row_at row (pk_idx s); key ← encode_key d; stage_deletes key_name s rows (<[(key_name, key) := mkStaged None false]> staged)
  end.

Definition exec_delete (table : bytes) (selection : option Expr) : EM Output :=
  '(key_name, t) ← open_table table;
  rows ← selected_rows key_name selection;
  staged ← lift (stage_deletes key_name (td_schema (t_def t)) rows ∅);
  '(staged, n) ← fk_check_deleted f64_show debug entry_count key_name rows staged;
  _ ← commit_staged_or_stage staged;
  mret (counted_msg n " row(s) deleted").

(** ** The text of a point UPDATE *)

Definition check_privilege (table : bytes) (p : Privilege) : EM () := fun c =>
  let e := c_db c in Ret (c, check_table (resolve_table_key e) (e_privs e) (c_ses c) table p).

Definition try_fast_point_update (sql : bytes) : EM (option Output) :=
  x ← the_session id;
  match s_txn x with
  | Some _ => mret None
  | None =>
    u ← lift (scan_point_update sql);
    match u with
    | None => mret None
    | Some (mkPoint table col val pk_col pk_val) =>
      if is_null pk_val then mret (Some zero_updated)
      else
        key_name ← table_key table;
        t ← the_db (fun e => d_tables (e_data e) !! key_name);
        match t with
        | None => mret None
        | Some t =>
          _ ← check_privilege table PUpdate;
          referenced ← fk_is_referenced key_name;
          let s := td_schema (t_def t) in
          match td_foreign_keys (t_def t), referenced with
          | _ :: _, _ | _, true => mret None
          | [], false =>
            pk ← lift (match columns s !! Z.to_nat (pk_idx s) with Some c => Ok c | None => Panic end);
            if negb (bool_decide (col_name pk = pk_col)) then mret None
            else match index_of s col with
                 | None => mret None
                 | Some col_idx => out ← update_point key_name s pk_val [(col_idx, val)]; mret (Some out)
                 end
          end
        end
    end
  end.

End dml.
