(* ===== verification/Ddl.v ===== *)
(** Definitions of databases, tables and indexes (db/ddl.rs).  The catalog
    changes first, the record is committed afterwards. *)
From stdpp Require Import base list gmap strings.
From Stdlib Require Import ZArith Lia.
From S2P Require Import Prelude Machine Types TableDef WalCodec BTree Kv Mvcc Page Table Expr Ast Cost Catalog Recovery Visible Session Privilege Engine Fk.

Section ddl.
Context {T P : Type} `{KvTree T, Pool P} `{HashOrder}.
Context (synced : Z -> bool).

Abbreviation Tbl := (@Table T P).
Abbreviation DB := (@Data T P).
Abbreviation EM := (SM (@Conn T P)).

Abbreviation wal_commit := (Engine.wal_commit synced).

Definition on_data (f : DB -> DB) : EM () := db (fun e => set_data (f (e_data e)) e).
Definition with_tables (f : gmap bytes Tbl -> gmap bytes Tbl) : EM () :=
  on_data (fun d => mkData (d_databases d) (f (d_tables d)) (d_pool d)).
Definition on_versions (f : VersionState (Row := list Datum) -> VersionState) : EM () := db (fun e => set_versions (f (e_versions e)) e).

(** One record and its commit. *)
Definition log_ddl (rec : Z -> Record_) : EM () := txn ← alloc_txn; wal_commit [rec txn; RCommit txn None].

Definition said (a : string) (name : bytes) (b : string) : Output := Output_ok (str a ++ str "'" ++ name ++ str "'" ++ str b).

(** * Databases *)

Definition exec_create_database (name : bytes) (if_not_exists : bool) : EM Output :=
  known ← the_db (fun e => bool_decide (name ∈ d_databases (e_data e)));
  if known : bool then if if_not_exists then mret (said "database " name " exists") else fail (DatabaseExists name)
  else
    _ ← on_data (add_database name);
    _ ← log_ddl (fun txn => RCreateDatabase txn name);
    mret (said "database " name " created").

Definition exec_drop_database (name : bytes) (if_exists : bool) : EM Output :=
  known ← the_db (fun e => bool_decide (name ∈ d_databases (e_data e)));
  if negb known then if if_exists then mret (said "database " name " does not exist") else fail (DatabaseNotFound name)
  else
    _ ← on_data (drop_database name);
    _ ← on_versions (fun vs => purge_db_versions vs (name ++ str "."));
    _ ← log_ddl (fun txn => RDropDatabase txn name);
    mret (said "database " name " dropped").

Definition exec_use_database (name : bytes) : EM Output :=
  known ← the_db (fun e => bool_decide (name ∈ d_databases (e_data e)));
  if negb known then fail (DatabaseNotFound name)
  else _ ← session (set_current_db name); mret (Output_ok (str "Database changed")).

(** * Tables *)

Definition is_integer_type (t : ColumnType) : bool := match t with CInt | CBigInt => true | _ => false end.

Fixpoint column_defs (cols : list ColumnSpec) : res (list ColumnDef) :=
  match cols with
  | [] => mret []
  | c :: cols =>
    ctype ← ColumnType_parse (cs_ctype c);
    if cs_auto_increment c && negb (is_integer_type ctype) then
      Err (InvalidSchema (str "AUTO_INCREMENT requires an INT or BIGINT column"))
    else
      rest ← column_defs cols;
      mret (mkColumnDef (cs_name c) ctype (negb (cs_not_null c)) (cs_auto_increment c) (cs_default_value c) :: rest)
  end.

Definition count_of {A} (f : A -> bool) (l : list A) : Z := Zlen (List.filter f l).

(** The position of the last column declared as primary key. *)
Fixpoint last_position {A} (f : A -> bool) (l : list A) (i : Z) (hit : option Z) : option Z :=
  match l with [] => hit | x :: l => last_position f l (i + 1) (if f x then Some i else hit) end.

Definition table_schema (cols : list ColumnSpec) : res Schema :=
  defs ← column_defs cols;
  if 1 <? count_of cs_primary_key cols then Err MultiplePrimaryKeys
  else match last_position cs_primary_key cols 0 None with
       | None => Err MissingPrimaryKey
       | Some pk_idx =>
         if 1 <? count_of cs_auto_increment cols then Err (InvalidSchema (str "only one AUTO_INCREMENT column is supported"))
         else if (count_of cs_auto_increment cols =? 1) && negb (match defs !! Z.to_nat pk_idx with Some c => col_auto_increment c | None => false end) then
           Err (InvalidSchema (str "AUTO_INCREMENT must be the primary key"))
         else mret (mkSchema defs pk_idx)
       end.

Definition table_exists (key : bytes) : EM bool := the_db (fun e => bool_decide (is_Some (d_tables (e_data e) !! key))).

(** A call on a table that is not in the catalog yet. *)
Definition on_fresh (op : SM Tbl ()) (t : Tbl) : EM Tbl := fun c =>
  match op t with
  | Ret (t, Ok _) => Ret (c, Ok t)
  | Ret (_, Err e) => Ret (c, Err e)
  | Ret (_, Panic) => Ret (c, Panic)
  | Panics => Panics
  | Fuel => Fuel
  end.

Definition exec_create_table (name : bytes) (columns : list ColumnSpec) (foreign_keys : list ForeignKeySpec) (if_not_exists : bool) : EM Output :=
  x ← the_session id;
  let key := if has_dot name then name else s_current_db x ++ str "." ++ name in
  there ← table_exists key;
  if if_not_exists && there then mret (said "table " name " exists")
  else
    s ← lift (table_schema columns);
    fks ← fk_build_defs x key name s foreign_keys;
    let def := mkTableDef key s [] fks None in
    t ← on_fresh fk_ensure_auto_indexes (table_new def);
    if there : bool then fail (TableExists name)
    else
      _ ← with_tables (<[key := t]>);
      _ ← log_ddl (fun txn => RCreateTable txn (mkTableDef key s (secondary_indexes t) fks None));
      mret (said "table " name " created").

Definition exec_drop_table (name : bytes) (if_exists : bool) : EM Output :=
  key ← table_key name;
  there ← table_exists key;
  if negb there then if if_exists then mret (Output_ok (str "DROP TABLE")) else fail (TableNotFound name)
  else
    _ ← fk_check_drop key name;
    _ ← with_tables (delete key);
    _ ← on_versions (fun vs => purge_table_versions vs key);
    _ ← log_ddl (fun txn => RDropTable txn key);
    mret (said "table " name " dropped").

(** * Indexes *)

Definition has_index (t : Tbl) (name : bytes) : bool := named name (secondary_indexes t).

Definition exec_create_index (name table_name column : bytes) (if_not_exists : bool) : EM Output :=
  '(key, t) ← open_table table_name;
  if if_not_exists && has_index t name then
    mret (Output_ok (str "index '" ++ name ++ str "' exists on '" ++ table_name ++ str "'"))
  else
    _ ← at_table key (add_index name column);
    _ ← log_ddl (fun txn => RCreateIndex txn key name column);
    mret (Output_ok (str "index '" ++ name ++ str "' created on '" ++ table_name ++ str "'")).

Definition exec_drop_index (name table_name : bytes) (if_exists : bool) : EM Output :=
  key ← table_key table_name;
  t ← the_db (fun e => d_tables (e_data e) !! key);
  match t with
  | None => if if_exists then mret (Output_ok (str "DROP INDEX")) else fail (TableNotFound table_name)
  | Some t =>
    if if_exists && negb (has_index t name) then mret (Output_ok (str "DROP INDEX"))
    else
      _ ← lift (fk_check_drop_index t name);
      _ ← at_table key (drop_index name);
      _ ← log_ddl (fun txn => RDropIndex txn key name);
      mret (Output_ok (str "index '" ++ name ++ str "' dropped from '" ++ table_name ++ str "'"))
  end.

End ddl.
