(* ===== verification/Execute.v ===== *)
(** The statement dispatcher (execute_stmt of db/mod.rs): transactions, session
    variables, and the calls of the components.

    [execute_stmt] is [None] for a statement whose execution is not modelled
    here. *)
From stdpp Require Import base list gmap strings.
From Stdlib Require Import ZArith Lia.
From S2P Require Import Prelude Machine Types DateTime TableDef WalCodec BTree Kv Mvcc Page Table Expr Literal Ast Cost Catalog Recovery Visible Session Privilege Engine Fk Subquery Dml Ddl.

(** * Session variables *)

Definition trim_at (name : bytes) : bytes := snd (span (Z.eqb 64) name).
Definition is_var (name : bytes) (l : list string) : bool := existsb (fun x => eq_ignore_ascii_case name (str x)) l.

(** The value of [SET autocommit]. *)
Definition enabled (v : Datum) : bool :=
  match v with
  | Int n => negb (n =? 0)
  | Bool b => b
  | Text s => existsb (fun x => bool_decide (to_ascii_uppercase s = str x)) ["1"; "ON"; "TRUE"]%string
  | _ => false
  end.

Definition is_autocommit (name : bytes) : bool :=
  existsb (fun x => bool_decide (to_ascii_lowercase (trim_at name) = str x)) ["autocommit"; "session.autocommit"; "global.autocommit"]%string.

(** [s.contains(pat)] *)
Definition contains (s : bytes) (pat : string) : bool := bool_decide (is_Some (find_sub (str pat) s 0)).

Definition isolation_of (s : bytes) (old : IsolationLevel) : IsolationLevel :=
  let up := (fun c => if c =? 95 then 45 else c) <$> to_ascii_uppercase s in
  if contains up "READ-COMMITTED" || contains up "READ COMMITTED" then ReadCommitted
  else if contains up "REPEATABLE-READ" || contains up "REPEATABLE READ" then RepeatableRead
  else if contains up "SERIALIZABLE" then Serializable
  else old.

(** A limit: a positive integer sets it, another one removes it. *)
Definition limit_value (what : string) (v : Datum) : res (option Z) :=
  match v with
  | Int n => Ok (if 0 <? n then Some n else None)
  | _ => Err (ParseError (str what))
  end.

(** [SET max_... = v], where the name is one of [names]. *)
Definition set_limit (name : bytes) (names : list string) (what : string) (v : Datum) (f : option Z -> Sess -> Sess) (x : Sess) : res Sess :=
  if is_var name names then l ← limit_value what v; mret (f l x) else mret x.

Definition set_limit_vars (name : bytes) (v : Datum) (x : Sess) : res Sess :=
  x ← set_limit name ["max_execution_time"; "statement_timeout"] "max_execution_time must be an integer (milliseconds)" v
        (fun l x => set_limits l (s_max_result_rows x) (s_max_result_bytes x) (s_max_intermediate_rows x) (s_max_intermediate_bytes x) x) x;
  x ← set_limit name ["max_result_rows"; "max_rows"] "max_result_rows must be an integer" v
        (fun l x => set_limits (s_max_execution_time x) l (s_max_result_bytes x) (s_max_intermediate_rows x) (s_max_intermediate_bytes x) x) x;
  x ← set_limit name ["max_result_bytes"] "max_result_bytes must be an integer" v
        (fun l x => set_limits (s_max_execution_time x) (s_max_result_rows x) l (s_max_intermediate_rows x) (s_max_intermediate_bytes x) x) x;
  x ← set_limit name ["max_intermediate_rows"] "max_intermediate_rows must be an integer" v
        (fun l x => set_limits (s_max_execution_time x) (s_max_result_rows x) (s_max_result_bytes x) l (s_max_intermediate_bytes x) x) x;
  set_limit name ["max_intermediate_bytes"; "query_memory_limit"] "max_intermediate_bytes must be an integer" v
        (fun l x => set_limits (s_max_execution_time x) (s_max_result_rows x) (s_max_result_bytes x) (s_max_intermediate_rows x) l x) x.

(** Milliseconds, of which zero means no limit. *)
Definition age_millis (secs : Z) : option Z :=
  let ms := wrap_u 64 (secs * 1000) in if ms =? 0 then None else Some ms.

(** * Replicas *)

(** [trim_end_matches([';', '('])] *)
Definition trim_verb (w : bytes) : bytes := rev (snd (span (fun c => (c =? 59) || (c =? 40)) (rev w))).

Definition is_write_statement (sql : bytes) : bool :=
  let verb := to_ascii_uppercase (trim_verb (hd [] (split_whitespace sql))) in
  existsb (fun x => bool_decide (verb = str x))
    ["INSERT"; "UPDATE"; "DELETE"; "CREATE"; "DROP"; "ALTER"; "GRANT"; "REVOKE"; "TRUNCATE"; "BACKUP"; "CHECKPOINT"; "ANALYZE"; "ARCHIVE"]%string.

Section execute.
Context {T P : Type} `{KvTree T, Pool P} `{HashOrder}.
Context (f64_show : Z -> bytes) (debug : Expr -> bytes) (entry_count : T -> Z) (synced : Z -> bool).

Abbreviation Row := (list Datum).
Abbreviation EM := (SM (@Conn T P)).

Context (sub_filter : bytes -> list Row -> Expr -> EM (list Row)).

Abbreviation commit_txn := (Engine.commit_txn f64_show synced).

(** ** Transactions *)

Definition exec_begin (isolation : option IsolationLevel) : EM Output :=
  x ← the_session id;
  match s_txn x with
  | Some _ => fail (TxnConflict (str "transaction already active"))
  | None =>
    _ ← (match isolation with Some l => session (set_isolation l) | None => mret () end);
    id ← alloc_txn;
    _ ← session (set_txn (Some (mkActive id ∅)));
    mret (Output_ok (str "BEGIN"))
  end.

Definition exec_commit : EM Output :=
  x ← the_session id;
  _ ← (match s_txn x with
       | None => mret ()
       | Some t => _ ← session (set_txn None); commit_txn (at_id t) (at_staged t)
       end);
  _ ← snapshot_end;
  mret (Output_ok (str "COMMIT")).

Definition exec_rollback : EM Output :=
  _ ← session (set_txn None); _ ← snapshot_end; mret (Output_ok (str "ROLLBACK")).

Definition exec_start (snapshot : bool) (isolation : option IsolationLevel) : EM Output :=
  _ ← (match isolation with Some l => session (set_isolation l) | None => mret () end);
  if snapshot then snapshot_begin else exec_begin isolation.

Definition set_autocommit_var (value : Datum) : EM () :=
  x ← the_session id;
  _ ← (match s_txn x with
       | Some t => if enabled value && negb (s_autocommit x) then _ ← session (set_txn None); commit_txn (at_id t) (at_staged t) else mret ()
       | None => mret ()
       end);
  session (set_autocommit (enabled value)).

Definition exec_set (name : bytes) (value : Datum) : EM Output :=
  _ ← (if is_autocommit name then set_autocommit_var value else mret ());
  _ ← (match value with
       | Text s => if is_var name ["transaction_isolation"; "tx_isolation"] then session (fun x => set_isolation (isolation_of s (s_isolation x)) x) else mret ()
       | _ => mret ()
       end);
  _ ← (fun c => match set_limit_vars name value (c_ses c) with
                | Ok x => Ret (mkConn (c_db c) x, Ok ())
                | Err e => Ret (c, Err e)
                | Panic => Ret (c, Panic)
                end);
  _ ← (if is_var name ["max_snapshot_age"; "max_snapshot_age_secs"] then
         l ← lift (limit_value "max_snapshot_age must be an integer (seconds)" value);
         db (set_max_age (s ← l; age_millis s))
       else mret ());
  mret (Output_ok (str "variable set")).

(** ** Dispatch *)

Definition exec_users (stmt : Statement) : EM Output := fun c =>
  let '(s, r) := exec_user_mgmt (c_ses c) stmt (e_privs (c_db c)) in Ret (mkConn (set_privs s (c_db c)) (c_ses c), r).

Definition run_stmt (stmt : Statement) : option (EM Output) :=
  match stmt with
  | SCreateUser _ _ _ | SDropUser _ _ | SAlterUser _ _ | SGrant _ _ _ | SRevoke _ _ _ | SShowGrants _ => Some (exec_users stmt)
  | SBegin isolation _ => Some (exec_begin isolation)
  | SCommit => Some exec_commit
  | SRollback => Some exec_rollback
  | SStartTransaction snapshot isolation _ => Some (exec_start snapshot isolation)
  | SSetTransaction isolation global =>
    Some (_ ← (if global : bool then mret () else session (set_isolation isolation)); mret (Output_ok (str "isolation level set")))
  | SSetVariable name value => Some (exec_set name value)
  | SCreateDatabase name if_not_exists => Some (exec_create_database synced name if_not_exists)
  | SDropDatabase name if_exists => Some (exec_drop_database synced name if_exists)
  | SUseDatabase name => Some (exec_use_database name)
  | SCreateTable name columns fks if_not_exists => Some (exec_create_table synced name columns fks if_not_exists)
  | SDropTable name if_exists => Some (exec_drop_table synced name if_exists)
  | SCreateIndex name table column if_not_exists => Some (exec_create_index synced name table column if_not_exists)
  | SDropIndex name table if_exists => Some (exec_drop_index synced name table if_exists)
  | SInsert table columns rows => Some (exec_insert f64_show debug entry_count synced table columns rows)
  | SUpdate table assignments selection => Some (exec_update f64_show debug entry_count synced sub_filter table assignments selection)
  | SDelete table selection => Some (exec_delete f64_show debug entry_count synced sub_filter table selection)
  | _ => None
  end.

Definition gate (stmt : Statement) : EM () := fun c =>
  Ret (c, enforce (resolve_table_key (c_db c)) (e_privs (c_db c)) (c_ses c) stmt).

Definition execute_stmt (stmt : Statement) : option (EM Output) := run ← run_stmt stmt; Some (_ ← gate stmt; run).

End execute.
