(* ===== verification/CommitSpec.v ===== *)
(** What a commit promises: it installs exactly the staged writes, appends
    exactly their records, and refuses before either when a table is missing,
    a row is too large or an inserted key is taken. *)
From stdpp Require Import base list gmap strings sorting.
From Stdlib Require Import ZArith Lia.
From S2P Require Import Prelude Machine Types TableDef WalCodec BTree BTreeRep BTreeScan BTreeSpec Page Kv Mvcc Table TableSpec TableScan.
From S2P Require Import TableFrame RowRules Expr Ast Catalog Recovery RecoverySpec RecoveryLoad RecoveryLog Visible Session Privilege Engine.

(** A call that returns in a known state with a known value. *)
Lemma bind_run {S A B} (c : SM S A) (k : A -> SM S B) s s' a : c s = Ret (s', Ok a) -> (c ≫= k) s = k a s'.
Proof. intros E. unfold mbind, sm_bind. by rewrite E. Qed.

(** * Tables behind keys *)

Section tables.
Context {T P : Type} {KT : KvTree T} {HT : KvTreeOk T} {KP : Pool P} {HP : PoolOk P}.

Abbreviation Tbl := (@Table T P).
Abbreviation Conn := (@Conn T P).
Abbreviation Row := (list Datum).

(** Only the tables may differ. *)
Definition data_only (c c' : Conn) : Prop := c' = mkConn (set_data (e_data (c_db c')) (c_db c)) (c_ses c).

(** The tables of the connection are [A]. *)
Definition shows (G : Owned) (c : Conn) (A : ADb) : Prop := db_rep G (e_data (c_db c)) A.

Lemma data_only_refl c : data_only c c.
Proof. by destruct c as [[] ?]. Qed.

Lemma data_only_trans a b c : data_only a b -> data_only b c -> data_only a c.
Proof. unfold data_only. destruct a as [[] ?], b as [[] ?], c as [[] ?]. cbn. intros [= -> -> -> -> -> -> -> -> -> -> -> -> ->] [= -> -> -> -> -> -> -> -> -> -> -> -> ->]. done. Qed.

Lemma shown_table G c A n a : shows G c A -> a_tables A !! n = Some a ->
  exists t, d_tables (e_data (c_db c)) !! n = Some t /\ tab_rep G n (d_pool (e_data (c_db c))) t a.
Proof.
  intros [D1 D2 D3 D4] Ha. assert (is_Some (d_tables (e_data (c_db c)) !! n)) as [t Ht].
  { apply elem_of_dom. rewrite D3. by apply elem_of_dom_2 in Ha. }
  exists t. split; [done|]. by apply D4.
Qed.

Lemma shown_none G c A n : shows G c A -> a_tables A !! n = None -> d_tables (e_data (c_db c)) !! n = None.
Proof. intros [D1 D2 D3 D4] Ha. apply not_elem_of_dom. rewrite D3. by apply not_elem_of_dom. Qed.

(** A call turns the table [a] into one that [Q] describes. *)
Lemma at_table_ok {R} n (op : SM Tbl R) c G A a (Q : ATable -> res R -> Prop) :
  shows G c A -> a_tables A !! n = Some a ->
  (forall F t, atable F t a -> wp op t (fun t' r => exists a', atable F t' a' /\ Q a' r)) ->
  wp (at_table n op) c (fun c' r => data_only c c' /\ exists G' a', shows G' c' (on_tables <[n := a']> A) /\ Q a' r).
Proof.
  intros Hc Ha Hop. pose proof Hc as [D1 D2 D3 D4]. destruct (shown_table G c A n a Hc Ha) as (t & Et & [T1 T2 T3 (m & T4)]).
  specialize (Hop (rest n G) (set_pool (Some (d_pool (e_data (c_db c)))) t) ltac:(split_and!; [by eexists|done|done|by exists m, (part n G)])).
  unfold wp, at_table, lend in *. rewrite Et. destruct (op _) as [[t' r]| |]; [|done|done].
  destruct Hop as (a' & ([p' Hp'] & Hd' & Hi' & m' & pm' & Hr') & HQ). cbn [mbind out_bind mret out_ret]. rewrite Hp'. cbn [default from_option].
  pose proof (r_pool _ _ _ _ Hr') as Hpool. rewrite Hp' in Hpool. destruct Hpool as [Hdj Hh].
  split; [done|]. exists (regive n pm' G), a'. split; [|done]. rewrite <- (regive_all n pm' G Hdj) in Hh. unfold id in *. split; cbn; [done|done| |].
  - by rewrite !dom_insert_L, D3.
  - intros n2 t2 a2 [[<- <-]|[Hne H2]]%lookup_insert_Some.
    + rewrite lookup_insert_eq. intros [= <-]. split; [done|done|done|]. exists m'. rewrite regive_part, regive_rest by done.
      replace (set_pool (Some p') (set_pool None t')) with (set_pool (Some p') t') by by destruct t'.
      destruct Hr' as [R1 R2 R3 R4 R5 R6 R7]. split; try done. cbn. by rewrite <- (regive_all n pm' G Hdj).
    + rewrite lookup_insert_ne by done. intros E2. by eapply tab_rep_other; [|done|done|apply (D4 n2)].
Qed.

Lemma at_table_none {R} n (op : SM Tbl R) c G A : shows G c A -> a_tables A !! n = None -> at_table n op c = Ret (c, Err (TableNotFound n)).
Proof. intros Hc Hn. unfold at_table. by rewrite (shown_none G c A n Hc Hn). Qed.

(** What is stored under a key: nothing, or bytes that stand for the row. *)
Definition raw_of (G : Owned) (n : bytes) (raw : option bytes) (row : option Row) : Prop :=
  match raw, row with
  | Some raw, Some row => stored_as (part n G) raw row
  | None, None => True
  | _, _ => False
  end.

(** A lookup leaves everything as it is. *)
Lemma at_table_get G c A n a key : shows G c A -> a_tables A !! n = Some a -> Forall u8 key ->
  exists raw, at_table n (tree_get key) c = Ret (c, Ok raw) /\ raw_of G n raw (a_rows a !! key).
Proof.
  intros Hc Ha Hk. destruct (shown_table G c A n a Hc Ha) as (t & Et & [T1 T2 T3 (m & T4)]). exists (m !! key). split.
  - unfold at_table, lend. rewrite Et. unfold tree_get, on_tree. change (t_tree (set_pool _ t)) with (t_tree t).
    rewrite (tget_ok (t_tree t) m key (r_tree _ _ _ _ T4) Hk). cbn. do 3 f_equal.
    assert (set_pool None (set_tree (t_tree t) (set_pool (Some (d_pool (e_data (c_db c)))) t)) = t) as -> by (destruct t; cbn in *; by subst).
    destruct c as [[[] ] ?]. cbn in *. by rewrite insert_id by done.
  - unfold raw_of. destruct (a_rows a !! key) as [row|] eqn:Er.
    + destruct (r_some _ _ _ _ T4 _ _ Er) as (raw & -> & Hs). done.
    + by rewrite (r_none _ _ _ _ T4 key Er).
Qed.

Lemma on_tables_id n a A : a_tables A !! n = Some a -> on_tables <[n := a]> A = A.
Proof. destruct A. unfold on_tables. cbn. intros ?. by rewrite insert_id. Qed.

(** Decoding what is stored. *)
Lemma at_table_decode G c A n a raw row : shows G c A -> a_tables A !! n = Some a ->
  raw_of G n raw row -> (forall r, row = Some r -> row_wf (a_schema a) r) ->
  wp (at_table n (Table.decode_opt raw)) c (fun c' r => r = Ok row /\ data_only c c' /\ shows G c' A).
Proof.
  intros Hc Ha Hraw Hwf. pose proof Hc as [D1 D2 D3 D4]. destruct (shown_table G c A n a Hc Ha) as (t & Et & [T1 T2 T3 (m & T4)]).
  set (t0 := set_pool (Some (d_pool (e_data (c_db c)))) t) in *.
  assert (wp (Table.decode_opt raw) t0 (fun t' r => r = Ok row /\ exists p, t' = set_pool p t0 /\ pool_rep (HP := framed (rest n G)) p (part n G))) as Hw.
  { assert (pool_rep (HP := framed (rest n G)) (t_pool t0) (part n G)) as Hp by apply (r_pool _ _ _ _ T4).
    destruct raw as [raw|], row as [row|]; try done; cbn [Table.decode_opt].
    - apply wp_bind. eapply (wp_decode_stored (HP := framed (rest n G))).
      + unfold a_schema in Hwf. rewrite <- T2 in Hwf. by apply Hwf.
      + exact Hp.
      + exact Hraw.
      + intros p Hp'. apply wp_ret. split; [done|]. by exists p.
    - apply wp_ret. split; [done|]. exists (t_pool t0). by destruct t0. }
  unfold wp, at_table, lend in *. rewrite Et. fold t0. destruct (Table.decode_opt raw t0) as [[t' r]| |] eqn:Eop; [|done|done].
  destruct Hw as (-> & p & -> & Hp). cbn [mbind out_bind mret out_ret]. split; [done|]. split; [done|].
  assert (set_pool None (set_pool p t0) = t) as -> by (destruct t; cbn in *; by subst).
  assert (exists p', p = Some p') as [p' ->].
  { assert (shape t0 (set_pool p t0)) as [_ Hs]; [|cbn in Hs; destruct Hs; [by eexists|by eexists]].
    destruct raw as [raw|]; cbn [Table.decode_opt] in Eop; [|cbv [mret sm_ret] in Eop; assert (set_pool p t0 = t0) as -> by congruence; done].
    eapply (frames_bind shape); [apply frames_decode_stored, _|intros ?; apply frames_ret, _|exact Eop]. }
  cbn [default from_option id t_pool set_pool]. destruct Hp as [Hdj Hh]. rewrite part_rest in Hh.
  split; cbn; [done|done|by rewrite insert_id by done|]. rewrite insert_id by done. intros n2 t2 a2 H2 H3.
  destruct (D4 n2 t2 a2 H2 H3) as [U1 U2 U3 (m2 & U4)]. split; [done..|]. exists m2.
  eapply (rep_repool (H1 := framed _) (H2 := framed _)); [exact U4|]. cbn. rewrite part_rest. split; [apply part_disjoint|done].
Qed.

End tables.

(** * Staged writes *)

Abbreviation Write := ((bytes * bytes) * StagedWrite)%type.

(** A staged row fits its table: the statement that staged it validated it and
    filed it under its own key.  Only its size is looked at by the commit. *)
Definition write_fits (A : ADb) (w : Write) : Prop := forall a, a_tables A !! w.1.1 = Some a ->
  match sw_row w.2 with
  | Some row => (Zlen (encode_row row) <= MAX_VALUE_LEN -> row_wf (a_schema a) row) /\ row_key (a_schema a) row = Some w.1.2
  | None => Forall u8 w.1.2 /\ sw_insert w.2 = false
  end.

Definition too_large (w : Write) : Prop := exists row, sw_row w.2 = Some row /\ MAX_VALUE_LEN < Zlen (encode_row row).

(** The row of a key, in any table. *)
Definition row_in (A : ADb) (tk : bytes * bytes) : option (list Datum) := a_tables A !! tk.1 ≫= fun a => a_rows a !! tk.2.

(** An insert whose key is stored, or reserved by a commit under way. *)
Definition taken (flying : gset (bytes * bytes)) (A : ADb) (w : Write) : Prop :=
  sw_insert w.2 = true /\ (is_Some (row_in A w.1) \/ w.1 ∈ flying).

Definition encoded (w : Write) : (bytes * bytes) * option bytes := (w.1, encode_row <$> sw_row w.2).

(** The records a commit appends before its commit record. *)
Definition commit_body (txn : Z) (l : list Write) : list Record_ := write_record txn <$> (encoded <$> l).

(** What the writes make of one row. *)
Definition staged_row (staged : Staged) (tk : bytes * bytes) (old : option (list Datum)) : option (list Datum) :=
  match staged !! tk with Some w => sw_row w | None => old end.

(** [A'] is [A] with the staged writes installed, and differs in nothing else. *)
Definition installs (staged : Staged) (A A' : ADb) : Prop :=
  a_databases A' = a_databases A /\ dom (a_tables A') = dom (a_tables A) /\
  forall n a, a_tables A !! n = Some a -> exists a', a_tables A' !! n = Some a' /\ a_def a' = a_def a /\ a_indexes a' = a_indexes a /\
    forall k, a_rows a' !! k = staged_row staged (n, k) (a_rows a !! k).

Lemma encode_writes_ok l :
  (Forall (fun w => ~ too_large w) l /\ encode_writes l = Ok (encoded <$> l)) \/
  (Exists too_large l /\ encode_writes l = Err (NotSupported (str "row too large"))).
Proof.
  induction l as [|[tk w] l IH]; [by left|]. cbn [encode_writes]. destruct (sw_row w) as [row|] eqn:Er.
  - destruct (Z.ltb_spec MAX_VALUE_LEN (Zlen (encode_row row))) as [Hl|Hl].
    + right. split; [|done]. left. exists row. by split.
    + assert (~ too_large (tk, w)) by (intros (r & Hr & ?); cbn in Hr; rewrite Er in Hr; simplify_eq; lia).
      destruct IH as [[H1 ->]|[H1 ->]]; [left|right]; (split; [by constructor|]); [|done]. unfold encoded. cbn. by rewrite Er.
  - assert (~ too_large (tk, w)) by (intros (r & Hr & ?); cbn in Hr; congruence).
    destruct IH as [[H1 ->]|[H1 ->]]; [left|right]; (split; [by constructor|]); [|done]. unfold encoded. cbn. by rewrite Er.
Qed.

Lemma fits_sized A w a : write_fits A w -> a_tables A !! w.1.1 = Some a -> ~ too_large w ->
  Forall u8 w.1.2 /\ match sw_row w.2 with Some row => row_wf (a_schema a) row /\ row_key (a_schema a) row = Some w.1.2 | None => True end.
Proof.
  intros Hf Ha Hs. specialize (Hf a Ha). destruct (sw_row w.2) as [row|] eqn:Er; [|by destruct Hf].
  destruct Hf as [Hr Hk]. assert (row_wf (a_schema a) row) as Hwf.
  { apply Hr. apply Z.nlt_ge. intros ?. apply Hs. by exists row. }
  destruct (row_wf_key _ _ Hwf) as (k & Hk' & Hu & _). rewrite Hk in Hk'. by simplify_eq.
Qed.

Section commit.
Context {T P : Type} {KT : KvTree T} {HT : KvTreeOk T} {KP : Pool P} {HP : PoolOk P}.
Context (f64_show : Z -> bytes) (synced : Z -> bool).

Abbreviation Conn := (@Engine.Conn T P).

Lemma find_tables_ok G (c : Conn) A l : shows G c A ->
  (Forall (fun w : Write => is_Some (a_tables A !! w.1.1)) l /\ find_tables l c = Ret (c, Ok ())) \/
  (exists t, Exists (fun w : Write => w.1.1 = t /\ a_tables A !! t = None) l /\ find_tables l c = Ret (c, Err (TableNotFound t))).
Proof.
  intros Hc. induction l as [|[[t k] w] l IH]; [by left|]. cbn [find_tables]. unfold the_db, gets, mbind, sm_bind.
  assert (is_Some (d_tables (e_data (c_db c)) !! t) <-> is_Some (a_tables A !! t)) as Hiff.
  { rewrite <- !elem_of_dom. by rewrite (db_dom _ _ _ Hc). }
  destruct (a_tables A !! t) as [a|] eqn:Ea.
  - rewrite bool_decide_eq_true_2 by (apply Hiff; eauto).
    destruct IH as [[H1 ->]|(t' & H1 & ->)]; [left|right; exists t']; (split; [|done]); [constructor; [cbn; rewrite Ea; eauto|done]|by right].
  - rewrite bool_decide_eq_false_2 by (intros [? H]%Hiff; done). right. exists t. split; [left; done|done].
Qed.

(** One insert is checked without changing anything. *)
Lemma check_inserts_ok G (c : Conn) A l :
  shows G c A -> Forall (fun w : Write => is_Some (a_tables A !! w.1.1)) l -> Forall (write_fits A) l -> Forall (fun w => ~ too_large w) l ->
  (Forall (fun w => ~ taken (e_in_flight (c_db c)) A w) l /\ check_inserts f64_show l c = Ret (c, Ok ())) \/
  (exists d, Exists (taken (e_in_flight (c_db c)) A) l /\ check_inserts f64_show l c = Ret (c, Err (DuplicateKey d))).
Proof.
  intros Hc Hex Hfit Hsz. induction l as [|[[t k] w] l IH]; [by left|].
  apply Forall_cons in Hex as [[a Ha] Hex], Hfit as [Hf Hfit], Hsz as [Hs Hsz]. specialize (IH Hex Hfit Hsz). cbn [fst snd] in Ha.
  cbn [check_inserts]. destruct (sw_insert w) eqn:Ei.
  2:{ assert (~ taken (e_in_flight (c_db c)) A (t, k, w)) by (intros [Hi _]; cbn in Hi; congruence).
      destruct IH as [[H1 ->]|(d & H1 & ->)]; [left; split; [by constructor|done]|right; exists d; split; [by right|done]]. }
  destruct (fits_sized A (t, k, w) a Hf Ha Hs) as [Hu Hrow]. cbn [fst snd] in Hu, Hrow.
  destruct (at_table_get G c A t a k Hc Ha Hu) as (raw & Hget & Hraw). rewrite (bind_run _ _ _ _ _ Hget).
  assert (is_Some raw <-> is_Some (row_in A (t, k))) as Hst.
  { unfold row_in. cbn. rewrite Ha. cbn. unfold raw_of in Hraw. destruct raw, (a_rows a !! k); try done; split; intros [? ?]; done. }
  unfold the_db. rewrite (bind_run _ _ c c (bool_decide ((t, k) ∈ e_in_flight (c_db c))) eq_refl). destruct (bool_decide (is_Some raw) || bool_decide ((t, k) ∈ e_in_flight (c_db c))) eqn:Eb.
  - right. assert (taken (e_in_flight (c_db c)) A (t, k, w)) as Ht.
    { split; [done|]. cbn. apply orb_true_iff in Eb as [Eb|Eb]; apply bool_decide_eq_true in Eb; [left; by apply Hst|by right]. }
    specialize (Hf a Ha). cbn [fst snd] in Hf. destruct (sw_row w) as [row|] eqn:Er; [|destruct Hf; congruence]. destruct Hrow as [Hwf Hk].
    destruct (row_wf_key _ _ Hwf) as (k' & Hk' & _ & d & _ & _ & _ & Hd). rewrite Hk in Hk'. simplify_eq.
    exists (datum_to_string f64_show d). split; [by left|]. unfold lift, mbind, sm_bind. by rewrite Hd.
  - apply orb_false_iff in Eb as [E1 E2]. apply bool_decide_eq_false in E1, E2.
    assert (~ taken (e_in_flight (c_db c)) A (t, k, w)) by (intros [_ [Hin|Hin]]; [by apply E1, Hst|done]).
    destruct IH as [[H1 ->]|(d & H1 & ->)]; [left; split; [by constructor|done]|right; exists d; split; [by right|done]].
Qed.

(** ** Recording what is replaced *)

Definition with_versions (vs : VersionState (Row := list Datum)) (c : Conn) : Conn := mkConn (set_versions vs (c_db c)) (c_ses c).

(** The version buffer after the writes: an untouched key keeps its chain, a
    changed key has the row of before on top, under the epoch of the commit. *)
Definition recorded (A : ADb) (writes : list ((bytes * bytes) * option bytes)) (epoch : Z) (vs vs' : VersionState (Row := list Datum)) : Prop :=
  snapshots vs' = snapshots vs /\ next_snapshot_id vs' = next_snapshot_id vs /\
    forall tk,
    (chains vs' !! tk = chains vs !! tk /\ Mvcc.committed vs' !! tk = Mvcc.committed vs !! tk /\
    forall enc, (tk, enc) ∈ writes -> enc = encode_row <$> row_in A tk) \/
    (tk ∈ writes.*1 /\ Mvcc.committed vs' !! tk = Some epoch /\
    chains vs' !! tk = Some ((epoch, row_in A tk) :: default [] (chains vs !! tk))).

Definition write_ok (A : ADb) (w : Write) : Prop :=
  exists a, a_tables A !! w.1.1 = Some a /\ Forall u8 w.1.2 /\
    match sw_row w.2 with Some row => row_wf (a_schema a) row /\ row_key (a_schema a) row = Some w.1.2 | None => True end.

Lemma raw_same G n a raw row new : (forall r, row = Some r -> row_wf (a_schema a) r) -> (forall r, new = Some r -> row_wf (a_schema a) r) ->
  raw_of G n raw row -> raw = encode_row <$> new -> new = row.
Proof.
  intros Hr Hn Hraw ->. destruct new as [new|], row as [row|]; cbn in Hraw; try done. destruct Hraw as [E|(l & E & Hl & _)].
  - pose proof (decode_encode_row _ _ (Hn new eq_refl)) as H1. rewrite E, (decode_encode_row _ _ (Hr row eq_refl)) in H1. by injection H1 as ->.
  - pose proof (row_not_locator _ _ (Hn new eq_refl)) as H1. rewrite E in H1. by destruct (locator_decode l Hl) as [H2 _]; rewrite H2 in H1.
Qed.

Lemma shown_rows_wf G (c : Conn) A n a k row : shows G c A -> a_tables A !! n = Some a -> a_rows a !! k = Some row -> row_wf (a_schema a) row.
Proof.
  intros Hc Ha Hk. destruct (shown_table G c A n a Hc Ha) as (t & _ & [T1 T2 T3 (m & T4)]). unfold a_schema. rewrite <- T2.
  exact (proj1 (r_rows _ _ _ _ T4 k row Hk)).
Qed.

Lemma engine_record_install_ok G (c : Conn) A w epoch : shows G c A -> write_ok A w ->
  wp (Engine.record_install w.1.1 w.1.2 (encode_row <$> sw_row w.2) epoch) c (fun c' r =>
    r = Ok () /\ exists vs, recorded A [encoded w] epoch (e_versions (c_db c)) vs /\ data_only (with_versions vs c) c' /\ shows G c' A).
Proof.
  destruct w as [[n k] w]. intros Hc (a & Ha & Hu & Hw). cbn [fst snd] in *. unfold Engine.record_install.
  destruct (at_table_get G c A n a k Hc Ha Hu) as (raw & Hget & Hraw). unfold wp. rewrite (bind_run _ _ _ _ _ Hget).
  assert (row_in A (n, k) = a_rows a !! k) as Hrow by (unfold row_in; cbn; by rewrite Ha).
  assert (forall r, a_rows a !! k = Some r -> row_wf (a_schema a) r) as Hwf by (intros r; by eapply shown_rows_wf).
  destruct (bool_decide_reflect (raw = encode_row <$> sw_row w)) as [He|He].
  - split; [done|]. exists (e_versions (c_db c)). split.
    + split; [done|]. split; [done|]. intros tk. left. split; [done|]. split; [done|]. intros enc. rewrite list_elem_of_singleton. intros [= -> ->].
      f_equal. rewrite Hrow. eapply raw_same; [exact Hwf| |exact Hraw|exact He]. intros r Hr. rewrite Hr in Hw. by destruct Hw.
    + split; [|done]. destruct c as [[] ?]. done.
  - apply wp_bind. eapply wp_mono; [by apply (at_table_decode G c A n a raw (a_rows a !! k))|]. cbn. intros c1 r (-> & Hd & Hs).
    unfold db, wp, modify. split; [done|]. eexists. split; [|split; [|exact Hs]].
    2:{ unfold data_only, with_versions, set_versions, set_data. cbn. rewrite Hd. cbn. reflexivity. }
    split; [done|]. split; [done|]. intros tk. cbn. destruct (decide (tk = (n, k))) as [->|Hne].
    + right. rewrite !lookup_insert_eq. split; [by apply list_elem_of_singleton|]. split; [done|]. by rewrite Hrow.
    + left. rewrite !lookup_insert_ne by done. split; [done|]. split; [done|]. intros enc. rewrite list_elem_of_singleton. by intros [= -> _].
Qed.

Lemma recorded_nil A epoch vs : recorded A [] epoch vs vs.
Proof. split; [done|]. split; [done|]. intros tk. left. split; [done|]. split; [done|]. by intros enc ?%elem_of_nil. Qed.

Lemma recorded_cons A e es epoch vs vs1 vs2 : e.1 ∉ es.*1 -> recorded A [e] epoch vs vs1 -> recorded A es epoch vs1 vs2 -> recorded A (e :: es) epoch vs vs2.
Proof.
  intros He (S1 & N1 & H1) (S2 & N2 & H2). split; [by rewrite S2|]. split; [by rewrite N2|]. intros tk.
  destruct (H2 tk) as [(C2 & M2 & R2)|(I2 & M2 & C2)].
  - destruct (H1 tk) as [(C1 & M1 & R1)|(I1 & M1 & C1)].
    + left. rewrite C2, M2. split; [done|]. split; [done|]. intros enc [E|Hin]%elem_of_cons; [apply R1; rewrite E; by left|by apply R2].
    + right. rewrite C2, M2. split; [set_solver|done].
  - destruct (H1 tk) as [(C1 & M1 & R1)|(I1 & M1 & C1)].
    + right. rewrite C2, M2, C1. split; [set_solver|done].
    + set_solver.
Qed.

Lemma engine_record_batch_ok G (c : Conn) A l epoch : shows G c A -> Forall (write_ok A) l -> NoDup l.*1 ->
  wp (Engine.record_commit_batch (encoded <$> l) epoch) c (fun c' r =>
    r = Ok () /\ exists vs, recorded A (encoded <$> l) epoch (e_versions (c_db c)) vs /\ data_only (with_versions vs c) c' /\ shows G c' A).
Proof.
  intros Hc Hw Hn. revert c Hc. induction l as [|w l IH]; intros c Hc.
  - apply wp_ret. split; [done|]. exists (e_versions (c_db c)). split; [apply recorded_nil|]. split; [by destruct c as [[] ?]|done].
  - apply Forall_cons in Hw as [Hw Hl]. cbn [fmap list_fmap] in Hn. apply NoDup_cons in Hn as [Hk Hn].
    cbn [fmap list_fmap]. destruct w as [[n k] w]. cbn [encoded fst snd Engine.record_commit_batch].
    apply wp_bind. eapply wp_mono; [by apply (engine_record_install_ok G c A ((n, k), w) epoch)|]. cbn beta. intros c1 r (-> & vs1 & Hr1 & Hd1 & Hs1).
    eapply wp_mono; [by apply (IH Hl Hn c1)|]. cbn beta. intros c2 r (-> & vs2 & Hr2 & Hd2 & Hs2). split; [done|]. exists vs2. split; [|split; [|done]].
    + assert (e_versions (c_db c1) = vs1) as E by by rewrite Hd1. rewrite E in Hr2. eapply recorded_cons; [|exact Hr1|exact Hr2].
      intros (e & Ee & (x & -> & Hx)%list_elem_of_fmap)%list_elem_of_fmap. apply Hk. apply list_elem_of_fmap. by exists x.
    + unfold data_only, with_versions in *. rewrite Hd2, Hd1. done.
Qed.

(** ** Installing *)

Definition wide (w : Write) : Prop := exists row, sw_row w.2 = Some row /\ MAX_INLINE_ROW < Zlen (encode_row row).

Lemma body_cons txn w l A : effects (commit_body txn (w :: l)) A = effects (commit_body txn l) (effect (write_record txn (encoded w)) A).
Proof. done. Qed.

Lemma apply_write_ok G (c : Conn) A txn w : shows G c A -> write_ok A w ->
  wp (at_table w.1.1 (match encode_row <$> sw_row w.2 with Some enc => apply_raw w.1.2 enc | None => remove_raw w.1.2 end)) c (fun c' r =>
    data_only c c' /\ exists G', (r = Ok () /\ shows G' c' (effect (write_record txn (encoded w)) A)) \/
                                 ((exists e, r = Err e) /\ wide w /\ shows G' c' A)).
Proof.
  destruct w as [[n k] w]. intros Hc (a & Ha & Hu & Hw). cbn [fst snd] in *. unfold encoded. cbn [fst snd].
  assert (Halter : forall f, on_tables (alter f n) A = on_tables <[n := f a]> A).
  { intros f. unfold on_tables. by rewrite alter_insert_eq, Ha. }
  destruct (sw_row w) as [row|] eqn:Er; cbn [fmap option_fmap option_map write_record effect].
  - destruct Hw as [Hwf Hk]. eapply wp_mono.
    + apply (at_table_ok n _ c G A a (fun a' r => (r = Ok () /\ a' = put_row k (encode_row row) a) \/ ((exists e, r = Err e) /\ MAX_INLINE_ROW < Zlen (encode_row row) /\ a' = a)) Hc Ha).
      intros F t Hat. pose proof Hat as (Hp & Hdef & Hi & Hr). eapply wp_mono.
      * eapply (atable_rows F); [apply frames_apply_raw, _|exact Hat|].
        apply (apply_raw_ok (HP := framed F) t (a_rows a) row k Hr); unfold a_schema in *; by rewrite Hdef.
      * cbn beta. intros t' r [[[Hkeep ->]|(Hkeep & Hwide & He)] Hrows].
        -- eexists. split; [by apply Hrows|]. left. split; [done|]. unfold put_row. by rewrite (decode_encode_row _ _ Hwf).
        -- eexists. split; [by apply Hrows|]. right. split; [done|]. split; [done|]. by destruct a.
    + cbn beta. intros c' r (Hd & G' & a' & Hs & [[-> ->]|(He & Hwide & ->)]); (split; [done|]); exists G'; [left|right].
      * split; [done|]. by rewrite Halter.
      * split; [done|]. split; [by exists row|]. by rewrite on_tables_id in Hs.
  - eapply wp_mono.
    + apply (at_table_ok n _ c G A a (fun a' r => r = Ok () /\ a' = set_rows (delete k (a_rows a)) a) Hc Ha).
      intros F t Hat. pose proof Hat as (Hp & Hdef & Hi & Hr). eapply wp_mono.
      * eapply (atable_rows F); [apply frames_remove_raw, _|exact Hat|]. by apply (remove_raw_ok (HP := framed F) t (a_rows a) k).
      * cbn beta. intros t' r [[Hkeep ->] Hrows]. eexists. split; [by apply Hrows|done].
    + cbn beta. intros c' r (Hd & G' & a' & Hs & -> & ->). split; [done|]. exists G'. left. split; [done|]. by rewrite Halter.
Qed.

Lemma write_ok_after txn w0 w A : write_ok A w -> write_ok (effect (write_record txn (encoded w0)) A) w.
Proof.
  intros (a & Ha & Hu & Hw). destruct w0 as [[n k] w0].
  assert (exists f, effect (write_record txn (encoded (n, k, w0))) A = on_tables (alter f n) A /\ forall a, a_schema (f a) = a_schema a) as (f & -> & Hf).
  { unfold encoded. cbn. destruct (sw_row w0); cbn; eexists; (split; [done|]); intros b; [|done]. unfold put_row. by destruct (decode_row _ _). }
  unfold write_ok, on_tables. cbn. destruct (decide (n = w.1.1)) as [->|Hne].
  - exists (f a). rewrite lookup_alter_eq, Ha. by rewrite Hf.
  - exists a. by rewrite lookup_alter_ne.
Qed.

Lemma apply_writes_ok txn l : forall G (c : Conn) A, shows G c A -> Forall (write_ok A) l ->
  wp (apply_writes (encoded <$> l)) c (fun c' r => data_only c c' /\ exists G' pre, pre `prefix_of` l /\ shows G' c' (effects (commit_body txn pre) A) /\
    ((r = Ok () /\ pre = l) \/ ((exists e, r = Err e) /\ Exists wide l))).
Proof.
  induction l as [|w l IH]; intros G c A Hc Hw.
  - apply wp_ret. split; [apply data_only_refl|]. exists G, []. split; [done|]. split; [done|by left].
  - apply Forall_cons in Hw as [Hw Hl]. destruct w as [[n k] w]. cbn [fmap list_fmap encoded fst snd apply_writes].
    apply wp_bind. eapply wp_mono; [by apply (apply_write_ok G c A txn ((n, k), w))|]. cbn beta. intros c1 r (Hd1 & G1 & [[-> Hs1]|([e ->] & Hwide & Hs1)]).
    + eapply wp_mono; [apply (IH G1 c1 _ Hs1)|].
      { eapply Forall_impl; [exact Hl|]. intros w2. apply write_ok_after. }
      cbn beta. intros c2 r (Hd2 & G2 & pre & Hpre & Hs2 & Hr). split; [by eapply data_only_trans|]. exists G2, ((n, k, w) :: pre).
      split; [by apply prefix_cons|]. split; [by rewrite body_cons|]. destruct Hr as [[-> ->]|[He Hx]]; [by left|right; split; [done|by right]].
    + split; [done|]. exists G1, []. split; [apply prefix_nil|]. split; [done|]. right. split; [by exists e|by left].
Qed.

(** ** The whole commit *)

Context {HO : HashOrder} {HOO : HashOrderOk}.

Lemma entries_keys (m : Staged) : NoDup (entries m).*1.
Proof. rewrite (entries_perm _ _ m). apply NoDup_fst_map_to_list. Qed.

Lemma entries_elem (m : Staged) tk w : (tk, w) ∈ entries m <-> m !! tk = Some w.
Proof. rewrite (entries_perm _ _ m). apply elem_of_map_to_list. Qed.

Lemma has_inserts_spec (m : Staged) : has_inserts m = existsb (fun w => sw_insert w.2) (entries m).
Proof.
  apply eq_true_iff_eq. unfold has_inserts. rewrite !existsb_exists. split; intros (x & Hx & Hi); exists x; (split; [|done]);
    apply list_elem_of_In; apply list_elem_of_In in Hx; by rewrite (entries_perm _ _ m) in *.
Qed.

(** The records a commit appends. *)
Definition commit_records (c : Conn) (txn : Z) (staged : Staged) : list Record_ :=
  commit_body txn (entries staged) ++ [RCommit txn (Some (e_unix (c_db c)))].

(** Why a commit refuses. *)
Definition refused (A : ADb) (c : Conn) (staged : Staged) (e : Error) : Prop :=
  (exists t k w, e = TableNotFound t /\ staged !! (t, k) = Some w /\ a_tables A !! t = None) \/
  (e = NotSupported (str "row too large") /\ exists tk w, staged !! tk = Some w /\ too_large (tk, w)) \/
  (exists d tk w, e = DuplicateKey d /\ staged !! tk = Some w /\ taken (e_in_flight (c_db c)) A (tk, w)).

(** A commit that went through. *)
Record installed (A : ADb) (txn : Z) (staged : Staged) (c c' : Conn) : Prop := {
  in_session : c_ses c' = c_ses c;
  in_tables : exists G, shows G c' (effects (commit_body txn (entries staged)) A);
  in_log : e_log (c_db c') = e_log (c_db c) ++ commit_records c txn staged;
  in_frontier : e_frontier (c_db c') = log_end (c_db c');
  in_epoch : e_commit_epoch (c_db c') = e_commit_epoch (c_db c) + 1 /\ e_visible_epoch (c_db c') = e_commit_epoch (c_db c);
  in_flying : e_in_flight (c_db c') = if has_inserts staged then e_in_flight (c_db c) ∖ dom staged else e_in_flight (c_db c);
  in_versions : exists vs, recorded A (encoded <$> entries staged) (e_commit_epoch (c_db c)) (e_versions (c_db c)) vs /\
    e_versions (c_db c') = gc_locked vs;
  in_rest : e_next_txn (c_db c') = e_next_txn (c_db c) /\ e_privs (c_db c') = e_privs (c_db c) /\ e_max_age (c_db c') = e_max_age (c_db c) /\
    e_read_only (c_db c') = e_read_only (c_db c) /\ e_unix (c_db c') = e_unix (c_db c) /\ e_now (c_db c') = e_now (c_db c);
}.

(** A commit whose page pool refused a wide row: the records are in the log,
    the frontier stays where it was. *)
Record stranded (A : ADb) (txn : Z) (staged : Staged) (c c' : Conn) : Prop := {
  st_wide : exists tk w, staged !! tk = Some w /\ wide (tk, w);
  st_tables : exists G pre, pre `prefix_of` entries staged /\ shows G c' (effects (commit_body txn pre) A);
  st_log : e_log (c_db c') = e_log (c_db c) ++ commit_records c txn staged;
  st_frontier : e_frontier (c_db c') = e_frontier (c_db c);
}.

Definition commit_outcome (A : ADb) (txn : Z) (staged : Staged) (c c' : Conn) (r : res ()) : Prop :=
  match r with
  | Ok _ => (staged = ∅ /\ c' = c) \/
      (installed A txn staged c c' /\ (forall tk w, staged !! tk = Some w -> is_Some (a_tables A !! tk.1) /\ ~ too_large (tk, w) /\ ~ taken (e_in_flight (c_db c)) A (tk, w)))
  | Err e => (refused A c staged e /\ c' = c) \/ stranded A txn staged c c'
  | Panic => False
  end.

Lemma Forall_staged (m : Staged) (Q : Write -> Prop) : (forall tk w, m !! tk = Some w -> Q (tk, w)) <-> Forall Q (entries m).
Proof.
  rewrite Forall_forall. split.
  - intros H [tk w] Hin. apply H. by apply entries_elem.
  - intros H tk w Hm. apply H. by apply entries_elem.
Qed.

Lemma publish_run (c : Conn) epoch upto (b : bool) keys :
  (publish epoch upto ≫= fun _ => if b then db (fun e => set_in_flight (e_in_flight e ∖ keys) e) else mret ()) c =
  Ret (mkConn (set_in_flight (if b then e_in_flight (c_db c) ∖ keys else e_in_flight (c_db c))
         (set_frontier upto (set_versions (gc_locked (e_versions (c_db c))) (set_epochs (e_commit_epoch (c_db c)) epoch (c_db c))))) (c_ses c), Ok ()).
Proof. destruct c as [[] ?], b; done. Qed.

Lemma commit_txn_ok (G : Owned) (c : Conn) (A : ADb) (txn : Z) (staged : Staged) :
  shows G c A -> (forall tk w, staged !! tk = Some w -> write_fits A (tk, w)) ->
  e_frontier (c_db c) = log_end (c_db c) -> synced (log_end (set_log (e_log (c_db c) ++ commit_records c txn staged) (c_db c))) = true ->
  wp (commit_txn f64_show synced txn staged) c (commit_outcome A txn staged c).
Proof.
  intros Hc Hfit Hfr Hsync. unfold commit_txn. case_bool_decide as Hne; [apply wp_ret; by left|].
  apply Forall_staged in Hfit. pose proof (entries_keys staged) as Hnd.
  assert (Hex : forall Q : Write -> Prop, Exists Q (entries staged) -> exists tk w, staged !! tk = Some w /\ Q (tk, w)).
  { intros Q ([tk w] & Hin & HQ)%Exists_exists. exists tk, w. split; [by apply entries_elem|done]. }
  unfold wp. destruct (find_tables_ok G c A (entries staged) Hc) as [[Htab Hft]|(t & Hx & Hft)].
  2:{ unfold mbind, sm_bind. rewrite Hft. left. split; [|done]. left. apply Hex in Hx as ([n k] & w & Hw & Hn & Ht). cbn in Hn. subst n. by exists t, k, w. }
  rewrite (bind_run _ _ _ _ _ Hft). destruct (encode_writes_ok (entries staged)) as [[Hsz Hen]|[Hx Hen]].
  2:{ unfold mbind, sm_bind, lift. rewrite Hen. left. split; [|done]. right. left. split; [done|]. by apply Hex. }
  unfold lift. rewrite Hen. rewrite (bind_run _ _ c c (encoded <$> entries staged) eq_refl).
  unfold the_db. rewrite (bind_run _ _ c c (e_unix (c_db c)) eq_refl).
  assert (Hcheck : (Forall (fun w => ~ taken (e_in_flight (c_db c)) A w) (entries staged) /\
             (if has_inserts staged then check_inserts f64_show (entries staged) else mret ()) c = Ret (c, Ok ())) \/
           (exists d, Exists (taken (e_in_flight (c_db c)) A) (entries staged) /\
             (if has_inserts staged then check_inserts f64_show (entries staged) else mret ()) c = Ret (c, Err (DuplicateKey d)))).
  { destruct (has_inserts staged) eqn:Ehi; [by apply (check_inserts_ok G)|left]. split; [|done].
    rewrite has_inserts_spec in Ehi. apply Forall_forall. intros w Hw [Hi _]. apply not_true_iff_false in Ehi. apply Ehi, existsb_exists.
    exists w. split; [by apply list_elem_of_In|done]. }
  destruct Hcheck as [[Hfresh Hck]|(d & Hx & Hck)].
  2:{ unfold mbind, sm_bind. rewrite Hck. left. split; [|done]. right. right. apply Hex in Hx as (tk & w & Hw & Ht). by exists d, tk, w. }
  rewrite (bind_run _ _ _ _ _ Hck). clear Hft Hen Hck.
  assert (Hok : Forall (write_ok A) (entries staged)).
  { apply Forall_forall. intros w Hw. rewrite Forall_forall in Hfit, Htab, Hsz. destruct (Htab w Hw) as [a Ha]. exists a. split; [done|].
    apply (fits_sized A w a); [by apply Hfit|exact Ha|by apply Hsz]. }
  assert (Hgood : forall tk w, staged !! tk = Some w -> is_Some (a_tables A !! tk.1) /\ ~ too_large (tk, w) /\ ~ taken (e_in_flight (c_db c)) A (tk, w)).
  { intros tk w Hw%entries_elem. rewrite Forall_forall in Htab, Hsz, Hfresh. split; [by apply (Htab _ Hw)|]. split; [by apply Hsz|by apply Hfresh]. }
  assert (Hwide : Exists wide (entries staged) -> exists tk w, staged !! tk = Some w /\ wide (tk, w)) by apply Hex.
  clear Hex Hfit Htab Hsz Hfresh. set (recs := (write_record txn <$> (encoded <$> entries staged)) ++ [RCommit txn (Some (e_unix (c_db c)))]).
  change (commit_records c txn staged) with recs in Hsync.
  (* phase A *)
  set (c1 := mkConn (set_log (e_log (c_db c) ++ recs) (set_epochs (e_commit_epoch (c_db c) + 1) (e_visible_epoch (c_db c)) (c_db c))) (c_ses c)).
  unfold alloc_commit_epoch. erewrite bind_run by reflexivity.
  unfold append_records. erewrite bind_run by reflexivity. cbn beta iota.
  set (c2 := if has_inserts staged then mkConn (set_in_flight (e_in_flight (c_db c) ∪ insert_keys (entries staged)) (c_db c1)) (c_ses c) else c1).
  rewrite (bind_run _ _ _ c2 ()) by (unfold c2; by destruct (has_inserts staged)).
  match goal with |- context [wait_durable _ ?z] => assert (synced z = true) as Hsy by exact Hsync end.
  unfold wait_durable. rewrite Hsy. erewrite bind_run by reflexivity. clear Hsync Hsy.
  match goal with |- context [wait_frontier ?z] => change z with (log_end (c_db c)) end.
  match goal with |- context [publish _ ?z] => change z with (log_end (c_db c1)) end.
  assert (Hc2 : e_data (c_db c2) = e_data (c_db c) /\ e_frontier (c_db c2) = e_frontier (c_db c) /\ c_ses c2 = c_ses c /\
    e_versions (c_db c2) = e_versions (c_db c) /\ e_log (c_db c2) = e_log (c_db c) ++ recs).
  { unfold c2. by destruct (has_inserts staged). }
  destruct Hc2 as (Hdata & Hfr2 & Hses & Hver & Hlog). unfold wait_frontier. rewrite (bind_run _ _ c2 c2 ()) by (rewrite Hfr2, Hfr, Z.eqb_refl; done).
  assert (shows G c2 A) as Hs2 by (unfold shows; by rewrite Hdata).
  (* phase C *)
  lazymatch goal with |- match ?op c2 with _ => _ end => change (wp op c2 (commit_outcome A txn staged c)) end.
  apply wp_bind. eapply wp_mono; [by apply (engine_record_batch_ok G c2 A)|]. cbn beta. intros c3 r (-> & vs & Hrec & Hd3 & Hs3).
  apply wp_bind. eapply wp_mono; [by apply (apply_writes_ok txn _ G c3 A)|]. cbn beta. intros c4 r (Hd4 & G4 & pre & Hpre & Hs4 & Hr).
  destruct Hr as [[-> ->]|[[e ->] Hx]].
  2:{ right. split; [by apply Hwide|by exists G4, pre|rewrite Hd4, Hd3; exact Hlog|rewrite Hd4, Hd3; exact Hfr2]. }
  assert (Hd : c4 = mkConn (set_data (e_data (c_db c4)) (set_versions vs (c_db c2))) (c_ses c)) by (rewrite Hd4, Hd3, <- Hses; done).
  unfold wp. rewrite publish_run. right. split; [|exact Hgood]. rewrite Hd. clear Hd Hd3 Hd4 Hwide Hfr2 Hs2 Hs3 Hpre Hdata. rewrite Hver in Hrec.
  assert (Hdom : list_to_set (entries staged).*1 = dom staged).
  { apply set_eq. intros tk. rewrite elem_of_list_to_set, list_elem_of_fmap, elem_of_dom. split.
    - intros ([k w] & -> & Hin%entries_elem). by eexists.
    - intros [w Hw%entries_elem]. by exists (tk, w). }
  assert (Hkeys : insert_keys (entries staged) ⊆ dom staged).
  { rewrite <- Hdom. unfold insert_keys. intros tk. rewrite !elem_of_list_to_set, !list_elem_of_fmap. intros (w & -> & Hin%list_elem_of_In).
    apply filter_In in Hin as [Hin%list_elem_of_In _]. by exists w. }
  rewrite Hdom. unfold c2 in *. split; destruct (has_inserts staged); cbn; try done.
  all: try (by exists G4). all: try (by exists vs). all: set_solver.
Qed.

(** ** What is installed *)

Lemma effect_write txn w A n a : write_ok A w -> a_tables A !! n = Some a ->
  exists a', a_tables (effect (write_record txn (encoded w)) A) !! n = Some a' /\ a_def a' = a_def a /\ a_indexes a' = a_indexes a /\
    forall k, a_rows a' !! k = if decide ((n, k) = w.1) then sw_row w.2 else a_rows a !! k.
Proof.
  destruct w as [[n1 k1] w]. intros (a1 & Ha1 & Hu & Hw) Ha. unfold encoded in *. cbn [fst snd] in *.
  destruct (decide (n = n1)) as [->|Hn].
  - rewrite Ha1 in Ha. injection Ha as <-. destruct (sw_row w) as [row|]; cbn [fmap option_fmap option_map write_record effect on_tables a_tables].
    + destruct Hw as [Hwf _]. rewrite lookup_alter_eq, Ha1. eexists. split; [done|]. unfold put_row. rewrite (decode_encode_row _ _ Hwf).
      split; [done|]. split; [done|]. intros k. cbn. destruct (decide (k = k1)) as [->|Hk]; [by rewrite lookup_insert_eq, decide_True|].
      rewrite lookup_insert_ne by done. rewrite decide_False; [done|congruence].
    + rewrite lookup_alter_eq, Ha1. eexists. split; [done|]. split; [done|]. split; [done|]. intros k. cbn.
      destruct (decide (k = k1)) as [->|Hk]; [by rewrite lookup_delete_eq, decide_True|].
      rewrite lookup_delete_ne by done. rewrite decide_False; [done|congruence].
  - exists a. assert (forall k, (n, k) <> (n1, k1)) as Hne by congruence.
    destruct (sw_row w); cbn; rewrite lookup_alter_ne by done; (split; [done|]); (split; [done|]); (split; [done|]); intros k; by rewrite decide_False.
Qed.

Lemma effect_write_frame txn w A : a_databases (effect (write_record txn (encoded w)) A) = a_databases A /\
  dom (a_tables (effect (write_record txn (encoded w)) A)) = dom (a_tables A).
Proof. destruct w as [[n k] w]. unfold encoded. cbn. destruct (sw_row w); cbn; (split; [done|]); by rewrite dom_alter_L. Qed.

Lemma effects_installs txn (l : list Write) : forall A, Forall (write_ok A) l -> NoDup l.*1 -> installs (list_to_map l) A (effects (commit_body txn l) A).
Proof.
  induction l as [|w l IH]; intros A Hw Hn.
  - split; [done|]. split; [done|]. intros n a Ha. exists a. split; [done|]. split; [done|]. split; [done|]. intros k. unfold staged_row. by rewrite list_to_map_nil, lookup_empty.
  - apply Forall_cons in Hw as [Hw Hl]. cbn [fmap list_fmap] in Hn. apply NoDup_cons in Hn as [Hk Hn]. rewrite body_cons.
    destruct (effect_write_frame txn w A) as [Hdb Hdom].
    destruct (IH (effect (write_record txn (encoded w)) A)) as (H1 & H2 & H3); [eapply Forall_impl; [exact Hl|]; intros w2; apply write_ok_after|done|].
    split; [by rewrite H1|]. split; [by rewrite H2|]. intros n a Ha. destruct (effect_write txn w A n a Hw Ha) as (a1 & Ha1 & Hd1 & Hi1 & Hr1).
    destruct (H3 n a1 Ha1) as (a2 & Ha2 & Hd2 & Hi2 & Hr2). exists a2. split; [done|]. split; [by rewrite Hd2|]. split; [by rewrite Hi2|].
    intros k. rewrite Hr2, Hr1. unfold staged_row. destruct w as [tk w]. rewrite list_to_map_cons. cbn in Hk. cbn [fst snd].
    destruct (decide ((n, k) = tk)) as [<-|Hne]; [|by rewrite lookup_insert_ne].
    rewrite lookup_insert_eq. cbn. by rewrite (not_elem_of_list_to_map_1 (M := gmap _) l (n, k) Hk).
Qed.

Lemma entries_map (m : Staged) : list_to_map (entries m) = m.
Proof. rewrite <- (list_to_map_to_list m) at 2. apply list_to_map_proper; [apply entries_keys|apply (entries_perm _ _ m)]. Qed.

(** ** One row outside a transaction *)

Definition point_write (table key : bytes) (row : list Datum) : Write := ((table, key), mkStaged (Some row) false).

Definition point_records (c : Conn) (w : Write) : list Record_ :=
  commit_body (e_next_txn (c_db c)) [w] ++ [RCommit (e_next_txn (c_db c)) (Some (e_unix (c_db c)))].

Definition point_outcome (A : ADb) (w : Write) (c c' : Conn) (r : res ()) : Prop :=
  match r with
  | Ok _ => ~ too_large w /\ c_ses c' = c_ses c /\ (exists G, shows G c' (effects (commit_body (e_next_txn (c_db c)) [w]) A)) /\
      e_log (c_db c') = e_log (c_db c) ++ point_records c w /\ e_frontier (c_db c') = log_end (c_db c') /\
      e_next_txn (c_db c') = e_next_txn (c_db c) + 1 /\ e_unix (c_db c') = e_unix (c_db c)
  | Err e => (too_large w /\ e = NotSupported (str "row too large") /\ c' = c) \/ (wide w /\ e_log (c_db c') = e_log (c_db c) ++ point_records c w)
  | Panic => False
  end.

Lemma commit_single_update_ok (G : Owned) (c : Conn) (A : ADb) table key row :
  shows G c A -> is_Some (a_tables A !! table) -> write_fits A (point_write table key row) ->
  e_frontier (c_db c) = log_end (c_db c) -> (forall z, synced z = true) ->
  wp (commit_single_update synced table key (encode_row row)) c (point_outcome A (point_write table key row) c).
Proof.
  intros Hc [a Ha] Hfit Hfr Hsync. unfold commit_single_update. destruct (Z.ltb_spec MAX_VALUE_LEN (Zlen (encode_row row))) as [Hl|Hl].
  { unfold wp, fail, lift. left. split; [by exists row|]. done. }
  assert (~ too_large (point_write table key row)) as Hs by (intros (r & Hr & ?); cbn in Hr; simplify_eq; lia).
  assert (write_ok A (point_write table key row)) as Hok by (exists a; split; [done|]; by apply (fits_sized A (point_write table key row) a)).
  unfold wp, alloc_txn, the_db. rewrite (bind_run _ _ c (mkConn (set_next_txn (e_next_txn (c_db c) + 1) (c_db c)) (c_ses c)) (e_next_txn (c_db c))) by done.
  erewrite bind_run by reflexivity. unfold alloc_commit_epoch. erewrite bind_run by reflexivity. unfold append_records. erewrite bind_run by reflexivity.
  cbn beta iota. unfold wait_durable. rewrite Hsync. erewrite bind_run by reflexivity.
  set (c1 := mkConn (set_log (e_log (c_db c) ++ point_records c (point_write table key row))
    (set_epochs (e_commit_epoch (c_db c) + 1) (e_visible_epoch (c_db c)) (set_next_txn (e_next_txn (c_db c) + 1) (c_db c)))) (c_ses c)).
  lazymatch goal with |- match ?op ?s with _ => _ end => change s with c1 end. match goal with |- context [wait_frontier ?z] => change z with (log_end (c_db c)) end.
  match goal with |- context [publish _ ?z] => change z with (log_end (c_db c1)) end.
  unfold wait_frontier. rewrite (bind_run _ _ c1 c1 ()) by (change (e_frontier (c_db c1)) with (e_frontier (c_db c)); by rewrite Hfr, Z.eqb_refl).
  lazymatch goal with |- match ?op c1 with _ => _ end => change (wp op c1 (point_outcome A (point_write table key row) c)) end.
  apply wp_bind. eapply wp_mono; [apply (engine_record_install_ok G c1 A (point_write table key row)); [exact Hc|exact Hok]|]. cbn beta. intros c2 r (-> & vs & _ & Hd2 & Hs2).
  apply wp_bind. eapply wp_mono; [by apply (apply_write_ok G c2 A (e_next_txn (c_db c)) (point_write table key row))|]. cbn beta.
  intros c3 r (Hd3 & G3 & [[-> Hs3]|([e ->] & Hw & Hs3)]).
  - unfold wp. pose proof (publish_run c3 (e_commit_epoch (c_db c)) (log_end (c_db c1)) false ∅) as Hp. cbn beta iota in Hp.
    unfold mbind, sm_bind in Hp. destruct (publish _ _ c3) as [[c4 [[]|?|]]| |]; try done. injection Hp as ->.
    split; [done|]. rewrite Hd3, Hd2. split; [done|]. split; [by exists G3|]. done.
  - right. split; [done|]. rewrite Hd3, Hd2. done.
Qed.

End commit.
