(* ===== verification/DurableSpec.v ===== *)
(** Memory and log stay in step: whatever writes, point updates, BEGINs, COMMITs
    and ROLLBACKs the sessions issue, the tables in memory are what an open
    makes of the log. *)
From stdpp Require Import base functions list gmap strings sorting.
From Stdlib Require Import ZArith Lia.
From S2P Require Import Prelude Machine Types TableDef WalCodec BTree BTreeRep BTreeScan BTreeSpec Page Kv Mvcc Table TableSpec TableScan.
From S2P Require Import TableFrame RowRules Expr Ast Catalog Recovery RecoverySpec RecoveryLoad RecoveryLog Visible Session Privilege Engine Execute CommitSpec.

(** * Histories *)

(** What a statement asks of the commit pipeline: the writes an INSERT, UPDATE or
    DELETE has collected, the row of a point UPDATE, and the transaction
    statements. *)
Inductive Act :=
| AWrite (staged : Staged)
| APoint (table key : bytes) (row : list Datum)
| ABegin (isolation : option IsolationLevel)
| ACommit
| ARollback.

(** The statements validated the rows, and their records fit the log format. *)
Definition good_write (A : ADb) (w : Write) : Prop :=
  write_fits A w /\ (~ too_large w -> forall txn, u64 txn -> record_wf (write_record txn (encoded w))).

Definition good_act (A : ADb) (a : Act) : Prop :=
  match a with
  | AWrite staged => forall tk w, staged !! tk = Some w -> good_write A (tk, w)
  | APoint table key row => is_Some (a_tables A !! table) /\ good_write A ((table, key), mkStaged (Some row) false)
  | _ => True
  end.

(** Tables differ in their rows only. *)
Definition same_tables (A A' : ADb) : Prop :=
  dom (a_tables A') = dom (a_tables A) /\ forall n a a', a_tables A !! n = Some a -> a_tables A' !! n = Some a' -> a_def a' = a_def a.

Lemma same_tables_refl A : same_tables A A.
Proof. split; [done|]. intros n a a' H1 H2. congruence. Qed.

Lemma same_tables_trans A B C : same_tables A B -> same_tables B C -> same_tables A C.
Proof.
  intros [D1 S1] [D2 S2]. split; [by rewrite D2|]. intros n a c Ha Hc. assert (is_Some (a_tables B !! n)) as [b Hb].
  { apply elem_of_dom. rewrite D1. by apply elem_of_dom_2 in Ha. }
  rewrite (S2 n b c Hb Hc). by apply S1 with n.
Qed.

Lemma same_tables_lookup A A' n a' : same_tables A A' -> a_tables A' !! n = Some a' -> exists a, a_tables A !! n = Some a /\ a_def a' = a_def a.
Proof.
  intros [D S] Ha. assert (is_Some (a_tables A !! n)) as [a Hn]; [|exists a; split; [done|by apply S with n]].
  apply elem_of_dom. rewrite <- D. by apply elem_of_dom_2 in Ha.
Qed.

Lemma write_fits_same A A' w : same_tables A A' -> write_fits A w -> write_fits A' w.
Proof. intros HS Hf a' Ha'. destruct (same_tables_lookup A A' _ a' HS Ha') as (a & Ha & E).
  specialize (Hf a Ha). unfold a_schema in *. by rewrite E.
Qed.

Lemma write_ok_same A A' w : same_tables A A' -> write_ok A' w -> write_ok A w.
Proof. intros HS (a' & Ha' & Hu & Hw). destruct (same_tables_lookup A A' _ a' HS Ha') as (a & Ha & E). exists a. unfold a_schema in *. by rewrite <- E. Qed.

Lemma installs_same (staged : Staged) A A' : installs staged A A' -> same_tables A A'.
Proof.
  intros (_ & D & H). split; [done|]. intros n a a' Ha Ha'. destruct (H n a Ha) as (b & Hb & Hd & _). congruence.
Qed.

(** ** What a history has committed *)

(** A transaction of staged writes that fit the tables [A]. *)
Definition write_txn (A : ADb) (x : Txn) : Prop :=
  exists l, x_body x = commit_body (x_id x) l /\ Forall (write_ok A) l /\ NoDup l.*1.

Lemma reread_commit_body txn l : reread_record <$> commit_body txn l = commit_body txn l.
Proof.
  unfold commit_body. rewrite <- !list_fmap_compose. apply list_fmap_ext. intros i [[n k] w] _. unfold encoded. cbn. by destruct (sw_row w).
Qed.

Lemma redo_list_app xs ys : redo_list (xs ++ ys) = redo_list xs ++ redo_list ys.
Proof. unfold redo_list. by rewrite fmap_app, join_app, fmap_app. Qed.

Lemma log_of_app xs ys : log_of (xs ++ ys) = log_of xs ++ log_of ys.
Proof. unfold log_of. by rewrite fmap_app, join_app. Qed.

Lemma redo_one x A l : x_body x = commit_body (x_id x) l -> effects (redo_list [x]) A = effects (commit_body (x_id x) l) A.
Proof. intros E. unfold redo_list. cbn [fmap list_fmap mjoin list_join]. by rewrite app_nil_r, E, reread_commit_body. Qed.

Lemma body_of_writes txn l : Forall (body_of txn) (commit_body txn l).
Proof.
  unfold commit_body. apply Forall_forall. intros r (e & -> & (w & -> & _)%list_elem_of_fmap)%list_elem_of_fmap.
  destruct w as [[n k] w]. unfold encoded. cbn. by destruct (sw_row w).
Qed.

Lemma txns_same A xs : Forall (write_txn A) xs -> same_tables A (effects (redo_list xs) A).
Proof.
  induction xs as [|x xs IH] using rev_ind; intros Hw; [apply same_tables_refl|]. apply Forall_app in Hw as [Hw Hx].
  apply Forall_singleton in Hx as (l & Hb & Hl & Hn). rewrite redo_list_app, effects_app, (redo_one x _ l Hb).
  eapply same_tables_trans; [by apply IH|]. eapply installs_same, effects_installs; [|done].
  eapply Forall_impl; [exact Hl|]. intros w (a & Ha & Hu & Hr). destruct (IH Hw) as [D S].
  assert (is_Some (a_tables (effects (redo_list xs) A) !! w.1.1)) as [a' Ha'] by (apply elem_of_dom; rewrite D; by apply elem_of_dom_2 in Ha).
  exists a'. unfold a_schema in *. by rewrite (S _ a a' Ha Ha').
Qed.

(** ** Redo and foreign-key indexes *)

Lemma fk_index_rows rows a fk : fk_index (set_rows rows a) fk = set_rows rows <$> fk_index a fk.
Proof.
  unfold fk_index. change (a_schema (set_rows rows a)) with (a_schema a). change (a_indexes (set_rows rows a)) with (a_indexes a).
  destruct (bool_decide _); [done|]. destruct (covered _ _); [done|]. destruct (auto_name _ _); [|done]. by destruct (index_of _ _).
Qed.

Lemma fk_indexed_rows rows a : fk_indexed (set_rows rows a) = set_rows rows (fk_indexed a).
Proof.
  unfold fk_indexed. change (td_foreign_keys (a_def (set_rows rows a))) with (td_foreign_keys (a_def a)).
  assert (forall fks b, fk_indexes (set_rows rows b) fks = set_rows rows <$> fk_indexes b fks) as H.
  { induction fks as [|fk fks IH]; intros b; [done|]. cbn [fk_indexes]. rewrite fk_index_rows. by destruct (fk_index b fk); cbn; [apply IH|..]. }
  rewrite H. by destruct (fk_indexes a _).
Qed.

Lemma fk_write txn w B : on_tables (fmap fk_indexed) (effect (write_record txn (encoded w)) B) = effect (write_record txn (encoded w)) (on_tables (fmap fk_indexed) B).
Proof.
  assert (forall f n, (forall a, fk_indexed (f a) = f (fk_indexed a)) -> on_tables (fmap fk_indexed) (on_tables (alter f n) B) = on_tables (alter f n) (on_tables (fmap fk_indexed) B)) as H.
  { intros f n Hf. unfold on_tables. cbn. f_equal. apply map_eq. intros k. rewrite lookup_fmap. destruct (decide (k = n)) as [->|Hne].
    - rewrite !lookup_alter_eq, lookup_fmap. destruct (a_tables B !! n); [|done]. cbn. by rewrite Hf.
    - by rewrite !lookup_alter_ne, lookup_fmap by done. }
  destruct w as [[n k] w]. unfold encoded. cbn. destruct (sw_row w); cbn [fmap option_fmap option_map write_record effect]; apply H; intros a.
  - unfold put_row. destruct (fk_indexed_keeps a) as [Hd Hr]. unfold a_schema. rewrite Hd. destruct (decode_row _ _); [|done..].
    rewrite fk_indexed_rows. by rewrite Hr.
  - destruct (fk_indexed_keeps a) as [Hd Hr]. by rewrite fk_indexed_rows, Hr.
Qed.

Lemma fk_txns A xs : Forall (write_txn A) xs -> forall B,
  on_tables (fmap fk_indexed) (effects (redo_list xs) B) = effects (redo_list xs) (on_tables (fmap fk_indexed) B).
Proof.
  induction 1 as [|x xs (l & Hb & _) _ IH]; intros B; [done|]. change (x :: xs) with ([x] ++ xs). rewrite redo_list_app, !effects_app, IH.
  f_equal. rewrite !(redo_one x _ l Hb). unfold commit_body. clear. revert B. induction l as [|w l IH]; intros B; [done|].
  cbn [fmap list_fmap]. unfold effects in *. cbn [fold_left]. by rewrite IH, fk_write.
Qed.

Lemma fk_same B : same_tables B (on_tables (fmap fk_indexed) B).
Proof.
  split; [cbn; by rewrite dom_fmap_L|]. intros n a a' Ha Ha'. cbn in Ha'. rewrite lookup_fmap, Ha in Ha'. cbn in Ha'. injection Ha' as <-.
  apply fk_indexed_keeps.
Qed.

Lemma same_tables_sym A B : same_tables A B -> same_tables B A.
Proof. intros [D S]. split; [done|]. intros n b a Hb Ha. symmetry. by apply S with n. Qed.

Lemma write_txn_same A B x : same_tables A B -> write_txn A x -> write_txn B x.
Proof.
  intros HS%same_tables_sym (l & Hb & Hl & Hn). exists l. split; [done|]. split; [|done]. eapply Forall_impl; [exact Hl|]. intros w. by apply write_ok_same.
Qed.

Lemma body_fits txn l : forall A, Forall (write_ok A) l -> records_fit A (commit_body txn l).
Proof.
  induction l as [|w l IH]; intros A Hl; [done|]. apply Forall_cons in Hl as [Hw Hl]. split.
  - destruct w as [[n k] w], Hw as (a & Ha & Hu & Hr). unfold encoded. cbn in *. destruct (sw_row w) as [row|]; cbn; [|done].
    intros a' Ha'. rewrite Ha in Ha'. injection Ha' as <-. by exists row.
  - apply IH. eapply Forall_impl; [exact Hl|]. intros w2. apply write_ok_after.
Qed.

Lemma txns_fit A xs : Forall (write_txn A) xs -> records_fit A (redo_list xs).
Proof.
  induction xs as [|x xs IH] using rev_ind; intros Hw; [done|]. pose proof Hw as [Hxs Hx]%Forall_app. rewrite Forall_singleton in Hx.
  rewrite redo_list_app. apply records_fit_app. split; [by apply IH|]. eapply write_txn_same in Hx as (l & Hb & Hl & Hn); [|by apply txns_same].
  unfold redo_list. cbn [fmap list_fmap mjoin list_join]. rewrite app_nil_r, Hb, reread_commit_body. by apply body_fits.
Qed.

Lemma committed_app n xs ys : Zlen (log_bytes (log_of xs)) <= n ->
  RecoveryLog.committed n (xs ++ ys) = xs ++ RecoveryLog.committed (n - Zlen (log_bytes (log_of xs))) ys.
Proof.
  revert n. induction xs as [|x xs IH]; intros n Hn; [change (Zlen (log_bytes (log_of []))) with 0; by rewrite Z.sub_0_r|].
  change (log_of (x :: xs)) with (txn_records x ++ log_of xs) in *. rewrite log_bytes_app, Zlen_app in *. cbn [app RecoveryLog.committed].
  pose proof (Zle_0_nat (length (log_bytes (log_of xs)))). zb. rewrite IH by lia. by rewrite Z.sub_add_distr.
Qed.

Lemma committed_prefix n xs : RecoveryLog.committed n xs `prefix_of` xs.
Proof.
  revert n. induction xs as [|x xs IH]; intros n; [done|]. cbn [RecoveryLog.committed]. destruct (_ <=? _); [by apply prefix_cons|apply prefix_nil].
Qed.

Lemma committed_whole xs : RecoveryLog.committed (Zlen (log_bytes (log_of xs))) xs = xs.
Proof. rewrite <- (app_nil_r xs) at 2. rewrite committed_app by done. apply app_nil_r. Qed.

Lemma redo_list_sub xs rec : rec ∈ redo_list xs -> rec ∈ reread_record <$> log_of xs.
Proof.
  unfold redo_list. intros (r & -> & Hr)%list_elem_of_fmap. apply list_elem_of_fmap. exists r. split; [done|].
  induction xs as [|x xs IH]; [done|]. change (log_of (x :: xs)) with ((x_body x ++ [RCommit (x_id x) (x_ts x)]) ++ log_of xs).
  change (mjoin (x_body <$> (x :: xs))) with (x_body x ++ mjoin (x_body <$> xs)) in Hr. rewrite !elem_of_app in *. tauto.
Qed.

Lemma fk_columns_kept A B : same_tables A B -> map_Forall (fun _ a => fk_columns_exist a) (a_tables A) -> map_Forall (fun _ a => fk_columns_exist a) (a_tables B).
Proof.
  intros HS HA n b Hb. destruct (same_tables_lookup A B n b HS Hb) as (a & Ha & E). specialize (HA n a Ha). unfold fk_columns_exist, a_schema in *. by rewrite E.
Qed.

Section durable.
Context {T P : Type} {KT : KvTree T} {HT : KvTreeOk T} {KP : Pool P} {HP : PoolOk P} {HO : HashOrder} {HOO : HashOrderOk}.
Context (f64_show : Z -> bytes) (synced : Z -> bool).

Abbreviation Conn := (@Engine.Conn T P).
Abbreviation Engine := (@Engine.Engine T P).
Abbreviation EM := (SM Conn).

(** The engine and the sessions of its clients. *)
Record World := mkWorld { w_db : Engine; w_ses : nat -> Sess }.

Definition act (a : Act) : EM () :=
  match a with
  | AWrite staged => commit_staged_or_stage f64_show synced staged
  | APoint table key row => commit_single_update synced table key (encode_row row)
  | ABegin isolation => _ ← exec_begin isolation; mret ()
  | ACommit => _ ← Execute.exec_commit f64_show synced; mret ()
  | ARollback => _ ← Execute.exec_rollback; mret ()
  end.

(** Client [i] acts. *)
Definition act_by (i : nat) (a : Act) (w : World) : out (World * res ()) :=
  '(c, r) ← act a (mkConn (w_db w) (w_ses w i)); mret (mkWorld (c_db c) (<[i := c_ses c]> (w_ses w)), r).

(** The worlds a history leads to in which no commit failed after it had been
    logged. *)
Inductive reached (A0 : ADb) (w0 : World) : World -> Prop :=
| reached_start : reached A0 w0 w0
| reached_act w i a w' r : reached A0 w0 w -> good_act A0 a -> act_by i a w = Ret (w', r) ->
    (r = Ok () \/ e_log (w_db w') = e_log (w_db w)) -> reached A0 w0 w'.

Context (Hsync : forall z, synced z = true) (A0 : ADb) (log0 : list Record_).

(** The engine after the transactions [new]. *)
Record engine_at (new : list Txn) (e : Engine) : Prop := {
  ea_tables : exists G, db_rep G (e_data e) (effects (redo_list new) A0);
  ea_log : e_log e = log0 ++ log_of new;
  ea_frontier : e_frontier e = log_end e;
  ea_clock : u64 (e_unix e);
  ea_next : 0 <= e_next_txn e;
  ea_wf : e_next_txn e <= 2 ^ 64 -> Forall txn_wf new;
  ea_writes : Forall (write_txn A0) new;
}.

(** A session whose transaction, if it has one, was numbered and staged
    validated writes. *)
Definition ses_ok (next : Z) (x : Sess) : Prop :=
  match s_txn x with
  | Some t => 0 <= at_id t < next /\ forall tk w, at_staged t !! tk = Some w -> good_write A0 (tk, w)
  | None => True
  end.

Definition conn_ok (c : Conn) : Prop := exists new, engine_at new (c_db c) /\ ses_ok (e_next_txn (c_db c)) (c_ses c).

(** The transaction of a commit. *)
Definition txn_of_commit (c : Conn) (id : Z) (l : list Write) : Txn := mkTxn id (commit_body id l) (Some (e_unix (c_db c))).

Lemma engine_at_snoc new (e e' : Engine) c id l :
  engine_at new e -> Forall (write_ok A0) l -> NoDup l.*1 -> Forall (fun w => forall txn, u64 txn -> record_wf (write_record txn (encoded w))) l ->
  e_unix (c_db c) = e_unix e -> 0 <= id -> id < e_next_txn e' -> e_next_txn e <= e_next_txn e' -> e_unix e' = e_unix e ->
  (exists G, db_rep G (e_data e') (effects (commit_body id l) (effects (redo_list new) A0))) ->
  e_log e' = e_log e ++ commit_body id l ++ [RCommit id (Some (e_unix (c_db c)))] -> e_frontier e' = log_end e' ->
  engine_at (new ++ [txn_of_commit c id l]) e'.
Proof.
  intros [H1 H2 H3 H4 H5 H6 H7] Hl Hn Hrec Hu Hi Hid Hnext Hux Htab Hlog Hfr. set (x := txn_of_commit c id l).
  split; [|by rewrite Hlog, H2, log_of_app, <- app_assoc; unfold log_of; cbn [fmap list_fmap mjoin list_join]; rewrite app_nil_r|done|by rewrite Hux|lia| |].
  - rewrite redo_list_app, effects_app, (redo_one x _ l) by done. done.
  - intros Hb. apply Forall_app. split; [apply H6; lia|]. apply Forall_singleton. unfold txn_wf, txn_records. split; [|apply body_of_writes].
    assert (u64 id) by (split; lia). apply Forall_app. split.
    + cbn [x_body x txn_of_commit]. unfold commit_body. apply Forall_fmap, Forall_fmap. eapply Forall_impl; [exact Hrec|]. intros w Hw. by apply Hw.
    + apply Forall_singleton. change (record_wf (RCommit id (Some (e_unix (c_db c))))). rewrite Hu. split; [by split|].
      unfold encode_payload, MAX_RECORD. cbn. rewrite ?length_app, ?length_to_le. lia.
  - apply Forall_app. split; [done|]. apply Forall_singleton. by exists l.
Qed.

(** Nothing is lost: the invariant holds again, or a commit failed behind its log
    records. *)
Definition act_post (next : Z) (log : list Record_) (c : Conn) (r : res ()) : Prop :=
  r <> Panic /\ ((conn_ok c /\ next <= e_next_txn (c_db c)) \/ ((exists e, r = Err e) /\ e_log (c_db c) <> log)).

Lemma shows_same new e : engine_at new e -> same_tables A0 (effects (redo_list new) A0).
Proof. intros H. apply txns_same, H. Qed.

Lemma log_grew (l : list Record_) rs r : l ++ rs ++ [r] <> l.
Proof. intros E. apply (f_equal length) in E. rewrite !length_app in E. cbn in E. lia. Qed.

Lemma commit_ok (new : list Txn) (c : Conn) (id : Z) (staged : Staged) :
  engine_at new (c_db c) -> 0 <= id < e_next_txn (c_db c) -> (forall tk w, staged !! tk = Some w -> good_write A0 (tk, w)) ->
  wp (commit_txn f64_show synced id staged) c (fun c' r => r <> Panic /\
    ((exists new', engine_at new' (c_db c') /\ c_ses c' = c_ses c /\ e_next_txn (c_db c') = e_next_txn (c_db c)) \/
     ((exists e, r = Err e) /\ e_log (c_db c') <> e_log (c_db c)))).
Proof.
  intros He Hid Hgood. pose proof (shows_same new _ He) as Hsame. pose proof (ea_tables _ _ He) as [G HG].
  eapply wp_mono; [apply (commit_txn_ok f64_show synced G c _ id staged HG)|].
  - intros tk w Hw. eapply write_fits_same; [exact Hsame|]. by apply (Hgood tk w).
  - apply He.
  - apply Hsync.
  - cbn beta. intros c' r Hout. destruct r as [[]|e|]; cbn in Hout; [|split; [done|]|done].
    + split; [done|]. left. destruct Hout as [[_ ->]|[[I1 I2 I3 I4 I5 I6 I7 I8] Hok]]; [by exists new|].
      exists (new ++ [txn_of_commit c id (entries staged)]). destruct I8 as (J1 & _ & _ & _ & J5 & _). split; [|done].
      apply (engine_at_snoc new (c_db c) (c_db c')); try done; try lia; [|apply entries_keys|].
      * apply Forall_staged. intros tk w Hw. destruct (Hok tk w Hw) as ([a Ha] & Hl & _).
        apply (write_ok_same _ _ _ Hsame). exists a. split; [done|]. apply (fits_sized (effects (redo_list new) A0) (tk, w) a); [|done|done].
        eapply write_fits_same; [exact Hsame|]. by apply (Hgood tk w).
      * apply Forall_staged. intros tk w Hw. apply (Hgood tk w Hw). by apply (Hok tk w Hw).
    + destruct Hout as [[_ ->]|[_ _ Hlog _]]; [left; by exists new|right]. split; [by exists e|]. rewrite Hlog. apply log_grew.
Qed.

Lemma ses_ok_next n n' x : n <= n' -> ses_ok n x -> ses_ok n' x.
Proof. unfold ses_ok. destruct (s_txn x); [|done]. intros Hn [H1 H2]. split; [lia|done]. Qed.

(** Releasing a snapshot touches the version buffer only. *)
Lemma snapshot_end_run new (c : Conn) : engine_at new (c_db c) ->
  exists c', Engine.snapshot_end c = Ret (c', Ok ()) /\ engine_at new (c_db c') /\ s_txn (c_ses c') = s_txn (c_ses c) /\
    e_next_txn (c_db c') = e_next_txn (c_db c) /\ e_log (c_db c') = e_log (c_db c).
Proof.
  intros [H1 H2 H3 H4 H5 H6 H7]. eexists. split; [reflexivity|]. destruct c as [e x]. cbn in *.
  unfold Engine.on_snapshot, from_mvcc, mvcc_of, Mvcc.snapshot_end, Mvcc.release_snapshot. cbn.
  destruct (s_snapshot x) as [pin|]; cbn; (split; [by split|]); by destruct x.
Qed.

Lemma alloc_run (c : Conn) : alloc_txn c = Ret (mkConn (set_next_txn (e_next_txn (c_db c) + 1) (c_db c)) (c_ses c), Ok (e_next_txn (c_db c))).
Proof. done. Qed.

Lemma engine_at_next new e : engine_at new e -> engine_at new (set_next_txn (e_next_txn e + 1) e).
Proof. intros [H1 H2 H3 H4 H5 H6 H7]. split; try done; cbn; [lia|]. intros ?. apply H6. lia. Qed.

Lemma good_union (s1 s2 : Staged) : (forall tk w, s1 !! tk = Some w -> good_write A0 (tk, w)) -> (forall tk w, s2 !! tk = Some w -> good_write A0 (tk, w)) ->
  forall tk w, (s1 ∪ s2) !! tk = Some w -> good_write A0 (tk, w).
Proof. intros H1 H2 tk w [Hw|[_ Hw]]%lookup_union_Some_raw; auto. Qed.

Lemma write_ok_act (c : Conn) (staged : Staged) : conn_ok c -> good_act A0 (AWrite staged) ->
  wp (act (AWrite staged)) c (act_post (e_next_txn (c_db c)) (e_log (c_db c))).
Proof.
  intros (new & He & Hx) Hg. cbn [act good_act] in *. unfold commit_staged_or_stage, wp. rewrite (bind_run _ _ c c (c_ses c)) by done.
  unfold ses_ok in Hx. destruct (s_txn (c_ses c)) as [t|] eqn:Et.
  - destruct Hx as [Hid Hst]. split; [done|]. left. split; [|cbn; lia]. exists new. split; [done|]. unfold ses_ok. cbn. split; [done|]. by apply good_union.
  - rewrite (bind_run _ _ _ _ _ (alloc_run c)). pose proof (engine_at_next new _ He) as He1. pose proof (ea_next _ _ He) as Hn0.
    set (c1 := mkConn _ _). destruct (s_autocommit (c_ses c)).
    + change (wp (commit_txn f64_show synced (e_next_txn (c_db c)) staged) c1 (act_post (e_next_txn (c_db c)) (e_log (c_db c)))).
      eapply wp_mono; [apply (commit_ok new c1 _ staged He1); [cbn; lia|done]|]. cbn beta.
      intros c' r [Hp [(new' & H1 & H2 & H3)|H]]; (split; [done|]); [left|by right]. split; [|rewrite H3; cbn; lia].
      exists new'. split; [done|]. unfold ses_ok. rewrite H2. cbn. by rewrite Et.
    + split; [done|]. left. split; [|cbn; lia]. exists new. split; [exact He1|]. unfold ses_ok. cbn. split; [lia|done].
Qed.

Lemma point_ok_act (c : Conn) table key row : conn_ok c -> good_act A0 (APoint table key row) ->
  wp (act (APoint table key row)) c (act_post (e_next_txn (c_db c)) (e_log (c_db c))).
Proof.
  intros (new & He & Hx) [[a0 Ha0] [Hfit Hrec]]. cbn [act] in *. pose proof (shows_same new _ He) as Hsame. pose proof (ea_tables _ _ He) as [G HG].
  assert (is_Some (a_tables (effects (redo_list new) A0) !! table)) as [a Ha].
  { apply elem_of_dom. destruct Hsame as [-> _]. by apply elem_of_dom_2 in Ha0. }
  pose proof (write_fits_same _ _ _ Hsame Hfit) as Hfit'.
  eapply wp_mono; [apply (commit_single_update_ok synced G c _ table key row HG ltac:(by eexists) Hfit'); [apply He|apply Hsync]|]. cbn beta.
  intros c' r Hout. pose proof (ea_next _ _ He) as Hn0. destruct r as [[]|e|]; cbn in Hout; [|split; [done|]|done].
  - destruct Hout as (Hl & H1 & H2 & H3 & H4 & H5 & H6). split; [done|]. left. split; [|lia].
    exists (new ++ [txn_of_commit c (e_next_txn (c_db c)) [point_write table key row]]). split; [|rewrite H1; eapply ses_ok_next; [|exact Hx]; lia].
    apply (engine_at_snoc new (c_db c) (c_db c')); try done; try lia.
    + apply Forall_singleton, (write_ok_same _ _ _ Hsame). exists a. split; [done|].
      by apply (fits_sized (effects (redo_list new) A0) (point_write table key row) a).
    + apply NoDup_singleton.
    + apply Forall_singleton. by apply Hrec.
  - destruct Hout as [(_ & _ & ->)|[_ Hlog]].
    + left. split; [|lia]. exists new. split; [done|]. done.
    + right. split; [by exists e|]. rewrite Hlog. apply (log_grew _ (commit_body (e_next_txn (c_db c)) [point_write table key row])).
Qed.

Lemma begin_ok_act (c : Conn) isolation : conn_ok c -> wp (act (ABegin isolation)) c (act_post (e_next_txn (c_db c)) (e_log (c_db c))).
Proof.
  intros (new & He & Hx). cbn [act]. unfold exec_begin, wp. pose proof (ea_next _ _ He) as Hn0. destruct c as [e x]. cbn in *. unfold mbind, sm_bind, the_session, gets. cbn.
  destruct (s_txn x) as [t|] eqn:Et; cbn.
  - split; [done|]. left. split; [|cbn; lia]. exists new. by split.
  - destruct isolation; cbn; (split; [done|]); left; (split; [|cbn; lia]); exists new; (split; [by apply engine_at_next|]); unfold ses_ok; cbn;
      (split; [lia|]); intros tk w Hw; by rewrite lookup_empty in Hw.
Qed.

Lemma rollback_ok_act (c : Conn) : conn_ok c -> wp (act ARollback) c (act_post (e_next_txn (c_db c)) (e_log (c_db c))).
Proof.
  intros (new & He & Hx). cbn [act]. unfold Execute.exec_rollback, wp.
  set (c1 := mkConn (c_db c) (set_txn None (c_ses c))). destruct (snapshot_end_run new c1 He) as (c' & E & H1 & H2 & H3 & _).
  unfold mbind, sm_bind, session, modify. fold c1. rewrite E. cbn. split; [done|]. left. split; [|rewrite H3; cbn; lia]. exists new. split; [done|].
  unfold ses_ok. by rewrite H2.
Qed.

Lemma commit_ok_act (c : Conn) : conn_ok c -> wp (act ACommit) c (act_post (e_next_txn (c_db c)) (e_log (c_db c))).
Proof.
  intros (new & He & Hx). cbn [act]. unfold Execute.exec_commit. apply wp_bind. unfold wp at 1. rewrite (bind_run _ _ c c (c_ses c)) by done.
  set (post := fun (c' : Conn) (r : res Output) => match r with
    | Ok _ => wp (mret ()) c' (act_post (e_next_txn (c_db c)) (e_log (c_db c)))
    | Err e => act_post (e_next_txn (c_db c)) (e_log (c_db c)) c' (Err e) | Panic => act_post (e_next_txn (c_db c)) (e_log (c_db c)) c' Panic end).
  assert (Hend : forall (c1 : Conn) new1, engine_at new1 (c_db c1) -> s_txn (c_ses c1) = None -> e_next_txn (c_db c1) = e_next_txn (c_db c) ->
    wp (_ ← Engine.snapshot_end; mret (Output_ok (str "COMMIT"))) c1 post).
  { intros c1 new1 H1 Hn H3. destruct (snapshot_end_run new1 c1 H1) as (c2 & E & K1 & K2 & K3 & _). unfold wp. rewrite (bind_run _ _ _ _ _ E).
    cbn. split; [done|]. left. split; [|rewrite K3, H3; lia]. exists new1. split; [done|]. unfold ses_ok. by rewrite K2, Hn. }
  change (wp (_ ← match s_txn (c_ses c) with None => mret () | Some t => _ ← session (set_txn None); commit_txn f64_show synced (at_id t) (at_staged t) end;
    _ ← Engine.snapshot_end; mret (Output_ok (str "COMMIT"))) c post).
  unfold ses_ok in Hx. destruct (s_txn (c_ses c)) as [t|] eqn:Et; [|unfold wp; rewrite (bind_run _ _ c c ()) by done; by apply (Hend c new)].
  destruct Hx as [Hid Hst]. apply wp_bind, wp_bind. set (c1 := mkConn (c_db c) (set_txn None (c_ses c))).
  change (wp (commit_txn f64_show synced (at_id t) (at_staged t)) c1 (fun c' r => match r with
    | Ok _ => wp (_ ← Engine.snapshot_end; mret (Output_ok (str "COMMIT"))) c' post | Err e => post c' (Err e) | Panic => post c' Panic end)).
  eapply wp_mono; [by apply (commit_ok new c1 (at_id t) (at_staged t))|]. cbn beta. intros c2 r [Hp [(new2 & H1 & H2 & H3)|[[e ->] Hl]]].
  - destruct r as [[]|e|]; [apply (Hend c2 new2); [done|by rewrite H2|by rewrite H3]| |done].
    cbn. split; [done|]. left. split; [|rewrite H3; cbn; lia]. exists new2. split; [done|]. unfold ses_ok. by rewrite H2.
  - cbn. split; [done|]. right. split; [by exists e|done].
Qed.

Lemma act_ok (c : Conn) a : conn_ok c -> good_act A0 a -> wp (act a) c (act_post (e_next_txn (c_db c)) (e_log (c_db c))).
Proof.
  intros Hc Hg. destruct a; [by apply write_ok_act|by apply point_ok_act|by apply begin_ok_act|by apply commit_ok_act|by apply rollback_ok_act].
Qed.

(** ** Worlds *)

Definition world_ok (w : World) : Prop := exists new, engine_at new (w_db w) /\ forall i, ses_ok (e_next_txn (w_db w)) (w_ses w i).

Lemma reached_ok w0 w : world_ok w0 -> reached A0 w0 w -> world_ok w /\ e_next_txn (w_db w0) <= e_next_txn (w_db w).
Proof.
  intros H0. induction 1 as [|w i a w' r _ ((new & He & Hs) & Hmono) Hg E Hr]; [done|]. unfold act_by in E.
  pose proof (act_ok (mkConn (w_db w) (w_ses w i)) a ltac:(exists new; split; [exact He|apply Hs]) Hg) as Ha. unfold wp in Ha.
  destruct (act a _) as [[c r']| |]; [|by cbn in E..]. cbn in E. injection E as <- <-. destruct Ha as [Hp [[(new' & He' & Hs') Hn]|[[e ->] Hl]]].
  - split; [|etrans; [exact Hmono|exact Hn]]. exists new'. split; [done|]. intros j. cbn [w_ses w_db]. destruct (decide (j = i)) as [->|Hj]; [by rewrite fn_lookup_insert|].
    rewrite fn_lookup_insert_ne by done. eapply ses_ok_next; [exact Hn|]. apply Hs.
  - by destruct Hr as [?|?].
Qed.

End durable.

(** * Acknowledged commits survive *)

Section survive.
Context {T P : Type} {KT : KvTree T} {HT : KvTreeOk T} {KP : Pool P} {HP : PoolOk P} {HO : HashOrder} {HOO : HashOrderOk}.
Context (f64_show : Z -> bytes) (synced : Z -> bool) (Hsync : forall z, synced z = true).

Abbreviation World := (@World T P).
Abbreviation reached := (reached f64_show synced).

Lemma good_write_same A B w : same_tables A B -> good_write A w -> good_write B w.
Proof. intros HS [H1 H2]. split; [by eapply write_fits_same|done]. Qed.

Lemma good_act_same A B a : same_tables A B -> good_act A a -> good_act B a.
Proof.
  intros HS. destruct a as [staged|t k row| | |]; cbn; try done.
  - intros H tk w Hw. eapply good_write_same; [exact HS|by apply H].
  - intros [Ht H]. split; [|by eapply good_write_same]. apply elem_of_dom. destruct HS as [-> _]. by apply elem_of_dom.
Qed.

Lemma reached_same A B (w0 w : World) : same_tables A B -> reached A w0 w -> reached B w0 w.
Proof.
  intros HS. induction 1; [constructor|]. econstructor; [done| |done|done]. by eapply good_act_same.
Qed.

(** An engine that was opened with the tables [A] from the transactions [old]. *)
Definition fresh_world (A : ADb) (old : list Txn) (w : World) : Prop :=
  (exists G, db_rep G (e_data (w_db w)) A) /\ e_log (w_db w) = log_of old /\ e_frontier (w_db w) = log_end (w_db w) /\
  u64 (e_unix (w_db w)) /\ 0 <= e_next_txn (w_db w) /\ forall i, s_txn (w_ses w i) = None.

Lemma fresh_ok A old w : fresh_world A old w -> world_ok A (log_of old) w.
Proof.
  intros (H1 & H2 & H3 & H4 & H5 & H6). exists []. split; [split; try done; by rewrite app_nil_r|]. intros i. unfold ses_ok. by rewrite H6.
Qed.

(** A world is the start of its own future. *)
Lemma engine_restart A log0 new (e : Engine) : engine_at A log0 new e -> engine_at (effects (redo_list new) A) (e_log e) [] e.
Proof. intros [H1 H2 H3 H4 H5 H6 H7]. split; try done. by rewrite app_nil_r. Qed.

Lemma two_stages A old w0 w1 w2 : fresh_world A old w0 -> reached A w0 w1 -> reached A w1 w2 ->
  e_next_txn (w_db w1) <= e_next_txn (w_db w2) /\
  exists new later, engine_at A (log_of old) new (w_db w1) /\ engine_at (effects (redo_list new) A) (e_log (w_db w1)) later (w_db w2).
Proof.
  intros H0 H1 H2. destruct (reached_ok f64_show synced Hsync A (log_of old) w0 w1 (fresh_ok _ _ _ H0) H1) as [(new & He & Hs) _].
  pose proof (shows_same _ _ _ _ He) as Hsame. eapply reached_same in H2; [|exact Hsame].
  destruct (reached_ok f64_show synced Hsync (effects (redo_list new) A) (e_log (w_db w1)) w1 w2) as [(later & He2 & _) Hm]; [|exact H2|split; [exact Hm|by exists new, later]].
  exists []. split; [by eapply engine_restart|]. intros i. specialize (Hs i). unfold ses_ok in *. destruct (s_txn (w_ses w1 i)); [|done].
  destruct Hs as [Hid Hs]. split; [done|]. intros tk w Hw. eapply good_write_same; [exact Hsame|by apply Hs].
Qed.

End survive.

(** C1: what a client was told is committed survives every crash.  Start the
    engine from a snapshot and the log of [old] transactions; let any number of
    sessions write, begin, commit and roll back until [w1], and go on until
    [w2].  If the machine then stops with any part of the log on disk that holds
    at least what it held at [w1], opening the database yields the tables that
    were in memory at [w1] followed by the effects of some of the transactions
    committed since, in order, and of all of them when the whole log is there:
    the tables in memory are always what an open would make of the log.  The
    exceptions are a commit that failed behind its log records (excluded from
    the history) and a page pool that refuses a wide row during the open. *)
Theorem acknowledged_commits_survive {T P : Type} {KT : KvTree T} {HT : KvTreeOk T} {KP : Pool P} {HP : PoolOk P} {HO : HashOrder} {HOO : HashOrderOk}
    (hash_order : gmap bytes (@Table T P) -> list bytes) (Horder : forall m, hash_order m ≡ₚ (map_to_list m).*1)
    (f64_show : Z -> bytes) (synced : Z -> bool) (Hsync : forall z, synced z = true)
    snapshot (pool : P) (G : Owned) (S : ADb) (old : list Txn) (w0 w1 w2 : @World T P) (n : nat) :
  let A0 := on_tables (fmap fk_indexed) (effects (redo_list old) S) in
  snapshot_is G snapshot S -> holds pool (snd <$> G) -> Forall txn_wf old -> records_fit S (redo_list old) ->
  map_Forall (fun _ a => fk_columns_exist a) (a_tables (effects (redo_list old) S)) ->
  fresh_world A0 old w0 -> reached f64_show synced A0 w0 w1 -> reached f64_show synced A0 w1 w2 -> e_next_txn (w_db w2) <= 2 ^ 64 ->
  (length (log_bytes (e_log (w_db w1))) <= n <= length (log_bytes (e_log (w_db w2))))%nat ->
  exists A1 later pre, (exists G1, db_rep G1 (e_data (w_db w1)) A1) /\ (exists G2, db_rep G2 (e_data (w_db w2)) (effects (redo_list later) A1)) /\
    pre `prefix_of` later /\ (n = length (log_bytes (e_log (w_db w2))) -> pre = later) /\
    match open_database hash_order snapshot (wal_header ++ take n (log_bytes (e_log (w_db w2)))) pool with
    | Ret (d, Ok _) => exists G', db_rep G' d (effects (redo_list pre) A1)
    | Ret (_, Err _) => Exists wide_put (reread_record <$> e_log (w_db w2))
    | Ret (_, Panic) | Panics => False
    | Fuel => may_hang
    end.
Proof.
  intros A0 Hsnap Hpool Hold Hfit Hfk H0 H1 H2 Hnext Hn.
  destruct (two_stages f64_show synced Hsync A0 old w0 w1 w2 H0 H1 H2) as (Hmono & new & later & E1 & E2).
  set (B := effects (redo_list old) S) in *. set (A1 := effects (redo_list new) A0) in *.
  pose proof (ea_log _ _ _ _ E1) as L1. pose proof (ea_log _ _ _ _ E2) as L2. rewrite L1, <- log_of_app, <- log_of_app in L2. rewrite <- log_of_app in L1.
  assert (Hnew : Forall txn_wf new) by (apply E1; lia). assert (Hlater : Forall txn_wf later) by (apply E2; lia).
  set (m := Z.of_nat n - Zlen (log_bytes (log_of (old ++ new)))). set (pre := RecoveryLog.committed m later).
  assert (Hpre : pre `prefix_of` later) by apply committed_prefix.
  assert (Hcom : RecoveryLog.committed (Z.of_nat n) ((old ++ new) ++ later) = old ++ new ++ pre).
  { rewrite committed_app, <- app_assoc; [done|]. rewrite L1 in Hn. lia. }
  assert (Hsame : same_tables A0 A1) by (apply txns_same, E1). pose proof (same_tables_sym _ _ (fk_same B)) as HsB. fold A0 in HsB.
  assert (Hw : Forall (write_txn B) (new ++ pre)).
  { apply Forall_app. split.
    - eapply Forall_impl; [apply (ea_writes _ _ _ _ E1)|]. intros x. by apply write_txn_same.
    - destruct Hpre as [k Hk]. pose proof (ea_writes _ _ _ _ E2) as Hx. rewrite Hk in Hx. apply Forall_app in Hx as [Hx _].
      eapply Forall_impl; [exact Hx|]. intros x. apply write_txn_same. eapply same_tables_trans; [by apply same_tables_sym|done]. }
  exists A1, later, pre. split; [apply E1|]. split; [apply E2|]. split; [done|]. split.
  { intros Hlen. unfold pre, m. rewrite Hlen, L2, log_of_app, log_bytes_app, Zlen_app, Z.add_simpl_l. by apply committed_whole. }
  pose proof (recovery_keeps_committed hash_order Horder snapshot pool G S ((old ++ new) ++ later) n Hsnap Hpool) as Hopen.
  rewrite Hcom, L2 in *. unfold crashed_log in Hopen. specialize (Hopen ltac:(by rewrite !Forall_app) ltac:(lia)).
  assert (Hfits : records_fit S (redo_list (old ++ new ++ pre))).
  { rewrite redo_list_app. apply records_fit_app. split; [done|]. by apply txns_fit. }
  specialize (Hopen Hfits). destruct (open_database _ _ _ _) as [[d r]| |]; [|done|done]. destruct Hopen as [[-> [G' HG']]|[[e ->] Hbad]].
  - exists G'. rewrite redo_list_app, effects_app, (fk_txns B) in HG' by done. by rewrite redo_list_app, effects_app in HG'.
  - destruct Hbad as [Hwide|Hcols].
    + apply Exists_exists in Hwide as (rec & Hin & Hwide). apply Exists_exists. exists rec. split; [|done].
      apply (redo_list_sub ((old ++ new) ++ later)). destruct Hpre as [k Hk]. rewrite Hk. rewrite !redo_list_app in *. rewrite !elem_of_app in *. tauto.
    + destruct Hcols. rewrite redo_list_app, effects_app. eapply fk_columns_kept; [|exact Hfk]. by apply txns_same.
Qed.

(** * Witness *)

Section demo.

Definition demo_old : list Txn := [mkTxn 1 [demo_create] None].
Definition demo_start : @Data (gmap bytes bytes) RefPool :=
  match apply_records [demo_create] (initial ref_pool) with Ret (d, _) => d | _ => initial ref_pool end.

Definition demo_engine : @Engine.Engine (gmap bytes bytes) RefPool :=
  mkEngine demo_start (log_of demo_old) (Zlen wal_header + Zlen (log_bytes (log_of demo_old))) ∅ 1 1 0 vs_new None store_new 0 5 false.

Definition demo_w0 : @World (gmap bytes bytes) RefPool := mkWorld demo_engine (fun _ => session_default).

Definition demo_key (id : Z) : bytes := match encode_key (Int id) with Ok k => k | _ => [] end.
Definition demo_write (id age : Z) : Act := AWrite {[ (str "db.users", demo_key id) := mkStaged (Some (demo_row id age)) true ]}.

Definition demo_synced (z : Z) : bool := true.
Definition demo_show (z : Z) : bytes := [].
Definition demo_act (i : nat) (a : Act) (w : World) : World := match act_by demo_show demo_synced i a w with Ret (w', _) => w' | _ => w end.

(** Session 1 inserts a row; session 2 updates another outside any transaction. *)
Definition demo_w1 : World := demo_act 1 (demo_write 7 40) demo_w0.
Definition demo_w2 : World := demo_act 2 (APoint (str "db.users") (demo_key 7) (demo_row 7 41)) demo_w1.

Definition demo_A : ADb := on_tables (fmap fk_indexed) (effects (redo_list demo_old) empty_db).

Lemma demo_A_eq : demo_A = effects [demo_create] empty_db.
Proof. vm_compute. reflexivity. Qed.

Lemma demo_fresh : fresh_world demo_A demo_old demo_w0.
Proof.
  split; [|split_and!; try (vm_compute; done)].
  - rewrite demo_A_eq.
    pose proof (apply_records_ok (HT := gmap_kv_ok) (HP := ref_pool_ok) [demo_create] (initial ref_pool) empty_db ∅ (initial_rep ∅ ref_pool demo_pool_holds) ltac:(done)) as Hw.
    unfold wp in Hw. cbn [w_db demo_w0 demo_engine e_data]. unfold demo_start. destruct (apply_records [demo_create] (initial ref_pool)) as [[d r]| |] eqn:E; [|done|done].
    destruct Hw as [[_ HG]|[Hwide _]]; [exact HG|]. exfalso. apply Exists_cons in Hwide as [Hw|Hw]; [done|by apply Exists_nil in Hw].
Qed.

Lemma demo_good id age ins : i64 id -> i64 age -> good_write demo_A ((str "db.users", demo_key id), mkStaged (Some (demo_row id age)) ins).
Proof.
  intros Hi Ha. split.
  - rewrite demo_A_eq. intros a Hl. cbn [fst snd] in Hl.
    destruct (demo_created_fits 1 id age Hi Ha a Hl) as (row & Hr & Hw & Hk). cbn [sw_row snd fst].
    assert (a_schema a = demo_schema) as Es by (refine (demo_schema_kept [demo_create] _ a Hl); apply Forall_singleton; by left).
    rewrite Es. split; [intros _; by apply demo_row_wf|]. reflexivity.
  - intros _ txn Ht. unfold encoded. cbn [write_record fst snd sw_row fmap option_fmap option_map]. unfold record_wf, fields_wf, str_wf, bytes_wf, MAX_RECORD.
    split; [split_and!; try done; by vm_compute|]. unfold encode_payload. cbn. rewrite ?length_app, ?length_to_le. vm_compute. done.
Qed.

Lemma demo_reached1 : reached demo_show demo_synced demo_A demo_w0 demo_w1.
Proof.
  eapply (reached_act _ _ _ _ demo_w0 1 (demo_write 7 40) demo_w1 (Ok ())); [constructor| |vm_compute; reflexivity|by left].
  intros tk w [<- <-]%lookup_singleton_Some. by apply demo_good.
Qed.

Lemma demo_reached2 : reached demo_show demo_synced demo_A demo_w1 demo_w2.
Proof.
  eapply (reached_act _ _ _ _ demo_w1 2 (APoint (str "db.users") (demo_key 7) (demo_row 7 41)) demo_w2 (Ok ())); [constructor| |vm_compute; reflexivity|by left].
  split; [rewrite demo_A_eq; vm_compute; by eexists|]. by apply demo_good.
Qed.

End demo.

(** The machine stops while the update is being written: the insert is there. *)
Lemma acknowledged_commits_survive_witness : exists A1 later pre,
  (exists G1, db_rep G1 (e_data (w_db demo_w1)) A1) /\ (exists G2, db_rep G2 (e_data (w_db demo_w2)) (effects (redo_list later) A1)) /\
  pre `prefix_of` later /\ (length (log_bytes (e_log (w_db demo_w1))) + 3 = length (log_bytes (e_log (w_db demo_w2))) -> pre = later)%nat /\
  match open_database demo_order None (wal_header ++ take (length (log_bytes (e_log (w_db demo_w1))) + 3) (log_bytes (e_log (w_db demo_w2)))) ref_pool with
  | Ret (d, Ok _) => exists G', db_rep G' d (effects (redo_list pre) A1)
  | Ret (_, Err _) => Exists wide_put (reread_record <$> e_log (w_db demo_w2))
  | Ret (_, Panic) | Panics => False
  | Fuel => False
  end.
Proof.
  apply (acknowledged_commits_survive (HT := gmap_kv_ok) (HP := ref_pool_ok) demo_order demo_order_perm demo_show demo_synced (fun _ => eq_refl)
    None ref_pool ∅ empty_db demo_old demo_w0 demo_w1 demo_w2 (length (log_bytes (e_log (w_db demo_w1))) + 3)).
  - reflexivity.
  - exact demo_pool_holds.
  - demo_wf.
  - split; exact I.
  - intros n a Ha. change (effects (redo_list demo_old) empty_db) with (effects [demo_create] empty_db) in Ha. unfold fk_columns_exist.
    assert (a_def a = TableScan.demo_def) as -> by (cbn [effects fold_left effect demo_create on_tables a_tables empty_db] in Ha; rewrite lookup_empty in Ha;
      apply lookup_insert_Some in Ha as [[_ <-]|[_ Ha]]; [vm_compute; reflexivity|by rewrite lookup_empty in Ha]).
    constructor.
  - exact demo_fresh.
  - exact demo_reached1.
  - exact demo_reached2.
  - vm_compute. discriminate.
  - split; vm_compute; repeat constructor.
Defined.

(** * One commit *)

(** C3: what a commit does, exactly.  On a healthy engine it returns, and one of
    three things has happened.  It succeeded: the staged rows are installed and
    nothing else in any table changed, its records and one commit record are the
    new end of the log, its epoch is the visible one, the replaced rows are in
    the version buffer and its keys are no longer reserved.  Or it was refused
    before anything changed, because a table is gone, a row is too large, or an
    inserted key is stored or reserved.  Or the page pool refused one of its wide
    rows half way: then it fails although all its records and the commit record
    are in the log, the writes before that row are installed, and the install
    frontier stays where it was ([stranded]; what follows is
    [stranded_engine_blocks]).  It never panics. *)
Theorem commit_outcomes {T P : Type} {KT : KvTree T} {HT : KvTreeOk T} {KP : Pool P} {HP : PoolOk P} {HO : HashOrder} {HOO : HashOrderOk}
    (f64_show : Z -> bytes) (synced : Z -> bool) (G : Owned) (c : @Conn T P) (A : ADb) (txn : Z) (staged : Staged) :
  shows G c A -> (forall tk w, staged !! tk = Some w -> write_fits A (tk, w)) ->
  e_frontier (c_db c) = log_end (c_db c) -> synced (log_end (set_log (e_log (c_db c) ++ commit_records c txn staged) (c_db c))) = true ->
  match commit_txn f64_show synced txn staged c with
  | Ret (c', r) => commit_outcome A txn staged c c' r /\
      (r = Ok () -> exists G' A', shows G' c' A' /\ installs staged A A')
  | Panics => False
  | Fuel => may_hang
  end.
Proof.
  intros Hc Hfit Hfr Hsy. pose proof (commit_txn_ok f64_show synced G c A txn staged Hc Hfit Hfr Hsy) as Hw. unfold wp in Hw.
  destruct (commit_txn _ _ _ _ c) as [[c' r]| |]; [|done|done]. split; [done|]. intros ->. cbn in Hw. destruct Hw as [[-> ->]|[[_ [G' HG'] _ _ _ _ _ _] Hok]].
  - exists G, A. split; [done|]. split; [done|]. split; [done|]. intros n a Ha. exists a. split; [done|]. split; [done|]. split; [done|].
    intros k. unfold staged_row. by rewrite lookup_empty.
  - exists G', (effects (commit_body txn (entries staged)) A). split; [done|]. rewrite <- (entries_map staged) at 1. apply effects_installs; [|apply entries_keys].
    apply Forall_staged. intros tk w Hm. destruct (Hok tk w Hm) as ([a Ha] & Hl & _). exists a. split; [done|]. apply (fits_sized A (tk, w) a); auto.
Qed.

Definition demo_staged : Staged := {[ (str "db.users", demo_key 7) := mkStaged (Some (demo_row 7 40)) true ]}.

Lemma demo_staged_fits (tk : bytes * bytes) (w : StagedWrite) : demo_staged !! tk = Some w -> write_fits demo_A (tk, w).
Proof.
  unfold demo_staged. intros [Ht Hw]%lookup_singleton_Some.
  pose proof (proj1 (demo_good 7 40 true ltac:(done) ltac:(done))) as H. by rewrite Ht, Hw in H.
Qed.

Lemma commit_outcomes_witness : exists c' : Conn,
  commit_txn demo_show demo_synced 1 demo_staged (mkConn demo_engine session_default) = Ret (c', Ok ()) /\
  commit_outcome demo_A 1 demo_staged (mkConn demo_engine session_default) c' (Ok ()) /\
  exists G' A', shows (HP := ref_pool_ok) (HT := gmap_kv_ok) G' c' A' /\ installs demo_staged demo_A A'.
Proof.
  destruct demo_fresh as [[G HG] _].
  pose proof (commit_outcomes (HT := gmap_kv_ok) (HP := ref_pool_ok) demo_show demo_synced G (mkConn demo_engine session_default) demo_A 1 demo_staged HG) as Hc.
  specialize (Hc demo_staged_fits eq_refl eq_refl).
  set (x := commit_txn demo_show demo_synced 1 demo_staged (mkConn demo_engine session_default)) in *.
  assert (exists c', x = Ret (c', Ok ())) as [c' E] by (eexists; vm_compute; reflexivity).
  exists c'. rewrite E in Hc |- *. split; [reflexivity|]. destruct Hc as [H1 H2]. split; [exact H1|exact (H2 eq_refl)].
Defined.

(** ** After a commit that failed behind its records *)

Section stranded.
Context {T P : Type} {KT : KvTree T} {KP : Pool P} {HO : HashOrder}.
Context (f64_show : Z -> bytes).

Abbreviation Conn := (@Engine.Conn T P).

(** The log and the frontier are as they were. *)
Definition same_log (c c' : Conn) : Prop := e_log (c_db c') = e_log (c_db c) /\ e_frontier (c_db c') = e_frontier (c_db c).

Lemma at_table_log {A} n (op : SM (@Table T P) A) c c' r : at_table n op c = Ret (c', r) -> same_log c c'.
Proof.
  unfold at_table, lend. destruct (d_tables _ !! n) as [t|]; [|by intros [= <- <-]].
  destruct (op _) as [[t' r']| |]; cbn; try done. by intros [= <- <-].
Qed.

Lemma check_inserts_log l c c' r : check_inserts f64_show l c = Ret (c', r) -> same_log c c'.
Proof.
  revert c. induction l as [|[[t k] w] l IH]; intros c; cbn [check_inserts]; [by intros [= <- <-]|].
  destruct (sw_insert w); [|apply IH]. unfold mbind at 1, sm_bind at 1. destruct (at_table t (tree_get k) c) as [[c1 r1]| |] eqn:E; [|done|done].
  apply at_table_log in E. destruct r1 as [stored|e|]; [|by intros [= <- <-]..].
  unfold the_db. rewrite (bind_run _ _ c1 c1 (bool_decide ((t, k) ∈ e_in_flight (c_db c1)))) by done.
  destruct (_ || _).
  - unfold mbind, sm_bind, lift. destruct (decode_key k); unfold fail, lift; by intros [= <- <-].
  - intros H%IH. destruct E, H. split; congruence.
Qed.

End stranded.

Lemma find_tables_log {T P} `{KvTree T, Pool P} l (c c' : @Conn T P) r : find_tables l c = Ret (c', r) -> c' = c.
Proof.
  revert c. induction l as [|[[t k] w] l IH]; intros c; cbn [find_tables]; [by intros [= <- <-]|]. unfold the_db.
  rewrite (bind_run _ _ c c (bool_decide (is_Some (d_tables (e_data (c_db c)) !! t)))) by done. case_bool_decide; [apply IH|by intros [= <- <-]].
Qed.

(** A statement that began at a stuck frontier and returned. *)
Section stuck.
Context {T P : Type} {KT : KvTree T} {KP : Pool P} {HO : HashOrder}.
Context (f64_show : Z -> bytes) (synced : Z -> bool).

Abbreviation Conn := (@Engine.Conn T P).
Abbreviation World := (@World T P).

Definition stuck (e : @Engine.Engine T P) : Prop := e_frontier e <> log_end e.

Lemma same_log_refl (c : Conn) : same_log c c.
Proof. done. Qed.

Lemma same_log_trans (c1 c2 c3 : Conn) : same_log c1 c2 -> same_log c2 c3 -> same_log c1 c3.
Proof. intros [] []. split; congruence. Qed.

(** A commit gets past the wait for the frontier only when it writes nothing. *)
Lemma commit_txn_stuck (c c' : Conn) txn staged r : stuck (c_db c) -> commit_txn f64_show synced txn staged c = Ret (c', r) ->
  same_log c c' /\ (r = Ok () -> staged = ∅).
Proof.
  intros Hfr. unfold commit_txn. case_bool_decide; [by intros [= <- <-]|]. unfold mbind at 1, sm_bind at 1.
  destruct (find_tables (entries staged) c) as [[c1 r1]| |] eqn:E1; [|done|done]. apply find_tables_log in E1 as ->.
  destruct r1 as [[]|e|]; [|by intros [= <- <-]..].
  unfold lift. destruct (encode_writes (entries staged)) as [ws|e|]; [rewrite (bind_run _ _ c c ws) by done|by intros [= <- <-]..].
  unfold the_db. rewrite (bind_run _ _ c c (e_unix (c_db c))) by done. unfold mbind at 1, sm_bind at 1.
  destruct ((if has_inserts staged then check_inserts f64_show (entries staged) else mret ()) c) as [[c2 r2]| |] eqn:E2; [|done|done].
  assert (same_log c c2) as [L1 L2] by (destruct (has_inserts staged); [by eapply check_inserts_log|by injection E2 as <-]).
  destruct r2 as [[]|e|]; [|by intros [= <- <-]..].
  unfold alloc_commit_epoch. erewrite bind_run by reflexivity. unfold append_records. erewrite bind_run by reflexivity. cbn beta iota.
  unfold stuck, log_end in *.
  destruct (has_inserts staged); unfold db, modify; erewrite bind_run by reflexivity; unfold wait_durable, mbind at 1, sm_bind at 1;
    (destruct (synced _); [|done]); unfold wait_frontier, mbind at 1, sm_bind at 1; cbn [c_db e_frontier e_log set_log set_epochs set_in_flight];
    unfold log_end; cbn [c_db e_log set_epochs]; rewrite L1, L2; by rewrite (proj2 (Z.eqb_neq _ _)).
Qed.

Lemma single_update_stuck (c c' : Conn) table key enc r : stuck (c_db c) -> commit_single_update synced table key enc c = Ret (c', r) ->
  c' = c /\ r <> Ok ().
Proof.
  intros Hfr. unfold commit_single_update. destruct (_ <? _); [by intros [= <- <-]|].
  unfold alloc_txn, the_db, db, modify. erewrite bind_run by reflexivity. erewrite bind_run by reflexivity.
  unfold alloc_commit_epoch. erewrite bind_run by reflexivity. unfold append_records. erewrite bind_run by reflexivity. cbn beta iota.
  unfold wait_durable, mbind at 1, sm_bind at 1. destruct (synced _); [|done]. unfold wait_frontier, mbind at 1, sm_bind at 1.
  cbn [c_db e_frontier set_log set_epochs set_next_txn]. by rewrite (proj2 (Z.eqb_neq _ _)).
Qed.

Lemma wal_commit_stuck (c : Conn) recs : stuck (c_db c) -> wal_commit synced recs c = Fuel.
Proof.
  intros Hfr. unfold wal_commit, the_db. rewrite (bind_run _ _ c c (e_unix (c_db c))) by done.
  unfold append_records. erewrite bind_run by reflexivity. cbn beta iota. unfold wait_durable, mbind at 1, sm_bind at 1. destruct (synced _); [|done].
  unfold wait_frontier, mbind at 1, sm_bind at 1. cbn [c_db e_frontier set_log]. by rewrite (proj2 (Z.eqb_neq _ _)).
Qed.

Lemma snapshot_end_log (c c' : Conn) r : Engine.snapshot_end c = Ret (c', r) -> same_log c c' /\ r = Ok ().
Proof.
  destruct c as [e x]. unfold Engine.snapshot_end, Engine.on_snapshot, from_mvcc, mvcc_of, Mvcc.snapshot_end, Mvcc.release_snapshot, modify. cbn.
  destruct (s_snapshot x) as [pin|]; cbn; by intros [= <- <-].
Qed.

(** A statement whose output is dropped. *)
Lemma dropped_output {A} (m : SM Conn A) c c' r : (_ ← m; mret ()) c = Ret (c', r) ->
  exists r', m c = Ret (c', r') /\ (r = Ok () -> exists a, r' = Ok a).
Proof. unfold mbind, sm_bind. destruct (m c) as [[c1 [a|e|]]| |]; try done; intros [= <- <-]; eexists; (split; [done|]); eauto; done. Qed.

(** The statement of a client with session [x] has nothing to commit. *)
Definition commits_nothing (x : Sess) (a : Act) : Prop :=
  match a with
  | AWrite staged => s_txn x = None -> s_autocommit x = true -> staged = ∅
  | APoint _ _ _ => False
  | ACommit => match s_txn x with Some t => at_staged t = ∅ | None => True end
  | ABegin _ | ARollback => True
  end.

Lemma exec_commit_stuck (c c' : Conn) r : stuck (c_db c) -> Execute.exec_commit f64_show synced c = Ret (c', r) ->
  same_log c c' /\ (is_ok r = true -> commits_nothing (c_ses c) ACommit).
Proof.
  intros Hfr. unfold Execute.exec_commit. rewrite (bind_run _ _ c c (c_ses c)) by done. cbn [commits_nothing].
  destruct (s_txn (c_ses c)) as [t|] eqn:Et.
  - unfold mbind, sm_bind, session, modify. cbn -[Engine.snapshot_end]. destruct (commit_txn _ _ _ _ _) as [[c1 r1]| |] eqn:E1; [|done|done].
    apply commit_txn_stuck in E1 as [Hl Ho]; [|done]. destruct r1 as [[]|e|]; [|by intros [= <- <-]..].
    destruct (Engine.snapshot_end c1) as [[c2 r2]| |] eqn:E2; [|done|done]. apply snapshot_end_log in E2 as [Hl2 ->].
    intros [= <- <-]. split; [exact (same_log_trans c c1 c2 Hl Hl2)|auto].
  - unfold mbind, sm_bind. cbn -[Engine.snapshot_end]. destruct (Engine.snapshot_end c) as [[c2 r2]| |] eqn:E2; [|done|done]. apply snapshot_end_log in E2 as [Hl2 ->].
    by intros [= <- <-].
Qed.

Lemma act_stuck (c c' : Conn) a r : stuck (c_db c) -> act f64_show synced a c = Ret (c', r) ->
  same_log c c' /\ (r = Ok () -> commits_nothing (c_ses c) a).
Proof.
  intros Hfr. destruct a as [staged|table key row|isolation| |]; cbn [act commits_nothing].
  - unfold commit_staged_or_stage. rewrite (bind_run _ _ c c (c_ses c)) by done. destruct (s_txn (c_ses c)); [by intros [= <- <-]|].
    rewrite (bind_run _ _ _ _ _ (alloc_run c)). destruct (s_autocommit _); [|by intros [= <- <-]].
    intros [Hl Ho]%commit_txn_stuck; [|done]. split; [exact Hl|auto].
  - intros [-> Hr]%single_update_stuck; [done|done].
  - unfold exec_begin. destruct c as [e x]. unfold mbind, sm_bind, the_session, gets. cbn.
    destruct (s_txn x); cbn; [by intros [= <- <-]|]. destruct isolation; cbn; by intros [= <- <-].
  - intros (r' & [Hl Ho]%exec_commit_stuck & Hr)%dropped_output; [|done]. split; [done|]. intros H. destruct (Hr H) as [o ->]. by apply Ho.
  - unfold Execute.exec_rollback, mbind, sm_bind, session, modify. cbn -[Engine.snapshot_end]. destruct (Engine.snapshot_end _) as [[c2 r2]| |] eqn:E2; [|done|done].
    apply snapshot_end_log in E2 as [Hl2 ->]. by intros [= <- <-].
Qed.

(** What can come after [w0] without a checkpoint or a restart: statements that
    return, and clients that wait for ever behind the records they appended, or
    work on anything else than log and frontier. *)
Inductive later (w0 : World) : World -> Prop :=
| later_start : later w0 w0
| later_act w i a w' r : later w0 w -> act_by f64_show synced i a w = Ret (w', r) -> later w0 w'
| later_rest w w' recs : later w0 w -> e_frontier (w_db w') = e_frontier (w_db w) -> e_log (w_db w') = e_log (w_db w) ++ recs -> later w0 w'.

Lemma act_by_stuck w i a w' r : stuck (w_db w) -> act_by f64_show synced i a w = Ret (w', r) ->
  e_log (w_db w') = e_log (w_db w) /\ e_frontier (w_db w') = e_frontier (w_db w) /\ (r = Ok () -> commits_nothing (w_ses w i) a).
Proof.
  intros Hs. unfold act_by. destruct (act _ _ a _) as [[c r']| |] eqn:E; [|done|done]. intros [= <- <-].
  apply act_stuck in E as [[H1 H2] H3]; [|done]. done.
Qed.

Lemma Zlen_pos {A} (l : list A) : 0 <= Zlen l.
Proof. apply Zle_0_nat. Qed.

Lemma log_end_grows (e e' : @Engine.Engine T P) recs : e_log e' = e_log e ++ recs -> log_end e <= log_end e'.
Proof. intros H. unfold log_end. rewrite H, log_bytes_app, Zlen_app. pose proof (Zlen_pos (log_bytes recs)). lia. Qed.

(** The frontier stays short of the end of the log. *)
Lemma later_stuck w0 w : e_frontier (w_db w0) < log_end (w_db w0) -> later w0 w -> e_frontier (w_db w) < log_end (w_db w).
Proof.
  intros H0. induction 1 as [|w i a w' r _ IH E|w w' recs _ IH Hf Hl]; [done| |].
  - apply act_by_stuck in E as (Hl & Hf & _); [|unfold stuck; lia]. unfold log_end in *. by rewrite Hl, Hf.
  - pose proof (log_end_grows _ _ _ Hl). lia.
Qed.

End stuck.

(** A commit leaves the log longer than it found it. *)
Lemma commit_extends_log {T P : Type} {HO : HashOrder} (c c' : @Engine.Conn T P) txn staged :
  e_log (c_db c') = e_log (c_db c) ++ commit_records c txn staged -> log_end (c_db c) < log_end (c_db c').
Proof.
  intros H. unfold log_end. rewrite H. unfold commit_records. rewrite !log_bytes_app, !Zlen_app, log_bytes_cons, Zlen_app.
  unfold encode_record at 1. rewrite Zlen_frame. pose proof (Zlen_pos (log_bytes (commit_body txn (entries staged)))).
  pose proof (Zlen_pos (encode_payload (RCommit txn (Some (e_unix (c_db c)))))). pose proof (Zlen_pos (log_bytes [])). lia.
Qed.

(** C40: one failed installation ends all writing until a checkpoint or a
    restart.  When a commit on a healthy engine fails behind its log records
    (which only a page pool that refuses one of its wide rows makes it do), then
    in every world that follows, whatever the clients do and however many of
    them hang: a statement that returns has left the log as it was, and one that
    returns Ok had nothing to commit (a commit with writes and a point update
    are refused for another reason or never return), and no DDL transaction
    returns.  All of them wait for an install frontier that nobody moves. *)
Theorem stranded_engine_blocks {T P : Type} {KT : KvTree T} {HT : KvTreeOk T} {KP : Pool P} {HP : PoolOk P} {HO : HashOrder} {HOO : HashOrderOk}
    (f64_show : Z -> bytes) (synced : Z -> bool) (G : Owned) (c c' : @Conn T P) (A : ADb) (txn : Z) (staged : Staged) e :
  shows G c A -> (forall tk w, staged !! tk = Some w -> write_fits A (tk, w)) ->
  e_frontier (c_db c) = log_end (c_db c) -> synced (log_end (set_log (e_log (c_db c) ++ commit_records c txn staged) (c_db c))) = true ->
  commit_txn f64_show synced txn staged c = Ret (c', Err e) -> e_log (c_db c') <> e_log (c_db c) ->
  (exists tk w, staged !! tk = Some w /\ wide (tk, w)) /\
  forall sessions w, later f64_show synced (mkWorld (c_db c') sessions) w ->
    (forall i a w' r, act_by f64_show synced i a w = Ret (w', r) ->
       e_log (w_db w') = e_log (w_db w) /\ (r = Ok () -> commits_nothing (w_ses w i) a)) /\
    (forall i recs, wal_commit synced recs (mkConn (w_db w) (w_ses w i)) = Fuel).
Proof.
  intros Hc Hfit Hfr Hsy Hrun Hlog. pose proof (commit_txn_ok f64_show synced G c A txn staged Hc Hfit Hfr Hsy) as Hw.
  unfold wp in Hw. rewrite Hrun in Hw. destruct Hw as [[_ ->]|[Hwide _ Hl Hf]]; [done|]. split; [done|]. intros sessions w Hlater.
  assert (Hstuck : stuck (w_db w)).
  { apply Z.lt_neq. refine (later_stuck f64_show synced _ _ _ Hlater). cbn [w_db]. rewrite Hf, Hfr. by eapply commit_extends_log. }
  split; [|intros i recs; by apply wal_commit_stuck]. intros i a w' r E. apply act_by_stuck in E as (H1 & _ & H3); done.
Qed.

(** ** A page file without room *)

Definition note_def : TableDef :=
  mkTableDef (str "db.notes") (mkSchema [mkColumnDef (str "id") CInt false false None; mkColumnDef (str "body") CText false false None] 0) [] [] None.
Definition note_row : list Datum := [Int 7; Text (replicate 1100 97)].
Definition note_staged : Staged := {[ (str "db.notes", demo_key 7) := mkStaged (Some note_row) true ]}.

(** A narrow note, which any pool would do for. *)
Definition next_staged : Staged := {[ (str "db.notes", demo_key 8) := mkStaged (Some [Int 8; Text []]) true ]}.

Definition full_pool : RefPool := mkRefPool ∅ ∅ (2 ^ 64).

Lemma full_pool_holds : holds full_pool (snd <$> (∅ : Owned)).
Proof. cbn. split; [by rewrite fmap_empty|]. split; [done|]. intros l [x Hx]. by rewrite fmap_empty, lookup_empty in Hx. Qed.

Definition note_create : Record_ := RCreateTable 1 note_def.
Definition note_db : @Data (gmap bytes bytes) RefPool :=
  match apply_records [note_create] (initial full_pool) with Ret (d, _) => d | _ => initial full_pool end.
Definition note_conn : @Conn (gmap bytes bytes) RefPool :=
  mkConn (mkEngine note_db [note_create; RCommit 1 None] (Zlen wal_header + Zlen (log_bytes [note_create; RCommit 1 None])) ∅ 2 1 0 vs_new None store_new 0 5 false)
    session_default.
Definition note_A : ADb := effects [note_create] empty_db.

Lemma note_shows : exists G, shows (HT := gmap_kv_ok) (HP := ref_pool_ok) G note_conn note_A.
Proof.
  pose proof (apply_records_ok (HT := gmap_kv_ok) (HP := ref_pool_ok) [note_create] (initial full_pool) empty_db ∅ (initial_rep ∅ full_pool full_pool_holds) ltac:(done)) as Hw.
  unfold wp in Hw. unfold shows. cbn [c_db note_conn e_data]. unfold note_db. destruct (apply_records [note_create] (initial full_pool)) as [[d r]| |] eqn:E; [|done|done].
  destruct Hw as [[_ HG]|[Hwide _]]; [exact HG|]. exfalso. apply Exists_cons in Hwide as [Hw|Hw]; [done|by apply Exists_nil in Hw].
Qed.

Lemma note_fits (tk : bytes * bytes) (w : StagedWrite) : note_staged !! tk = Some w -> write_fits note_A (tk, w).
Proof.
  unfold note_staged. intros [<- <-]%lookup_singleton_Some a Ha. cbn [fst snd sw_row] in *.
  cbn [note_A effects fold_left effect note_create on_tables a_tables empty_db] in Ha. rewrite lookup_empty in Ha.
  apply lookup_insert_Some in Ha as [[_ <-]|[_ Ha]]; [|by rewrite lookup_empty in Ha]. split; [|reflexivity]. intros Hs. split; [done| | |done].
  - repeat constructor; by vm_compute.
  - exists (Int 7). split; [done|]. by repeat split.
Qed.

(** The insertion of the note fails behind its records; the next one hangs. *)
Lemma stranded_engine_blocks_witness : exists c' : Conn,
  commit_txn demo_show demo_synced 2 note_staged note_conn = Ret (c', Err (Io (str "page file exhausted"))) /\
  e_log (c_db c') = e_log (c_db note_conn) ++ commit_records note_conn 2 note_staged /\
  act_by demo_show demo_synced 3 (AWrite next_staged) (mkWorld (c_db c') (fun _ => session_default)) = Fuel /\
  forall w, later demo_show demo_synced (mkWorld (c_db c') (fun _ => session_default)) w ->
    (forall i a w' r, act_by demo_show demo_synced i a w = Ret (w', r) ->
       e_log (w_db w') = e_log (w_db w) /\ (r = Ok () -> commits_nothing (w_ses w i) a)) /\
    (forall i recs, wal_commit demo_synced recs (mkConn (w_db w) (w_ses w i)) = Fuel).
Proof.
  destruct note_shows as [G HG].
  pose proof (fun c' e => stranded_engine_blocks (HT := gmap_kv_ok) (HP := ref_pool_ok) demo_show demo_synced G note_conn c' note_A 2 note_staged e
    HG note_fits eq_refl eq_refl) as Hc.
  set (x := commit_txn demo_show demo_synced 2 note_staged note_conn) in *.
  assert (exists c', x = Ret (c', Err (Io (str "page file exhausted"))) /\
    e_log (c_db c') = e_log (c_db note_conn) ++ commit_records note_conn 2 note_staged /\
    act_by demo_show demo_synced 3 (AWrite next_staged) (mkWorld (c_db c') (fun _ => session_default)) = Fuel) as (c' & E & Hl & Hf).
  { eexists. split; [vm_compute; reflexivity|]. split; vm_compute; reflexivity. }
  exists c'. split; [exact E|]. split; [exact Hl|]. split; [exact Hf|].
  destruct (Hc c' _ E) as [_ Hb]; [rewrite Hl; apply log_grew|]. exact (Hb _).
Defined.
