(* ===== verification/ReplProtocol.v ===== *)
(** The wire protocol between a primary and its replicas
    (crates/server/src/replication/protocol.rs): the frames, their encoding,
    and reading and writing them on a socket with a read timeout.

    What a socket delivers is a list of events: the next byte arrives, or a
    read that waits for it times out.  The end of the list is the peer closing
    the connection.  How many bytes one [read] returns does not matter:
    [read_exact] reads on until it has all of them. *)
From stdpp Require Import base list strings.
From Stdlib Require Import ZArith Lia.
From S2P Require Import Prelude Machine Types TableDef Catalog.

Definition REPL_MAGIC : Z := 0x52.
Definition PROTOCOL_VERSION : Z := 1.
Definition MAX_FRAME : Z := 64 * 1024 * 1024.

Definition T_HANDSHAKE : Z := 1.
Definition T_HANDSHAKE_ACK : Z := 2.
Definition T_START_REPLICATION : Z := 3.
Definition T_WAL_CHUNK : Z := 4.
Definition T_HEARTBEAT : Z := 5.
Definition T_HEARTBEAT_ACK : Z := 6.
Definition T_SNAPSHOT_REQUIRED : Z := 7.
Definition T_SNAPSHOT_BEGIN : Z := 8.
Definition T_SNAPSHOT_CHUNK : Z := 9.
Definition T_SNAPSHOT_END : Z := 10.

(** [StartReplication] without a position. *)
Definition NO_GENERATION : Z := u64_MAX.

Inductive Frame : Type :=
| Handshake (version : Z) (user password : bytes)
| HandshakeAck (ok : bool) (message : bytes) (wal_version durable_offset : Z)
| StartReplication (generation from_offset : Z)
| WalChunk (offset : Z) (data : bytes)
| Heartbeat (durable_offset : Z)
| HeartbeatAck
| SnapshotRequired
| SnapshotBegin (total_bytes end_offset generation : Z)
| SnapshotChunk (data : bytes)
| SnapshotEnd.

(** [struct CodecError(String)], the one error of this layer; it is carried by
    the [Corrupted] case of the shared result type. *)
Definition CodecError (m : bytes) : Error := Corrupted m.

(** * Frames *)

(** [Cursor::take] and the field readers built on it. *)
Definition truncated_frame : Error := CodecError (str "truncated frame").

Definition u32_le : Dec Z := b ← get_slice truncated_frame 4; mret (of_le b).
Definition u64_le : Dec Z := b ← get_slice truncated_frame 8; mret (of_le b).
Definition cursor_u8 : Dec Z := get_byte truncated_frame.

Definition bytes_t (msg : string) : Dec bytes :=
  n ← u32_le; check_le n MAX_FRAME msg;; get_slice truncated_frame n.

Definition str_t : Dec bytes :=
  b ← bytes_t "string too large"; dec_lift (from_utf8 (CodecError (str "utf8")) b).

Definition blob_t : Dec bytes := bytes_t "blob too large".

Definition encode_body (f : Frame) : bytes :=
  match f with
  | Handshake version user password => T_HANDSHAKE :: to_le 4 version ++ put_str user ++ put_str password
  | HandshakeAck ok message wal_version durable_offset =>
      T_HANDSHAKE_ACK :: bool_byte ok :: put_str message ++ to_le 4 wal_version ++ to_le 8 durable_offset
  | StartReplication generation from_offset => T_START_REPLICATION :: to_le 8 generation ++ to_le 8 from_offset
  | WalChunk offset data => T_WAL_CHUNK :: to_le 8 offset ++ put_bytes data
  | Heartbeat durable_offset => T_HEARTBEAT :: to_le 8 durable_offset
  | HeartbeatAck => [T_HEARTBEAT_ACK]
  | SnapshotRequired => [T_SNAPSHOT_REQUIRED]
  | SnapshotBegin total_bytes end_offset generation =>
      T_SNAPSHOT_BEGIN :: to_le 8 total_bytes ++ to_le 8 end_offset ++ to_le 8 generation
  | SnapshotChunk data => T_SNAPSHOT_CHUNK :: put_bytes data
  | SnapshotEnd => [T_SNAPSHOT_END]
  end.

(** The fields behind the type byte. *)
Definition decode_frame_fields (t : Z) : Dec Frame :=
  match t with
  | 1 => version ← u32_le; user ← str_t; password ← str_t; mret (Handshake version user password)
  | 2 => b ← cursor_u8; message ← str_t; wal_version ← u32_le; durable_offset ← u64_le;
         mret (HandshakeAck (negb (b =? 0)) message wal_version durable_offset)
  | 3 => generation ← u64_le; from_offset ← u64_le; mret (StartReplication generation from_offset)
  | 4 => offset ← u64_le; data ← blob_t; mret (WalChunk offset data)
  | 5 => durable_offset ← u64_le; mret (Heartbeat durable_offset)
  | 6 => mret HeartbeatAck
  | 7 => mret SnapshotRequired
  | 8 => total_bytes ← u64_le; end_offset ← u64_le; generation ← u64_le;
         mret (SnapshotBegin total_bytes end_offset generation)
  | 9 => data ← blob_t; mret (SnapshotChunk data)
  | 10 => mret SnapshotEnd
  | t => dec_fail (CodecError (str "unknown frame type " ++ show_Z t))
  end.

Definition decode_frame : Dec Frame := t ← cursor_u8; decode_frame_fields t.

Definition decode_body (buf : bytes) : res Frame := fst <$> decode_frame buf 0.

(** * Sockets *)

Inductive Event : Type := Arrive (b : Z) | TimesOut.

Abbreviation Stream := (list Event).

(** Why a read failed, as the platform words it. *)
Inductive IoError : Type := TimedOut | UnexpectedEof.

Inductive Got : Type := GotBytes (b : bytes) | GotError (e : IoError).

(** [stream.read_exact(&mut buf)] with [buf.len() = n]: what was read before a
    failure is gone. *)
Fixpoint recv_exact (n : nat) (s : Stream) : Got * Stream :=
  match n with
  | O => (GotBytes [], s)
  | S n =>
    match s with
    | [] => (GotError UnexpectedEof, [])
    | TimesOut :: s => (GotError TimedOut, s)
    | Arrive b :: s =>
      match recv_exact n s with
      | (GotBytes bs, s) => (GotBytes (b :: bs), s)
      | (GotError e, s) => (GotError e, s)
      end
    end
  end.

(** The bytes [write_frame] sends: a big-endian length, the magic, the body. *)
Definition write_frame (f : Frame) : res bytes :=
  let body := REPL_MAGIC :: encode_body f in
  if MAX_FRAME <? Zlen body then Err (CodecError (str "frame too large"))
  else Ok (to_be 4 (Zlen body) ++ body).

Section socket.
(** [e.to_string()] of an I/O error. *)
Context (io_message : IoError -> bytes).

(** [Ok None] when no header arrived in time. *)
Definition read_frame (s : Stream) : res (option Frame) * Stream :=
  match recv_exact 4 s with
  | (GotError TimedOut, s) => (Ok None, s)
  | (GotError e, s) => (Err (CodecError (io_message e)), s)
  | (GotBytes hdr, s) =>
    let len := of_be hdr in
    if (len <? 2) || (MAX_FRAME <? len) then (Err (CodecError (str "bad frame length " ++ show_Z len)), s)
    else
      match recv_exact (Z.to_nat len) s with
      | (GotError e, s) => (Err (CodecError (io_message e)), s)
      | (GotBytes body, s) =>
        match body with
        | [] => (Panic, s)
        | magic :: body =>
          if negb (magic =? REPL_MAGIC) then (Err (CodecError (str "bad replication magic")), s)
          else (Some <$> decode_body body, s)
        end
      end
  end.

(** The loops of both ends: a timeout is a tick, an error ends the connection.
    A round takes at least one event or ends the loop. *)
Fixpoint receive (fuel : nat) (s : Stream) : list Frame * res () :=
  match fuel with
  | O => ([], Panic)
  | S fuel =>
    match read_frame s with
    | (Ok None, s) => receive fuel s
    | (Ok (Some f), s) => let '(fs, r) := receive fuel s in (f :: fs, r)
    | (Err e, _) => ([], Err e)
    | (Panic, _) => ([], Panic)
    end
  end.

Definition received (s : Stream) : list Frame * res () := receive (S (length s)) s.

End socket.

(** * What the fields of a frame can hold: the ranges of their Rust types *)

Definition frame_typed (f : Frame) : Prop :=
  match f with
  | Handshake version user password => u32 version /\ utf8_valid user = true /\ utf8_valid password = true
  | HandshakeAck _ message wal_version durable_offset => utf8_valid message = true /\ u32 wal_version /\ u64 durable_offset
  | StartReplication generation from_offset => u64 generation /\ u64 from_offset
  | WalChunk offset _ => u64 offset
  | Heartbeat durable_offset => u64 durable_offset
  | SnapshotBegin total_bytes end_offset generation => u64 total_bytes /\ u64 end_offset /\ u64 generation
  | _ => True
  end.

(** * Round trip of a frame *)

Lemma decodes_u32_le z : u32 z -> decodes u32_le (to_le 4 z) z.
Proof. apply (decodes_le _ 4). Qed.

Lemma decodes_u64_le z : u64 z -> decodes u64_le (to_le 8 z) z.
Proof. apply (decodes_le _ 8). Qed.

Lemma decodes_bytes_t msg b : Zlen b <= MAX_FRAME -> decodes (bytes_t msg) (put_bytes b) b.
Proof.
  intros H. pose proof (Nat2Z.is_nonneg (length b)). assert (HM : MAX_FRAME = 67108864) by reflexivity.
  eapply decodes_bind; [apply decodes_u32_le; widths; lia|]. apply decodes_check; [done|]. by apply decodes_get_slice.
Qed.

Lemma decodes_str_t s : utf8_valid s = true -> Zlen s <= MAX_FRAME -> decodes str_t (put_str s) s.
Proof.
  intros Hu Hs. rewrite <- (app_nil_r (put_str s)).
  eapply decodes_bind; [by apply decodes_bytes_t|by apply decodes_from_utf8].
Qed.

Lemma decodes_byte_then {A} e b (k : Z -> Dec A) bs x : decodes (k b) bs x -> decodes (get_byte e ≫= k) (b :: bs) x.
Proof. intros Hk. change (b :: bs) with ([b] ++ bs). eapply decodes_bind; [apply decodes_get_byte|done]. Qed.

(** A last field that is wrapped into the result. *)
Lemma decodes_last {A B} (d : Dec A) (f : A -> B) bs x : decodes d bs x -> decodes (a ← d; mret (f a)) bs (f x).
Proof. apply decodes_bind_ret. Qed.

#[local] Hint Resolve decodes_u32_le decodes_u64_le decodes_bytes_t decodes_str_t : codec.

Lemma Zlen_put_str s : Zlen (put_str s) = 4 + Zlen s.
Proof. unfold put_str. rewrite Zlen_app, Zlen_to_le. lia. Qed.

(** The fields of a frame that fits. *)
Ltac frame_sizes := rewrite ?Zlen_cons, ?Zlen_app, ?Zlen_put_str, ?Zlen_to_le in *.

Lemma decodes_frame f : frame_typed f -> Zlen (encode_body f) <= MAX_FRAME -> decodes decode_frame (encode_body f) f.
Proof.
  intros Ht Hl. destruct f; cbn [encode_body frame_typed] in *; frame_sizes; destruct_and?;
    apply decodes_byte_then; cbn [decode_frame_fields T_HANDSHAKE T_HANDSHAKE_ACK T_START_REPLICATION T_WAL_CHUNK T_HEARTBEAT
      T_HEARTBEAT_ACK T_SNAPSHOT_REQUIRED T_SNAPSHOT_BEGIN T_SNAPSHOT_CHUNK T_SNAPSHOT_END];
    try apply decodes_ret.
  all: try (apply decodes_byte_then; rewrite bool_byte_neq0).
  all: repeat (eapply decodes_bind; [solve [eauto with codec lia]|]; cbn beta).
  all: apply decodes_last; eauto with codec lia.
Qed.

Lemma decode_encode_body f : frame_typed f -> Zlen (encode_body f) <= MAX_FRAME -> decode_body (encode_body f) = Ok f.
Proof.
  intros Ht Hl. pose proof (decodes_frame f Ht Hl [] []) as H. rewrite app_nil_r in H. unfold decode_body.
  change (Zlen []) with 0 in H. cbn [app] in H. by rewrite H.
Qed.

(** * Reading from a socket *)

Lemma recv_exact_all bs s : recv_exact (length bs) ((Arrive <$> bs) ++ s) = (GotBytes bs, s).
Proof. induction bs as [|b bs IH]; [done|]. cbn. by rewrite IH. Qed.

Lemma recv_exact_n n bs s : length bs = n -> recv_exact n ((Arrive <$> bs) ++ s) = (GotBytes bs, s).
Proof. intros <-. apply recv_exact_all. Qed.

(** What a read consumes. *)
Lemma recv_exact_split n : forall s g s', recv_exact n s = (g, s') ->
  exists taken, s = taken ++ s' /\ (length taken <= n)%nat /\
    match g with GotBytes bs => taken = Arrive <$> bs /\ length bs = n | GotError _ => True end.
Proof.
  induction n as [|n IH]; intros s g s' E; cbn in E.
  - injection E as <- <-. by exists [].
  - destruct s as [|[b|] s]; cbn in E.
    + injection E as <- <-. exists []. cbn. repeat split; lia.
    + destruct (recv_exact n s) as [g0 s0] eqn:E0. destruct (IH _ _ _ E0) as (taken & -> & Hl & Hg).
      destruct g0 as [bs|e]; injection E as <- <-; exists (Arrive b :: taken); cbn; split_and!; try done; try lia;
        by destruct Hg as [-> <-].
    + injection E as <- <-. exists [TimesOut]. cbn. repeat split; lia.
Qed.

Section delivery.
Context (io_message : IoError -> bytes).

Abbreviation read_frame := (read_frame io_message).
Abbreviation receive := (receive io_message).

Lemma write_frame_ok f b : write_frame f = Ok b ->
  b = to_be 4 (Zlen (REPL_MAGIC :: encode_body f)) ++ REPL_MAGIC :: encode_body f /\ Zlen (encode_body f) < MAX_FRAME.
Proof.
  unfold write_frame. cbv zeta. case_match eqn:Hc; [done|]. bsimp. intros H. apply Ok_eq in H as <-.
  split; [done|]. rewrite Zlen_cons in Hc. lia.
Qed.

Lemma encode_body_ne f : 1 <= Zlen (encode_body f).
Proof. destruct f; cbn [encode_body]; rewrite Zlen_cons; lia. Qed.

Lemma read_written f b s : frame_typed f -> write_frame f = Ok b -> read_frame ((Arrive <$> b) ++ s) = (Ok (Some f), s).
Proof.
  intros Ht Hw. apply write_frame_ok in Hw as [-> Hl]. set (body := REPL_MAGIC :: encode_body f).
  assert (HM : MAX_FRAME = 67108864) by reflexivity. pose proof (encode_body_ne f).
  assert (Hb : Zlen body = 1 + Zlen (encode_body f)) by apply Zlen_cons.
  rewrite fmap_app, <- app_assoc. unfold ReplProtocol.read_frame. rewrite (recv_exact_n 4) by apply length_to_be.
  rewrite (of_be_to_be_u 4) by (widths; lia). zb. cbn [orb]. rewrite Nat2Z.id, recv_exact_all. unfold body at 1.
  rewrite Z.eqb_refl. cbn [negb]. rewrite decode_encode_body by (done || lia). done.
Qed.

Lemma receive_ticks k : forall fuel s, receive (k + fuel) (repeat TimesOut k ++ s) = receive fuel s.
Proof. induction k as [|k IH]; intros fuel s; [done|]. cbn. apply IH. Qed.

(** What a sender puts on the wire: frames, with quiet times before each. *)
Fixpoint wire (sent : list (nat * bytes)) : Stream :=
  match sent with
  | [] => []
  | (ticks, b) :: sent => repeat TimesOut ticks ++ (Arrive <$> b) ++ wire sent
  end.

Lemma write_frame_length f b : write_frame f = Ok b -> (5 <= length b)%nat.
Proof. intros H. apply write_frame_ok in H as [-> _]. rewrite length_app, length_to_be. cbn. lia. Qed.

Lemma receive_wire fs : forall sent fuel, Forall frame_typed fs -> Forall2 (fun f e => write_frame f = Ok e.2) fs sent ->
  (length (wire sent) < fuel)%nat -> receive fuel (wire sent) = (fs, Err (CodecError (io_message UnexpectedEof))).
Proof.
  induction fs as [|f fs IH]; intros sent fuel Ht Hs Hf; inversion Hs as [|? [ticks b] ? sent' Hw Hs']; subst.
  - destruct fuel as [|fuel]; [cbn in Hf; lia|]. reflexivity.
  - cbn [wire] in *. apply Forall_cons in Ht as [Ht Hts]. cbn in Hw. pose proof (write_frame_length _ _ Hw) as Hb.
    rewrite !length_app, repeat_length, length_fmap in Hf.
    replace fuel with (ticks + (fuel - ticks))%nat by lia. rewrite receive_ticks.
    destruct (fuel - ticks)%nat as [|fuel'] eqn:Ef; [lia|]. cbn [ReplProtocol.receive]. rewrite (read_written f) by done.
    rewrite (IH sent') by (done || lia). done.
Qed.

End delivery.

(** * What a decoder accepts is no longer than what it read *)

(** [d] reads [size a] bytes for a result [a], which satisfies [P]. *)
Definition sized {A} (P : A -> Prop) (d : Dec A) (size : A -> Z) : Prop :=
  forall b off a off', Forall u8 b -> 0 <= off <= Zlen b -> d b off = Ok (a, off') ->
    off' = off + size a /\ off <= off' <= Zlen b /\ P a.



Lemma sized_ret {A} (x : A) size : size x = 0 -> sized whatever (mret x) size.
Proof. intros Hx b off a off' _ Ho [= <- <-]. rewrite Hx. repeat split; lia. Qed.

Lemma sized_fail {A} e size : sized (A := A) whatever (dec_fail e) size.
Proof. by intros b off a off'. Qed.

Lemma sized_bind {A B} (P : A -> Prop) (Q : B -> Prop) (d : Dec A) (k : A -> Dec B) n m :
  sized P d n -> (forall a, P a -> sized Q (k a) (fun r => m r - n a)) -> sized Q (d ≫= k) m.
Proof.
  intros Hd Hk b off r off' Hb Ho E. unfold mbind, dec_bind in E. destruct (d b off) as [[a o]| |] eqn:Ed; try done.
  destruct (Hd _ _ _ _ Hb Ho Ed) as (-> & H1 & Pa).
  destruct (Hk a Pa b (off + n a) r off' Hb ltac:(lia) E) as (-> & H2 & Qr).
  split_and!; [lia|lia|lia|done].
Qed.

Lemma sized_byte e : sized whatever (get_byte e) (fun _ => 1).
Proof.
  intros b off a off' _ Ho. unfold get_byte. destruct (b !! Z.to_nat off) eqn:E; [|done]. intros [= <- <-].
  apply lookup_lt_Some in E. repeat split; lia.
Qed.

Lemma sized_slice e n : 0 <= n -> sized (Forall u8) (get_slice e n) (fun r => Zlen r).
Proof.
  intros Hn b off a off' Hb Ho. unfold get_slice. destruct (Z.ltb_spec (Zlen b) (off + n)); [done|]. intros [= <- <-].
  rewrite length_take, length_drop. split_and!; [lia|lia|lia|]. by apply Forall_take, Forall_drop.
Qed.

Lemma sized_le e n : 0 <= n -> sized (fun z => 0 <= z) (b ← get_slice e n; mret (of_le b)) (fun _ => n).
Proof.
  intros Hn b off a off' Hb Ho E. unfold mbind, dec_bind, get_slice in E. destruct (Z.ltb_spec (Zlen b) (off + n)); [done|].
  cbn in E. injection E as <- <-. split_and!; [lia|lia|lia|]. by apply of_le_nonneg, Forall_take, Forall_drop.
Qed.

Lemma sized_bytes_t msg : sized whatever (bytes_t msg) (fun r => 4 + Zlen r).
Proof.
  eapply sized_bind; [by apply sized_le|]. intros n Hn. cbv beta in Hn.
  unfold check_le. destruct (_ <? _); [by intros b off a off'|]. intros b off a off' Hb Ho E.
  destruct (sized_slice truncated_frame n Hn b off a off' Hb Ho E) as (-> & H & _). repeat split; lia.
Qed.

Lemma sized_str_t : sized whatever str_t (fun r => 4 + Zlen r).
Proof.
  intros b off a off' Hb Ho E. unfold str_t, mbind, dec_bind in E.
  destruct (bytes_t _ b off) as [[x o]| |] eqn:Ed; try done. unfold dec_lift, from_utf8 in E. destruct (utf8_valid x); [|done].
  injection E as <- <-. by apply (sized_bytes_t "string too large").
Qed.

Lemma sized_u32_le : sized whatever u32_le (fun _ => 4).
Proof. intros b off a off' Hb Ho E. by destruct (sized_le truncated_frame 4 ltac:(done) b off a off' Hb Ho E) as (-> & ? & _). Qed.

Lemma sized_u64_le : sized whatever u64_le (fun _ => 8).
Proof. intros b off a off' Hb Ho E. by destruct (sized_le truncated_frame 8 ltac:(done) b off a off' Hb Ho E) as (-> & ? & _). Qed.

Lemma sized_fields t : sized whatever (decode_frame_fields t) (fun f => Zlen (encode_body f) - 1).
Proof.
  unfold decode_frame_fields. repeat (case_match; try apply sized_fail).
  all: repeat (eapply sized_bind;
    [first [apply sized_u32_le | apply sized_u64_le | apply sized_str_t | apply sized_bytes_t | apply sized_byte]
    | intros ? _; cbn beta]).
  all: apply sized_ret; cbn [encode_body]; rewrite ?Zlen_cons, ?Zlen_app, ?Zlen_put_str, ?Zlen_to_le; cbn [length]; lia.
Qed.

Lemma decode_body_size buf f : Forall u8 buf -> decode_body buf = Ok f -> Zlen (encode_body f) <= Zlen buf.
Proof.
  intros Hb E. unfold decode_body in E. destruct (decode_frame buf 0) as [[f' off]| |] eqn:Ed; try done. injection E as <-.
  assert (H : sized whatever decode_frame (fun f => Zlen (encode_body f))).
  { eapply sized_bind; [apply sized_byte|]. intros t _. cbv beta. apply sized_fields. }
  destruct (H buf 0 _ _ Hb ltac:(lia) Ed) as (-> & ? & _). lia.
Qed.

Lemma safe_str_t : safe str_t.
Proof.
  unfold str_t, bytes_t, u32_le. repeat (apply safe_bind; [|intros ?]); auto using safe_slice, safe_ret, safe_check, safe_utf8.
Qed.

Lemma safe_blob_t : safe blob_t.
Proof. unfold blob_t, bytes_t, u32_le. repeat (apply safe_bind; [|intros ?]); auto using safe_slice, safe_ret, safe_check. Qed.

Lemma safe_le_n e n : safe (b ← get_slice e n; mret (of_le b)).
Proof. apply safe_bind; [apply safe_slice|intros; apply safe_ret]. Qed.

Lemma decode_body_total buf : decode_body buf <> Panic.
Proof.
  assert (H : safe decode_frame).
  { apply safe_bind; [apply safe_byte|]. intros t. unfold decode_frame_fields. repeat (case_match; try apply safe_fail).
    all: repeat (apply safe_bind; [first [apply safe_le_n | apply safe_str_t | apply safe_blob_t | apply safe_byte]|intros ?]);
      apply safe_ret. }
  unfold decode_body. specialize (H buf 0). by destruct (decode_frame buf 0).
Qed.

(** * Properties *)

Definition event_ok (e : Event) : Prop := match e with Arrive b => u8 b | TimesOut => True end.

Lemma arrived_u8 bs : Forall event_ok (Arrive <$> bs) <-> Forall u8 bs.
Proof. rewrite Forall_fmap. done. Qed.

(** C27: Whatever a peer sends and however it is cut up by timeouts, reading one
    frame does not panic and takes at most the header and 64 MiB from the
    socket; a frame that is accepted carries no more bytes than were read for
    it; and a length prefix outside the bounds is refused before any byte
    behind it is read (or a buffer for it allocated). *)
Theorem read_frame_bounded (io_message : IoError -> bytes) (s : Stream) : Forall event_ok s ->
  (forall r s', read_frame io_message s = (r, s') ->
    r <> Panic /\
    exists taken, s = taken ++ s' /\ Zlen taken <= 4 + MAX_FRAME /\
      forall f, r = Ok (Some f) -> 5 + Zlen (encode_body f) <= Zlen taken) /\
  forall hdr s', s = (Arrive <$> hdr) ++ s' -> length hdr = 4%nat -> of_be hdr < 2 \/ MAX_FRAME < of_be hdr ->
    read_frame io_message s = (Err (CodecError (str "bad frame length " ++ show_Z (of_be hdr))), s').
Proof.
  intros Hs. split.
  - intros r s' E. unfold read_frame in E. destruct (recv_exact 4 s) as [g s1] eqn:E1.
    destruct (recv_exact_split _ _ _ _ E1) as (t1 & -> & Hl1 & Hg1). apply Forall_app in Hs as [Ht1 Hs1].
    assert (HM : MAX_FRAME = 67108864) by reflexivity.
    destruct g as [hdr|[|]]; [|injection E as <- <-; split; [done|]; exists t1; split_and!; [done|lia|done] ..].
    destruct ((of_be hdr <? 2) || (MAX_FRAME <? of_be hdr)) eqn:El; [injection E as <- <-; split; [done|]; exists t1; split_and!; [done|lia|done]|].
    bsimp. destruct (recv_exact (Z.to_nat (of_be hdr)) s1) as [g s2] eqn:E2.
    destruct (recv_exact_split _ _ _ _ E2) as (t2 & -> & Hl2 & Hg2). apply Forall_app in Hs1 as [Ht2 _].
    assert (Hlen : Zlen (t1 ++ t2) <= 4 + MAX_FRAME) by (rewrite length_app; lia).
    destruct g as [body|]; [|injection E as <- <-; split; [done|]; exists (t1 ++ t2); split_and!; [by rewrite app_assoc|done|done]].
    destruct Hg1 as [-> Hh]. destruct Hg2 as [-> Hb]. apply arrived_u8 in Ht2. destruct body as [|m body]; [cbn in Hb; lia|].
    destruct (m =? REPL_MAGIC); injection E as <- <-;
      (split; [|exists ((Arrive <$> hdr) ++ (Arrive <$> (m :: body))); split_and!; [by rewrite app_assoc|done|]]); try done.
    + cbn. pose proof (decode_body_total body). by destruct (decode_body body).
    + cbn. intros f Hf. destruct (decode_body body) as [f'| |] eqn:Ed; try done. injection Hf as ->.
      apply Forall_cons in Ht2 as [_ Ht2]. pose proof (decode_body_size _ _ Ht2 Ed). rewrite length_app, length_cons, !length_fmap. lia.
  - intros hdr s' -> Hh Hl. unfold read_frame. rewrite (recv_exact_n 4) by done. cbv zeta.
    destruct Hl as [Hl|Hl]; [|rewrite orb_comm]; by zb.
Qed.

(** C26: What one side sends the other receives: a connection that carries the
    frames [write_frame] accepts, with the receiver timing out any number of
    times between two of them, delivers exactly those frames in their order,
    and then reports that the peer closed it. *)
Theorem frames_delivered (io_message : IoError -> bytes) (fs : list Frame) (sent : list (nat * bytes)) :
  Forall frame_typed fs -> Forall2 (fun f e => write_frame f = Ok e.2) fs sent ->
  received io_message (wire sent) = (fs, Err (CodecError (io_message UnexpectedEof))).
Proof. intros Ht Hs. apply receive_wire; [done|done|lia]. Qed.

Definition demo_frames : list Frame :=
  [Handshake 1 (str "root") (str "s3cret"); WalChunk 8 [1; 2; 250]; HeartbeatAck; SnapshotChunk []].

Definition demo_sent : list (nat * bytes) :=
  Eval vm_compute in zip [0; 2; 1; 0]%nat (default [] (mapM (fun f => match write_frame f with Ok b => Some b | _ => None end) demo_frames)).

Definition demo_message (e : IoError) : bytes :=
  match e with TimedOut => str "timed out" | UnexpectedEof => str "failed to fill whole buffer" end.

Lemma frames_delivered_witness :
  received demo_message (wire demo_sent) = (demo_frames, Err (CodecError (str "failed to fill whole buffer"))).
Proof.
  apply (frames_delivered demo_message demo_frames demo_sent).
  - repeat apply Forall_cons_2; try apply Forall_nil_2; by repeat split.
  - repeat apply Forall2_cons_2; by try apply Forall2_nil_2.
Defined.


(** A header that is refused, and a header with nothing behind it. *)
Definition demo_oversize : Stream := (Arrive <$> [0xFF; 0; 0; 0]) ++ (Arrive <$> [0x52; 1; 2; 3]).

Lemma read_frame_bounded_witness :
  Forall event_ok demo_oversize /\
  read_frame demo_message demo_oversize = (Err (CodecError (str "bad frame length 4278190080")), Arrive <$> [0x52; 1; 2; 3]).
Proof.
  assert (H : Forall event_ok demo_oversize) by (repeat apply Forall_cons_2; try apply Forall_nil_2; by repeat split).
  split; [exact H|]. by apply (proj2 (read_frame_bounded demo_message demo_oversize H) [0xFF; 0; 0; 0] _ eq_refl eq_refl); right.
Defined.

(** A timeout inside a header: [read_exact] has taken the first bytes and
    [read_frame] reports that no frame arrived, so the next call reads the rest
    of the header as the beginning of one. *)
Lemma timeout_loses_header (io_message : IoError -> bytes) (k : nat) (b : bytes) (s : Stream) : (k < 4)%nat -> (k <= length b)%nat ->
  read_frame io_message ((Arrive <$> take k b) ++ TimesOut :: s) = (Ok None, s).
Proof.
  intros Hk Hb. unfold read_frame. replace (recv_exact 4 _) with (GotError TimedOut, s); [done|].
  destruct k as [|[|[|[|k]]]]; [..|lia]; destruct b as [|? [|? [|? ?]]]; cbn in Hb; try lia; reflexivity.
Qed.

(** One heartbeat acknowledgement, delayed inside its header, breaks the stream. *)
Lemma timeout_desynchronises :
  exists b, write_frame HeartbeatAck = Ok b /\
    received demo_message (wire [(0%nat, b); (0%nat, b)]) = ([HeartbeatAck; HeartbeatAck], Err (CodecError (str "failed to fill whole buffer"))) /\
    received demo_message ((Arrive <$> take 1 b) ++ TimesOut :: (Arrive <$> drop 1 b) ++ wire [(0%nat, b)]) =
      ([], Err (CodecError (str "failed to fill whole buffer"))).
Proof. exists [0; 0; 0; 2; 0x52; 6]. by vm_compute. Qed.
