(* ===== verification/Backup.v ===== *)
(** Backup archives (crates/engine/src/backup.rs): the HDBB image of a database
    that [BACKUP] writes and a primary sends to a replica as its snapshot.

    The sections behind the header are big-endian and length-prefixed, and a
    checksum over all of them ends the image.  The writer and the reader keep
    that checksum as they go; here it is computed over the section bytes. *)
From stdpp Require Import base list strings.
From Stdlib Require Import ZArith Lia.
From S2P Require Import Prelude Machine Types TableDef WalCodec Catalog.

Definition BACKUP_MAGIC : bytes := str "HDBB".
Definition BACKUP_VERSION : Z := 1.
Definition HEADER_LEN : Z := 20.

Definition MAX_DBS : Z := 10000.
Definition MAX_TABLES : Z := 100000.
Definition MAX_NAME_LEN : Z := 1024.
Definition MAX_AUTH_LEN : Z := 1024 * 1024.
Definition MAX_DEF_LEN : Z := 16 * 1024 * 1024.
Definition MAX_KEY_LEN : Z := 1024 * 1024.
Definition MAX_VAL_LEN : Z := 64 * 1024 * 1024.
Definition MAX_PAGES_LEN : Z := 2 ^ 32.

Abbreviation Rows_ := (list (bytes * bytes)).

(** A decoded image. *)
Record DecodedBackup := mkDecoded {
  databases : list bytes;
  tables : list (TableDef * Rows_);
  pages : bytes;
  auth : bytes;
}.

Definition total_rows (ts : list (TableDef * Rows_)) : Z := fold_right (fun t n => Zlen t.2 + n) 0 ts.

(** * Writing *)

(** [w.put_u32(b.len() as u32)?; w.put(b)?] *)
Definition put_be (b : bytes) : bytes := to_be 4 (Zlen b) ++ b.

(** [if n > cap { return Err(..) }] *)
Definition at_most (n cap : Z) (msg : string) : res () := if cap <? n then Err (Corrupted (str msg)) else Ok ().

Definition dump_row (kv : bytes * bytes) : res bytes :=
  if (MAX_KEY_LEN <? Zlen kv.1) || (MAX_VAL_LEN <? Zlen kv.2) then Err (Corrupted (str "backup row too large"))
  else Ok (put_be kv.1 ++ put_be kv.2).

Definition dump_table (t : TableDef * Rows_) : res bytes :=
  let def_buf := encode_table_def t.1 in
  _ ← at_most (Zlen def_buf) MAX_DEF_LEN "table def too large";
  _ ← at_most (Zlen t.2) MAX_VAL_LEN "too many rows";
  rows ← write_list dump_row t.2;
  mret (put_be def_buf ++ to_be 8 (Zlen t.2) ++ rows).

(** The sections the payload checksum covers. *)
Definition dump_sections (b : DecodedBackup) : res bytes :=
  _ ← at_most (Zlen (auth b)) MAX_AUTH_LEN "auth.bin too large for backup";
  _ ← at_most (Zlen (databases b)) MAX_DBS "too many databases";
  _ ← at_most (Zlen (tables b)) MAX_TABLES "too many tables";
  ts ← write_list dump_table (tables b);
  _ ← at_most (Zlen (pages b)) MAX_PAGES_LEN "pages file too large";
  mret (put_be (auth b) ++
        to_be 4 (Zlen (databases b)) ++ mjoin (put_be <$> databases b) ++
        to_be 4 (Zlen (tables b)) ++ ts ++
        to_be 8 (Zlen (pages b)) ++ pages b ++
        to_be 4 (Zlen (tables b)) ++ to_be 8 (total_rows (tables b))).

(** Version and timestamp, which the header checksum covers. *)
Definition header_fields (ts : Z) : bytes := to_be 4 BACKUP_VERSION ++ to_be 8 ts.

(** [dump_stream] at the time [ts]: the databases and tables it is handed and
    the contents of auth.bin and pages.bin. *)
Definition dump_stream (ts : Z) (b : DecodedBackup) : res bytes :=
  payload ← dump_sections b;
  mret (BACKUP_MAGIC ++ header_fields ts ++ to_be 4 (crc32 (header_fields ts)) ++ payload ++ to_be 4 (crc32 payload)).

(** * Reading *)

Definition backup_truncated : Error := Corrupted (str "backup: truncated").

(** [take_raw]: outside the checksum. *)
Definition take_raw (n : Z) : Dec bytes := get_slice backup_truncated n.

(** [CrcReader::take] and the fields read through it. *)
Definition bk_take (n : Z) : Dec bytes := check_le n MAX_PAGES_LEN "backup: length too large";; get_slice backup_truncated n.
Definition bk_u32 : Dec Z := b ← bk_take 4; mret (of_be b).
Definition bk_u64 : Dec Z := b ← bk_take 8; mret (of_be b).

Definition bk_capped (cap : Z) (msg : string) : Dec bytes := len ← bk_u32; check_le len cap msg;; bk_take len.

Definition bk_name : Dec bytes :=
  b ← bk_capped MAX_NAME_LEN "backup: name too long"; dec_lift (from_utf8 (Corrupted (str "backup: bad utf8")) b).

Definition whole_def (def_buf : bytes) : res TableDef :=
  '(def, off) ← decode_table_def false def_buf 0;
  if off =? Zlen def_buf then Ok def else Err (Corrupted (str "backup table def trailing bytes")).

Definition bk_row : Dec (bytes * bytes) :=
  key ← bk_capped MAX_KEY_LEN "backup key too large";
  val ← bk_capped MAX_VAL_LEN "backup value too large";
  mret (key, val).

(** One table; those before it are [seen]. *)
Definition bk_table (seen : list (TableDef * Rows_)) : Dec (TableDef * Rows_) :=
  def_buf ← bk_capped MAX_DEF_LEN "backup table def too large";
  def ← dec_lift (whole_def def_buf);
  if existsb (fun t : TableDef * Rows_ => bool_decide (td_name t.1 = td_name def)) seen
  then dec_fail (Corrupted (str "duplicate table in backup"))
  else
    nrows ← bk_u64;
    check_le nrows MAX_VAL_LEN "backup row count too large";;
    rows ← dec_list (Z.to_nat nrows) bk_row;
    mret (def, rows).

Fixpoint bk_tables (n : nat) (seen : list (TableDef * Rows_)) : Dec (list (TableDef * Rows_)) :=
  match n with
  | O => mret seen
  | S n => t ← bk_table seen; bk_tables n (seen ++ [t])
  end.

Definition bk_sections : Dec DecodedBackup :=
  auth ← bk_capped MAX_AUTH_LEN "backup auth too large";
  ndbs ← bk_u32;
  check_le ndbs MAX_DBS "backup db count too large";;
  databases ← dec_list (Z.to_nat ndbs) bk_name;
  ntables ← bk_u32;
  check_le ntables MAX_TABLES "backup table count too large";;
  tables ← bk_tables (Z.to_nat ntables) [];
  pages_len ← bk_u64;
  check_le pages_len MAX_PAGES_LEN "backup pages too large";;
  pages ← bk_take pages_len;
  foot_tables ← bk_u32;
  foot_rows ← bk_u64;
  if negb (foot_tables =? Zlen tables) || negb (foot_rows =? total_rows tables)
  then dec_fail (Corrupted (str "backup footer count mismatch"))
  else mret (mkDecoded databases tables pages auth).

(** Magic, version, timestamp and their checksum. *)
Definition bk_header : Dec () :=
  magic ← take_raw 4;
  if negb (bool_decide (magic = BACKUP_MAGIC)) then dec_fail (Corrupted (str "bad backup magic"))
  else
    version ← take_raw 4;
    if negb (of_be version =? BACKUP_VERSION) then dec_fail (Corrupted (str "backup version " ++ show_Z (of_be version)))
    else
      ts ← take_raw 8;
      hcrc ← take_raw 4;
      if negb (crc32 (version ++ ts) =? of_be hcrc) then dec_fail (Corrupted (str "backup header CRC mismatch"))
      else mret ().

(** The archive and how many bytes of the image it took. *)
Definition decode_archive (image : bytes) : res (DecodedBackup * Z) :=
  '(_, start) ← bk_header image 0;
  '(b, stop) ← bk_sections image start;
  '(got, count) ← take_raw 4 image stop;
  if negb (of_be got =? crc32 (take (Z.to_nat (stop - start)) (drop (Z.to_nat start) image)))
  then Err (Corrupted (str "backup payload CRC mismatch"))
  else Ok (b, count).

(** * Round trip *)

Definition backup_wf (b : DecodedBackup) : Prop :=
  Forall (fun d => utf8_valid d = true /\ Zlen d <= MAX_NAME_LEN) (databases b) /\
  Forall (fun t : TableDef * Rows_ => table_def_wf t.1) (tables b) /\
  NoDup ((fun t : TableDef * Rows_ => td_name t.1) <$> tables b).

(** What comes back: definitions as the type tag keeps them. *)
Definition reread_rows (t : TableDef * Rows_) : TableDef * Rows_ := (reread_def t.1, t.2).
Definition reread_backup (b : DecodedBackup) : DecodedBackup :=
  mkDecoded (databases b) (reread_rows <$> tables b) (pages b) (auth b).

Lemma decodes_bk_take n b : Zlen b = n -> n <= MAX_PAGES_LEN -> decodes (bk_take n) b b.
Proof. intros Hb Hn. apply decodes_check; [done|]. by apply decodes_get_slice. Qed.

Lemma decodes_be w z : (w = 4 \/ w = 8)%nat -> in_u (8 * Z.of_nat w) z ->
  decodes (b ← bk_take (Z.of_nat w); mret (of_be b)) (to_be w z) z.
Proof.
  intros Hw Hz. rewrite <- (of_be_to_be_u w z Hz) at 2. apply (decodes_bind_ret _ of_be).
  apply decodes_bk_take; [by rewrite length_to_be|destruct Hw as [-> | ->]; done].
Qed.

Lemma decodes_bk_u32 z : u32 z -> decodes bk_u32 (to_be 4 z) z.
Proof. intros. by apply (decodes_be 4); [left|]. Qed.

Lemma decodes_bk_u64 z : u64 z -> decodes bk_u64 (to_be 8 z) z.
Proof. intros. by apply (decodes_be 8); [right|]. Qed.

Lemma decodes_bk_capped cap msg b : Zlen b <= cap -> cap < 2 ^ 32 -> decodes (bk_capped cap msg) (put_be b) b.
Proof.
  intros Hb Hc. eapply decodes_bind; [apply decodes_bk_u32; widths; lia|]. apply decodes_check; [done|].
  apply decodes_bk_take; [done|]. unfold MAX_PAGES_LEN. lia.
Qed.

Lemma decodes_bk_name s : utf8_valid s = true /\ Zlen s <= MAX_NAME_LEN -> decodes bk_name (put_be s) s.
Proof.
  intros [Hu Hs]. rewrite <- (app_nil_r (put_be s)).
  eapply decodes_bind; [by apply decodes_bk_capped|by apply decodes_from_utf8].
Qed.

Lemma at_most_Ok n cap msg : at_most n cap msg = Ok () <-> n <= cap.
Proof. unfold at_most. destruct (Z.ltb_spec cap n); split; (done || lia). Qed.

(** A guarded encoder that succeeded. *)
Lemma at_most_bind {B} n cap msg (k : () -> res B) b : (at_most n cap msg ≫= k) = Ok b -> n <= cap /\ k () = Ok b.
Proof. unfold at_most. destruct (Z.ltb_spec cap n); [done|]. done. Qed.

Lemma decodes_dump_row kv b : dump_row kv = Ok b -> decodes bk_row b kv.
Proof.
  unfold dump_row. destruct (_ || _) eqn:E; [done|]. bsimp. intros Hb. apply Ok_eq in Hb as <-.
  eapply decodes_bind; [by apply decodes_bk_capped|]. destruct kv as [k v]. apply (decodes_bind_ret _ (pair k)).
  by apply decodes_bk_capped.
Qed.

Lemma whole_def_ok d : table_def_wf d -> whole_def (encode_table_def d) = Ok (reread_def d).
Proof.
  intros Hd. pose proof (decodes_table_def d Hd [] []) as Ht. rewrite app_nil_r, app_nil_l in Ht.
  change (Zlen []) with 0 in Ht. unfold whole_def. rewrite Ht. cbn [mbind res_bind]. by rewrite Z.add_0_l, Z.eqb_refl.
Qed.

Lemma decodes_dump_table seen t b :
  table_def_wf t.1 -> td_name t.1 ∉ (fun t : TableDef * Rows_ => td_name t.1) <$> seen -> dump_table t = Ok b ->
  decodes (bk_table (reread_rows <$> seen)) b (reread_rows t).
Proof.
  intros Hd Hn E. unfold dump_table in E. cbv zeta in E. apply at_most_bind in E as [Hl E]. apply at_most_bind in E as [Hr E].
  destruct (write_list dump_row t.2) as [rs| |] eqn:Er; try done. cbn [mbind res_bind] in E. apply Ok_eq in E as <-.
  eapply decodes_bind; [by apply decodes_bk_capped|]. cbn beta. rewrite whole_def_ok by done.
  rewrite <- (app_nil_l (to_be 8 _ ++ rs)). eapply decodes_bind; [apply decodes_lift|].
  assert (Hs : existsb (fun t0 : TableDef * Rows_ => bool_decide (td_name t0.1 = td_name (reread_def t.1))) (reread_rows <$> seen) = false).
  { apply not_true_iff_false. intros Hx. apply existsb_exists in Hx as (x & Hx & Hb). apply bool_decide_eq_true in Hb.
    apply list_elem_of_In, list_elem_of_fmap in Hx as (y & -> & Hy). apply Hn, list_elem_of_fmap. exists y. split; [|done].
    by symmetry. }
  rewrite Hs. eapply decodes_bind; [apply decodes_bk_u64; unfold MAX_VAL_LEN in Hr; widths; lia|].
  apply decodes_check; [done|]. rewrite Nat2Z.id. apply (decodes_bind_ret _ (pair (reread_def t.1))).
  assert (Hrows : decodes (dec_list (length t.2) bk_row) rs (id <$> t.2)).
  { eapply decodes_written; [|exact Er]. apply Forall_forall. intros kv _ b Hb. by apply decodes_dump_row. }
  by rewrite list_fmap_id in Hrows.
Qed.

Lemma decodes_dump_tables ts : forall seen b,
  Forall (fun t : TableDef * Rows_ => table_def_wf t.1) ts ->
  NoDup ((fun t : TableDef * Rows_ => td_name t.1) <$> seen ++ ts) -> write_list dump_table ts = Ok b ->
  decodes (bk_tables (length ts) (reread_rows <$> seen)) b (reread_rows <$> seen ++ ts).
Proof.
  induction ts as [|t ts IH]; intros seen b Hd Hn E; cbn [write_list] in E.
  - apply Ok_eq in E as <-. rewrite app_nil_r. apply decodes_ret.
  - apply Forall_cons in Hd as [Ht Hts]. destruct (dump_table t) as [b1| |] eqn:E1; try done. cbn [mbind res_bind] in E.
    destruct (write_list dump_table ts) as [b2| |] eqn:E2; try done. cbn [mbind res_bind] in E. apply Ok_eq in E as <-.
    eapply decodes_bind.
    + apply (decodes_dump_table seen t); [done| |done]. rewrite fmap_app in Hn. apply NoDup_app in Hn as (_ & Hn & _).
      intros Hx. apply (Hn _ Hx). apply list_elem_of_fmap. exists t. split; [done|by left].
    + cbn beta. specialize (IH (seen ++ [t]) b2 Hts). rewrite <- app_assoc in IH. cbn [app] in IH.
      change ([reread_rows t]) with (reread_rows <$> [t]). rewrite <- fmap_app. by apply IH.
Qed.

Lemma total_rows_reread ts : total_rows (reread_rows <$> ts) = total_rows ts.
Proof. unfold total_rows. induction ts as [|t ts IH]; [done|]. cbn. by rewrite IH. Qed.

Lemma total_rows_bound ts b : write_list dump_table ts = Ok b -> 0 <= total_rows ts <= Zlen ts * MAX_VAL_LEN.
Proof.
  revert b. induction ts as [|t ts IH]; intros b E; cbn [write_list total_rows fold_right] in *; [cbn; lia|].
  destruct (dump_table t) as [b1| |] eqn:E1; try done. cbn [mbind res_bind] in E.
  destruct (write_list dump_table ts) as [b2| |]; try done. specialize (IH b2 eq_refl).
  unfold dump_table in E1. cbv zeta in E1. apply at_most_bind in E1 as [_ E1]. apply at_most_bind in E1 as [Hr _].
  unfold total_rows in IH. rewrite Zlen_cons. unfold MAX_VAL_LEN in *. lia.
Qed.

Lemma decodes_sections b payload : backup_wf b -> dump_sections b = Ok payload -> decodes bk_sections payload (reread_backup b).
Proof.
  intros (Hdb & Hts & Hn) E. unfold dump_sections in E.
  apply at_most_bind in E as [Ha E]. apply at_most_bind in E as [Hd E]. apply at_most_bind in E as [Ht E].
  destruct (write_list dump_table (tables b)) as [ts| |] eqn:Ew; try done. cbn [mbind res_bind] in E.
  apply at_most_bind in E as [Hp E]. apply Ok_eq in E as <-. pose proof (total_rows_bound _ _ Ew) as Htr.
  unfold MAX_DBS, MAX_TABLES, MAX_VAL_LEN, MAX_PAGES_LEN in *.
  eapply decodes_bind; [by apply decodes_bk_capped|].
  eapply decodes_bind; [apply decodes_bk_u32; widths; lia|]. apply decodes_check; [done|]. rewrite Nat2Z.id.
  eapply decodes_bind.
  { pose proof (decodes_list put_be id bk_name (databases b)) as Hl. rewrite list_fmap_id in Hl. apply Hl.
    intros s Hs. rewrite Forall_forall in Hdb. by apply decodes_bk_name, Hdb. }
  eapply decodes_bind; [apply decodes_bk_u32; widths; lia|]. apply decodes_check; [done|]. rewrite Nat2Z.id.
  eapply decodes_bind; [by apply (decodes_dump_tables (tables b) [])|]. cbn [app].
  eapply decodes_bind; [apply decodes_bk_u64; widths; lia|]. apply decodes_check; [done|].
  eapply decodes_bind; [by apply decodes_bk_take|].
  eapply decodes_bind; [apply decodes_bk_u32; widths; lia|].
  rewrite <- (app_nil_r (to_be 8 _)).
  eapply decodes_bind; [apply decodes_bk_u64; widths; lia|]. cbn beta.
  rewrite length_fmap, total_rows_reread, !Z.eqb_refl. apply decodes_ret.
Qed.

(** * Damaged images *)

(** One byte was changed. *)
Definition differs (l l' : bytes) : Prop :=
  exists p x y q, l = p ++ x :: q /\ l' = p ++ y :: q /\ u8 x /\ u8 y /\ x <> y.

Lemma differs_app a a' b b' : length a = length a' -> differs (a ++ b) (a' ++ b') -> differs a a' /\ b = b' \/ a = a' /\ differs b b'.
Proof.
  intros Hl (p & x & y & q & E & E' & Hx & Hy & Hne). destruct (Nat.le_gt_cases (length a) (length p)) as [Hp|Hp].
  - right. assert (Ha : a = take (length a) p).
    { apply (f_equal (take (length a))) in E. rewrite take_app_length, take_app_le in E by lia. done. }
    assert (Ha' : a' = take (length a) p).
    { apply (f_equal (take (length a'))) in E'. rewrite take_app_length, take_app_le in E' by lia. by rewrite Hl. }
    split; [congruence|]. exists (drop (length a) p), x, y, q.
    apply (f_equal (drop (length a))) in E. rewrite drop_app_length, drop_app_le in E by lia.
    apply (f_equal (drop (length a'))) in E'. rewrite drop_app_length, drop_app_le in E' by lia. rewrite <- Hl in E'. done.
  - left. assert (Ha : a = p ++ x :: take (length a - S (length p)) q).
    { apply (f_equal (take (length a))) in E. rewrite take_app_length, take_app_ge in E by lia.
      replace (length a - length p)%nat with (S (length a - S (length p))) in E by lia. done. }
    assert (Ha' : a' = p ++ y :: take (length a - S (length p)) q).
    { apply (f_equal (take (length a'))) in E'. rewrite take_app_length, take_app_ge in E' by lia.
      replace (length a' - length p)%nat with (S (length a - S (length p))) in E' by lia. done. }
    split; [by exists p, x, y, (take (length a - S (length p)) q)|].
    apply (f_equal (drop (length a))) in E. rewrite drop_app_length, drop_app_ge in E by lia.
    apply (f_equal (drop (length a'))) in E'. rewrite drop_app_length, drop_app_ge in E' by lia.
    replace (length a - length p)%nat with (S (length a - S (length p))) in E by lia.
    replace (length a' - length p)%nat with (S (length a - S (length p))) in E' by lia. cbn in E, E'. congruence.
Qed.

Lemma differs_refl l : differs l l -> False.
Proof. intros (p & x & y & q & -> & E & _ & _ & Hne). apply app_inv_head in E. congruence. Qed.

Lemma differs_crc a a' : differs a a' -> crc32 a <> crc32 a'.
Proof. intros (p & x & y & q & -> & -> & Hx & Hy & Hne). by apply crc32_detects_byte_change. Qed.

Lemma differs_be a a' : differs a a' -> of_be a <> of_be a'.
Proof.
  intros (p & x & y & q & -> & -> & _ & _ & Hne) E. unfold of_be in E. rewrite !rev_app_distr in E. cbn [rev] in E.
  rewrite <- !app_assoc, !of_le_app in E. change (Zlen [x]) with 1 in E. change (Zlen [y]) with 1 in E. rewrite !Z.pow_1_r in E.
  change (of_le [x]) with (x + 256 * 0) in E. change (of_le [y]) with (y + 256 * 0) in E.
  assert (0 < 256 ^ Zlen (rev q)) by (apply Z.pow_pos_nonneg; lia).
  apply Z.add_reg_l in E. apply Z.mul_reg_l in E; lia.
Qed.

(** An image that is accepted to its last byte. *)
Record image_of (image header hcrc payload crc : bytes) : Prop := {
  im_bytes : image = BACKUP_MAGIC ++ header ++ hcrc ++ payload ++ crc;
  im_header : length header = 12%nat;
  im_hcrc : length hcrc = 4%nat;
  im_crc : length crc = 4%nat;
  im_header_crc : crc32 header = of_be hcrc;
  im_payload_crc : crc32 payload = of_be crc;
}.

(** The slices a decoder read are what lies between its offsets. *)
Lemma take_raw_Ok n image off b off' : 0 <= n -> 0 <= off -> take_raw n image off = Ok (b, off') ->
  off' = off + n /\ off' <= Zlen image /\ drop (Z.to_nat off) image = b ++ drop (Z.to_nat off') image /\ Zlen b = n.
Proof.
  intros Hn Ho E. unfold take_raw, get_slice in E. destruct (Z.ltb_spec (Zlen image) (off + n)); [done|]. injection E as <- <-.
  split_and!; [done|lia| |rewrite length_take, length_drop; lia].
  rewrite <- (take_drop (Z.to_nat n) (drop (Z.to_nat off) image)) at 1. f_equal. rewrite drop_drop. f_equal. lia.
Qed.

Lemma bk_header_Ok image off : bk_header image 0 = Ok ((), off) -> exists header hcrc,
  off = 20 /\ 20 <= Zlen image /\ image = BACKUP_MAGIC ++ header ++ hcrc ++ drop 20 image /\
  length header = 12%nat /\ length hcrc = 4%nat /\ crc32 header = of_be hcrc.
Proof.
  intros E. unfold bk_header, mbind, dec_bind in E.
  destruct (take_raw 4 image 0) as [[magic o1]| |] eqn:E1; try done. apply take_raw_Ok in E1 as (-> & _ & D1 & _); [|done..].
  destruct (negb _) eqn:Em; [done|]. apply negb_false_iff, bool_decide_eq_true in Em as ->.
  destruct (take_raw 4 image (0 + 4)) as [[version o2]| |] eqn:E2; try done. apply take_raw_Ok in E2 as (-> & _ & D2 & L2); [|done..].
  destruct (negb _); [done|].
  destruct (take_raw 8 image _) as [[ts o3]| |] eqn:E3; try done. apply take_raw_Ok in E3 as (-> & _ & D3 & L3); [|done..].
  destruct (take_raw 4 image _) as [[hcrc o4]| |] eqn:E4; try done. apply take_raw_Ok in E4 as (-> & L & D4 & L4); [|done..].
  destruct (negb _) eqn:Ec; [done|]. bsimp. injection E as <-. exists (version ++ ts), hcrc.
  change (Z.to_nat (0 + 4)) with 4%nat in *. change (Z.to_nat (0 + 4 + 4)) with 8%nat in *.
  change (Z.to_nat (0 + 4 + 4 + 8)) with 16%nat in *. change (Z.to_nat (0 + 4 + 4 + 8 + 4)) with 20%nat in *.
  change (drop (Z.to_nat 0) image) with image in D1. split_and!; [done|lia| |rewrite length_app; lia|lia|done].
  rewrite D1 at 1. rewrite D2, D3, D4, <- !app_assoc. done.
Qed.

Lemma be_nonneg b : Forall u8 b -> 0 <= of_be b.
Proof. intros H. by apply of_be_bound. Qed.

Lemma strict_bk_take n : 0 <= n -> strict (Forall u8) (bk_take n).
Proof. intros Hn. eapply strict_bind; [apply strict_check|]. intros _ _. by apply strict_slice. Qed.

Lemma strict_bk_n n : 0 <= n -> strict (fun z => 0 <= z) (b ← bk_take n; mret (of_be b)).
Proof. intros Hn. eapply strict_bind; [by apply strict_bk_take|]. intros a Ha. by apply strict_ret, be_nonneg. Qed.

Lemma strict_bk_capped cap msg : strict (Forall u8) (bk_capped cap msg).
Proof.
  eapply strict_bind; [by apply strict_bk_n|]. intros n Hn. eapply strict_bind; [apply strict_check|].
  intros _ _. by apply strict_bk_take.
Qed.

Lemma strict_bk_name : strict whatever bk_name.
Proof. eapply strict_bind; [apply strict_bk_capped|]. intros b _. apply strict_lift, from_utf8_total. Qed.

Lemma whole_def_total b : whole_def b <> Panic.
Proof.
  unfold whole_def. pose proof (safe_table_def false b 0). destruct (decode_table_def false b 0) as [[d o]| |]; try done.
  cbn [mbind res_bind]. by destruct (_ =? _).
Qed.

Lemma strict_bk_table seen : strict whatever (bk_table seen).
Proof.
  eapply strict_bind; [apply strict_bk_capped|]. intros b _. eapply strict_bind; [apply strict_lift, whole_def_total|]. intros d _.
  destruct (existsb _ _); [apply strict_fail|]. eapply strict_bind; [by apply strict_bk_n|]. intros n Hn.
  eapply strict_bind; [apply strict_check|]. intros _ _. eapply strict_bind.
  - apply strict_list. eapply strict_bind; [apply strict_bk_capped|]. intros k _. eapply strict_bind; [apply strict_bk_capped|].
    intros v _. by apply strict_ret.
  - intros rows _. by apply strict_ret.
Qed.

Lemma strict_bk_tables n : forall seen, strict whatever (bk_tables n seen).
Proof.
  induction n as [|n IH]; intros seen; [by apply strict_ret|]. eapply strict_bind; [apply strict_bk_table|]. intros t _. apply IH.
Qed.

Lemma strict_sections : strict whatever bk_sections.
Proof.
  eapply strict_bind; [apply strict_bk_capped|]. intros a _. eapply strict_bind; [by apply strict_bk_n|]. intros n _.
  eapply strict_bind; [apply strict_check|]. intros _ _. eapply strict_bind; [apply strict_list, strict_bk_name|]. intros dbs _.
  eapply strict_bind; [by apply strict_bk_n|]. intros nt _. eapply strict_bind; [apply strict_check|]. intros _ _.
  eapply strict_bind; [apply strict_bk_tables|]. intros ts _. eapply strict_bind; [by apply strict_bk_n|]. intros np Hnp.
  eapply strict_bind; [apply strict_check|]. intros _ _. eapply strict_bind; [by apply strict_bk_take|]. intros pg _.
  eapply strict_bind; [by apply strict_bk_n|]. intros ft _. eapply strict_bind; [by apply strict_bk_n|]. intros fr _.
  destruct (_ || _); [apply strict_fail|by apply strict_ret].
Qed.

Lemma strict_header : strict whatever bk_header.
Proof.
  eapply strict_bind; [by apply strict_slice|]. intros m _. destruct (negb _); [apply strict_fail|].
  eapply strict_bind; [by apply strict_slice|]. intros v _. destruct (negb _); [apply strict_fail|].
  eapply strict_bind; [by apply strict_slice|]. intros ts _. eapply strict_bind; [by apply strict_slice|]. intros c _.
  destruct (negb _); [apply strict_fail|by apply strict_ret].
Qed.

Lemma decode_archive_inv image b n : decode_archive image = Ok (b, n) -> exists stop got,
  bk_header image 0 = Ok ((), 20) /\ bk_sections image 20 = Ok (b, stop) /\ take_raw 4 image stop = Ok (got, n) /\
  of_be got = crc32 (take (Z.to_nat (stop - 20)) (drop 20 image)).
Proof.
  unfold decode_archive. intros E. destruct (bk_header image 0) as [[[] start]| |] eqn:Eh; try done.
  destruct (bk_header_Ok _ _ Eh) as (_ & _ & -> & _). cbn [mbind res_bind] in E.
  destruct (bk_sections image 20) as [[b' stop]| |] eqn:Es; try done. cbn [mbind res_bind] in E.
  destruct (take_raw 4 image stop) as [[got count]| |] eqn:Eg; try done. cbn [mbind res_bind] in E.
  destruct (negb _) eqn:Ec; [done|]. bsimp. apply Ok_eq in E as [= -> ->]. eauto 10.
Qed.

Lemma decode_archive_image image b : Forall u8 image -> decode_archive image = Ok (b, Zlen image) ->
  exists header hcrc payload crc, image_of image header hcrc payload crc.
Proof.
  intros Hu E. destruct (decode_archive_inv _ _ _ E) as (stop & got & Eh & Es & Eg & Ec).
  destruct (bk_header_Ok _ _ Eh) as (header & hcrc & _ & L20 & Ei & Lh & Lc & Ehc).
  destruct (st_read _ _ strict_sections _ 20 _ _ Hu ltac:(done) Es) as [Hs _].
  destruct (take_raw_Ok 4 image stop got _ ltac:(done) ltac:(lia) Eg) as (Hn & _ & Dg & Lg).
  assert (Hend : drop (Z.to_nat (Zlen image)) image = []) by (apply drop_ge; lia).
  rewrite Hend, app_nil_r in Dg.
  exists header, hcrc, (take (Z.to_nat (stop - 20)) (drop 20 image)), got. split; [|lia|lia|lia|done|done].
  rewrite Ei at 1. rewrite <- (take_drop (Z.to_nat (stop - 20)) (drop 20 image)) at 1. rewrite drop_drop.
  replace (20 + Z.to_nat (stop - 20))%nat with (Z.to_nat stop) by lia. by rewrite Dg.
Qed.

(** Two whole images cannot differ in one byte. *)
Lemma images_differ i i' h h' c c' p p' f f' :
  image_of i h c p f -> image_of i' h' c' p' f' -> differs i i' -> False.
Proof.
  intros [-> Lh Lc Lf Eh Ep] [-> Lh' Lc' Lf' Eh' Ep'] Hd.
  assert (Hlen : length p = length p').
  { destruct Hd as (a & x & y & q & E & E' & _). apply (f_equal length) in E, E'. rewrite !length_app in E, E'. cbn in E, E'. lia. }
  apply differs_app in Hd as [[Hd _]|[_ Hd]]; [by apply differs_refl in Hd| |done].
  apply differs_app in Hd as [[Hd E]|[-> Hd]]; [| |by rewrite Lh, Lh'].
  { apply (differs_crc _ _ Hd). rewrite Eh, Eh'. f_equal. by apply app_inj_1 in E as [-> _]; [|rewrite Lc, Lc']. }
  apply differs_app in Hd as [[Hd _]|[-> Hd]]; [| |by rewrite Lc, Lc'].
  { apply (differs_be _ _ Hd). by rewrite <- Eh, <- Eh'. }
  apply differs_app in Hd as [[Hd ->]|[-> Hd]]; [| |done].
  - apply (differs_crc _ _ Hd). by rewrite Ep, Ep'.
  - apply (differs_be _ _ Hd). by rewrite <- Ep, <- Ep'.
Qed.

(** * Theorems *)

Definition demo_backup : DecodedBackup :=
  mkDecoded [str "default"; str "shop"] [(Catalog.demo_def, [([9], encode (Int 1) ++ encode Null); ([10], [])])] [7; 7; 7] (str "auth").

Definition demo_image : bytes := Eval vm_compute in default [] (match dump_stream 1700000000 demo_backup with Ok i => Some i | _ => None end).

(** An archive that could be written reads back: the databases, the table
    definitions (as their type tags keep them), the stored rows, the page file
    and the accounts, and the reader has consumed the whole image. *)
Theorem archive_roundtrip (ts : Z) (b : DecodedBackup) (image : bytes) :
  backup_wf b -> dump_stream ts b = Ok image -> decode_archive image = Ok (reread_backup b, Zlen image).
Proof.
  intros Hb E. unfold dump_stream in E. destruct (dump_sections b) as [payload| |] eqn:Es; try done. cbn [mbind res_bind] in E.
  apply Ok_eq in E as <-. set (h := header_fields ts). set (hc := to_be 4 (crc32 h)). set (pc := to_be 4 (crc32 payload)).
  assert (Hc : forall x, u32 (crc32 x)) by (intros; apply crc32_u32).
  assert (Eh : decodes bk_header (BACKUP_MAGIC ++ h ++ hc) ()).
  { unfold bk_header, h, header_fields. eapply decodes_bind; [by apply decodes_get_slice|].
    rewrite bool_decide_eq_true_2 by done. cbn [negb]. rewrite <- app_assoc.
    eapply decodes_bind; [by apply decodes_get_slice|]. rewrite (of_be_to_be_u 4) by done. cbn [Z.eqb Pos.eqb BACKUP_VERSION negb].
    eapply decodes_bind; [apply decodes_get_slice; by rewrite length_to_be|]. rewrite <- (app_nil_r hc).
    eapply decodes_bind; [apply decodes_get_slice; by unfold hc; rewrite length_to_be|]. unfold hc, h.
    rewrite (of_be_to_be_u 4) by apply Hc. rewrite Z.eqb_refl. apply decodes_ret. }
  unfold decode_archive. pose proof (Eh [] (payload ++ pc)) as E1. cbn [app] in E1. rewrite <- !app_assoc in E1.
  change (Zlen []) with 0 in E1. rewrite E1. cbn [mbind res_bind]. rewrite Z.add_0_l.
  pose proof (decodes_sections b payload Hb Es (BACKUP_MAGIC ++ h ++ hc) pc) as E2. rewrite <- !app_assoc in E2.
  rewrite E2. cbn [mbind res_bind].
  assert (E3 : decodes (take_raw 4) pc pc) by (apply decodes_get_slice; by unfold pc; rewrite length_to_be).
  specialize (E3 (BACKUP_MAGIC ++ h ++ hc ++ payload) []). rewrite app_nil_r, <- !app_assoc in E3.
  replace (Zlen (BACKUP_MAGIC ++ h ++ hc) + Zlen payload) with (Zlen (BACKUP_MAGIC ++ h ++ hc ++ payload)) by (rewrite !length_app; lia).
  rewrite E3. cbn [mbind res_bind]. unfold pc at 1. rewrite (of_be_to_be_u 4) by apply Hc.
  replace (Z.to_nat (Zlen (BACKUP_MAGIC ++ h ++ hc ++ payload) - Zlen (BACKUP_MAGIC ++ h ++ hc))) with (length payload) by (rewrite !length_app; lia).
  rewrite Nat2Z.id. replace (BACKUP_MAGIC ++ h ++ hc ++ payload ++ pc) with ((BACKUP_MAGIC ++ h ++ hc) ++ payload ++ pc) by by rewrite <- !app_assoc.
  rewrite drop_app_length, take_app_length, Z.eqb_refl. cbn [negb]. do 2 f_equal. rewrite !length_app. lia.
Qed.

Lemma demo_backup_wf : backup_wf demo_backup.
Proof.
  split; [|split]; [repeat apply Forall_cons_2; try apply Forall_nil_2; by split| |apply (bool_decide_unpack _); by vm_compute].
  repeat first [split | constructor]; cbn; widths; try lia; try done.
Qed.

Lemma archive_roundtrip_witness : decode_archive demo_image = Ok (reread_backup demo_backup, Zlen demo_image).
Proof. apply (archive_roundtrip 1700000000); [exact demo_backup_wf|vm_compute; reflexivity]. Defined.

(** C16: Damage to an archive is detected.  Reading never panics, whatever the
    bytes; and of an archive that is accepted as a whole, every proper prefix is
    refused, and no image that differs from it in one byte is accepted as a
    whole. *)
Theorem archive_damage_detected (image : bytes) : Forall u8 image ->
  decode_archive image <> Panic /\
  forall b, decode_archive image = Ok (b, Zlen image) ->
    (forall part rest, image = part ++ rest -> rest <> [] -> exists e, decode_archive part = Err e) /\
    (forall image', differs image image' -> Forall u8 image' -> forall b', decode_archive image' <> Ok (b', Zlen image')).
Proof.
  intros Hu. split; [|intros b E; split].
  - unfold decode_archive. pose proof (st_total _ _ strict_header image 0 Hu ltac:(done)) as H1.
    destruct (bk_header image 0) as [[[] o]| |] eqn:E1; try done. destruct (bk_header_Ok _ _ E1) as (_ & _ & -> & _).
    cbn [mbind res_bind]. pose proof (st_total _ _ strict_sections image 20 Hu ltac:(done)) as H2.
    destruct (bk_sections image 20) as [[b o]| |]; try done. cbn [mbind res_bind]. unfold take_raw, get_slice.
    destruct (_ <? _); [done|]. cbn [mbind res_bind]. by destruct (negb _).
  - intros part rest -> Hne. destruct (decode_archive_inv _ _ _ E) as (stop & got & Eh & Es & Eg & Ec).
    pose proof (st_cut _ _ strict_header part rest 0 () 20 Hu ltac:(lia) Eh) as H1. unfold decode_archive.
    destruct (Z.leb_spec 20 (Zlen part)); [|destruct H1 as [e ->]; by exists e]. rewrite H1. cbn [mbind res_bind].
    pose proof (st_cut _ _ strict_sections part rest 20 _ _ Hu ltac:(lia) Es) as H2.
    destruct (Z.leb_spec stop (Zlen part)); [|destruct H2 as [e ->]; by exists e]. rewrite H2. cbn [mbind res_bind].
    unfold take_raw, get_slice in *. destruct (Z.ltb_spec (Zlen (part ++ rest)) (stop + 4)); [done|].
    injection Eg as _ Hn. assert (0 < Zlen rest) by (destruct rest; [done|cbn; lia]). rewrite Zlen_app in *.
    destruct (Z.ltb_spec (Zlen part) (stop + 4)); [cbn; eauto|lia].
  - intros image' Hd Hu' b' E'. destruct (decode_archive_image _ _ Hu E) as (h & c & p & f & Hi).
    destruct (decode_archive_image _ _ Hu' E') as (h' & c' & p' & f' & Hi'). by apply (images_differ _ _ _ _ _ _ _ _ _ _ Hi Hi').
Qed.

Lemma demo_image_u8 l : forallb (fun b => (0 <=? b) && (b <? 256)) l = true -> Forall u8 l.
Proof. intros H. apply Forall_forall. intros b Hb. apply list_elem_of_In in Hb. pose proof (proj1 (forallb_forall _ _) H b Hb) as E. cbv beta in E. bsimp. by widths. Qed.

Lemma archive_damage_detected_witness :
  Forall u8 demo_image /\ (forall b, decode_archive (<[30%nat := 1]> demo_image) <> Ok (b, Zlen demo_image)) /\
  exists e, decode_archive (take 100 demo_image) = Err e.
Proof.
  assert (Hu : Forall u8 demo_image) by (apply demo_image_u8; vm_compute; reflexivity).
  assert (Hd : decode_archive demo_image = Ok (reread_backup demo_backup, Zlen demo_image)) by (vm_compute; reflexivity).
  split; [exact Hu|]. destruct (proj2 (archive_damage_detected demo_image Hu) _ Hd) as [Hp Hf]. split.
  - intros b. rewrite <- (length_insert demo_image 30 1). apply (Hf (<[30%nat := 1]> demo_image)); [|apply demo_image_u8; vm_compute; reflexivity].
    exists (take 30 demo_image), (nth 30 demo_image 0), 1, (drop 31 demo_image). vm_compute. repeat split; discriminate.
  - apply (Hp (take 100 demo_image) (drop 100 demo_image)); [by rewrite take_drop|vm_compute; discriminate].
Defined.
