(* ===== verification/Replica.v ===== *)
(** Replication: a replica that follows a primary's log
    (crates/engine/src/db/replica.rs, crates/server/src/replication/replica.rs),
    and what the primary answers (crates/server/src/replication/primary.rs).

    A node is an engine with the files replication uses.  The thread that
    follows the primary keeps its position in the primary's log, the records of
    transactions whose commit it has not seen, and the snapshot it is receiving.
    What arrives on its connection is a [Stream] of [ReplProtocol]. *)
From stdpp Require Import base list gmap strings.
From Stdlib Require Import ZArith Lia.
From S2P Require Import Prelude Machine Types Literal DateTime TableDef WalCodec BTree Kv Mvcc Page Table Catalog Recovery Session Engine ReplProtocol Backup.

(** First valid log offset: behind the 8 header bytes. *)
Definition LOG_START : Z := 8.
Definition CHUNK_BYTES : Z := 64 * 1024.
Definition SNAP_CHUNK_BYTES : Z := 256 * 1024.

(** * The resume file *)

(** [read_resume]: generation, offset, upstream host, promotion mark. *)
Definition read_resume (file : option bytes) (snapshot_exists : bool) : Z * Z * option bytes * bool :=
  let it := split_whitespace (default [] file) in
  let gen := default NO_GENERATION (head it ≫= parse_usize) in
  let off := default LOG_START (head (tail it) ≫= parse_usize) in
  let '(host, promoted) :=
    match tail (tail it) with
    | [] => (None, false)
    | [h] => if bool_decide (h = str "promoted") then (None, true) else (Some h, false)
    | [h; p] => if bool_decide (p = str "promoted") then (Some h, true) else (None, false)
    | _ => (None, false)
    end in
  if (gen =? NO_GENERATION) || (off <? LOG_START) || negb snapshot_exists
  then (NO_GENERATION, LOG_START, None, false)
  else (gen, off, host, promoted).

Definition resume_line (generation offset : Z) (upstream : bytes) (promoted : bool) : bytes :=
  show_Z generation ++ str " " ++ show_Z offset ++ str " " ++ upstream ++ (if promoted then str " promoted" else []) ++ [10].

Section replica.
Context {T P : Type} `{KvTree T, Pool P} `{HashOrder}.
(** The syncer gets the log onto the disk up to this offset. *)
Context (synced : Z -> bool).
(** The order in which a hash map of tables is walked. *)
Context (hash_order : gmap bytes (@Table T P) -> list bytes).
(** The pool as it is after its file was replaced and its frames dropped: the
    interface of the buffer pool beyond [Pool]. *)
Context (reopened_pool : bytes -> res P).
Context (io_message : IoError -> bytes).

Abbreviation Tbl := (@Table T P).
Abbreviation DB := (@Data T P).
Abbreviation Conn := (@Conn T P).
Abbreviation EM := (SM Conn).

(** * The engine of a node (db/replica.rs) *)

Definition on_data {A} (op : SM DB A) : EM A := fun c =>
  '(d, r) ← op (e_data (c_db c)); mret (mkConn (set_data d (c_db c)) (c_ses c), r).

Definition is_commit (rec : Record_) : bool := match rec with RCommit _ _ => true | _ => false end.

(** What of a batch goes into the node's own log: the commit is supplied when
    it is missing. *)
Definition wal_batch (batch : list Record_) : list Record_ :=
  if existsb is_commit batch then batch
  else match last batch with Some rec => batch ++ [RCommit (txn_of rec) None] | None => batch end.

Definition apply_replica_batch (batch : list Record_) : EM () :=
  _ ← on_data (apply_records batch);
  if bool_decide (wal_batch batch = []) then mret () else wal_commit synced (wal_batch batch).

(** The files of a node, next to its engine: the log generation (wal.gen), the
    last checkpoint, the resume position, and the upstream it reports. *)
Record Node := mkNode {
  n_conn : Conn;
  n_generation : Z;
  n_snapshot : option bytes;
  n_resume : option bytes;
  n_upstream : bytes;
}.

Abbreviation NM := (SM Node).

Definition on_engine {A} (op : EM A) : NM A := fun n =>
  '(c, r) ← op (n_conn n); mret (mkNode c (n_generation n) (n_snapshot n) (n_resume n) (n_upstream n), r).

Definition is_read_only (n : Node) : bool := e_read_only (c_db (n_conn n)).

(** [Database::checkpoint] without an archive directory: the snapshot file, an
    empty log of the next generation, the install frontier at its start. *)
Definition checkpoint : NM () := fun n =>
  let e := c_db (n_conn n) in
  r ← Recovery.checkpoint hash_order (e_data e);
  match r with
  | Ok file =>
    let e := set_frontier (Zlen wal_header) (set_log [] e) in
    on_engine gc_versions (mkNode (mkConn e (c_ses (n_conn n))) (n_generation n + 1) (Some file) (n_resume n) (n_upstream n))
  | Err err => mret (n, Err err)
  | Panic => mret (n, Panic)
  end.

Definition set_role (read_only : bool) (upstream : bytes) (n : Node) : Node :=
  mkNode (mkConn (set_read_only read_only (c_db (n_conn n))) (c_ses (n_conn n))) (n_generation n) (n_snapshot n) (n_resume n) upstream.

(** [promote] of a running replica; [promote_offline] of a stopped node. *)
Definition promote : NM () :=
  n ← gets id;
  if negb (is_read_only n) then fail (InvalidOperation (str "already primary"))
  else _ ← checkpoint; modify (set_role false []).

Definition promote_offline : NM () := _ ← checkpoint; modify (set_role false []).

(** [VersionState::clear] *)
Definition clear_versions (e : Engine) : @Engine T P :=
  set_versions (mkVersions ∅ ∅ ∅ (next_snapshot_id (e_versions e))) e.

(** The staged databases: those of the image, [default] if it has none. *)
Definition staged_databases (dbs : list bytes) : gset bytes :=
  let s : gset bytes := list_to_set dbs in if bool_decide (s = ∅) then {[str "default"]} else s.

(** The tables of the image, built aside with the pool the node has. *)
Definition stage_tables (dbs : list bytes) (ts : list (TableDef * list (bytes * bytes))) : EM DB := fun c =>
  let staging := _ ← each load_table ((fun t => (t.1, snap_rows t.2)) <$> ts);
                 _ ← each_table hash_order refresh_auto_inc;
                 each_table hash_order fk_ensure_auto_indexes in
  '(d, r) ← staging (mkData (staged_databases dbs) ∅ (d_pool (e_data (c_db c))));
  let live := e_data (c_db c) in
  mret (mkConn (set_data (mkData (d_databases live) (d_tables live) (d_pool d)) (c_db c)) (c_ses c),
        match r with Ok _ => Ok d | Err e => Err e | Panic => Panic end).

Definition apply_replica_snapshot (dbs : list bytes) (ts : list (TableDef * list (bytes * bytes))) (pages : bytes) : NM () :=
  staged ← on_engine (stage_tables dbs ts);
  pool ← lift (reopened_pool pages);
  _ ← on_engine (modify (fun c =>
        mkConn (clear_versions (set_data (mkData (d_databases staged) (d_tables staged) pool) (c_db c))) (c_ses c)));
  checkpoint.

(** * Following a primary (replication/replica.rs) *)

Record ReplicaOpts := mkOpts { primary : bytes; user : bytes; password : bytes }.

Record SnapshotAsm := mkAsm { sa_buf : bytes; sa_total_bytes : Z; sa_end_offset : Z; sa_generation : Z }.

(** The node, the position the loop carries from connection to connection, and
    what one connection keeps: uncommitted records, the snapshot in assembly,
    the primary's durable offset, the frames written. *)
Record Follower := mkFollower {
  w_node : Node;
  w_generation : Z;
  w_applied : Z;
  w_resume_host : option bytes;
  w_promoted : bool;
  w_pending : gmap Z (list Record_);
  w_snap : option SnapshotAsm;
  w_durable : Z;
  w_sent : list Frame;
}.

Abbreviation FM := (SM Follower).

Definition set_node (n : Node) (w : Follower) : Follower :=
  mkFollower n (w_generation w) (w_applied w) (w_resume_host w) (w_promoted w) (w_pending w) (w_snap w) (w_durable w) (w_sent w).
Definition set_applied (o : Z) (w : Follower) : Follower :=
  mkFollower (w_node w) (w_generation w) o (w_resume_host w) (w_promoted w) (w_pending w) (w_snap w) (w_durable w) (w_sent w).
Definition set_pending (p : gmap Z (list Record_)) (w : Follower) : Follower :=
  mkFollower (w_node w) (w_generation w) (w_applied w) (w_resume_host w) (w_promoted w) p (w_snap w) (w_durable w) (w_sent w).
Definition set_snap (s : option SnapshotAsm) (w : Follower) : Follower :=
  mkFollower (w_node w) (w_generation w) (w_applied w) (w_resume_host w) (w_promoted w) (w_pending w) s (w_durable w) (w_sent w).
Definition set_durable (d : Z) (w : Follower) : Follower :=
  mkFollower (w_node w) (w_generation w) (w_applied w) (w_resume_host w) (w_promoted w) (w_pending w) (w_snap w) d (w_sent w).
Definition set_sent (l : list Frame) (w : Follower) : Follower :=
  mkFollower (w_node w) (w_generation w) (w_applied w) (w_resume_host w) (w_promoted w) (w_pending w) (w_snap w) (w_durable w) l.

(** [.map_err(|e| CodecError(format!("{what}{e}")))] *)
Definition blamed {S A} (what : string) (c : SM S A) : SM S A := fun s =>
  '(s, r) ← c s; mret (s, match r with Err e => Err (CodecError (str what ++ show_error e)) | r => r end).

Definition on_node {A} (op : NM A) : FM A := fun w => '(n, r) ← op (w_node w); mret (set_node n w, r).

(** [write_frame(&mut stream, &f)?] *)
Definition send (f : Frame) : FM () := _ ← lift (write_frame f); modify (fun w => set_sent (w_sent w ++ [f]) w).

Definition position (w : Follower) : Frame := StartReplication (w_generation w) (w_applied w).

Definition write_resume (generation offset : Z) (upstream : bytes) (promoted : bool) : NM () :=
  modify (fun n => mkNode (n_conn n) (n_generation n) (n_snapshot n) (Some (resume_line generation offset upstream promoted)) (n_upstream n)).

(** The whole image must be one archive. *)
Definition apply_snapshot (image : bytes) (end_offset generation : Z) (upstream : bytes) : NM () :=
  '(b, count) ← blamed "snapshot: " (lift (decode_archive image));
  if negb (count =? Zlen image) then fail (CodecError (str "snapshot trailing bytes"))
  else
    _ ← blamed "snapshot apply: " (apply_replica_snapshot (databases b) (tables b) (pages b));
    write_resume generation end_offset upstream false.

(** The records of a chunk: buffered by transaction, applied at the commit. *)
Fixpoint follow (recs : list Record_) : FM () :=
  match recs with
  | [] => mret ()
  | rec :: recs =>
    pending ← gets w_pending;
    _ ← (if is_commit rec then
           match pending !! txn_of rec with
           | Some batch =>
             _ ← modify (set_pending (delete (txn_of rec) pending));
             on_node (on_engine (blamed "apply: " (apply_replica_batch (batch ++ [rec]))))
           | None => mret ()
           end
         else modify (set_pending (<[txn_of rec := default [] (pending !! txn_of rec) ++ [rec]]> pending)));
    follow recs
  end.

Definition on_chunk (legacy_cols : bool) (offset : Z) (data : bytes) : FM () :=
  _ ← modify (set_snap None);
  w ← gets id;
  if negb (offset =? w_applied w) then send (position w)
  else
    '(records, consumed) ← blamed "wal decode: " (lift (decode_wal_range data legacy_cols));
    if negb (consumed =? Zlen data) then fail (CodecError (str "torn WAL chunk from primary"))
    else _ ← follow records; modify (set_applied (offset + Zlen data)).

Definition on_snapshot_end (opts : ReplicaOpts) : FM () :=
  w ← gets id;
  match w_snap w with
  | None => fail (CodecError (str "snapshot end outside snapshot"))
  | Some s =>
    _ ← modify (set_snap None);
    if negb (Zlen (sa_buf s) =? sa_total_bytes s) then fail (CodecError (str "snapshot short read"))
    else
      let repointed := negb (bool_decide (w_resume_host w = Some (primary opts))) in
      if negb repointed && negb (w_generation w =? NO_GENERATION) && (sa_generation s <? w_generation w)
      then fail (CodecError (str "refusing snapshot from older generation " ++ show_Z (sa_generation s) ++
                             str " (local " ++ show_Z (w_generation w) ++ str ")"))
      else
        _ ← on_node (apply_snapshot (sa_buf s) (sa_end_offset s) (sa_generation s) (primary opts));
        modify (fun w => mkFollower (w_node w) (sa_generation s) (sa_end_offset s) (Some (primary opts)) false ∅
                           (w_snap w) (w_durable w) (w_sent w))
  end.

Definition on_frame (opts : ReplicaOpts) (legacy_cols : bool) (f : Frame) : FM () :=
  match f with
  | WalChunk offset data => on_chunk legacy_cols offset data
  | Heartbeat durable_offset => _ ← modify (set_durable durable_offset); send HeartbeatAck
  | SnapshotRequired => w ← gets id; send (position w)
  | SnapshotBegin total_bytes end_offset g =>
      if MAX_FRAME <? total_bytes then fail (CodecError (str "snapshot too large"))
      else modify (set_snap (Some (mkAsm [] total_bytes end_offset g)))
  | SnapshotChunk data =>
      w ← gets id;
      match w_snap w with
      | None => fail (CodecError (str "chunk outside snapshot"))
      | Some s =>
        if sa_total_bytes s <? Zlen (sa_buf s) + Zlen data then fail (CodecError (str "snapshot overrun"))
        else modify (set_snap (Some (mkAsm (sa_buf s ++ data) (sa_total_bytes s) (sa_end_offset s) (sa_generation s))))
      end
  | SnapshotEnd => on_snapshot_end opts
  | StartReplication _ _ | Handshake _ _ _ | HandshakeAck _ _ _ _ | HeartbeatAck =>
      fail (CodecError (str "unexpected upstream frame"))
  end.

(** The steady state, for [rounds] rounds: before the next one the shutdown
    flag is seen. *)
Fixpoint stream_rounds (rounds : nat) (opts : ReplicaOpts) (legacy_cols : bool) (s : Stream) : FM () :=
  match rounds with
  | O => mret ()
  | S rounds =>
    ro ← gets (fun w => is_read_only (w_node w));
    if negb ro then mret ()
    else
      match read_frame io_message s with
      | (Ok None, s) => stream_rounds rounds opts legacy_cols s
      | (Ok (Some f), s) => _ ← on_frame opts legacy_cols f; stream_rounds rounds opts legacy_cols s
      | (Err e, _) => fail e
      | (Panic, _) => lift Panic
      end
  end.

(** One connection, which delivers [s]. *)
Definition stream_once (rounds : nat) (opts : ReplicaOpts) (s : Stream) : FM () :=
  _ ← modify (set_sent []);
  _ ← send (Handshake PROTOCOL_VERSION (user opts) (password opts));
  '(ack, s) ← (fun w => let '(r, s) := read_frame io_message s in Ret (w, (fun f => (f, s)) <$> r));
  match ack with
  | Some (HandshakeAck true _ wal_version durable_offset) =>
    _ ← modify (set_durable durable_offset);
    w ← gets id;
    _ ← send (position w);
    _ ← modify (fun w => set_snap None (set_pending ∅ w));
    stream_rounds rounds opts (wal_version <? 3) s
  | Some (HandshakeAck false message _ _) => fail (CodecError (str "primary refused: " ++ message))
  | Some _ => fail (CodecError (str "expected handshake ack"))
  | None => fail (CodecError (str "handshake ack timeout"))
  end.

(** What a round of [run_replica] does before it connects. *)
Inductive Turn : Type := Refuse | Detach | Connect.

Definition turn (opts : ReplicaOpts) (started_read_only : bool) (start_gen : Z) (w : Follower) : Turn :=
  if w_promoted w && bool_decide (w_resume_host w = Some (primary opts)) then Refuse
  else if started_read_only && negb (is_read_only (w_node w)) && negb (n_generation (w_node w) =? start_gen) then Detach
  else Connect.

(** One round, on the connection [s]; [true] when the loop ends. *)
Definition run_round (opts : ReplicaOpts) (started_read_only : bool) (start_gen : Z) (rounds : nat) (s : Stream) : FM bool := fun w =>
  match turn opts started_read_only start_gen w with
  | Refuse => Ret (w, Ok false)
  | Detach => on_node (_ ← write_resume (n_generation (w_node w)) LOG_START (primary opts) true; mret true) w
  | Connect =>
    '(w, r) ← stream_once rounds opts s w;
    mret (w, match r with Panic => Panic | _ => Ok false end)
  end.

(** The state [run_replica] starts in. *)
Definition follower (n : Node) : Follower :=
  let '(generation, applied, resume_host, promoted) := read_resume (n_resume n) (bool_decide (is_Some (n_snapshot n))) in
  mkFollower n generation applied resume_host promoted ∅ None 0 [].

End replica.

(** * Serving replicas (replication/primary.rs) *)

(** What the feeder reads of the primary at one moment: the generation, the
    durable part of its log behind the header, and a dump of the database with
    the log offset it was taken at. *)
Record Source := mkSource { s_generation : Z; s_log : bytes; s_image : bytes; s_image_end : Z }.

Definition wal_durable (p : Source) : Z := LOG_START + Zlen (s_log p).

(** [Wal::read_range] inside the durable part. *)
Definition read_wal_range (p : Source) (from max_len : Z) : res (bytes * Z) :=
  if from <? LOG_START then Err (Corrupted (str "wal range below header"))
  else if wal_durable p <? from then Err (Corrupted (str "wal range beyond written"))
  else
    let data := take (Z.to_nat max_len) (drop (Z.to_nat (from - LOG_START)) (s_log p)) in
    Ok (data, from + Zlen data).

(** [image.chunks(n)]; a byte of fuel per byte is enough. *)
Fixpoint chunks_aux (fuel : nat) (n : nat) (b : bytes) : list bytes :=
  match fuel, b with
  | S fuel, _ :: _ => take n b :: chunks_aux fuel n (drop n b)
  | _, _ => []
  end.

Definition chunks (n : nat) (b : bytes) : list bytes := chunks_aux (length b) n b.

Definition send_snapshot (p : Source) : list Frame :=
  SnapshotBegin (Zlen (s_image p)) (s_image_end p) (s_generation p) ::
  (SnapshotChunk <$> chunks (Z.to_nat SNAP_CHUNK_BYTES) (s_image p)) ++ [SnapshotEnd].

(** What the loop pushes before it blocks for input, and the cursor after it. *)
Definition push (p : Source) (cursor : option (Z * Z)) : option (list Frame * (Z * Z)) :=
  match cursor with
  | None => None
  | Some (gen, next) =>
    let bootstrap := Some (send_snapshot p, (s_generation p, wal_durable p)) in
    if negb (gen =? s_generation p) then bootstrap
    else if wal_durable p <? next then bootstrap
    else if next <? wal_durable p then
      match read_wal_range p next (Z.min (wal_durable p - next) CHUNK_BYTES) with
      | Ok ([], _) => None
      | Ok (data, stop) => Some ([WalChunk next data], (gen, stop))
      | Err _ | Panic => bootstrap
      end
    else None
  end.

(** The answer to a frame of the replica. *)
Definition answer (p : Source) (cursor : option (Z * Z)) (f : Frame) : res (list Frame * option (Z * Z)) :=
  match f with
  | StartReplication generation from_offset =>
    if (generation =? NO_GENERATION) || negb (generation =? s_generation p) || (from_offset <? LOG_START) || (wal_durable p <? from_offset)
    then Ok (send_snapshot p, Some (s_generation p, wal_durable p))
    else Ok ([], Some (generation, from_offset))
  | HeartbeatAck => Ok ([], cursor)
  | _ => Err (CodecError (str "unexpected frame"))
  end.
