(* ===== verification/ReplicaSpec.v ===== *)
(** What following a primary achieves, and where it stops: a replica that is
    sent whole records holds exactly what recovery would make of them; its
    position never goes back on one upstream; a chunk that ends inside a record
    stops it for good; a snapshot with wide rows is not loaded. *)
From stdpp Require Import base list gmap strings.
From Stdlib Require Import ZArith Lia.
From S2P Require Import Prelude Machine Types Literal DateTime TableDef WalCodec BTree BTreeRep BTreeScan BTreeSpec Kv Mvcc Page Table TableSpec.
From S2P Require Import Lexer Expr Ast Parser Print PrintLex Catalog Recovery RecoverySpec RecoveryLoad RecoveryLog Session Privilege Engine CommitSpec ReplProtocol Backup Replica.

(** The records still waiting for their commit. *)
Fixpoint pending_after (pending : gmap Z (list Record_)) (recs : list Record_) : gmap Z (list Record_) :=
  match recs with
  | [] => pending
  | rec :: recs =>
    pending_after (if is_commit rec then delete (txn_of rec) pending
                   else <[txn_of rec := default [] (pending !! txn_of rec) ++ [rec]]> pending) recs
  end.

Lemma batches_step pending rec recs : batches pending (rec :: recs) =
  if is_commit rec then default [] (pending !! txn_of rec) ++ batches (delete (txn_of rec) pending) recs
  else batches (<[txn_of rec := default [] (pending !! txn_of rec) ++ [rec]]> pending) recs.
Proof. by destruct rec. Qed.

Lemma batches_split a : forall pending b, batches pending (a ++ b) = batches pending a ++ batches (pending_after pending a) b.
Proof.
  induction a as [|rec a IH]; intros pending b; [done|]. cbn [app pending_after]. rewrite !batches_step.
  destruct (is_commit rec); rewrite IH; [by rewrite app_assoc|done].
Qed.

(** Chunks of whole records, from an offset on. *)
Fixpoint wal_chunks (off : Z) (css : list (list Record_)) : list Frame :=
  match css with
  | [] => []
  | recs :: css => WalChunk off (log_bytes recs) :: wal_chunks (off + Zlen (log_bytes recs)) css
  end.

Lemma decode_whole recs : Forall record_wf recs ->
  decode_wal_range (log_bytes recs) false = Ok (reread_record <$> recs, Zlen (log_bytes recs)).
Proof.
  intros Hwf. unfold decode_wal_range. pose proof (complete_prefix (length (log_bytes recs)) recs (S (length (log_bytes recs))) 0 [] Hwf) as H.
  rewrite firstn_all, complete_all in H. rewrite H by lia. by rewrite Z.add_0_l.
Qed.

Section following.
Context {T P : Type} {KT : KvTree T} {HT : KvTreeOk T} {KP : Pool P} {HP : PoolOk P} {HO : HashOrder}.
Context (synced : Z -> bool) (hash_order : gmap bytes (@Table T P) -> list bytes) (reopened_pool : bytes -> res P).
Context (io_message : IoError -> bytes).

Abbreviation Follower := (@Follower T P).
Abbreviation Conn := (@Conn T P).
Abbreviation on_frame := (on_frame synced hash_order reopened_pool).
Abbreviation stream_rounds := (stream_rounds synced hash_order reopened_pool io_message).

(** The node is a replica whose tables are [A] and whose own log is installed. *)
Record mirrors (G : Owned) (A : ADb) (w : Follower) : Prop := {
  mi_tables : shows G (n_conn (w_node w)) A;
  mi_read_only : is_read_only (w_node w) = true;
  mi_frontier : e_frontier (c_db (n_conn (w_node w))) = log_end (c_db (n_conn (w_node w)));
}.

(** What appending to the node's own log leaves. *)
Lemma wal_commit_runs recs (c : Conn) : (forall o, synced o = true) -> e_frontier (c_db c) = log_end (c_db c) ->
  exists c', wal_commit synced recs c = Ret (c', Ok ()) /\ e_data (c_db c') = e_data (c_db c) /\
    e_frontier (c_db c') = log_end (c_db c') /\ e_read_only (c_db c') = e_read_only (c_db c).
Proof.
  intros Hs Hf. destruct c as [e x]. unfold wal_commit, the_db, gets, append_records, wait_durable, wait_frontier, db, modify, mbind, sm_bind.
  cbn [c_db c_ses] in *. rewrite Hs. unfold wait_frontier. cbn [c_db set_log e_frontier]. rewrite Hf, Z.eqb_refl.
  eexists. split; [done|]. by destruct e.
Qed.

Lemma wal_batch_commit batch rec : is_commit rec = true -> wal_batch (batch ++ [rec]) = batch ++ [rec].
Proof. intros H. unfold wal_batch. rewrite existsb_app. cbn. by rewrite H, orb_true_r. Qed.

(** One batch: the effects of its records. *)
Lemma batch_ok batch rec (c : Conn) A G :
  (forall o, synced o = true) -> is_commit rec = true -> shows G c A -> e_frontier (c_db c) = log_end (c_db c) -> records_fit A batch ->
  wp (apply_replica_batch synced (batch ++ [rec])) c (fun c' r =>
    (r = Ok () /\ (exists G', shows G' c' (effects batch A)) /\ e_frontier (c_db c') = log_end (c_db c') /\
      e_read_only (c_db c') = e_read_only (c_db c)) \/
    (Exists wide_put batch /\ exists e, r = Err e)).
Proof.
  intros Hs Hrec Hc Hf Hfit. unfold apply_replica_batch. rewrite wal_batch_commit by done.
  rewrite bool_decide_eq_false_2 by by destruct batch.
  assert (Hfit' : records_fit A (batch ++ [rec])) by (apply records_fit_app; split; [done|]; by destruct rec).
  assert (Heff : effects (batch ++ [rec]) A = effects batch A) by (rewrite effects_app; by destruct rec).
  apply wp_bind. unfold wp at 1, on_data. pose proof (apply_records_ok (batch ++ [rec]) (e_data (c_db c)) A G Hc Hfit') as Hw.
  unfold wp in Hw. destruct (apply_records (batch ++ [rec]) _) as [[d r]| |]; cbn [mbind out_bind mret out_ret]; [|done|done].
  destruct Hw as [[-> [G' Hd]]|[Hwide [e ->]]].
  - set (c1 := mkConn _ _). destruct (wal_commit_runs (batch ++ [rec]) c1 Hs) as (c' & Hc' & Hdata & Hfr & Hro); [by destruct c as [[] ?]|].
    unfold wp. rewrite Hc'. left. split; [done|]. rewrite Heff in Hd. split_and!; [|done|rewrite Hro; by destruct c as [[] ?]].
    exists G'. unfold shows. rewrite Hdata. by destruct c as [[] ?].
  - right. split; [|by exists e]. apply Exists_app in Hwide as [?|Hwide]; [done|]. apply Exists_cons in Hwide as [Hwide|Hwide].
    + by destruct rec.
    + by apply Exists_nil in Hwide.
Qed.

(** The records of a chunk change the node and the pending records only. *)
Lemma follow_ok recs : forall (w : Follower) A G,
  (forall o, synced o = true) -> mirrors G A w -> records_fit A (batches (w_pending w) recs) ->
  wp (follow synced recs) w (fun w' r =>
    (r = Ok () /\ (exists G', mirrors G' (effects (batches (w_pending w) recs) A) w') /\
      w' = set_pending (pending_after (w_pending w) recs) (set_node (w_node w') w)) \/
    (Exists wide_put (batches (w_pending w) recs) /\ exists e, r = Err e)).
Proof.
  induction recs as [|rec recs IH]; intros w A G Hs Hw Hfit; cbn [follow].
  - apply wp_ret. left. split; [done|]. split; [by exists G|]. by destruct w.
  - apply wp_gets. cbn [pending_after]. rewrite batches_step in Hfit |- *. destruct (is_commit rec) eqn:Hrec.
    + destruct (w_pending w !! txn_of rec) as [batch|] eqn:Hp; cbn [default from_option id] in Hfit |- *.
      * apply records_fit_app in Hfit as [Hb Hfit]. apply wp_bind, wp_bind. unfold wp at 1, modify. destruct Hw as [H1 H2 H3].
        set (w1 := set_pending (delete (txn_of rec) (w_pending w)) w).
        pose proof (batch_ok batch rec (n_conn (w_node w)) A G Hs Hrec H1 H3 Hb) as Hbatch.
        unfold wp in Hbatch |- *. unfold on_node, on_engine, blamed. change (w_node w1) with (w_node w).
        destruct (apply_replica_batch _ _ _) as [[c' r]| |]; cbn [mbind out_bind mret out_ret]; [|done|done].
        destruct Hbatch as [(-> & [G' Hc] & Hf & Hr)|[Hwide [e ->]]].
        -- match goal with |- context [follow synced recs ?x] => set (w2 := x) end.
           specialize (IH w2 (effects batch A) G' Hs ltac:(by split; [exact Hc|rewrite <- H2; exact Hr|exact Hf]) Hfit).
           unfold wp in IH. destruct (follow synced recs w2) as [[w3 r3]| |]; [|done|done].
           destruct IH as [(-> & [G3 H] & Hw3)|[Hwide He]]; [left|right].
           ++ split; [done|]. split; [exists G3; rewrite effects_app; exact H|]. rewrite Hw3 at 1. by destruct w.
           ++ split; [apply Exists_app; by right|done].
        -- right. split; [apply Exists_app; by left|eauto].
      * apply wp_bind. unfold wp at 1. cbn [mret sm_ret].
        assert (Hd : delete (txn_of rec) (w_pending w) = w_pending w) by by apply delete_id.
        rewrite Hd in Hfit |- *. by apply (IH w A G).
    + apply wp_bind. unfold wp at 1, modify. set (w1 := set_pending _ w).
      eapply wp_mono; [apply (IH w1 A G Hs); [by destruct Hw as [H1 H2 H3]; split|exact Hfit]|]. cbn beta.
      intros w' r [(-> & HG & Hw')|H]; [left|by right]. split; [done|]. split; [exact HG|]. rewrite Hw' at 1. by destruct w.
Qed.

(** A chunk of whole records at the replica's position. *)
Lemma chunk_ok opts recs (w : Follower) A G :
  (forall o, synced o = true) -> mirrors G A w -> Forall record_wf recs -> records_fit A (batches (w_pending w) (reread_record <$> recs)) ->
  wp (on_frame opts false (WalChunk (w_applied w) (log_bytes recs))) w (fun w' r =>
    (r = Ok () /\ (exists G', mirrors G' (effects (batches (w_pending w) (reread_record <$> recs)) A) w') /\
      w_pending w' = pending_after (w_pending w) (reread_record <$> recs) /\
      w_applied w' = w_applied w + Zlen (log_bytes recs)) \/
    (Exists wide_put (batches (w_pending w) (reread_record <$> recs)) /\ exists e, r = Err e)).
Proof.
  intros Hs Hw Hwf Hfit. cbn [Replica.on_frame]. unfold on_chunk. apply wp_bind. unfold wp at 1, modify.
  apply wp_gets. cbn [id w_applied set_snap]. rewrite Z.eqb_refl. cbn [negb].
  apply wp_bind. unfold wp at 1, blamed, lift. rewrite decode_whole by done. cbn [mbind out_bind mret out_ret]. rewrite Z.eqb_refl. cbn [negb].
  apply wp_bind. eapply wp_mono; [apply (follow_ok _ (set_snap None w) A G Hs); [by destruct Hw as [H1 H2 H3]; split|exact Hfit]|]. cbn beta.
  intros w1 r [(-> & [G1 [H1 H2 H3]] & Hw1)|[Hwide [e ->]]]; [left|right; by eauto].
  split; [done|]. split; [by exists G1; split|]. rewrite Hw1. done.
Qed.

Lemma rounds_ticks opts lc k : forall n s (w : Follower), is_read_only (w_node w) = true ->
  stream_rounds (k + n) opts lc (repeat TimesOut k ++ s) w = stream_rounds n opts lc s w.
Proof.
  induction k as [|k IH]; intros n s w Hro; [done|]. cbn [Nat.add repeat app Replica.stream_rounds].
  unfold mbind, sm_bind, gets. rewrite Hro. cbn [negb]. change (read_frame io_message (TimesOut :: repeat TimesOut k ++ s)) with (Ok (@None Frame), repeat TimesOut k ++ s).
  by apply IH.
Qed.

(** What a connection that delivers whole records and is then closed leaves. *)
Definition caught_up (pending : gmap Z (list Record_)) (off : Z) (css : list (list Record_)) (A : ADb) (w' : Follower) (r : res ()) : Prop :=
  let recs := reread_record <$> mjoin css in
  (r = Err (CodecError (io_message UnexpectedEof)) /\
    (exists G', mirrors G' (effects (batches pending recs) A) w') /\
    w_applied w' = off + Zlen (log_bytes (mjoin css)) /\ w_pending w' = pending_after pending recs) \/
  (Exists wide_put (batches pending recs) /\ exists e, r = Err e).

Lemma pending_after_app a : forall pending b, pending_after pending (a ++ b) = pending_after (pending_after pending a) b.
Proof. induction a as [|rec a IH]; intros pending b; [done|]. cbn [app pending_after]. apply IH. Qed.

Lemma stream_chunks opts css : forall sent rounds (w : Follower) A G,
  (forall o, synced o = true) -> mirrors G A w -> Forall (Forall record_wf) css -> Forall frame_typed (wal_chunks (w_applied w) css) ->
  Forall2 (fun f e => write_frame f = Ok e.2) (wal_chunks (w_applied w) css) sent ->
  records_fit A (batches (w_pending w) (reread_record <$> mjoin css)) -> (length (wire sent) < rounds)%nat ->
  wp (stream_rounds rounds opts false (wire sent)) w (caught_up (w_pending w) (w_applied w) css A).
Proof.
  induction css as [|recs css IH]; intros sent rounds w A G Hs Hw Hwf Ht Hsent Hfit Hr; cbn [wal_chunks] in *.
  - inversion Hsent; subst. destruct rounds as [|rounds]; [cbn in Hr; lia|]. cbn [wire Replica.stream_rounds]. apply wp_gets.
    rewrite (mi_read_only _ _ _ Hw). cbn [negb]. unfold wp. left. cbn. split; [done|]. split; [by exists G|]. split; [lia|done].
  - inversion Hsent as [|? [ticks b] ? sent' Hb Hsent']; subst. cbn [wire] in *. apply Forall_cons in Ht as [Ht Hts].
    apply Forall_cons in Hwf as [Hrecs Hwf]. cbn in Hb. pose proof (write_frame_length _ _ Hb) as Hlen.
    rewrite !length_app, repeat_length, length_fmap in Hr. cbn [mjoin list_join] in Hfit.
    rewrite fmap_app, batches_split in Hfit. apply records_fit_app in Hfit as [Hf1 Hf2].
    replace rounds with (ticks + (rounds - ticks))%nat by lia.
    unfold wp. rewrite rounds_ticks by apply Hw. destruct (rounds - ticks)%nat as [|n] eqn:En; [lia|].
    cbn [Replica.stream_rounds]. change (wp (ro ← gets (fun w => is_read_only (w_node w));
      if negb ro then mret () else match read_frame io_message ((Arrive <$> b) ++ wire sent') with
      | (Ok (Some f), s) => _ ← on_frame opts false f; stream_rounds n opts false s
      | (Ok None, s) => stream_rounds n opts false s | (Err e, _) => fail e | (Panic, _) => lift Panic end) w
      (caught_up (w_pending w) (w_applied w) (recs :: css) A)).
    apply wp_gets. rewrite (mi_read_only _ _ _ Hw). cbn [negb]. rewrite (read_written io_message _ _ _ Ht Hb).
    apply wp_bind. eapply wp_mono; [by apply (chunk_ok opts recs w A G)|]. cbn beta.
    intros w1 r [(-> & [G1 H1] & Hp & Ha)|[Hwide [e ->]]].
    + rewrite <- Ha in Hts, Hsent'. rewrite <- Hp in Hf2.
      eapply wp_mono; [apply (IH sent' n w1 _ G1 Hs H1 Hwf Hts Hsent' Hf2); lia|]. unfold caught_up.
      cbn [mjoin list_join]. rewrite fmap_app, batches_split, pending_after_app, effects_app, Hp, Ha,
        log_bytes_app, Zlen_app.
      intros w' r [(-> & HG & Hoff & Hp')|[Hwide He]]; [left|right; split; [apply Exists_app; by right|done]].
      split_and!; [done|done| |done]. rewrite Hoff. symmetry. apply Z.add_assoc.
    + right. cbn [mjoin list_join]. rewrite fmap_app, batches_split. split; [apply Exists_app; by left|by exists e].
Qed.

End following.

(** * A chunk that ends inside a record *)

(** One of the records ends [n] bytes into them. *)
Definition ends_at (n : Z) (recs : list Record_) : Prop := exists k, Zlen (log_bytes (take k recs)) = n.

Lemma complete_take recs : forall n, exists k, complete n recs = take k recs.
Proof.
  induction recs as [|r recs IH]; intros n; [by exists 0%nat|]. cbn [complete]. destruct (_ <=? _); [|by exists 0%nat].
  destruct (IH (n - Zlen (encode_record r))) as [k ->]. by exists (S k).
Qed.

Lemma decode_torn recs n : Forall record_wf recs -> (n <= length (log_bytes recs))%nat -> ~ ends_at (Z.of_nat n) recs ->
  exists records consumed, decode_wal_range (take n (log_bytes recs)) false = Ok (records, consumed) /\ consumed <> Zlen (take n (log_bytes recs)).
Proof.
  intros Hwf Hn He. unfold decode_wal_range. rewrite complete_prefix by (done || rewrite length_take; lia).
  eexists _, _. split; [done|]. rewrite Z.add_0_l, length_take, Nat.min_l by done. intros E. apply He.
  destruct (complete_take recs (Z.of_nat n)) as [k Hk]. exists k. by rewrite <- Hk.
Qed.

Definition torn : Error := CodecError (str "torn WAL chunk from primary").

Section reconnecting.
Context {T P : Type} {KT : KvTree T} {KP : Pool P} {HO : HashOrder}.
Context (synced : Z -> bool) (hash_order : gmap bytes (@Table T P) -> list bytes) (reopened_pool : bytes -> res P).

Abbreviation Follower := (@Follower T P).
Abbreviation on_frame := (on_frame synced hash_order reopened_pool).

(** A connection to a primary in the state [p]: the replica asks for its
    position, and takes what the primary pushes first. *)
Definition reconnect (opts : ReplicaOpts) (p : Source) : SM Follower () :=
  _ ← modify (fun w => set_snap None (set_pending ∅ w));
  w ← gets id;
  '(frames, cursor) ← lift (answer p None (position w));
  _ ← each (on_frame opts false) frames;
  each (on_frame opts false) (match push p cursor with Some (frames, _) => frames | None => [] end).

(** The outcomes of one connection after the other. *)
Fixpoint keep_trying (opts : ReplicaOpts) (ps : list Source) : Follower -> out (Follower * list (res ())) := fun w =>
  match ps with
  | [] => Ret (w, [])
  | p :: ps => '(w, r) ← reconnect opts p w; '(w, rs) ← keep_trying opts ps w; mret (w, r :: rs)
  end.

(** The primary [p] has [before ++ log_bytes recs] in its log, and perhaps more. *)
Definition still_has (gen : Z) (before : bytes) (recs : list Record_) (p : Source) : Prop :=
  s_generation p = gen /\ exists more, s_log p = before ++ log_bytes recs ++ more.

Lemma push_chunk gen before recs p :
  still_has gen before recs p -> CHUNK_BYTES < Zlen (log_bytes recs) ->
  push p (Some (gen, LOG_START + Zlen before)) =
    Some ([WalChunk (LOG_START + Zlen before) (take (Z.to_nat CHUNK_BYTES) (log_bytes recs))],
          (gen, LOG_START + Zlen before + CHUNK_BYTES)).
Proof.
  intros [Hg [more Hl]] Hlen. unfold push, wal_durable. rewrite Hg, Z.eqb_refl, Hl, !Zlen_app. cbn [negb].
  assert (HC : CHUNK_BYTES = 65536) by reflexivity. zb. rewrite Z.min_r by lia.
  unfold read_wal_range, wal_durable. rewrite Hl, !Zlen_app. unfold LOG_START in *. zb.
  replace (Z.to_nat (8 + Zlen before - 8)) with (length before) by lia. rewrite drop_app_length, take_app_le by lia.
  assert (Ht : Zlen (take (Z.to_nat CHUNK_BYTES) (log_bytes recs)) = CHUNK_BYTES) by (rewrite length_take; lia).
  rewrite Ht. destruct (take _ _) eqn:E; [cbn in Ht; lia|]. done.
Qed.

Lemma reconnect_torn opts gen before recs p (w : Follower) :
  still_has gen before recs p -> gen <> NO_GENERATION -> Forall record_wf recs ->
  CHUNK_BYTES < Zlen (log_bytes recs) -> ~ ends_at CHUNK_BYTES recs ->
  w_generation w = gen -> w_applied w = LOG_START + Zlen before ->
  reconnect opts p w = Ret (set_snap None (set_pending ∅ w), Err torn).
Proof.
  intros Hp Hgen Hwf Hlen Hend Hg Ha. pose proof (push_chunk gen before recs p Hp Hlen) as Hpush.
  assert (HC : CHUNK_BYTES = 65536) by reflexivity.
  destruct (decode_torn recs (Z.to_nat CHUNK_BYTES) Hwf ltac:(lia)) as (records & consumed & Hd & Hc).
  { rewrite Z2Nat.id by lia. done. }
  unfold reconnect, modify, gets, lift, mbind, sm_bind. cbn [id position w_generation w_applied set_snap set_pending].
  change (position _) with (StartReplication (w_generation w) (w_applied w)). rewrite Hg, Ha. unfold answer, wal_durable. destruct Hp as [Hpg [more Hl]]. rewrite Hpg, Hl, !Zlen_app, Z.eqb_refl.
  unfold LOG_START in *. zb. cbn [negb orb each mret sm_ret]. rewrite Hpush. cbn [each Replica.on_frame].
  unfold on_chunk, modify, gets, lift, blamed, fail, mbind, sm_bind, out_bind, lift. cbn [w_applied set_snap set_pending id mret out_ret].
  rewrite Ha, Z.eqb_refl. cbn [negb]. rewrite Hd.
  apply Z.eqb_neq in Hc. rewrite Hc. cbn [negb]. done.
Qed.

End reconnecting.

(** * Fencing *)

Section fencing.
Context {T P : Type} {KT : KvTree T} {KP : Pool P} {HO : HashOrder}.
Context (synced : Z -> bool) (hash_order : gmap bytes (@Table T P) -> list bytes) (reopened_pool : bytes -> res P).

Abbreviation Follower := (@Follower T P).
Abbreviation FM := (SM Follower).
Abbreviation on_frame := (on_frame synced hash_order reopened_pool).

(** A relation between the states before and after whatever a step does. *)
Definition steps {A} (R : Follower -> Follower -> Prop) (c : FM A) : Prop := forall w w' r, c w = Ret (w', r) -> R w w'.

Lemma steps_bind {A B} R `{!Transitive R} (c : FM A) (k : A -> FM B) : steps R c -> (forall a, steps R (k a)) -> steps R (c ≫= k).
Proof.
  intros Hc Hk w w' r. unfold mbind, sm_bind. destruct (c w) as [[w1 [a|e|]]| |] eqn:E; try done; intros H.
  - etrans; [by eapply Hc|by eapply Hk].
  - simplify_eq. by eapply Hc.
  - simplify_eq. by eapply Hc.
Qed.

Lemma steps_lift {A} R `{!Reflexive R} (r : res A) : steps R (lift r).
Proof. by intros w w' r' [= <- <-]. Qed.

Lemma steps_gets {A} R `{!Reflexive R} (f : Follower -> A) : steps R (gets f).
Proof. by intros w w' r [= <- <-]. Qed.

Lemma steps_modify R (f : Follower -> Follower) : (forall w, R w (f w)) -> steps R (modify f).
Proof. intros Hf w w' r [= <- <-]. apply Hf. Qed.

(** The position, the upstream and the snapshot in assembly stay. *)
Definition same_place (w w' : Follower) : Prop :=
  w_generation w' = w_generation w /\ w_resume_host w' = w_resume_host w /\ w_snap w' = w_snap w.

#[local] Instance same_place_order : PreOrder same_place.
Proof. split; [done|]. intros a b c (A1 & A2 & A3) (B1 & B2 & B3). repeat split; congruence. Qed.

Lemma steps_on_node {A} (op : SM (@Node T P) A) : steps same_place (on_node op).
Proof. intros w w' r. unfold on_node. destruct (op (w_node w)) as [[n r0]| |]; try done. by intros [= <- <-]. Qed.

Lemma steps_send f : steps same_place (send f).
Proof. apply steps_bind; [apply _|by apply steps_lift|intros _; by apply steps_modify]. Qed.

Lemma steps_follow recs : steps same_place (follow synced recs).
Proof.
  induction recs as [|rec recs IH]; cbn [follow]; [by apply steps_lift|].
  apply steps_bind; [apply _|by apply steps_gets|]. intros pending. apply steps_bind; [apply _| |done].
  destruct (is_commit rec); [|by apply steps_modify]. destruct (pending !! _); [|by apply steps_lift].
  apply steps_bind; [apply _|by apply steps_modify|intros _; apply steps_on_node].
Qed.

(** A frame that does not announce a snapshot of the generation that stands for
    none, [u64::MAX]. *)
Definition sane (f : Frame) : Prop := match f with SnapshotBegin _ _ g => g <> NO_GENERATION | _ => True end.

(** On one upstream the generation only grows. *)
Record fenced (opts : ReplicaOpts) (w w' : Follower) : Prop := {
  fe_host : w_resume_host w = Some (primary opts) -> w_resume_host w' = Some (primary opts);
  fe_set : w_generation w <> NO_GENERATION -> w_generation w' <> NO_GENERATION;
  fe_grows : w_resume_host w = Some (primary opts) -> w_generation w <> NO_GENERATION -> w_generation w <= w_generation w';
}.

Definition snap_sane (w : Follower) : Prop := match w_snap w with Some s => sa_generation s <> NO_GENERATION | None => True end.

(** A step from a state whose snapshot is sane. *)
Definition fences (opts : ReplicaOpts) (w w' : Follower) : Prop := snap_sane w -> fenced opts w w' /\ snap_sane w'.

#[local] Instance fences_order opts : PreOrder (fences opts).
Proof.
  split.
  - intros w Hw. split; [by split|done].
  - intros a b c Hab Hbc Ha. destruct (Hab Ha) as [[A1 A2 A3] Hb]. destruct (Hbc Hb) as [[B1 B2 B3] Hc]. split; [|done].
    split; [auto|auto|]. intros H1 H2. etrans; [by apply A3|]. auto.
Qed.

Lemma same_place_fences opts w w' : same_place w w' -> fences opts w w'.
Proof. intros (Hg & Hh & Hs) Hw. split; [by split; rewrite ?Hh, ?Hg|]. unfold snap_sane. by rewrite Hs. Qed.

Lemma steps_weaken {A} (R S : Follower -> Follower -> Prop) (c : FM A) : (forall w w', R w w' -> S w w') -> steps R c -> steps S c.
Proof. intros H Hc w w' r E. by eapply H, Hc. Qed.

Lemma steps_chunk opts lc offset data : steps (fences opts) (on_chunk synced lc offset data).
Proof.
  unfold on_chunk. apply steps_bind; [apply _|by apply steps_modify|]. intros _. apply steps_bind; [apply _|by apply steps_gets|].
  intros w. assert (Hsp : forall A (c : FM A), steps same_place c -> steps (fences opts) c).
  { intros A c. apply steps_weaken. intros. by apply same_place_fences. }
  destruct (negb _); [apply Hsp, steps_send|]. apply steps_bind; [apply _| |].
  - apply Hsp. intros w1 w2 r. unfold blamed, lift. by intros [= <- <-].
  - intros [records consumed]. destruct (negb _); [by apply steps_lift|]. apply steps_bind; [apply _|apply Hsp, steps_follow|].
    intros _. by apply Hsp, steps_modify.
Qed.

Lemma steps_snapshot_end opts : steps (fences opts) (on_snapshot_end hash_order reopened_pool opts).
Proof.
  intros w w' r E Hw. unfold on_snapshot_end, gets, modify, id, mbind, sm_bind in E.
  destruct (w_snap w) as [s|] eqn:Es; [|by injection E as <- <-; split; [split|done]].
  unfold snap_sane in Hw. rewrite Es in Hw.
  assert (H0 : fenced opts w (set_snap None w) /\ snap_sane (set_snap None w)) by by split; [split|].
  destruct (negb (Zlen (sa_buf s) =? sa_total_bytes s)); [by injection E as <- <-|].
  destruct (_ && _) eqn:Hc; [by injection E as <- <-|].
  destruct (on_node _ _) as [[w1 [u|e|]]| |] eqn:En; try done; apply steps_on_node in En as (Hg & Hh & Hs); cbn in Hg, Hh, Hs.
  - injection E as <- <-. split; [|by unfold snap_sane; cbn; rewrite Hs]. split; cbn [w_resume_host w_generation]; [done|done|].
    intros Hhost Hgen. rewrite bool_decide_eq_true_2 in Hc by done. cbn [negb andb] in Hc.
    apply Z.eqb_neq in Hgen. rewrite Hgen in Hc. cbn [negb andb] in Hc. bsimp. done.
  - injection E as <- <-. split; [by split; rewrite ?Hh, ?Hg|]. unfold snap_sane. by rewrite Hs.
  - injection E as <- <-. split; [by split; rewrite ?Hh, ?Hg|]. unfold snap_sane. by rewrite Hs.
Qed.

Lemma steps_frame opts lc f : sane f -> steps (fences opts) (on_frame opts lc f).
Proof.
  intros Hf. assert (Hsp : forall A (c : FM A), steps same_place c -> steps (fences opts) c).
  { intros A c. apply steps_weaken. intros. by apply same_place_fences. }
  destruct f; cbn [Replica.on_frame]; try by apply steps_lift.
  - apply steps_chunk.
  - apply steps_bind; [apply _|by apply Hsp, steps_modify|intros _; apply Hsp, steps_send].
  - apply steps_bind; [apply _|by apply steps_gets|intros w; apply Hsp, steps_send].
  - destruct (_ <? _); [by apply steps_lift|]. apply steps_modify. intros w _. split; [by split|]. done.
  - intros w w' r E Hw. unfold gets, modify, id, mbind, sm_bind in E. unfold snap_sane in Hw. destruct (w_snap w) as [s|] eqn:Es; [|injection E as <- <-; split; [by split|]; unfold snap_sane; by rewrite Es].
    destruct (_ <? _); injection E as <- <-; (split; [by split|]); unfold snap_sane; [by rewrite Es|done].
  - apply steps_snapshot_end.
Qed.

Lemma steps_frames opts lc fs : Forall sane fs -> steps (fences opts) (each (on_frame opts lc) fs).
Proof.
  induction 1 as [|f fs Hf _ IH]; cbn [each]; [by apply steps_lift|].
  apply steps_bind; [apply _|by apply steps_frame|done].
Qed.

End fencing.

(** * Wide rows in a snapshot *)

Section wide.
Context {T P : Type} {KT : KvTree T} {KP : Pool P}.
Context (hash_order : gmap bytes (@Table T P) -> list bytes) (reopened_pool : bytes -> res P).

Lemma restore_missing key l (t : @Table T P) p0 p e : loc_wf l -> t_pool t = Some p0 -> pool_load p0 l = (p, Err e) ->
  restore_kv key (loc_encode l) t = Ret (set_pool (Some p) t, Err e).
Proof.
  intros Hl Ht Hp. destruct (locator_decode l Hl) as [H1 H2].
  unfold restore_kv, decode_stored, resolve_value, gets, mbind, sm_bind. rewrite H1. cbn [negb]. by rewrite Ht, H2, Hp.
Qed.

Lemma load_missing def key l kvs (d : @Data T P) p e : loc_wf l -> pool_load (d_pool d) l = (p, Err e) ->
  exists dbs, load_table (def, snap_rows ((key, loc_encode l) :: kvs)) d = Ret (mkData dbs (d_tables d) p, Err e).
Proof.
  intros Hl Hp. unfold load_table. cbn [fst snd snap_rows fmap list_fmap each]. unfold lend, mbind, sm_bind, out_bind.
  cbn [fst snd each load_row sr_key sr_value]. unfold load_row at 1. cbn [sr_key sr_value].
  destruct (Cost.split_once (td_name def)) as [[a b]|]; cbn [d_pool d_tables d_databases add_database];
    (rewrite (restore_missing key l _ (d_pool d) p e) by done); cbn [mret out_ret t_pool set_pool default from_option]; by eexists.
Qed.

(** The tables are built before the page file of the image replaces the old one,
    and building decodes every row: a row stored out of line is looked up in the
    pool the replica had, and when it is not there the snapshot is refused. *)
Lemma wide_row_blocks_snapshot dbs def key l kvs ts pages (n : @Node T P) p e :
  loc_wf l -> pool_load (d_pool (e_data (c_db (n_conn n)))) l = (p, Err e) ->
  exists n', apply_replica_snapshot hash_order reopened_pool dbs ((def, (key, loc_encode l) :: kvs) :: ts) pages n = Ret (n', Err e) /\
    d_tables (e_data (c_db (n_conn n'))) = d_tables (e_data (c_db (n_conn n))) /\ n_snapshot n' = n_snapshot n.
Proof.
  intros Hl Hp. destruct (load_missing def key l kvs (mkData (staged_databases dbs) ∅ (d_pool (e_data (c_db (n_conn n))))) p e Hl Hp) as [dbs' Hload].
  unfold apply_replica_snapshot, on_engine, stage_tables, mbind, sm_bind, out_bind. cbn [fmap list_fmap each fst snd].
  unfold mbind, sm_bind. rewrite Hload. cbn [mret out_ret]. eexists. split; [done|]. cbn [n_conn n_snapshot c_db]. by destruct n as [[[] ?] ? ? ? ?].
Qed.

End wide.

(** * The resume file *)

(** Printable ASCII without white space. *)
Definition word (s : bytes) : Prop := Forall (fun b => 33 <= b <= 126) s.

(** A host name other than the mark itself. *)
Definition host_wf (h : bytes) : Prop := word h /\ h <> [] /\ h <> str "promoted".

Lemma ws_len_word b r : 33 <= b <= 126 -> ws_len (b :: r) = 0%nat.
Proof.
  intros Hb. unfold ws_len, between. zb. cbn [andb orb].
  destruct r as [|b1 [|b2 r]]; zb; cbn [andb orb]; done.
Qed.

(** A word up to a blank (32) or a line feed (10). *)
Lemma split_word c s : forall cur rest, c = 32 \/ c = 10 -> word s -> cur ++ s <> [] ->
  split_ws 0 cur (s ++ c :: rest) = (cur ++ s) :: split_ws 0 [] rest.
Proof.
  induction s as [|b s IH]; intros cur rest Hc Hs Hne.
  - rewrite app_nil_r in *. destruct cur as [|x cur]; [done|]. by destruct Hc as [-> | ->].
  - apply Forall_cons in Hs as [Hb Hs]. cbn [split_ws app]. rewrite ws_len_word by done.
    rewrite IH; [by rewrite <- app_assoc|done|done|rewrite <- app_assoc; done].
Qed.

Lemma word_show z : 0 <= z -> word (show_Z z) /\ show_Z z <> [].
Proof.
  intros Hz. unfold show_Z. rewrite (proj2 (Z.ltb_ge z 0)) by lia. split; [|apply digits_ne].
  destruct (digits_spec z Hz) as [Hd _]. apply Forall_forall. intros c Hc.
  rewrite forallb_forall in Hd. apply list_elem_of_In in Hc. specialize (Hd c Hc). unfold is_digit in Hd. bsimp. lia.
Qed.

(** What is written to repl.offset is read back after a restart. *)
Lemma resume_roundtrip g o h promoted : 0 <= g < NO_GENERATION -> LOG_START <= o <= u64_MAX -> host_wf h ->
  read_resume (Some (resume_line g o h promoted)) true = (g, o, Some h, promoted).
Proof.
  intros Hg Ho (Hp & Hne & Hm). unfold NO_GENERATION, LOG_START in *. assert (HU : u64_MAX = 2 ^ 64 - 1) by done.
  destruct (word_show g ltac:(lia)) as [Pg Ng]. destruct (word_show o ltac:(lia)) as [Po No].
  assert (Hit : split_whitespace (resume_line g o h promoted) = show_Z g :: show_Z o :: h :: (if promoted then [str "promoted"] else [])).
  { unfold split_whitespace, resume_line.
    change (str " " ++ show_Z o ++ ?x) with (32 :: show_Z o ++ x). rewrite (split_word 32 (show_Z g) []) by auto.
    change (str " " ++ h ++ ?x) with (32 :: h ++ x). rewrite (split_word 32 (show_Z o) []) by auto. cbn [app]. do 2 f_equal.
    destruct promoted; cbn [app]; [|by rewrite (split_word 10 h []) by auto].
    change (str " promoted" ++ [10]) with (32 :: str "promoted" ++ [10]). rewrite (split_word 32 h []) by auto. done. }
  unfold read_resume. cbn [default from_option id]. rewrite Hit. cbn [head tail mbind option_bind].
  rewrite !parse_usize_show by lia. cbn [default from_option id].
  rewrite (proj2 (Z.eqb_neq g NO_GENERATION)) by (unfold NO_GENERATION; lia). rewrite (proj2 (Z.ltb_ge o LOG_START)) by (unfold LOG_START; lia).
  cbn [orb negb]. destruct promoted.
  - by rewrite bool_decide_eq_true_2.
  - by rewrite bool_decide_eq_false_2.
Qed.

(** ** A promoted node *)

Section promoted.
Context {T P : Type} {KT : KvTree T} {KP : Pool P} {HO : HashOrder}.
Context (synced : Z -> bool) (hash_order : gmap bytes (@Table T P) -> list bytes) (reopened_pool : bytes -> res P) (io_message : IoError -> bytes).

(** The loop of [run_replica], on one connection after the other. *)
Fixpoint run_rounds (opts : ReplicaOpts) (started_read_only : bool) (start_gen : Z) (rounds : nat) (ss : list Stream)
    (w : @Follower T P) : out (Follower * list (res bool)) :=
  match ss with
  | [] => Ret (w, [])
  | s :: ss =>
    '(w, r) ← run_round synced hash_order reopened_pool io_message opts started_read_only start_gen rounds s w;
    '(w, rs) ← run_rounds opts started_read_only start_gen rounds ss w; mret (w, r :: rs)
  end.

Lemma run_rounds_refuse opts ro gen rounds ss w : turn opts ro gen w = Refuse ->
  run_rounds opts ro gen rounds ss w = Ret (w, repeat (Ok false) (length ss)).
Proof.
  intros Ht. induction ss as [|s ss IH]; [done|]. cbn [run_rounds length repeat]. unfold run_round. rewrite Ht. cbn [mbind out_bind]. by rewrite IH.
Qed.

(** The round that ends the loop has written the mark. *)
Lemma detached opts ro gen rounds s w w' : run_round synced hash_order reopened_pool io_message opts ro gen rounds s w = Ret (w', Ok true) ->
  n_resume (w_node w') = Some (resume_line (n_generation (w_node w)) LOG_START (primary opts) true) /\ n_snapshot (w_node w') = n_snapshot (w_node w).
Proof.
  unfold run_round. destruct (turn _ _ _ _); [done| |].
  - unfold on_node, write_resume, modify, mbind, sm_bind. cbn. by intros [= <-].
  - destruct (stream_once _ _ _ _ _ _ _ w) as [[w1 r]| |]; [|done|done]. cbn [mbind out_bind]. destruct r; by intros [= _ ?].
Qed.

(** A restarted node that bears the mark refuses the upstream it left. *)
Lemma restarted_refuses opts ro gen (n : @Node T P) g : host_wf (primary opts) -> 0 <= g < NO_GENERATION ->
  n_resume n = Some (resume_line g LOG_START (primary opts) true) -> is_Some (n_snapshot n) -> turn opts ro gen (follower n) = Refuse.
Proof.
  intros Hh Hg Hr Hs. unfold follower. rewrite Hr, bool_decide_eq_true_2 by done.
  rewrite resume_roundtrip; [|done|unfold LOG_START, u64_MAX; lia|done]. unfold turn. cbn [w_promoted w_resume_host]. by rewrite bool_decide_eq_true_2.
Qed.

End promoted.

(** * Theorems *)

Section demo.

Definition demo_engine : @Engine (gmap bytes bytes) RefPool :=
  mkEngine (initial ref_pool) [] (Zlen wal_header) ∅ 1 1 0 vs_new None store_new 0 5 true.

Definition demo_node : @Node (gmap bytes bytes) RefPool := mkNode (mkConn demo_engine session_default) 3 (Some []) None (str "10.0.0.1:7000").

Definition demo_opts : ReplicaOpts := mkOpts (str "10.0.0.1:7000") (str "root") (str "s3cret").

Definition demo_follower : @Follower (gmap bytes bytes) RefPool :=
  mkFollower demo_node 7 8 (Some (str "10.0.0.1:7000")) false ∅ None 0 [].

Definition demo_reopened (pages : bytes) : res RefPool := Ok ref_pool.

(** Two transactions, cut into chunks in the middle of each. *)
Definition demo_chunks : list (list Record_) :=
  [[demo_create; demo_put 1 7 40]; [RCommit 1 None; demo_put 2 8 50]; [RCommit 2 (Some 9)]].

Definition demo_stream : list (nat * bytes) :=
  Eval vm_compute in zip [0; 3; 1]%nat (default [] (mapM (fun f => match write_frame f with Ok b => Some b | _ => None end) (wal_chunks 8 demo_chunks))).

Lemma demo_mirrors : mirrors ∅ empty_db demo_follower.
Proof. split; [apply (initial_rep (HP := ref_pool_ok)), demo_pool_holds|done|done]. Qed.


End demo.

(** C4: A connection that delivers the primary's log in chunks of whole
    records, however transactions are spread over the chunks and however long
    the line is quiet in between, leaves the replica with exactly the database
    that recovery would build from those records: the effects of the committed
    transactions in commit order, and nothing of the others; its position is
    the end of what it was sent.  Only a pool that refuses a wide row stops it
    before, and only the trees may keep it from returning. *)
Theorem replica_follows_log {T P : Type} {KT : KvTree T} {HT : KvTreeOk T} {KP : Pool P} {HP : PoolOk P} {HO : HashOrder}
    (synced : Z -> bool) (hash_order : gmap bytes (@Table T P) -> list bytes) (reopened_pool : bytes -> res P)
    (io_message : IoError -> bytes) (opts : ReplicaOpts) (css : list (list Record_)) (sent : list (nat * bytes)) (rounds : nat)
    (w : @Follower T P) (A : ADb) (G : Owned) :
  (forall upto, synced upto = true) -> mirrors G A w -> w_pending w = ∅ ->
  Forall (Forall record_wf) css -> records_fit A (batches ∅ (reread_record <$> mjoin css)) ->
  Forall frame_typed (wal_chunks (w_applied w) css) ->
  Forall2 (fun f e => write_frame f = Ok e.2) (wal_chunks (w_applied w) css) sent -> (length (wire sent) < rounds)%nat ->
  match stream_rounds synced hash_order reopened_pool io_message rounds opts false (wire sent) w with
  | Ret (w', r) => caught_up io_message ∅ (w_applied w) css A w' r
  | Panics => False
  | Fuel => may_hang
  end.
Proof.
  intros Hs Hw Hp Hwf Hfit Ht Hsent Hr. rewrite <- Hp in Hfit |- *.
  exact (stream_chunks synced hash_order reopened_pool io_message opts css sent rounds w A G Hs Hw Hwf Ht Hsent Hfit Hr).
Qed.

Lemma demo_chunks_wf : Forall (Forall record_wf) demo_chunks.
Proof.
  unfold demo_chunks, record_wf, fields_wf, table_def_wf, str_wf, bytes_wf, MAX_RECORD. widths. cbn.
  repeat (split || constructor || reflexivity || discriminate).
Qed.

Lemma demo_chunks_fit : records_fit empty_db (batches ∅ (reread_record <$> mjoin demo_chunks)).
Proof.
  assert (E : batches ∅ (reread_record <$> mjoin demo_chunks) = [demo_create; demo_put 1 7 40; demo_put 2 8 50]) by (vm_compute; reflexivity).
  rewrite E. split; [exact I|]. split; [by apply (demo_created_fits 1 7 40)|]. split; [|exact I]. intros a Hl.
  cbn [effect demo_put on_tables a_tables] in Hl. apply lookup_alter_Some in Hl as [(_ & a0 & Ha & ->)|[Hne _]]; [|by destruct Hne].
  destruct (demo_created_fits 2 8 50 ltac:(done) ltac:(done) a0 Ha) as (row & Hr & Hw). exists row. split; [exact Hr|].
  unfold put_row. by destruct (decode_row _ _).
Qed.

Lemma replica_follows_log_witness :
  match stream_rounds (fun _ => true) demo_order demo_reopened demo_message 1000 demo_opts false (wire demo_stream) demo_follower with
  | Ret (w', r) => caught_up demo_message ∅ 8 demo_chunks empty_db w' r
  | Panics => False
  | Fuel => False
  end.
Proof.
  apply (replica_follows_log (HT := gmap_kv_ok) (HP := ref_pool_ok) (fun _ => true) demo_order demo_reopened demo_message demo_opts
    demo_chunks demo_stream 1000 demo_follower empty_db ∅).
  - done.
  - exact demo_mirrors.
  - done.
  - exact demo_chunks_wf.
  - exact demo_chunks_fit.
  - repeat apply Forall_cons_2; try apply Forall_nil_2; by split.
  - repeat apply Forall2_cons_2; try apply Forall2_nil_2; vm_compute; reflexivity.
  - apply Nat.ltb_lt. vm_compute. reflexivity.
Defined.

(** C15: A replica that is more than one chunk behind can stop for good.  When
    the primary's log goes on for more than 64 KiB behind the replica's position
    and no record ends exactly 64 KiB behind it, the primary cuts a record in
    two, the replica refuses the chunk and reconnects; and however often it
    reconnects and whatever the primary appends meanwhile, every connection ends
    with the same error and the replica stays where it is. *)
Theorem torn_chunk_stops_replica {T P : Type} {KT : KvTree T} {KP : Pool P} {HO : HashOrder}
    (synced : Z -> bool) (hash_order : gmap bytes (@Table T P) -> list bytes) (reopened_pool : bytes -> res P)
    (opts : ReplicaOpts) (before : bytes) (recs : list Record_) (ps : list Source) (w : @Follower T P) :
  w_applied w = LOG_START + Zlen before -> w_generation w <> NO_GENERATION ->
  Forall record_wf recs -> CHUNK_BYTES < Zlen (log_bytes recs) -> ~ ends_at CHUNK_BYTES recs ->
  Forall (still_has (w_generation w) before recs) ps ->
  exists w', keep_trying synced hash_order reopened_pool opts ps w = Ret (w', repeat (Err torn) (length ps)) /\
    w_node w' = w_node w /\ w_generation w' = w_generation w /\ w_applied w' = w_applied w.
Proof.
  intros Ha Hg Hwf Hlen Hend Hps. remember (w_generation w) as gen eqn:Egen. revert w Ha Egen.
  induction Hps as [|p ps Hp _ IH]; intros w Ha Egen; [by exists w|].
  cbn [keep_trying length repeat]. unfold mbind, out_bind.
  rewrite (reconnect_torn synced hash_order reopened_pool opts gen before recs p w) by done.
  destruct (IH (set_snap None (set_pending ∅ w)) Ha Egen) as (w' & -> & H1 & H2 & H3). exists w'. done.
Qed.

(** One row of 70000 bytes. *)
Definition demo_long : list Record_ := [RPut 1 (str "db.users") [1; 2] (repeat 7 (Z.to_nat 70000)); RCommit 1 (Some 5)].

Definition demo_source (more : bytes) : Source := mkSource 7 (log_bytes demo_long ++ more) [] 8.

Lemma demo_long_end k : Zlen (log_bytes (take k demo_long)) <> CHUNK_BYTES.
Proof. destruct k as [|[|[|k]]]; vm_compute; discriminate. Qed.

Lemma torn_chunk_stops_replica_witness :
  exists w', keep_trying (fun _ => true) demo_order demo_reopened demo_opts [demo_source []; demo_source [1; 2; 3]] demo_follower =
      Ret (w', [Err torn; Err torn]) /\ w_applied w' = 8.
Proof.
  destruct (torn_chunk_stops_replica (fun _ => true) demo_order demo_reopened demo_opts [] demo_long [demo_source []; demo_source [1; 2; 3]] demo_follower)
    as (w' & E & _ & _ & Ha).
  - done.
  - done.
  - repeat apply Forall_cons_2; try apply Forall_nil_2; (split; [|apply Z.leb_le; vm_compute; reflexivity]).
    + by repeat split.
    + by repeat split.
  - apply Z.ltb_lt. vm_compute. reflexivity.
  - intros [k Hk]. by apply (demo_long_end k).
  - repeat apply Forall_cons_2; try apply Forall_nil_2; (split; [done|by eexists]).
  - exists w'. split; [exact E|exact Ha].
Defined.

(** C25: Generation fencing.  (1) A replica that has taken a snapshot from its
    upstream never goes back to an older generation of it, whatever frames the
    upstream sends, as long as none announces a snapshot of generation
    [u64::MAX]: that value is also the mark for "no generation", and the fence
    lets it through and everything after it ([max_generation_defeats_fence]).
    (2) A replica that was promoted while it followed an upstream leaves a mark
    in its resume file when its loop ends; restarted from that file, it never
    connects to that upstream again, and is not changed by what the upstream
    would send, in any number of rounds. *)
Theorem generation_fencing {T P : Type} {KT : KvTree T} {KP : Pool P} {HO : HashOrder}
    (synced : Z -> bool) (hash_order : gmap bytes (@Table T P) -> list bytes) (reopened_pool : bytes -> res P)
    (io_message : IoError -> bytes) (opts : ReplicaOpts) :
  (forall legacy_cols fs w w' r,
    w_resume_host w = Some (primary opts) -> w_generation w <> NO_GENERATION -> snap_sane w -> Forall sane fs ->
    each (on_frame synced hash_order reopened_pool opts legacy_cols) fs w = Ret (w', r) ->
    w_resume_host w' = Some (primary opts) /\ w_generation w' <> NO_GENERATION /\ w_generation w <= w_generation w') /\
  (forall started_read_only start_gen rounds s w w',
    host_wf (primary opts) -> 0 <= n_generation (w_node w) < NO_GENERATION -> is_Some (n_snapshot (w_node w)) ->
    run_round synced hash_order reopened_pool io_message opts started_read_only start_gen rounds s w = Ret (w', Ok true) ->
    forall ro gen k ss, run_rounds synced hash_order reopened_pool io_message opts ro gen k ss (follower (w_node w')) =
      Ret (follower (w_node w'), repeat (Ok false) (length ss))).
Proof.
  split.
  - intros legacy_cols fs w w' r Hh Hg Hs Hf E.
    destruct (steps_frames synced hash_order reopened_pool opts legacy_cols fs Hf w w' r E Hs) as [[H1 H2 H3] _]. auto.
  - intros sro start rounds s w w' Hh Hg Hs E ro gen k ss. apply detached in E as [Hr Hsn].
    apply run_rounds_refuse. apply (restarted_refuses opts ro gen (w_node w') _ Hh Hg Hr). by rewrite Hsn.
Qed.

Definition demo_stale : list Frame := [SnapshotBegin 0 8 6; SnapshotEnd].

(** A follower whose node was made a primary while it ran (generation 3, started
    at 2). *)
Definition demo_promoted : @Follower (gmap bytes bytes) RefPool :=
  set_node (set_role false [] (w_node demo_follower)) demo_follower.

Lemma generation_fencing_witness :
  (exists w', each (on_frame (fun _ => true) demo_order demo_reopened demo_opts false) demo_stale demo_follower =
      Ret (w', Err (CodecError (str "refusing snapshot from older generation 6 (local 7)"))) /\ 7 <= w_generation w') /\
  exists w', run_round (fun _ => true) demo_order demo_reopened demo_message demo_opts true 2 9 [] demo_promoted = Ret (w', Ok true) /\
    run_rounds (fun _ => true) demo_order demo_reopened demo_message demo_opts true 3 9 [[]; []] (follower (w_node w')) =
      Ret (follower (w_node w'), [Ok false; Ok false]).
Proof.
  destruct (generation_fencing (fun _ => true) demo_order demo_reopened demo_message demo_opts) as [Hfence Hmark]. split.
  - eexists. split; [vm_compute; reflexivity|].
    eapply (Hfence false demo_stale demo_follower); [done|done|done|repeat apply Forall_cons_2; try apply Forall_nil_2; done|vm_compute; reflexivity].
  - eexists. split; [vm_compute; reflexivity|].
    refine (Hmark true 2 9%nat [] demo_promoted _ _ _ _ _ true 3 9%nat [[]; []]);
      [split; [repeat constructor; done|by split]|done|by eexists|vm_compute; reflexivity].
Defined.

(** The fence is down after a snapshot of generation [u64::MAX]: the next one may
    be older than what the replica had. *)
Definition empty_image : bytes :=
  Eval vm_compute in default [] (match dump_stream 1700000000 (mkDecoded [str "default"] [] [] []) with Ok i => Some i | _ => None end).
Definition snapshot_frames (g : Z) : list Frame := [SnapshotBegin (Zlen empty_image) 8 g; SnapshotChunk empty_image; SnapshotEnd].

Lemma max_generation_defeats_fence :
  w_generation demo_follower = 7 /\
  match each (on_frame (fun _ => true) demo_order demo_reopened demo_opts false) (snapshot_frames NO_GENERATION ++ snapshot_frames 6) demo_follower with
  | Ret (w', Ok _) => w_generation w' = 6
  | _ => False
  end.
Proof. vm_compute. split; reflexivity. Qed.

(** A transaction that creates a table and a database, cut by a chunk boundary. *)
Definition demo_cut : @Follower (gmap bytes bytes) RefPool :=
  match on_frame (fun _ => true) demo_order demo_reopened demo_opts false (WalChunk 8 (log_bytes [demo_create])) demo_follower with
  | Ret (w, _) => w | _ => demo_follower
  end.

Definition demo_rejoined : @Follower (gmap bytes bytes) RefPool :=
  match reconnect (fun _ => true) demo_order demo_reopened demo_opts
      (mkSource 7 (log_bytes [demo_create; RCreateDatabase 1 (str "x"); RCommit 1 (Some 5)]) [] 8) demo_cut with
  | Ret (w, _) => w | _ => demo_follower
  end.

(** The records before a lost connection are forgotten although the position is
    behind them: the rest of the transaction is applied without them. *)
Lemma reconnect_forgets_pending :
  w_applied demo_cut = 8 + Zlen (log_bytes [demo_create]) /\
  w_applied demo_rejoined = 8 + Zlen (log_bytes [demo_create; RCreateDatabase 1 (str "x"); RCommit 1 (Some 5)]) /\
  d_databases (e_data (c_db (n_conn (w_node demo_rejoined)))) = {[str "default"; str "x"]} /\
  d_tables (e_data (c_db (n_conn (w_node demo_rejoined)))) = ∅.
Proof. vm_compute. repeat split. Qed.
