(* ===== verification/Packet.v ===== *)
(** MySQL packets (crates/server/src/wire/packet.rs): length-encoded integers
    and strings, the framing of payloads, and the OK, ERR and EOF payloads.

    The readers take the payload and a position they advance, also when they
    give up: [Ok (None, pos)].  Offsets wrap as in a release build, where a slice
    whose end lies before its start still panics. *)
From stdpp Require Import base list strings.
From Stdlib Require Import ZArith Lia.
From S2P Require Import Prelude Machine.

Definition MAX_PACKET : Z := 0xFFFFFF.
Definition STATUS_AUTOCOMMIT : Z := 0x0002.

(** [fn f(buf: &[u8], pos: &mut usize) -> Option<T>] *)
Definition Opt (A : Type) : Type := bytes -> Z -> res (option A * Z).

#[global] Instance opt_ret : MRet Opt := fun A a _ pos => Ok (Some a, pos).
#[global] Instance opt_bind : MBind Opt := fun A B k m buf pos =>
  match m buf pos with
  | Ok (Some a, pos) => k a buf pos
  | Ok (None, pos) => Ok (None, pos)
  | Err e => Err e
  | Panic => Panic
  end.

Definition nothing {A} : Opt A := fun _ pos => Ok (None, pos).

(** [*pos + n] in [usize]. *)
Definition end_of_read (pos n : Z) : Z := wrap_u 64 (pos + n).

(** [if *pos + n > buf.len() { return None }], then [buf[*pos..*pos + n]] and
    [*pos += n]. *)
Definition opt_slice (n : Z) : Opt bytes := fun buf pos =>
  let stop := end_of_read pos n in
  if Zlen buf <? stop then Ok (None, pos)
  else if stop <? pos then Panic
  else Ok (Some (take (Z.to_nat n) (drop (Z.to_nat pos) buf)), stop).

(** [if *pos >= buf.len() { return None }], then [buf[*pos]] and [*pos += 1]. *)
Definition opt_byte : Opt Z := fun buf pos =>
  match buf !! Z.to_nat pos with Some b => Ok (Some b, pos + 1) | None => Ok (None, pos) end.

(** * Length-encoded integers and strings *)

Definition enc_lenenc_int (v : Z) : bytes :=
  if v <? 251 then [v]
  else if v <? 0x10000 then 0xFC :: to_le 2 v
  else if v <? 0x1000000 then 0xFD :: to_le 3 v
  else 0xFE :: to_le 8 v.

(** [read_le]: [n] bytes, least significant first. *)
Definition read_le (n : Z) : Opt Z := b ← opt_slice n; mret (of_le b).

Definition dec_lenenc_int : Opt Z :=
  first ← opt_byte;
  if first <? 251 then mret first
  else if first =? 251 then nothing
  else if first =? 0xFC then read_le 2
  else if first =? 0xFD then read_le 3
  else if first =? 0xFE then read_le 8
  else nothing.

Definition enc_lenenc_str (s : bytes) : bytes := enc_lenenc_int (Zlen s) ++ s.

Definition read_lenenc_bytes : Opt bytes :=
  first ← opt_byte;
  if first =? 0xFB then mret []
  else
    len ← (if first <? 251 then mret first
           else if first =? 0xFC then read_le 2
           else if first =? 0xFD then read_le 3
           else if first =? 0xFE then read_le 8
           else nothing);
    opt_slice len.

(** * Framing *)

(** The header of a chunk: its length in three bytes, the sequence number. *)
Definition chunk_header (len seq : Z) : bytes :=
  [Z.land len 0xFF; Z.land (Z.shiftr len 8) 0xFF; Z.land (Z.shiftr len 16) 0xFF; seq].

Definition frame_payload (payload : bytes) (seq : Z) : bytes := chunk_header (Zlen payload) seq ++ payload.

(** The bytes [write_packet] writes and the sequence number after them.  Every
    round takes at least one byte of the payload. *)
Fixpoint write_chunks (fuel : nat) (rest : bytes) (seq : Z) : bytes * Z :=
  match fuel, rest with
  | S fuel, _ :: _ =>
    let chunk := Z.min (Zlen rest) MAX_PACKET in
    let out := chunk_header chunk seq ++ take (Z.to_nat chunk) rest in
    let rest := drop (Z.to_nat chunk) rest in
    let seq := wrap_u 8 (seq + 1) in
    if (chunk =? MAX_PACKET) && (Zlen rest =? 0) then (out ++ chunk_header 0 seq, wrap_u 8 (seq + 1))
    else let '(more, seq) := write_chunks fuel rest seq in (out ++ more, seq)
  | _, _ => ([], seq)
  end.

Definition write_packet (payload : bytes) (seq : Z) : bytes * Z :=
  match payload with
  | [] => (chunk_header 0 seq, wrap_u 8 (seq + 1))
  | _ => write_chunks (length payload) payload seq
  end.

Definition packet_eof : Error := Io (str "failed to fill whole buffer").

(** [read_exact]: the bytes and what follows them. *)
Definition packet_exact (n : Z) (r : bytes) : res (bytes * bytes) :=
  if Zlen r <? n then Err packet_eof else Ok (take (Z.to_nat n) r, drop (Z.to_nat n) r).

(** A payload in chunks, each of at most [max] bytes: the sequence number of
    the first and their concatenation.  Every round takes a header. *)
Fixpoint read_chunks (fuel : nat) (max : Z) (first_seq : option Z) (out r : bytes) : res ((Z * bytes) * bytes) :=
  match fuel with
  | O => Panic
  | S fuel =>
    '(hdr, r) ← packet_exact 4 r;
    let byte i := nth i hdr 0 in
    let len := Z.lor (Z.lor (byte 0%nat) (Z.shiftl (byte 1%nat) 8)) (Z.shiftl (byte 2%nat) 16) in
    let seq := byte 3%nat in
    let first := default seq first_seq in
    if max <? len then Err (Io (str "packet too large"))
    else
      '(chunk, r) ← packet_exact len r;
      if len <? MAX_PACKET then Ok ((first, out ++ chunk), r)
      else read_chunks fuel max (Some first) (out ++ chunk) r
  end.

Definition read_packet (max : Z) (r : bytes) : res ((Z * bytes) * bytes) := read_chunks (S (length r)) max None [] r.

(** * Payloads *)

Definition ok_payload_with_status (affected : Z) (message : bytes) (status : Z) : bytes :=
  0 :: enc_lenenc_int affected ++ enc_lenenc_int 0 ++ to_le 2 status ++ to_le 2 0 ++ message.

Definition ok_payload (affected : Z) (message : bytes) : bytes := ok_payload_with_status affected message STATUS_AUTOCOMMIT.

(** The first five bytes of the state, padded with zeros. *)
Definition sqlstate5 (sqlstate : bytes) : bytes := take 5 (sqlstate ++ str "00000").

Definition err_payload (code : Z) (sqlstate message : bytes) : bytes :=
  0xFF :: to_le 2 code ++ str "#" ++ sqlstate5 sqlstate ++ message.

Definition eof_payload_with_status (status : Z) : bytes := [0xFE; 0; 0] ++ to_le 2 status.

Definition eof_payload : bytes := eof_payload_with_status STATUS_AUTOCOMMIT.

Definition mysql_error_for (e : Error) : Z * bytes :=
  match e with
  | TableNotFound _ => (1146, str "42S02")
  | TableExists _ => (1050, str "42S01")
  | DuplicateKey _ => (1062, str "23000")
  | ColumnNotFound _ => (1054, str "42S22")
  | ParseError _ | NotSupported _ => (1064, str "42000")
  | ReadOnlyReplica => (1290, str "HY000")
  | AccessDenied _ _ _ => (1142, str "42000")
  | InvalidQuery _ => (1241, str "21000")
  | ExecutionError _ => (1242, str "21000")
  | InvalidOperation _ => (1317, str "HY000")
  | _ => (1105, str "HY000")
  end.

Definition write_err (e : Error) (seq : Z) : bytes * Z :=
  let '(code, state) := mysql_error_for e in write_packet (err_payload code state (show_error e)) seq.

Definition write_err_msg (code : Z) (msg : bytes) (seq : Z) : bytes * Z := write_packet (err_payload code (str "HY000") msg) seq.

(** * Lemmas *)

(** ** Length-encoded values *)

(** [d] reads exactly [bs] as [x], wherever [bs] sits in a payload a process
    can hold. *)
Definition opt_decodes {A} (d : Opt A) (bs : bytes) (x : A) : Prop :=
  forall pre post, Zlen (pre ++ bs ++ post) < 2 ^ 63 -> d (pre ++ bs ++ post) (Zlen pre) = Ok (Some x, Zlen pre + Zlen bs).

Lemma opt_decodes_ret {A} (x : A) : opt_decodes (mret x) [] x.
Proof. intros pre post _. cbn. by rewrite Z.add_0_r. Qed.

Lemma opt_decodes_bind {A B} (d : Opt A) (k : A -> Opt B) b1 b2 x y :
  opt_decodes d b1 x -> opt_decodes (k x) b2 y -> opt_decodes (d ≫= k) (b1 ++ b2) y.
Proof.
  intros Hd Hk pre post Hl. rewrite <- (app_assoc b1) in *. unfold mbind, opt_bind. rewrite (Hd pre (b2 ++ post) Hl).
  specialize (Hk (pre ++ b1) post). rewrite <- (app_assoc pre) in Hk. rewrite <- Zlen_app, (Hk Hl), !Zlen_app. by rewrite Z.add_assoc.
Qed.

Lemma opt_decodes_last {A B} (d : Opt A) (k : A -> Opt B) b x y :
  opt_decodes d b x -> opt_decodes (k x) [] y -> opt_decodes (d ≫= k) b y.
Proof. intros Hd Hk. rewrite <- (app_nil_r b). by eapply opt_decodes_bind. Qed.

Lemma opt_decodes_byte b : opt_decodes opt_byte [b] b.
Proof. intros pre post _. unfold opt_byte. cbn [app]. rewrite Nat2Z.id, list_lookup_middle by done. done. Qed.

Lemma opt_decodes_slice bs n : n = Zlen bs -> opt_decodes (opt_slice n) bs bs.
Proof.
  intros -> pre post Hl. unfold opt_slice, end_of_read. rewrite !Zlen_app in *. rewrite wrap_u_id by (widths; lia). zb.
  by rewrite !Nat2Z.id, drop_app_length, take_app_length.
Qed.

Lemma opt_decodes_le w v : in_u (8 * Z.of_nat w) v -> opt_decodes (read_le (Z.of_nat w)) (to_le w v) v.
Proof.
  intros Hv. unfold read_le. eapply opt_decodes_last; [apply opt_decodes_slice; by rewrite Zlen_to_le|].
  rewrite (of_le_to_le_u w v Hv). apply opt_decodes_ret.
Qed.

Lemma lenenc_int v : u64 v -> opt_decodes dec_lenenc_int (enc_lenenc_int v) v.
Proof.
  intros Hv. unfold dec_lenenc_int, enc_lenenc_int.
  destruct (Z.ltb_spec v 251).
  { eapply opt_decodes_last; [apply opt_decodes_byte|]. zb. apply opt_decodes_ret. }
  destruct (Z.ltb_spec v 0x10000); [|destruct (Z.ltb_spec v 0x1000000)];
    change (?x :: to_le ?w v) with ([x] ++ to_le w v); (eapply opt_decodes_bind; [apply opt_decodes_byte|]); zb;
    [apply (opt_decodes_le 2)|apply (opt_decodes_le 3)|apply (opt_decodes_le 8)]; widths; lia.
Qed.

Lemma lenenc_str s : Zlen s < 2 ^ 62 -> opt_decodes read_lenenc_bytes (enc_lenenc_str s) s.
Proof.
  intros Hs. unfold enc_lenenc_str, read_lenenc_bytes, enc_lenenc_int.
  destruct (Z.ltb_spec (Zlen s) 251).
  { eapply opt_decodes_bind; [apply opt_decodes_byte|]. zb. rewrite <- (app_nil_l s) at 2.
    eapply opt_decodes_bind; [apply opt_decodes_ret|]. by apply opt_decodes_slice. }
  destruct (Z.ltb_spec (Zlen s) 0x10000); [|destruct (Z.ltb_spec (Zlen s) 0x1000000)];
    change ((?x :: to_le ?w ?v) ++ s) with ([x] ++ to_le w v ++ s); (eapply opt_decodes_bind; [apply opt_decodes_byte|]); zb;
    (eapply opt_decodes_bind; [|by apply opt_decodes_slice]);
    [apply (opt_decodes_le 2)|apply (opt_decodes_le 3)|apply (opt_decodes_le 8)]; widths; lia.
Qed.

(** A length near [2 ^ 64] makes [*pos + len] wrap, and the slice panics. *)
Example lenenc_panics : read_lenenc_bytes (0xFE :: to_le 8 u64_MAX) 0 = Panic.
Proof. by vm_compute. Qed.

(** ** Packets *)

Lemma packet_exact_app b rest n : n = Zlen b -> packet_exact n (b ++ rest) = Ok (b, rest).
Proof. intros ->. unfold packet_exact. rewrite Zlen_app. zb. by rewrite Nat2Z.id, take_app_length, drop_app_length. Qed.

Lemma header_len len : 0 <= len < 2 ^ 24 ->
  Z.lor (Z.lor (Z.land len 0xFF) (Z.shiftl (Z.land (Z.shiftr len 8) 0xFF) 8)) (Z.shiftl (Z.land (Z.shiftr len 16) 0xFF) 16) = len.
Proof.
  intros Hl. change 0xFF with (Z.ones 8). apply Z.bits_inj'. intros n Hn.
  rewrite !Z.lor_spec, Z.land_spec. rewrite !Z.shiftl_spec, !Z.land_spec by done.
  destruct (Z.ltb_spec n 8).
  { rewrite (Z.ones_spec_low 8) by lia. rewrite !(Z.testbit_neg_r _ (n - _)) by lia. cbn. by rewrite andb_true_r, !orb_false_r. }
  rewrite (Z.ones_spec_high 8 n), andb_false_r by lia. rewrite (Z.shiftr_spec len 8) by lia. rewrite Z.sub_add.
  destruct (Z.ltb_spec n 16).
  { rewrite (Z.ones_spec_low 8) by lia. rewrite !(Z.testbit_neg_r _ (n - 16)) by lia. cbn. by rewrite andb_true_r, orb_false_r. }
  rewrite (Z.ones_spec_high 8 (n - 8)), andb_false_r by lia. rewrite (Z.shiftr_spec len 16) by lia. rewrite Z.sub_add.
  destruct (Z.ltb_spec n 24); [by rewrite (Z.ones_spec_low 8), andb_true_r by lia|].
  rewrite (Z.ones_spec_high 8 (n - 16)), andb_false_r by lia. symmetry. destruct (Z.eq_dec len 0) as [->|]; [apply Z.bits_0|].
  apply Z.bits_above_log2; [lia|]. assert (Z.log2 len < 24); [apply Z.log2_lt_pow2; lia|lia].
Qed.

(** One chunk of a packet. *)
Lemma read_chunk fuel max fs out b seq rest : Zlen b <= MAX_PACKET -> MAX_PACKET <= max ->
  read_chunks (S fuel) max fs out (chunk_header (Zlen b) seq ++ b ++ rest) =
  if Zlen b <? MAX_PACKET then Ok ((default seq fs, out ++ b), rest)
  else read_chunks fuel max (Some (default seq fs)) (out ++ b) rest.
Proof.
  intros Hb Hm. cbn [read_chunks]. rewrite (packet_exact_app (chunk_header _ _)) by done. cbn [mbind res_bind chunk_header nth].
  unfold MAX_PACKET in *. rewrite header_len by lia. zb. by rewrite packet_exact_app.
Qed.

Lemma chunks_roundtrip max rest : MAX_PACKET <= max -> forall f p seq fs out fuel, p <> [] -> (length p <= f)%nat ->
  (length (write_chunks f p seq).1 < fuel)%nat ->
  read_chunks fuel max fs out ((write_chunks f p seq).1 ++ rest) = Ok ((default seq fs, out ++ p), rest).
Proof.
  intros Hm. induction f as [|f IH]; intros p seq fs out fuel Hp Hf Hl; [destruct p; cbn in Hf; [done|lia]|].
  destruct fuel as [|fuel]; [lia|]. assert (0 < Zlen p) by (destruct p; [done|cbn; lia]). assert (HM : 0 < MAX_PACKET) by done.
  assert (Hw : write_chunks (S f) p seq =
    let c := Z.min (Zlen p) MAX_PACKET in
    let b := take (Z.to_nat c) p in let q := drop (Z.to_nat c) p in
    let out := chunk_header (Zlen b) seq ++ b in let seq := wrap_u 8 (seq + 1) in
    if (c =? MAX_PACKET) && (Zlen q =? 0) then (out ++ chunk_header 0 seq, wrap_u 8 (seq + 1))
    else let '(more, seq) := write_chunks f q seq in (out ++ more, seq)).
  { cbv zeta. replace (Zlen (take _ p)) with (Z.min (Zlen p) MAX_PACKET) by (rewrite length_take; lia). by destruct p. }
  rewrite Hw in *. cbv zeta in *. set (c := Z.min (Zlen p) MAX_PACKET) in *.
  assert (Hc : 0 < c <= MAX_PACKET /\ c <= Zlen p) by (unfold c; lia).
  assert (Hb : Zlen (take (Z.to_nat c) p) = c) by (rewrite length_take; lia).
  assert (Hq : Zlen (drop (Z.to_nat c) p) = Zlen p - c) by (rewrite length_drop; lia).
  pose proof (take_drop (Z.to_nat c) p) as Hsplit.
  set (b := take (Z.to_nat c) p) in *. set (q := drop (Z.to_nat c) p) in *. clearbody b q.
  destruct (Z.eqb_spec c MAX_PACKET) as [Hfull|Hpart]; destruct (Z.eqb_spec (Zlen q) 0) as [H0|H0]; cbn [andb fst] in *.
  - rewrite <- !(app_assoc _ _ rest), <- (app_assoc _ b), read_chunk by lia. rewrite Hb. zb.
    destruct q; [|cbn in H0; lia]. rewrite app_nil_r in Hsplit. subst b.
    rewrite !length_app in Hl. destruct fuel as [|fuel]; [cbn in Hl; lia|].
    pose proof (read_chunk fuel max (Some (default seq fs)) (out ++ p) [] (wrap_u 8 (seq + 1)) rest) as Hlast.
    change (Zlen (@nil Z)) with 0 in Hlast. rewrite app_nil_l in Hlast. rewrite Hlast by lia. zb. by rewrite app_nil_r.
  - destruct (write_chunks f q _) as [more s'] eqn:Em. cbn [fst] in *.
    rewrite <- !(app_assoc _ _ rest), <- (app_assoc _ b), read_chunk by lia. rewrite Hb. zb.
    pose proof (IH q (wrap_u 8 (seq + 1)) (Some (default seq fs)) (out ++ b) fuel) as IHq. rewrite Em in IHq. cbn [fst default] in IHq.
    rewrite IHq; [by rewrite <- app_assoc, Hsplit|by intros ->|lia|]. rewrite !length_app in Hl. cbn in Hl. lia.
  - destruct q; [|cbn in H0; lia]. rewrite app_nil_r in Hsplit. subst b.
    assert (Hn : forall s, write_chunks f [] s = ([], s)) by (intros s; by destruct f). rewrite Hn in *. cbn [fst] in *. rewrite app_nil_r in *.
    rewrite <- app_assoc, read_chunk by lia. rewrite Hb. by zb.
  - exfalso. lia.
Qed.

(** What the server writes as one packet, a client (or the server) that takes
    chunks of any size reads back as that payload and its sequence number,
    leaving what follows. *)
Lemma packet_roundtrip payload seq max rest : MAX_PACKET <= max ->
  read_packet max ((write_packet payload seq).1 ++ rest) = Ok ((seq, payload), rest).
Proof.
  intros Hm. unfold read_packet, write_packet. destruct payload as [|x payload].
  - cbn [fst]. pose proof (read_chunk (length (chunk_header 0 seq ++ rest)) max None [] [] seq rest) as Hr.
    change (Zlen (@nil Z)) with 0 in Hr. rewrite app_nil_l in Hr. by rewrite Hr.
  - rewrite (chunks_roundtrip max rest Hm); [done|done|lia|]. rewrite length_app. lia.
Qed.
