(* ===== verification/Sha.v ===== *)
(** SHA-256 and SHA-1 (crates/server/src/auth.rs), on 32-bit words that wrap.

    The length of a digest and that the padding fills whole chunks are proved;
    the published test vectors of the source's unit tests are checked by
    evaluation. *)
From stdpp Require Import base list strings.
From Stdlib Require Import ZArith Lia.
From S2P Require Import Prelude Machine.

(** * 32-bit words *)

Definition wrapping_add (a b : Z) : Z := wrap_u 32 (a + b).
Definition rotate_left (x n : Z) : Z := wrap_u 32 (Z.lor (Z.shiftl x n) (Z.shiftr x (32 - n))).
Definition rotate_right (x n : Z) : Z := rotate_left x (32 - n).
Definition not32 (x : Z) : Z := Z.lxor x (2 ^ 32 - 1).

Infix "+w" := wrapping_add (at level 50, left associativity) : Z_scope.
Infix "^w" := Z.lxor (at level 48, left associativity) : Z_scope.
Infix "&w" := Z.land (at level 46, left associativity) : Z_scope.

(** * Padding and chunks *)

(** The message, 0x80, zeros until the length is 56 modulo 64, and the length in
    bits. *)
Definition padded (data : bytes) : bytes :=
  data ++ [0x80] ++ replicate (Z.to_nat ((55 - Zlen data) mod 64)) 0 ++ to_be 8 (wrap_u 64 (wrap_u 64 (Zlen data) * 8)).

(** [chunks_exact(64)]: a shorter rest is dropped. *)
Fixpoint chunks_exact (fuel : nat) (msg : bytes) : list bytes :=
  match fuel with
  | O => []
  | S fuel => if Zlen msg <? 64 then [] else take 64 msg :: chunks_exact fuel (drop 64 msg)
  end.

Definition chunks (data : bytes) : list bytes := let msg := padded data in chunks_exact (length msg) msg.

(** The sixteen words of a chunk. *)
Definition chunk_words (chunk : bytes) : list Z := (fun i => of_be (take 4 (drop (4 * i) chunk))) <$> seq 0 16.

(** Append [n] words, each computed from those before it. *)
Fixpoint extend (next : (nat -> Z) -> Z) (n : nat) (w : list Z) : list Z :=
  match n with
  | O => w
  | S n => extend next n (w ++ [next (fun back => nth (length w - back) w 0)])
  end.

(** * SHA-256 *)

(** The constants of the source, four words to a number (two numbers to one of
    its lines), most significant word first. *)
Definition four_words (r : Z) : list Z := (fun i => wrap_u 32 (Z.shiftr r (32 * i))) <$> [3; 2; 1; 0].

Definition SHA256_K : list Z := mjoin (four_words <$> [
  0x428a2f9871374491b5c0fbcfe9b5dba5; 0x3956c25b59f111f1923f82a4ab1c5ed5;
  0xd807aa9812835b01243185be550c7dc3; 0x72be5d7480deb1fe9bdc06a7c19bf174;
  0xe49b69c1efbe47860fc19dc6240ca1cc; 0x2de92c6f4a7484aa5cb0a9dc76f988da;
  0x983e5152a831c66db00327c8bf597fc7; 0xc6e00bf3d5a7914706ca635114292967;
  0x27b70a852e1b21384d2c6dfc53380d13; 0x650a7354766a0abb81c2c92e92722c85;
  0xa2bfe8a1a81a664bc24b8b70c76c51a3; 0xd192e819d6990624f40e3585106aa070;
  0x19a4c1161e376c082748774c34b0bcb5; 0x391c0cb34ed8aa4a5b9cca4f682e6ff3;
  0x748f82ee78a5636f84c878148cc70208; 0x90befffaa4506cebbef9a3f7c67178f2]).

Definition W8 : Type := Z * Z * Z * Z * Z * Z * Z * Z.

Definition H256 : W8 :=
  (0x6a09e667, 0xbb67ae85, 0x3c6ef372, 0xa54ff53a, 0x510e527f, 0x9b05688c, 0x1f83d9ab, 0x5be0cd19).

Definition schedule256 (chunk : bytes) : list Z :=
  extend (fun w =>
    let s0 := rotate_right (w 15%nat) 7 ^w rotate_right (w 15%nat) 18 ^w Z.shiftr (w 15%nat) 3 in
    let s1 := rotate_right (w 2%nat) 17 ^w rotate_right (w 2%nat) 19 ^w Z.shiftr (w 2%nat) 10 in
    w 16%nat +w s0 +w w 7%nat +w s1) 48 (chunk_words chunk).

Definition round256 (v : W8) (kw : Z * Z) : W8 :=
  let '(a, b, c, d, e, f, g, hh) := v in
  let s1 := rotate_right e 6 ^w rotate_right e 11 ^w rotate_right e 25 in
  let ch := (e &w f) ^w (not32 e &w g) in
  let t1 := hh +w s1 +w ch +w kw.1 +w kw.2 in
  let s0 := rotate_right a 2 ^w rotate_right a 13 ^w rotate_right a 22 in
  let maj := (a &w b) ^w (a &w c) ^w (b &w c) in
  let t2 := s0 +w maj in
  (t1 +w t2, a, b, c, d +w t1, e, f, g).

Definition compress256 (h : W8) (chunk : bytes) : W8 :=
  let '(h0, h1, h2, h3, h4, h5, h6, h7) := h in
  let '(a, b, c, d, e, f, g, hh) := fold_left round256 (zip SHA256_K (schedule256 chunk)) h in
  (h0 +w a, h1 +w b, h2 +w c, h3 +w d, h4 +w e, h5 +w f, h6 +w g, h7 +w hh).

Definition digest (words : list Z) : bytes := mjoin (to_be 4 <$> words).

Definition sha256 (data : bytes) : bytes :=
  let '(a, b, c, d, e, f, g, h) := fold_left compress256 (chunks data) H256 in digest [a; b; c; d; e; f; g; h].

(** * SHA-1 *)

Definition W5 : Type := Z * Z * Z * Z * Z.

Definition H1 : W5 := (0x67452301, 0xEFCDAB89, 0x98BADCFE, 0x10325476, 0xC3D2E1F0).

Definition schedule1 (chunk : bytes) : list Z :=
  extend (fun w => rotate_left (w 3%nat ^w w 8%nat ^w w 14%nat ^w w 16%nat) 1) 64 (chunk_words chunk).

(** The function of round [i] and its constant. *)
Definition stage1 (i : Z) (b c d : Z) : Z * Z :=
  if i <? 20 then (Z.lor (b &w c) (not32 b &w d), 0x5A827999)
  else if i <? 40 then (b ^w c ^w d, 0x6ED9EBA1)
  else if i <? 60 then (Z.lor (Z.lor (b &w c) (b &w d)) (c &w d), 0x8F1BBCDC)
  else (b ^w c ^w d, 0xCA62C1D6).

Definition round1 (v : W5) (iw : Z * Z) : W5 :=
  let '(a, b, c, d, e) := v in
  let '(f, k) := stage1 iw.1 b c d in
  (rotate_left a 5 +w f +w e +w k +w iw.2, a, rotate_left b 30, c, d).

Definition compress1 (h : W5) (chunk : bytes) : W5 :=
  let '(h0, h1, h2, h3, h4) := h in
  let '(a, b, c, d, e) := fold_left round1 (zip (seqZ 0 80) (schedule1 chunk)) h in
  (h0 +w a, h1 +w b, h2 +w c, h3 +w d, h4 +w e).

Definition sha1 (data : bytes) : bytes :=
  let '(a, b, c, d, e) := fold_left compress1 (chunks data) H1 in digest [a; b; c; d; e].

(** * Lemmas *)

Lemma length_digest ws : length (digest ws) = (4 * length ws)%nat.
Proof. induction ws as [|w ws IH]; [done|]. change (digest (w :: ws)) with (to_be 4 w ++ digest ws). rewrite length_app, IH, length_to_be. cbn. lia. Qed.

Lemma digest_u8 ws : Forall u8 (digest ws).
Proof. induction ws as [|w ws IH]; [constructor|]. change (digest (w :: ws)) with (to_be 4 w ++ digest ws). apply Forall_app; split; [apply to_be_u8|done]. Qed.

Lemma sha256_spec data : Zlen (sha256 data) = 32 /\ Forall u8 (sha256 data).
Proof. unfold sha256. destruct (fold_left _ _ _) as [[[[[[[? ?] ?] ?] ?] ?] ?] ?]. split; [by rewrite length_digest|apply digest_u8]. Qed.

Lemma sha1_spec data : Zlen (sha1 data) = 20 /\ Forall u8 (sha1 data).
Proof. unfold sha1. destruct (fold_left _ _ _) as [[[[? ?] ?] ?] ?]. split; [by rewrite length_digest|apply digest_u8]. Qed.

(** The padding fills the last chunk, so [chunks_exact] drops nothing. *)
Lemma padded_whole data : Zlen (padded data) mod 64 = 0.
Proof.
  unfold padded. pose proof (Z.mod_pos_bound (55 - Zlen data) 64 eq_refl).
  assert (forall w z, Zlen (to_be w z) = Z.of_nat w) as Hb by (intros w z; f_equal; apply length_to_be).
  assert (forall n, 0 <= n -> Zlen (replicate (Z.to_nat n) 0) = n) as Hz by (intros n Hn; rewrite length_replicate; lia).
  rewrite !Zlen_app, Hb, Hz by lia.
  change (Zlen [0x80]) with 1. rewrite (Z.mod_eq (55 - Zlen data) 64) by lia. set (q := (55 - Zlen data) / 64).
  replace (_ + _) with ((1 - q) * 64) by lia. apply Z.mod_mul. lia.
Qed.

Lemma chunks_exact_join fuel : forall msg, (length msg <= fuel)%nat -> Zlen msg mod 64 = 0 -> mjoin (chunks_exact fuel msg) = msg.
Proof.
  induction fuel as [|fuel IH]; intros msg Hf Hm.
  - by destruct msg; cbn in Hf; [|lia].
  - cbn [chunks_exact]. destruct (Zlen msg <? 64) eqn:E.
    + apply Z.ltb_lt in E. rewrite Z.mod_small in Hm by (lia). destruct msg; [done|cbn [length] in Hm; lia].
    + apply Z.ltb_ge in E. cbn [mjoin list_join]. change (mjoin (A := Z)) with (@list_join Z) in *. rewrite IH.
      * apply take_drop.
      * rewrite length_drop. lia.
      * rewrite length_drop, Nat2Z.inj_sub by lia. rewrite Zminus_mod, Hm. done.
Qed.

Lemma chunks_whole data : mjoin (chunks data) = padded data.
Proof. apply chunks_exact_join; [lia|apply padded_whole]. Qed.

(** The vectors of the unit tests. *)
Example sha1_abc : sha1 (str "abc") = to_be 20 0xa9993e364706816aba3e25717850c26c9cd0d89d.
Proof. vm_compute. reflexivity. Qed.

Example sha256_abc : sha256 (str "abc") = to_be 32 0xba7816bf8f01cfea414140de5dae2223b00361a396177a9cb410ff61f20015ad.
Proof. vm_compute. reflexivity. Qed.

Example sha256_empty : sha256 [] = to_be 32 0xe3b0c44298fc1c149afbf4c8996fb92427ae41e4649b934ca495991b7852b855.
Proof. vm_compute. reflexivity. Qed.
