(* ===== verification/Auth.v ===== *)
(** Accounts and logins of the server (crates/server/src/auth.rs, and what of
    wire/mod.rs, wire/pg/mod.rs, replication/primary.rs and main.rs decides a
    login): password proofs, the accounts file auth.bin, and the hook that
    carries the engine's privilege store into it.

    Errors of this code are strings; they are the text of an [Io] error here.
    The file is its contents, or [None] when it does not exist.  A save writes a
    temporary file and renames it, so a failure of the disk (its text in [disk])
    leaves the old contents. *)
From stdpp Require Import base list gmap strings.
From Stdlib Require Import ZArith Lia.
From S2P Require Import Prelude Machine Types TableDef WalCodec Catalog Ast Visible Session Privilege Sha.

Definition PLUGIN_CACHING_SHA2 : bytes := str "caching_sha2_password".
Definition PLUGIN_NATIVE : bytes := str "mysql_native_password".

Record Verifier := mkVerifier { vf_plugin : bytes; vf_hash : bytes; vf_grants : list GrantRule }.

#[global] Instance Verifier_eq_dec : EqDecision Verifier.
Proof. solve_decision. Defined.

Definition new_sha2 (password : bytes) : Verifier := mkVerifier PLUGIN_CACHING_SHA2 (sha256 password) [].
Definition new_native (password : bytes) : Verifier := mkVerifier PLUGIN_NATIVE (sha1 (sha1 password)) [].
Definition Verifier_empty : Verifier := mkVerifier PLUGIN_CACHING_SHA2 [] [].

(** * Password proofs *)

(** The masks are digests, never empty. *)
Definition xor_cycle (data mask : bytes) : bytes := imap (fun i b => Z.lxor b (nth (i mod length mask) mask 0)) data.

Definition empty_token (token : bytes) : bool := bool_decide (token = []) || bool_decide (token = [0]).

Definition verify_sha2 (stored_sha256 scramble token : bytes) : bool :=
  if bool_decide (stored_sha256 = []) then empty_token token
  else if empty_token token then false
  else if negb (Zlen stored_sha256 =? 32) || negb (Zlen token =? 32) then false
  else
    let stage2 := sha256 stored_sha256 in
    let mask := sha256 (stage2 ++ scramble) in
    bool_decide (xor_cycle token mask = stored_sha256).

Definition verify_native (stored_stage2 scramble token : bytes) : bool :=
  if bool_decide (stored_stage2 = []) then empty_token token
  else if empty_token token then false
  else if negb (Zlen stored_stage2 =? 20) || negb (Zlen token =? 20) then false
  else
    let mask := sha1 (scramble ++ stored_stage2) in
    bool_decide (sha1 (xor_cycle token mask) = stored_stage2).

Definition verify_sha2_native_fallback (v : Verifier) (scramble token : bytes) : bool :=
  if negb (bool_decide (vf_plugin v = PLUGIN_NATIVE)) then false else verify_native (vf_hash v) scramble token.

Definition verify (v : Verifier) (plugin scramble token : bytes) : bool :=
  if bool_decide (vf_hash v = []) then empty_token token
  else if empty_token token then false
  else if bool_decide (plugin = PLUGIN_CACHING_SHA2) then verify_sha2 (vf_hash v) scramble token
  else if bool_decide (plugin = PLUGIN_NATIVE) then verify_sha2_native_fallback v scramble token
  else false.

(** The PostgreSQL endpoint and replicas send the password itself. *)
Definition verify_password (v : Verifier) (password : bytes) : bool :=
  if bool_decide (vf_hash v = []) then bool_decide (password = [])
  else if bool_decide (vf_plugin v = PLUGIN_CACHING_SHA2) && (Zlen (vf_hash v) =? 32) then bool_decide (sha256 password = vf_hash v)
  else if bool_decide (vf_plugin v = PLUGIN_NATIVE) && (Zlen (vf_hash v) =? 20) then bool_decide (sha1 (sha1 password) = vf_hash v)
  else false.

(** * The accounts file *)

Definition AUTH_MAGIC : bytes := str "HDBA".
Definition AUTH_FORMAT_VERSION : Z := 2.
Definition AUTH_FORMAT_V1 : Z := 1.

Abbreviation Users := (gmap bytes Verifier).

Definition auth_error (msg : string) : Error := Io (str "auth file: " ++ str msg).

(** ** Writing *)

Definition encode_scope (part : bytes) : res bytes :=
  if 1024 <? Zlen part then Err (auth_error "bad grant scope") else Ok (to_le 4 (Zlen part) ++ part).

Definition encode_rule (g : GrantRule) : res bytes :=
  db ← encode_scope (gr_db g); tbl ← encode_scope (gr_tbl g); mret (codec_byte (gr_priv g) :: db ++ tbl).

Definition encode_grants (grants : list GrantRule) : res bytes :=
  if 65536 <? Zlen grants then Err (auth_error "too many grants")
  else rules ← write_list encode_rule grants; mret (to_le 4 (wrap_u 32 (Zlen grants)) ++ rules).

Definition plugin_byte (plugin : bytes) : res Z :=
  if bool_decide (plugin = PLUGIN_CACHING_SHA2) then Ok 1
  else if bool_decide (plugin = PLUGIN_NATIVE) then Ok 2
  else Err (auth_error "bad plugin").

Definition encode_user (u : bytes * Verifier) : res bytes :=
  let '(name, v) := u in
  pbyte ← plugin_byte (vf_plugin v);
  if 64 <? Zlen (vf_hash v) then Err (auth_error "bad verifier")
  else
    grants ← encode_grants (vf_grants v);
    mret (to_le 4 (wrap_u 32 (Zlen name)) ++ name ++ [pbyte; Zlen (vf_hash v)] ++ vf_hash v ++ grants).

(** The users under [names.sort()]. *)
Definition encode_users (users : Users) : res bytes :=
  us ← write_list encode_user (sort_by_key (map_to_list users));
  mret (AUTH_MAGIC ++ to_le 4 AUTH_FORMAT_VERSION ++ to_le 4 (wrap_u 32 (Z.of_nat (size users))) ++ us).

Definition save (disk : option bytes) (users : Users) (file : option bytes) : option bytes * res () :=
  match encode_users users, disk with
  | Ok b, None => (Some b, Ok ())
  | Ok _, Some msg => (file, Err (Io (str "auth file: " ++ msg)))
  | Err e, _ => (file, Err e)
  | Panic, _ => (file, Panic)
  end.

(** ** Reading *)

Definition auth_take (n : Z) : Dec bytes := get_slice (auth_error "truncated") n.
Definition auth_byte : Dec Z := get_byte (auth_error "truncated").
Definition auth_u32 : Dec Z := b ← auth_take 4; mret (of_le b).

Definition read_scope : Dec bytes :=
  n ← auth_u32;
  if 1024 <? n then dec_fail (auth_error "grant scope too large")
  else b ← auth_take n; dec_lift (from_utf8 (auth_error "bad grant scope") b).

Definition decode_rule : Dec GrantRule :=
  pb ← auth_byte;
  match from_codec_byte pb with
  | None => dec_fail (auth_error "bad privilege")
  | Some p =>
    db ← read_scope;
    tbl ← read_scope;
    if bool_decide (db = []) || bool_decide (tbl = []) then dec_fail (auth_error "bad grant scope") else mret (mkRule p db tbl)
  end.

Definition decode_grants : Dec (list GrantRule) :=
  n ← auth_u32;
  if 65536 <? n then dec_fail (auth_error "too many grants") else dec_list (Z.to_nat n) decode_rule.

Definition plugin_of (pbyte : Z) : res bytes :=
  match pbyte with 1 => Ok PLUGIN_CACHING_SHA2 | 2 => Ok PLUGIN_NATIVE | _ => Err (auth_error "bad plugin") end.

Definition decode_name : Dec bytes :=
  nlen ← auth_u32;
  if (nlen =? 0) || (1024 <? nlen) then dec_fail (auth_error "bad username")
  else nbuf ← auth_take nlen; dec_lift (from_utf8 (auth_error "bad username") nbuf).

Definition decode_hash : Dec bytes :=
  hlen ← auth_byte;
  if 64 <? hlen then dec_fail (auth_error "bad verifier")
  else
    hash ← auth_take hlen;
    if negb (bool_decide (hash = [])) && negb (Zlen hash =? 32) && negb (Zlen hash =? 20)
    then dec_fail (auth_error "bad verifier") else mret hash.

Definition decode_user (version : Z) : Dec (bytes * Verifier) :=
  name ← decode_name;
  pbyte ← auth_byte;
  plugin ← dec_lift (plugin_of pbyte);
  hash ← decode_hash;
  grants ← (if version =? AUTH_FORMAT_V1 then mret [] else decode_grants);
  mret (name, mkVerifier plugin hash grants).

Definition ROOT : bytes := str "root".

(** Accounts of a version 1 file keep full access. *)
Definition migrate (users : Users) : Users :=
  map_imap (fun name v => Some (if bool_decide (name = ROOT) then v
                                else mkVerifier (vf_plugin v) (vf_hash v) (vf_grants v ++ [mkRule PAll STAR STAR]))) users.

Definition users_of (us : list (bytes * Verifier)) : Users := fold_left (fun m u => <[u.1 := u.2]> m) us ∅.

Definition decode_users : Dec Users :=
  magic ← auth_take 4;
  if negb (bool_decide (magic = AUTH_MAGIC)) then dec_fail (auth_error "bad magic")
  else
    version ← auth_u32;
    if negb (version =? AUTH_FORMAT_VERSION) && negb (version =? AUTH_FORMAT_V1) then dec_fail (auth_error "version")
    else
      n ← auth_u32;
      if 10000 <? n then dec_fail (auth_error "user count too large")
      else
        us ← dec_list (Z.to_nat n) (decode_user version);
        mret (if version =? AUTH_FORMAT_V1 then migrate (users_of us) else users_of us).

(** [UserStore::load]. *)
Definition load (file : option bytes) : res Users :=
  match file with
  | None => Err (auth_error "No such file or directory (os error 2)")
  | Some b => fst <$> decode_users b 0
  end.

Definition load_or_bootstrap (disk : option bytes) (file : option bytes) : option bytes * res (Users * bool) :=
  match file with
  | None =>
    let users := {[ROOT := Verifier_empty]} in
    let '(file, r) := save disk users file in (file, _ ← r; mret (users, true))
  | Some _ => (file, users ← load file; mret (users, false))
  end.

Definition set_password (disk : option bytes) (user password plugin : bytes) (users : Users) (file : option bytes) :
    (Users * option bytes) * res () :=
  if bool_decide (user = []) || (256 <? Zlen user) || bool_decide (0 ∈ user) then ((users, file), Err (Io (str "bad username")))
  else
    let put v :=
      let users := <[user := v]> users in
      let '(file, r) := save disk users file in ((users, file), r) in
    if bool_decide (plugin = PLUGIN_CACHING_SHA2) then put (new_sha2 password)
    else if bool_decide (plugin = PLUGIN_NATIVE) then put (new_native password)
    else ((users, file), Err (Io (str "unknown plugin '" ++ plugin ++ str "'"))).

(** [server passwd] on the file, with the disk of the bootstrap and of the save. *)
Definition passwd_cmd (disk0 disk : option bytes) (user password plugin : bytes) (file : option bytes) : option bytes * res () :=
  match load_or_bootstrap disk0 file with
  | (file, Ok (users, _)) => let '((_, file), r) := set_password disk user password plugin users file in (file, r)
  | (file, Err e) => (file, Err e)
  | (file, Panic) => (file, Panic)
  end.

(** * The hook after a statement *)

Definition set_credentials (v : Verifier) (e : option Verifier) : Verifier :=
  match e with Some e => mkVerifier (vf_plugin v) (vf_hash v) (vf_grants e) | None => v end.

Definition stage_passwords (pending : list (bytes * bytes)) (users : Users) : Users :=
  fold_left (fun m p => <[p.1 := set_credentials (new_sha2 p.2) (m !! p.1)]> m) pending users.

Definition sync_grants (rules : list (bytes * list GrantRule)) (users : Users) : Users :=
  fold_left (fun m u => alter (fun e => mkVerifier (vf_plugin e) (vf_hash e) u.2) u.1 m) rules users.

Definition prune (tombstones : list bytes) (users : Users) : Users := fold_left (fun m t => delete t m) tombstones users.

(** Accounts the engine does not know. *)
Definition fresh_users `{HashOrder} (known : list bytes) (users : Users) : list bytes :=
  List.filter (fun n => negb (bool_decide (n = ROOT)) && negb (bool_decide (n ∈ known))) (entries users).*1.

Definition persist_privileges `{HashOrder} (disk : option bytes) (s : PrivilegeStore) (file : option bytes) :
    (PrivilegeStore * option bytes) * res () :=
  let '((users, tombstones, pending), s) := export_privileges s in
  let store := match load file with Ok m => m | _ => ∅ end in
  let store := prune tombstones (sync_grants users (stage_passwords pending store)) in
  let fresh := fresh_users users.*1 store in
  let s := if bool_decide (fresh = []) then s else import_missing_users fresh s in
  let '(file, r) := save disk store file in ((s, file), r).

(** [before]: [privilege_version()] ahead of the statement.  A failed save is
    only logged. *)
Definition persist_if_changed `{HashOrder} (disk : option bytes) (before : Z) (s : PrivilegeStore) (file : option bytes) :
    PrivilegeStore * option bytes :=
  if negb (ps_version s =? before) then (persist_privileges disk s file).1 else (s, file).

(** The principals a starting server takes from the file. *)
Definition boot_privileges `{HashOrder} (users : Users) (s : PrivilegeStore) : PrivilegeStore :=
  import_privileges ((fun u => (u.1, vf_grants u.2)) <$> entries users) s.

(** * Logins *)

(** How the server ends an attempt to log in. *)
Inductive Login := Welcome (user : bytes) | AccessDenied_ | Hangup.

#[global] Instance Login_eq_dec : EqDecision Login.
Proof. solve_decision. Defined.

(** The plugin of a client that names none. *)
Definition AUTH_PLUGIN : bytes := PLUGIN_CACHING_SHA2.

(** Whether the server asks for a proof under the account's own plugin. *)
Definition switches (v : Verifier) (client_plugin proof : bytes) : bool :=
  negb (bool_decide (vf_hash v = [])) &&
  (negb (bool_decide (client_plugin = vf_plugin v)) || bool_decide (proof = [])) &&
  (bool_decide (vf_plugin v = PLUGIN_NATIVE) || bool_decide (vf_plugin v = PLUGIN_CACHING_SHA2)).

(** A MySQL handshake of an admitted connection: the response's user name,
    plugin and proof, and the client's answer to a request to switch. *)
Definition mysql_login (file : option bytes) (scramble username plugin auth : bytes) (answer : option bytes) : Login :=
  if bool_decide (username = []) then AccessDenied_
  else
    match load file with
    | Ok users =>
      match users !! username with
      | None => AccessDenied_
      | Some v =>
        let client_plugin := if bool_decide (plugin = []) then AUTH_PLUGIN else plugin in
        match (if switches v client_plugin auth then answer else Some auth) with
        | None => Hangup
        | Some proof => if verify v (vf_plugin v) scramble proof then Welcome username else AccessDenied_
        end
      end
    | _ => AccessDenied_
    end.

(** A replica's hello. *)
Definition verify_repl_password (file : option bytes) (user password : bytes) : bool :=
  match load file with
  | Ok users => match users !! user with Some v => verify_password v password | None => false end
  | _ => false
  end.
