(* ===== verification/AuthSpec.v ===== *)
(** Logins and the accounts file: which proofs a login accepts, that a saved
    file reads back as the accounts it was written from, and what a restart
    keeps of the privileges the engine held. *)
From stdpp Require Import base list gmap strings.
From Stdlib Require Import ZArith Lia.
From S2P Require Import Prelude Machine Types TableDef WalCodec Catalog Ast Visible VisibleSpec Session Privilege Sha Auth.

(** * Proofs of a password *)

Definition sha2_proof (stored scramble : bytes) : bytes := xor_cycle stored (sha256 (sha256 stored ++ scramble)).
Definition native_proof (stage1 stored scramble : bytes) : bytes := xor_cycle stage1 (sha1 (scramble ++ stored)).

(** The tokens an account accepts under a scramble. *)
Definition proves (v : Verifier) (scramble token : bytes) : Prop :=
  (vf_hash v = [] /\ (token = [] \/ token = [0])) \/
  (vf_plugin v = PLUGIN_CACHING_SHA2 /\ Zlen (vf_hash v) = 32 /\ token = sha2_proof (vf_hash v) scramble) \/
  (vf_plugin v = PLUGIN_NATIVE /\ Zlen (vf_hash v) = 20 /\
   exists stage1, Zlen stage1 = 20 /\ sha1 stage1 = vf_hash v /\ token = native_proof stage1 (vf_hash v) scramble).

Lemma length_xor data mask : length (xor_cycle data mask) = length data.
Proof. apply length_imap. Qed.

Lemma xor_cycle_twice data mask : xor_cycle (xor_cycle data mask) mask = data.
Proof.
  apply list_eq. intros i. unfold xor_cycle. rewrite !list_lookup_imap. destruct (data !! i); [|done].
  cbn. by rewrite Z.lxor_assoc, Z.lxor_nilpotent, Z.lxor_0_r.
Qed.

Lemma empty_token_spec token : empty_token token = true <-> token = [] \/ token = [0].
Proof. unfold empty_token. by rewrite orb_true_iff, !bool_decide_eq_true. Qed.

Lemma empty_token_long token : 1 < Zlen token -> empty_token token = false.
Proof. intros H. apply not_true_is_false. intros [-> | ->]%empty_token_spec; by cbn in H. Qed.

Lemma verify_sha2_iff stored scramble token : stored <> [] -> empty_token token = false ->
  verify_sha2 stored scramble token = true <-> Zlen stored = 32 /\ token = sha2_proof stored scramble.
Proof.
  intros Hs Ht. unfold verify_sha2. rewrite bool_decide_eq_false_2, Ht by done. split.
  - destruct (_ || _) eqn:E; [done|]. bsimp. intros Hx%bool_decide_eq_true. split; [done|].
    unfold sha2_proof. rewrite <- Hx at 1. by rewrite xor_cycle_twice.
  - intros [Hl ->]. unfold sha2_proof. rewrite length_xor. zb. cbn [negb orb]. by rewrite bool_decide_eq_true, xor_cycle_twice.
Qed.

Lemma verify_native_iff stored scramble token : stored <> [] -> empty_token token = false ->
  verify_native stored scramble token = true <->
  Zlen stored = 20 /\ exists stage1, Zlen stage1 = 20 /\ sha1 stage1 = stored /\ token = native_proof stage1 stored scramble.
Proof.
  intros Hs Ht. unfold verify_native. rewrite bool_decide_eq_false_2, Ht by done. split.
  - destruct (_ || _) eqn:E; [done|]. bsimp. intros Hx%bool_decide_eq_true. split; [done|].
    eexists. split; [|split; [exact Hx|]]; [by rewrite length_xor|]. unfold native_proof. by rewrite xor_cycle_twice.
  - intros (Hl & s1 & H1 & H2 & ->). unfold native_proof. rewrite length_xor. zb. cbn [negb orb].
    by rewrite bool_decide_eq_true, xor_cycle_twice.
Qed.

Lemma proof_not_empty stored mask n : Zlen stored = n -> 1 < n -> empty_token (xor_cycle stored mask) = false.
Proof. intros H ?. apply empty_token_long. rewrite length_xor. lia. Qed.

Lemma plugins_differ : PLUGIN_NATIVE <> PLUGIN_CACHING_SHA2.
Proof. by vm_compute. Qed.

(** A login checks the proof under the account's own plugin. *)
Lemma verify_iff v scramble token : verify v (vf_plugin v) scramble token = true <-> proves v scramble token.
Proof.
  unfold verify, proves. destruct (bool_decide_reflect (vf_hash v = [])) as [Hh|Hh].
  - rewrite empty_token_spec, Hh. cbn. intuition lia.
  - destruct (empty_token token) eqn:Et.
    + split; [done|]. intros [[? _]|[(_ & Hl & ->)|(_ & Hl & s1 & H1 & _ & ->)]]; [done|..];
        unfold sha2_proof, native_proof in Et; by erewrite proof_not_empty in Et.
    + pose proof plugins_differ. unfold verify_sha2_native_fallback.
      destruct (bool_decide_reflect (vf_plugin v = PLUGIN_CACHING_SHA2)) as [Hp|Hp].
      { rewrite verify_sha2_iff by done. intuition congruence. }
      destruct (bool_decide_reflect (vf_plugin v = PLUGIN_NATIVE)) as [Hn|Hn]; cbn [negb].
      * rewrite verify_native_iff by done. intuition congruence.
      * intuition congruence.
Qed.

(** * The accounts file *)

Definition scope_wf (s : bytes) : Prop := s <> [] /\ utf8_valid s = true /\ Zlen s <= 1024.

Definition rule_wf (r : GrantRule) : Prop := scope_wf (gr_db r) /\ scope_wf (gr_tbl r).

Definition verifier_wf (v : Verifier) : Prop :=
  (vf_plugin v = PLUGIN_CACHING_SHA2 \/ vf_plugin v = PLUGIN_NATIVE) /\
  (vf_hash v = [] \/ Zlen (vf_hash v) = 32 \/ Zlen (vf_hash v) = 20) /\
  Zlen (vf_grants v) <= 65536 /\ Forall rule_wf (vf_grants v).

(** What the file can hold. *)
Definition users_wf (users : Users) : Prop :=
  Z.of_nat (size users) <= 10000 /\ map_Forall (fun name v => scope_wf name /\ verifier_wf v) users.

Lemma decodes_auth_u32 z : u32 z -> decodes auth_u32 (to_le 4 z) z.
Proof. apply (decodes_le _ 4). Qed.

Lemma users_decode_last {A B} (d : Dec A) (k : A -> Dec B) b x y : decodes d b x -> decodes (k x) [] y -> decodes (x ← d; k x) b y.
Proof. intros Hd Hk. rewrite <- (app_nil_r b). by eapply decodes_bind. Qed.

Lemma decodes_text e e' s : utf8_valid s = true -> decodes (b ← get_slice e (Zlen s); dec_lift (from_utf8 e' b)) s s.
Proof. intros Hu. eapply users_decode_last; [by apply decodes_get_slice|by apply decodes_from_utf8]. Qed.

Lemma decodes_scope s b : scope_wf s -> encode_scope s = Ok b -> decodes read_scope b s.
Proof.
  intros (_ & Hu & Hl). unfold encode_scope. zb. intros <-%Ok_eq.
  eapply decodes_bind; [apply decodes_auth_u32; widths; lia|]. cbn beta. zb. by apply decodes_text.
Qed.

Lemma decodes_rule r b : rule_wf r -> encode_rule r = Ok b -> decodes decode_rule b r.
Proof.
  intros [Hd Ht]. unfold encode_rule. destruct (encode_scope (gr_db r)) as [db| |] eqn:Ed; try done.
  destruct (encode_scope (gr_tbl r)) as [tb| |] eqn:Et; try done. intros <-%Ok_eq.
  change (?x :: ?l) with ([x] ++ l). eapply decodes_bind; [apply decodes_get_byte|]. cbn beta. rewrite codec_byte_inv.
  eapply decodes_bind; [exact (decodes_scope _ _ Hd Ed)|]. eapply users_decode_last; [exact (decodes_scope _ _ Ht Et)|].
  destruct Hd as [Hd _], Ht as [Ht _]. cbn beta. rewrite !bool_decide_eq_false_2 by done. destruct r. apply decodes_ret.
Qed.

Lemma decodes_rules rs b : Zlen rs <= 65536 -> Forall rule_wf rs -> encode_grants rs = Ok b -> decodes decode_grants b rs.
Proof.
  intros Hl Hr. unfold encode_grants. zb. destruct (write_list encode_rule rs) as [bs| |] eqn:E; try done. intros <-%Ok_eq.
  rewrite wrap_u_id by (widths; lia). eapply decodes_bind; [apply decodes_auth_u32; widths; lia|]. cbn beta. zb.
  rewrite Nat2Z.id. pose proof (decodes_written encode_rule id decode_rule rs bs) as Hw. rewrite list_fmap_id in Hw. apply Hw; [|exact E].
  eapply Forall_impl; [exact Hr|]. intros r Hrw b' Hb. by apply decodes_rule.
Qed.

Lemma plugin_byte_inv p b : plugin_byte p = Ok b -> plugin_of b = Ok p.
Proof. unfold plugin_byte. repeat case_bool_decide; try done; intros <-%Ok_eq; by subst. Qed.

Lemma decodes_name name : scope_wf name -> decodes decode_name (to_le 4 (Zlen name) ++ name) name.
Proof.
  intros (Hn & Hu & Hl). eapply decodes_bind; [apply decodes_auth_u32; widths; lia|]. cbn beta.
  assert (0 < Zlen name) by (destruct name; [done|cbn; lia]). zb. cbn [orb]. by apply decodes_text.
Qed.

Lemma decodes_hash h : h = [] \/ Zlen h = 32 \/ Zlen h = 20 -> decodes decode_hash (Zlen h :: h) h.
Proof.
  intros Hh. change (Zlen h :: h) with ([Zlen h] ++ h). eapply decodes_bind; [apply decodes_get_byte|]. cbn beta.
  assert (Zlen h <= 32) by (destruct Hh as [->|[-> | ->]]; cbn; lia). zb. eapply users_decode_last; [by apply decodes_get_slice|]. cbn beta.
  destruct Hh as [->|Hh]; [apply decodes_ret|]. destruct (_ && _) eqn:E; [|apply decodes_ret]. bsimp. lia.
Qed.

Lemma decodes_user name v b : scope_wf name -> verifier_wf v -> encode_user (name, v) = Ok b -> decodes (decode_user 2) b (name, v).
Proof.
  intros Hn (_ & Hh & Hg & Hr). unfold encode_user. destruct (plugin_byte (vf_plugin v)) as [p| |] eqn:Ep; try done.
  cbn [mbind res_bind]. destruct (64 <? _); [done|]. destruct (encode_grants _) as [g| |] eqn:Eg; try done. intros <-%Ok_eq.
  rewrite wrap_u_id by (destruct Hn as (_ & _ & ?); widths; lia).
  rewrite (app_assoc (to_le _ _)). change ([p; ?x] ++ ?l) with ([p] ++ [x] ++ l).
  eapply decodes_bind; [by apply decodes_name|]. eapply decodes_bind; [apply decodes_get_byte|].
  cbn beta. rewrite (plugin_byte_inv _ _ Ep). change ([?x] ++ ?l ++ g) with ([] ++ (x :: l) ++ g).
  eapply decodes_bind; [apply decodes_lift|]. eapply decodes_bind; [by apply decodes_hash|].
  destruct v as [pl h gs]. apply (decodes_bind_ret _ (fun g => (name, mkVerifier pl h g))). by apply decodes_rules.
Qed.

Lemma users_of_list (l : list (bytes * Verifier)) m : NoDup l.*1 -> l ≡ₚ map_to_list m -> users_of l = m.
Proof.
  intros Hn Hp. unfold users_of. rewrite <- fold_left_rev_right. fold (@list_to_map bytes Verifier (gmap bytes Verifier) _ _).
  transitivity (list_to_map (M := gmap bytes Verifier) (rev l)).
  { induction (rev l) as [|[k v] l' IH]; [done|]. cbn. by rewrite IH. }
  rewrite <- (list_to_map_to_list m). apply list_to_map_proper; [|by rewrite <- Permutation_rev].
  by rewrite <- Permutation_rev.
Qed.

(** ** What is written reads back *)

Lemma encode_scope_Ok s : scope_wf s -> exists b, encode_scope s = Ok b.
Proof. intros (_ & _ & Hl). unfold encode_scope. zb. eauto. Qed.

Lemma encode_rule_Ok r : rule_wf r -> exists b, encode_rule r = Ok b.
Proof.
  intros [Hd Ht]. unfold encode_rule. destruct (encode_scope_Ok _ Hd) as [db ->], (encode_scope_Ok _ Ht) as [tb ->]. cbn. eauto.
Qed.

Lemma encode_user_Ok name v : verifier_wf v -> exists b, encode_user (name, v) = Ok b.
Proof.
  intros (Hp & Hh & Hg & Hr). unfold encode_user.
  assert (exists p, plugin_byte (vf_plugin v) = Ok p) as [p ->] by (destruct Hp as [-> | ->]; cbv; eauto).
  cbn [mbind res_bind]. assert (Zlen (vf_hash v) <= 32) by (destruct Hh as [->|[-> | ->]]; cbn; lia). zb.
  unfold encode_grants. zb. destruct (write_list_Ok encode_rule (vf_grants v)) as [b ->]; [|cbn; eauto].
  eapply Forall_impl; [exact Hr|]. intros r. apply encode_rule_Ok.
Qed.

Lemma sorted_users (users : Users) us : us = sort_by_key (map_to_list users) -> NoDup us.*1 /\ us ≡ₚ map_to_list users.
Proof. intros ->. split; [rewrite sort_by_key_perm; apply NoDup_fst_map_to_list|apply sort_by_key_perm]. Qed.

Lemma users_decode users : users_wf users -> exists b, encode_users users = Ok b /\ decodes decode_users b users.
Proof.
  intros [Hs Hu]. unfold encode_users. destruct (sorted_users users _ eq_refl) as [Hn Hp].
  set (us := sort_by_key (map_to_list users)) in *.
  assert (Forall (fun u => scope_wf u.1 /\ verifier_wf u.2) us) as Hw.
  { rewrite Hp. apply Forall_forall. intros [n v] Hi%elem_of_map_to_list. exact (Hu n v Hi). }
  assert (length us = size users) as Hl by (rewrite Hp; apply length_map_to_list).
  destruct (write_list_Ok encode_user us) as [b Hb].
  { eapply Forall_impl; [exact Hw|]. intros [n v] [_ Hv]. by apply encode_user_Ok. }
  rewrite Hb. cbn [mbind res_bind]. eexists. split; [reflexivity|]. rewrite wrap_u_id by (widths; lia).
  unfold decode_users. eapply decodes_bind; [by apply decodes_get_slice|]. rewrite bool_decide_eq_true_2 by done. cbn [negb].
  eapply decodes_bind; [apply decodes_auth_u32; by cbn|]. cbn [negb andb Z.eqb Pos.eqb AUTH_FORMAT_VERSION AUTH_FORMAT_V1].
  eapply decodes_bind; [apply decodes_auth_u32; widths; lia|]. cbn beta. zb. rewrite Nat2Z.id, <- Hl.
  rewrite <- (users_of_list us users Hn Hp). apply (decodes_bind_ret _ users_of).
  pose proof (decodes_written encode_user id (decode_user 2) us b) as Hd. rewrite list_fmap_id in Hd. apply Hd; [|exact Hb].
  eapply Forall_impl; [exact Hw|]. intros [n v] [Hnw Hv] b' Hb'. by apply decodes_user.
Qed.

Lemma save_reload users file : users_wf users -> exists b, save None users file = (Some b, Ok ()) /\ load (Some b) = Ok users.
Proof.
  intros (b & He & Hd)%users_decode. exists b. unfold save. rewrite He. split; [done|].
  pose proof (Hd [] []) as H0. rewrite app_nil_r, app_nil_l in H0. change (Zlen []) with 0 in H0.
  unfold load. by rewrite H0.
Qed.

(** ** What is read can be held

    The decoder never panics, looks only at the bytes it consumes, and returns
    accounts the file can hold. *)

Lemma strict_byte e : strict u8 (get_byte e).
Proof.
  unfold get_byte. split.
  - intros b off. by destruct (b !! _).
  - intros b off a off' Hb Ho. destruct (b !! _) eqn:E; [|done]. intros [= <- <-]. split; [lia|]. by eapply Forall_lookup_1.
  - intros b1 b2 off a off' _ Ho. destruct ((b1 ++ b2) !! _) eqn:E; [|done]. intros [= <- <-].
    destruct (Z.leb_spec (off + 1) (Zlen b1)).
    + by rewrite lookup_app_l in E by lia; rewrite E.
    + rewrite lookup_ge_None_2 by lia. eauto.
Qed.

Lemma strict_slice_len e n : 0 <= n -> strict (fun b => Forall u8 b /\ Zlen b = n) (get_slice e n).
Proof.
  intros Hn. destruct (strict_slice e n Hn) as [Ht Hr Hc]. split; [done| |done].
  intros b off a off' Hb Ho E. destruct (Hr b off a off' Hb Ho E) as [? ?]. split_and!; [done..|].
  unfold get_slice in E. destruct (Z.ltb_spec (Zlen b) (off + n)); [done|]. injection E as <- _. rewrite length_take, length_drop. lia.
Qed.

Lemma strict_each {A} (P : A -> Prop) (d : Dec A) n : strict P d -> strict (fun xs => length xs = n /\ Forall P xs) (dec_list n d).
Proof.
  intros Hd. induction n as [|n IH]; cbn [dec_list]; [by apply strict_ret|].
  eapply strict_bind; [exact Hd|]. intros x Hx. eapply strict_bind; [exact IH|]. intros xs [Hl Hxs]. apply strict_ret. cbn. auto.
Qed.

Lemma strict_if {A} (P : A -> Prop) (c : bool) e (d : Dec A) : (c = false -> strict P d) -> strict P (if c then dec_fail e else d).
Proof. destruct c; [intros _; apply strict_fail|auto]. Qed.

Lemma strict_auth_u32 : strict (fun z => 0 <= z) auth_u32.
Proof. eapply strict_bind; [by apply strict_slice|]. intros b Hb. by apply strict_ret, of_le_nonneg. Qed.

Lemma strict_text e b : strict (fun s => s = b /\ utf8_valid s = true) (dec_lift (from_utf8 e b)).
Proof.
  unfold from_utf8. destruct (utf8_valid b) eqn:E; unfold dec_lift; cbn; [|apply (strict_fail _ e)].
  by apply (strict_ret (fun s => s = b /\ utf8_valid s = true)).
Qed.

Lemma strict_scope : strict (fun s => utf8_valid s = true /\ Zlen s <= 1024) read_scope.
Proof.
  eapply strict_bind; [apply strict_auth_u32|]. intros n Hn. apply strict_if. intros Hc. bsimp.
  eapply strict_bind; [by apply strict_slice_len|]. intros b [_ Hl]. eapply strict_weaken; [apply strict_text|].
  intros s [-> Hs]. split; [done|lia].
Qed.

Lemma strict_rule : strict rule_wf decode_rule.
Proof.
  eapply strict_bind; [apply strict_byte|]. intros pb _. destruct (from_codec_byte pb); [|apply strict_fail].
  eapply strict_bind; [apply strict_scope|]. intros db [Hdu Hdl]. eapply strict_bind; [apply strict_scope|]. intros tb [Htu Htl].
  apply strict_if. intros Hc. bsimp. by apply strict_ret.
Qed.

Lemma strict_grants : strict (fun rs => Zlen rs <= 65536 /\ Forall rule_wf rs) decode_grants.
Proof.
  eapply strict_bind; [apply strict_auth_u32|]. intros n Hn. apply strict_if. intros Hc. bsimp.
  eapply strict_weaken; [apply strict_each, strict_rule|]. intros rs [Hl Hr]. split; [lia|done].
Qed.

Lemma strict_name : strict scope_wf decode_name.
Proof.
  eapply strict_bind; [apply strict_auth_u32|]. intros n Hn. apply strict_if. intros Hc. bsimp.
  eapply strict_bind; [by apply strict_slice_len|]. intros b [_ Hl]. eapply strict_weaken; [apply strict_text|].
  intros s [-> Hs]. split_and!; [|done|lia]. intros ->. cbn in Hl. lia.
Qed.

Lemma strict_hash : strict (fun h => h = [] \/ Zlen h = 32 \/ Zlen h = 20) decode_hash.
Proof.
  eapply strict_bind; [apply strict_byte|]. intros n Hn. apply strict_if. intros _.
  eapply strict_bind; [apply strict_slice; widths; lia|]. intros h _. apply strict_if. intros Hc. apply strict_ret.
  destruct (bool_decide_reflect (h = [])); [by left|right]. cbn in Hc. destruct (Z.eqb_spec (Zlen h) 32); [by left|right].
  by destruct (Z.eqb_spec (Zlen h) 20).
Qed.

Lemma strict_user version : strict (fun u => scope_wf u.1 /\ verifier_wf u.2 /\ (version = 1 -> vf_grants u.2 = [])) (decode_user version).
Proof.
  eapply strict_bind; [apply strict_name|]. intros name Hname. eapply strict_bind; [apply strict_byte|]. intros pb _.
  eapply (strict_bind (fun p => p = PLUGIN_CACHING_SHA2 \/ p = PLUGIN_NATIVE)).
  { assert (plugin_of pb = Ok PLUGIN_CACHING_SHA2 \/ plugin_of pb = Ok PLUGIN_NATIVE \/ plugin_of pb = Err (auth_error "bad plugin")) as Hpl.
    { unfold plugin_of. destruct pb as [|[p|[p|p|]|]|]; auto. }
    destruct Hpl as [-> |[-> | ->]]; unfold dec_lift; cbn;
      [by apply (strict_ret (fun p => _ \/ _)); left|by apply (strict_ret (fun p => _ \/ _)); right|apply (strict_fail _ _)]. }
  intros plugin Hp. eapply strict_bind; [apply strict_hash|]. intros h Hh.
  eapply (strict_bind (fun rs => Zlen rs <= 65536 /\ Forall rule_wf rs /\ (version = 1 -> rs = []))).
  - destruct (Z.eqb_spec version AUTH_FORMAT_V1); [by apply strict_ret|].
    eapply strict_weaken; [apply strict_grants|]. intros rs [? ?]. split_and!; [done..|]. by intros ->.
  - intros rs (? & ? & ?). by apply strict_ret.
Qed.

Lemma users_of_all (P : bytes -> Verifier -> Prop) us : Forall (fun u => P u.1 u.2) us -> forall m : Users, map_Forall P m ->
  map_Forall P (fold_left (fun m u => <[u.1 := u.2]> m) us m).
Proof. induction 1 as [|u us Hu _ IH]; intros m Hm; [done|]. apply IH. by apply map_Forall_insert_2. Qed.

Lemma users_of_size us : forall m : Users, (size (fold_left (fun m u => <[u.1 := u.2]> m) us m) <= size m + length us)%nat.
Proof.
  induction us as [|u us IH]; intros m; cbn; [lia|]. specialize (IH (<[u.1 := u.2]> m)).
  rewrite map_size_insert in IH. destruct (m !! u.1); cbn in *; lia.
Qed.

Lemma users_of_wf us : Zlen us <= 10000 -> Forall (fun u => scope_wf u.1 /\ verifier_wf u.2) us -> users_wf (users_of us).
Proof.
  intros Hl Hu. split.
  - pose proof (users_of_size us ∅) as Hs. rewrite map_size_empty in Hs. unfold users_of. lia.
  - by apply (users_of_all (fun n v => scope_wf n /\ verifier_wf v)).
Qed.

Lemma star_wf : rule_wf (mkRule PAll STAR STAR).
Proof. by split; vm_compute. Qed.

Lemma migrate_wf users : users_wf users -> map_Forall (fun _ v => vf_grants v = []) users -> users_wf (migrate users).
Proof.
  intros [Hs Hu] Hg. split.
  - assert (size (migrate users) = size users) as Hm; [|lia].
    rewrite <- !(size_dom (D := gset bytes)). f_equal. apply leibniz_equiv, set_equiv. intros n. rewrite !elem_of_dom.
    unfold migrate. rewrite map_lookup_imap. by destruct (users !! n).
  - intros n v. unfold migrate. rewrite map_lookup_imap. destruct (users !! n) as [w|] eqn:E; [|done]. cbn.
    destruct (Hu n w E) as [Hn (Hp & Hh & Hl & Hr)]. pose proof (Hg n w E) as Hnil. cbn in Hnil.
    case_bool_decide; intros [= <-]; (split; [done|]); [by split_and!|]. rewrite Hnil. split_and!; [done..|].
    constructor; [apply star_wf|done].
Qed.

Lemma strict_users : strict users_wf decode_users.
Proof.
  eapply strict_bind; [by apply strict_slice|]. intros magic _. apply strict_if. intros _.
  eapply strict_bind; [apply strict_auth_u32|]. intros version _. apply strict_if. intros _.
  eapply strict_bind; [apply strict_auth_u32|]. intros n Hn. apply strict_if. intros Hc. bsimp.
  eapply strict_bind; [apply strict_each, (strict_user version)|]. intros us [Hl Hus]. apply strict_ret.
  assert (users_wf (users_of us)) as Hw. { apply users_of_wf; [lia|]. eapply Forall_impl; [exact Hus|]. naive_solver. }
  destruct (Z.eqb_spec version AUTH_FORMAT_V1) as [Hv|]; [|done]. apply migrate_wf; [done|].
  apply (users_of_all (fun _ v => vf_grants v = [])); [|done]. eapply Forall_impl; [exact Hus|]. naive_solver.
Qed.

Lemma load_wf b users : Forall u8 b -> load (Some b) = Ok users -> users_wf users.
Proof.
  intros Hb. unfold load. destruct (decode_users b 0) as [[m o]| |] eqn:E; [|done|done]. intros <-%Ok_eq.
  by apply (st_read _ _ strict_users b 0 m o Hb ltac:(lia)) in E as [_ ?].
Qed.

(** * The hook after a statement *)

(** A loop that updates the entry of each listed key once. *)
Lemma fold_alter {A B} (f : A -> option B -> option B) (l : list (bytes * A)) : NoDup l.*1 -> forall (m : gmap bytes B) u,
  fold_left (fun m e => partial_alter (f e.2) e.1 m) l m !! u =
  match list_to_map (M := gmap bytes A) l !! u with Some x => f x (m !! u) | None => m !! u end.
Proof.
  induction l as [|[k x] l IH]; intros Hn m u; [done|]. cbn in Hn. apply NoDup_cons in Hn as [Hk Hn]. cbn [fold_left list_to_map foldr].
  rewrite (IH Hn). cbn [fst snd]. destruct (decide (u = k)) as [->|Hu].
  - rewrite (not_elem_of_list_to_map_1 l k Hk). rewrite lookup_partial_alter_eq. cbn. by rewrite lookup_insert_eq.
  - cbn. rewrite lookup_insert_ne by done. by rewrite lookup_partial_alter_ne.
Qed.

Lemma stage_lookup pending users u : NoDup pending.*1 ->
  stage_passwords pending users !! u =
  match list_to_map (M := gmap bytes bytes) pending !! u with
  | Some pw => Some (set_credentials (new_sha2 pw) (users !! u))
  | None => users !! u
  end.
Proof.
  intros Hn. rewrite <- (fold_alter (fun pw o => Some (set_credentials (new_sha2 pw) o)) pending Hn). f_equal.
  unfold stage_passwords. revert users. induction pending as [|[k pw] l IH]; intros m; [done|]. cbn in Hn. apply NoDup_cons in Hn as [_ Hn].
  cbn [fold_left fst snd]. rewrite (IH Hn). f_equal. apply map_eq. intros i. destruct (decide (i = k)) as [->|];
    [by rewrite lookup_insert_eq, lookup_partial_alter_eq|by rewrite lookup_insert_ne, lookup_partial_alter_ne].
Qed.

Definition with_grants (rs : list GrantRule) (e : Verifier) : Verifier := mkVerifier (vf_plugin e) (vf_hash e) rs.

Lemma sync_lookup rules users u : NoDup rules.*1 ->
  sync_grants rules users !! u =
  match list_to_map (M := gmap bytes (list GrantRule)) rules !! u with Some rs => with_grants rs <$> users !! u | None => users !! u end.
Proof. intros Hn. exact (fold_alter (fun rs o => with_grants rs <$> o) rules Hn users u). Qed.

Lemma prune_lookup l users u : prune l users !! u = if bool_decide (u ∈ l) then None else users !! u.
Proof.
  unfold prune. revert users. induction l as [|t l IH]; intros m; [done|]. cbn [fold_left]. rewrite IH.
  destruct (decide (u = t)) as [->|Hu].
  - rewrite lookup_delete_eq, (bool_decide_eq_true_2 (t ∈ t :: l)) by (by left). by destruct (bool_decide _).
  - rewrite lookup_delete_ne by done. by rewrite (bool_decide_ext (u ∈ t :: l) (u ∈ l)) by set_solver.
Qed.

Section hook.
Context `{HashOrderOk}.

Lemma entries_keys_NoDup {B} (m : gmap bytes B) : NoDup (entries m).*1.
Proof. rewrite entries_perm. apply NoDup_fst_map_to_list. Qed.

Lemma entries_list_to_map {B} (m : gmap bytes B) : list_to_map (entries m) = m.
Proof. rewrite <- (list_to_map_to_list m) at 2. apply list_to_map_proper; [apply entries_keys_NoDup|apply entries_perm]. Qed.

(** The principals the hook exports. *)
Definition exported (s : PrivilegeStore) : list (bytes * list GrantRule) := (export_privileges s).1.1.1.
Definition dropped (s : PrivilegeStore) : list bytes := (export_privileges s).1.1.2.

Lemma set_keys (X : gset bytes) : (entries (K := bytes) (V := ()) (gset_to_gmap () X)).*1 ≡ₚ elements X.
Proof.
  apply NoDup_Permutation; [apply entries_keys_NoDup|apply NoDup_elements|]. intros u.
  rewrite entries_perm, elem_of_elements, list_elem_of_fmap. split.
  - intros ([k []] & -> & Hi%elem_of_map_to_list). by apply lookup_gset_to_gmap_Some in Hi as [? _].
  - intros Hu. exists (u, ()). split; [done|]. apply elem_of_map_to_list, lookup_gset_to_gmap_Some. done.
Qed.

Lemma exported_perm s : exported s ≡ₚ (fun u => (u, default [] (ps_grants s !! u))) <$> elements (ps_users s).
Proof. unfold exported, export_privileges. cbn. by rewrite sort_by_key_perm, set_keys. Qed.

Lemma exported_keys s : (exported s).*1 ≡ₚ elements (ps_users s).
Proof. rewrite exported_perm, <- list_fmap_compose. cbn. by rewrite list_fmap_id. Qed.

Lemma exported_NoDup s : NoDup (exported s).*1.
Proof. rewrite exported_keys. apply NoDup_elements. Qed.

Lemma exported_lookup s u : list_to_map (M := gmap bytes (list GrantRule)) (exported s) !! u =
  if bool_decide (u ∈ ps_users s) then Some (default [] (ps_grants s !! u)) else None.
Proof.
  case_bool_decide as Hu.
  - apply elem_of_list_to_map_1; [apply exported_NoDup|]. rewrite exported_perm. apply list_elem_of_fmap. exists u.
    split; [done|]. by apply elem_of_elements.
  - apply not_elem_of_list_to_map_1. rewrite exported_keys. by rewrite elem_of_elements.
Qed.

Lemma dropped_elem s u : u ∈ dropped s <-> u ∈ ps_tombstones s.
Proof. unfold dropped, export_privileges. cbn. by rewrite set_keys, elem_of_elements. Qed.

(** The accounts the hook saves. *)
Definition merged (s : PrivilegeStore) (users : Users) : Users :=
  prune (dropped s) (sync_grants (exported s) (stage_passwords (entries (ps_pending s)) users)).

Definition known_users (file : option bytes) : Users := match load file with Ok m => m | _ => ∅ end.

(** An account before the grants are laid over it. *)
Definition credentials (s : PrivilegeStore) (users : Users) (u : bytes) : option Verifier :=
  match ps_pending s !! u with Some pw => Some (set_credentials (new_sha2 pw) (users !! u)) | None => users !! u end.

Lemma merged_lookup s users u : merged s users !! u =
  if bool_decide (u ∈ ps_tombstones s) then None
  else if bool_decide (u ∈ ps_users s) then with_grants (default [] (ps_grants s !! u)) <$> credentials s users u
  else credentials s users u.
Proof.
  unfold merged, credentials. rewrite prune_lookup, sync_lookup, stage_lookup by (apply exported_NoDup || apply entries_keys_NoDup).
  rewrite entries_list_to_map, exported_lookup. rewrite (bool_decide_ext _ _ (dropped_elem s u)).
  by repeat case_bool_decide.
Qed.

Lemma persist_saves disk s file : 
  (persist_privileges disk s file).1.2 = (save disk (merged s (known_users file)) file).1 /\
  (persist_privileges disk s file).2 = (save disk (merged s (known_users file)) file).2.
Proof.
  unfold persist_privileges. cbn [export_privileges fst snd]. fold (known_users file).
  change (prune _ _) with (merged s (known_users file)). by destruct (save disk _ file).
Qed.

(** The engine's side of what the file can hold: the parser bounds account
    names, and a dropped name is no principal. *)
Definition privs_wf (s : PrivilegeStore) : Prop :=
  map_Forall (fun _ rs => Zlen rs <= 65536 /\ Forall rule_wf rs) (ps_grants s) /\
  map_Forall (fun u _ => scope_wf u) (ps_pending s) /\
  ps_users s ## ps_tombstones s.

Lemma credentials_wf s users u v : users_wf users -> map_Forall (fun u _ => scope_wf u) (ps_pending s) ->
  credentials s users u = Some v -> scope_wf u /\ verifier_wf v.
Proof.
  intros [_ Hu] Hp. unfold credentials. destruct (ps_pending s !! u) as [pw|] eqn:E; [|apply Hu].
  intros [= <-]. split; [by apply (Hp u pw)|]. pose proof (sha256_spec pw) as [Hl _].
  destruct (users !! u) as [w|] eqn:Ew; cbn.
  - destruct (Hu u w Ew) as [_ (_ & _ & ? & ?)]. split_and!; cbn; auto.
  - split_and!; cbn; auto; lia.
Qed.

Lemma merged_dom s users : dom (merged s users) ⊆ dom users ∪ dom (ps_pending s).
Proof.
  intros u. rewrite elem_of_union, !elem_of_dom, merged_lookup. unfold credentials. case_bool_decide; [by intros [? ?]|].
  destruct (ps_pending s !! u); [by right; eauto|]. case_bool_decide; [rewrite fmap_is_Some|]; auto.
Qed.

Lemma with_grants_wf v rs : verifier_wf v -> Zlen rs <= 65536 -> Forall rule_wf rs -> verifier_wf (with_grants rs v).
Proof. intros (? & ? & _) ? ?. by split_and!. Qed.

Lemma merged_wf s users : users_wf users -> privs_wf s -> Z.of_nat (size users) + Z.of_nat (size (ps_pending s)) <= 10000 ->
  users_wf (merged s users).
Proof.
  intros Hu (Hg & Hp & _) Hs. split.
  - pose proof (subseteq_size _ _ (merged_dom s users)) as Hd.
    pose proof (size_union_alt (dom users) (dom (ps_pending s))) as Ha.
    pose proof (subseteq_size (dom (ps_pending s) ∖ dom users) (dom (ps_pending s)) ltac:(set_solver)) as Hb.
    rewrite !size_dom in *. lia.
  - intros u v. rewrite merged_lookup. case_bool_decide; [done|]. case_bool_decide; [|by apply credentials_wf].
    intros (w & Hw & ->)%fmap_Some. destruct (credentials_wf s users u w Hu Hp Hw) as [Hn (? & ? & _)]. split; [done|].
    destruct (ps_grants s !! u) as [rs|] eqn:E; [destruct (Hg u rs E); by split_and!|]. split_and!; [done..|by cbn|by constructor].
Qed.

(** The hook, when the disk holds: the file reads back as the merged accounts. *)
Lemma persist_reload s file : users_wf (known_users file) -> privs_wf s ->
  Z.of_nat (size (known_users file)) + Z.of_nat (size (ps_pending s)) <= 10000 ->
  exists s' b, persist_privileges None s file = ((s', Some b), Ok ()) /\ load (Some b) = Ok (merged s (known_users file)).
Proof.
  intros Hu Hp Hs. destruct (save_reload (merged s (known_users file)) file) as (b & Hb & Hl); [by apply merged_wf|].
  destruct (persist_saves None s file) as [H1 H2]. rewrite Hb in H1, H2.
  destruct (persist_privileges None s file) as [[s' f] r]. cbn in H1, H2. subst. eauto.
Qed.

(** What a restarted server grants. *)
Lemma boot_has_priv users s u p d t :
  has_priv (boot_privileges users s) u p d t = match users !! u with Some v => existsb (rule_covers p d t) (vf_grants v) | None => false end.
Proof.
  unfold has_priv, boot_privileges, import_privileges. cbn [ps_grants].
  assert (Hn : NoDup (((fun u : bytes * Verifier => (u.1, vf_grants u.2)) <$> entries users).*1)).
  { rewrite <- list_fmap_compose. apply entries_keys_NoDup. }
  pose proof (fold_alter (fun (rs : list GrantRule) _ => Some rs) _ Hn ∅ u) as Hf.
  change (fold_left (fun m u => <[u.1 := u.2]> m) _ ∅ !! u) with
    (fold_left (fun (m : gmap bytes (list GrantRule)) e => partial_alter (fun _ => Some e.2) e.1 m) ((fun u => (u.1, vf_grants u.2)) <$> entries users) ∅ !! u).
  rewrite Hf, lookup_empty. clear Hf Hn.
  assert (list_to_map ((fun u : bytes * Verifier => (u.1, vf_grants u.2)) <$> entries users) = vf_grants <$> users) as ->.
  { rewrite <- (entries_list_to_map users) at 2. rewrite <- list_to_map_fmap. done. }
  rewrite lookup_fmap. by destruct (users !! u).
Qed.

(** C7: a restart keeps exactly the privileges the engine held: after a hook
    whose save succeeds, a server that starts from the file grants every
    principal with an account (in the file, or a staged password) what it had
    and nothing more, a dropped user has no account, and a staged password is
    the one the account verifies. *)
Theorem restart_keeps_privileges s s0 file : users_wf (known_users file) -> privs_wf s ->
  Z.of_nat (size (known_users file)) + Z.of_nat (size (ps_pending s)) <= 10000 ->
  exists s' b users, persist_privileges None s file = ((s', Some b), Ok ()) /\ load (Some b) = Ok users /\
    (forall u, u ∈ ps_users s -> u ∈ dom (known_users file) ∪ dom (ps_pending s) ->
      forall p d t, has_priv (boot_privileges users s0) u p d t = has_priv s u p d t) /\
    (forall u, u ∈ ps_tombstones s -> users !! u = None) /\
    (forall u pw, ps_pending s !! u = Some pw -> u ∈ ps_users s ->
      exists v, users !! u = Some v /\ vf_plugin v = PLUGIN_CACHING_SHA2 /\ vf_hash v = sha256 pw).
Proof.
  intros Hu Hp Hs. destruct (persist_reload s file Hu Hp Hs) as (s' & b & Hb & Hl). exists s', b, (merged s (known_users file)).
  destruct Hp as (_ & _ & Hdis). assert (Hnt : forall u, u ∈ ps_users s -> bool_decide (u ∈ ps_tombstones s) = false).
  { intros u ?. apply bool_decide_eq_false. set_solver. }
  split_and!; [done|done|..].
  - intros u Hin Hacc p d t. rewrite boot_has_priv, merged_lookup, Hnt, bool_decide_eq_true_2 by done.
    assert (is_Some (credentials s (known_users file) u)) as [w ->].
    { unfold credentials. rewrite elem_of_union, !elem_of_dom in Hacc. destruct (ps_pending s !! u); [by eexists|].
      destruct Hacc as [?|[? ?]]; done. }
    cbn. unfold has_priv. by destruct (ps_grants s !! u).
  - intros u Hin. by rewrite merged_lookup, bool_decide_eq_true_2.
  - intros u pw E Hin. rewrite merged_lookup, Hnt, bool_decide_eq_true_2 by done. unfold credentials. rewrite E.
    eexists. split; [done|]. cbn. by destruct (known_users file !! u).
Qed.

(** C24: a file that cannot be read is replaced: the hook of the next privilege
    statement writes a file that holds no account but those with a password
    staged in this run, so every other account, root included, is gone. *)
Theorem unreadable_accounts_erased s file e : load file = Err e -> privs_wf s -> Z.of_nat (size (ps_pending s)) <= 10000 ->
  exists s' b users, persist_privileges None s file = ((s', Some b), Ok ()) /\ load (Some b) = Ok users /\ dom users ⊆ dom (ps_pending s).
Proof.
  intros He Hp Hs. assert (Hk : known_users file = ∅) by (unfold known_users; by rewrite He).
  destruct (persist_reload s file) as (s' & b & Hb & Hl); rewrite ?Hk in *; [by split|done|rewrite map_size_empty; lia|].
  exists s', b, (merged s ∅). split_and!; [done..|]. pose proof (merged_dom s ∅). set_solver.
Qed.

End hook.

(** * Logins *)

(** C6: a MySQL login is welcomed exactly when the accounts file reads, holds
    the user, and the proof offered (the client's answer where the server asked
    it to switch plugins) is one the account accepts: nothing for an empty
    password; for a SHA-256 account the one token its stored hash and the
    scramble determine; for a native account the token of a preimage of its
    stored double hash. *)
Theorem login_exact file scramble username plugin auth answer u :
  mysql_login file scramble username plugin auth answer = Welcome u <->
  u = username /\ username <> [] /\ exists users v proof, load file = Ok users /\ users !! username = Some v /\ proves v scramble proof /\
    (if switches v (if bool_decide (plugin = []) then AUTH_PLUGIN else plugin) auth then answer else Some auth) = Some proof.
Proof.
  unfold mysql_login. case_bool_decide as Hn; [split; [done|by intros (_ & ? & _)]|]. split.
  - destruct (load file) as [users| |]; try done. destruct (users !! username) as [v|] eqn:Ev; [|done].
    destruct (if switches _ _ _ then _ else _) as [proof|] eqn:Ep; [|done]. destruct (verify _ _ _ _) eqn:E; [|done].
    intros [= <-]. apply verify_iff in E. by split_and!; [..|exists users, v, proof].
  - intros (-> & _ & users & v & proof & -> & -> & Hp%verify_iff & ->). by rewrite Hp.
Qed.

(** The proof the two plugins compute from a password.  A MySQL client does so
    for any password but the empty one, for which it sends no proof at all. *)
Definition client_proof (plugin password scramble : bytes) : bytes :=
  if bool_decide (plugin = PLUGIN_NATIVE) then native_proof (sha1 password) (sha1 (sha1 password)) scramble
  else sha2_proof (sha256 password) scramble.

(** The account [passwd] stores. *)
Definition new_verifier (plugin password : bytes) : Verifier :=
  if bool_decide (plugin = PLUGIN_NATIVE) then new_native password else new_sha2 password.

Definition known_plugin (plugin : bytes) : Prop := plugin = PLUGIN_CACHING_SHA2 \/ plugin = PLUGIN_NATIVE.

Lemma new_verifier_spec plugin password : known_plugin plugin ->
  verifier_wf (new_verifier plugin password) /\ vf_plugin (new_verifier plugin password) = plugin.
Proof.
  pose proof (sha256_spec password) as [H2 _]. pose proof (sha1_spec (sha1 password)) as [H1 _]. pose proof plugins_differ.
  intros [-> | ->]; unfold new_verifier; [rewrite bool_decide_eq_false_2 by done|rewrite bool_decide_eq_true_2 by done];
    (split; [|done]); split_and!; cbn; unfold known_plugin; auto; lia.
Qed.

Lemma client_proof_proves plugin password scramble : known_plugin plugin ->
  proves (new_verifier plugin password) scramble (client_proof plugin password scramble).
Proof.
  pose proof (sha256_spec password) as [H2 _]. pose proof (sha1_spec password) as [H1 _]. pose proof (sha1_spec (sha1 password)) as [H3 _].
  pose proof plugins_differ. intros [-> | ->]; unfold new_verifier, client_proof.
  - rewrite !bool_decide_eq_false_2 by done. right. by left.
  - rewrite !bool_decide_eq_true_2 by done. right. right. split_and!; [done..|]. by exists (sha1 password).
Qed.

Lemma client_proof_nonempty plugin password scramble : client_proof plugin password scramble <> [].
Proof.
  pose proof (sha256_spec password) as [H2 _]. pose proof (sha1_spec password) as [H1 _].
  unfold client_proof, native_proof, sha2_proof. case_bool_decide; intros Hx%(f_equal length); rewrite length_xor in Hx; cbn in Hx; lia.
Qed.

(** C23: [server passwd] lets the user in: over a readable file with room, and
    for a name and plugin it accepts, the new file holds the old accounts and
    the user's, and the proof a client computes from that password logs in
    under every scramble. *)
Theorem passwd_then_login users file user password plugin : load (Some file) = Ok users -> Forall u8 file ->
  Z.of_nat (size users) < 10000 -> scope_wf user -> Zlen user <= 256 -> 0 ∉ user -> known_plugin plugin ->
  exists b, passwd_cmd None None user password plugin (Some file) = (Some b, Ok ()) /\
    load (Some b) = Ok (<[user := new_verifier plugin password]> users) /\
    forall scramble, mysql_login (Some b) scramble user plugin (client_proof plugin password scramble) None = Welcome user.
Proof.
  intros Hl Hb Hs Hn Hn2 H0 Hp. pose proof (load_wf file users Hb Hl) as [Hsz Hu].
  destruct (new_verifier_spec plugin password Hp) as [Hw Hpl].
  destruct (save_reload (<[user := new_verifier plugin password]> users) (Some file)) as (b & Hsv & Hld).
  { split; [rewrite map_size_insert; destruct (users !! user); cbn; lia|]. by apply map_Forall_insert_2. }
  exists b. split_and!; [|done|].
  - unfold passwd_cmd, load_or_bootstrap. rewrite Hl. cbn [mbind res_bind mret res_ret].
    unfold set_password. destruct Hn as (Hne & _ & _). rewrite !bool_decide_eq_false_2 by done. zb. cbn [orb].
    unfold new_verifier in Hsv. pose proof plugins_differ.
    destruct Hp as [-> | ->]; rewrite ?bool_decide_eq_true_2, ?(bool_decide_eq_false_2 (PLUGIN_NATIVE = _)) in * by done;
      [rewrite (bool_decide_eq_false_2 (PLUGIN_CACHING_SHA2 = PLUGIN_NATIVE)) in Hsv by done|]; by rewrite Hsv.
  - intros scramble. destruct Hn as [Hne _]. unfold mysql_login. rewrite bool_decide_eq_false_2, Hld, lookup_insert_eq by done.
    assert (Hpn : bool_decide (plugin = []) = false) by (destruct Hp as [-> | ->]; done). rewrite Hpn. unfold switches.
    rewrite Hpl, (bool_decide_eq_true_2 (plugin = plugin)), (bool_decide_eq_false_2 (client_proof _ _ _ = [])) by (done || apply client_proof_nonempty).
    cbn [negb orb]. rewrite andb_false_r. cbn [andb].
    pose proof (proj2 (verify_iff _ _ _) (client_proof_proves plugin password scramble Hp)) as Hv. rewrite Hpl in Hv. by rewrite Hv.
Qed.

(** * What goes wrong *)

(** [server passwd] forgets the grants of an account it had. *)
Lemma passwd_drops_grants users user plugin password : known_plugin plugin ->
  vf_grants <$> (<[user := new_verifier plugin password]> users : Users) !! user = Some [].
Proof. intros Hp. rewrite lookup_insert_eq. unfold new_verifier. by destruct (bool_decide _). Qed.

(** An account whose password is the empty string takes no empty proof. *)
Lemma empty_password_refused plugin scramble : known_plugin plugin -> ~ proves (new_verifier plugin []) scramble [].
Proof.
  intros Hp. destruct (new_verifier_spec plugin [] Hp) as [_ Hpl]. rewrite <- verify_iff, Hpl. unfold verify.
  assert (vf_hash (new_verifier plugin []) <> []) as Hh by (destruct Hp as [-> | ->]; vm_compute; done).
  by rewrite bool_decide_eq_false_2 by done.
Qed.

(** Who holds the stored hash of a SHA-256 account logs in without the password. *)
Lemma stored_hash_suffices h gs scramble : Zlen h = 32 ->
  proves (mkVerifier PLUGIN_CACHING_SHA2 h gs) scramble (sha2_proof h scramble).
Proof. intros Hl. right. by left. Qed.

Definition demo_users : Users := {[ROOT := new_sha2 (str "r"); str "app" := with_grants [mkRule PSelect STAR STAR] (new_native (str "a"))]}.

Definition demo_file : option bytes := (save None demo_users None).1.

Definition demo_engine : PrivilegeStore := boot_privileges demo_users store_new.

(** A statement of the administrator and the hook after it. *)
Definition admin_step (disk : option bytes) (stmt : Statement) (w : PrivilegeStore * option bytes) : PrivilegeStore * option bytes :=
  persist_if_changed disk (ps_version w.1) (exec_user_mgmt session_default stmt w.1).1 w.2.

Definition grants_of (file : option bytes) (user : bytes) : option (list GrantRule) :=
  match load file with Ok users => vf_grants <$> users !! user | _ => None end.

(** [GRANT SELECT ON '' TO app] is written, and the file no longer reads; the
    hook of the next statement then writes a file without accounts. *)
Example empty_scope_locks_out :
  let w1 := admin_step None (SGrant [PSelect] (GTable None []) (str "app")) (demo_engine, demo_file) in
  let w2 := admin_step None (SGrant [PInsert] GGlobal (str "app")) w1 in
  load w1.2 = Err (auth_error "bad grant scope") /\ load w2.2 = Ok ∅.
Proof. by vm_compute. Qed.

(** A disk that fails once after [DROP USER app]: the hook has already taken the
    tombstone, and the next one brings the user back, in the engine and, with
    its old grants, in the file. *)
Example failed_save_resurrects :
  let w1 := admin_step (Some (str "No space left on device")) (SDropUser (str "app") false) (demo_engine, demo_file) in
  let w2 := admin_step None (SCreateUser (str "bob") false (str "b")) w1 in
  bool_decide (str "app" ∈ ps_users w1.1) = false /\ bool_decide (str "app" ∈ ps_users w2.1) = true /\
  grants_of w2.2 (str "app") = Some [mkRule PSelect STAR STAR].
Proof. by vm_compute. Qed.

(** The same after [CREATE USER bob]: the staged password is gone, and no later
    statement gives bob an account. *)
Example failed_save_loses_password :
  let w1 := admin_step (Some (str "No space left on device")) (SCreateUser (str "bob") false (str "b")) (demo_engine, demo_file) in
  let w2 := admin_step None (SGrant [PInsert] GGlobal (str "bob")) w1 in
  bool_decide (str "bob" ∈ ps_users w2.1) = true /\ grants_of w2.2 (str "bob") = None.
Proof. by vm_compute. Qed.

(** * Witnesses *)

Lemma demo_users_wf : users_wf demo_users.
Proof.
  assert (Hr : verifier_wf (new_sha2 (str "r"))) by (apply (new_verifier_spec PLUGIN_CACHING_SHA2); by left).
  assert (Ha : verifier_wf (new_native (str "a"))) by (apply (new_verifier_spec PLUGIN_NATIVE); by right).
  split; [by vm_compute|]. apply map_Forall_insert_2; [split; [by vm_compute|exact Hr]|].
  apply map_Forall_singleton. split; [by vm_compute|].
  apply with_grants_wf; [exact Ha|by vm_compute|]. repeat constructor; by vm_compute.
Qed.

Lemma demo_file_loads : load demo_file = Ok demo_users.
Proof. by vm_compute. Qed.

Definition demo_changed : PrivilegeStore := (exec_user_mgmt session_default (SCreateUser (str "bob") false (str "b")) demo_engine).1.

Lemma demo_changed_wf : privs_wf demo_changed.
Proof.
  split_and!.
  - assert (ps_grants demo_changed = <[ROOT := []]> {[str "app" := [mkRule PSelect STAR STAR]]}) as -> by by vm_compute.
    apply map_Forall_insert_2; [by split|]. apply map_Forall_singleton. split; [by vm_compute|]. repeat constructor; by vm_compute.
  - assert (ps_pending demo_changed = {[str "bob" := str "b"]}) as -> by by vm_compute. apply map_Forall_singleton. by vm_compute.
  - assert (ps_tombstones demo_changed = ∅) as -> by by vm_compute. apply disjoint_empty_r.
Qed.

Lemma restart_keeps_privileges_witness : exists s' b users,
  persist_privileges None demo_changed demo_file = ((s', Some b), Ok ()) /\ load (Some b) = Ok users /\
  has_priv (boot_privileges users store_new) (str "app") PSelect (str "d") (str "t") = true /\ dom users = {[ROOT; str "app"; str "bob"]}.
Proof.
  destruct (restart_keeps_privileges demo_changed store_new demo_file) as (s' & b & users & Hp & Hl & Hg & _ & Hb).
  - unfold known_users. rewrite demo_file_loads. exact demo_users_wf.
  - exact demo_changed_wf.
  - by vm_compute.
  - exists s', b, users. split; [exact Hp|]. split; [exact Hl|]. split.
    + rewrite Hg; [by vm_compute|by vm_compute|]. unfold known_users. rewrite demo_file_loads. set_solver.
    + assert (Hpv : (persist_privileges None demo_changed demo_file).1.2 = Some b) by by rewrite Hp.
      assert (Hd : (dom <$> load ((persist_privileges None demo_changed demo_file).1.2)) = Ok ({[ROOT; str "app"; str "bob"]} : gset bytes)) by by vm_compute.
      rewrite Hpv, Hl in Hd. by apply Ok_eq in Hd.
Defined.

Lemma unreadable_accounts_erased_witness : exists s' b users,
  persist_privileges None demo_changed (Some (str "HDBA")) = ((s', Some b), Ok ()) /\ load (Some b) = Ok users /\ users !! ROOT = None.
Proof.
  destruct (unreadable_accounts_erased demo_changed (Some (str "HDBA")) (auth_error "truncated")) as (s' & b & users & Hp & Hl & Hd).
  - by vm_compute.
  - exact demo_changed_wf.
  - by vm_compute.
  - exists s', b, users. split; [exact Hp|]. split; [exact Hl|]. apply not_elem_of_dom. intros Hin%Hd. by vm_compute in Hin.
Defined.

Lemma passwd_then_login_witness : exists file b, demo_file = Some file /\
  passwd_cmd None None (str "app") (str "new") PLUGIN_NATIVE (Some file) = (Some b, Ok ()) /\
  mysql_login (Some b) (str "12345678901234567890") (str "app") PLUGIN_NATIVE (client_proof PLUGIN_NATIVE (str "new") (str "12345678901234567890")) None
    = Welcome (str "app").
Proof.
  destruct demo_file as [file|] eqn:E; [|by vm_compute in E]. exists file.
  destruct (passwd_then_login demo_users file (str "app") (str "new") PLUGIN_NATIVE) as (b & Hp & _ & Hl).
  - rewrite <- E. exact demo_file_loads.
  - assert (Hb : match demo_file with Some f => forallb (fun x => (0 <=? x) && (x <? 256)) f | None => true end = true) by by vm_compute.
    rewrite E, forallb_forall in Hb. apply Forall_forall. intros x Hx%list_elem_of_In%Hb. widths. bsimp. lia.
  - clear E. by vm_compute.
  - clear E. by vm_compute.
  - clear E. by vm_compute.
  - clear E. apply (bool_decide_eq_false_1 (0 ∈ str "app")). by vm_compute.
  - by right.
  - exists b. split; [reflexivity|]. split; [exact Hp|apply Hl].
Defined.
