(* ===== verification/Stmt.v ===== *)
(** Prepared statements of the MySQL endpoint (crates/server/src/wire/stmt.rs,
    the COM_STMT commands of wire/mod.rs, split_statements of wire/canned.rs):
    parameter markers, their textual substitution, the decoding of bound
    values, and the table of statements of a connection. *)
From stdpp Require Import base list gmap strings.
From Stdlib Require Import ZArith Lia SpecFloat.
From S2P Require Import Prelude Machine Utf8 Types DateTime TableDef BTree Literal Lexer Float Session Packet.

(** * Markers *)

Definition QMARK : Z := 63.
Definition BACKTICK : Z := 96.
Definition SEMICOLON : Z := 59.

Definition is_quote (c : Z) : bool := (c =? QUOTE) || (c =? DQUOTE) || (c =? BACKTICK).

(** Where the scan of [find_placeholders] is: in the outer loop, in the loop of
    a quotation, in the loop of a comment. *)
Inductive Scan := Code | InQuote (q : Z) | InComment.

(** The offsets of the markers from byte [i] on. *)
Fixpoint find_from (st : Scan) (i : Z) (b : bytes) : list Z :=
  match b with
  | [] => []
  | c :: r =>
    match st with
    | Code =>
      if is_quote c then find_from (InQuote c) (i + 1) r
      else if (c =? DASH) && head_is DASH r then find_from InComment (i + 1) r
      else if c =? QMARK then i :: find_from Code (i + 1) r
      else find_from Code (i + 1) r
    | InQuote q =>
      if c =? q then
        match r with
        | c2 :: r2 => if c2 =? q then find_from (InQuote q) (i + 2) r2 else find_from Code (i + 1) r
        | [] => []
        end
      else find_from (InQuote q) (i + 1) r
    | InComment => if c =? NEWLINE then find_from Code (i + 1) r else find_from InComment (i + 1) r
    end
  end.

Definition find_placeholders (sql : bytes) : list Z := find_from Code 0 sql.

(** [&sql[a..b]] and [&sql[a..]]: the ends are markers, which are characters of
    one byte, so they lie on character boundaries; out of order or beyond the
    end they panic. *)
Definition str_slice (sql : bytes) (a b : Z) : res bytes :=
  if (a <=? b) && (b <=? Zlen sql) then Ok (take (Z.to_nat (b - a)) (drop (Z.to_nat a) sql)) else Panic.

Fixpoint subst_from (sql : bytes) (prev : Z) (marks : list (Z * bytes)) : res bytes :=
  match marks with
  | [] => str_slice sql prev (Zlen sql)
  | (off, lit) :: marks =>
    piece ← str_slice sql prev off;
    rest ← subst_from sql (off + 1) marks;
    mret (piece ++ lit ++ rest)
  end.

(** Errors are strings; they are the text of an [Io] error here. *)
Definition stmt_error {A} (msg : bytes) : res A := Err (Io msg).

Definition substitute (sql : bytes) (offsets : list Z) (lits : list bytes) : res bytes :=
  if negb (Zlen offsets =? Zlen lits) then
    stmt_error (str "parameter count mismatch: " ++ show_Z (Zlen offsets) ++ str " markers, " ++ show_Z (Zlen lits) ++ str " values")
  else subst_from sql 0 (zip offsets lits).

Definition neutralize_placeholders (sql : bytes) (offsets : list Z) : res bytes :=
  match substitute sql offsets (replicate (length offsets) (str "NULL")) with
  | Ok s => Ok s
  | Err _ => Ok sql
  | Panic => Panic
  end.

(** * Literals *)

Section literals.
(** [format!("{v}")] and [format!("{v:.17}")] of a float. *)
Context (f64_show f64_show_17 : Z -> bytes).

Definition render_float (v : Z) : bytes :=
  let s := f64_show v in
  if forallb (fun b => is_digit b || (b =? DOT) || (b =? DASH) || (b =? 43)) s then s else f64_show_17 v.

(** [s.replace('\'', "''")], on characters. *)
Fixpoint double_quotes (cs : list Z) : list Z :=
  match cs with [] => [] | c :: r => if c =? QUOTE then QUOTE :: QUOTE :: double_quotes r else c :: double_quotes r end.

Definition quoted (s : bytes) : bytes := of_chars (QUOTE :: double_quotes (chars s) ++ [QUOTE]).

Definition datum_literal (d : Datum) : bytes :=
  match d with
  | Null => str "NULL"
  | Int n => show_Z n
  | Float v => render_float v
  | Bool b => if b then str "TRUE" else str "FALSE"
  | Text s => quoted s
  | DateTime v => str "'" ++ format_datetime_micros v ++ str "'"
  end.
End literals.

(** * Statements of a text *)

Definition trim_chars (cs : list Z) : list Z := rev (trim_start (rev (trim_start cs))).

(** The piece [cur], when it is more than white space. *)
Definition piece (cur : list Z) : list (list Z) := match trim_chars cur with [] => [] | p => [p] end.

(** The pieces that end at a [;] outside quotes, and the last. *)
Fixpoint split_go (quote : option Z) (cur : list Z) (cs : list Z) : list (list Z) :=
  match cs with
  | [] => piece cur
  | c :: r =>
    match quote with
    | Some q =>
      if c =? q then
        match r with
        | c2 :: r2 => if c2 =? q then split_go quote (cur ++ [c; c2]) r2 else split_go None (cur ++ [c]) r
        | [] => piece (cur ++ [c])
        end
      else split_go quote (cur ++ [c]) r
    | None =>
      if is_quote c then split_go (Some c) (cur ++ [c]) r
      else if c =? SEMICOLON then piece cur ++ split_go None [] r
      else split_go None (cur ++ [c]) r
    end
  end.

Definition split_statements (sql : bytes) : list bytes := of_chars <$> split_go None [] (chars sql).

(** [normalize_dialect] of the trimmed statement. *)
Definition normalize_dialect (sql : bytes) : bytes :=
  if eq_ignore_ascii_case (trim sql) (str "start transaction") then str "BEGIN" else sql.

(** The texts COM_STMT_EXECUTE runs, in order until one fails. *)
Definition execute_batch (sql : bytes) (offsets : list Z) (lits : list bytes) : res (list bytes) :=
  final_sql ← substitute sql offsets lits;
  mret (match split_statements final_sql with [] => [final_sql] | batch => batch end).

(** * Bound values *)

Definition TYPE_DECIMAL : Z := 0x00.
Definition TYPE_TINY : Z := 0x01.
Definition TYPE_SHORT : Z := 0x02.
Definition TYPE_LONG : Z := 0x03.
Definition TYPE_FLOAT : Z := 0x04.
Definition TYPE_DOUBLE : Z := 0x05.
Definition TYPE_NULL : Z := 0x06.
Definition TYPE_TIMESTAMP : Z := 0x07.
Definition TYPE_LONGLONG : Z := 0x08.
Definition TYPE_INT24 : Z := 0x09.
Definition TYPE_DATE : Z := 0x0A.
Definition TYPE_TIME : Z := 0x0B.
Definition TYPE_DATETIME : Z := 0x0C.
Definition TYPE_YEAR : Z := 0x0D.
Definition TYPE_VARCHAR : Z := 0x0F.
Definition TYPE_BIT : Z := 0x10.
Definition TYPE_NEWDECIMAL : Z := 0xF6.
Definition TYPE_ENUM : Z := 0xF7.
Definition TYPE_SET : Z := 0xF8.
Definition TYPE_TINY_BLOB : Z := 0xF9.
Definition TYPE_MEDIUM_BLOB : Z := 0xFA.
Definition TYPE_LONG_BLOB : Z := 0xFB.
Definition TYPE_BLOB : Z := 0xFC.
Definition TYPE_VAR_STRING : Z := 0xFD.
Definition TYPE_STRING : Z := 0xFE.
Definition TYPE_GEOMETRY : Z := 0xFF.

Definition one_of (t : Z) (l : list Z) : bool := existsb (Z.eqb t) l.

(** ** [String::from_utf8_lossy]

    Each longest prefix of a character that goes wrong becomes U+FFFD. *)
Definition REPLACEMENT : bytes := [0xEF; 0xBF; 0xBD].

(** The length of the character a first byte announces and the range of its
    second byte. *)
Definition announced (b0 : Z) : option (Z * Z * Z) :=
  if between 0xC2 b0 0xDF then Some (2, 0x80, 0xBF)
  else if b0 =? 0xE0 then Some (3, 0xA0, 0xBF)
  else if between 0xE1 b0 0xEC || between 0xEE b0 0xEF then Some (3, 0x80, 0xBF)
  else if b0 =? 0xED then Some (3, 0x80, 0x9F)
  else if b0 =? 0xF0 then Some (4, 0x90, 0xBF)
  else if between 0xF1 b0 0xF3 then Some (4, 0x80, 0xBF)
  else if b0 =? 0xF4 then Some (4, 0x80, 0x8F)
  else None.

Fixpoint from_utf8_lossy (bs : bytes) : bytes :=
  match bs with
  | [] => []
  | b0 :: r0 =>
    if between 0 b0 0x7F then b0 :: from_utf8_lossy r0
    else
      match announced b0 with
      | None => REPLACEMENT ++ from_utf8_lossy r0
      | Some (n, lo, hi) =>
        match r0 with
        | [] => REPLACEMENT
        | b1 :: r1 =>
          if negb (between lo b1 hi) then REPLACEMENT ++ from_utf8_lossy r0
          else if n =? 2 then b0 :: b1 :: from_utf8_lossy r1
          else
            match r1 with
            | [] => REPLACEMENT
            | b2 :: r2 =>
              if negb (cont b2) then REPLACEMENT ++ from_utf8_lossy r1
              else if n =? 3 then b0 :: b1 :: b2 :: from_utf8_lossy r2
              else
                match r2 with
                | [] => REPLACEMENT
                | b3 :: r3 =>
                  if negb (cont b3) then REPLACEMENT ++ from_utf8_lossy r2
                  else b0 :: b1 :: b2 :: b3 :: from_utf8_lossy r3
                end
            end
        end
      end
  end.

Example lossy_ex : from_utf8_lossy (str "a" ++ [0xE2; 0x82] ++ str "b" ++ [0xFF; 0xE2; 0x82; 0xAC; 0xF0; 0x9F]) =
  str "a" ++ REPLACEMENT ++ str "b" ++ REPLACEMENT ++ [0xE2; 0x82; 0xAC] ++ REPLACEMENT.
Proof. by vm_compute. Qed.

(** [f32::from_bits(bits) as f64]; a NaN becomes the quiet one. *)
Definition f64_of_f32 (bits : Z) : Z :=
  let s := Z.testbit bits 31 in
  let e := (bits / 2 ^ 23) mod 2 ^ 8 in
  let m := bits mod 2 ^ 23 in
  let sign z := if s then - z else z in
  f64_bits
    (if e =? 255 then (if m =? 0 then S754_infinity s else S754_nan)
     else if e =? 0 then (if m =? 0 then S754_zero s else binary_normalize 53 1024 (sign m) (-149) false)
     else binary_normalize 53 1024 (sign (m + 2 ^ 23)) (e - 150) false).

Definition hex_digit (d : Z) : Z := if d <? 10 then 48 + d else 55 + d.
(** [{t:02X}] of a byte. *)
Definition hex2 (t : Z) : bytes := [hex_digit (t / 16); hex_digit (t mod 16)].

(** ** One value *)

Definition truncated : Error := Io (str "truncated EXECUTE packet").

(** [read(..).ok_or_else(|| "truncated EXECUTE packet")?] *)
Definition need {A} (o : Opt A) : Dec A := fun buf pos =>
  match o buf pos with
  | Ok (Some a, pos) => Ok (a, pos)
  | Ok (None, _) => Err truncated
  | Err e => Err e
  | Panic => Panic
  end.

Definition param_fail {A} (typ : Z) (what : string) : Dec A :=
  dec_fail (Io (str "param type 0x" ++ hex2 typ ++ str ": " ++ str what)).

Definition render_mysql_date (parts : list Z) (with_time : bool) (micros : option Z) : bytes :=
  let p i := nth i parts 0 in
  let date := fmt_pad 4 (p 0%nat) ++ str "-" ++ fmt_pad 2 (p 1%nat) ++ str "-" ++ fmt_pad 2 (p 2%nat) in
  if negb with_time then date
  else
    let t := fmt_pad 2 (p 3%nat) ++ str ":" ++ fmt_pad 2 (p 4%nat) ++ str ":" ++ fmt_pad 2 (p 5%nat) in
    match micros with
    | Some m => date ++ str " " ++ t ++ str "." ++ fmt_pad 6 m
    | None => date ++ str " " ++ t
    end.

(** The bytes of an integer type. *)
Definition int_width (typ : Z) : Z :=
  if typ =? TYPE_TINY then 1 else if typ =? TYPE_SHORT then 2 else if (typ =? TYPE_LONG) || (typ =? TYPE_INT24) then 4 else 8.

Definition int_value (unsigned : bool) (n raw : Z) : Datum :=
  if unsigned then
    let mask := if n =? 8 then u64_MAX else Z.shiftl 1 (8 * n) - 1 in
    let v := Z.land raw mask in
    if i64_MAX <? v then Text (show_Z v) else Int v
  else
    let shift := 64 - 8 * n in
    Int (Z.shiftr (wrap_i 64 (Z.shiftl raw shift)) shift).

(** The bytes of a string type behind the long data. *)
Definition full_bytes (extra : bytes) : Dec bytes := b ← need read_lenenc_bytes; mret (extra ++ b).

Fixpoint read_fields (n : nat) : Dec (list Z) :=
  match n with O => mret [] | S n => p ← need (read_le 1); ps ← read_fields n; mret (p :: ps) end.

(** [len]: the length byte of a date or time. *)
Definition date_value (typ len : Z) : Dec Datum :=
  if len =? 0 then mret Null
  else if negb (len =? 4) && negb (len =? 7) && negb (len =? 11) then param_fail typ "bad date length"
  else
    year ← need (read_le 2);
    fields ← read_fields (Z.to_nat (Z.min (len - 2) 5));
    let with_time := negb (typ =? TYPE_DATE) in
    if len =? 11 then micros ← need (read_le 4); mret (Text (render_mysql_date (year :: fields) with_time (Some micros)))
    else mret (Text (render_mysql_date (year :: fields) with_time None)).

Definition decode_param_value (typ : Z) (unsigned : bool) (extra : bytes) : Dec Datum :=
  let no_long what (d : Dec Datum) := if bool_decide (extra = []) then d else param_fail typ what in
  if typ =? TYPE_NULL then mret Null
  else if one_of typ [TYPE_TINY; TYPE_SHORT; TYPE_LONG; TYPE_INT24; TYPE_LONGLONG] then
    no_long "long data on numeric param" (raw ← need (read_le (int_width typ)); mret (int_value unsigned (int_width typ) raw))
  else if typ =? TYPE_FLOAT then no_long "long data on numeric param" (bits ← need (read_le 4); mret (Float (f64_of_f32 bits)))
  else if typ =? TYPE_DOUBLE then no_long "long data on numeric param" (bits ← need (read_le 8); mret (Float bits))
  else if one_of typ [TYPE_DECIMAL; TYPE_NEWDECIMAL] then
    full ← full_bytes extra;
    let s := from_utf8_lossy full in
    mret (match parse_i64 s with Some n => Int n | None => match parse_f64 s with Some f => Float f | None => Text s end end)
  else if one_of typ [TYPE_VARCHAR; TYPE_VAR_STRING; TYPE_STRING; TYPE_ENUM; TYPE_SET; TYPE_TINY_BLOB; TYPE_MEDIUM_BLOB;
                      TYPE_LONG_BLOB; TYPE_BLOB; TYPE_GEOMETRY] then
    full ← full_bytes extra; mret (Text (from_utf8_lossy full))
  else if one_of typ [TYPE_DATE; TYPE_TIME; TYPE_DATETIME; TYPE_TIMESTAMP] then
    no_long "long data on date param" (len ← need opt_byte; date_value typ len)
  else if typ =? TYPE_YEAR then no_long "long data on numeric param" (y ← need (read_le 2); mret (Int y))
  else if typ =? TYPE_BIT then
    full ← full_bytes extra;
    mret (if Zlen full <=? 8 then Int (wrap_i 64 (of_le full)) else Text (from_utf8_lossy full))
  else dec_fail (Io (str "unsupported param type 0x" ++ hex2 typ)).

(** ** The parameter section of COM_STMT_EXECUTE *)

Definition Types_ : Type := list (Z * bool).

(** [n] pairs of a type and its flags. *)
Fixpoint param_types (n : nat) (rest : bytes) : Types_ :=
  match n, rest with
  | S n, t :: f :: rest => (t, negb (Z.land f 0x80 =? 0)) :: param_types n rest
  | _, _ => []
  end.

(** Bit [i] of the bitmap. *)
Definition null_bit (bitmap : bytes) (i : nat) : bool := Z.testbit (nth (i / 8) bitmap 0) (Z.of_nat (i mod 8)).

(** The values from parameter [i] on. *)
Fixpoint decode_values (bitmap : bytes) (i : nat) (types : Types_) (long_data : list bytes) : Dec (list Datum) :=
  match types with
  | [] => mret []
  | (typ, unsigned) :: types =>
    v ← (if null_bit bitmap i then mret Null else decode_param_value typ unsigned (default [] (long_data !! i)));
    vs ← decode_values bitmap (S i) types long_data;
    mret (v :: vs)
  end.

Definition decode_execute_params (buf : bytes) (num_params : nat) (cached : option Types_) (long_data : list bytes) :
    res (list Datum * Types_) :=
  if Nat.eqb num_params 0 then
    if negb (bool_decide (buf = [])) then stmt_error (str "unexpected EXECUTE tail with zero params") else Ok ([], [])
  else
    let nbytes := ((num_params + 7) / 8)%nat in
    if Nat.ltb (length buf) (nbytes + 1) then stmt_error (str "truncated EXECUTE packet")
    else
      let bitmap := take nbytes buf in
      let flag := nth nbytes buf 0 in
      let rest := drop (S nbytes) buf in
      '(types, rest) ←
        (if flag =? 1 then
           if Nat.ltb (length rest) (2 * num_params) then stmt_error (str "truncated EXECUTE param types")
           else Ok (param_types num_params rest, drop (2 * num_params) rest)
         else match cached with Some t => Ok (t, rest) | None => stmt_error (str "EXECUTE without param types") end);
      if negb (Nat.eqb (length types) num_params) then stmt_error (str "param type count mismatch")
      else
        '(out, pos) ← decode_values bitmap 0 types long_data rest 0;
        if negb (pos =? Zlen rest) then stmt_error (str "trailing bytes in EXECUTE packet") else Ok (out, types).

(** A length near [2 ^ 64] in a bound string makes the server panic. *)
Example execute_panics : decode_execute_params ([0; 1; TYPE_VAR_STRING; 0; 0xFE] ++ to_le 8 u64_MAX) 1 None [[]] = Panic.
Proof. by vm_compute. Qed.

(** A TIME value as clients send it, of length 8 or 12, is refused. *)
Example time_refused : exists e, decode_execute_params ([0; 1; TYPE_TIME; 0; 8; 0; 0; 0; 0; 0; 12; 30; 0]) 1 None [[]] = Err e.
Proof. eexists. by vm_compute. Qed.

(** * The statements of a connection *)

Definition MAX_PREPARED_PER_CONN : Z := 4096.
Definition MAX_PARAMS_PER_STMT : Z := 4096.
Definition MAX_LONG_DATA_PER_PARAM : Z := 16 * 1024 * 1024.

Record Prepared := mkPrepared {
  pr_sql : bytes;
  pr_offsets : list Z;
  pr_types : option Types_;
  pr_long : list bytes;
  pr_overflow : bool;
}.

Definition Prepared_new (sql : bytes) (offsets : list Z) : Prepared :=
  mkPrepared sql offsets None (replicate (length offsets) []) false.

Definition num_params (p : Prepared) : nat := length (pr_offsets p).

Definition reset_long_data (p : Prepared) : Prepared :=
  mkPrepared (pr_sql p) (pr_offsets p) (pr_types p) (replicate (length (pr_long p)) []) false.

(** The prepared statements of a connection and the next id. *)
Record Conn := mkConn { cn_stmts : gmap Z Prepared; cn_next : Z }.

Definition conn_new : Conn := mkConn ∅ 1.

(** What a command answers: the payloads of its packets, an error, or for
    EXECUTE the texts to run. *)
Inductive Answer := Packets (ps : list bytes) | ErrMsg (code : Z) (msg : bytes) | ErrOf (e : Error) | Run (texts : list bytes).

Definition schema_col_type (t : ColumnType) : Z :=
  match t with
  | CInt | CBigInt => TYPE_LONGLONG
  | CFloat | CDouble => TYPE_DOUBLE
  | CText | CVarChar => TYPE_VAR_STRING
  | CBool => TYPE_TINY
  | CDateTime => TYPE_DATETIME
  | CTimestamp => TYPE_TIMESTAMP
  end.

Definition column_def_payload (name : bytes) (col_type : Z) : bytes :=
  enc_lenenc_str (str "def") ++ enc_lenenc_str [] ++ enc_lenenc_str [] ++ enc_lenenc_str [] ++ enc_lenenc_str name ++ enc_lenenc_str [] ++
  enc_lenenc_int 0x0C ++ to_le 2 33 ++ to_le 4 (if col_type =? TYPE_TINY then 1 else 1024) ++ [col_type] ++ to_le 2 0 ++ [0] ++ [0; 0].

Definition prepare_ok_payload (stmt_id num_cols num_params : Z) : bytes :=
  0 :: to_le 4 stmt_id ++ to_le 2 (Z.min num_cols 0xFFFF) ++ to_le 2 (Z.min num_params 0xFFFF) ++ [0] ++ to_le 2 0.

Section commands.
(** [db.describe], and the renderings of a float. *)
Context (describe : bytes -> res (list (bytes * ColumnType))) (f64_show f64_show_17 : Z -> bytes).

(** COM_STMT_PREPARE: the text behind the command byte. *)
Definition com_prepare (deprecate_eof : bool) (payload : bytes) (cn : Conn) : res (Conn * Answer) :=
  let sql := trim (from_utf8_lossy (tail payload)) in
  if bool_decide (sql = []) then Ok (cn, ErrMsg 1065 (str "empty statement"))
  else if 1 <? Zlen (split_statements sql) then Ok (cn, ErrMsg 1064 (str "multi-statement prepare not supported"))
  else
    let offsets := find_placeholders sql in
    if MAX_PARAMS_PER_STMT <? Zlen offsets then Ok (cn, ErrMsg 1064 (str "too many parameters"))
    else
      neutral ← neutralize_placeholders sql offsets;
      match describe neutral with
      | Ok cols =>
        if MAX_PREPARED_PER_CONN <=? Z.of_nat (size (cn_stmts cn)) then Ok (cn, ErrMsg 1047 (str "too many prepared statements"))
        else
          let id := cn_next cn in
          let n := length offsets in
          let eof := if deprecate_eof then [] else [eof_payload] in
          Ok (mkConn (<[id := Prepared_new sql offsets]> (cn_stmts cn)) (Z.max (wrap_u 32 (cn_next cn + 1)) 1),
              Packets ([prepare_ok_payload id (Zlen cols) (Z.of_nat n)] ++
                       (if Nat.eqb n 0 then [] else replicate n (column_def_payload (str "?") TYPE_VAR_STRING) ++ eof) ++
                       ((fun c => column_def_payload c.1 (schema_col_type c.2)) <$> cols) ++
                       (if bool_decide (cols = []) then [] else eof)))
      | Err e => Ok (cn, ErrOf e)
      | Panic => Panic
      end.

(** [u32::from_le_bytes(payload[1..5])] *)
Definition stmt_id_of (payload : bytes) : Z := of_le (take 4 (drop 1 payload)).

Definition with_stmt (id : Z) (p : Prepared) (cn : Conn) : Conn := mkConn (<[id := p]> (cn_stmts cn)) (cn_next cn).

(** COM_STMT_EXECUTE, up to the run of the texts. *)
Definition com_execute (payload : bytes) (cn : Conn) : res (Conn * Answer) :=
  if Zlen payload <? 10 then Ok (cn, ErrMsg 1064 (str "malformed EXECUTE packet"))
  else
    let id := stmt_id_of payload in
    match cn_stmts cn !! id with
    | None => Ok (cn, ErrMsg 1243 (str "unknown prepared statement"))
    | Some ps =>
      if pr_overflow ps then Ok (cn, ErrMsg 1105 (str "statement long data too large"))
      else
        match decode_execute_params (drop 10 payload) (num_params ps) (pr_types ps) (pr_long ps) with
        | Ok (values, types) =>
          match execute_batch (pr_sql ps) (pr_offsets ps) (datum_literal f64_show f64_show_17 <$> values) with
          | Ok texts =>
            Ok (with_stmt id (reset_long_data (mkPrepared (pr_sql ps) (pr_offsets ps) (Some types) (pr_long ps) (pr_overflow ps))) cn, Run texts)
          | Err (Io msg) => Ok (cn, ErrMsg 1064 msg)
          | Err e => Ok (cn, ErrOf e)
          | Panic => Panic
          end
        | Err (Io msg) => Ok (cn, ErrMsg 1064 msg)
        | Err e => Ok (cn, ErrOf e)
        | Panic => Panic
        end
    end.

(** COM_STMT_SEND_LONG_DATA: no answer. *)
Definition com_long_data (payload : bytes) (cn : Conn) : Conn :=
  if Zlen payload <? 7 then cn
  else
    let id := stmt_id_of payload in
    let idx := Z.to_nat (of_le (take 2 (drop 5 payload))) in
    match cn_stmts cn !! id with
    | None => cn
    | Some ps =>
      match pr_long ps !! idx with
      | None => cn
      | Some data =>
        if MAX_LONG_DATA_PER_PARAM <? Zlen data + Zlen (drop 7 payload)
        then with_stmt id (mkPrepared (pr_sql ps) (pr_offsets ps) (pr_types ps) (pr_long ps) true) cn
        else with_stmt id (mkPrepared (pr_sql ps) (pr_offsets ps) (pr_types ps) (<[idx := data ++ drop 7 payload]> (pr_long ps)) (pr_overflow ps)) cn
      end
    end.

(** COM_STMT_CLOSE: no answer. *)
Definition com_close (payload : bytes) (cn : Conn) : Conn :=
  if Zlen payload <? 5 then cn else mkConn (delete (stmt_id_of payload) (cn_stmts cn)) (cn_next cn).

Definition com_reset (payload : bytes) (cn : Conn) : Conn * Answer :=
  if Zlen payload <? 5 then (cn, ErrMsg 1064 (str "malformed RESET packet"))
  else
    let id := stmt_id_of payload in
    match cn_stmts cn !! id with
    | Some ps => (with_stmt id (reset_long_data ps) cn, Packets [ok_payload 0 []])
    | None => (cn, ErrMsg 1243 (str "unknown prepared statement"))
    end.

(** The COM_STMT commands. *)
Inductive StmtCommand := Prepare | Execute | SendLongData | Close | Reset_ | Fetch.

Definition com_stmt (deprecate_eof : bool) (cmd : StmtCommand) (payload : bytes) (cn : Conn) : res (Conn * Answer) :=
  match cmd with
  | Prepare => com_prepare deprecate_eof payload cn
  | Execute => com_execute payload cn
  | SendLongData => Ok (com_long_data payload cn, Packets [])
  | Close => Ok (com_close payload cn, Packets [])
  | Reset_ => Ok (com_reset payload cn)
  | Fetch => Ok (cn, ErrMsg 1047 (str "server-side cursors not supported"))
  end.

End commands.

(** * Selecting a database *)

(** [s.trim_matches('\0')] *)
Fixpoint trim_nul (cs : list Z) : list Z := match cs with c :: r => if c =? 0 then trim_nul r else cs | [] => [] end.

(** The name COM_INIT_DB carries. *)
Definition init_db_name (payload : bytes) : bytes :=
  trim (of_chars (rev (trim_nul (rev (trim_nul (chars (from_utf8_lossy (tail payload)))))))).

(** The statement the server runs for COM_INIT_DB and for the database of a
    handshake. *)
Definition use_statement (db_name : bytes) : bytes := str "USE " ++ [BACKTICK] ++ db_name ++ [BACKTICK].

(** The lexer knows no backtick, so none of these statements parses. *)
Lemma use_never_parses db_name : tokenize (use_statement db_name) = Ret (Err (ParseError (str "unexpected character '`'"))).
Proof.
  unfold tokenize. assert (exists X, chars (use_statement db_name) = 85 :: 83 :: 69 :: 32 :: BACKTICK :: X) as [X ->] by by eexists.
  reflexivity.
Qed.

(** ** What the splitter and the lexer make of a comment

    The splitter knows quotations, the lexer and [find_placeholders] comments as
    well. *)
Example comment_runs :
  split_statements (str "SELECT a FROM t -- first; DROP TABLE t") = [str "SELECT a FROM t -- first"; str "DROP TABLE t"].
Proof. by vm_compute. Qed.

Example comment_opens_quote :
  let sql := str "SELECT a FROM t -- don't
 WHERE a = ?" in
  execute_batch sql (find_placeholders sql) [quoted (str "x; DROP TABLE t; --")] =
  Ok [str "SELECT a FROM t -- don't
 WHERE a = 'x"; str "DROP TABLE t"; str "--'"].
Proof. by vm_compute. Qed.

(** A marker behind a minus sign: the negative number starts a comment. *)
Example minus_starts_comment :
  let sql := str "SELECT a FROM t WHERE a = -? AND b = 2" in
  execute_batch sql (find_placeholders sql) [datum_literal (fun _ => []) (fun _ => []) (Int (-1))] =
  Ok [str "SELECT a FROM t WHERE a = --1 AND b = 2"].
Proof. by vm_compute. Qed.
