(* ===== verification/StmtSpec.v ===== *)
(** Prepared statements keep their shape: what COM_STMT_EXECUTE runs is one
    statement, whose tokens are those of the prepared text with each marker
    replaced by one literal token. *)
From stdpp Require Import base list gmap strings.
From Stdlib Require Import ZArith Lia.
From S2P Require Import Prelude Machine Utf8 Types DateTime TableDef WalCodec Catalog BTree Literal Lexer Float Session Print PrintLex Packet Stmt.

(** * The prepared text as tokens and holes *)

Inductive Slot := Tok (t : Token) | Hole.

Definition is_sym (t : Token) : bool := match t with TSym _ => true | _ => false end.

(** What may follow a marker: the end, or a character that ends every literal. *)
Definition ends_literal (r : list Z) : bool :=
  match r with
  | [] => true
  | x :: _ => negb (ident_char x || (x =? DOT) || (x =? QUOTE) || (x =? chr "=") || (x =? chr ">") || (x =? QMARK))
  end.

(** The tokens of a text in which each marker stands by itself: behind white
    space or a symbol, and before something that ends a literal.  Comments and
    [;] are left out: the splitter does not know the first. *)
Fixpoint template_go (fuel : nat) (cs : list Z) : option (list Slot) :=
  match fuel with
  | O => None
  | S fuel =>
    match cs with
    | [] => Some []
    | c :: r =>
      if is_whitespace c then template_go fuel r
      else if c =? QMARK then if ends_literal r then cons Hole <$> template_go fuel r else None
      else if (c =? DASH) && head_is DASH r then None
      else
        match read_token c r with
        | Ok (t, rest) =>
          if bool_decide (t = TSym SEMICOLON) || (head_is QMARK rest && negb (is_sym t)) then None
          else cons (Tok t) <$> template_go fuel rest
        | _ => None
        end
    end
  end.

Definition template (sql : bytes) : option (list Slot) := template_go (S (length (chars sql))) (chars sql).

(** The tokens of a text with the holes filled in order. *)
Fixpoint fill_slots (slots : list Slot) (toks : list Token) : list Token :=
  match slots with
  | [] => []
  | Tok t :: slots => t :: fill_slots slots toks
  | Hole :: slots => match toks with t :: toks => t :: fill_slots slots toks | [] => fill_slots slots [] end
  end.

Definition holes (slots : list Slot) : nat := length (List.filter (fun s => match s with Hole => true | _ => false end) slots).

Section spec.
Context (f64_show f64_show_17 : Z -> bytes).

(** The token of a bound value: a literal, but the bare name of an infinity or
    a NaN, whose rendering is no number. *)
Definition datum_token (d : Datum) : Token :=
  match d with
  | Null => TIdent (str "NULL")
  | Int n => TNumber (show_Z n)
  | Float v => let r := render_float f64_show f64_show_17 v in if number_ok r then TNumber r else TIdent r
  | Bool b => TIdent (if b then str "TRUE" else str "FALSE")
  | Text s => TStr s
  | DateTime v => TStr (format_datetime_micros v)
  end.

(** Text is a Rust string, and the rendering of a float is a number, [inf] or
    [NaN]: everything but [-inf], which the lexer refuses. *)
Definition bindable (d : Datum) : bool :=
  match d with
  | Text s => utf8_valid s
  | Float v =>
    let r := render_float f64_show f64_show_17 v in
    number_ok r || bool_decide (r = str "inf") || bool_decide (r = str "NaN")
  | _ => true
  end.

End spec.

(** * The scan, one character at a time *)

Definition step (st : Scan) (c : Z) (dash : bool) : Scan :=
  match st with
  | Code => if is_quote c then InQuote c else if (c =? DASH) && dash then InComment else Code
  | InQuote q => if c =? q then Code else st
  | InComment => if c =? NEWLINE then Code else st
  end.

Definition marker (st : Scan) (c : Z) : bool := match st with Code => c =? QMARK | _ => false end.

Definition scan_ok (st : Scan) : Prop := match st with InQuote q => is_quote q = true | _ => True end.

Lemma quote_cases q : is_quote q = true -> q = QUOTE \/ q = DQUOTE \/ q = BACKTICK.
Proof. unfold is_quote. rewrite !orb_true_iff, !Z.eqb_eq. tauto. Qed.

Lemma com_step_ok st c d : scan_ok st -> scan_ok (step st c d).
Proof. unfold scan_ok, step. destruct st; repeat case_match; congruence || done. Qed.

Lemma find_step st i c r : scan_ok st ->
  find_from st i (c :: r) = (if marker st c then [i] else []) ++ find_from (step st c (head_is DASH r)) (i + 1) r.
Proof.
  intros Hst. destruct st as [|q|]; cbn [find_from marker step].
  - destruct (is_quote c) eqn:Eq.
    + rewrite (proj2 (Z.eqb_neq c QMARK)); [done|]. by apply quote_cases in Eq as [->|[-> | ->]].
    + destruct ((c =? DASH) && head_is DASH r) eqn:Ed.
      * apply andb_true_iff in Ed as [->%Z.eqb_eq _]. done.
      * by destruct (c =? QMARK).
  - destruct (Z.eqb_spec c q) as [->|]; [|done]. destruct r as [|c2 r2]; [done|]. cbn [find_from app].
    destruct (Z.eqb_spec c2 q) as [->|]; [|done]. cbn [scan_ok] in Hst. rewrite Hst. f_equal. lia.
  - by destruct (c =? NEWLINE).
Qed.

(** The text with its markers replaced, on characters. *)
Fixpoint fill (st : Scan) (cs : list Z) (lits : list (list Z)) : list Z :=
  match cs with
  | [] => []
  | c :: r =>
    let st' := step st c (head_is DASH r) in
    if marker st c then match lits with l :: lits => l ++ fill st' r lits | [] => c :: fill st' r [] end
    else c :: fill st' r lits
  end.

Fixpoint marks (st : Scan) (cs : list Z) : nat :=
  match cs with
  | [] => 0
  | c :: r => (if marker st c then 1 else 0) + marks (step st c (head_is DASH r)) r
  end.

(** ** Bytes and characters *)

Lemma head_of_chars x r : 0 <= x < 128 -> Forall scalar r -> head_is x (of_chars r) = head_is x r.
Proof.
  intros Hx Hr. destruct Hr as [|c r Hc _]; [done|]. rewrite of_chars_cons. pose proof (of_char_shape c Hc) as Hs. unfold scalar in Hc.
  destruct Hs; cbn [app head_is]; [done|..]; rewrite !(proj2 (Z.eqb_neq _ _)) by lia; done.
Qed.

Lemma step_high st c d : scan_ok st -> 128 <= c -> step st c d = st /\ marker st c = false.
Proof.
  intros Hst Hc. assert (is_quote c = false) as Hq.
  { apply not_true_iff_false. intros [->|[-> | ->]]%quote_cases; by cbn in Hc. }
  destruct st as [|q|]; cbn [step marker].
  - rewrite Hq, !(proj2 (Z.eqb_neq _ _)); [done|unfold QMARK; lia|unfold DASH; lia].
  - rewrite (proj2 (Z.eqb_neq c q)); [done|]. apply quote_cases in Hst as [->|[-> | ->]]; unfold QUOTE, DQUOTE, BACKTICK; lia.
  - by rewrite (proj2 (Z.eqb_neq c NEWLINE)) by (unfold NEWLINE; lia).
Qed.

Lemma find_high st bs : scan_ok st -> Forall (fun b => 128 <= b) bs -> forall i r, find_from st i (bs ++ r) = find_from st (i + Zlen bs) r.
Proof.
  intros Hst Hb. induction Hb as [|b bs Hb _ IH]; intros i r; [cbn; by rewrite Z.add_0_r|].
  cbn [app]. rewrite find_step by done. destruct (step_high st b (head_is DASH (bs ++ r)) Hst Hb) as [-> ->]. rewrite IH. cbn [app length].
  f_equal. lia.
Qed.

(** The scan of a character's bytes is the step of the character. *)
Lemma find_char st i c r : scan_ok st -> scalar c -> Forall scalar r ->
  find_from st i (of_chars (c :: r)) =
  (if marker st c then [i] else []) ++ find_from (step st c (head_is DASH r)) (i + Zlen (of_char c)) (of_chars r).
Proof.
  intros Hst Hc Hr. rewrite of_chars_cons. destruct (Z.ltb_spec c 128) as [Hl|Hh].
  - assert (of_char c = [c]) as -> by (unfold of_char; by rewrite (proj2 (Z.ltb_lt c 0x80))). cbn [app].
    rewrite find_step, head_of_chars by done. done.
  - destruct (step_high st c (head_is DASH r) Hst Hh) as [-> ->]. apply find_high; [done|].
    pose proof (of_char_shape c Hc) as Hs. unfold scalar in Hc. destruct Hs; repeat constructor; lia.
Qed.

Lemma find_marks cs : Forall scalar cs -> forall st i, scan_ok st -> length (find_from st i (of_chars cs)) = marks st cs.
Proof.
  induction 1 as [|c cs Hc Hcs IH]; intros st i Hst; [by destruct st|]. rewrite find_char by done. rewrite length_app, IH by by apply com_step_ok.
  cbn [marks]. by destruct (marker st c).
Qed.

Lemma subst_fill cs : Forall scalar cs -> forall st P prev lits, scan_ok st -> 0 <= prev <= Zlen P -> length lits = marks st cs ->
  subst_from (P ++ of_chars cs) prev (zip (find_from st (Zlen P) (of_chars cs)) (of_chars <$> lits)) =
  Ok (drop (Z.to_nat prev) P ++ of_chars (fill st cs lits)).
Proof.
  induction 1 as [|c cs Hc Hcs IH]; intros st P prev lits Hst Hp Hl.
  - assert (find_from st (Zlen P) (of_chars []) = []) as -> by by destruct st. cbn [zip subst_from]. unfold str_slice. rewrite app_nil_r.
    zb. cbn [andb fill]. rewrite app_nil_r. rewrite take_ge; [done|]. rewrite length_drop. lia.
  - rewrite find_char by done. set (st' := step st c _) in *. cbn [fill marks] in *. fold st' in Hl |- *.
    assert (HP : forall X, P ++ of_chars (c :: X) = (P ++ of_char c) ++ of_chars X) by (intros X; by rewrite of_chars_cons, app_assoc).
    assert (Hst' : scan_ok st') by by apply com_step_ok.
    specialize (IH st' (P ++ of_char c)). rewrite Zlen_app in IH. destruct (marker st c) eqn:Em.
    + destruct lits as [|l lits]; [done|]. cbn [fmap list_fmap zip app subst_from]. cbn [length] in Hl.
      assert (of_char c = [c]) as Hc1.
      { destruct st; [|done..]. cbn in Em. apply Z.eqb_eq in Em as ->. done. }
      unfold str_slice at 1. rewrite Zlen_app. zb. cbn [andb mbind res_bind].
      rewrite HP. rewrite Hc1 in *. change (Zlen [c]) with 1 in *. rewrite (IH (Zlen P + 1) lits) by (done || lia). cbn [mbind res_bind mret res_ret].
      rewrite <- !app_assoc, drop_app_le, take_app_le by (rewrite ?length_drop; lia). rewrite take_ge by (rewrite length_drop; lia).
      rewrite of_chars_app. do 2 f_equal. rewrite drop_ge; [done|]. rewrite length_app. cbn. lia.
    + cbn [app]. rewrite HP, (IH prev lits) by (done || lia). rewrite of_chars_cons, app_assoc. do 2 f_equal.
      apply drop_app_le. lia.
Qed.

(** Substituting literals at the markers of a text. *)
Lemma substitute_fill sql lits : utf8_valid sql = true -> length lits = marks Code (chars sql) ->
  substitute sql (find_placeholders sql) (of_chars <$> lits) = Ok (of_chars (fill Code (chars sql) lits)).
Proof.
  intros [Hs Hc]%chars_valid Hl. set (cs := chars sql) in *. clearbody cs. subst sql. unfold substitute, find_placeholders.
  rewrite find_marks, length_fmap, Hl, Z.eqb_refl by done. cbn [negb].
  pose proof (subst_fill cs Hc Code [] 0 lits) as H. cbn [app drop] in H. change (Zlen []) with 0 in H. rewrite H by (done || lia). done.
Qed.

(** * Words *)

(** The state of the scan behind the word [w], in front of [rest], when the
    word holds no marker. *)
Fixpoint after (st : Scan) (w rest : list Z) : option Scan :=
  match w with
  | [] => Some st
  | c :: w => if marker st c then None else after (step st c (head_is DASH (w ++ rest))) w rest
  end.

Lemma after_fill w rest st' : forall st, after st w rest = Some st' ->
  (forall lits, fill st (w ++ rest) lits = w ++ fill st' rest lits) /\ marks st (w ++ rest) = marks st' rest.
Proof.
  induction w as [|c w IH]; intros st H; cbn [after] in H; [by injection H as <-|].
  destruct (marker st c) eqn:Em; [done|]. apply IH in H as [H1 H2]. cbn [app fill marks]. rewrite Em, H2. split; [|done].
  intros lits. by rewrite H1.
Qed.

(** The splitter, one character at a time; [None] at a [;] that splits. *)
Definition snext (q : option Z) (c : Z) : option (option Z) :=
  match q with
  | Some k => Some (if c =? k then None else q)
  | None => if is_quote c then Some (Some c) else if c =? SEMICOLON then None else Some None
  end.

Definition split_ok (q : option Z) : Prop := match q with Some k => is_quote k = true | None => True end.

Lemma split_step q cur c r q' : split_ok q -> snext q c = Some q' -> split_go q cur (c :: r) = split_go q' (cur ++ [c]) r /\ split_ok q'.
Proof.
  intros Hq. destruct q as [k|]; cbn [snext split_go].
  - intros [= <-]. destruct (Z.eqb_spec c k) as [->|]; [|done]. split; [|done]. destruct r as [|c2 r2]; [done|]. cbn [split_go].
    destruct (Z.eqb_spec c2 k) as [->|]; [|done]. cbn [split_ok] in Hq. by rewrite Hq, <- app_assoc.
  - destruct (is_quote c) eqn:Ec; [by intros [= <-]|]. destruct (c =? SEMICOLON); [done|]. by intros [= <-].
Qed.

Fixpoint splits (q : option Z) (w : list Z) : option (option Z) :=
  match w with [] => Some q | c :: w => q' ← snext q c; splits q' w end.

Lemma splits_go w r q' : forall q cur, split_ok q -> splits q w = Some q' -> split_go q cur (w ++ r) = split_go q' (cur ++ w) r.
Proof.
  induction w as [|c w IH]; intros q cur Hq H; cbn [splits] in H; [injection H as <-; by rewrite app_nil_r|].
  destruct (snext q c) as [q1|] eqn:E; [|done]. cbn in H. destruct (split_step q cur c (w ++ r) q1 Hq E) as [E1 H1].
  cbn [app]. rewrite E1, (IH q1 _ H1 H), <- app_assoc. done.
Qed.

(** A character neither machine notices. *)
Definition plain (c : Z) : bool := negb (is_quote c || (c =? QMARK) || (c =? SEMICOLON) || (c =? DASH)).

Lemma plain_word w rest : forallb plain w = true -> after Code w rest = Some Code /\ splits None w = Some None.
Proof.
  induction w as [|c w IH]; [done|]. cbn [forallb after splits]. intros [Hc Hw]%andb_true_iff. unfold plain in Hc. bsimp.
  destruct (IH Hw) as [IH1 IH2]. cbn [marker step snext]. repeat match goal with H : is_quote c = false |- _ => rewrite H end.
  rewrite !(proj2 (Z.eqb_neq c _)) by done. done.
Qed.

Lemma ident_char_plain c : ident_char c = true -> plain c = true.
Proof.
  unfold ident_char, is_alphanumeric, is_alphabetic, is_digit, between, plain, is_quote. intros H.
  rewrite !(proj2 (Z.eqb_neq _ _)); [done|..]; unfold QUOTE, DQUOTE, BACKTICK, QMARK, SEMICOLON, DASH;
    intros ->; by vm_compute in H.
Qed.

Lemma number_char_plain c : is_digit c || (c =? DOT) = true -> plain c = true.
Proof.
  intros [H| ->%Z.eqb_eq]%orb_true_iff; [|done]. apply ident_char_plain. unfold ident_char, is_alphanumeric. by rewrite H, orb_true_r.
Qed.

Lemma forallb_impl {A} (p q : A -> bool) l : (forall x, p x = true -> q x = true) -> forallb p l = true -> forallb q l = true.
Proof. intros H. rewrite !forallb_forall. auto. Qed.

(** [r'] may stand where [rest] stood behind the token [t]: it begins alike, or
    is empty, or a literal takes the place of a marker behind a symbol. *)
Definition follows (t : Token) (rest r' : list Z) : Prop :=
  head r' = head rest \/ r' = [] \/ (is_sym t = true /\ head_is (chr "=") r' = false /\ head_is (chr ">") r' = false).

Definition alike (rest r' : list Z) : Prop := head r' = head rest \/ r' = [].

Lemma follows_alike t rest r' : is_sym t = false -> follows t rest r' -> alike rest r'.
Proof. intros Ht [?|[?|(? & _)]]; [by left|by right|congruence]. Qed.

(** ** Strings *)

Lemma string_word q n : is_quote q = true -> forall r s rest, (length r <= n)%nat -> read_string q r = Some (s, rest) ->
  exists w, r = w ++ rest /\ after (InQuote q) w rest = Some Code /\ splits (Some q) w = Some None /\
    forall r', alike rest r' -> read_string q (w ++ r') = Some (s, r').
Proof.
  intros Hq. induction n as [|n IH]; intros [|c r] s rest Hn H; cbn [length] in Hn; try done; try lia. cbn [read_string] in H.
  destruct (Z.eqb_spec c q) as [->|Hc].
  - destruct r as [|c2 r2].
    { injection H as <- <-. exists [q]. cbn. rewrite Z.eqb_refl. split_and!; [done..|]. intros r' [?| ->]; [by destruct r'|done]. }
    destruct (Z.eqb_spec c2 q) as [->|Hc2].
    + destruct (read_string q r2) as [[s2 rest2]|] eqn:E; [|done]. injection H as <- <-. cbn [length] in Hn.
      destruct (IH r2 s2 rest2 ltac:(lia) E) as (w & -> & H1 & H2 & H3). exists (q :: q :: w). split_and!; [done|..].
      * cbn [after marker step]. rewrite Z.eqb_refl. cbn [after marker step]. rewrite Hq. assert (q =? QMARK = false) as ->; [|done].
        by apply quote_cases in Hq as [->|[-> | ->]].
      * cbn [splits snext]. rewrite Z.eqb_refl. cbn. rewrite Hq. done.
      * intros r' Hr. cbn [app read_string]. rewrite !Z.eqb_refl. by rewrite (H3 r' Hr).
    + injection H as <- <-. exists [q]. split_and!; [done|..].
      * cbn. by rewrite Z.eqb_refl.
      * cbn. by rewrite Z.eqb_refl.
      * intros r' [Hr| ->]; cbn [app read_string]; rewrite Z.eqb_refl; [|done]. destruct r' as [|x r']; [done|].
        injection Hr as ->. by rewrite (proj2 (Z.eqb_neq c2 q)).
  - destruct (read_string q r) as [[s2 rest2]|] eqn:E; [|done]. injection H as <- <-.
    destruct (IH r s2 rest2 ltac:(lia) E) as (w & -> & H1 & H2 & H3). exists (c :: w). split_and!; [done|..].
    + cbn [after marker step]. by rewrite (proj2 (Z.eqb_neq c q)).
    + cbn [splits snext]. by rewrite (proj2 (Z.eqb_neq c q)).
    + intros r' Hr. cbn [app read_string]. rewrite (proj2 (Z.eqb_neq c q)) by done. by rewrite (H3 r' Hr).
Qed.

(** ** Numbers and words *)

Lemma number_tail_word s : forall f a rest, number_tail f s = (a, rest) ->
  s = a ++ rest /\ forallb (fun c => is_digit c || (c =? DOT)) a = true /\
  forall r', alike rest r' -> number_tail f (a ++ r') = (a, r').
Proof.
  induction s as [|c s IH]; intros f a rest H; cbn [number_tail] in H.
  - injection H as <- <-. split_and!; [done..|]. intros r' [?| ->]; [by destruct r'|done].
  - destruct (is_digit c) eqn:Ed; [|destruct ((c =? DOT) && negb f) eqn:Ef].
    + destruct (number_tail f s) as [a' b'] eqn:E. injection H as <- <-. destruct (IH _ _ _ E) as (-> & H1 & H2).
      split_and!; [done|cbn; by rewrite Ed|]. intros r' Hr. cbn [app number_tail]. by rewrite Ed, (H2 r' Hr).
    + destruct (number_tail true s) as [a' b'] eqn:E. injection H as <- <-. destruct (IH _ _ _ E) as (-> & H1 & H2).
      apply andb_true_iff in Ef as [Ec Ef]. split_and!; [done|cbn; by rewrite Ec, orb_true_r|].
      intros r' Hr. cbn [app number_tail]. by rewrite Ed, Ec, Ef, (H2 r' Hr).
    + injection H as <- <-. split_and!; [done..|]. intros r' [Hr| ->]; [|done]. destruct r' as [|x r']; [done|]. injection Hr as ->.
      cbn [app number_tail]. by rewrite Ed, Ef.
Qed.

Lemma span_word p s a rest : span p s = (a, rest) -> s = a ++ rest /\ forallb p a = true /\ forall r', alike rest r' -> span p (a ++ r') = (a, r').
Proof.
  intros (-> & Ha & Hr)%span_parts. split_and!; [done..|]. intros r' [Hh| ->]; apply span_all; try done.
  destruct r' as [|x r']; [done|]. destruct rest as [|y rest]; [done|]. by injection Hh as ->.
Qed.

(** ** Tokens *)

(** The word [c :: w] in front of [rest] is the token [t], whatever [follows];
    neither machine is left inside a quotation by it. *)
Definition word_of (c : Z) (w rest : list Z) (t : Token) : Prop :=
  after Code (c :: w) rest = Some Code /\ splits None (c :: w) = Some None /\
  (c = DASH -> w <> [] /\ head_is DASH w = false) /\
  forall r', follows t rest r' -> read_token c (w ++ r') = Ok (t, r').

Lemma string_token c r t rest : (c =? QUOTE) || (c =? DQUOTE) = true -> read_token c r = Ok (t, rest) ->
  exists w, r = w ++ rest /\ word_of c w rest t.
Proof.
  intros Hc H. assert (Hq : is_quote c = true) by (unfold is_quote; by rewrite Hc). unfold read_token in H. rewrite Hc in H.
  destruct (read_string c r) as [[s r2]|] eqn:E; [|done]. injection H as <- <-.
  destruct (string_word c (length r) Hq r s r2 ltac:(lia) E) as (w & -> & H1 & H2 & H3). exists w. split; [done|]. split_and!.
  - cbn [after marker step]. rewrite Hq. assert (c =? QMARK = false) as ->; [|done]. by apply quote_cases in Hq as [->|[-> | ->]].
  - cbn [splits snext]. by rewrite Hq.
  - intros ->. by vm_compute in Hc.
  - intros r' Hr%follows_alike; [|done]. unfold read_token. by rewrite Hc, (H3 r' Hr).
Qed.

Lemma plain_word_of c w rest t : forallb plain (c :: w) = true -> (forall r', follows t rest r' -> read_token c (w ++ r') = Ok (t, r')) ->
  word_of c w rest t.
Proof.
  intros Hp Hr. destruct (plain_word (c :: w) rest Hp) as [H1 H2]. split_and!; [done..| |done].
  intros ->. by apply andb_true_iff in Hp as [? _].
Qed.

Lemma digit_not_quote c : is_digit c = true -> (c =? QUOTE) || (c =? DQUOTE) = false /\ (c =? DASH) = false.
Proof.
  intros H%digit_range. rewrite !(proj2 (Z.eqb_neq c _)); [done|..]; unfold QUOTE, DQUOTE, DASH; lia.
Qed.

Lemma digits_token c r t rest : is_digit c = true -> read_token c r = Ok (t, rest) -> exists w, r = w ++ rest /\ word_of c w rest t.
Proof.
  intros Hd H. destruct (digit_not_quote c Hd) as [Hq Hm]. unfold read_token in H. rewrite Hq, Hd in H. unfold read_number in H. rewrite Hm in H.
  destruct (number_tail false (c :: r)) as [n r2] eqn:E. injection H as <- <-.
  destruct (number_tail_word _ _ _ _ E) as (Es & Hn & Hr). destruct n as [|x w].
  { cbn [number_tail] in E. rewrite Hd in E. by destruct (number_tail false r). }
  injection Es as <- ->. exists w. split; [done|]. apply plain_word_of; [by eapply forallb_impl; [apply number_char_plain|exact Hn]|].
  intros r' Hf%follows_alike; [|done]. unfold read_token. rewrite Hq, Hd. unfold read_number. rewrite Hm.
  specialize (Hr r' Hf). cbn [app] in Hr. by rewrite Hr.
Qed.

Lemma ident_start_not c : ident_start c = true -> (c =? QUOTE) || (c =? DQUOTE) = false /\ is_digit c = false.
Proof.
  intros H%ident_start_range. split.
  - rewrite !(proj2 (Z.eqb_neq c _)); [done|..]; unfold QUOTE, DQUOTE; lia.
  - unfold is_digit. apply andb_false_iff. right. apply Z.leb_gt. lia.
Qed.

Lemma ident_token c r t rest : ident_start c = true -> read_token c r = Ok (t, rest) -> exists w, r = w ++ rest /\ word_of c w rest t.
Proof.
  intros Hi H. destruct (ident_start_not c Hi) as [Hq Hd]. unfold read_token in H. rewrite Hq, Hd, Hi in H. unfold read_ident in H.
  destruct (span ident_char (c :: r)) as [n r2] eqn:E. injection H as <- <-.
  destruct (span_word _ _ _ _ E) as (Es & Hn & Hr). destruct n as [|x w].
  { cbn [span] in E. rewrite (ident_start_char c Hi) in E. by destruct (span ident_char r). }
  injection Es as <- ->. exists w. split; [done|]. apply plain_word_of; [by eapply forallb_impl; [apply ident_char_plain|exact Hn]|].
  intros r' Hf%follows_alike; [|done]. unfold read_token. rewrite Hq, Hd, Hi. unfold read_ident.
  specialize (Hr r' Hf). cbn [app] in Hr. by rewrite Hr.
Qed.

Lemma dash_token r t rest : peek_digit r = true -> read_token DASH r = Ok (t, rest) -> exists w, r = w ++ rest /\ word_of DASH w rest t.
Proof.
  intros Hp H. unfold read_token in H. cbn -[read_number of_chars peek_digit] in H. rewrite Hp in H. unfold read_number in H. rewrite Z.eqb_refl in H.
  destruct (number_tail false r) as [n r2] eqn:E. injection H as <- <-.
  destruct (number_tail_word _ _ _ _ E) as (-> & Hn & Hr). destruct n as [|x w].
  { cbn [app] in *. destruct r2 as [|y r2]; [done|]. cbn [peek_digit number_tail] in *. rewrite Hp in E. by destruct (number_tail false r2). }
  assert (Hx : is_digit x = true) by done. destruct (digit_not_quote x Hx) as [_ Hxm].
  exists (x :: w). split; [done|]. destruct (plain_word (x :: w) r2) as [H1 H2]; [by eapply forallb_impl; [apply number_char_plain|exact Hn]|].
  split_and!.
  - cbn [after marker step app head_is]. rewrite Hxm. exact H1.
  - exact H2.
  - intros _. cbn [head_is]. by rewrite Hxm.
  - intros r' Hf%follows_alike; [|done]. unfold read_token. cbn -[read_number of_chars peek_digit]. cbn [peek_digit app]. rewrite Hx.
    unfold read_number. rewrite Z.eqb_refl. specialize (Hr r' Hf). cbn [app] in Hr. by rewrite Hr.
Qed.

Lemma head_is_alike x rest r' : head r' = head rest -> head_is x r' = head_is x rest.
Proof. by destruct r', rest; intros [=]; subst. Qed.

(** A sign read without its follower; [b] says which it refused. *)
Lemma sign_follows t rest r' x : x = chr "=" \/ x = chr ">" -> follows t rest r' -> head_is x rest = false -> head_is x r' = false.
Proof.
  intros Hx [H|[-> |(_ & H1 & H2)]] Hr; [by rewrite (head_is_alike x rest r' H)|done|]. by destruct Hx as [-> | ->].
Qed.

Lemma symbol_token c r t rest : (c =? QUOTE) || (c =? DQUOTE) = false -> is_digit c = false -> ident_start c = false ->
  (c =? DASH) && peek_digit r = false -> read_token c r = Ok (t, rest) -> t <> TSym SEMICOLON ->
  exists w, r = w ++ rest /\ word_of c w rest t.
Proof.
  intros Hq Hd Hi Hm H Ht. assert (Hread : forall r', c <> DASH -> read_token c r' =
    if simple_sym c then Ok (TSym c, r')
    else if c =? chr "<" then
      if head_is (chr "=") r' then Ok (TSym SYM_LE, tail r') else if head_is (chr ">") r' then Ok (TSym SYM_NE, tail r') else Ok (TSym c, r')
    else if c =? chr ">" then if head_is (chr "=") r' then Ok (TSym SYM_GE, tail r') else Ok (TSym c, r')
    else if c =? chr "!" then if head_is (chr "=") r' then Ok (TSym SYM_NE, tail r') else Err (ParseError (str "expected '!='"))
    else Err (ParseError (str "unexpected character '" ++ of_char c ++ str "'"))).
  { intros r' Hc. unfold read_token. by rewrite Hq, Hd, Hi, (proj2 (Z.eqb_neq c DASH)). }
  destruct (Z.eqb_spec c DASH) as [->|Hc].
  { exfalso. cbn [andb] in Hm. unfold read_token in H. rewrite Hq, Hd, Hi, Hm in H. rewrite andb_false_r in H. by vm_compute in H. }
  assert (Htail : forall x, head_is x r = true -> r = x :: tail r).
  { intros x Hx. destruct r as [|y r]; [done|]. by apply Z.eqb_eq in Hx as ->. }
  rewrite Hread in H by done. destruct (simple_sym c) eqn:Es.
  - injection H as <- <-. exists []. split; [done|]. apply plain_word_of.
    + unfold simple_sym in Es. apply existsb_exists in Es as (x & Hx & ->%Z.eqb_eq). cbn [str] in Hx. cbn.
      assert (x <> SEMICOLON) by congruence. rewrite andb_true_r. cbn in Hx. repeat (destruct Hx as [<-|Hx]; [try done|]); done.
    + intros r' _. cbn [app]. by rewrite Hread.
  - destruct (Z.eqb_spec c (chr "<")) as [->|_]; [|destruct (Z.eqb_spec c (chr ">")) as [->|_]; [|destruct (Z.eqb_spec c (chr "!")) as [->|_]; [|done]]].
    + destruct (head_is (chr "=") r) eqn:E1; [|destruct (head_is (chr ">") r) eqn:E2]; injection H as <- <-.
      * exists [chr "="]. split; [by apply Htail|]. by apply plain_word_of.
      * exists [chr ">"]. split; [by apply Htail|]. by apply plain_word_of.
      * exists []. split; [done|]. apply plain_word_of; [done|]. intros r' Hf. cbn [app]. rewrite Hread by done.
        rewrite (sign_follows _ r r' (chr "=")), (sign_follows _ r r' (chr ">")) by (done || auto). done.
    + destruct (head_is (chr "=") r) eqn:E1; injection H as <- <-.
      * exists [chr "="]. split; [by apply Htail|]. by apply plain_word_of.
      * exists []. split; [done|]. apply plain_word_of; [done|]. intros r' Hf. cbn [app]. rewrite Hread by done.
        rewrite (sign_follows _ r r' (chr "=")) by (done || auto). done.
    + destruct (head_is (chr "=") r) eqn:E1; [|done]. injection H as <- <-. exists [chr "="]. split; [by apply Htail|]. by apply plain_word_of.
Qed.

Lemma token_word c r t rest : read_token c r = Ok (t, rest) -> t <> TSym SEMICOLON -> exists w, r = w ++ rest /\ word_of c w rest t.
Proof.
  intros H Ht. destruct ((c =? QUOTE) || (c =? DQUOTE)) eqn:Hq; [by apply string_token|].
  destruct (is_digit c) eqn:Hd; [by apply digits_token|]. destruct (ident_start c) eqn:Hi; [by apply ident_token|].
  destruct ((c =? DASH) && peek_digit r) eqn:Hm; [|by apply symbol_token].
  apply andb_true_iff in Hm as [->%Z.eqb_eq Hp]. by apply dash_token.
Qed.

(** * The whole text *)

(** The text [w] of a bound value is the token [t]. *)
Definition literal (w : list Z) (t : Token) : Prop :=
  lexes w t /\ splits None w = Some None /\ head_is (chr "=") w = false /\ head_is (chr ">") w = false.

Lemma fill_head r lits : head_is QMARK r = false -> head (fill Code r lits) = head r.
Proof. destruct r as [|x r]; [done|]. cbn [head_is fill marker]. by intros ->. Qed.

Lemma whitespace_plain c : is_whitespace c = true -> plain c = true.
Proof.
  unfold plain, is_quote. intros H. rewrite !(proj2 (Z.eqb_neq _ _)); [done|..]; intros ->; by vm_compute in H.
Qed.

Lemma skip_word c w X : is_whitespace c = false -> (c = DASH -> w <> [] /\ head_is DASH w = false) ->
  skip_ws false (c :: w ++ X) = c :: w ++ X.
Proof.
  intros Hc Hd. apply skip_ws_start; [done|]. destruct (Z.eqb_spec c DASH) as [E|]; [|done]. destruct (Hd E) as [Hw Hh]. by destruct w.
Qed.

Lemma follows_fill t rest lits toks : head_is QMARK rest && negb (is_sym t) = false -> Forall2 literal lits toks ->
  follows t rest (fill Code rest lits).
Proof.
  intros Hq Hl. destruct (head_is QMARK rest) eqn:Eq; [|left; by apply fill_head]. cbn [andb] in Hq. apply negb_false_iff in Hq.
  destruct rest as [|x rest]; [done|]. apply Z.eqb_eq in Eq as ->. cbn [fill marker step]. rewrite Z.eqb_refl.
  destruct Hl as [|l t' lits toks (Hx & _ & H1 & H2) _]; [by left|]. right. right. split; [done|].
  destruct Hx as (c & w & -> & _). done.
Qed.

Lemma breaks_ends r lits : ends_literal r = true -> match fill Code r lits with x :: _ => breaks x | [] => True end.
Proof.
  destruct r as [|x r]; [done|]. cbn [ends_literal fill marker]. intros H. bsimp. rewrite (proj2 (Z.eqb_neq x QMARK)) by done. by split_and!.
Qed.

(** What the executed text is, as characters: its tokens, and one piece for the
    splitter. *)
Definition filled (slots : list Slot) (toks : list Token) (text : list Z) : Prop :=
  (exists f, lex_loop f text = Ret (Ok (fill_slots slots toks ++ [TEof]))) /\ (forall cur, split_go None cur text = piece (cur ++ text)).

Lemma filled_char c w t X slots toks toks' : is_whitespace c = false -> (c = DASH -> w <> [] /\ head_is DASH w = false) ->
  read_token c (w ++ X) = Ok (t, X) -> splits None (c :: w) = Some None -> forall slot,
  fill_slots (slot :: slots) toks' = t :: fill_slots slots toks -> filled slots toks X -> filled (slot :: slots) toks' ((c :: w) ++ X).
Proof.
  intros Hc Hd Hr Hs slot Hf [[f Hl] Hp]. split.
  - exists (S f). cbn [lex_loop app]. rewrite skip_word by done. rewrite Hr, Hl, Hf. done.
  - intros cur. rewrite (splits_go _ _ None None cur I Hs), Hp, <- app_assoc. done.
Qed.

Lemma template_filled fuel : forall cs slots lits toks, template_go fuel cs = Some slots -> Forall2 literal lits toks ->
  length lits = holes slots -> marks Code cs = holes slots /\ filled slots toks (fill Code cs lits).
Proof.
  induction fuel as [|fuel IH]; intros cs slots lits toks Ht Hl Hn; [done|]. cbn [template_go] in Ht. destruct cs as [|c r].
  { injection Ht as <-. split; [done|]. split; [by exists 1%nat|]. intros cur. cbn. by rewrite app_nil_r. }
  destruct (is_whitespace c) eqn:Ews; [|destruct (Z.eqb_spec c QMARK) as [->|Hq]].
  - destruct (IH r slots lits toks Ht Hl Hn) as (Hm & [f Hlex] & Hsp). destruct (plain_word [c] r) as [Ha Hs].
    { cbn. by rewrite (whitespace_plain c Ews). }
    destruct (after_fill [c] r Code Code Ha) as [Hf Hmk]. cbn [app] in *. rewrite Hmk, Hf. split; [done|]. split.
    + exists f. destruct f as [|f]; [done|]. cbn [lex_loop skip_ws] in *. by rewrite Ews.
    + intros cur. change (c :: fill Code r lits) with ([c] ++ fill Code r lits). rewrite (splits_go [c] _ None None cur I Hs), Hsp.
      by rewrite <- app_assoc.
  - destruct (ends_literal r) eqn:Ee; [|done]. apply fmap_Some in Ht as (slots' & Ht & ->). cbn in Hn.
    destruct Hl as [|l t lits toks (Hlx & Hs & _) Hl]; [done|]. cbn in Hn. destruct (IH r slots' lits toks Ht Hl (eq_add_S _ _ Hn)) as [Hm Hfl].
    cbn [marks fill marker step]. rewrite Z.eqb_refl. cbn. split; [by rewrite Hm|].
    destruct Hlx as (c & w & -> & H1 & H2 & H3 & H4). apply (filled_char c w t _ _ toks); try done.
    + intros Hc. specialize (H3 Hc). split; [done|]. by rewrite Hc in H2.
    + apply H4. by apply breaks_ends.
  - destruct ((c =? DASH) && head_is DASH r); [done|]. destruct (read_token c r) as [[t rest]| |] eqn:Er; [|done|done].
    destruct (_ || _) eqn:Eo; [done|]. apply orb_false_iff in Eo as [Hsemi%bool_decide_eq_false Eo].
    apply fmap_Some in Ht as (slots' & Ht & ->). destruct (token_word c r t rest Er Hsemi) as (w & -> & Ha & Hs & Hd & Hrd).
    destruct (IH rest slots' lits toks Ht Hl Hn) as [Hm Hfl]. destruct (after_fill (c :: w) rest Code Code Ha) as [Hf Hmk].
    change (c :: w ++ rest) with ((c :: w) ++ rest). rewrite Hmk, Hf. split; [done|].
    apply (filled_char c w t _ _ toks); try done. apply Hrd. by eapply follows_fill.
Qed.

(** * Trimming *)

(** Trailing white space changes no token. *)
Section trailing.
Context (ws : list Z) (Hws : forallb is_whitespace ws = true).

Lemma ws_head x : is_whitespace x = false -> forall r, head_is x (r ++ ws) = head_is x r.
Proof.
  intros Hx [|c r]; [|done]. cbn [app]. destruct ws as [|c ws']; [done|]. apply andb_true_iff in Hws as [Hc _]. cbn.
  apply Z.eqb_neq. by intros ->; congruence.
Qed.

Lemma ws_first (p : Z -> bool) : (forall c, is_whitespace c = true -> p c = false) -> match ws with c :: _ => p c = false | [] => True end.
Proof. intros Hp. destruct ws as [|c ws']; [done|]. apply andb_true_iff in Hws as [Hc _]. auto. Qed.

Lemma ws_not_ident c : is_whitespace c = true -> ident_char c = false.
Proof.
  intros H. apply not_true_iff_false. intros Hi. pose proof (ident_char_range c Hi). by rewrite not_ws in H by lia.
Qed.

Lemma ws_not_digit c : is_whitespace c = true -> is_digit c = false.
Proof. intros H%ws_not_ident. unfold ident_char, is_alphanumeric in H. by apply orb_false_iff in H as [[_ ?]%orb_false_iff _]. Qed.

Lemma skip_only_ws b : forall w, forallb is_whitespace w = true -> skip_ws b w = [].
Proof.
  intros w. revert b. induction w as [|c w IH]; intros b; [done|]. cbn [forallb skip_ws]. intros [Hc Hw]%andb_true_iff. rewrite Hc.
  destruct b; by apply IH.
Qed.

Lemma skip_trailing cs : forall b, skip_ws b (cs ++ ws) = match skip_ws b cs with [] => [] | l => l ++ ws end.
Proof.
  induction cs as [|c cs IH]; intros b; [cbn; by apply skip_only_ws|]. cbn [app skip_ws]. destruct b; [apply IH|].
  destruct (is_whitespace c); [apply IH|]. rewrite ws_head by done. destruct (_ && _); [apply IH|done].
Qed.

Lemma string_trailing q n : is_whitespace q = false -> forall r s rest, (length r <= n)%nat -> read_string q (r ++ ws) = Some (s, rest) ->
  exists r2, rest = r2 ++ ws /\ read_string q r = Some (s, r2).
Proof.
  intros Hq. assert (Hnone : forall w, forallb is_whitespace w = true -> read_string q w = None).
  { induction w as [|c w IH]; [done|]. cbn [forallb read_string]. intros [Hc Hw]%andb_true_iff. rewrite (proj2 (Z.eqb_neq c q)) by congruence. by rewrite (IH Hw). }
  induction n as [|n IH]; intros [|c r] s rest Hn H; cbn [length app] in *; try (by rewrite Hnone in H); try lia. cbn [read_string] in H |- *.
  destruct (Z.eqb_spec c q) as [->|Hc].
  - destruct r as [|c2 r]; cbn [app] in H.
    + pose proof (ws_head q Hq []) as Hh. cbn [app] in Hh. destruct ws as [|x ws']; [injection H as <- <-; by exists []|].
      cbn [head_is] in Hh. rewrite Hh in H. injection H as <- <-. by exists [].
    + destruct (c2 =? q).
      * destruct (read_string q (r ++ ws)) as [[s2 rest2]|] eqn:E; [|done]. injection H as <- <-. cbn [length] in Hn.
        destruct (IH r s2 rest2 ltac:(lia) E) as (r2 & -> & ->). by exists r2.
      * injection H as <- <-. by exists (c2 :: r).
  - destruct (read_string q (r ++ ws)) as [[s2 rest2]|] eqn:E; [|done]. injection H as <- <-.
    destruct (IH r s2 rest2 ltac:(lia) E) as (r2 & -> & ->). by exists r2.
Qed.

Lemma number_trailing r : forall f, number_tail f (r ++ ws) = ((number_tail f r).1, (number_tail f r).2 ++ ws).
Proof.
  induction r as [|c r IH]; intros f.
  - cbn. pose proof (ws_first is_digit ws_not_digit) as Hd. pose proof (ws_first (Z.eqb DOT)) as Ht. destruct ws as [|c w]; [done|].
    cbn. rewrite Hd, Z.eqb_sym, Ht; [done|]. intros x Hx. by apply Z.eqb_neq; intros <-.
  - cbn [app number_tail]. destruct (is_digit c); [|destruct (_ && _); [|done]]; rewrite IH; by destruct (number_tail _ r).
Qed.

Lemma span_trailing r : span ident_char (r ++ ws) = ((span ident_char r).1, (span ident_char r).2 ++ ws).
Proof.
  induction r as [|c r IH]; cbn [app span].
  - cbn. pose proof (ws_first ident_char ws_not_ident) as Hd. destruct ws as [|c w]; [done|]. cbn. by rewrite Hd.
  - destruct (ident_char c); [|done]. rewrite IH. by destruct (span ident_char r).
Qed.

Lemma read_number_trailing c r : read_number (c :: r ++ ws) = ((read_number (c :: r)).1, (read_number (c :: r)).2 ++ ws).
Proof.
  unfold read_number. destruct (c =? DASH); [rewrite number_trailing; by destruct (number_tail false r)|].
  apply (number_trailing (c :: r)).
Qed.

Lemma token_trailing c r t rest : read_token c (r ++ ws) = Ok (t, rest) -> exists r2, rest = r2 ++ ws /\ read_token c r = Ok (t, r2).
Proof.
  assert (Hpk : peek_digit (r ++ ws) = peek_digit r).
  { destruct r; [|done]. cbn. pose proof (ws_first is_digit ws_not_digit). by destruct ws. }
  assert (Htl : forall x, head_is x r = true -> tail (r ++ ws) = tail r ++ ws) by by destruct r.
  unfold read_token. change (c :: r ++ ws) with ((c :: r) ++ ws). unfold read_ident. rewrite Hpk, span_trailing, !(ws_head (chr _)) by done.
  cbn [app]. rewrite read_number_trailing.
  destruct ((c =? QUOTE) || (c =? DQUOTE)) eqn:Eq.
  { destruct (read_string c (r ++ ws)) as [[s r2]|] eqn:E; [|done]. intros [= <- <-].
    destruct (string_trailing c (length r)) with (r := r) (s := s) (rest := r2) as (r3 & -> & ->); [|done|done|by exists r3].
    by apply orb_true_iff in Eq as [->%Z.eqb_eq| ->%Z.eqb_eq]. }
  destruct (read_number (c :: r)) as [n r3]. destruct (span ident_char (c :: r)) as [i r4]. cbn [fst snd].
  repeat (match goal with |- context [if ?b then _ else _] => destruct b eqn:? end); intros H; try done; injection H as <- <-; eauto.
Qed.

Lemma lex_trailing f : forall cs ts, lex_loop f (cs ++ ws) = Ret (Ok ts) -> lex_loop f cs = Ret (Ok ts).
Proof.
  induction f as [|f IH]; intros cs ts H; [done|]. cbn [lex_loop] in *. rewrite skip_trailing in H.
  destruct (skip_ws false cs) as [|c r]; [done|]. cbn [app] in H. destruct (read_token c (r ++ ws)) as [[t rest]| |] eqn:E; try done.
  apply token_trailing in E as (r2 & -> & ->). destruct (lex_loop f (r2 ++ ws)) as [[ts'| |]| |] eqn:El; try done.
  by rewrite (IH r2 ts' El).
Qed.

End trailing.

Lemma trim_start_split cs : exists w, forallb is_whitespace w = true /\ cs = w ++ trim_start cs.
Proof.
  induction cs as [|c cs (w & Hw & E)]; [by exists []|]. cbn [trim_start]. destruct (is_whitespace c) eqn:Ec; [|by exists []].
  exists (c :: w). cbn. rewrite Ec. split; [done|]. by f_equal.
Qed.

Lemma trim_chars_split cs : exists w1 w2, forallb is_whitespace w1 = true /\ forallb is_whitespace w2 = true /\ cs = w1 ++ trim_chars cs ++ w2.
Proof.
  destruct (trim_start_split cs) as (w1 & H1 & E1). destruct (trim_start_split (rev (trim_start cs))) as (w2 & H2 & E2).
  exists w1, (rev w2). split_and!; [done|..].
  - rewrite forallb_forall in *. intros x Hx%in_rev. auto.
  - unfold trim_chars. rewrite <- rev_app_distr, <- E2, rev_involutive. done.
Qed.

Lemma skip_leading w cs : forallb is_whitespace w = true -> skip_ws false (w ++ cs) = skip_ws false cs.
Proof. induction w as [|c w IH]; [done|]. cbn [forallb app skip_ws]. intros [-> Hw]%andb_true_iff. auto. Qed.

Lemma lex_trim f cs ts : lex_loop f cs = Ret (Ok ts) -> lex_loop f (trim_chars cs) = Ret (Ok ts).
Proof.
  destruct (trim_chars_split cs) as (w1 & w2 & H1 & H2 & E). intros H. rewrite E in H. apply (lex_trailing w2 H2).
  destruct f as [|f]; [done|]. cbn [lex_loop] in *. by rewrite skip_leading in H.
Qed.

(** * Literals *)

Lemma splits_quiet w : forallb (fun c => negb (is_quote c || (c =? SEMICOLON))) w = true -> splits None w = Some None.
Proof.
  induction w as [|c w IH]; [done|]. cbn [forallb splits snext]. intros [Hc Hw]%andb_true_iff. bsimp.
  repeat match goal with H : is_quote c = false |- _ => rewrite H end. rewrite (proj2 (Z.eqb_neq c SEMICOLON)) by done. by apply IH.
Qed.

Lemma ascii_id s : Forall (fun c => 0 <= c < 128) s -> chars s = s /\ utf8_valid s = true.
Proof.
  intros Ha. assert (Hs : Forall scalar s) by (eapply Forall_impl; [exact Ha|apply scalar_range]).
  destruct (of_chars_valid s Hs) as [H1 H2]. by rewrite (ascii_chars s Ha) in H1, H2.
Qed.

Lemma ident_literal s : ident s = true -> literal (chars s) (TIdent s) /\ utf8_valid s = true.
Proof.
  intros Hi. assert (Hc : forallb ident_char s = true).
  { destruct s as [|c s]; [done|]. cbn [ident forallb] in *. apply andb_true_iff in Hi as [H ->]. by rewrite ?(ident_start_char c H). }
  destruct (ascii_id s (ident_ascii s Hc)) as [-> Hu]. split; [|done]. split_and!.
  - by apply lexes_ident.
  - apply plain_word with (rest := []). eapply forallb_impl; [apply ident_char_plain|done].
  - destruct s as [|c s]; [done|]. apply andb_true_iff in Hi as [H _]. apply Z.eqb_neq. by intros ->.
  - destruct s as [|c s]; [done|]. apply andb_true_iff in Hi as [H _]. apply Z.eqb_neq. by intros ->.
Qed.

Lemma number_literal s : number_ok s = true -> literal (chars s) (TNumber s) /\ utf8_valid s = true.
Proof.
  intros Hn. pose proof (lexes_number s Hn) as Hl. destruct s as [|c s]; [done|]. cbn [number_ok] in Hn.
  apply andb_true_iff in Hn as [Hc Hr%bool_decide_eq_true]. destruct (ascii_id (c :: s) (read_number_ascii _ _ _ Hr)) as [-> Hu]. split; [|done].
  assert (Hall : forallb (fun x => is_digit x || (x =? DOT) || (x =? DASH)) (c :: s) = true).
  { unfold read_number in Hr. destruct (c =? DASH) eqn:Ed.
    - destruct (number_tail false s) as [a b] eqn:E. injection Hr as -> ->. destruct (number_tail_word _ _ _ _ E) as (_ & H & _).
      cbn [forallb]. rewrite Ed, orb_true_r. eapply forallb_impl; [|exact H]. intros x ->. done.
    - destruct (number_tail_word _ _ _ _ Hr) as (_ & H & _). eapply forallb_impl; [|exact H]. intros x ->. done. }
  split_and!; [exact Hl|..].
  - apply splits_quiet. eapply forallb_impl; [|exact Hall]. intros x [Hx| ->%Z.eqb_eq]%orb_true_iff; [|done].
    apply number_char_plain in Hx. unfold plain in Hx. bsimp.
    match goal with H : is_quote x = false |- _ => rewrite H end. by rewrite (proj2 (Z.eqb_neq x SEMICOLON)).
  - apply andb_true_iff in Hall as [H _]. apply Z.eqb_neq. by intros ->.
  - apply andb_true_iff in Hall as [H _]. apply Z.eqb_neq. by intros ->.
Qed.

Lemma double_quotes_eq cs : double_quotes cs = double cs.
Proof. induction cs as [|c cs IH]; [done|]. cbn. by rewrite IH. Qed.

Lemma splits_string cs : splits (Some QUOTE) (double cs ++ [QUOTE]) = Some None.
Proof.
  induction cs as [|c cs IH]; [done|]. cbn [double]. destruct (Z.eqb_spec c QUOTE) as [->|Hc]; cbn [app splits snext].
  - exact IH.
  - rewrite (proj2 (Z.eqb_neq c QUOTE)) by done. exact IH.
Qed.

Lemma string_literal s : utf8_valid s = true -> literal (chars (quoted s)) (TStr s) /\ utf8_valid (quoted s) = true.
Proof.
  intros Hs. pose proof (chars_valid s Hs) as [_ Hc]. assert (scalar QUOTE) by (apply scalar_range; unfold QUOTE; lia).
  assert (Hq : Forall scalar (QUOTE :: double_quotes (chars s) ++ [QUOTE])).
  { constructor; [done|]. rewrite double_quotes_eq. apply Forall_app. split; [by apply double_scalar|by apply Forall_singleton]. }
  unfold quoted. destruct (of_chars_valid _ Hq) as [Hu ->]. split; [|done]. rewrite double_quotes_eq. split_and!; [by apply lexes_str| |done..].
  cbn [splits snext]. apply splits_string.
Qed.

(** The characters of a formatted time. *)
Definition time_char (c : Z) : Prop := 32 <= c < 128 /\ c <> QUOTE.

Lemma digits_time z : 0 <= z -> Forall time_char (digits z).
Proof.
  intros Hz. destruct (digits_spec z Hz) as [Hd _]. unfold digs in Hd. rewrite forallb_forall in Hd. apply Forall_forall.
  intros x Hx%list_elem_of_In%Hd%digit_range. unfold time_char, QUOTE. lia.
Qed.

Lemma zeros_time n : Forall time_char (zeros n).
Proof. apply Forall_replicate. unfold time_char, QUOTE. lia. Qed.

Lemma fmt_pad_time w z : Forall time_char (fmt_pad w z).
Proof.
  unfold fmt_pad. destruct (Z.ltb_spec z 0).
  - constructor; [unfold time_char, QUOTE; lia|]. apply Forall_app. split; [apply zeros_time|apply digits_time; lia].
  - apply Forall_app. split; [apply zeros_time|by apply digits_time].
Qed.

Lemma format_time v : Forall time_char (format_datetime_micros v).
Proof.
  unfold format_datetime_micros. destruct (days_to_ymd _) as [[y m] d].
  assert (H : forall c, 32 <= c < 128 -> c <> QUOTE -> Forall time_char [c]) by (intros; by apply Forall_singleton).
  repeat (apply Forall_app; split); try apply fmt_pad_time; try (apply H; unfold QUOTE; lia).
  destruct (0 <? _); [|constructor]. apply Forall_app. split; [apply H; unfold QUOTE; lia|apply fmt_pad_time].
Qed.

Lemma double_plain cs : Forall time_char cs -> double cs = cs.
Proof. induction 1 as [|c cs [_ Hc] _ IH]; [done|]. cbn [double]. rewrite (proj2 (Z.eqb_neq c QUOTE)) by done. by f_equal. Qed.

Lemma quoted_time v : str "'" ++ format_datetime_micros v ++ str "'" = quoted (format_datetime_micros v) /\
  utf8_valid (format_datetime_micros v) = true.
Proof.
  pose proof (format_time v) as Ht. assert (Ha : Forall (fun c => 0 <= c < 128) (format_datetime_micros v)).
  { eapply Forall_impl; [exact Ht|]. intros c [? _]. lia. }
  destruct (ascii_id _ Ha) as [Hc Hu]. split; [|done]. unfold quoted. rewrite Hc, double_quotes_eq, double_plain by done.
  symmetry. apply ascii_chars. constructor; [split; by vm_compute|]. apply Forall_app. split; [done|]. apply Forall_singleton. split; by vm_compute.
Qed.

(** * The executed text *)

Lemma fill_scalar cs : Forall scalar cs -> forall st lits, Forall (Forall scalar) lits -> Forall scalar (fill st cs lits).
Proof.
  induction 1 as [|c cs Hc _ IH]; intros st lits Hl; [constructor|]. cbn [fill]. destruct (marker st c).
  - destruct Hl as [|l lits Hl1 Hl]; [by constructor; [|apply IH]|]. apply Forall_app. split; [done|by apply IH].
  - constructor; [done|by apply IH].
Qed.

Lemma trim_scalar cs : Forall scalar cs -> Forall scalar (trim_chars cs).
Proof. destruct (trim_chars_split cs) as (w1 & w2 & _ & _ & E). rewrite E at 1. by intros [_ [? _]%Forall_app]%Forall_app. Qed.

Lemma tokenize_chars X f ts : Forall scalar X -> lex_loop f X = Ret (Ok ts) -> tokenize (of_chars X) = Ret (Ok ts).
Proof.
  intros HX Hf. unfold tokenize. rewrite (proj2 (of_chars_valid X HX)).
  destruct (lex_loop_total (S (length X)) X ltac:(lia)) as (r & Hr & _). rewrite Hr.
  assert (H1 : lex_loop (f + S (length X)) X = Ret r) by (eapply lex_loop_mono; [|exact Hr]; lia).
  assert (H2 : lex_loop (f + S (length X)) X = Ret (Ok ts)) by (eapply lex_loop_mono; [|exact Hf]; lia). congruence.
Qed.

Section bound.
Context (f64_show f64_show_17 : Z -> bytes).

Lemma datum_is_literal d : bindable f64_show f64_show_17 d = true ->
  literal (chars (datum_literal f64_show f64_show_17 d)) (datum_token f64_show f64_show_17 d) /\
  utf8_valid (datum_literal f64_show f64_show_17 d) = true.
Proof.
  destruct d as [|n|v|s|b|v]; cbn [bindable datum_literal datum_token]; intros H.
  - by apply ident_literal.
  - apply number_literal, number_ok_show.
  - destruct (number_ok _) eqn:Hn; [by apply number_literal|].
    apply orb_true_iff in H as [->%bool_decide_eq_true| ->%bool_decide_eq_true]; by apply ident_literal.
  - by apply string_literal.
  - destruct b; by apply ident_literal.
  - destruct (quoted_time v) as [-> Hu]. by apply string_literal.
Qed.

(** C5: a bound value cannot change the statement it is bound to: for a text
    whose markers stand by themselves, with no comment and no [;], executing it
    with values of any kind and content (text with quotes, semicolons or comment
    signs included) runs exactly one statement, and its tokens are those of the
    prepared text with each marker replaced by the one token of its value.  That
    token is a literal except for two doubles: an infinity and a NaN become the
    bare names [inf] and [NaN] ([nan_reads_a_column]).  The double [-inf] is
    left out: it is no token at all, and the text is refused
    ([minus_infinity_refused]). *)
Theorem parameters_stay_literals sql slots values : utf8_valid sql = true -> template sql = Some slots -> length values = holes slots ->
  Forall (fun d => bindable f64_show f64_show_17 d = true) values ->
  exists text, execute_batch sql (find_placeholders sql) (datum_literal f64_show f64_show_17 <$> values) = Ok [text] /\
    tokenize text = Ret (Ok (fill_slots slots (datum_token f64_show f64_show_17 <$> values) ++ [TEof])).
Proof.
  intros Hu Ht Hn Hb. set (lits := (fun d => chars (datum_literal f64_show f64_show_17 d)) <$> values).
  assert (Hl : Forall2 literal lits (datum_token f64_show f64_show_17 <$> values)).
  { apply Forall2_fmap, Forall_Forall2_diag. eapply Forall_impl; [exact Hb|]. intros d Hd. by apply datum_is_literal. }
  assert (He : datum_literal f64_show f64_show_17 <$> values = of_chars <$> lits).
  { unfold lits. rewrite <- list_fmap_compose. apply list_fmap_ext. intros i d Hd. rewrite Forall_lookup in Hb.
    specialize (Hb i d Hd). apply datum_is_literal in Hb as [_ Hv]. apply chars_valid in Hv as [Hv _]. symmetry. exact Hv. }
  destruct (template_filled _ (chars sql) slots lits _ Ht Hl) as (Hm & [f Hlex] & Hsp); [by unfold lits; rewrite length_fmap|].
  rewrite He. unfold execute_batch. rewrite substitute_fill by (done || (unfold lits; by rewrite length_fmap, Hn, Hm)).
  cbn [mbind res_bind mret res_ret]. set (F := fill Code (chars sql) lits) in *.
  assert (HF : Forall scalar F).
  { apply fill_scalar; [by apply chars_valid|]. unfold lits. apply Forall_fmap. eapply Forall_impl; [exact Hb|].
    intros d Hd. apply datum_is_literal in Hd as [_ Hv]. by apply chars_valid. }
  unfold split_statements. rewrite (proj2 (of_chars_valid F HF)), Hsp. cbn [app]. unfold piece.
  destruct (trim_chars F) as [|x X] eqn:Et; cbn [fmap list_fmap]; eexists; (split; [done|]); eapply tokenize_chars; try done.
  - rewrite <- Et. by apply trim_scalar.
  - rewrite <- Et. by apply lex_trim, Hlex.
Qed.
End bound.

(** A bound NaN is a name, so a column of that name takes its place: what runs
    is the text a client would have sent to read the column. *)
Lemma nan_reads_a_column f64_show f64_show_17 v : f64_show v = str "NaN" -> f64_show_17 v = str "NaN" ->
  let sql := str "UPDATE t SET x = ?" in
  execute_batch sql (find_placeholders sql) [datum_literal f64_show f64_show_17 (Float v)] = Ok [str "UPDATE t SET x = NaN"] /\
  datum_token f64_show f64_show_17 (Float v) = TIdent (str "NaN").
Proof. intros H1 H2. cbn [datum_literal datum_token]. unfold render_float. rewrite H1, H2. split; by vm_compute. Qed.

(** A sign without a digit behind it starts no token. *)
Lemma minus_infinity_refused f64_show f64_show_17 v : f64_show v = str "-inf" -> f64_show_17 v = str "-inf" ->
  tokenize (str "SELECT " ++ datum_literal f64_show f64_show_17 (Float v)) = Ret (Err (ParseError (str "unexpected character '-'"))).
Proof. intros H1 H2. cbn [datum_literal]. unfold render_float. rewrite H1, H2. by vm_compute. Qed.

(** * Lossy decoding *)

(** Text that is UTF-8 comes through unchanged. *)
Lemma lossy_valid s : utf8_valid s = true -> from_utf8_lossy s = s.
Proof.
  remember (length s) as n eqn:Hn. assert (length s <= n)%nat as Hle by lia. clear Hn. revert s Hle.
  induction n as [|n IH]; intros [|b0 s] Hle H; cbn [length] in Hle; try done; try lia.
  cbn [utf8_valid] in H. utf8_step; cbn [length] in Hle; try done.
  all: cbn [from_utf8_lossy]; unfold announced.
  all: repeat match goal with
    | |- context [cont ?x] => change (cont x) with (between 0x80 x 0xBF)
    | |- context [between ?x ?y ?z] =>
      destruct (decide (x <= y <= z)); [rewrite (between_in x y z) by lia|rewrite (between_out x y z) by lia]; try (exfalso; lia); cbn [orb negb]; cbv beta iota
    | |- context [?x =? ?y] => destruct (Z.eqb_spec x y); try (exfalso; lia); cbv beta iota
    end.
  all: match goal with Hv : utf8_valid ?r = true |- _ => rewrite (IH r ltac:(lia) Hv) end; done.
Qed.

(** * What a connection can hold *)

Definition prepared_wf (p : Prepared) : Prop :=
  Zlen (pr_offsets p) <= MAX_PARAMS_PER_STMT /\ length (pr_long p) = num_params p /\
  Forall (fun d => Zlen d <= MAX_LONG_DATA_PER_PARAM) (pr_long p) /\
  (forall t, pr_types p = Some t -> length t = num_params p).

Definition conn_wf (cn : Conn) : Prop :=
  Z.of_nat (size (cn_stmts cn)) <= MAX_PREPARED_PER_CONN /\ 1 <= cn_next cn < 2 ^ 32 /\ map_Forall (fun _ p => prepared_wf p) (cn_stmts cn).

Lemma with_stmt_wf id p q cn : conn_wf cn -> cn_stmts cn !! id = Some q -> prepared_wf p -> conn_wf (with_stmt id p cn).
Proof.
  intros (Hs & Hn & Hp) Hq Hw. split_and!; [|apply Hn|apply Hn|by apply map_Forall_insert_2]. cbn. by rewrite map_size_insert, Hq.
Qed.

Lemma empty_long_ok n : Forall (fun d : bytes => Zlen d <= MAX_LONG_DATA_PER_PARAM) (replicate n []).
Proof. by apply Forall_replicate. Qed.

Lemma reset_wf p : prepared_wf p -> prepared_wf (reset_long_data p).
Proof. intros (? & Hl & _ & ?). split_and!; [done| |apply empty_long_ok|done]. cbn. by rewrite length_replicate. Qed.

Lemma decode_types_length buf n cached ld values types : decode_execute_params buf n cached ld = Ok (values, types) -> length types = n.
Proof.
  unfold decode_execute_params. destruct (Nat.eqb_spec n 0) as [->|]; [destruct (negb _); [done|by intros [= <- <-]]|].
  destruct (Nat.ltb _ _); [done|]. destruct (if _ =? 1 then _ else _) as [[t r]| |]; try done. cbn [mbind res_bind].
  destruct (Nat.eqb_spec (length t) n) as [Hl|]; [|done]. cbn [negb]. destruct (decode_values _ _ _ _ _ _) as [[vs pos]| |]; try done.
  cbn [mbind res_bind]. destruct (negb _); [done|]. by intros [= <- <-].
Qed.

Section conn.
Context (describe : bytes -> res (list (bytes * ColumnType))) (f64_show f64_show_17 : Z -> bytes).

Lemma prepare_wf deof payload cn cn' a : conn_wf cn -> com_prepare describe deof payload cn = Ok (cn', a) -> conn_wf cn'.
Proof.
  intros (Hs & Hn & Hp). unfold com_prepare. case_bool_decide; [by intros [= <- <-]|]. destruct (1 <? _); [by intros [= <- <-]|].
  destruct (Z.ltb_spec MAX_PARAMS_PER_STMT (Zlen (find_placeholders (trim (from_utf8_lossy (tail payload)))))) as [|Ho]; [by intros [= <- <-]|].
  destruct (neutralize_placeholders _ _) as [neutral| |]; try done. cbn [mbind res_bind].
  destruct (describe neutral) as [cols|e|]; [|by intros [= <- <-]|done].
  destruct (Z.leb_spec MAX_PREPARED_PER_CONN (Z.of_nat (size (cn_stmts cn)))) as [|Hsz]; [by intros [= <- <-]|].
  intros Heq%Ok_eq. injection Heq as <- _. split_and!; cbn [cn_stmts cn_next].
  - rewrite map_size_insert. destruct (cn_stmts cn !! _); cbn; lia.
  - lia.
  - pose proof (wrap_u_range 32 (cn_next cn + 1) ltac:(lia)). widths. lia.
  - apply map_Forall_insert_2; [|done]. split_and!; [done|cbn; by rewrite length_replicate|apply empty_long_ok|done].
Qed.

Lemma execute_wf payload cn cn' a : conn_wf cn -> com_execute f64_show f64_show_17 payload cn = Ok (cn', a) -> conn_wf cn'.
Proof.
  intros Hc. unfold com_execute. destruct (_ <? _); [by intros [= <- <-]|]. destruct (cn_stmts cn !! _) as [ps|] eqn:E; [|by intros [= <- <-]].
  destruct (pr_overflow ps); [by intros [= <- <-]|].
  destruct (decode_execute_params _ _ _ _) as [[values types]|[]|] eqn:Ed; try done; try (by intros [= <- <-]).
  destruct (execute_batch _ _ _) as [texts|[]|]; try done; try (by intros [= <- <-]). intros Heq%Ok_eq. injection Heq as <- _.
  pose proof (proj2 (proj2 Hc) _ _ E) as (Ho & Hl & Hd & _). eapply with_stmt_wf; [done|exact E|]. apply reset_wf. split_and!; [done..|].
  intros t [= <-]. by eapply decode_types_length.
Qed.

Lemma long_data_wf payload cn : conn_wf cn -> conn_wf (com_long_data payload cn).
Proof.
  intros Hc. unfold com_long_data. destruct (_ <? _); [done|]. destruct (cn_stmts cn !! _) as [ps|] eqn:E; [|done].
  destruct (pr_long ps !! _) as [data|] eqn:El; [|done]. pose proof (proj2 (proj2 Hc) _ _ E) as (Ho & Hl & Hd & Ht).
  destruct (Z.ltb_spec MAX_LONG_DATA_PER_PARAM (Zlen data + Zlen (drop 7 payload))); (eapply with_stmt_wf; [done|exact E|]); split_and!; try done.
  - cbn. by rewrite length_insert.
  - apply Forall_insert; [done|]. rewrite Zlen_app. lia.
Qed.

Lemma com_stmt_wf deof cmd payload cn cn' a : conn_wf cn -> com_stmt describe f64_show f64_show_17 deof cmd payload cn = Ok (cn', a) -> conn_wf cn'.
Proof.
  intros Hc. destruct cmd; cbn [com_stmt]; [by apply prepare_wf|by apply execute_wf|..]; intros Heq%Ok_eq.
  - injection Heq as <- _. by apply long_data_wf.
  - injection Heq as <- _. unfold com_close. destruct (_ <? _); [done|]. destruct Hc as (Hs & Hn & Hp). split_and!; [|apply Hn|apply Hn|by apply map_Forall_delete].
    cbn. rewrite map_size_delete. destruct (cn_stmts cn !! _); cbn; lia.
  - revert Heq. unfold com_reset. destruct (_ <? _); [by intros [= <- _]|]. destruct (cn_stmts cn !! _) as [ps|] eqn:E; [|by intros [= <- _]].
    intros [= <- _]. eapply with_stmt_wf; [done|exact E|]. apply reset_wf. by apply (proj2 (proj2 Hc) _ _ E).
  - by injection Heq as <- _.
Qed.

(** The connection behind a sequence of commands. *)
Fixpoint conn_run (deof : bool) (cmds : list (StmtCommand * bytes)) (cn : Conn) : res Conn :=
  match cmds with
  | [] => Ok cn
  | (cmd, payload) :: cmds => '(cn, _) ← com_stmt describe f64_show f64_show_17 deof cmd payload cn; conn_run deof cmds cn
  end.

(** However many commands a client sends and whatever they hold, a connection
    keeps at most 4096 statements of at most 4096 parameters, with at most
    16 MiB of long data each, and the cached types of a statement are one per
    parameter. *)
Lemma connection_bounded deof cmds cn : conn_run deof cmds conn_new = Ok cn -> conn_wf cn.
Proof.
  enough (forall c0, conn_wf c0 -> conn_run deof cmds c0 = Ok cn -> conn_wf cn) as H.
  { apply H. split_and!; [by vm_compute|by vm_compute|by vm_compute|apply map_Forall_empty]. }
  induction cmds as [|[cmd payload] cmds IH]; intros c0 Hc; cbn [conn_run]; [by intros <-%Ok_eq|].
  destruct (com_stmt _ _ _ _ _ _ _) as [[c1 a]| |] eqn:E; try done. cbn [mbind res_bind]. apply IH. by eapply com_stmt_wf.
Qed.
End conn.

(** * Witness *)

Definition demo_sql : bytes := str "SELECT a FROM t WHERE b = ? AND c IN (?, ?) LIMIT 5".
Definition demo_values : list Datum := [Text (str "x'; DROP TABLE t; --"); Int (-1); Float 0x7FF8000000000000].
Definition demo_show (v : Z) : bytes := str "NaN".

Lemma parameters_stay_literals_witness : exists text,
  execute_batch demo_sql (find_placeholders demo_sql) (datum_literal demo_show demo_show <$> demo_values) = Ok [text] /\
  tokenize text = Ret (Ok (fill_slots (default [] (template demo_sql)) (datum_token demo_show demo_show <$> demo_values) ++ [TEof])).
Proof.
  apply (parameters_stay_literals demo_show demo_show demo_sql (default [] (template demo_sql)) demo_values).
  - by vm_compute.
  - by vm_compute.
  - by vm_compute.
  - by repeat constructor.
Defined.
